(* ===== verification/_CoqProject ===== *)
-Q . S2P
Prelude.v
Buffer.v
BufferSpec.v
BufferCodecs.v
BufferTheorems.v
BufferViews.v
BitPack.v
BitPackTheorems.v
Codec.v
CodecTheorems.v
Tcp.v
TcpTheorems.v
ReplayWindow.v
Encryption.v
EncryptionTheorems.v
CryptoExample.v
Compression.v
ZdtWire.v
ZdtWireSpec.v
ZdtWireTheorems.v
ZdtOffline.v
InetAddr.v
InetAddrTheorems.v
Admission.v
ZdtCookie.v
ZdtAckHistory.v
Binary64.v
ZdtCongestion.v
ZdtOptions.v
MpscQueue.v
Session.v
SessionPackets.v
SessionTheorems.v
SessionHandshake.v
SessionDelivery.v
SessionExamples.v
ZdtState.v
ZdtSend.v
ZdtAcks.v
ZdtReceive.v
ZdtFlush.v
MpscTheorems.v
OutboundQueue.v
ZdtTransport.v
ZdtServer.v
ZdtClient.v
ZdtMessages.v
ZdtDelivery.v
ZdtInvariant.v
ZdtSetup.v
ZdtServerTheorems.v
ZdtRate.v
ZdtConnect.v
ZdtServerExamples.v
ZdtReliability.v
ZdtEncrypted.v
EncryptionExamples.v
P2pPunch.v
Traversal.v
P2pMessages.v
TraversalTheorems.v
PunchTheorems.v
RendezvousWire.v
RendezvousWireTheorems.v
Rendezvous.v
RendezvousTheorems.v
RendezvousLiveness.v
P2pExamples.v
Agent.v
AgentTheorems.v
AgentSafety.v
AgentSessions.v
AgentExamples.v
ServerMain.v
ServerMainTheorems.v
ServerSessions.v
TcpBackends.v
TcpBackendTheorems.v
ClientMain.v
ServerMainExamples.v
