(* ===== verification/Prelude.v ===== *)
(** * znet: a verification development

    znet is a networking library in C++: sessions that exchange packets over a
    transport, TCP or ZDT, a reliable protocol of its own over UDP.  This
    development models the path a packet takes between two applications, and the
    protocol state machines on that path, as executable Rocq functions translated
    from the source, and proves what makes them correct.

    ** The parts, and the files that model them

    From the application down (paths are under znet/include/znet and znet/src):

    - ServerMain.v: server.cc and server.h, the acceptor and the workers as operations
      whose interleavings are the steps of ServerMainTheorems.v, over the class
      [ServedSessions]; ServerSessions.v has its instance, a [PeerSession] over any
      transport whose [Close] closes.  ClientMain.v: client.cc, over the same
      class, with its theorems.  ServerMainExamples.v runs both with whole handshakes.
    - Session.v: peer_session.cc, message_pipeline.cc, the key exchange of
      encryption.cc, and transport.h as the class [TransportLayer].  A session is
      the record [PeerSession]; [Process], [SendPacket], [DrainOutbound],
      [Encode], [Decode], [Dispatch], [OnHandshakePacket] and
      [OnAcknowledgePacket] are the methods of those names.  SessionPackets.v has
      the images of the handshake packets, SessionTheorems.v the invariant of a
      session against any peer, SessionHandshake.v the exchange of two honest
      ones, SessionDelivery.v the packets after it.
    - OutboundQueue.v: outbound_queue.h, worker_signal.h and session_encoder.cc,
      with the interleavings of the application, the loop and the encoder thread
      as steps over shared state; MpscQueue.v and MpscTheorems.v: mpsc_queue.h.
    - Codec.v, CodecTheorems.v: codec.cc and codec.h, packets as frames, the
      application's serializers as arguments.
    - Compression.v: compression.h and compression.cc, zstd as the class [Zstd].
    - Encryption.v, ReplayWindow.v: encryption.h and encryption.cc, OpenSSL as
      the class [Crypto]; the calls that may fail ask an argument [evp].
      EncryptionTheorems.v has the channel a pair of layers makes, CryptoExample.v
      an instance that runs.
    - Tcp.v, TcpTheorems.v: the transport of backend/tcp.cc over a byte stream, what
      the socket answers being data; TcpBackends.v and TcpBackendTheorems.v:
      its two backends over the table of open descriptors.
    - ZDT, the reliable UDP transport: ZdtWire.v (zdt_wire.h, zdt_wire.cc: headers,
      records, offline messages, cookies), ZdtOffline.v, ZdtWireSpec.v,
      ZdtWireTheorems.v; ZdtAckHistory.v (zdt_ack_history.cc); ZdtCongestion.v
      (zdt_congestion.cc) over Binary64.v, double arithmetic with its rounding;
      ZdtOptions.v (send_options.h, options.h); and zdt_transport.cc in ZdtState.v
      (its data), ZdtSend.v, ZdtAcks.v, ZdtReceive.v, ZdtFlush.v and ZdtTransport.v.
      ZdtDelivery.v, ZdtInvariant.v and ZdtReliability.v hold the theorems,
      ZdtEncrypted.v the composition of delivery with encryption.
    - Getting connected over ZDT: ZdtServer.v and ZdtClient.v (zdt_backends.cc) are
      the two backends, the record [ServerBackend] with its routes, pending
      sessions and rate table, and [ClientBackend]; one definition per method, the
      handler of offline messages split by message.  The server's sessions are a
      heap of transports, so a weak pointer is a number that may be missing from
      it.  ZdtCookie.v (zdt_cookie.cc) has the rotating secret, Admission.v
      (admission.cc) the lists and the throttle, InetAddr.v (inet_addr.cc)
      addresses and CIDR blocks.  ZdtMessages.v has the images of the messages,
      ZdtServerTheorems.v, ZdtRate.v and ZdtConnect.v the theorems, ZdtSetup.v
      what a transport never changes, ZdtServerExamples.v the claims at work.
    - Buffer.v: buffer.h, on which all of it rests.  A buffer is its memory, two
      cursors, a read limit, its last error and [ub_], whether the code has ever
      read or written outside its allocation; what the code takes from the machine
      is the class [Platform].  BufferSpec.v, BufferCodecs.v, BufferTheorems.v and
      BufferViews.v have its theory.
    - Peer-to-peer (p2p/): P2pPunch.v (internal/zdt_punch.cc, internal/gather.cc,
      punch.h) has the punch and the reflector probe as the state machines they
      are, Traversal.v (traversal_server.cc) the reflector, the relay and their
      loop, RendezvousWire.v (rendezvous.h) the packets of the rendezvous link and
      Rendezvous.v (rendezvous_server.cc, util.cc) the broker: its handlers and the
      steps of its pairing thread, one per time it takes the lock, over a heap of
      client data.  P2pMessages.v has the images of the offline messages;
      PunchTheorems.v, TraversalTheorems.v, RendezvousWireTheorems.v,
      RendezvousTheorems.v (safety, by induction over executions) and
      RendezvousLiveness.v the theorems, P2pExamples.v the claims at work.  Agent.v
      (p2p/agent.cc) is the agent that runs the machines over a socket: [TickLoop] is a
      turn of its thread, with its datagrams, requests and deadlines, over the class
      [Sessions]; AgentTheorems.v and AgentSafety.v have what every interleaving keeps,
      AgentSessions.v the instance by a [PeerSession] over the ZDT transport, and
      AgentExamples.v two agents that meet ([agents_meet]).
    - BitPack.v, BitPackTheorems.v: the bit packing extension.
    - SessionExamples.v and EncryptionExamples.v run the theorems at concrete
      inputs.

    This file has the integers, byte strings and list lemmas the others share.

    ** What the theorems show

    - End to end: two honest sessions connect and each application receives
      exactly what the other queued ([sessions_deliver], [handshake_completes]).
    - Delivery over ZDT under loss, reordering and duplication, by mode, for records
      that arrive within 2^15 messages of the receiver's position; what
      acknowledgments may retire; that a reported loss is resent; the invariant of
      every reachable transport state; finality of closing.
    - Connecting: a client and a willing server end with mirrored connections
      ([zdt_connects]); the handshake always returns; in every reachable state of
      the server its tables agree with each other and with its sessions; nothing is
      allocated and no route moves without a cookie for the source; answers, rates
      and admissions are bounded; a rule matches exactly its block.
    - Peers finding each other: an offer goes out only to two clients that asked for
      one another, once per pair of asks, and two that did are offered one another
      whatever else is queued, unless an earlier holder of a name left an ask behind;
      exactly one of two peers initiates and two punches
      that hear each other mirror; the relay joins exactly the two that present its
      token and its port cannot amplify; a probe learns the mapping a reflector sees.
    - The agent: every request is answered exactly once, no turn leaves a deadline
      overdue, a success is a session that is ready, a session moves only to an address
      that has proved itself, and every session made is in the table or closed.
    - The server and the client: events pair up under every interleaving, the cap on
      connections holds although the workers' counts lag, a shutdown leaves nothing open; each attempt of a client is
      told one ending, and one with a deadline is settled.  The TCP backends account for
      their descriptors and take the first connection that is admitted.
    - The ack history and the replay window refine sets; the rings refine lists;
      while one thread drains, every queued packet goes out with its next tick.
    - Congestion control: bounds of the window, one reduction per loss epoch.
    - Secrecy's preconditions: no nonce is used twice in a session's life, only
      authentic new messages are delivered, a server's policy is enforced.
    - Memory safety of the readers and writers on any bytes, guards of the
      parsers, termination of decoding, round trips of headers, records, frames,
      compression, bit fields.
    - Defects, each proved of the code as it is: among them a stale cursor that
      stalls the outbound queue, an encoder that sleeps on a queue, a destroyed
      codec that a peer can have run, messages the replay window drops from
      reliable unordered channels, a server that answers a new client from an old
      session, a client that terminates when it connects again, a peer that
      leaves the broker before it is named and stays registered, a departed peer whose
      ask takes the offer of its namesake, a late copy that takes the place of the
      message 2^16 behind it, an agent whose relayed
      punch swallows its answer and that rebinds after it was stopped, a server that
      serves nobody once restarted, and sockets the TCP backends leak.

    ** Conventions, bounds and fuel

    An unsigned integer of w bits is a [Z] with its wrap-around written out ([u8]
    to [u64]); memory is a list of bytes.  Loops are structural where the code's
    are; [Codec.frames], [dispatch_frames] and the parsers take as fuel the bytes
    that are left, of which every round takes at least one (shown by
    [decoding_terminates]); [receive_loop] has the code's own bound of 256.
    The client's waits take a number of polls as fuel; [handshake_returns] shows
    that the polls a network allows before a deadline and one more are enough.
    The relay's walk to a free channel takes one step more than there are pairings
    ([allocate_returns]); the pairing thread as many steps as there is queued work,
    a swapped batch counting once and a queue twice ([mutual_asks_get_offers]).
    Random draws (guids, names, punch ids) are arguments; where the code draws until
    a value is free, the draws must contain one.  A clock is a function of how often
    it has been read, and the order in which a hash table is walked a function that
    yields its entries in some order ([walk]).
    Sizes in theorems (2^20 to 2^31 bytes) keep below the code's own casts to int
    and stand where an allocation is assumed to succeed ([AmplePlatform]).
    External code is a class with laws that state its documentation: [GcmLaws],
    [KdfLaws], [ZstdLaws], [CookieCryptoLaws], [InetLaws]; SessionExamples.v,
    ZdtCookie.v and InetAddrTheorems.v have instances of each.  The network a client
    sees is the class [Network], of which ZdtConnect.v has one with a server on it.

    ** Not modelled

    Sockets and system calls, the threads' own start and stop and their sleeps, log
    lines, metrics, hex dumps; OpenSSL and zstd; floating-point buffer fields and
    quantised bit fields; of server.cc and client.cc the parts that only pass on to the
    backend; of the peer-to-peer part the locators and the TCP punch (p2p/locator.cc,
    p2p/tcp/), which dispatch events between a client and the machines modelled here.
    Memory order: atomics are sequentially consistent. *)

From stdpp Require Export base tactics list list_numbers numbers gmap fin_maps sorting.
From Stdlib Require Export ZArith Lia.

#[global] Open Scope Z_scope.

(** ** Machine integers: a w-bit unsigned integer is a [Z] reduced modulo 2^w. *)

Definition u8 (z : Z) : Z := z mod 2 ^ 8.
Definition u16 (z : Z) : Z := z mod 2 ^ 16.
Definition u32 (z : Z) : Z := z mod 2 ^ 32.
Definition u64 (z : Z) : Z := z mod 2 ^ 64.

(** [static_cast<int16_t>] of a 16-bit value, two's complement. *)
Definition i16 (z : Z) : Z := (z + 2 ^ 15) mod 2 ^ 16 - 2 ^ 15.

Definition size_max : Z := 2 ^ 64 - 1.

(** A flag test [(flags & mask) != 0]. *)
Definition has_flag (flags mask : Z) : bool := negb (Z.land flags mask =? 0).

(** ** Byte strings *)

Abbreviation zlen l := (Z.of_nat (length l)).

Definition is_byte (b : Z) : Prop := 0 <= b < 256.
Definition bytes_ok (bs : list Z) : Prop := Forall is_byte bs.

(** [n] bytes starting at offset [off]. *)
Definition slice {A} (off n : Z) (l : list A) : list A :=
  take (Z.to_nat n) (drop (Z.to_nat off) l).

(** Overwrites the bytes of [l] from offset [off] with [bs]. *)
Definition splice {A} (off : Z) (bs l : list A) : list A :=
  take (Z.to_nat off) l ++ bs ++ drop (Z.to_nat off + length bs) l.

(** The little-endian image of an integer, and the integer of such an image. *)
Fixpoint le_bytes (n : nat) (v : Z) : list Z :=
  match n with
  | O => []
  | S n => v mod 256 :: le_bytes n (v / 256)
  end.

Fixpoint le_val (bs : list Z) : Z :=
  match bs with
  | [] => 0
  | b :: bs => b + 256 * le_val bs
  end.

(** ** Automation *)

Create HintDb znet discriminated.

(** Case analysis on the boolean comparisons of a goal, in arithmetic form. *)
Ltac bsplit :=
  repeat match goal with
  | H : (_ && _)%bool = true |- _ => apply andb_true_iff in H; destruct H
  | H : (_ || _)%bool = false |- _ => apply orb_false_iff in H; destruct H
  | H : (_ <? _) = true |- _ => apply Z.ltb_lt in H
  | H : (_ <? _) = false |- _ => apply Z.ltb_ge in H
  | H : (_ <=? _) = true |- _ => apply Z.leb_le in H
  | H : (_ <=? _) = false |- _ => apply Z.leb_gt in H
  | H : (_ =? _) = true |- _ => apply Z.eqb_eq in H
  | H : (_ =? _) = false |- _ => apply Z.eqb_neq in H
  | H : negb _ = true |- _ => apply negb_true_iff in H
  | H : negb _ = false |- _ => apply negb_false_iff in H
  end.

(** Unfolds the width reductions and the wrap-free cases of them. *)
Ltac wsmall :=
  unfold u8, u16, u32, u64 in *;
  repeat match goal with
  | |- context [?a mod ?m] => rewrite (Z.mod_small a m) by lia
  | H : context [?a mod ?m] |- _ => rewrite (Z.mod_small a m) in H by lia
  end.

(** ** Lemmas on machine integers *)

Lemma u8_small z : 0 <= z < 256 -> u8 z = z.
Proof. intros. unfold u8. apply Z.mod_small. lia. Qed.

Lemma u16_small z : 0 <= z < 65536 -> u16 z = z.
Proof. intros. unfold u16. apply Z.mod_small. lia. Qed.

Lemma u64_small z : 0 <= z <= size_max -> u64 z = z.
Proof. unfold size_max. intros. unfold u64. apply Z.mod_small. lia. Qed.

Lemma u16_range z : 0 <= u16 z < 65536.
Proof. apply Z.mod_pos_bound. lia. Qed.

Lemma u8_range z : 0 <= u8 z < 256.
Proof. apply Z.mod_pos_bound. lia. Qed.

Lemma u64_range z : 0 <= u64 z <= size_max.
Proof. unfold size_max, u64. pose proof (Z.mod_pos_bound z (2 ^ 64)). lia. Qed.

#[export] Hint Resolve u8_range u16_range u64_range : znet.

Lemma u16_idemp_sub a b : u16 (u16 a - b) = u16 (a - b).
Proof. unfold u16. apply Zminus_mod_idemp_l. Qed.

(** ** Lemmas on byte strings *)

Lemma bytes_ok_app l k : bytes_ok (l ++ k) <-> bytes_ok l /\ bytes_ok k.
Proof. apply Forall_app. Qed.

Lemma bytes_ok_rev l : bytes_ok l -> bytes_ok (rev l).
Proof. apply Forall_rev. Qed.

Lemma bytes_ok_repeat n b : is_byte b -> bytes_ok (repeat b n).
Proof. intros H. induction n; constructor; done. Qed.

Lemma length_le_bytes n v : length (le_bytes n v) = n.
Proof. revert v. induction n; intros; simpl; auto. Qed.

Lemma le_bytes_ok n v : bytes_ok (le_bytes n v).
Proof.
  revert v. induction n as [|n IH]; intros; constructor; [|apply IH].
  apply Z.mod_pos_bound. lia.
Qed.

Lemma le_val_range bs : bytes_ok bs -> 0 <= le_val bs < 256 ^ zlen bs.
Proof.
  induction 1 as [|b bs Hb _ IH]; [simpl; lia|].
  cbn [length le_val]. rewrite Nat2Z.inj_succ, Z.pow_succ_r by lia.
  unfold is_byte in Hb. nia.
Qed.

Lemma le_val_bytes n v : 0 <= v < 256 ^ Z.of_nat n -> le_val (le_bytes n v) = v.
Proof.
  revert v. induction n as [|n IH]; intros v Hv; [simpl in *; lia|].
  rewrite Nat2Z.inj_succ, Z.pow_succ_r in Hv by lia.
  simpl. rewrite IH.
  - pose proof (Z_div_mod_eq_full v 256). lia.
  - split; [apply Z.div_pos; lia|]. apply Z.div_lt_upper_bound; lia.
Qed.

Lemma le_bytes_val bs : bytes_ok bs -> le_bytes (length bs) (le_val bs) = bs.
Proof.
  induction 1 as [|b bs Hb _ IH]; [done|]. simpl. unfold is_byte in Hb.
  replace (b + 256 * le_val bs) with (b + le_val bs * 256) by lia.
  rewrite Z.mod_add, Z.div_add, Z.mod_small, Z.div_small by lia.
  by rewrite Z.add_0_l, IH.
Qed.

Lemma le_val_app l k : le_val (l ++ k) = le_val l + 256 ^ zlen l * le_val k.
Proof.
  induction l as [|b l IH]; cbn [app le_val length]; [lia|].
  rewrite IH, Nat2Z.inj_succ, Z.pow_succ_r by lia. lia.
Qed.

Lemma le_val_zeros n : le_val (repeat 0 n) = 0.
Proof. induction n; simpl; lia. Qed.

Lemma length_slice {A} off n (l : list A) :
  0 <= off -> 0 <= n -> off + n <= zlen l -> zlen (slice off n l) = n.
Proof. intros. unfold slice. rewrite length_take, length_drop. lia. Qed.

Lemma length_splice {A} off (bs l : list A) :
  0 <= off -> off + zlen bs <= zlen l -> length (splice off bs l) = length l.
Proof.
  intros. unfold splice. rewrite !length_app, length_take, length_drop. lia.
Qed.

Lemma slice_bytes_ok off n l : bytes_ok l -> bytes_ok (slice off n l).
Proof. intros. by apply Forall_take, Forall_drop. Qed.

Lemma splice_bytes_ok off bs l : bytes_ok bs -> bytes_ok l -> bytes_ok (splice off bs l).
Proof.
  intros. unfold splice.
  apply Forall_app; split; [by apply Forall_take|].
  apply Forall_app; split; [done|by apply Forall_drop].
Qed.

(** Bytes just written are the ones read back. *)
Lemma slice_splice_eq {A} off (bs l : list A) :
  0 <= off <= zlen l -> slice off (zlen bs) (splice off bs l) = bs.
Proof.
  intros. unfold slice, splice.
  rewrite drop_app_length' by (rewrite length_take; lia).
  rewrite take_app_length' by lia. done.
Qed.

(** Bytes before a write are untouched. *)
Lemma slice_splice_before {A} o n off (bs l : list A) :
  0 <= o -> 0 <= n -> o + n <= off -> off <= zlen l ->
  slice o n (splice off bs l) = slice o n l.
Proof.
  intros. unfold slice, splice.
  rewrite drop_app_le by (rewrite length_take; lia).
  rewrite take_app_le by (rewrite length_drop, length_take; lia).
  rewrite !take_drop_commute, take_take. f_equal. f_equal. lia.
Qed.

Lemma slice_app {A} off n m (l : list A) :
  0 <= off -> 0 <= n -> 0 <= m ->
  slice off (n + m) l = slice off n l ++ slice (off + n) m l.
Proof.
  intros. unfold slice.
  rewrite <- (take_drop (Z.to_nat n) (take (Z.to_nat (n + m)) _)).
  rewrite take_take.
  replace (Z.to_nat (n + m)) with (Z.to_nat n + Z.to_nat m)%nat by lia.
  rewrite <- take_drop_commute, drop_drop.
  f_equal; f_equal; [lia|f_equal; lia].
Qed.

Lemma slice_all {A} (l : list A) : slice 0 (zlen l) l = l.
Proof. unfold slice. rewrite drop_0. apply take_ge. lia. Qed.

Lemma slice_nil {A} off n (l : list A) : n <= 0 -> slice off n l = [].
Proof. intros. unfold slice. by replace (Z.to_nat n) with 0%nat by lia. Qed.

(** A prefix of the bytes from [off] on. *)
Lemma slice_prefix {A} off n m (l p r : list A) :
  0 <= off -> n = zlen p -> n <= m -> slice off m l = p ++ r ->
  slice off n l = p /\ slice (off + n) (m - n) l = r.
Proof.
  intros Ho Hn Hm E.
  replace m with (n + (m - n)) in E by lia.
  rewrite slice_app in E by lia.
  apply app_inj_1 in E; [done|].
  assert (length (slice off n l) <= length p)%nat.
  { unfold slice. rewrite length_take. lia. }
  apply (f_equal length) in E as E'. rewrite !length_app in E'.
  destruct (decide (length (slice off n l) = length p)) as [|Hne]; [done|].
  exfalso. unfold slice in *. rewrite !length_take, !length_drop in *.
  assert (length p > length l - Z.to_nat off)%nat by lia. lia.
Qed.

(** A range inside the bytes written at the front. *)
Lemma slice_splice_front {A} o n (bs l : list A) :
  0 <= o -> 0 <= n -> o + n <= zlen bs -> slice o n (splice 0 bs l) = slice o n bs.
Proof.
  intros. unfold slice, splice. simpl.
  rewrite drop_app_le by lia. by rewrite take_app_le by (rewrite length_drop; lia).
Qed.

(** A range of a range. *)
Lemma slice_slice {A} o n w (l : list A) :
  0 <= o -> 0 <= n -> o + n <= w -> slice o n (slice 0 w l) = slice o n l.
Proof.
  intros. unfold slice. rewrite drop_0.
  rewrite !take_drop_commute, take_take. f_equal. f_equal. lia.
Qed.

Lemma bind_cons_eq {A B} (f : A -> list B) x l : (x :: l) ≫= f = f x ++ (l ≫= f).
Proof. done. Qed.

Lemma drop_repeat {A} (x : A) n m : drop n (repeat x m) = repeat x (m - n).
Proof. revert m. induction n; intros [|m]; simpl; auto. Qed.

Lemma lookup_repeat {A} (x : A) n i : (i < n)%nat -> repeat x n !! i = Some x.
Proof. revert i. induction n as [|n IH]; intros [|i] H; cbn; [lia|lia|done|]. apply IH. lia. Qed.

(** ** Bits *)

Lemma testbit_high b k i : 0 <= b < 2 ^ k -> 0 <= k <= i -> Z.testbit b i = false.
Proof.
  intros Hb Hi. rewrite <- (Z.mod_small b (2 ^ k)) by lia.
  apply Z.mod_pow2_bits_high. lia.
Qed.

Lemma land_shifted_low a b k : 0 <= k -> 0 <= b < 2 ^ k -> Z.land (a * 2 ^ k) b = 0.
Proof.
  intros Hk Hb. apply Z.bits_inj'. intros i Hi. rewrite Z.land_spec, Z.bits_0.
  destruct (Z.lt_ge_cases i k).
  - by rewrite Z.mul_pow2_bits_low.
  - rewrite (testbit_high b k i) by lia. apply andb_false_r.
Qed.

(** Or-ing a value below the shift is adding it. *)
Lemma lor_shifted_low a b k : 0 <= k -> 0 <= b < 2 ^ k -> Z.lor (a * 2 ^ k) b = a * 2 ^ k + b.
Proof.
  intros Hk Hb. pose proof (land_shifted_low a b k Hk Hb) as HL.
  rewrite Z.add_nocarry_lxor by done. by rewrite Z.lxor_lor.
Qed.
