(* ===== verification/Buffer.v ===== *)
(** * znet::Buffer (znet/include/znet/buffer.h)

    The growable byte buffer every znet message is written to and parsed from.
    The record [Buffer] has the class's fields; each operation is a total
    function that threads the buffer.  Memory the code touches outside its
    allocation (or through a null pointer) is undefined behaviour in C++: the
    ghost field [ub_] records that such an access happened, so "never sets
    [ub_]" is memory safety.  What the code takes from the machine, the byte
    order and [new (std::nothrow)], is the class [Platform]. *)

From S2P Require Import Prelude.

Inductive Endianness := LittleEndian | BigEndian.

#[export] Instance Endianness_eq_dec : EqDecision Endianness.
Proof. solve_decision. Defined.

Inductive BufferError :=
  | NoError | CannotAllocate | ReadOutOfBounds | CorruptedFormat | ReadLimitExceeded.

#[export] Instance BufferError_eq_dec : EqDecision BufferError.
Proof. solve_decision. Defined.

(** The machine: its byte order, and the nothrow array allocator.  An
    allocation yields as many (indeterminate) bytes as asked for, and no object
    is larger than half the address space. *)
Class Platform := {
  sys_endianness : Endianness;
  alloc : Z -> option (list Z);
  alloc_length n d : alloc n = Some d -> zlen d = n;
  alloc_bytes n d : alloc n = Some d -> bytes_ok d;
  alloc_bound n d : alloc n = Some d -> n < 2 ^ 63
}.

(** A platform on which requests up to 4 GiB are met. *)
Class AmplePlatform (P : Platform) : Prop :=
  alloc_ample n : 0 <= n <= 2 ^ 32 -> is_Some (alloc n).

Record Buffer := mkBuffer {
  endianness_ : Endianness;
  allocated_size_ : Z;
  write_cursor_ : Z;
  read_cursor_ : Z;
  read_limit_ : Z;
  data_ : option (list Z);
  last_error_ : BufferError;
  ub_ : bool
}.

Definition set_allocated_size v b := mkBuffer (endianness_ b) v (write_cursor_ b)
  (read_cursor_ b) (read_limit_ b) (data_ b) (last_error_ b) (ub_ b).
Definition set_write_cursor v b := mkBuffer (endianness_ b) (allocated_size_ b) v
  (read_cursor_ b) (read_limit_ b) (data_ b) (last_error_ b) (ub_ b).
Definition set_read_cursor v b := mkBuffer (endianness_ b) (allocated_size_ b)
  (write_cursor_ b) v (read_limit_ b) (data_ b) (last_error_ b) (ub_ b).
Definition set_read_limit v b := mkBuffer (endianness_ b) (allocated_size_ b)
  (write_cursor_ b) (read_cursor_ b) v (data_ b) (last_error_ b) (ub_ b).
Definition set_data v b := mkBuffer (endianness_ b) (allocated_size_ b)
  (write_cursor_ b) (read_cursor_ b) (read_limit_ b) v (last_error_ b) (ub_ b).
Definition set_last_error v b := mkBuffer (endianness_ b) (allocated_size_ b)
  (write_cursor_ b) (read_cursor_ b) (read_limit_ b) (data_ b) v (ub_ b).
Definition set_ub b := mkBuffer (endianness_ b) (allocated_size_ b) (write_cursor_ b)
  (read_cursor_ b) (read_limit_ b) (data_ b) (last_error_ b) true.
Definition set_endianness v b := mkBuffer v (allocated_size_ b) (write_cursor_ b)
  (read_cursor_ b) (read_limit_ b) (data_ b) (last_error_ b) (ub_ b).

(** ** Memory accesses *)

(** Reads [n] bytes at [data_ + off]; outside the array it is undefined.  A
    range of no bytes is no access. *)
Definition load (off n : Z) (b : Buffer) : list Z * Buffer :=
  match data_ b with
  | Some d =>
      if (n =? 0) || (0 <=? off) && (off + n <=? zlen d) then (slice off n d, b)
      else (repeat 0 (Z.to_nat n), set_ub b)
  | None => if n =? 0 then ([], b) else (repeat 0 (Z.to_nat n), set_ub b)
  end.

(** Writes [bs] at [data_ + off]; outside the array it is undefined. *)
Definition store (off : Z) (bs : list Z) (b : Buffer) : Buffer :=
  match data_ b with
  | Some d =>
      if (0 <=? off) && (off + zlen bs <=? zlen d)
      then set_data (Some (splice off bs d)) b
      else set_ub b
  | None => match bs with [] => b | _ => set_ub b end
  end.

Section Operations.
Context `{P : Platform}.

(** The image of an integer in this machine's memory, and back. *)
Definition mem_bytes (n : Z) (v : Z) : list Z :=
  if decide (sys_endianness = LittleEndian) then le_bytes (Z.to_nat n) v
  else rev (le_bytes (Z.to_nat n) v).

Definition mem_val (bs : list Z) : Z :=
  if decide (sys_endianness = LittleEndian) then le_val bs else le_val (rev bs).

Definition SwapPortByteOrder (port : Z) : Z :=
  if decide (sys_endianness = BigEndian) then port
  else u16 (Z.lor (Z.shiftl port 8) (Z.shiftr port 8)).

(** ** Construction *)

Definition Buffer_new (e : Endianness) : Buffer :=
  mkBuffer e 0 0 0 size_max None NoError false.

Definition Buffer_from (bytes : list Z) (e : Endianness) : Buffer :=
  let size := zlen bytes in
  match alloc size with
  | None => mkBuffer e 0 size 0 size_max None CannotAllocate false
  | Some d => store 0 bytes (mkBuffer e size size 0 size_max (Some d) NoError false)
  end.

Definition Buffer_copy (o : Buffer) : Buffer :=
  let fresh d a w r err := mkBuffer (endianness_ o) a w r (read_limit_ o) d err (ub_ o) in
  match data_ o with
  | None => fresh None (allocated_size_ o) (write_cursor_ o) (read_cursor_ o) (last_error_ o)
  | Some _ =>
      if allocated_size_ o =? 0
      then fresh None (allocated_size_ o) (write_cursor_ o) (read_cursor_ o) (last_error_ o)
      else match alloc (allocated_size_ o) with
           | None => fresh None 0 0 0 CannotAllocate
           | Some d =>
               let '(bs, o') := load 0 (write_cursor_ o) o in
               let b := fresh (Some d) (allocated_size_ o) (write_cursor_ o)
                              (read_cursor_ o) (last_error_ o) in
               store 0 bs (if ub_ o' then set_ub b else b)
           end
  end.

(** The buffer moved into, and what is left of the one moved from. *)
Definition Buffer_move (o : Buffer) : Buffer * Buffer :=
  (o, mkBuffer (endianness_ o) 0 0 0 (read_limit_ o) None (last_error_ o) (ub_ o)).

(** ** Cursors *)

Definition readable_bytes (b : Buffer) : Z :=
  let min_cursor := Z.min (write_cursor_ b) (read_limit_ b) in
  if min_cursor <? read_cursor_ b then 0 else min_cursor - read_cursor_ b.

Definition writable_bytes (b : Buffer) : Z := u64 (allocated_size_ b - write_cursor_ b).

Definition CheckReadableBytes (required : Z) (b : Buffer) : bool :=
  u64 (read_cursor_ b + required) <=? Z.min (write_cursor_ b) (read_limit_ b).

Definition SkipRead (size : Z) (b : Buffer) : Buffer :=
  set_read_cursor (u64 (read_cursor_ b + size)) b.

Definition CommitWrite (bytes : Z) (b : Buffer) : Buffer :=
  set_write_cursor (u64 (write_cursor_ b + bytes)) b.

Definition SetReadLimit (limit : Z) (b : Buffer) : Buffer :=
  set_read_limit (if limit =? 0 then size_max else limit) b.

Definition GetAndClearLastError (b : Buffer) : BufferError * Buffer :=
  (last_error_ b, set_last_error NoError b).

Definition Compact (b : Buffer) : Buffer :=
  if read_cursor_ b =? 0 then b
  else
    let unread := if read_cursor_ b <? write_cursor_ b
                  then write_cursor_ b - read_cursor_ b else 0 in
    let b := if 0 <? unread
             then let '(bs, b) := load (read_cursor_ b) unread b in store 0 bs b
             else b in
    set_write_cursor unread (set_read_cursor 0 b).

Definition Reset (deallocate : bool) (b : Buffer) : Buffer :=
  let b := set_last_error NoError (set_read_cursor 0 (set_write_cursor 0 b)) in
  if deallocate then set_data None (set_allocated_size 0 b) else b.

Definition Trim (b : Buffer) : Buffer :=
  if write_cursor_ b =? allocated_size_ b then b
  else match alloc (write_cursor_ b) with
       | None => set_last_error CannotAllocate b
       | Some d =>
           let '(bs, b) := load 0 (write_cursor_ b) b in
           set_allocated_size (write_cursor_ b) (store 0 bs (set_data (Some d) b))
       end.

Definition ReserveHeadroom (bytes : Z) (b : Buffer) : Buffer :=
  set_write_cursor bytes (set_read_cursor bytes b).

Definition PrependInt8 (value : Z) (b : Buffer) : bool * Buffer :=
  match data_ b with
  | None => (false, b)
  | Some _ =>
      if read_cursor_ b =? 0 then (false, b)
      else let b := set_read_cursor (read_cursor_ b - 1) b in
           (true, store (read_cursor_ b) [u8 value] b)
  end.

(** ** Reservation *)

Definition kMinGrowth : Z := 64.

Definition grown (size : Z) : Z :=
  if u64 (size * 2) <? kMinGrowth then kMinGrowth else u64 (size * 2).

Definition Reserve (size : Z) (exact : bool) (b : Buffer) : bool * Buffer :=
  match data_ b with
  | None =>
      let target_size := if exact then size else grown size in
      match alloc target_size with
      | None => (false, set_last_error CannotAllocate b)
      | Some d => (true, set_allocated_size target_size (set_data (Some d) b))
      end
  | Some _ =>
      if size <=? allocated_size_ b then (true, b)
      else match alloc (grown size) with
           | None => (false, set_last_error CannotAllocate b)
           | Some tmp =>
               let '(bs, b) := load 0 (write_cursor_ b) b in
               (true, store 0 bs (set_data (Some tmp) (set_allocated_size (grown size) b)))
           end
  end.

Definition ReserveIncremental (additional_bytes : Z) (b : Buffer) : bool * Buffer :=
  Reserve (u64 (write_cursor_ b + additional_bytes)) false b.

Definition ReserveExact (size : Z) (b : Buffer) : bool * Buffer := Reserve size true b.

Definition SkipWrite (size : Z) (b : Buffer) : Buffer :=
  let '(ok, b) := ReserveIncremental size b in
  if ok then CommitWrite size b else b.

(** ** Reads *)

(** [Read(T* arr, size)]: [dst] is what the destination holds on entry. *)
Definition Read (sizeof_T size : Z) (dst : list Z) (b : Buffer) : list Z * Buffer :=
  if size_max / sizeof_T <? size then (dst, set_last_error CorruptedFormat b)
  else
    let calculated_size := u64 (sizeof_T * size) in
    if negb (CheckReadableBytes calculated_size b)
    then (dst, set_last_error ReadOutOfBounds b)
    else let '(bs, b) := load (read_cursor_ b) calculated_size b in
         (bs, SkipRead calculated_size b).

(** [ReadNumber<T>] for an integral [T] of [size] bytes, as an unsigned value. *)
Definition ReadNumber (size : Z) (b : Buffer) : Z * Buffer :=
  if negb (CheckReadableBytes size b) then (0, set_last_error ReadOutOfBounds b)
  else
    let '(raw, b) := load (read_cursor_ b) size b in
    let data := if decide (sys_endianness = endianness_ b) then raw else rev raw in
    (mem_val data, SkipRead size b).

Definition ReadInt (size : Z) (b : Buffer) : Z * Buffer := ReadNumber size b.

(** A [bool] whose object representation is neither 0 nor 1 is undefined. *)
Definition ReadBool (b : Buffer) : bool * Buffer :=
  let '(v, b) := ReadInt 1 b in
  if v =? 0 then (false, b) else if v =? 1 then (true, b) else (true, set_ub b).

Definition ReadPort (b : Buffer) : Z * Buffer := ReadInt 2 b.

Definition ReadVarInt (size : Z) (b : Buffer) : Z * Buffer :=
  if negb (CheckReadableBytes 1 b) then (0, set_last_error ReadOutOfBounds b)
  else
    let '(actual_size, b) := ReadInt 1 b in
    if size <? actual_size then (0, set_last_error CorruptedFormat b)
    else if negb (CheckReadableBytes actual_size b)
    then (0, set_last_error ReadOutOfBounds b)
    else
      let '(raw, b) := load (read_cursor_ b) actual_size b in
      let data := if decide (sys_endianness = endianness_ b) then raw else rev raw in
      (mem_val (data ++ repeat 0 (Z.to_nat (size - actual_size))), SkipRead actual_size b).

Definition kMaxReadElements : Z := 65536.
Definition kMaxReadStringLength : Z := 65536.

Definition CheckReadCount (count max_allowed min_bytes_per_element : Z) (b : Buffer)
  : bool * Buffer :=
  if negb (max_allowed =? 0) && (max_allowed <? count)
  then (false, set_last_error ReadLimitExceeded b)
  else
    let per_element := if min_bytes_per_element =? 0 then 1 else min_bytes_per_element in
    if readable_bytes b / per_element <? count
    then (false, set_last_error ReadOutOfBounds b)
    else (true, b).

Definition ReadString (b : Buffer) : list Z * Buffer :=
  let '(size, b) := ReadVarInt 8 b in
  let '(ok, b) := CheckReadCount size kMaxReadStringLength 1 b in
  if negb ok then ([], b)
  else let '(out, b) := load (read_cursor_ b) size b in
       (out, SkipRead size b).

(** [n] calls of a member reader, in order. *)
Fixpoint read_times {A} (f : Buffer -> A * Buffer) (n : nat) (b : Buffer) : list A * Buffer :=
  match n with
  | O => ([], b)
  | S n => let '(x, b) := f b in
           let '(xs, b) := read_times f n b in
           (x :: xs, b)
  end.

Definition ReadVector {A} (value_func : Buffer -> A * Buffer) (b : Buffer) : list A * Buffer :=
  let '(size, b) := ReadVarInt 8 b in
  let '(ok, b) := CheckReadCount size kMaxReadElements 1 b in
  if negb ok then ([], b) else read_times value_func (Z.to_nat size) b.

Definition read_pair {K V} (key_func : Buffer -> K * Buffer) (value_func : Buffer -> V * Buffer)
  (b : Buffer) : (K * V) * Buffer :=
  let '(key, b) := key_func b in
  let '(value, b) := value_func b in
  ((key, value), b).

(** [map[key] = value] entry by entry: a repeated key keeps its last value. *)
Definition ReadMap {K V} `{Countable K} (key_func : Buffer -> K * Buffer)
  (value_func : Buffer -> V * Buffer) (b : Buffer) : gmap K V * Buffer :=
  let '(size, b) := ReadVarInt 8 b in
  let '(ok, b) := CheckReadCount size kMaxReadElements 2 b in
  if negb ok then (∅, b)
  else let '(kvs, b) := read_times (read_pair key_func value_func) (Z.to_nat size) b in
       (foldl (fun m kv => <[kv.1 := kv.2]> m) ∅ kvs, b).

(** The heap-array overload; [None] is the null [unique_ptr]. *)
Definition ReadArray {A} (sizeof_T : Z) (value_func : Buffer -> A * Buffer) (b : Buffer)
  : option (list A) * Buffer :=
  let '(size, b) := ReadVarInt 8 b in
  let '(ok, b) := CheckReadCount size kMaxReadElements sizeof_T b in
  if negb ok then (None, b)
  else match alloc (sizeof_T * size) with
       | None => (None, set_last_error CannotAllocate b)
       | Some _ => let '(xs, b) := read_times value_func (Z.to_nat size) b in (Some xs, b)
       end.

(** The [std::array<T, size>] overload; [None] is the value-initialised array
    returned on an error. *)
Definition ReadArrayFixed {A} (sizeof_T size : Z) (value_func : Buffer -> A * Buffer)
  (b : Buffer) : option (list A) * Buffer :=
  let '(size_r, b) := ReadVarInt 8 b in
  if negb (size_r =? size) then (None, set_last_error CorruptedFormat b)
  else if negb (CheckReadableBytes (u64 (size * sizeof_T)) b)
  then (None, set_last_error ReadOutOfBounds b)
  else let '(xs, b) := read_times value_func (Z.to_nat size) b in (Some xs, b).

(** Bit [i] of a little-endian bit string. *)
Definition bitset_bit (data : list Z) (i : nat) : bool :=
  Z.odd (Z.shiftr (default 0 (data !! (i / 8)%nat)) (Z.of_nat (i mod 8))).

Definition ReadBitset (N : nat) (b : Buffer) : list bool * Buffer :=
  let BYTES := ((N + 7) / 8)%nat in
  let '(data, b) := Read 1 (Z.of_nat BYTES) (repeat 0 BYTES) b in
  (map (bitset_bit data) (seq 0 N), b).

(** The three classes of address: two hosts, in network byte order, and a path. *)
Inductive InetAddress :=
  | InetAddressIPv4 (ip : list Z) (port : Z)
  | InetAddressIPv6 (ip : list Z) (port : Z)
  | InetAddressUnix (path : list Z).

Definition ReadInetAddress (b : Buffer) : option InetAddress * Buffer :=
  let '(ver, b) := ReadInt 1 b in
  if ver =? 4 then
    let '(raw_ip, b) := Read 4 1 (repeat 0 4) b in
    let '(raw_port, b) := Read 2 1 (repeat 0 2) b in
    (Some (InetAddressIPv4 raw_ip (SwapPortByteOrder (mem_val raw_port))), b)
  else if ver =? 6 then
    let '(ip6, b) := Read 1 16 (repeat 0 16) b in
    let '(raw_port, b) := Read 2 1 (repeat 0 2) b in
    (Some (InetAddressIPv6 ip6 (SwapPortByteOrder (mem_val raw_port))), b)
  else (None, set_last_error CorruptedFormat b).

(** ** Writes *)

(** [Write(const T* arr, size)]: [bytes] is the memory image of the array. *)
Definition Write (bytes : list Z) (b : Buffer) : Buffer :=
  let '(ok, b) := ReserveIncremental (zlen bytes) b in
  if negb ok then b else CommitWrite (zlen bytes) (store (write_cursor_ b) bytes b).

Definition WriteNumber (size : Z) (c : Z) (b : Buffer) : Buffer :=
  let pt := mem_bytes size c in
  let '(ok, b) := ReserveIncremental size b in
  if negb ok then b
  else
    let bytes := if decide (sys_endianness = endianness_ b) then pt else rev pt in
    CommitWrite size (store (write_cursor_ b) bytes b).

Definition WriteInt (size : Z) (c : Z) (b : Buffer) : Buffer := WriteNumber size c b.
Definition WriteBool (v : bool) (b : Buffer) : Buffer := WriteInt 1 (if v then 1 else 0) b.
Definition WritePort (port : Z) (b : Buffer) : Buffer := WriteInt 2 port b.

(** One past the last nonzero byte of the memory image. *)
Fixpoint var_size (raw : list Z) : Z :=
  match raw with
  | [] => 0
  | x :: raw =>
      let n := var_size raw in
      if 0 <? n then n + 1 else if x =? 0 then 0 else 1
  end.

Definition WriteVarInt (size : Z) (c : Z) (b : Buffer) : Buffer :=
  let raw_data := mem_bytes size c in
  let actual_size := var_size raw_data in
  let '(ok, b) := ReserveIncremental (actual_size + 1) b in
  if negb ok then b
  else
    let b := WriteInt 1 actual_size b in
    let bytes := take (Z.to_nat actual_size) raw_data in
    let bytes := if decide (sys_endianness = endianness_ b) then bytes else rev bytes in
    CommitWrite actual_size (store (write_cursor_ b) bytes b).

Definition WriteString (str : list Z) (b : Buffer) : Buffer :=
  let size := zlen str in
  let '(_, b) := ReserveIncremental (u64 (size + 8)) b in
  let b := WriteVarInt 8 size b in
  foldl (fun b c => WriteInt 1 c b) b str.

Definition WriteVector {A} (v : list A) (value_func : A -> Buffer -> Buffer) (b : Buffer)
  : Buffer :=
  let b := WriteVarInt 8 (zlen v) b in
  foldl (fun b x => value_func x b) b v.

(** [kvs] is the map's entries in its iteration order. *)
Definition WriteMap {K V} (kvs : list (K * V)) (key_func : K -> Buffer -> Buffer)
  (value_func : V -> Buffer -> Buffer) (b : Buffer) : Buffer :=
  let b := WriteVarInt 8 (zlen kvs) b in
  foldl (fun b kv => value_func kv.2 (key_func kv.1 b)) b kvs.

(** The pointer overload; [None] is the null pointer. *)
Definition WriteArray {A} (v : option (list A)) (value_func : A -> Buffer -> Buffer)
  (b : Buffer) : Buffer :=
  match v with
  | None => WriteVarInt 8 0 b
  | Some v => WriteVector v value_func b
  end.

Definition set_bitset_bit (bs : list bool) (data : list Z) (i : nat) : list Z :=
  if default false (bs !! i)
  then alter (fun x => u8 (Z.lor x (u8 (Z.shiftl 1 (Z.of_nat (i mod 8)))))) (i / 8)%nat data
  else data.

Definition WriteBitset (bs : list bool) (b : Buffer) : Buffer :=
  let N := length bs in
  let BYTES := ((N + 7) / 8)%nat in
  Write (foldl (set_bitset_bit bs) (repeat 0 BYTES) (seq 0 N)) b.

Definition WriteInetAddress (address : InetAddress) (b : Buffer) : Buffer :=
  match address with
  | InetAddressIPv4 ip port =>
      let b := WriteInt 1 4 b in
      Write (mem_bytes 2 (SwapPortByteOrder port)) (Write ip b)
  | InetAddressIPv6 ip port =>
      let b := WriteInt 1 6 b in
      Write (mem_bytes 2 (SwapPortByteOrder port)) (Write ip b)
  | InetAddressUnix _ => WriteInt 1 0 b
  end.

End Operations.
