(* ===== verification/BufferSpec.v ===== *)
(** * The contract of znet::Buffer

    A buffer denotes the byte string [avail b] still to be read.  The
    well-formedness invariant [wf] is kept by every operation, which is memory
    safety (no access outside the allocation); reads consume [avail] from the
    front and writes append at its end.  The class [BufferCodec] states what a
    matching pair of a writer and a reader promises, its instances are the
    buffer's own pairs, and the round trips follow for any pair. *)

From S2P Require Import Prelude Buffer.

(** ** Abstraction and invariant *)

Definition avail (b : Buffer) : list Z :=
  match data_ b with
  | Some d => slice (read_cursor_ b) (readable_bytes b) d
  | None => []
  end.

Definition store_ok (b : Buffer) : Prop :=
  match data_ b with
  | None => allocated_size_ b = 0 /\ write_cursor_ b <= read_cursor_ b
  | Some d => zlen d = allocated_size_ b /\ write_cursor_ b <= allocated_size_ b /\ bytes_ok d
  end.

Record wf (b : Buffer) : Prop := {
  wf_ub : ub_ b = false;
  wf_alloc : 0 <= allocated_size_ b < 2 ^ 63;
  wf_wc : 0 <= write_cursor_ b < 2 ^ 63;
  wf_rc : 0 <= read_cursor_ b < 2 ^ 63;
  wf_rl : 0 <= read_limit_ b <= size_max;
  wf_store : store_ok b
}.

(** A buffer open for writing [n] more bytes. *)
Record ready (n : Z) (b : Buffer) : Prop := {
  ready_wf : wf b;
  ready_open : read_cursor_ b <= write_cursor_ b;
  ready_limit : read_limit_ b = size_max;
  ready_room : write_cursor_ b + n <= 2 ^ 31
}.

(** The byte image of an [n]-byte integer in byte order [e]. *)
Definition enc (e : Endianness) (n : Z) (v : Z) : list Z :=
  if decide (e = LittleEndian) then le_bytes (Z.to_nat n) v else rev (le_bytes (Z.to_nat n) v).

Definition dec (e : Endianness) (bs : list Z) : Z :=
  if decide (e = LittleEndian) then le_val bs else le_val (rev bs).

(** [b'] is [b] with [bs] appended. *)
Record appends (b : Buffer) (bs : list Z) (b' : Buffer) : Prop := {
  app_wf : wf b';
  app_endian : endianness_ b' = endianness_ b;
  app_rc : read_cursor_ b' = read_cursor_ b;
  app_rl : read_limit_ b' = read_limit_ b;
  app_wc : write_cursor_ b' = write_cursor_ b + zlen bs;
  app_avail : avail b' = avail b ++ bs
}.

(** [b'] is [b] with [bs] consumed and [r] left. *)
Record consumes (b : Buffer) (bs r : list Z) (b' : Buffer) : Prop := {
  con_wf : wf b';
  con_endian : endianness_ b' = endianness_ b;
  con_rc : read_cursor_ b' = read_cursor_ b + zlen bs;
  con_wc : write_cursor_ b' = write_cursor_ b;
  con_rl : read_limit_ b' = read_limit_ b;
  con_err : last_error_ b' = last_error_ b;
  con_in : read_cursor_ b' <= Z.min (write_cursor_ b') (read_limit_ b');
  con_avail : avail b' = r
}.

(** The reader [f] turns the bytes [bs] into [x], whatever follows them. *)
Definition parses {A} (e : Endianness) (f : Buffer -> A * Buffer) (bs : list Z) (x : A) : Prop :=
  forall b r, wf b -> endianness_ b = e -> avail b = bs ++ r ->
  exists b', f b = (x, b') /\ consumes b bs r b'.

(** What a writer/reader pair promises: a byte image per value, written at the
    end and read back from the front. *)
Class BufferCodec `{P : Platform} {A} (e : Endianness) (valid : A -> Prop)
  (w : A -> Buffer -> Buffer) (r : Buffer -> A * Buffer) := {
  image : A -> list Z;
  image_nonempty x : valid x -> 1 <= zlen (image x);
  image_written x b : valid x -> endianness_ b = e -> ready (zlen (image x)) b ->
    appends b (image x) (w x b);
  image_read x : valid x -> parses e r (image x) x
}.

(** ** Basic facts *)

Ltac case_readable :=
  match goal with
  | |- context [if ?x <? ?y then _ else _] => destruct (Z.ltb_spec x y)
  end.

Lemma zlen_avail b : wf b -> zlen (avail b) = match data_ b with Some _ => readable_bytes b | None => 0 end.
Proof.
  intros [_ Ha Hw Hr Hl Hs]. unfold avail, store_ok in *.
  destruct (data_ b) as [d|]; [|done].
  unfold readable_bytes. case_readable; [by rewrite slice_nil|].
  apply length_slice; lia.
Qed.

Lemma readable_avail b : wf b -> readable_bytes b = zlen (avail b).
Proof.
  intros H. rewrite zlen_avail by done. destruct H as [_ Ha Hw Hr Hl Hs].
  unfold store_ok in Hs. destruct (data_ b); [done|].
  unfold readable_bytes. case_readable; lia.
Qed.

Lemma CheckReadableBytes_spec n b :
  wf b -> 0 <= n < 2 ^ 63 ->
  CheckReadableBytes n b = true <->
  n <= readable_bytes b /\ read_cursor_ b <= Z.min (write_cursor_ b) (read_limit_ b).
Proof.
  intros [_ Ha Hw Hr Hl _] Hn. unfold CheckReadableBytes, readable_bytes.
  rewrite u64_small by (unfold size_max in *; lia).
  case_readable;
    rewrite Z.leb_le; lia.
Qed.

Lemma zlen_enc e n v : 0 <= n -> zlen (enc e n v) = n.
Proof.
  intros. unfold enc. case_decide; rewrite ?length_rev, length_le_bytes; lia.
Qed.

Lemma enc_bytes_ok e n v : bytes_ok (enc e n v).
Proof. unfold enc. case_decide; [|apply bytes_ok_rev]; apply le_bytes_ok. Qed.

Lemma dec_enc e n v : 0 <= n -> 0 <= v < 256 ^ n -> dec e (enc e n v) = v.
Proof.
  intros Hn Hv. unfold dec, enc.
  case_decide; rewrite ?rev_involutive; apply le_val_bytes; by rewrite Z2Nat.id.
Qed.

Lemma dec_range e bs : bytes_ok bs -> 0 <= dec e bs < 256 ^ zlen bs.
Proof.
  intros. unfold dec. case_decide; [by apply le_val_range|].
  rewrite <- length_rev. by apply le_val_range, bytes_ok_rev.
Qed.

Lemma avail_bytes_ok b : wf b -> bytes_ok (avail b).
Proof.
  intros [_ _ _ _ _ Hs]. unfold avail, store_ok in *.
  destruct (data_ b); [apply slice_bytes_ok; tauto|constructor].
Qed.

(** The cursor has not run past what may be read. *)
Definition in_range (b : Buffer) : Prop :=
  read_cursor_ b <= Z.min (write_cursor_ b) (read_limit_ b).

Lemma avail_in_range b p r : wf b -> avail b = p ++ r -> p <> [] -> in_range b.
Proof.
  intros H E Hp. pose proof (readable_avail b H) as HL. rewrite E, length_app in HL.
  destruct p; [done|]. revert HL. unfold readable_bytes, in_range.
  case_readable; simpl; lia.
Qed.

Lemma in_range_readable b :
  in_range b -> readable_bytes b = Z.min (write_cursor_ b) (read_limit_ b) - read_cursor_ b.
Proof. unfold in_range, readable_bytes. case_readable; lia. Qed.

(** A prefix of what is left can be loaded without leaving the array. *)
Lemma load_avail b p r :
  wf b -> in_range b -> avail b = p ++ r ->
  load (read_cursor_ b) (zlen p) b = (p, b).
Proof.
  intros H Hin E. pose proof (readable_avail b H) as HL.
  rewrite E, length_app, in_range_readable in HL by done.
  destruct H as [_ Ha Hw Hr Hl Hs]. unfold load, avail, store_ok in *.
  destruct (data_ b) as [d|].
  - replace ((zlen p =? 0) || (0 <=? read_cursor_ b) && (read_cursor_ b + zlen p <=? zlen d))
      with true.
    2: { symmetry. apply orb_true_iff. right. apply andb_true_iff. rewrite !Z.leb_le. lia. }
    apply slice_prefix with (n := zlen p) in E as [-> _]; try done; try lia.
    rewrite in_range_readable by done. lia.
  - destruct p; [done|]. simpl in *. lia.
Qed.

Lemma SkipRead_consumes b p r :
  wf b -> in_range b -> avail b = p ++ r -> consumes b p r (SkipRead (zlen p) b).
Proof.
  intros H Hin E. pose proof (readable_avail b H) as HL.
  rewrite E, length_app, in_range_readable in HL by done.
  unfold in_range in Hin. destruct H as [Hu Ha Hw Hr Hl Hs].
  assert (Hc : u64 (read_cursor_ b + zlen p) = read_cursor_ b + zlen p).
  { apply u64_small. unfold size_max in *. lia. }
  split; unfold SkipRead; simpl; rewrite ?Hc; try done; try lia.
  - split; simpl; rewrite ?Hc; try done; try lia.
    unfold store_ok in *. simpl. rewrite ?Hc. destruct (data_ b); [done|]. lia.
  - unfold avail in *. simpl. destruct (data_ b) as [d|]; [|by destruct p].
    apply slice_prefix with (n := zlen p) in E as [_ E]; try done; try lia.
    2: { rewrite in_range_readable by done. lia. }
    rewrite <- E, ?Hc. f_equal. unfold readable_bytes; simpl. rewrite ?Hc.
    repeat case_readable; lia.
Qed.

Lemma consumes_trans b p q r b' b'' :
  consumes b p (q ++ r) b' -> consumes b' q r b'' -> consumes b (p ++ q) r b''.
Proof.
  intros [] []. split; try congruence; try done. rewrite length_app. lia.
Qed.

Lemma consumes_in_range b p r b' : consumes b p r b' -> in_range b'.
Proof. by intros []. Qed.

#[export] Hint Resolve consumes_in_range : znet.

(** ** Reading integers *)

Section Reading.
Context `{P : Platform}.

Lemma mem_val_dec e raw :
  mem_val (if decide (sys_endianness = e) then raw else rev raw) = dec e raw.
Proof.
  unfold mem_val, dec. destruct e, sys_endianness; simpl; repeat case_decide;
    try done; by rewrite rev_involutive.
Qed.

(** Reading never leaves the array: too few bytes is an error value. *)
Lemma ReadNumber_short n b :
  wf b -> 1 <= n < 2 ^ 63 -> readable_bytes b < n ->
  ReadNumber n b = (0, set_last_error ReadOutOfBounds b).
Proof.
  intros H Hn Hs. unfold ReadNumber.
  destruct (CheckReadableBytes n b) eqn:E; [|done].
  apply CheckReadableBytes_spec in E; [lia|done|lia].
Qed.

Lemma ReadNumber_exact n b p r :
  wf b -> 1 <= n < 2 ^ 63 -> zlen p = n -> avail b = p ++ r ->
  ReadNumber n b = (dec (endianness_ b) p, SkipRead n b).
Proof.
  intros H Hn Hp E.
  assert (Hin : in_range b) by (eapply avail_in_range; eauto; by intros ->; simpl in *; lia).
  unfold ReadNumber.
  replace (CheckReadableBytes n b) with true.
  2: { symmetry. apply CheckReadableBytes_spec; [done|lia|]. split; [|exact Hin].
       rewrite readable_avail, E, length_app by done. lia. }
  subst n. simpl. rewrite load_avail with (r := r) by done.
  by rewrite mem_val_dec.
Qed.

Lemma ReadNumber_parses e n p :
  1 <= n < 2 ^ 63 -> zlen p = n -> parses e (ReadNumber n) p (dec e p).
Proof.
  intros Hn Hp b r H He E. exists (SkipRead n b). split.
  - rewrite <- He. by eapply ReadNumber_exact.
  - subst n. apply SkipRead_consumes; try done.
    eapply avail_in_range; eauto. by intros ->; simpl in *; lia.
Qed.

(** A read of [n] bytes either consumes them or reports an error and moves
    nothing. *)
Lemma ReadNumber_cases n b :
  wf b -> 1 <= n < 2 ^ 63 ->
  (exists p r, zlen p = n /\ avail b = p ++ r /\ ReadNumber n b = (dec (endianness_ b) p, SkipRead n b) /\ consumes b p r (SkipRead n b)) \/
  (readable_bytes b < n /\ ReadNumber n b = (0, set_last_error ReadOutOfBounds b)).
Proof.
  intros H Hn. destruct (Z.lt_ge_cases (readable_bytes b) n) as [Hs|Hs].
  { right. split; [done|]. by apply ReadNumber_short. }
  left. exists (take (Z.to_nat n) (avail b)), (drop (Z.to_nat n) (avail b)).
  assert (Hp : zlen (take (Z.to_nat n) (avail b)) = n).
  { rewrite readable_avail in Hs by done. rewrite length_take. lia. }
  assert (E : avail b = take (Z.to_nat n) (avail b) ++ drop (Z.to_nat n) (avail b)).
  { by rewrite take_drop. }
  destruct (ReadNumber_parses (endianness_ b) n _ Hn Hp b _ H eq_refl E) as (b' & Eq & Hc).
  rewrite (ReadNumber_exact n b _ _ H Hn Hp E) in Eq.
  injection Eq as <-. split; [done|]. split; [done|]. split; [|done].
  by apply ReadNumber_exact with (r := drop (Z.to_nat n) (avail b)).
Qed.

Lemma set_last_error_wf err b : wf b -> wf (set_last_error err b).
Proof. by intros []. Qed.

Lemma ReadNumber_wf n b : wf b -> 1 <= n < 2 ^ 63 -> wf (ReadNumber n b).2.
Proof.
  intros H Hn. destruct (ReadNumber_cases n b H Hn) as [(p & r & _ & _ & -> & Hc)|[_ ->]].
  - by destruct Hc.
  - by apply set_last_error_wf.
Qed.

End Reading.

(** ** Reserving and appending *)

(** [b'] is [b] with room for [size] bytes in all and the same contents. *)
Record reserved (size : Z) (b b' : Buffer) : Prop := {
  res_wf : wf b';
  res_endian : endianness_ b' = endianness_ b;
  res_rc : read_cursor_ b' = read_cursor_ b;
  res_wc : write_cursor_ b' = write_cursor_ b;
  res_rl : read_limit_ b' = read_limit_ b;
  res_err : last_error_ b' = last_error_ b;
  res_avail : avail b' = avail b;
  res_room : size <= allocated_size_ b';
  res_data : is_Some (data_ b')
}.

Lemma grown_ge size : 0 <= size < 2 ^ 63 -> size <= grown size.
Proof.
  intros. unfold grown, kMinGrowth. rewrite u64_small by (unfold size_max; lia).
  destruct (Z.ltb_spec (size * 2) 64); lia.
Qed.

Lemma ready_weaken n m b : m <= n -> ready n b -> ready m b.
Proof. intros ? []. split; try done. lia. Qed.

Lemma appends_ready b bs b' n : appends b bs b' -> ready (zlen bs + n) b -> ready n b'.
Proof. intros [] []. split; try done; lia. Qed.

Lemma appends_trans b p q b' b'' :
  appends b p b' -> appends b' q b'' -> appends b (p ++ q) b''.
Proof.
  intros [] []. split; try congruence; try done.
  - rewrite length_app. lia.
  - rewrite app_avail1, app_avail0. by rewrite app_assoc.
Qed.

Lemma appends_nil b : wf b -> appends b [] b.
Proof. intros. split; try done; simpl; [lia|by rewrite app_nil_r]. Qed.

Section Writing.
Context `{P : Platform}.

Lemma fresh_reserved size b d :
  wf b -> data_ b = None -> write_cursor_ b <= size ->
  alloc size = Some d ->
  reserved size b (set_allocated_size size (set_data (Some d) b)).
Proof.
  intros [Hu Ha Hw Hr Hl Hs] Hd Hws Hal.
  pose proof (alloc_bound _ _ Hal). pose proof (alloc_length _ _ Hal).
  unfold store_ok in Hs. rewrite Hd in Hs.
  split; simpl; try done; try lia.
  - split; simpl; try done; try lia. unfold store_ok; simpl.
    split; [done|split; [lia|by eapply alloc_bytes]].
  - unfold avail. simpl. rewrite Hd. apply slice_nil.
    unfold readable_bytes; simpl. case_readable; lia.
Qed.

Lemma grow_reserved size b d tmp :
  wf b -> data_ b = Some d -> write_cursor_ b <= size -> alloc size = Some tmp ->
  reserved size b (store 0 (slice 0 (write_cursor_ b) d)
    (set_data (Some tmp) (set_allocated_size size b))).
Proof.
  intros [Hu Ha Hw Hr Hl Hs] Hd Hws Hal.
  pose proof (alloc_bound _ _ Hal). pose proof (alloc_length _ _ Hal) as Hlen.
  unfold store_ok in Hs. rewrite Hd in Hs. destruct Hs as (Hz & Hwa & Hok).
  assert (HL : zlen (slice 0 (write_cursor_ b) d) = write_cursor_ b) by (apply length_slice; lia).
  unfold store; simpl. rewrite HL.
  replace (0 + write_cursor_ b <=? zlen tmp) with true by (symmetry; apply Z.leb_le; lia).
  assert (HL2 : length (splice 0 (slice 0 (write_cursor_ b) d) tmp) = length tmp)
    by (apply length_splice; lia).
  split; simpl; try done; try lia.
  - split; simpl; try done; try lia. unfold store_ok; simpl. rewrite HL2.
    split; [done|split; [lia|]].
    apply splice_bytes_ok; [by apply slice_bytes_ok|by eapply alloc_bytes].
  - unfold avail. simpl. rewrite Hd. unfold readable_bytes; simpl.
    case_readable; [by rewrite !slice_nil|].
    rewrite slice_splice_front by lia. apply slice_slice; lia.
Qed.

Lemma Reserve_cases size exact b :
  wf b -> write_cursor_ b <= size < 2 ^ 63 ->
  (exists n, alloc n = None /\ 0 <= n <= Z.max (2 * size) kMinGrowth /\
     Reserve size exact b = (false, set_last_error CannotAllocate b)) \/
  (exists b', Reserve size exact b = (true, b') /\ reserved size b b').
Proof.
  intros H Hsz. pose proof (wf_wc b H) as Hw. unfold Reserve.
  assert (Hg := grown_ge size ltac:(lia)).
  assert (Hg2 : 0 <= grown size <= Z.max (2 * size) kMinGrowth).
  { unfold grown. rewrite u64_small by (unfold size_max; lia).
    destruct (Z.ltb_spec (size * 2) kMinGrowth); lia. }
  assert (Hmono : forall s b b', size <= s -> reserved s b b' -> reserved size b b').
  { intros s c c' ? []. split; try done; lia. }
  destruct (data_ b) as [d|] eqn:Hd.
  - destruct (Z.leb_spec size (allocated_size_ b)).
    { right. exists b. split; [done|]. by split. }
    destruct (alloc (grown size)) as [tmp|] eqn:Hal; [|left; by exists (grown size)].
    right. unfold load. rewrite Hd. simpl.
    pose proof (wf_store b H) as Hs. unfold store_ok in Hs. rewrite Hd in Hs.
    replace (0 + write_cursor_ b <=? zlen d) with true by (symmetry; apply Z.leb_le; lia).
    rewrite orb_true_r. eexists. split; [reflexivity|]. eapply Hmono; [exact Hg|].
    by apply grow_reserved; try lia.
  - set (t := if exact then size else grown size).
    assert (size <= t /\ 0 <= t <= Z.max (2 * size) kMinGrowth) as [Ht Ht2].
    { unfold t, kMinGrowth in *. destruct exact; lia. }
    destruct (alloc t) as [d|] eqn:Hal; [right|left; by exists t].
    eexists. split; [reflexivity|]. eapply Hmono; [exact Ht|]. apply fresh_reserved; try done. lia.
Qed.

(** Storing right behind the write cursor and committing appends. *)
Lemma store_appends bs b :
  wf b -> read_limit_ b = size_max -> read_cursor_ b <= write_cursor_ b ->
  bytes_ok bs -> is_Some (data_ b) -> write_cursor_ b + zlen bs <= allocated_size_ b ->
  appends b bs (CommitWrite (zlen bs) (store (write_cursor_ b) bs b)).
Proof.
  intros [Hu Ha Hw Hr Hl Hs] Hrl Hopen Hbs [d Hd] Hroom.
  unfold store_ok, store in *. rewrite Hd in *. destruct Hs as (Hz & Hwa & Hok).
  replace ((0 <=? write_cursor_ b) && (write_cursor_ b + zlen bs <=? zlen d)) with true.
  2: { symmetry. apply andb_true_iff. rewrite !Z.leb_le. lia. }
  assert (HL : length (splice (write_cursor_ b) bs d) = length d) by (apply length_splice; lia).
  assert (Hc : u64 (write_cursor_ b + zlen bs) = write_cursor_ b + zlen bs)
    by (apply u64_small; unfold size_max; lia).
  unfold CommitWrite. split; simpl; rewrite ?Hc; try done.
  - split; simpl; rewrite ?Hc; try done; try lia. unfold store_ok; simpl.
    rewrite ?Hc, HL. split; [done|split; [lia|]]. by apply splice_bytes_ok.
  - unfold avail, readable_bytes; simpl. rewrite Hd, ?Hc, Hrl.
    unfold size_max in *. rewrite !Z.min_l by lia.
    do 2 (case_readable; [lia|]).
    replace (write_cursor_ b + zlen bs - read_cursor_ b)
      with (write_cursor_ b - read_cursor_ b + zlen bs) by lia.
    rewrite slice_app by lia. rewrite slice_splice_before by lia.
    f_equal. replace (read_cursor_ b + _) with (write_cursor_ b) by lia.
    apply slice_splice_eq. lia.
Qed.

(** A reserve, a store of [zlen bs] bytes and a commit: the shape of every
    write.  Either the bytes are appended or the allocation failed. *)
Definition put (n : Z) (bs : Buffer -> list Z) (b : Buffer) : Buffer :=
  let '(ok, b) := ReserveIncremental n b in
  if negb ok then b else CommitWrite n (store (write_cursor_ b) (bs b) b).

Lemma put_cases n f b :
  wf b -> read_limit_ b = size_max -> read_cursor_ b <= write_cursor_ b ->
  0 <= n -> write_cursor_ b + n < 2 ^ 63 ->
  (forall b', endianness_ b' = endianness_ b -> f b' = f b) -> bytes_ok (f b) -> zlen (f b) = n ->
  (put n f b = set_last_error CannotAllocate b /\
   exists m, alloc m = None /\ 0 <= m <= Z.max (2 * (write_cursor_ b + n)) kMinGrowth) \/
  appends b (f b) (put n f b).
Proof.
  intros H Hrl Hop Hn Hsz Hf Hok HL. unfold put, ReserveIncremental.
  pose proof (wf_wc b H) as Hw.
  rewrite u64_small by (unfold size_max; lia).
  destruct (Reserve_cases (write_cursor_ b + n) false b H ltac:(lia))
    as [(m & Hm & Hm2 & ->)|(b' & -> & [])]; [left; eauto|right]. simpl.
  rewrite (Hf b') by done. rewrite <- HL.
  destruct (store_appends (f b) b') as [W E R L C A]; try done; try lia; try congruence.
  split; try congruence; try done; try lia.
Qed.

Lemma put_appends `{!AmplePlatform P} n f b :
  ready n b -> 0 <= n ->
  (forall b', endianness_ b' = endianness_ b -> f b' = f b) -> bytes_ok (f b) -> zlen (f b) = n ->
  appends b (f b) (put n f b).
Proof.
  intros [] Hn Hf Hok HL. pose proof (wf_wc b ready_wf0).
  destruct (put_cases n f b) as [(_ & m & Hm & Hm2)|]; try done; try lia.
  destruct (alloc_ample m) as [? Hs]; [unfold kMinGrowth in *; lia|congruence].
Qed.

Lemma mem_bytes_enc e n v :
  (if decide (sys_endianness = e) then mem_bytes n v else rev (mem_bytes n v)) = enc e n v.
Proof.
  unfold mem_bytes, enc. destruct e, sys_endianness; simpl; repeat case_decide;
    try done; by rewrite rev_involutive.
Qed.

Lemma WriteNumber_put n v b :
  WriteNumber n v b = put n (fun b => enc (endianness_ b) n v) b.
Proof.
  unfold WriteNumber, put. destruct (ReserveIncremental n b) as [[] b']; [|done].
  simpl. by rewrite mem_bytes_enc.
Qed.

Lemma Write_put bs b : Write bs b = put (zlen bs) (fun _ => bs) b.
Proof. done. Qed.

Lemma WriteNumber_appends `{!AmplePlatform P} n v b :
  ready n b -> 0 <= n -> appends b (enc (endianness_ b) n v) (WriteNumber n v b).
Proof.
  intros. rewrite WriteNumber_put. apply (put_appends n (fun b => enc (endianness_ b) n v));
    try done; [by intros ? ->|apply enc_bytes_ok|by apply zlen_enc].
Qed.

Lemma Write_appends `{!AmplePlatform P} bs b :
  ready (zlen bs) b -> bytes_ok bs -> appends b bs (Write bs b).
Proof. intros. rewrite Write_put. by apply (put_appends (zlen bs) (fun _ => bs)); try lia. Qed.

Lemma Buffer_new_ready n e : 0 <= n <= 2 ^ 31 -> ready n (Buffer_new e).
Proof. intros. split; [|done|done|simpl; lia]. by split; unfold Buffer_new, size_max; simpl. Qed.

End Writing.

(** ** Variable-length integers *)

Lemma var_size_range raw : 0 <= var_size raw <= zlen raw.
Proof.
  induction raw as [|x raw IH]; simpl; [lia|].
  destruct (Z.ltb_spec 0 (var_size raw)); [lia|]. destruct (x =? 0); lia.
Qed.

Lemma var_size_trim raw :
  take (Z.to_nat (var_size raw)) raw ++ repeat 0 (length raw - Z.to_nat (var_size raw)) = raw.
Proof.
  induction raw as [|x raw IH]; [done|]. simpl.
  pose proof (var_size_range raw) as Hr.
  destruct (Z.ltb_spec 0 (var_size raw)).
  - rewrite Z2Nat.inj_add by lia. replace (Z.to_nat 1) with 1%nat by lia.
    rewrite Nat.add_comm. simpl. by rewrite IH.
  - replace (var_size raw) with 0 in IH by lia. simpl in IH.
    rewrite Nat.sub_0_r in IH.
    destruct (Z.eqb_spec x 0) as [->|]; simpl; rewrite ?Nat.sub_0_r, ?IH; done.
Qed.

Section VarInt.
Context `{P : Platform}.

Lemma mem_val_bytes n v : 0 <= n -> 0 <= v < 256 ^ n -> mem_val (mem_bytes n v) = v.
Proof.
  intros Hn Hv. unfold mem_val, mem_bytes.
  case_decide; rewrite ?rev_involutive; apply le_val_bytes; by rewrite Z2Nat.id.
Qed.

Lemma length_mem_bytes n v : length (mem_bytes n v) = Z.to_nat n.
Proof. unfold mem_bytes. case_decide; by rewrite ?length_rev, length_le_bytes. Qed.

Lemma mem_bytes_ok n v : bytes_ok (mem_bytes n v).
Proof. unfold mem_bytes. case_decide; [|apply bytes_ok_rev]; apply le_bytes_ok. Qed.

(** Bytes in memory order, put in byte order [e]; an involution. *)
Definition reorder (e : Endianness) (bs : list Z) : list Z :=
  if decide (sys_endianness = e) then bs else rev bs.

Lemma reorder_involutive e bs : reorder e (reorder e bs) = bs.
Proof. unfold reorder. case_decide; by rewrite ?rev_involutive. Qed.

Lemma length_reorder e bs : length (reorder e bs) = length bs.
Proof. unfold reorder. case_decide; by rewrite ?length_rev. Qed.

Lemma reorder_bytes_ok e bs : bytes_ok bs -> bytes_ok (reorder e bs).
Proof. unfold reorder. case_decide; [done|apply bytes_ok_rev]. Qed.

Definition var_image (e : Endianness) (n v : Z) : list Z :=
  let raw := mem_bytes n v in
  enc e 1 (var_size raw) ++ reorder e (take (Z.to_nat (var_size raw)) raw).

Lemma zlen_var_image e n v : zlen (var_image e n v) = var_size (mem_bytes n v) + 1.
Proof.
  unfold var_image. pose proof (var_size_range (mem_bytes n v)) as Hr.
  rewrite length_app, Nat2Z.inj_add, zlen_enc, length_reorder, length_take by lia. lia.
Qed.

(** With room already reserved a write only stores and commits. *)
Lemma put_in_room n f b :
  wf b -> is_Some (data_ b) -> 0 <= n -> write_cursor_ b + n <= allocated_size_ b ->
  put n f b = CommitWrite n (store (write_cursor_ b) (f b) b).
Proof.
  intros H [d Hd] Hn Hroom. unfold put, ReserveIncremental, Reserve.
  pose proof (wf_alloc b H). pose proof (wf_wc b H).
  rewrite u64_small, Hd by (unfold size_max; lia).
  by replace (write_cursor_ b + n <=? allocated_size_ b) with true by (symmetry; apply Z.leb_le; lia).
Qed.

Lemma store_keeps off bs b :
  allocated_size_ (store off bs b) = allocated_size_ b /\
  (is_Some (data_ b) -> is_Some (data_ (store off bs b))) /\
  endianness_ (store off bs b) = endianness_ b.
Proof.
  unfold store. destruct (data_ b) eqn:E.
  - destruct (_ && _); simpl; [by eauto|]. rewrite E. by eauto.
  - destruct bs; simpl; rewrite ?E; done.
Qed.

Lemma WriteVarInt_appends `{!AmplePlatform P} e n v b :
  0 <= n < 256 -> endianness_ b = e -> ready (zlen (var_image e n v)) b ->
  appends b (var_image e n v) (WriteVarInt n v b).
Proof.
  intros Hn He Hrdy. rewrite zlen_var_image in Hrdy.
  pose proof (var_size_range (mem_bytes n v)) as Hv.
  rewrite length_mem_bytes in Hv. destruct Hrdy as [Hwf Hop Hrl Hroom].
  unfold WriteVarInt, ReserveIncremental. pose proof (wf_wc b Hwf) as Hw.
  set (k := var_size (mem_bytes n v)) in *.
  rewrite u64_small by (unfold size_max; lia).
  destruct (Reserve_cases (write_cursor_ b + (k + 1)) false b Hwf ltac:(lia))
    as [(m & Hm & Hm2 & _)|(b1 & -> & R)].
  { destruct (alloc_ample m) as [? Hs]; [unfold kMinGrowth in *; lia|congruence]. }
  destruct R as [W1 E1 R1 C1 L1 X1 A1 M1 D1]. simpl.
  unfold WriteInt. rewrite WriteNumber_put, put_in_room by (try done; lia).
  rewrite E1, He.
  assert (Hs1 : appends b1 (enc e 1 k) (CommitWrite 1 (store (write_cursor_ b1) (enc e 1 k) b1))).
  { pose proof (store_appends (enc e 1 k) b1) as Hst. rewrite zlen_enc in Hst by lia.
    apply Hst; try done; try lia; try congruence. apply enc_bytes_ok. }
  set (b2 := CommitWrite 1 (store (write_cursor_ b1) (enc e 1 k) b1)) in *.
  destruct (store_keeps (write_cursor_ b1) (enc e 1 k) b1) as (Ka & Kd & Ke).
  assert (Ha2 : allocated_size_ b2 = allocated_size_ b1) by done.
  assert (Hd2 : is_Some (data_ b2)) by (apply Kd; done).
  destruct Hs1 as [W2 E2 R2 L2 C2 A2]. rewrite zlen_enc in C2 by lia.
  replace (if decide (sys_endianness = endianness_ b2) then _ else _)
    with (reorder e (take (Z.to_nat k) (mem_bytes n v))).
  2: { unfold reorder. by rewrite E2, E1, He. }
  set (body := reorder e (take (Z.to_nat k) (mem_bytes n v))).
  assert (HL : zlen body = k).
  { unfold body. rewrite length_reorder, length_take, length_mem_bytes. lia. }
  assert (Hs2 : appends b2 body (CommitWrite (zlen body) (store (write_cursor_ b2) body b2))).
  { apply store_appends; try done; try lia; try congruence.
    apply reorder_bytes_ok, Forall_take, mem_bytes_ok. }
  rewrite HL in Hs2. destruct Hs2 as [W3 E3 R3 L3 C3 A3].
  split; try congruence; try done.
  - rewrite C3, C2, C1, zlen_var_image. fold k. lia.
  - rewrite A3, A2, A1. unfold var_image. by rewrite <- app_assoc.
Qed.

Lemma ReadVarInt_parses e n v :
  0 <= n < 256 -> 0 <= v < 256 ^ n -> parses e (ReadVarInt n) (var_image e n v) v.
Proof.
  intros Hn Hv b r Hwf He E.
  pose proof (var_size_range (mem_bytes n v)) as Hk. rewrite length_mem_bytes in Hk.
  unfold var_image in *. set (k := var_size (mem_bytes n v)) in *.
  set (body := reorder e (take (Z.to_nat k) (mem_bytes n v))) in *.
  assert (HL : zlen body = k).
  { unfold body. rewrite length_reorder, length_take, length_mem_bytes. lia. }
  rewrite <- app_assoc in E.
  destruct (ReadNumber_parses e 1 (enc e 1 k) ltac:(lia) ltac:(by apply zlen_enc) b _ Hwf He E)
    as (b1 & E1 & C1).
  rewrite dec_enc in E1 by lia.
  assert (Hchk : forall m c, wf c -> in_range c -> 0 <= m <= zlen (avail c) -> m < 2 ^ 63 ->
    CheckReadableBytes m c = true).
  { intros m c Hc Hin Hm Hm2. apply CheckReadableBytes_spec; [done|lia|].
    rewrite readable_avail by done. split; [lia|exact Hin]. }
  unfold ReadVarInt. rewrite Hchk; try done; try lia.
  2: { eapply avail_in_range; eauto. intros Hnil.
       apply (f_equal (fun l : list Z => zlen l)) in Hnil. rewrite zlen_enc in Hnil by lia. done. }
  2: { rewrite E, length_app. pose proof (zlen_enc e 1 k). lia. }
  cbn [negb]. unfold ReadInt. rewrite E1.
  replace (n <? k) with false by (symmetry; apply Z.ltb_ge; lia).
  rewrite Hchk; [|by destruct C1|by destruct C1| |lia].
  2: { rewrite (con_avail _ _ _ _ C1), length_app. lia. }
  assert (Hld : load (read_cursor_ b1) k b1 = (body, b1)).
  { rewrite <- HL. apply load_avail with (r := r); by destruct C1. }
  cbn [negb]. rewrite Hld.
  rewrite (con_endian _ _ _ _ C1), He.
  exists (SkipRead k b1). split.
  - f_equal. change (if decide (sys_endianness = e) then body else rev body) with (reorder e body).
    unfold body. rewrite reorder_involutive.
    replace (Z.to_nat (n - k)) with (length (mem_bytes n v) - Z.to_nat k)%nat
      by (rewrite length_mem_bytes; lia).
    unfold k. rewrite var_size_trim. apply mem_val_bytes; lia.
  - eapply consumes_trans; [exact C1|]. rewrite <- HL. apply SkipRead_consumes; by destruct C1.
Qed.

End VarInt.

(** ** A concrete machine: byte order [e], zeroed memory, no shortage *)

Definition host_alloc (n : Z) : option (list Z) :=
  if (0 <=? n) && (n <? 2 ^ 63) then Some (repeat 0 (Z.to_nat n)) else None.

Lemma host_alloc_inv n d : host_alloc n = Some d -> 0 <= n < 2 ^ 63 /\ d = repeat 0 (Z.to_nat n).
Proof.
  unfold host_alloc. destruct ((0 <=? n) && (n <? 2 ^ 63)) eqn:E; [|done].
  intros [= <-]. bsplit. done.
Qed.

Definition host (e : Endianness) : Platform.
Proof.
  refine {| sys_endianness := e; alloc := host_alloc |}.
  - intros n d [Hn ->]%host_alloc_inv. rewrite repeat_length. lia.
  - intros n d [Hn ->]%host_alloc_inv. by apply bytes_ok_repeat.
  - intros n d [Hn ->]%host_alloc_inv. lia.
Defined.

#[export] Instance host_ample e : AmplePlatform (host e).
Proof.
  intros n Hn. unfold alloc, host, host_alloc.
  replace ((0 <=? n) && (n <? 2 ^ 63)) with true; [eauto|].
  symmetry. apply andb_true_iff. rewrite Z.leb_le, Z.ltb_lt. lia.
Qed.

(** ** Composing writes and guarded reads *)

(** [f] appends [bs] to any buffer of byte order [e] with room for it. *)
Definition writes (e : Endianness) (bs : list Z) (f : Buffer -> Buffer) : Prop :=
  forall b, endianness_ b = e -> ready (zlen bs) b -> appends b bs (f b).

Lemma writes_comp e bs1 bs2 f g :
  writes e bs1 f -> writes e bs2 g -> writes e (bs1 ++ bs2) (fun b => g (f b)).
Proof.
  intros Hf Hg b He Hr. rewrite length_app, Nat2Z.inj_add in Hr.
  assert (Ha : appends b bs1 (f b)).
  { apply Hf; [done|]. eapply ready_weaken; [|exact Hr]. lia. }
  eapply appends_trans; [exact Ha|]. apply Hg; [|by eapply appends_ready].
  by rewrite (app_endian _ _ _ Ha).
Qed.

Lemma writes_skip e : writes e [] (fun b => b).
Proof. intros b _ [Hw _ _ _]. by apply appends_nil. Qed.

Lemma writes_WriteInt `{P : Platform} `{!AmplePlatform P} e n v :
  0 <= n -> writes e (enc e n v) (WriteInt n v).
Proof.
  intros Hn b <- Hr. rewrite zlen_enc in Hr by done. by apply WriteNumber_appends.
Qed.

Lemma writes_Write `{P : Platform} `{!AmplePlatform P} e bs : bytes_ok bs -> writes e bs (Write bs).
Proof. intros Hb b _ Hr. by apply Write_appends. Qed.

Lemma writes_foldl {A} e (img : A -> list Z) (f : A -> Buffer -> Buffer) (xs : list A) :
  (forall x, writes e (img x) (f x)) -> writes e (xs ≫= img) (fun b => foldl (fun b x => f x b) b xs).
Proof.
  intros Hf. induction xs as [|x xs IH]; csimpl; [apply writes_skip|].
  exact (writes_comp e _ _ (f x) _ (Hf x) IH).
Qed.

Lemma ReadInt_enc `{P : Platform} e n v b r :
  wf b -> endianness_ b = e -> 1 <= n < 2 ^ 31 -> 0 <= v < 256 ^ n -> avail b = enc e n v ++ r ->
  exists b', ReadInt n b = (v, b') /\ consumes b (enc e n v) r b'.
Proof.
  intros Hwf He Hn Hv E.
  destruct (ReadNumber_parses e n (enc e n v) ltac:(lia) ltac:(apply zlen_enc; lia) b r Hwf He E)
    as (b' & Eq & C).
  exists b'. split; [|done]. unfold ReadInt. by rewrite Eq, dec_enc by lia.
Qed.

(** A read the remaining bytes cover succeeds: it reports no error. *)
Lemma ReadInt_covered `{P : Platform} n b :
  wf b -> 1 <= n < 2 ^ 31 -> n <= readable_bytes b ->
  exists v p r b', ReadInt n b = (v, b') /\ avail b = p ++ r /\ zlen p = n /\ v = dec (endianness_ b) p /\
    consumes b p r b' /\ 0 <= v < 256 ^ n /\ readable_bytes b' = readable_bytes b - n.
Proof.
  intros Hwf Hn Hr. destruct (ReadNumber_cases n b Hwf ltac:(lia)) as [(p & r & HL & E & Eq & C)|[? _]]; [|lia].
  exists (dec (endianness_ b) p), p, r, (SkipRead n b). split; [done|]. split; [done|].
  split; [done|]. split; [done|]. split; [done|]. split.
  - rewrite <- HL. apply dec_range. pose proof (avail_bytes_ok b Hwf) as Hb. rewrite E in Hb.
    by apply bytes_ok_app in Hb as [? _].
  - rewrite (readable_avail b), (readable_avail (SkipRead n b)) by (done || by destruct C).
    rewrite (con_avail _ _ _ _ C), E, length_app. lia.
Qed.
