(* ===== verification/BufferCodecs.v ===== *)
(** * Round trips and read safety of the buffer's typed operations

    Instances of [BufferCodec] for the scalar, string, container, bit-set and
    address operations of buffer.h, the generic round trip they give, and the
    safety of every reader on bytes chosen by a peer. *)

From S2P Require Import Prelude Buffer BufferSpec.

(** A reader that keeps the invariant on any input. *)
Definition reader_safe {A} (f : Buffer -> A * Buffer) : Prop :=
  forall b, wf b -> wf (f b).2.

(** A map entry written as its key, then its value. *)
Definition write_pair {K V} (wk : K -> Buffer -> Buffer) (wv : V -> Buffer -> Buffer)
  (kv : K * V) (b : Buffer) : Buffer := wv kv.2 (wk kv.1 b).

Section Safety.
Context `{P : Platform}.

Lemma check_avail n b :
  wf b -> 0 <= n < 2 ^ 63 -> CheckReadableBytes n b = true ->
  exists p r, zlen p = n /\ avail b = p ++ r /\ in_range b.
Proof.
  intros H Hn Hc. apply CheckReadableBytes_spec in Hc as [Hr Hin]; [|done..].
  rewrite readable_avail in Hr by done.
  exists (take (Z.to_nat n) (avail b)), (drop (Z.to_nat n) (avail b)).
  rewrite take_drop, length_take. split; [lia|done].
Qed.

(** The bytes a passed check covers are loaded and skipped safely. *)
Lemma load_skip_wf n b :
  wf b -> 0 <= n < 2 ^ 63 -> CheckReadableBytes n b = true ->
  exists p, load (read_cursor_ b) n b = (p, b) /\ zlen p = n /\ bytes_ok p /\ wf (SkipRead n b).
Proof.
  intros H Hn Hc. destruct (check_avail n b H Hn Hc) as (p & r & <- & E & Hin).
  exists p. split; [by eapply load_avail|]. split; [done|]. split.
  - pose proof (avail_bytes_ok b H) as Hb. rewrite E in Hb. by apply bytes_ok_app in Hb as [? _].
  - by destruct (SkipRead_consumes b p r H Hin E).
Qed.

Lemma ReadInt_safe n : 1 <= n < 2 ^ 63 -> reader_safe (ReadInt n).
Proof. intros Hn b H. by apply ReadNumber_wf. Qed.

Lemma ReadInt_value_range n b :
  wf b -> 1 <= n < 2 ^ 63 -> 0 <= (ReadInt n b).1 < 256 ^ n.
Proof.
  intros H Hn. unfold ReadInt.
  destruct (ReadNumber_cases n b H Hn) as [(p & r & <- & E & -> & _)|[_ ->]]; simpl.
  - apply dec_range. pose proof (avail_bytes_ok b H) as Hb. rewrite E in Hb.
    by apply bytes_ok_app in Hb as [? _].
  - split; [done|]. apply Z.pow_pos_nonneg; lia.
Qed.

Lemma Read_safe s n dst : 1 <= s -> 0 <= n -> s * n < 2 ^ 63 -> reader_safe (Read s n dst).
Proof.
  intros Hs Hn Hsz b H. unfold Read. case_readable; [by apply set_last_error_wf|].
  assert (0 <= s * n) by nia.
  rewrite u64_small by (unfold size_max; lia).
  destruct (CheckReadableBytes _ b) eqn:Hc; simpl; [|by apply set_last_error_wf].
  destruct (load_skip_wf (s * n) b H ltac:(lia) Hc) as (p & -> & _ & _ & Hw). done.
Qed.

Lemma ReadVarInt_safe n : 0 <= n < 256 -> reader_safe (ReadVarInt n).
Proof.
  intros Hn b H. unfold ReadVarInt.
  destruct (CheckReadableBytes 1 b); simpl; [|by apply set_last_error_wf].
  pose proof (ReadInt_safe 1 ltac:(lia) b H) as H1.
  pose proof (ReadInt_value_range 1 b H ltac:(lia)) as Hk.
  destruct (ReadInt 1 b) as [k b1]. simpl in *.
  case_readable; [by apply set_last_error_wf|].
  destruct (CheckReadableBytes k b1) eqn:Hc; simpl; [|by apply set_last_error_wf].
  destruct (load_skip_wf k b1 H1 ltac:(lia) Hc) as (p & -> & _ & _ & Hw). done.
Qed.

(** A count that survives [CheckReadCount] is backed by bytes on hand. *)
Lemma CheckReadCount_spec count cap per b :
  wf b -> 0 <= per ->
  (CheckReadCount count cap per b = (true, b) /\ (cap <> 0 -> count <= cap) /\
     count * Z.max 1 per <= readable_bytes b \/ count < 0) \/
  exists err, CheckReadCount count cap per b = (false, set_last_error err b).
Proof.
  intros H Hper. unfold CheckReadCount.
  destruct (negb (cap =? 0) && (cap <? count)) eqn:Ec; [right; eauto|].
  case_readable; [right; eauto|left].
  destruct (Z.lt_ge_cases count 0); [by right|left]. split; [done|]. split.
  - intros Hcap. destruct (Z.eqb_spec cap 0); [done|]. simpl in Ec. bsplit. lia.
  - destruct (Z.eqb_spec per 0) as [->|]; [rewrite Z.div_1_r in *; lia|].
    rewrite Z.max_r by lia.
    pose proof (Z_div_mod_eq_full (readable_bytes b) per).
    pose proof (Z.mod_pos_bound (readable_bytes b) per). nia.
Qed.

Lemma CheckReadCount_wf count cap per b : wf b -> wf (CheckReadCount count cap per b).2.
Proof.
  intros H. unfold CheckReadCount.
  repeat case_match; simpl; try done; by apply set_last_error_wf.
Qed.

Lemma read_times_safe {A} (f : Buffer -> A * Buffer) n :
  reader_safe f -> reader_safe (read_times f n).
Proof.
  intros Hf. induction n as [|n IH]; intros b H; simpl; [done|].
  pose proof (Hf b H) as H1. destruct (f b) as [x b1]. simpl in *.
  pose proof (IH b1 H1). by destruct (read_times f n b1).
Qed.

(** The value of a varint is never negative, whatever the bytes. *)
Lemma ReadVarInt_nonneg n b : wf b -> 0 <= n < 256 -> 0 <= (ReadVarInt n b).1.
Proof.
  intros H Hn. unfold ReadVarInt. destruct (CheckReadableBytes 1 b); [simpl|done].
  pose proof (ReadInt_safe 1 ltac:(lia) b H) as H2.
  pose proof (ReadInt_value_range 1 b H ltac:(lia)) as Hk.
  destruct (ReadInt 1 b) as [k b1]. simpl in *. case_readable; [done|].
  destruct (CheckReadableBytes k b1) eqn:Hc; [simpl|done].
  destruct (load_skip_wf k b1 H2 ltac:(lia) Hc) as (p & -> & _ & Hp & _).
  simpl. assert (bytes_ok ((if decide (sys_endianness = endianness_ b1) then p else rev p) ++
    repeat 0 (Z.to_nat (n - k)))) as Hb.
  { apply bytes_ok_app; split; [case_decide; [done|by apply bytes_ok_rev]|].
    by apply bytes_ok_repeat. }
  revert Hb. generalize ((if decide (sys_endianness = endianness_ b1) then p else rev p) ++
    repeat 0 (Z.to_nat (n - k))). intros l Hl.
  unfold mem_val. case_decide; apply le_val_range; [done|by apply bytes_ok_rev].
Qed.

Lemma load_zero off b : load off 0 b = ([], b).
Proof. unfold load. destruct (data_ b); [|done]. simpl. by rewrite slice_nil. Qed.

Lemma SkipRead_zero b : wf b -> SkipRead 0 b = b.
Proof.
  intros [_ _ _ Hr _ _]. unfold SkipRead, set_read_cursor.
  rewrite Z.add_0_r, u64_small by (unfold size_max; lia). by destruct b.
Qed.

(** Taking a count of bytes that the remaining ones cover. *)
Lemma load_skip_readable n b :
  wf b -> 0 <= n <= readable_bytes b ->
  exists p, load (read_cursor_ b) n b = (p, b) /\ zlen p = n /\ wf (SkipRead n b).
Proof.
  intros H Hn. destruct (Z.eq_dec n 0) as [->|].
  { exists []. by rewrite load_zero, SkipRead_zero. }
  assert (Hlt : n < 2 ^ 63).
  { revert Hn. unfold readable_bytes. destruct H. case_readable; lia. }
  destruct (load_skip_wf n b H ltac:(lia)) as (p & ? & ? & _ & ?); [|by eauto].
  apply CheckReadableBytes_spec; [done|lia|]. split; [lia|].
  revert Hn. unfold readable_bytes. case_readable; lia.
Qed.

Lemma ReadString_safe : reader_safe ReadString.
Proof.
  intros b H. unfold ReadString.
  pose proof (ReadVarInt_safe 8 ltac:(lia) b H) as H1.
  pose proof (ReadVarInt_nonneg 8 b H ltac:(lia)) as Hsz.
  destruct (ReadVarInt 8 b) as [size b1]. simpl in *.
  destruct (CheckReadCount_spec size kMaxReadStringLength 1 b1 H1 ltac:(lia))
    as [[(-> & _ & Hsize)|Hneg]|(err & ->)]; simpl; [|lia|by apply set_last_error_wf].
  destruct (load_skip_readable size b1 H1 ltac:(lia)) as (p & -> & _ & Hw). done.
Qed.

Lemma ReadVector_safe {A} (f : Buffer -> A * Buffer) : reader_safe f -> reader_safe (ReadVector f).
Proof.
  intros Hf b H. unfold ReadVector.
  pose proof (ReadVarInt_safe 8 ltac:(lia) b H) as H1. destruct (ReadVarInt 8 b) as [size b1].
  pose proof (CheckReadCount_wf size kMaxReadElements 1 b1 H1) as H2.
  destruct (CheckReadCount _ _ _ _) as [[] b2]; simpl; [by apply read_times_safe|done].
Qed.

Lemma read_pair_safe {K V} (fk : Buffer -> K * Buffer) (fv : Buffer -> V * Buffer) :
  reader_safe fk -> reader_safe fv -> reader_safe (read_pair fk fv).
Proof.
  intros Hk Hv b H. unfold read_pair. pose proof (Hk b H) as H1. destruct (fk b) as [x b1].
  pose proof (Hv b1 H1) as H2. by destruct (fv b1).
Qed.

Lemma ReadMap_safe {K V} `{Countable K} (fk : Buffer -> K * Buffer) (fv : Buffer -> V * Buffer) :
  reader_safe fk -> reader_safe fv -> reader_safe (ReadMap fk fv).
Proof.
  intros Hk Hv b Hb. unfold ReadMap.
  pose proof (ReadVarInt_safe 8 ltac:(lia) b Hb) as H1. destruct (ReadVarInt 8 b) as [size b1].
  pose proof (CheckReadCount_wf size kMaxReadElements 2 b1 H1) as H2.
  destruct (CheckReadCount _ _ _ _) as [[] b2]; simpl; [|done].
  pose proof (read_times_safe _ (Z.to_nat size) (read_pair_safe fk fv Hk Hv) b2 H2) as H3.
  by destruct (read_times _ _ b2).
Qed.

Lemma ReadArray_safe {A} s (f : Buffer -> A * Buffer) : reader_safe f -> reader_safe (ReadArray s f).
Proof.
  intros Hf b H. unfold ReadArray.
  pose proof (ReadVarInt_safe 8 ltac:(lia) b H) as H1. destruct (ReadVarInt 8 b) as [size b1].
  pose proof (CheckReadCount_wf size kMaxReadElements s b1 H1) as H2.
  destruct (CheckReadCount _ _ _ _) as [[] b2]; simpl; [|done].
  destruct (alloc _); [|by apply set_last_error_wf].
  pose proof (read_times_safe f (Z.to_nat size) Hf b2 H2). by destruct (read_times _ _ b2).
Qed.

Lemma ReadInetAddress_safe : reader_safe ReadInetAddress.
Proof.
  intros b H. unfold ReadInetAddress.
  pose proof (ReadInt_safe 1 ltac:(lia) b H) as H1. destruct (ReadInt 1 b) as [ver b1].
  simpl in H1. destruct (ver =? 4); [|destruct (ver =? 6); [|by apply set_last_error_wf]].
  - pose proof (Read_safe 4 1 (repeat 0 4) ltac:(lia) ltac:(lia) ltac:(lia) b1 H1) as H2.
    destruct (Read 4 1 _ b1) as [ip b2].
    pose proof (Read_safe 2 1 (repeat 0 2) ltac:(lia) ltac:(lia) ltac:(lia) b2 H2) as H3.
    by destruct (Read 2 1 _ b2).
  - pose proof (Read_safe 1 16 (repeat 0 16) ltac:(lia) ltac:(lia) ltac:(lia) b1 H1) as H2.
    destruct (Read 1 16 _ b1) as [ip b2].
    pose proof (Read_safe 2 1 (repeat 0 2) ltac:(lia) ltac:(lia) ltac:(lia) b2 H2) as H3.
    by destruct (Read 2 1 _ b2).
Qed.

End Safety.

(** ** Codecs *)

Section Codecs.
Context `{P : Platform} `{!AmplePlatform P}.

(** Values written one after the other are read back one after the other. *)
Lemma foldl_appends {A} e (valid : A -> Prop) w r `{C : !BufferCodec e valid w r} (xs : list A) b :
  Forall valid xs -> endianness_ b = e -> ready (zlen (xs ≫= image)) b ->
  appends b (xs ≫= image) (foldl (fun b x => w x b) b xs).
Proof.
  intros Hv. revert b. induction Hv as [|x xs Hx _ IH]; intros b He Hr; csimpl in *.
  { apply appends_nil. by destruct Hr. }
  rewrite length_app, Nat2Z.inj_add in Hr.
  assert (Ha : appends b (image x) (w x b)).
  { apply image_written; try done. eapply ready_weaken; [|exact Hr]. lia. }
  eapply appends_trans; [exact Ha|]. apply IH.
  - by rewrite (app_endian _ _ _ Ha).
  - by eapply appends_ready.
Qed.

Lemma read_times_consumes {A} e (valid : A -> Prop) w r `{C : !BufferCodec e valid w r}
  (xs : list A) b rest :
  Forall valid xs -> wf b -> in_range b -> endianness_ b = e ->
  avail b = (xs ≫= image) ++ rest ->
  exists b', read_times r (length xs) b = (xs, b') /\ consumes b (xs ≫= image) rest b'.
Proof.
  intros Hv. revert b. induction Hv as [|x xs Hx _ IH]; intros b Hwf Hin He E; csimpl in *.
  { exists b. split; [done|]. split; try done. simpl. lia. }
  rewrite <- app_assoc in E.
  destruct (image_read x Hx b _ Hwf He E) as (b1 & -> & C1).
  destruct (IH b1) as (b2 & -> & C2); try by destruct C1.
  { by rewrite (con_endian _ _ _ _ C1). }
  exists b2. split; [done|]. by eapply consumes_trans.
Qed.

Lemma zlen_bind_image {A} e (valid : A -> Prop) w r `{C : !BufferCodec e valid w r} k (xs : list A) :
  (forall x, valid x -> k <= zlen (image x)) -> Forall valid xs -> k * zlen xs <= zlen (xs ≫= image).
Proof.
  intros Hk. induction 1 as [|x xs Hx _ IH]; csimpl; [lia|].
  rewrite length_app, Nat2Z.inj_succ, Z.mul_succ_r. specialize (Hk x Hx). lia.
Qed.

#[export] Instance int_codec e n : (1 <= n < 2 ^ 31) ->
  BufferCodec e (fun v => 0 <= v < 256 ^ n) (WriteInt n) (ReadInt n).
Proof.
  intros Hn. refine {| image := enc e n |}.
  - intros v _. rewrite zlen_enc; lia.
  - intros v b _ <- Hr. rewrite zlen_enc in Hr by lia. apply WriteNumber_appends; [done|lia].
  - intros v Hv. rewrite <- (dec_enc e n v) at 2 by lia.
    apply ReadNumber_parses; [lia|]. apply zlen_enc. lia.
Defined.

#[export] Instance varint_codec e n : (0 <= n < 256) ->
  BufferCodec e (fun v => 0 <= v < 256 ^ n) (WriteVarInt n) (ReadVarInt n).
Proof.
  intros Hn. refine {| image := var_image e n |}.
  - intros v _. rewrite zlen_var_image. pose proof (var_size_range (mem_bytes n v)). lia.
  - intros v b _ He Hr. by apply WriteVarInt_appends.
  - intros v Hv. by apply ReadVarInt_parses.
Defined.

#[export] Instance pair_codec {K V} e (vk : K -> Prop) (vv : V -> Prop) wk rk wv rv
  `{Ck : !BufferCodec e vk wk rk} `{Cv : !BufferCodec e vv wv rv} :
  BufferCodec e (fun kv => vk kv.1 /\ vv kv.2) (write_pair wk wv) (read_pair rk rv).
Proof.
  refine {| image := fun kv => image kv.1 ++ image kv.2 |}.
  - intros [x y] [Hx Hy]. simpl. rewrite length_app.
    pose proof (image_nonempty x Hx). lia.
  - intros [x y] b [Hx Hy] He Hr. simpl in *. rewrite length_app, Nat2Z.inj_add in Hr.
    assert (Ha : appends b (image x) (wk x b)).
    { apply image_written; try done. eapply ready_weaken; [|exact Hr]. lia. }
    eapply appends_trans; [exact Ha|]. unfold write_pair; simpl.
    apply image_written; [done| |by eapply appends_ready].
    by rewrite (app_endian _ _ _ Ha).
  - intros [x y] [Hx Hy] b r Hwf He E. simpl in *. rewrite <- app_assoc in E. unfold read_pair.
    destruct (image_read x Hx b _ Hwf He E) as (b1 & -> & C1).
    destruct (image_read y Hy b1 r) as (b2 & -> & C2); try by destruct C1.
    { by rewrite (con_endian _ _ _ _ C1). }
    exists b2. split; [done|]. by eapply consumes_trans.
Defined.

(** A length prefix, then the elements: what strings, vectors and maps share. *)
Lemma counted_parses {A B} e (valid : A -> Prop) w r `{C : !BufferCodec e valid w r} (xs : list A)
  k (finish : list A -> B) (fail : B) :
  (forall x, valid x -> k <= zlen (image x)) -> 1 <= k ->
  Forall valid xs -> zlen xs <= 65536 ->
  parses e (fun b =>
    let '(size, b) := ReadVarInt 8 b in
    let '(ok, b) := CheckReadCount size 65536 k b in
    if negb ok then (fail, b)
    else let '(ys, b) := read_times r (Z.to_nat size) b in (finish ys, b))
  (var_image e 8 (zlen xs) ++ (xs ≫= image)) (finish xs).
Proof.
  intros Hk Hk1 Hv Hlen b rest Hwf He E. rewrite <- app_assoc in E.
  destruct (ReadVarInt_parses e 8 (zlen xs) ltac:(lia) ltac:(lia) b _ Hwf He E) as (b1 & -> & C1).
  assert (Hchk : CheckReadCount (zlen xs) 65536 k b1 = (true, b1)).
  { unfold CheckReadCount. replace (65536 <? zlen xs) with false by (symmetry; apply Z.ltb_ge; lia).
    simpl. rewrite readable_avail, (con_avail _ _ _ _ C1), length_app by (by destruct C1).
    pose proof (zlen_bind_image e valid w r k xs Hk Hv).
    destruct (Z.eqb_spec k 0); [lia|].
    replace (_ <? zlen xs) with false; [done|]. symmetry. apply Z.ltb_ge.
    apply Z.div_le_lower_bound; lia. }
  rewrite Hchk. simpl. rewrite Nat2Z.id.
  destruct (read_times_consumes e valid w r xs b1 rest) as (b2 & -> & C2); try by destruct C1.
  { by rewrite (con_endian _ _ _ _ C1). }
  exists b2. split; [done|]. by eapply consumes_trans.
Qed.

Lemma counted_appends {A} e (valid : A -> Prop) w r `{C : !BufferCodec e valid w r} (xs : list A) b :
  Forall valid xs -> endianness_ b = e -> ready (zlen (var_image e 8 (zlen xs) ++ (xs ≫= image))) b ->
  appends b (var_image e 8 (zlen xs) ++ (xs ≫= image)) (WriteVector xs w b).
Proof.
  intros Hv He Hr. rewrite length_app, Nat2Z.inj_add in Hr. unfold WriteVector.
  assert (Ha : appends b (var_image e 8 (zlen xs)) (WriteVarInt 8 (zlen xs) b)).
  { apply WriteVarInt_appends; try done. eapply ready_weaken; [|exact Hr]. lia. }
  eapply appends_trans; [exact Ha|].
  apply foldl_appends with (valid := valid) (r := r); [done| |by eapply appends_ready].
  by rewrite (app_endian _ _ _ Ha).
Qed.

#[export] Instance vector_codec {A} e (valid : A -> Prop) w r `{C : !BufferCodec e valid w r} :
  BufferCodec e (fun xs => Forall valid xs /\ zlen xs <= 65536)
    (fun xs => WriteVector xs w) (ReadVector r).
Proof.
  refine {| image := fun xs => var_image e 8 (zlen xs) ++ (xs ≫= image) |}.
  - intros xs _. rewrite length_app. pose proof (zlen_var_image e 8 (zlen xs)) as Hz.
    pose proof (var_size_range (mem_bytes 8 (zlen xs))). lia.
  - intros xs b [Hv _] He Hr. by apply counted_appends with (valid := valid) (r := r).
  - intros xs [Hv Hl] b rest Hwf He E.
    destruct (counted_parses e valid w r xs 1 id [] image_nonempty ltac:(lia) Hv Hl b rest Hwf He E)
      as (b' & Eq & Hc).
    exists b'. split; [|done]. unfold id in Eq. rewrite <- Eq. unfold ReadVector.
    destruct (ReadVarInt 8 b) as [size b1].
    change kMaxReadElements with 65536.
    destruct (CheckReadCount size 65536 1 b1) as [[] b2]; simpl; [|done].
    by destruct (read_times r _ b2).
Defined.

End Codecs.

(** ** Strings, addresses and bit sets *)

Section MoreCodecs.
Context `{P : Platform} `{!AmplePlatform P}.

Lemma enc_byte e c : is_byte c -> enc e 1 c = [c].
Proof.
  intros Hc. unfold enc, is_byte in *. simpl.
  case_decide; simpl; by rewrite Z.mod_small.
Qed.

Lemma bind_enc_byte e s : bytes_ok s -> (s ≫= enc e 1) = s.
Proof.
  induction 1 as [|c s Hc _ IH]; csimpl; [done|]. by rewrite enc_byte, IH.
Qed.

Lemma reserved_appends size b b1 bs b' : reserved size b b1 -> appends b1 bs b' -> appends b bs b'.
Proof. intros [] []. split; congruence. Qed.

Lemma Reserve_ready size exact b n :
  ready n b -> write_cursor_ b <= size <= 2 ^ 31 ->
  exists b', Reserve size exact b = (true, b') /\ reserved size b b' /\ ready n b'.
Proof.
  intros [Hwf Hop Hrl Hroom] Hs. pose proof (wf_wc b Hwf).
  destruct (Reserve_cases size exact b) as [(m & Hm & Hm2 & _)|(b' & -> & R)]; try done; [lia| |].
  { destruct (alloc_ample m) as [? ?]; [unfold kMinGrowth in *; lia|congruence]. }
  exists b'. split; [done|]. split; [done|]. destruct R. split; try done; lia.
Qed.

Definition string_image (e : Endianness) (s : list Z) : list Z := var_image e 8 (zlen s) ++ s.

Lemma WriteString_appends e s b :
  bytes_ok s -> endianness_ b = e -> ready (zlen (string_image e s) + 8) b ->
  appends b (string_image e s) (WriteString s b).
Proof.
  intros Hs He Hr. unfold string_image in *. rewrite length_app, Nat2Z.inj_add in Hr.
  assert (Hz : 0 <= zlen s <= 2 ^ 31).
  { destruct Hr as [Hw _ _ Hroom]. pose proof (wf_wc b Hw). lia. }
  unfold WriteString, ReserveIncremental.
  rewrite (u64_small (zlen s + 8)) by (unfold size_max; lia).
  assert (Hw : 0 <= write_cursor_ b /\ write_cursor_ b + zlen s + 8 <= 2 ^ 31).
  { destruct Hr as [Hw _ _ Hroom]. pose proof (wf_wc b Hw). lia. }
  rewrite u64_small by (unfold size_max; lia).
  destruct (Reserve_ready (write_cursor_ b + (zlen s + 8)) false b (zlen (var_image e 8 (zlen s)) + zlen s)
    ltac:(eapply ready_weaken; [|exact Hr]; lia)
    ltac:(lia)) as (b1 & -> & R & Hr1).
  eapply reserved_appends; [exact R|].
  pose proof (int_codec e 1 ltac:(lia)) as C.
  pose proof (counted_appends e _ (WriteInt 1) (ReadInt 1) (C := int_codec e 1 ltac:(lia)) s b1) as H.
  simpl in H. rewrite bind_enc_byte in H by done. apply H.
  - eapply Forall_impl; [exact Hs|]. unfold is_byte. intros; simpl; lia.
  - destruct R; congruence.
  - by rewrite length_app, Nat2Z.inj_add.
Qed.

Lemma ReadString_parses e s :
  bytes_ok s -> zlen s <= 65536 -> parses e ReadString (string_image e s) s.
Proof.
  intros Hs Hlen b r Hwf He E. unfold string_image in E. rewrite <- app_assoc in E.
  destruct (ReadVarInt_parses e 8 (zlen s) ltac:(lia) ltac:(lia) b _ Hwf He E) as (b1 & E1 & C1).
  unfold ReadString. rewrite E1. unfold CheckReadCount, kMaxReadStringLength.
  replace (65536 <? zlen s) with false by (symmetry; apply Z.ltb_ge; lia). simpl.
  rewrite readable_avail, (con_avail _ _ _ _ C1), length_app, Z.div_1_r by (by destruct C1).
  replace (_ <? zlen s) with false by (symmetry; apply Z.ltb_ge; lia). simpl.
  rewrite (load_avail b1 s r) by (by destruct C1).
  exists (SkipRead (zlen s) b1). split; [done|].
  eapply consumes_trans; [exact C1|]. apply SkipRead_consumes; by destruct C1.
Qed.

(** Raw bytes: no byte order, a whole number of elements. *)
Lemma Read_parses e s n p dst :
  1 <= s -> 1 <= n -> zlen p = s * n -> s * n < 2 ^ 63 -> parses e (Read s n dst) p p.
Proof.
  intros Hs Hn HL Hsz b r Hwf He E.
  assert (Hp : p <> []) by (intros ->; simpl in *; nia).
  assert (Hin := avail_in_range b p r Hwf E Hp).
  assert (Hdiv : n <= size_max / s).
  { apply Z.div_le_lower_bound; unfold size_max; nia. }
  unfold Read. replace (size_max / s <? n) with false by (symmetry; apply Z.ltb_ge; lia).
  rewrite u64_small by (unfold size_max; nia). rewrite <- HL.
  replace (CheckReadableBytes (zlen p) b) with true.
  2: { symmetry. apply CheckReadableBytes_spec; [done|lia|].
       rewrite readable_avail, E, length_app by done. split; [lia|exact Hin]. }
  simpl. rewrite (load_avail b p r) by done.
  eexists. split; [done|]. by apply SkipRead_consumes.
Qed.

Lemma swap_port_image port :
  0 <= port < 65536 -> mem_bytes 2 (SwapPortByteOrder port) = enc BigEndian 2 port.
Proof.
  intros Hp. unfold mem_bytes, SwapPortByteOrder, enc, u16. simpl.
  destruct sys_endianness; simpl; [|done].
  rewrite Z.shiftl_mul_pow2, Z.shiftr_div_pow2 by lia.
  pose proof (Z.div_pos port (2 ^ 8) ltac:(lia) ltac:(lia)).
  pose proof (Z.div_lt_upper_bound port (2 ^ 8) 256 ltac:(lia) ltac:(lia)).
  rewrite lor_shifted_low by lia.
  change (2 ^ 8) with 256 in *. change (2 ^ 16) with 65536.
  f_equal; [|f_equal]; Z.to_euclidean_division_equations; nia.
Qed.

Lemma swap_port_involutive bs :
  bytes_ok bs -> length bs = 2%nat ->
  SwapPortByteOrder (mem_val bs) = dec BigEndian bs.
Proof.
  intros Hb HL. destruct bs as [|x [|y [|]]]; try done. inversion_clear Hb as [|? ? Hx Hb'].
  inversion_clear Hb' as [|? ? Hy _]. unfold is_byte in *.
  assert (E1 : le_val [x; y] = x + 256 * y) by (simpl; lia).
  assert (E2 : le_val (rev [x; y]) = y + 256 * x) by (simpl; lia).
  unfold SwapPortByteOrder, mem_val, dec. rewrite E1, E2.
  destruct sys_endianness; repeat case_decide; try done.
  rewrite Z.shiftl_mul_pow2, Z.shiftr_div_pow2 by lia.
  pose proof (Z.div_pos (x + 256 * y) (2 ^ 8) ltac:(lia) ltac:(lia)).
  pose proof (Z.div_lt_upper_bound (x + 256 * y) (2 ^ 8) 256 ltac:(lia) ltac:(lia)).
  rewrite lor_shifted_low by lia. unfold u16.
  change (2 ^ 8) with 256 in *. change (2 ^ 16) with 65536.
  Z.to_euclidean_division_equations; nia.
Qed.

Definition address_ok (a : InetAddress) : Prop :=
  match a with
  | InetAddressIPv4 ip port => bytes_ok ip /\ length ip = 4%nat /\ 0 <= port < 65536
  | InetAddressIPv6 ip port => bytes_ok ip /\ length ip = 16%nat /\ 0 <= port < 65536
  | InetAddressUnix _ => False
  end.

(** The family, the host in network order, the port in network order. *)
Definition address_image (a : InetAddress) : list Z :=
  match a with
  | InetAddressIPv4 ip port => [4] ++ ip ++ enc BigEndian 2 port
  | InetAddressIPv6 ip port => [6] ++ ip ++ enc BigEndian 2 port
  | InetAddressUnix _ => [0]
  end.

Lemma write_host_appends ver ip port b :
  is_byte ver -> bytes_ok ip -> 0 <= port < 65536 ->
  ready (zlen ([ver] ++ ip ++ enc BigEndian 2 port)) b ->
  appends b ([ver] ++ ip ++ enc BigEndian 2 port)
    (Write (mem_bytes 2 (SwapPortByteOrder port)) (Write ip (WriteInt 1 ver b))).
Proof.
  intros Hv Hip Hp Hr. rewrite !length_app, !Nat2Z.inj_add in Hr. rewrite swap_port_image by done.
  assert (H1 : appends b [ver] (WriteInt 1 ver b)).
  { rewrite <- (enc_byte (endianness_ b)) by done. apply WriteNumber_appends; [|lia].
    eapply ready_weaken; [|exact Hr]. simpl; lia. }
  assert (Hr1 := appends_ready _ _ _ _ H1 Hr).
  assert (H2 : appends (WriteInt 1 ver b) ip (Write ip (WriteInt 1 ver b))).
  { apply Write_appends; [|done]. eapply ready_weaken; [|exact Hr1]. lia. }
  eapply appends_trans; [exact H1|]. eapply appends_trans; [exact H2|].
  apply Write_appends; [by eapply appends_ready|apply enc_bytes_ok].
Qed.

Lemma read_host_parses e n (mk : list Z -> Z -> InetAddress) s k dst1 dst2 ip port :
  bytes_ok ip -> length ip = n -> Z.of_nat n = s * k -> 1 <= s -> 1 <= k -> 0 <= port < 65536 ->
  s * k < 2 ^ 63 ->
  parses e (fun b => let '(raw_ip, b) := Read s k dst1 b in
                     let '(raw_port, b) := Read 2 1 dst2 b in
                     (Some (mk raw_ip (SwapPortByteOrder (mem_val raw_port))), b))
    (ip ++ enc BigEndian 2 port) (Some (mk ip port)).
Proof.
  intros Hip HL Hn Hs Hk Hp Hsz b r Hwf He E. rewrite <- app_assoc in E.
  destruct (Read_parses e s k ip dst1 Hs Hk ltac:(lia) Hsz b _ Hwf He E) as (b1 & -> & C1).
  destruct (Read_parses e 2 1 (enc BigEndian 2 port) dst2 ltac:(lia) ltac:(lia)
    ltac:(rewrite zlen_enc; lia) ltac:(lia) b1 r) as (b2 & -> & C2); try by destruct C1.
  { by rewrite (con_endian _ _ _ _ C1). }
  exists b2. split; [|by eapply consumes_trans].
  rewrite swap_port_involutive.
  - by rewrite dec_enc by lia.
  - apply enc_bytes_ok.
  - pose proof (zlen_enc BigEndian 2 port). lia.
Qed.

#[export] Instance address_codec e :
  BufferCodec e (fun a => match a with Some a => address_ok a | None => False end)
    (fun a => match a with Some a => WriteInetAddress a | None => id end) ReadInetAddress.
Proof.
  refine {| image := fun a => match a with Some a => address_image a | None => [] end |}.
  - intros [[]|] H; simpl in *; try done; lia.
  - intros [[ip port|ip port|]|] b H He Hr; simpl in *; try done;
      apply write_host_appends; try done; tauto.
  - intros [[ip port|ip port|]|] H b r Hwf He E; simpl in H; try done;
      destruct H as (Hip & HL & Hp); simpl in E; rewrite app_comm_cons in E.
    + change (4 :: ip ++ enc BigEndian 2 port) with ([4] ++ (ip ++ enc BigEndian 2 port)) in E.
      rewrite <- app_assoc in E. rewrite <- (enc_byte e 4) in E by done.
      destruct (ReadNumber_parses e 1 (enc e 1 4) ltac:(lia) ltac:(by apply zlen_enc) b _ Hwf He E)
        as (b1 & E1 & C1).
      destruct (read_host_parses e 4 InetAddressIPv4 4 1 (repeat 0 4) (repeat 0 2) ip port
        Hip HL eq_refl ltac:(lia) ltac:(lia) Hp ltac:(lia) b1 r) as (b2 & E2 & C2); try by destruct C1.
      { by rewrite (con_endian _ _ _ _ C1). }
      rewrite (enc_byte e 4) in C1 by done.
      exists b2. split; [|exact (consumes_trans _ _ _ _ _ _ C1 C2)].
      unfold ReadInetAddress, ReadInt. rewrite E1, dec_enc by lia. exact E2.
    + change (6 :: ip ++ enc BigEndian 2 port) with ([6] ++ (ip ++ enc BigEndian 2 port)) in E.
      rewrite <- app_assoc in E. rewrite <- (enc_byte e 6) in E by done.
      destruct (ReadNumber_parses e 1 (enc e 1 6) ltac:(lia) ltac:(by apply zlen_enc) b _ Hwf He E)
        as (b1 & E1 & C1).
      destruct (read_host_parses e 16 InetAddressIPv6 1 16 (repeat 0 16) (repeat 0 2) ip port
        Hip HL eq_refl ltac:(lia) ltac:(lia) Hp ltac:(lia) b1 r) as (b2 & E2 & C2); try by destruct C1.
      { by rewrite (con_endian _ _ _ _ C1). }
      rewrite (enc_byte e 6) in C1 by done.
      exists b2. split; [|exact (consumes_trans _ _ _ _ _ _ C1 C2)].
      unfold ReadInetAddress, ReadInt. rewrite E1, dec_enc by lia. exact E2.
Defined.

End MoreCodecs.

(** ** Bit sets *)

Lemma bitset_bit_testbit data i :
  bitset_bit data i = Z.testbit (default 0 (data !! (i / 8)%nat)) (Z.of_nat (i mod 8)).
Proof. unfold bitset_bit. by rewrite <- Z.bit0_odd, Z.shiftr_spec. Qed.

Lemma u8_lor_bit_testbit x k j :
  0 <= j < 8 -> 0 <= k < 8 ->
  Z.testbit (u8 (Z.lor x (u8 (Z.shiftl 1 k)))) j = (j =? k) || Z.testbit x j.
Proof.
  intros Hj Hk. unfold u8. rewrite Z.mod_pow2_bits_low, Z.lor_spec, Z.mod_pow2_bits_low by lia.
  rewrite Z.shiftl_1_l, Z.pow2_bits_eqb by lia. rewrite orb_comm. f_equal. apply Z.eqb_sym.
Qed.

Lemma set_bitset_bit_spec bs data i j :
  (i / 8 < length data)%nat ->
  bitset_bit (set_bitset_bit bs data i) j = default false (bs !! i) && (j =? i)%nat || bitset_bit data j.
Proof.
  intros Hi. unfold set_bitset_bit. destruct (default false (bs !! i)); [|done]. cbn [andb].
  rewrite !bitset_bit_testbit. destruct (decide (i / 8 = j / 8)%nat) as [E|E].
  - rewrite <- E. rewrite list_lookup_alter_eq.
    destruct (lookup_lt_is_Some_2 data (i / 8) Hi) as [x ->]. cbn [fmap option_fmap option_map default from_option].
    unfold id. pose proof (Nat.mod_upper_bound i 8 ltac:(lia)). pose proof (Nat.mod_upper_bound j 8 ltac:(lia)).
    rewrite u8_lor_bit_testbit by lia. f_equal.
    pose proof (Nat.div_mod_eq i 8). pose proof (Nat.div_mod_eq j 8).
    destruct (Nat.eqb_spec j i) as [->|]; [apply Z.eqb_refl|]. apply Z.eqb_neq. lia.
  - rewrite list_lookup_alter_ne by done.
    destruct (Nat.eqb_spec j i) as [->|]; [done|done].
Qed.

Lemma set_bitset_bit_length bs data i : length (set_bitset_bit bs data i) = length data.
Proof. unfold set_bitset_bit. destruct (default false _); [apply length_alter|done]. Qed.

Lemma set_bitset_bit_ok bs data i : bytes_ok data -> bytes_ok (set_bitset_bit bs data i).
Proof.
  intros H. unfold set_bitset_bit. destruct (default false _); [|done].
  apply Forall_alter; [done|]. intros. apply u8_range.
Qed.

Lemma fill_bitset bs data ixs :
  Forall (fun i => i / 8 < length data)%nat ixs -> bytes_ok data ->
  let d := foldl (set_bitset_bit bs) data ixs in
  bytes_ok d /\ length d = length data /\
  forall j, bitset_bit d j = existsb (fun i => default false (bs !! i) && (j =? i)%nat) ixs || bitset_bit data j.
Proof.
  intros H. revert data H. induction ixs as [|i ixs IH]; intros data H Hok; simpl; [done|].
  inversion_clear H as [|? ? Hi Hixs].
  destruct (IH (set_bitset_bit bs data i)) as (H1 & H2 & H3).
  - by rewrite set_bitset_bit_length.
  - by apply set_bitset_bit_ok.
  - rewrite set_bitset_bit_length in H2. split; [done|]. split; [done|].
    intros j. rewrite H3, set_bitset_bit_spec by done.
    rewrite !orb_assoc. f_equal. apply orb_comm.
Qed.

Section BitsetCodec.
Context `{P : Platform} `{!AmplePlatform P}.

Definition bitset_image (bs : list bool) : list Z :=
  foldl (set_bitset_bit bs) (repeat 0 ((length bs + 7) / 8)%nat) (seq 0 (length bs)).

Lemma bitset_image_spec bs :
  bytes_ok (bitset_image bs) /\ length (bitset_image bs) = ((length bs + 7) / 8)%nat /\
  map (bitset_bit (bitset_image bs)) (seq 0 (length bs)) = bs.
Proof.
  destruct (fill_bitset bs (repeat 0 ((length bs + 7) / 8)%nat) (seq 0 (length bs)))
    as (H1 & H2 & H3).
  { apply Forall_forall. intros i Hi%elem_of_seq. rewrite repeat_length.
    pose proof (Nat.div_mod_eq i 8). pose proof (Nat.mod_upper_bound i 8 ltac:(lia)).
    pose proof (Nat.div_mod_eq (length bs + 7) 8). pose proof (Nat.mod_upper_bound (length bs + 7) 8 ltac:(lia)).
    lia. }
  { by apply bytes_ok_repeat. }
  fold (bitset_image bs) in H1, H2, H3. rewrite repeat_length in H2.
  split; [done|]. split; [done|]. apply list_eq. intros j.
  rewrite list_lookup_fmap. destruct (decide (j < length bs)%nat) as [Hj|Hj].
  - rewrite lookup_seq_lt by done. simpl. rewrite H3.
    destruct (lookup_lt_is_Some_2 bs j Hj) as [x Hx]. rewrite Hx. f_equal.
    replace (bitset_bit (repeat 0 _) j) with false.
    2: { rewrite bitset_bit_testbit. symmetry.
         destruct (repeat 0 _ !! (j / 8)%nat) as [y|] eqn:Ey; simpl; [|apply Z.bits_0].
         apply list_elem_of_lookup_2, list_elem_of_In, repeat_spec in Ey as ->. apply Z.bits_0. }
    rewrite orb_false_r. destruct x.
    + apply existsb_exists. exists j. split; [apply in_seq; lia|]. by rewrite Hx, Nat.eqb_refl.
    + apply not_true_is_false. intros (i & _ & Hi)%existsb_exists.
      apply andb_true_iff in Hi as [Hi Hji]. apply Nat.eqb_eq in Hji as <-. by rewrite Hx in Hi.
  - rewrite lookup_seq_ge by lia. symmetry. apply lookup_ge_None. lia.
Qed.

#[export] Instance bitset_codec e N : (0 < N)%nat -> Z.of_nat N < 2 ^ 31 ->
  BufferCodec e (fun bs => length bs = N) WriteBitset (ReadBitset N).
Proof.
  intros HN HN2.
  assert (HB : forall n, (0 < n)%nat -> Z.of_nat n < 2 ^ 31 -> 1 <= Z.of_nat ((n + 7) / 8) < 2 ^ 31).
  { intros n H1 H2. pose proof (Nat.div_mod_eq (n + 7) 8). pose proof (Nat.mod_upper_bound (n + 7) 8 ltac:(lia)). lia. }
  refine {| image := bitset_image |}.
  - intros bs Hb. destruct (bitset_image_spec bs) as (_ & -> & _). rewrite Hb. by apply HB.
  - intros bs b Hb He Hr. destruct (bitset_image_spec bs) as (Hok & _ & _).
    by apply Write_appends.
  - intros bs Hb b r Hwf He E. destruct (bitset_image_spec bs) as (Hok & HL & Hm).
    rewrite Hb in *. unfold ReadBitset. specialize (HB N HN HN2).
    destruct (Read_parses e 1 (Z.of_nat ((N + 7) / 8)) (bitset_image bs) (repeat 0 ((N + 7) / 8)%nat)
      ltac:(lia) ltac:(lia) ltac:(lia) ltac:(lia) b r Hwf He E) as (b' & -> & C).
    exists b'. by rewrite Hm.
Defined.

End BitsetCodec.

(** ** From one host to another

    What one host wrote, copied into a buffer on the receiving host. *)

Definition sent {A} `{P : Platform} (w : A -> Buffer -> Buffer) (e : Endianness) (x : A) : list Z :=
  avail (w x (Buffer_new e)).

Definition received `{P : Platform} (e : Endianness) (bs : list Z) : Buffer := Buffer_from bs e.

Lemma Buffer_from_spec `{P : Platform} `{!AmplePlatform P} e bs :
  bytes_ok bs -> zlen bs <= 2 ^ 31 ->
  wf (received e bs) /\ avail (received e bs) = bs /\ endianness_ (received e bs) = e /\
  last_error_ (received e bs) = NoError.
Proof.
  intros Hok HL. unfold received, Buffer_from.
  destruct (alloc_ample (zlen bs)) as [d Hd]; [lia|]. rewrite Hd.
  pose proof (alloc_length _ _ Hd) as Hl. unfold store; simpl. rewrite Hl.
  replace (0 + zlen bs <=? zlen bs) with true by (symmetry; apply Z.leb_le; lia).
  assert (HL2 : length (splice 0 bs d) = length d) by (apply length_splice; lia).
  split; [split; simpl; try done; try (unfold size_max; lia)|split; [|done]].
  - unfold store_ok; simpl. rewrite HL2, Hl. split; [done|]. split; [lia|].
    apply splice_bytes_ok; [done|by eapply alloc_bytes].
  - unfold avail, readable_bytes; simpl. unfold size_max. rewrite Z.min_l by lia.
    case_readable; [lia|]. rewrite Z.sub_0_r, slice_splice_front by lia. apply slice_all.
Qed.

(** Bytes appended to a fresh buffer are the message. *)
Lemma sent_appends {A} `{P : Platform} (w : A -> Buffer -> Buffer) e x bs :
  appends (Buffer_new e) bs (w x (Buffer_new e)) ->
  sent w e x = bs /\ bytes_ok bs.
Proof.
  intros [H _ _ _ _ Ha]. unfold sent. unfold avail in Ha at 2. simpl in Ha. split; [done|].
  rewrite <- Ha. by apply avail_bytes_ok.
Qed.

(** The generic round trip: written on [P1], read on [P2]. *)
Lemma transfer_parses {A B} (P1 P2 : Platform) `{!AmplePlatform P2}
  (w : A -> Buffer -> Buffer) (r : Buffer -> B * Buffer) e x y bs :
  appends (Buffer_new e) bs (w x (Buffer_new e)) -> zlen bs <= 2 ^ 31 -> parses e r bs y ->
  exists b', r (received e (sent w e x)) = (y, b') /\ avail b' = [] /\ last_error_ b' = NoError.
Proof.
  intros [-> Hok]%sent_appends HL Hp.
  destruct (Buffer_from_spec e bs Hok HL) as (Hwf & Ha & He & Hn).
  destruct (Hp (received e bs) []) as (b' & -> & C); try done; [by rewrite app_nil_r|].
  exists b'. destruct C. split; [done|]. split; [done|congruence].
Qed.

Lemma var_image_sys (P1 P2 : Platform) e n v :
  @sys_endianness P1 = @sys_endianness P2 -> @var_image P1 e n v = @var_image P2 e n v.
Proof. intros H. unfold var_image, reorder, mem_bytes. by rewrite H. Qed.

(** Strings round trip: a string of at most ZNET_MAX_READ_STRING_LENGTH
    bytes written by one host is what [ReadString] returns on another of the
    same byte order, whatever the buffer's byte order; nothing is left over and
    no error is reported. *)
Theorem string_roundtrip (P1 P2 : Platform) (e : Endianness) (s : list Z)
  (A1 : AmplePlatform P1) (A2 : AmplePlatform P2)
  (Hsys : @sys_endianness P1 = @sys_endianness P2)
  (Hs : bytes_ok s) (Hlen : zlen s <= 65536) :
  exists b', @ReadString P2 (@received P2 e (@sent _ P1 (@WriteString P1) e s)) = (s, b') /\
             avail b' = [] /\ last_error_ b' = NoError.
Proof.
  pose proof (@zlen_var_image P1 e 8 (zlen s)) as Hz.
  pose proof (var_size_range (@mem_bytes P1 8 (zlen s))) as Hv. rewrite length_mem_bytes in Hv.
  assert (HL : zlen (@string_image P1 e s) <= 2 ^ 20)
    by (unfold string_image; rewrite length_app; lia).
  apply (@transfer_parses _ _ P1 P2 A2) with (bs := @string_image P1 e s).
  - apply WriteString_appends; try done. apply Buffer_new_ready. lia.
  - lia.
  - unfold string_image. rewrite (var_image_sys P1 P2) by done. by apply ReadString_parses.
Qed.

(** The hypotheses of the string round trip hold of a greeting on two
    little-endian hosts. *)
Lemma string_roundtrip_witness :
  exists b', @ReadString (host LittleEndian) (@received (host LittleEndian) BigEndian
    (@sent _ (host LittleEndian) (@WriteString (host LittleEndian)) BigEndian [104; 105])) = ([104; 105], b') /\
    avail b' = [] /\ last_error_ b' = NoError.
Proof.
  apply (string_roundtrip (host LittleEndian) (host LittleEndian) BigEndian [104; 105]);
    try apply host_ample; try done.
  repeat constructor; done.
Defined.

(** Vectors round trip for any element type whose own writer and reader
    form a codec: [ReadVector] returns exactly the elements [WriteVector] was
    given, up to ZNET_MAX_READ_ELEMENTS of them. *)
Theorem vector_roundtrip (P : Platform) (A : AmplePlatform P) (T : Type) (e : Endianness)
  (valid : T -> Prop) (w : T -> Buffer -> Buffer) (r : Buffer -> T * Buffer)
  (C : BufferCodec e valid w r) (xs : list T)
  (Hv : Forall valid xs) (Hlen : zlen xs <= 65536)
  (Hsize : zlen (xs ≫= image) <= 2 ^ 30) :
  exists b', ReadVector r (received e (sent (fun xs => WriteVector xs w) e xs)) = (xs, b') /\
             avail b' = [] /\ last_error_ b' = NoError.
Proof.
  pose proof (zlen_var_image e 8 (zlen xs)) as Hz.
  pose proof (var_size_range (mem_bytes 8 (zlen xs))) as Hv'. rewrite length_mem_bytes in Hv'.
  apply (transfer_parses P P) with (bs := image xs).
  - apply (image_written (w := fun xs => WriteVector xs w) xs); [done|done|].
    apply Buffer_new_ready. simpl. rewrite length_app. lia.
  - simpl. rewrite length_app. lia.
  - by apply (image_read (r := ReadVector r) xs).
Qed.

(** Two 16-bit integers, on a little-endian host, in network order. *)
Lemma vector_roundtrip_witness :
  exists b', @ReadVector (host LittleEndian) _ (@ReadInt (host LittleEndian) 2)
    (@received (host LittleEndian) BigEndian (@sent _ (host LittleEndian)
      (fun xs => @WriteVector (host LittleEndian) _ xs (@WriteInt (host LittleEndian) 2)) BigEndian [7; 512])) = ([7; 512], b') /\
    avail b' = [] /\ last_error_ b' = NoError.
Proof.
  apply (vector_roundtrip (host LittleEndian) (host_ample LittleEndian) Z BigEndian _ _ _
    (@int_codec (host LittleEndian) (host_ample LittleEndian) BigEndian 2 ltac:(lia)) [7; 512]).
  - repeat constructor; done.
  - simpl; lia.
  - vm_compute. discriminate.
Defined.

(** Addresses round trip across byte orders: an IPv4 or IPv6 address
    written by one host is the address read by any other, because the host and
    the port travel in network order. *)
Theorem address_roundtrip (P1 P2 : Platform) (e : Endianness) (a : InetAddress)
  (A1 : AmplePlatform P1) (A2 : AmplePlatform P2) (Ha : address_ok a) :
  exists b', @ReadInetAddress P2 (@received P2 e (@sent _ P1 (@WriteInetAddress P1) e a)) = (Some a, b') /\
             avail b' = [] /\ last_error_ b' = NoError.
Proof.
  assert (HL : zlen (address_image a) <= 64).
  { destruct a as [ip port|ip port|]; [| |done]; destruct Ha as (_ & Hl & _);
      unfold address_image; rewrite !length_app, !Nat2Z.inj_add, zlen_enc, Hl; simpl; lia. }
  apply (@transfer_parses _ _ P1 P2 A2) with (bs := address_image a).
  - apply (@image_written P1 _ e _ _ _ (@address_codec P1 A1 e) (Some a)); [done|done|].
    apply Buffer_new_ready. simpl. lia.
  - lia.
  - by apply (@image_read P2 _ e _ _ _ (@address_codec P2 A2 e) (Some a)).
Qed.

(** 127.0.0.1:25000, from a little-endian to a big-endian host. *)
Lemma address_roundtrip_witness :
  exists b', @ReadInetAddress (host BigEndian) (@received (host BigEndian) LittleEndian
    (@sent _ (host LittleEndian) (@WriteInetAddress (host LittleEndian)) LittleEndian
      (InetAddressIPv4 [127; 0; 0; 1] 25000))) = (Some (InetAddressIPv4 [127; 0; 0; 1] 25000), b') /\
    avail b' = [] /\ last_error_ b' = NoError.
Proof.
  apply (address_roundtrip (host LittleEndian) (host BigEndian) LittleEndian); try apply host_ample.
  split; [repeat constructor; done|done].
Defined.
