(* ===== verification/BufferTheorems.v ===== *)
(** * Buffer: safety, containers, and where the code departs from its intent

    The memory-safety theorems of the readers and writers, the map and bit-set
    round trips, and four behaviours of buffer.h that are not what the code is
    after, each shown on the model. *)

From S2P Require Import Prelude Buffer BufferSpec BufferCodecs.

(** A writer that keeps the invariant whether or not memory can be found; the
    buffer must be open for writing and the sum of sizes representable. *)
Definition writer_safe (n : Z) (f : Buffer -> Buffer) : Prop :=
  forall b, wf b -> read_limit_ b = size_max -> read_cursor_ b <= write_cursor_ b ->
  write_cursor_ b + n < 2 ^ 63 ->
  let b' := f b in
  wf b' /\ (exists bs, avail b' = avail b ++ bs) /\
  (avail b' = avail b \/ last_error_ b' = last_error_ b \/ last_error_ b' = CannotAllocate).

Section Theorems.
Context `{P : Platform}.

Lemma ReadBitset_safe N : Z.of_nat N < 2 ^ 31 -> reader_safe (ReadBitset N).
Proof.
  intros HN b H. unfold ReadBitset.
  pose proof (Nat.div_mod_eq (N + 7) 8).
  pose proof (Read_safe 1 (Z.of_nat ((N + 7) / 8)) (repeat 0 ((N + 7) / 8)%nat)
    ltac:(lia) ltac:(lia) ltac:(lia) b H) as H1.
  by destruct (Read 1 _ _ b).
Qed.

Lemma put_safe n f :
  0 <= n -> (forall b b', endianness_ b' = endianness_ b -> f b' = f b) ->
  (forall b, bytes_ok (f b)) -> (forall b, zlen (f b) = n) -> writer_safe n (put n f).
Proof.
  intros Hn Hf Hok HL b Hwf Hrl Hop Hsz. simpl.
  destruct (put_cases n f b) as [(-> & _)|[]]; try done; auto.
  - split; [by apply set_last_error_wf|]. split; [exists []; by rewrite app_nil_r|by left].
  - split; [done|]. split; [by eexists|].
    unfold put. destruct (ReserveIncremental n b) as [ok b1] eqn:E. unfold ReserveIncremental in E.
    pose proof (wf_wc b Hwf). rewrite u64_small in E by (unfold size_max; lia).
    destruct (Reserve_cases (write_cursor_ b + n) false b Hwf ltac:(lia))
      as [(m & _ & _ & Eq)|(b2 & Eq & R)]; rewrite Eq in E; injection E as <- <-; simpl; [by auto|].
    right; left. unfold CommitWrite; simpl. rewrite <- (res_err _ _ _ R).
    unfold store. repeat case_match; done.
Qed.

Lemma WriteInt_safe n v : 0 <= n -> writer_safe n (WriteInt n v).
Proof.
  intros Hn b. unfold WriteInt. rewrite WriteNumber_put.
  apply put_safe; try done; [by intros ? ? ->|intros; apply enc_bytes_ok|intros; by apply zlen_enc].
Qed.

Lemma Write_safe bs : bytes_ok bs -> writer_safe (zlen bs) (Write bs).
Proof. intros Hb b. rewrite Write_put. by apply put_safe; try lia. Qed.

Lemma ReadArrayFixed_safe {A} s N (f : Buffer -> A * Buffer) : reader_safe f -> reader_safe (ReadArrayFixed s N f).
Proof.
  intros Hf b H. unfold ReadArrayFixed. pose proof (ReadVarInt_safe 8 ltac:(lia) b H) as H1. destruct (ReadVarInt 8 b) as [size b1]. cbn [snd] in H1.
  destruct (negb _); [by apply set_last_error_wf|]. destruct (negb _); [by apply set_last_error_wf|].
  pose proof (read_times_safe f (Z.to_nat N) Hf b1 H1). by destruct (read_times _ _ b1).
Qed.

(** What [ReadBool] does to the buffer is what reading a byte does, but for the mark
    that the value is not one a [bool] has. *)
Lemma ReadBool_buffer b : wf b -> (ReadBool b).2 = if (ReadInt 1 b).1 <=? 1 then (ReadInt 1 b).2 else set_ub (ReadInt 1 b).2.
Proof.
  intros H. pose proof (ReadInt_value_range 1 b H ltac:(lia)). unfold ReadBool. destruct (ReadInt 1 b) as [v b1]. cbn [fst snd] in *.
  destruct (Z.eqb_spec v 0) as [->|]; [done|]. destruct (Z.eqb_spec v 1) as [->|]; [done|]. destruct (Z.leb_spec v 1); [lia|done].
Qed.

(** [C27] Reading untrusted bytes is memory safe: from any well-formed buffer, with
    whatever contents, lengths and counts a peer chose, every reader of the class
    (but [ReadCustom] and the floating-point ones) leaves the buffer well formed,
    which says that no memory outside the allocation was touched.  The raw [Read] is
    given a destination below 2^63 bytes; the container readers inherit this from
    their element readers.  [ReadBool] touches what reading one byte touches; what it
    adds is only the mark that a byte above one is no value of its type. *)
Theorem readers_memory_safe :
  (forall sizeof_T n dst, 1 <= sizeof_T -> 0 <= n -> sizeof_T * n < 2 ^ 63 -> reader_safe (Read sizeof_T n dst)) /\
  (forall n, 1 <= n <= 16 -> reader_safe (ReadInt n)) /\
  (forall b, wf b -> wf (ReadInt 1 b).2 /\ (ReadBool b).2 = if (ReadInt 1 b).1 <=? 1 then (ReadInt 1 b).2 else set_ub (ReadInt 1 b).2) /\
  reader_safe ReadPort /\
  (forall n, 0 <= n <= 8 -> reader_safe (ReadVarInt n)) /\
  reader_safe ReadString /\ reader_safe ReadInetAddress /\
  (forall N, Z.of_nat N < 2 ^ 31 -> reader_safe (ReadBitset N)) /\
  (forall A (f : Buffer -> A * Buffer), reader_safe f -> reader_safe (ReadVector f)) /\
  (forall A s (f : Buffer -> A * Buffer), reader_safe f -> reader_safe (ReadArray s f)) /\
  (forall A s N (f : Buffer -> A * Buffer), reader_safe f -> reader_safe (ReadArrayFixed s N f)) /\
  (forall V (f : Buffer -> Z * Buffer) (g : Buffer -> V * Buffer),
     reader_safe f -> reader_safe g -> reader_safe (ReadMap f g)).
Proof.
  split_and!; [intros; by apply Read_safe|intros; apply ReadInt_safe; lia| |apply (ReadInt_safe 2); lia|intros; apply ReadVarInt_safe; lia|apply ReadString_safe|
    apply ReadInetAddress_safe|apply ReadBitset_safe|apply @ReadVector_safe|apply @ReadArray_safe|apply @ReadArrayFixed_safe|intros; by apply ReadMap_safe].
  intros b H. split; [by apply (ReadInt_safe 1)|by apply ReadBool_buffer].
Qed.

(** Writing is memory safe and all-or-nothing: an integer or raw-byte write
    either appends its bytes or, when memory cannot be found, leaves what was
    written as it was. *)
Theorem writers_memory_safe :
  (forall n v, 0 <= n -> writer_safe n (WriteInt n v)) /\
  (forall bs, bytes_ok bs -> writer_safe (zlen bs) (Write bs)).
Proof. split; [apply WriteInt_safe|apply Write_safe]. Qed.

End Theorems.

(** ** Maps and bit sets *)

(** Inserting the entries of a list without repeated keys builds its map. *)
Lemma foldl_insert_list_to_map {V} (kvs : list (Z * V)) (m : gmap Z V) :
  NoDup kvs.*1 -> (forall k, k ∈ kvs.*1 -> m !! k = None) ->
  foldl (fun m kv => <[kv.1 := kv.2]> m) m kvs = list_to_map kvs ∪ m.
Proof.
  revert m. induction kvs as [|[k v] kvs IH]; intros m Hnd Hm; csimpl in *.
  { by rewrite (left_id_L ∅ (∪)). }
  inversion_clear Hnd as [|? ? Hk Hnd'].
  rewrite IH; [|done|].
  - rewrite <- insert_union_r, insert_union_l; [done|].
    by apply not_elem_of_list_to_map_1.
  - intros k' Hk'. rewrite lookup_insert_ne; [apply Hm; by right|]. by intros ->.
Qed.

(** Maps round trip: the entries of a map, written in any iteration order,
    are read back as that map. *)
Theorem map_roundtrip (P : Platform) (A : AmplePlatform P) (V : Type) (e : Endianness)
  (vk : Z -> Prop) (vv : V -> Prop) (wk : Z -> Buffer -> Buffer) (wv : V -> Buffer -> Buffer)
  (rk : Buffer -> Z * Buffer) (rv : Buffer -> V * Buffer)
  (Ck : BufferCodec e vk wk rk) (Cv : BufferCodec e vv wv rv) (kvs : list (Z * V))
  (Hv : Forall (fun kv => vk kv.1 /\ vv kv.2) kvs) (Hnd : NoDup kvs.*1)
  (Hlen : zlen kvs <= 65536) (Hsize : zlen (kvs ≫= image) <= 2 ^ 30) :
  exists b', ReadMap rk rv (received e (sent (fun kvs => WriteMap kvs wk wv) e kvs))
             = (list_to_map kvs, b') /\ avail b' = [] /\ last_error_ b' = NoError.
Proof.
  pose proof (zlen_var_image e 8 (zlen kvs)) as Hz.
  pose proof (var_size_range (mem_bytes 8 (zlen kvs))) as Hv'. rewrite length_mem_bytes in Hv'.
  apply (transfer_parses P P) with (bs := var_image e 8 (zlen kvs) ++ (kvs ≫= image)).
  - pose proof (counted_appends e _ _ _ (C := pair_codec e vk vv wk rk wv rv) kvs (Buffer_new e)
      Hv eq_refl) as H.
    apply H. apply Buffer_new_ready. rewrite length_app. lia.
  - rewrite length_app. lia.
  - intros b r Hwf He E.
    destruct (counted_parses e _ _ _ (C := pair_codec e vk vv wk rk wv rv) kvs 2
      (fun kvs => foldl (fun m kv => <[kv.1 := kv.2]> m) ∅ kvs) (∅ : gmap Z V)) with (b := b) (r := r)
      as (b' & Eq & C); try done.
    { intros [k v] [Hk Hvv]. simpl. rewrite length_app.
      pose proof (image_nonempty k Hk). pose proof (image_nonempty v Hvv). lia. }
    exists b'. split; [|done]. rewrite foldl_insert_list_to_map in Eq by (done || set_solver).
    rewrite (right_id_L ∅ (∪)) in Eq. exact Eq.
Qed.

(** A map from two 32-bit ids to strings of varints. *)
Lemma map_roundtrip_witness :
  let P := host LittleEndian in
  exists b', @ReadMap P Z Z _ _ (@ReadInt P 4) (@ReadVarInt P 8)
    (@received P LittleEndian (@sent _ P (fun kvs => @WriteMap P Z Z kvs (@WriteInt P 4) (@WriteVarInt P 8))
       LittleEndian [(9, 1000); (3, 0)]))
    = (list_to_map [(9, 1000); (3, 0)], b') /\ avail b' = [] /\ last_error_ b' = NoError.
Proof.
  intros P. apply (map_roundtrip P (host_ample LittleEndian) Z LittleEndian _ _ _ _ _ _
    (@int_codec P (host_ample LittleEndian) LittleEndian 4 ltac:(lia))
    (@varint_codec P (host_ample LittleEndian) LittleEndian 8 ltac:(lia)) [(9, 1000); (3, 0)]).
  - repeat constructor; simpl; lia.
  - apply (bool_decide_unpack _). vm_compute. exact I.
  - simpl; lia.
  - vm_compute. discriminate.
Defined.

(** Bit sets round trip: [ReadBitset] returns the bits [WriteBitset] packed,
    for any width and on any pair of hosts. *)
Theorem bitset_roundtrip (P1 P2 : Platform) (A1 : AmplePlatform P1) (A2 : AmplePlatform P2)
  (e : Endianness) (bs : list bool) (Hn : (0 < length bs)%nat) (Hlen : zlen bs < 2 ^ 31) :
  exists b', ReadBitset (length bs) (@received P2 e (@sent _ P1 (@WriteBitset P1) e bs)) = (bs, b') /\
             avail b' = [] /\ last_error_ b' = NoError.
Proof.
  assert (HL : zlen (bitset_image bs) <= 2 ^ 31).
  { destruct (bitset_image_spec bs) as (_ & -> & _). pose proof (Nat.div_mod_eq (length bs + 7) 8). lia. }
  apply (@transfer_parses _ _ P1 P2 A2) with (bs := bitset_image bs); [|done|].
  - apply (@image_written P1 _ e _ _ _ (@bitset_codec P1 A1 e (length bs) Hn Hlen) bs); [done|done|].
    apply Buffer_new_ready. simpl in *. lia.
  - by apply (@image_read P2 _ e _ _ _ (@bitset_codec P2 A2 e (length bs) Hn Hlen) bs).
Qed.

Lemma bitset_roundtrip_witness :
  let bs := [true; false; true; true; false; false; false; false; true; true] in
  exists b', ReadBitset (length bs) (@received (host BigEndian) LittleEndian
    (@sent _ (host LittleEndian) (@WriteBitset (host LittleEndian)) LittleEndian bs)) = (bs, b') /\
    avail b' = [] /\ last_error_ b' = NoError.
Proof.
  intros bs. apply (bitset_roundtrip (host LittleEndian) (host BigEndian) (host_ample _) (host_ample _)
    LittleEndian bs); simpl; lia.
Defined.

(** ** Departures *)

(** [ReadArray] refuses arrays [WriteArray] wrote: the reader demands
    [sizeof(T)] bytes per element, but a 64-bit integer below 256 written with
    [WriteVarInt] takes at most two.  Every nonempty array of such values comes
    back as a null pointer with [ReadOutOfBounds]. *)
Theorem ReadArray_refuses_varints (P : Platform) (A : AmplePlatform P) (e : Endianness)
  (Hsys : sys_endianness = LittleEndian) (xs : list Z)
  (Hne : xs <> []) (Hxs : Forall (fun x => 0 <= x < 256) xs) (Hlen : zlen xs <= 65536) :
  exists b', ReadArray 8 (ReadVarInt 8)
    (received e (sent (fun xs => WriteArray (Some xs) (WriteVarInt 8)) e xs)) = (None, b') /\
    last_error_ b' = ReadOutOfBounds.
Proof.
  assert (H8 : 0 <= 8 < 256) by done. set (C := varint_codec e 8 H8).
  assert (Himg : forall x, 0 <= x < 256 -> zlen (var_image e 8 x) <= 2).
  { intros x Hx. rewrite zlen_var_image. unfold mem_bytes. rewrite Hsys.
    rewrite decide_True by done. change (Z.to_nat 8) with 8%nat. cbn [le_bytes].
    rewrite (Z.div_small x 256) by lia. change (0 / 256) with 0. change (0 mod 256) with 0.
    generalize (x mod 256). intros y. simpl. destruct (y =? 0); lia. }
  assert (Hb : zlen (xs ≫= var_image e 8) <= 2 * zlen xs).
  { clear Hne Hlen. induction Hxs as [|x l Hx _ IH]; csimpl; [lia|].
    rewrite length_app. specialize (Himg x Hx). lia. }
  assert (Hv : Forall (fun v => 0 <= v < 256 ^ 8) xs).
  { eapply Forall_impl; [exact Hxs|]. simpl. intros. lia. }
  pose proof (zlen_var_image e 8 (zlen xs)) as Hz.
  pose proof (var_size_range (mem_bytes 8 (zlen xs))) as Hv'. rewrite length_mem_bytes in Hv'.
  set (bs := var_image e 8 (zlen xs) ++ (xs ≫= var_image e 8)).
  assert (HL : zlen bs <= 2 ^ 31) by (unfold bs; rewrite length_app; lia).
  assert (Ha : appends (Buffer_new e) bs (WriteArray (Some xs) (WriteVarInt 8) (Buffer_new e))).
  { apply (counted_appends e _ _ _ (C := C) xs); [done|done|]. apply Buffer_new_ready. change (0 <= zlen bs <= 2 ^ 31). lia. }
  apply (sent_appends (fun xs => WriteArray (Some xs) (WriteVarInt 8))) in Ha as [-> Hok].
  destruct (Buffer_from_spec e bs Hok HL) as (Hwf & Hav & He & Hn).
  destruct (ReadVarInt_parses e 8 (zlen xs) ltac:(lia) ltac:(lia) (received e bs) _ Hwf He Hav)
    as (b1 & E1 & C1).
  unfold ReadArray. rewrite E1. unfold CheckReadCount, kMaxReadElements.
  replace (65536 <? zlen xs) with false by (symmetry; apply Z.ltb_ge; lia). simpl.
  rewrite readable_avail, (con_avail _ _ _ _ C1) by (by destruct C1).
  replace (_ <? zlen xs) with true; [eexists; done|].
  symmetry. apply Z.ltb_lt. destruct xs; [done|]. simpl length in *.
  apply Z.div_lt_upper_bound; lia.
Qed.

Lemma ReadArray_refuses_varints_witness :
  let P := host LittleEndian in
  exists b', @ReadArray P Z 8 (@ReadVarInt P 8) (@received P LittleEndian
    (@sent _ P (fun xs => @WriteArray P Z (Some xs) (@WriteVarInt P 8)) LittleEndian [1; 2; 3])) = (None, b') /\
    last_error_ b' = ReadOutOfBounds.
Proof.
  intros P. apply (ReadArray_refuses_varints P (host_ample LittleEndian) LittleEndian eq_refl [1; 2; 3]).
  - done.
  - repeat constructor; lia.
  - simpl; lia.
Defined.

(** A varint does not survive the trip from a little-endian to a big-endian
    host: the reader places the short image at the wrong end of the integer, so
    every one-byte value [v] arrives as [v * 2^56]. *)
Theorem varint_cross_endian (e : Endianness) (v : Z) :
  In v (map Z.of_nat (seq 1 255)) ->
  (@ReadVarInt (host BigEndian) 8 (@received (host BigEndian) e
     (@sent _ (host LittleEndian) (@WriteVarInt (host LittleEndian) 8) e v))).1 = v * 2 ^ 56.
Proof.
  intros Hin. apply Z.eqb_eq. revert v Hin. apply forallb_forall.
  destruct e; vm_compute; reflexivity.
Qed.

Lemma varint_cross_endian_witness :
  (@ReadVarInt (host BigEndian) 8 (@received (host BigEndian) BigEndian
     (@sent _ (host LittleEndian) (@WriteVarInt (host LittleEndian) 8) BigEndian 5))).1 = 5 * 2 ^ 56.
Proof. apply (varint_cross_endian BigEndian 5). vm_compute. tauto. Defined.

(** A failed allocation in the copying constructor leaves a buffer that
    claims bytes it does not hold: [write_cursor_] keeps the size while [data_]
    is null, so the next read dereferences the null pointer. *)
Theorem failed_construction_reads_null (P : Platform) (e : Endianness) (bs : list Z)
  (Hfail : alloc (zlen bs) = None) (Hne : bs <> []) (Hlen : zlen bs < 2 ^ 63) :
  let b := Buffer_from bs e in
  last_error_ b = CannotAllocate /\ readable_bytes b = zlen bs /\ ub_ (ReadInt 1 b).2 = true.
Proof.
  unfold Buffer_from. rewrite Hfail. simpl. split; [done|].
  assert (1 <= zlen bs) by (destruct bs; simpl in *; [done|lia]). split.
  - unfold readable_bytes; simpl. case_readable; unfold size_max in *; lia.
  - unfold ReadInt, ReadNumber, CheckReadableBytes. simpl.
    rewrite u64_small by (unfold size_max; lia).
    replace (1 <=? _) with true; [done|]. symmetry. apply Z.leb_le. unfold size_max. lia.
Qed.

(** A machine whose allocator refuses everything. *)
Definition starved : Platform.
Proof.
  refine {| sys_endianness := LittleEndian; alloc := fun _ => None |}; discriminate.
Defined.

Lemma failed_construction_reads_null_witness :
  let b := @Buffer_from starved [1; 2] BigEndian in
  last_error_ b = CannotAllocate /\ readable_bytes b = zlen [1; 2] /\
  ub_ (@ReadInt starved 1 b).2 = true.
Proof. apply (failed_construction_reads_null starved BigEndian [1; 2]); simpl; try done; lia. Defined.

(** [ReserveExact] is exact only on an empty buffer: once there is an
    allocation to grow, the same request doubles, although the comment on
    [Reserve] says exact reservations are left exact. *)
Theorem ReserveExact_doubles (P : Platform) (A : AmplePlatform P) (size : Z) (b : Buffer) :
  wf b -> is_Some (data_ b) -> allocated_size_ b < size -> 32 <= size <= 2 ^ 31 ->
  write_cursor_ b <= size ->
  exists b', ReserveExact size b = (true, b') /\ allocated_size_ b' = 2 * size.
Proof.
  intros H [d Hd] Hlt Hs Hw. unfold ReserveExact, Reserve. rewrite Hd.
  replace (size <=? allocated_size_ b) with false by (symmetry; apply Z.leb_gt; lia).
  assert (Hg : grown size = 2 * size).
  { unfold grown, kMinGrowth. rewrite u64_small by (unfold size_max; lia). case_readable; lia. }
  rewrite Hg. destruct (alloc_ample (2 * size)) as [tmp ->]; [lia|].
  destruct (load 0 (write_cursor_ b) b) as [bs b1].
  eexists. split; [reflexivity|].
  by destruct (store_keeps 0 bs (set_data (Some tmp) (set_allocated_size (2 * size) b1))) as (-> & _).
Qed.

Lemma ReserveExact_doubles_witness :
  let P := host LittleEndian in
  exists b', @ReserveExact P 1000 (@WriteInt P 4 7 (Buffer_new LittleEndian)) = (true, b') /\
             allocated_size_ b' = 2 * 1000.
Proof.
  intros P. apply (ReserveExact_doubles P (host_ample LittleEndian) 1000).
  - apply (@WriteNumber_appends P (host_ample LittleEndian)); [apply Buffer_new_ready|]; lia.
  - vm_compute. eauto.
  - vm_compute. reflexivity.
  - lia.
  - vm_compute. discriminate.
Defined.

(** ** The readers on hostile bytes *)

(** A vector that claims 40000 entries and has two bytes of the first, and a byte that
    is no [bool]. *)
Lemma readers_memory_safe_witness :
  let P := host LittleEndian in
  let vector := @received P LittleEndian [2; 64; 156; 7; 7] in
  let flag := @received P LittleEndian [2] in
  wf (@ReadVector P Z (@ReadInt P 4) vector).2 /\ last_error_ (@ReadVector P Z (@ReadInt P 4) vector).2 = ReadOutOfBounds /\
  wf (@ReadArrayFixed P Z 4 40000 (@ReadInt P 4) vector).2 /\ wf (Read 4 9 [] vector).2 /\
  (@ReadBool P flag).2 = set_ub (@ReadInt P 1 flag).2.
Proof.
  intros P vector flag.
  destruct (readers_memory_safe (P := P)) as (Hr & Hi & Hb & _ & _ & _ & _ & _ & Hv & _ & Hf & _).
  assert (wf vector) as Hw by (apply (@Buffer_from_spec P (host_ample LittleEndian) LittleEndian [2; 64; 156; 7; 7]); [repeat constructor; lia|cbn; lia]).
  assert (wf flag) as Hw' by (apply (@Buffer_from_spec P (host_ample LittleEndian) LittleEndian [2]); [repeat constructor; lia|cbn; lia]).
  split; [apply Hv; [apply Hi; lia|done]|]. split; [vm_compute; reflexivity|]. split; [apply Hf; [apply Hi; lia|done]|].
  split; [apply Hr; [lia|lia|lia|done]|]. exact (proj2 (Hb flag Hw')).
Defined.
