(* ===== verification/BufferViews.v ===== *)
(** * Buffers seen through their read cursor

    What is between the cursors of a buffer, through reads, limits, writes over
    bytes already written, headroom and bytes prepended to a message. *)

From S2P Require Import Prelude Buffer BufferSpec BufferCodecs.

(** ** Open buffers *)

(** A little-endian buffer with no read limit. *)
Record opened (b : Buffer) : Prop := {
  op_wf : wf b;
  op_limit : read_limit_ b = size_max;
  op_order : read_cursor_ b <= write_cursor_ b;
  op_endian : endianness_ b = LittleEndian
}.

(** What reading leaves alone: all but the read cursor and the error. *)
Record reads_only (b b' : Buffer) : Prop := {
  re_wf : wf b';
  re_data : data_ b' = data_ b;
  re_write : write_cursor_ b' = write_cursor_ b;
  re_limit : read_limit_ b' = read_limit_ b;
  re_endian : endianness_ b' = endianness_ b
}.

Lemma reads_only_trans b1 b2 b3 : reads_only b1 b2 -> reads_only b2 b3 -> reads_only b1 b3.
Proof. intros [] []. split; congruence || done. Qed.

Lemma opened_avail b : opened b ->
  avail b = slice (read_cursor_ b) (write_cursor_ b - read_cursor_ b) (default [] (data_ b)) /\
  readable_bytes b = write_cursor_ b - read_cursor_ b.
Proof.
  intros [[] Hl Ho _]. unfold avail, readable_bytes. rewrite Hl. unfold size_max in *.
  rewrite Z.min_l by lia. destruct (Z.ltb_spec (write_cursor_ b) (read_cursor_ b)); [lia|]. split; [|done].
  destruct (data_ b); [done|]. cbn. unfold slice. by rewrite drop_nil, take_nil.
Qed.

Lemma opened_split b p r : opened b -> avail b = p ++ r ->
  read_cursor_ b + zlen p + zlen r = write_cursor_ b /\
  slice (read_cursor_ b) (zlen p) (default [] (data_ b)) = p /\
  slice (read_cursor_ b + zlen p) (zlen r) (default [] (data_ b)) = r.
Proof.
  intros Ho E. destruct (opened_avail b Ho) as [Ha Hr]. pose proof (readable_avail b (op_wf b Ho)) as HL.
  rewrite E, length_app in HL. split; [lia|]. rewrite Ha in E. pose proof (wf_rc b (op_wf b Ho)).
  destruct (slice_prefix (read_cursor_ b) (zlen p) (write_cursor_ b - read_cursor_ b) (default [] (data_ b)) p r) as [H1 H2];
    [lia|done|lia|done|]. split; [done|].
  by replace (zlen r) with (write_cursor_ b - read_cursor_ b - zlen p) by lia.
Qed.

(** The cursor of an open buffer moved over [p]. *)
Lemma opened_advance b p r b' : opened b -> avail b = p ++ r -> reads_only b b' -> read_cursor_ b' = read_cursor_ b + zlen p ->
  opened b' /\ avail b' = r.
Proof.
  intros Ho E [] Hc. destruct (opened_split b p r Ho E) as (HL & _ & Hr). destruct Ho.
  assert (Ho' : opened b') by (split; [done|congruence|lia|congruence]). split; [done|].
  destruct (opened_avail b' Ho') as [-> _]. rewrite re_data0, re_write0, Hc.
  by replace (write_cursor_ b - (read_cursor_ b + zlen p)) with (zlen r) by lia.
Qed.

(** The fence around a body of [zlen body] bytes. *)
Lemma fenced_avail b body rest : opened b -> avail b = body ++ rest ->
  let f := SetReadLimit (u64 (read_cursor_ b + zlen body)) b in
  0 < read_cursor_ b -> wf f /\ avail f = body /\ endianness_ f = LittleEndian /\ last_error_ f = last_error_ b /\
  read_limit_ f = read_cursor_ b + zlen body.
Proof.
  intros Ho E f Hpos. destruct (opened_split b body rest Ho E) as (HL & Hb & _). destruct Ho as [Hwf Hl Hor He].
  pose proof (wf_wc b Hwf). assert (Hu : u64 (read_cursor_ b + zlen body) = read_cursor_ b + zlen body) by (apply u64_small; unfold size_max; lia).
  assert (Hf : f = set_read_limit (read_cursor_ b + zlen body) b).
  { unfold f, SetReadLimit. rewrite Hu. destruct (Z.eqb_spec (read_cursor_ b + zlen body) 0); [lia|done]. }
  rewrite Hf. split; [destruct Hwf; split; try done; cbn; unfold size_max; lia|]. split; [|done].
  unfold avail, readable_bytes. cbn [set_read_limit data_ read_cursor_ write_cursor_ read_limit_].
  rewrite Z.min_r by lia. destruct (Z.ltb_spec (read_cursor_ b + zlen body) (read_cursor_ b)); [lia|].
  replace (read_cursor_ b + zlen body - read_cursor_ b) with (zlen body) by lia.
  destruct (data_ b); cbn [default] in Hb; [done|]. unfold slice in Hb. by rewrite drop_nil, take_nil in Hb.
Qed.

(** The read limit lifted and the cursor behind the body. *)
Lemma unfenced b body rest b2 : opened b -> avail b = body ++ rest ->
  data_ b2 = data_ b -> write_cursor_ b2 = write_cursor_ b -> endianness_ b2 = endianness_ b -> wf b2 ->
  read_cursor_ b2 = read_cursor_ b + zlen body ->
  opened (SetReadLimit 0 b2) /\ avail (SetReadLimit 0 b2) = rest.
Proof.
  intros Ho E Hd Hw He Hwf Hc. apply (opened_advance b body rest); [done|done| |done].
  change (SetReadLimit 0 b2) with (set_read_limit size_max b2). destruct Hwf.
  split; [split; try done; cbn; unfold size_max; lia|done|done|symmetry; apply Ho|done].
Qed.

Section Reads.
Context `{P : Platform}.

Lemma SkipRead_reads n b : wf b -> 0 <= n -> read_cursor_ b + n < 2 ^ 63 -> reads_only b (SkipRead n b).
Proof.
  intros [] Hn Hb. assert (Hu : u64 (read_cursor_ b + n) = read_cursor_ b + n) by (apply u64_small; unfold size_max; lia).
  split; try done. split; try done; cbn; rewrite ?Hu; [lia|]. unfold store_ok in *. cbn. rewrite Hu. destruct (data_ b); [done|lia].
Qed.

Lemma ReadInt_reads n b : wf b -> 1 <= n < 2 ^ 31 -> reads_only b (ReadInt n b).2.
Proof.
  intros Hwf Hn. unfold ReadInt. destruct (ReadNumber_cases n b Hwf ltac:(lia)) as [(p & r & HL & E & -> & C)|[_ ->]]; cbn [snd].
  - by split; [destruct C|..].
  - split; try done. by apply set_last_error_wf.
Qed.

Lemma ReadInt_moves n b : wf b -> 1 <= n < 2 ^ 31 -> in_range b ->
  in_range (ReadInt n b).2 /\ read_cursor_ b <= read_cursor_ (ReadInt n b).2.
Proof.
  intros Hwf Hn Hin. unfold ReadInt. destruct (ReadNumber_cases n b Hwf ltac:(lia)) as [(p & r & HL & E & -> & C)|[_ ->]]; cbn [snd].
  - pose proof (con_rc _ _ _ _ C). split; [apply C|lia].
  - split; [done|]. cbn. lia.
Qed.

(** A variable-length integer off the wire: it fails with an error, or moves
    the cursor. *)
Lemma ReadVarInt_reads b : wf b -> reads_only b (ReadVarInt 8 b).2 /\ (in_range b -> in_range (ReadVarInt 8 b).2) /\
  (last_error_ (ReadVarInt 8 b).2 = NoError -> read_cursor_ b < read_cursor_ (ReadVarInt 8 b).2).
Proof.
  intros Hwf. assert (Hfail : forall b' e, reads_only b b' -> e <> NoError -> (in_range b -> in_range b') ->
    reads_only b (set_last_error e b') /\ (in_range b -> in_range (set_last_error e b')) /\
    (last_error_ (set_last_error e b') = NoError -> read_cursor_ b < read_cursor_ (set_last_error e b'))).
  { intros b' e [] He Hc. split; [by split; [apply set_last_error_wf|..]|]. done. }
  unfold ReadVarInt. destruct (CheckReadableBytes 1 b) eqn:Ec; cbn [negb]; [|cbn [snd]; apply Hfail; [by split|done|done]].
  destruct (check_avail 1 b Hwf ltac:(lia) Ec) as (p & r & HL & E & Hin).
  pose proof (ReadInt_reads 1 b Hwf ltac:(lia)) as Hre. unfold ReadInt in *.
  destruct (ReadNumber_cases 1 b Hwf ltac:(lia)) as [(p' & r' & HL' & E' & Eq & C)|[Hs _]].
  2: { pose proof (readable_avail b Hwf) as Hr. rewrite E, length_app in Hr. lia. }
  rewrite Eq in *. cbn [snd] in Hre. pose proof (con_rc _ _ _ _ C) as Hrc.
  set (b1 := SkipRead 1 b) in *. set (k := dec (endianness_ b) p') in *.
  destruct (8 <? k) eqn:Ek; [cbn [snd]; apply Hfail; [done|done|intros _; apply C]|].
  destruct (CheckReadableBytes k b1) eqn:Ec1; cbn [negb]; [|cbn [snd]; apply Hfail; [done|done|intros _; apply C]].
  assert (Hk : 0 <= k < 2 ^ 63).
  { apply Z.ltb_ge in Ek. assert (0 <= k); [|lia]. apply dec_range. pose proof (avail_bytes_ok b Hwf) as Hb. rewrite E' in Hb. by apply bytes_ok_app in Hb as [? _]. }
  destruct (check_avail k b1 (con_wf _ _ _ _ C) Hk Ec1) as (p2 & r2 & HL2 & E2 & Hin2).
  pose proof (SkipRead_consumes b1 p2 r2 (con_wf _ _ _ _ C) Hin2 E2) as C2. rewrite <- HL2 in *.
  rewrite (load_avail b1 p2 r2 (con_wf _ _ _ _ C) Hin2 E2). cbn [snd]. pose proof (con_rc _ _ _ _ C2) as Hrc2.
  split; [eapply reads_only_trans; [exact Hre|]; by split; [apply C2|..]|]. split; [intros _; apply C2|lia].
Qed.

End Reads.
(** ** Writing over a placeholder *)

Lemma slice_splice_after {A} o n off (bs l : list A) :
  0 <= off -> off + zlen bs <= o -> off + zlen bs <= zlen l -> slice o n (splice off bs l) = slice o n l.
Proof.
  intros H1 H2 H3. unfold slice, splice. f_equal. rewrite drop_app_ge by (rewrite length_take; lia).
  rewrite drop_app_ge by (rewrite length_take; lia). rewrite drop_drop. f_equal. rewrite length_take. lia.
Qed.

Lemma appends_opened b bs b' : ready 0 b -> endianness_ b = LittleEndian -> appends b bs b' -> opened b'.
Proof. intros [] He []. split; [done|congruence|lia|congruence]. Qed.

Section Writes.
Context `{P : Platform}.

(** Bytes written over as many bytes already there. *)
Lemma overwrite_avail n f bs b A0 Z0 B0 : opened b -> avail b = A0 ++ Z0 ++ B0 -> zlen Z0 = n -> 0 < n -> zlen bs = n -> bytes_ok bs ->
  f (set_write_cursor (read_cursor_ b + zlen A0) b) = bs ->
  let b' := set_write_cursor (write_cursor_ b) (put n f (set_write_cursor (read_cursor_ b + zlen A0) b)) in
  opened b' /\ avail b' = A0 ++ bs ++ B0 /\ read_cursor_ b' = read_cursor_ b /\ is_Some (data_ b') /\ last_error_ b' = last_error_ b.
Proof.
  intros Ho E HZ Hn Hlen Hbs Hf. pose proof (op_wf _ Ho) as Hwf. destruct (opened_split b A0 _ Ho E) as (HL & HA & HB).
  rewrite length_app in HL. set (w := read_cursor_ b + zlen A0) in *. assert (Hw : w = read_cursor_ b + zlen A0) by done.
  pose proof (wf_rc _ Hwf). pose proof (wf_wc _ Hwf). pose proof (wf_alloc _ Hwf). pose proof (wf_store _ Hwf) as Hst. unfold store_ok in Hst.
  destruct (data_ b) as [d|] eqn:Hd; [|lia]. destruct Hst as (Hz & Hwa & Hok). change (default [] (Some d)) with d in HA, HB.
  assert (Hwf4 : wf (set_write_cursor w b)).
  { destruct Hwf. split; try done; cbn; [lia|]. unfold store_ok. cbn. rewrite Hd. split; [done|]. split; [lia|done]. }
  rewrite put_in_room; [|done|cbn; rewrite Hd; by eexists|lia|cbn; lia]. rewrite Hf.
  assert (Es : store w bs (set_write_cursor w b) = set_data (Some (splice w bs d)) (set_write_cursor w b)).
  { unfold store. cbn [set_write_cursor data_]. rewrite Hd, Hlen. destruct (Z.leb_spec 0 w); [|lia].
    destruct (Z.leb_spec (w + n) (zlen d)); [done|lia]. }
  change (write_cursor_ (set_write_cursor w b)) with w. rewrite Es. clear Es.
  assert (HL2 : zlen (splice w bs d) = zlen d) by (rewrite length_splice; lia).
  set (b2 := set_write_cursor (write_cursor_ b) _). assert (Ho' : opened b2).
  { destruct Ho as [_ Hl Hor He]. split; try done. destruct Hwf. split; try done.
    unfold store_ok. cbn. rewrite HL2. split; [done|]. split; [lia|]. by apply splice_bytes_ok. }
  split; [done|]. split; [|split; [done|split; [by eexists|done] ] ]. destruct (opened_avail b2 Ho') as [-> _]. cbn.
  replace (write_cursor_ b - read_cursor_ b) with (zlen A0 + (n + zlen B0)) by lia.
  rewrite slice_app by lia. fold w. rewrite slice_app by lia. f_equal; [|f_equal].
  - rewrite slice_splice_before by lia. done.
  - rewrite <- Hlen at 1. apply slice_splice_eq. lia.
  - rewrite slice_splice_after by lia. rewrite length_app, Nat2Z.inj_add, slice_app, HZ in HB by lia.
    apply app_inj_1 in HB as [_ HB]; [done|]. apply Nat2Z.inj. pose proof (length_slice w n d). lia.
Qed.

(** A 32-bit length written over its placeholder. *)
Lemma backfill_avail b A0 Z0 B0 v : opened b -> avail b = A0 ++ Z0 ++ B0 -> zlen Z0 = 4 ->
  let b' := set_write_cursor (write_cursor_ b) (WriteInt 4 v (set_write_cursor (read_cursor_ b + zlen A0) b)) in
  opened b' /\ avail b' = A0 ++ enc LittleEndian 4 v ++ B0 /\ read_cursor_ b' = read_cursor_ b /\ is_Some (data_ b') /\
  last_error_ b' = last_error_ b.
Proof.
  intros Ho E HZ. unfold WriteInt. rewrite WriteNumber_put. apply (overwrite_avail 4 _ _ b A0 Z0 B0); try done.
  - apply enc_bytes_ok.
  - cbn. by rewrite (op_endian _ Ho).
Qed.

(** ** Whole messages, and bytes put in front of them *)

Lemma opened_in_range b : opened b -> in_range b.
Proof. intros [Hw Hl Hor _]. unfold in_range. rewrite Hl. pose proof (wf_wc _ Hw). unfold size_max. lia. Qed.

Lemma load_opened b : opened b -> (load (read_cursor_ b) (readable_bytes b) b).1 = avail b.
Proof.
  intros Ho. pose proof (readable_avail b (op_wf _ Ho)) as ->.
  rewrite (load_avail b (avail b) []); [done|apply Ho|by apply opened_in_range|by rewrite app_nil_r].
Qed.

(** A buffer with [n] bytes of room in front of the message. *)
Record headroom (n : Z) (b : Buffer) : Prop := {
  hd_opened : opened b;
  hd_room : n <= read_cursor_ b;
  hd_data : is_Some (data_ b)
}.

Lemma PrependInt8_avail v b : headroom 1 b ->
  exists b', PrependInt8 v b = (true, b') /\ opened b' /\ avail b' = u8 v :: avail b /\
    read_cursor_ b' = read_cursor_ b - 1 /\ is_Some (data_ b') /\ last_error_ b' = last_error_ b.
Proof.
  intros [Ho Hr [d Hd] ]. unfold PrependInt8. rewrite Hd. destruct (Z.eqb_spec (read_cursor_ b) 0); [lia|].
  pose proof (op_wf _ Ho) as Hwf. pose proof (wf_rc _ Hwf). pose proof (wf_store _ Hwf) as Hst. unfold store_ok in Hst. rewrite Hd in Hst.
  destruct Hst as (Hz & Hwa & Hok). destruct (opened_avail b Ho) as [Ha _]. rewrite Hd in Ha. cbn [default] in Ha. pose proof (op_order _ Ho).
  set (r := read_cursor_ b - 1). assert (Hrr : read_cursor_ b = r + 1) by lia. cbn [set_read_cursor read_cursor_].
  assert (Es : store r [u8 v] (set_read_cursor r b) = set_data (Some (splice r [u8 v] d)) (set_read_cursor r b)).
  { unfold store. cbn [set_read_cursor data_ length]. rewrite Hd. destruct (Z.leb_spec 0 r); [|lia].
    destruct (Z.leb_spec (r + Z.of_nat 1) (zlen d)); [done|lia]. }
  rewrite Es. eexists. split; [done|]. set (b' := set_data _ _).
  assert (HL2 : zlen (splice r [u8 v] d) = zlen d) by (rewrite length_splice; cbn; lia).
  assert (Ho' : opened b').
  { destruct Ho as [_ Hl _ He]. split; try done; [|cbn; lia]. destruct Hwf. split; try done; [cbn; lia|].
    unfold store_ok. cbn [b' set_data set_read_cursor data_ allocated_size_ write_cursor_]. rewrite HL2. split; [done|]. split; [lia|]. apply splice_bytes_ok; [|done].
    constructor; [apply u8_range|constructor]. }
  split; [done|]. split; [|split; [done|split; [by eexists|done] ] ]. destruct (opened_avail b' Ho') as [-> _]. cbn.
  replace (write_cursor_ b - r) with (zlen [u8 v] + (write_cursor_ b - read_cursor_ b)) by (cbn; lia).
  rewrite slice_app by (cbn; lia). rewrite Ha. change (u8 v :: ?l) with ([u8 v] ++ l). f_equal.
  - apply slice_splice_eq. lia.
  - rewrite slice_splice_after by (cbn; lia). by rewrite Hrr.
Qed.

(** ** Reading from the front *)

Lemma consumes_opened b p r b' : opened b -> avail b = p ++ r -> consumes b p r b' -> opened b' /\ avail b' = r /\ last_error_ b' = last_error_ b.
Proof.
  intros Ho E C. destruct (opened_split b p r Ho E) as (HL & _). destruct C, Ho. split; [|done]. split; [done|congruence|lia|congruence].
Qed.

Lemma ReadInt1_opened x r b : opened b -> avail b = x :: r -> is_byte x ->
  exists b', ReadInt 1 b = (x, b') /\ opened b' /\ avail b' = r /\ last_error_ b' = last_error_ b.
Proof.
  intros Ho E Hx. unfold ReadInt. destruct (ReadNumber_parses LittleEndian 1 [x] ltac:(lia) eq_refl b r) as (b' & E' & C); [apply Ho|apply Ho|done|].
  exists b'. rewrite E'. split; [f_equal; unfold dec; rewrite decide_True by done; cbn; lia|]. by apply (consumes_opened b [x] r).
Qed.

Lemma Read_opened n dst p r b : opened b -> avail b = p ++ r -> zlen p = n -> 1 <= n < 2 ^ 31 ->
  exists b', Read 1 n dst b = (p, b') /\ opened b' /\ avail b' = r /\ last_error_ b' = last_error_ b.
Proof.
  intros Ho E HL Hn. destruct (Read_parses LittleEndian 1 n p dst ltac:(lia) ltac:(lia) ltac:(lia) ltac:(lia) b r) as (b' & E' & C); [apply Ho|apply Ho|done|].
  exists b'. split; [done|]. by eapply consumes_opened.
Qed.

(** ** Writing into room reserved up front *)

(** An open buffer with storage for [n] more bytes. *)
Record roomy (n : Z) (b : Buffer) : Prop := {
  ro_opened : opened b;
  ro_data : is_Some (data_ b);
  ro_room : write_cursor_ b + n <= allocated_size_ b
}.

(** [b'] is [b] with [bs] behind it, in the room it had. *)
Record filled (b : Buffer) (bs : list Z) (m : Z) (b' : Buffer) : Prop := {
  fi_roomy : roomy m b';
  fi_avail : avail b' = avail b ++ bs;
  fi_rc : read_cursor_ b' = read_cursor_ b;
  fi_wc : write_cursor_ b' = write_cursor_ b + zlen bs;
  fi_err : last_error_ b' = last_error_ b
}.

Lemma filled_trans b p q n m b' b'' : filled b p n b' -> filled b' q m b'' -> filled b (p ++ q) m b''.
Proof.
  intros [] []. split; [done| |congruence| |congruence].
  - by rewrite fi_avail1, fi_avail0, app_assoc.
  - rewrite length_app. lia.
Qed.

(** Bytes put where the write cursor points. *)
Lemma store_filled bs m b : roomy (zlen bs + m) b -> bytes_ok bs -> 0 <= m ->
  filled b bs m (CommitWrite (zlen bs) (store (write_cursor_ b) bs b)).
Proof.
  intros [Ho Hd Hr] Hok Hm. pose proof (op_wf _ Ho) as Hwf.
  destruct (store_appends bs b Hwf (op_limit _ Ho) (op_order _ Ho) Hok Hd ltac:(lia)) as [H1 H2 H3 H4 H5 H6].
  destruct (store_keeps (write_cursor_ b) bs b) as (K1 & K2 & K3). specialize (K2 Hd). destruct Ho.
  assert (Ke : last_error_ (store (write_cursor_ b) bs b) = last_error_ b) by (unfold store; repeat case_match; done).
  split; [split; [split; [done|congruence|lia|congruence]|done|]|done|done|done|done].
  rewrite H5. cbn. rewrite K1. lia.
Qed.

Lemma put_filled n f bs m b : roomy (n + m) b -> f b = bs -> zlen bs = n -> bytes_ok bs -> 0 <= m -> filled b bs m (put n f b).
Proof.
  intros Hr <- <- Hok Hm. rewrite put_in_room; [by apply store_filled|apply Hr|apply Hr|lia|]. pose proof (ro_room _ _ Hr). lia.
Qed.

Lemma Write_filled bs m b : roomy (zlen bs + m) b -> bytes_ok bs -> 0 <= m -> filled b bs m (Write bs b).
Proof. intros. rewrite Write_put. by apply put_filled. Qed.

Lemma WriteInt_filled n v m b : roomy (n + m) b -> 0 <= n -> 0 <= m -> filled b (enc LittleEndian n v) m (WriteInt n v b).
Proof.
  intros Hr Hn Hm. unfold WriteInt. rewrite WriteNumber_put. apply put_filled; [done| |by apply zlen_enc|apply enc_bytes_ok|done].
  by rewrite (op_endian _ (ro_opened _ _ Hr)).
Qed.

(** Room skipped: bytes nobody wrote yet. *)
Lemma SkipWrite_filled n m b : roomy (n + m) b -> 0 <= n -> 0 <= m -> exists z, zlen z = n /\ filled b z m (SkipWrite n b).
Proof.
  intros [Ho [d Hd] Hr] Hn Hm. pose proof (op_wf _ Ho) as Hwf. pose proof (wf_wc _ Hwf). pose proof (wf_alloc _ Hwf).
  pose proof (wf_rc _ Hwf). pose proof (op_order _ Ho). pose proof (wf_store _ Hwf) as Hst. unfold store_ok in Hst. rewrite Hd in Hst. destruct Hst as (Hz & Hwa & Hok).
  assert (Hu : u64 (write_cursor_ b + n) = write_cursor_ b + n) by (apply u64_small; unfold size_max; lia).
  unfold SkipWrite, ReserveIncremental, Reserve. rewrite Hd, Hu. destruct (Z.leb_spec (write_cursor_ b + n) (allocated_size_ b)); [|lia].
  exists (slice (write_cursor_ b) n d). pose proof (length_slice (write_cursor_ b) n d) as HL. split; [lia|].
  assert (Ho' : opened (CommitWrite n b)).
  { destruct Ho. unfold CommitWrite. rewrite Hu. split; try done; [|cbn; lia]. destruct op_wf0. split; try done; [cbn; lia|].
    unfold store_ok. cbn. rewrite Hd. split; [done|]. split; [lia|done]. }
  split; [split; [done|by exists d|]| |done| |done].
  - cbn. rewrite Hu. lia.
  - destruct (opened_avail _ Ho') as [-> _]. destruct (opened_avail _ Ho) as [-> _]. cbn. rewrite Hu, Hd. cbn.
    replace (write_cursor_ b + n - read_cursor_ b) with ((write_cursor_ b - read_cursor_ b) + n) by lia. rewrite slice_app by lia.
    do 2 f_equal. lia.
  - cbn. rewrite Hu. lia.
Qed.

(** A fresh buffer with room reserved in front. *)
Lemma headroom_ready n m : 0 <= n -> 0 <= m -> n + m <= 2 ^ 31 -> ready m (ReserveHeadroom n (Buffer_new LittleEndian)).
Proof. intros. split; try done; cbn; try lia. split; try done; cbn; unfold size_max; lia. Qed.

Context `{!AmplePlatform P}.

(** Reserving exactly what a fresh buffer will hold. *)
Lemma reserve_fresh n size : 0 <= n <= size -> size <= 2 ^ 31 ->
  let b := (ReserveExact size (ReserveHeadroom n (Buffer_new LittleEndian))).2 in
  roomy (size - n) b /\ read_cursor_ b = n /\ write_cursor_ b = n /\ avail b = [] /\ last_error_ b = NoError.
Proof.
  intros Hn Hs. unfold ReserveExact, Reserve. cbn [ReserveHeadroom Buffer_new set_write_cursor set_read_cursor data_].
  destruct (alloc_ample size ltac:(lia)) as [d Hd]. rewrite Hd. cbn [snd]. pose proof (alloc_length _ _ Hd). pose proof (alloc_bytes _ _ Hd).
  set (b := set_allocated_size _ _). assert (Hwf : wf b).
  { split; try done; cbn; try lia; try (unfold size_max; lia). unfold store_ok. cbn. split; [done|]. split; [lia|done]. }
  split; [split; [split; try done; cbn; lia|by eexists|cbn; lia]|]. split; [done|]. split; [done|]. split; [|done].
  unfold avail, readable_bytes. cbn. unfold size_max. rewrite Z.min_l by lia. destruct (Z.ltb_spec n n); [lia|]. by rewrite Z.sub_diag.
Qed.

Lemma received_opened bs : bytes_ok bs -> zlen bs <= 2 ^ 31 -> opened (received LittleEndian bs) /\
  avail (received LittleEndian bs) = bs /\ last_error_ (received LittleEndian bs) = NoError.
Proof.
  intros Hok HL. destruct (Buffer_from_spec LittleEndian bs Hok HL) as (Hwf & Ha & He & Hn). split; [|done].
  split; [done| | |done]; unfold received, Buffer_from; destruct (alloc_ample (zlen bs) ltac:(lia)) as [d ->]; unfold store; cbn;
    repeat case_match; cbn; done || lia.
Qed.

End Writes.
