(* ===== verification/BitPack.v ===== *)
(** * The bit-packing extension (extensions/bitpack: bits.h, writer.h, reader.h)

    Sub-byte fields written through a 64-bit scratch register into a [Buffer]
    and read back.  The specification is a stream of bits, least significant
    first; the float fields, which go through the quantizer, are not modelled. *)

From S2P Require Import Prelude Buffer BufferSpec BufferCodecs.

Module BitPack.

(** ** Widths *)

Definition kMaxBitsPerCall : Z := 32.

(** [while (span > 0)]: a 64-bit span takes at most 64 rounds. *)
Fixpoint bits_for_span (fuel : nat) (span bits : Z) : Z :=
  match fuel with
  | O => bits
  | S fuel => if 0 <? span then bits_for_span fuel (Z.shiftr span 1) (bits + 1) else bits
  end.

Definition BitsForSpan (span : Z) : Z := bits_for_span 64 span 0.

Definition BitsForRange (min max : Z) : Z := if max <=? min then 0 else BitsForSpan (max - min).

Definition BitsForSignedRange (min max : Z) : Z :=
  if max <=? min then 0 else BitsForSpan (u64 (u64 max - u64 min)).

(** [static_cast<int64_t>], two's complement. *)
Definition i64 (z : Z) : Z := (z + 2 ^ 63) mod 2 ^ 64 - 2 ^ 63.

(** The low [bits] bits of a 32-bit value. *)
Definition low_bits (value bits : Z) : Z :=
  if 32 <=? bits then u32 value else Z.land (u32 value) (Z.shiftl 1 bits - 1).

Definition Clamp (value min max : Z) : Z := if value <? min then min else if max <? value then max else value.

Section Streams.
Context `{P : Platform}.

(** ** Writer *)

Record BitWriter := mkWriter {
  w_buffer : Buffer;
  w_scratch : Z;
  w_scratch_bits : Z;
  bits_written_ : Z;
  overflowed_ : bool
}.

Definition BitWriter_new (b : Buffer) : BitWriter := mkWriter b 0 0 0 false.

(** The four bytes drained from the scratch register. *)
Definition drained (scratch : Z) : list Z :=
  map (fun i => Z.land (Z.shiftr scratch (8 * i)) 255) [0; 1; 2; 3].

Definition WriteBits (value bits : Z) (w : BitWriter) : BitWriter :=
  if bits =? 0 then w
  else
    let over := kMaxBitsPerCall <? bits in
    let bits := if over then kMaxBitsPerCall else bits in
    let scratch := Z.lor (w_scratch w) (u64 (Z.shiftl (low_bits value bits) (w_scratch_bits w))) in
    let sbits := w_scratch_bits w + bits in
    let written := u64 (bits_written_ w + bits) in
    let over := overflowed_ w || over in
    if 32 <=? sbits
    then mkWriter (Write (drained scratch) (w_buffer w)) (Z.shiftr scratch 32) (sbits - 32) written over
    else mkWriter (w_buffer w) scratch sbits written over.

Definition WriteBits64 (value bits : Z) (w : BitWriter) : BitWriter :=
  if bits <=? kMaxBitsPerCall then WriteBits (u32 value) bits w
  else
    let over := 64 <? bits in
    let bits := if over then 64 else bits in
    let w := mkWriter (w_buffer w) (w_scratch w) (w_scratch_bits w) (bits_written_ w) (overflowed_ w || over) in
    WriteBits (u32 (Z.shiftr value 32)) (bits - 32) (WriteBits (Z.land value (2 ^ 32 - 1)) 32 w).

Definition WriteBool (v : bool) (w : BitWriter) : BitWriter := WriteBits (if v then 1 else 0) 1 w.

Definition WriteUIntRanged (value min max : Z) (w : BitWriter) : BitWriter :=
  let bits := BitsForRange min max in
  if bits =? 0 then w else WriteBits64 (Clamp value min max - min) bits w.

Definition WriteIntRanged (value min max : Z) (w : BitWriter) : BitWriter :=
  let bits := BitsForSignedRange min max in
  if bits =? 0 then w else WriteBits64 (u64 (u64 (Clamp value min max) - u64 min)) bits w.

(** Groups of four bits and a continuation; a 64-bit value has at most 16. *)
Fixpoint write_var (fuel : nat) (value : Z) (w : BitWriter) : BitWriter :=
  match fuel with
  | O => w
  | S fuel =>
      let nibble := Z.land value 15 in
      let value := Z.shiftr value 4 in
      let w := WriteBool (negb (value =? 0)) (WriteBits nibble 4 w) in
      if value =? 0 then w else write_var fuel value w
  end.

Definition WriteVarUInt (value : Z) (w : BitWriter) : BitWriter := write_var 16 value w.

Definition Align_writer (w : BitWriter) : BitWriter :=
  let pad := (8 - bits_written_ w mod 8) mod 8 in
  if pad =? 0 then w else WriteBits 0 pad w.

(** The loop of [Flush]; fewer than 32 bits are pending. *)
Fixpoint flush_loop (fuel : nat) (w : BitWriter) : BitWriter :=
  match fuel with
  | O => w
  | S fuel =>
      if 0 <? w_scratch_bits w then
        flush_loop fuel
          (mkWriter (WriteInt 1 (Z.land (w_scratch w) 255) (w_buffer w)) (Z.shiftr (w_scratch w) 8)
             (if 8 <=? w_scratch_bits w then w_scratch_bits w - 8 else 0) (bits_written_ w) (overflowed_ w))
      else w
  end.

Definition Flush (w : BitWriter) : BitWriter :=
  let w := flush_loop 4 w in
  mkWriter (w_buffer w) 0 (w_scratch_bits w) (u64 (bits_written_ w + 7) / 8 * 8) (overflowed_ w).

(** ** Reader *)

Record BitReader := mkReader {
  r_buffer : Buffer;
  r_scratch : Z;
  r_scratch_bits : Z;
  bits_read_ : Z;
  ok_ : bool
}.

Definition BitReader_new (b : Buffer) : BitReader := mkReader b 0 0 0 true.

Definition Refill (r : BitReader) : bool * BitReader :=
  if readable_bytes (r_buffer r) =? 0
  then (false, mkReader (ReadInt 1 (r_buffer r)).2 (r_scratch r) (r_scratch_bits r) (bits_read_ r) false)
  else
    let '(byte, b) := ReadInt 1 (r_buffer r) in
    (true, mkReader b (Z.lor (r_scratch r) (u64 (Z.shiftl byte (r_scratch_bits r)))) (r_scratch_bits r + 8)
             (bits_read_ r) (ok_ r)).

(** [while (scratch_bits_ < bits)]: at most 32 bits, so four bytes. *)
Fixpoint refill_to (fuel : nat) (bits : Z) (r : BitReader) : bool * BitReader :=
  if r_scratch_bits r <? bits then
    match fuel with
    | O => (false, r)
    | S fuel =>
        match Refill r with
        | (false, r) => (false, r)
        | (true, r) => refill_to fuel bits r
        end
    end
  else (true, r).

Definition ReadBits (bits : Z) (r : BitReader) : Z * BitReader :=
  if bits =? 0 then (0, r)
  else
    let over := kMaxBitsPerCall <? bits in
    let bits := if over then kMaxBitsPerCall else bits in
    let r := mkReader (r_buffer r) (r_scratch r) (r_scratch_bits r) (bits_read_ r) (ok_ r && negb over) in
    match refill_to 4 bits r with
    | (false, r) => (0, r)
    | (true, r) =>
        (low_bits (r_scratch r) bits,
         mkReader (r_buffer r) (Z.shiftr (r_scratch r) bits) (r_scratch_bits r - bits)
           (u64 (bits_read_ r + bits)) (ok_ r))
    end.

Definition ReadBits64 (bits : Z) (r : BitReader) : Z * BitReader :=
  if bits <=? kMaxBitsPerCall then ReadBits bits r
  else
    let over := 64 <? bits in
    let bits := if over then 64 else bits in
    let r := mkReader (r_buffer r) (r_scratch r) (r_scratch_bits r) (bits_read_ r) (ok_ r && negb over) in
    let '(low, r) := ReadBits 32 r in
    let '(high, r) := ReadBits (bits - 32) r in
    (Z.lor low (u64 (Z.shiftl high 32)), r).

Definition ReadBool (r : BitReader) : bool * BitReader :=
  let '(v, r) := ReadBits 1 r in (negb (v =? 0), r).

Definition ReadUIntRanged (min max : Z) (r : BitReader) : Z * BitReader :=
  let bits := BitsForRange min max in
  if bits =? 0 then (min, r)
  else
    let span := max - min in
    let '(offset, r) := ReadBits64 bits r in
    (if span <=? offset then max else u64 (min + offset), r).

Definition ReadIntRanged (min max : Z) (r : BitReader) : Z * BitReader :=
  let bits := BitsForSignedRange min max in
  if bits =? 0 then (min, r)
  else
    let span := u64 (u64 max - u64 min) in
    let '(offset, r) := ReadBits64 bits r in
    (if span <=? offset then max else i64 (u64 (u64 min + offset)), r).

(** The loop stops by itself when [shift] reaches 64, after 16 rounds. *)
Fixpoint read_var (fuel : nat) (value shift : Z) (r : BitReader) : Z * BitReader :=
  match fuel with
  | O => (value, r)
  | S fuel =>
      let '(nibble, r) := ReadBits 4 r in
      let value := if shift <? 64 then Z.lor value (u64 (Z.shiftl nibble shift)) else value in
      let '(more, r) := ReadBool r in
      let shift := shift + 4 in
      if negb more || (64 <=? shift) || negb (ok_ r) then (value, r) else read_var fuel value shift r
  end.

Definition ReadVarUInt (r : BitReader) : Z * BitReader := read_var 16 0 0 r.

Definition Align_reader (r : BitReader) : BitReader :=
  let pad := (8 - bits_read_ r mod 8) mod 8 in
  if pad =? 0 then r else (ReadBits pad r).2.

Definition remaining_bits (r : BitReader) : Z := u64 (readable_bytes (r_buffer r) * 8 + r_scratch_bits r).

(** ** Fields

    A field as a caller writes and reads it. *)

Inductive Field :=
  | FBits (value bits : Z)
  | FBits64 (value bits : Z)
  | FBool (v : bool)
  | FUInt (value min max : Z)
  | FInt (value min max : Z)
  | FVar (value : Z)
  | FAlign.

Definition write_field (w : BitWriter) (f : Field) : BitWriter :=
  match f with
  | FBits v n => WriteBits v n w
  | FBits64 v n => WriteBits64 v n w
  | FBool v => WriteBool v w
  | FUInt v lo hi => WriteUIntRanged v lo hi w
  | FInt v lo hi => WriteIntRanged v lo hi w
  | FVar v => WriteVarUInt v w
  | FAlign => Align_writer w
  end.

(** Booleans are reported as 0 and 1, [Align] reads nothing. *)
Definition read_field (f : Field) (r : BitReader) : Z * BitReader :=
  match f with
  | FBits _ n => ReadBits n r
  | FBits64 _ n => ReadBits64 n r
  | FBool _ => let '(v, r) := ReadBool r in (Z.b2z v, r)
  | FUInt _ lo hi => ReadUIntRanged lo hi r
  | FInt _ lo hi => ReadIntRanged lo hi r
  | FVar _ => ReadVarUInt r
  | FAlign => (0, Align_reader r)
  end.

Definition write_fields (fs : list Field) (b : Buffer) : Buffer :=
  w_buffer (Flush (foldl write_field (BitWriter_new b) fs)).

Fixpoint read_fields (fs : list Field) (r : BitReader) : list Z * BitReader :=
  match fs with
  | [] => ([], r)
  | f :: fs =>
      let '(v, r) := read_field f r in
      let '(vs, r) := read_fields fs r in
      (v :: vs, r)
  end.

End Streams.

End BitPack.
