(* ===== verification/BitPackTheorems.v ===== *)
(** * Bit streams: what is written is read back, and hostile bits stay in range *)

From S2P Require Import Prelude Buffer BufferSpec BufferCodecs BitPack.

Import BitPack.

(** ** Streams of bits *)

Definition bits_of (n : nat) (v : Z) : list bool := (fun i => Z.testbit v (Z.of_nat i)) <$> seq 0 n.

Definition bit_stream (bs : list Z) : list bool := bs ≫= bits_of 8.

Definition bits_val (l : list bool) : Z := foldr (fun b z => Z.b2z b + 2 * z) 0 l.

Lemma length_bits_of n v : length (bits_of n v) = n.
Proof. unfold bits_of. by rewrite length_fmap, length_seq. Qed.

Lemma bits_of_ext n v w : (forall i, 0 <= i < Z.of_nat n -> Z.testbit v i = Z.testbit w i) -> bits_of n v = bits_of n w.
Proof.
  intros H. unfold bits_of. apply list_fmap_ext. intros i x Hx. apply lookup_seq in Hx. apply H. lia.
Qed.

Lemma bits_of_app n m v : bits_of (n + m) v = bits_of n v ++ bits_of m (Z.shiftr v (Z.of_nat n)).
Proof.
  unfold bits_of. rewrite seq_app, fmap_app. f_equal. cbn [Nat.add].
  apply list_eq. intros i. rewrite !list_lookup_fmap. destruct (decide (i < m)%nat).
  - rewrite !lookup_seq_lt by done. cbn. f_equal. rewrite Z.shiftr_spec by lia. f_equal. lia.
  - rewrite !lookup_seq_ge by lia. done.
Qed.

Lemma bits_of_S n v : 0 <= v -> bits_of (S n) v = Z.odd v :: bits_of n (v / 2).
Proof.
  intros Hv. change (S n) with (1 + n)%nat. rewrite bits_of_app. cbn. rewrite Z.bit0_odd.
  by rewrite <- Z.div2_spec, Z.div2_div.
Qed.

Lemma bits_val_of n v : 0 <= v -> bits_val (bits_of n v) = v mod 2 ^ Z.of_nat n.
Proof.
  revert v. induction n as [|n IH]; intros v Hv; [by rewrite Z.mod_1_r|].
  rewrite bits_of_S by done. cbn [bits_val foldr]. fold (bits_val (bits_of n (v / 2))).
  rewrite IH by (apply Z.div_pos; lia). rewrite Nat2Z.inj_succ, Z.pow_succ_r by lia.
  rewrite Z.rem_mul_r by lia. rewrite Zmod_odd. by destruct (Z.odd v).
Qed.

Lemma bits_val_range l : 0 <= bits_val l < 2 ^ zlen l.
Proof.
  induction l as [|b l IH]; [done|]. cbn [bits_val foldr length]. fold (bits_val l).
  rewrite Nat2Z.inj_succ, Z.pow_succ_r by lia. destruct b; simpl; lia.
Qed.

Lemma bits_of_val l : bits_of (length l) (bits_val l) = l.
Proof.
  induction l as [|b l IH]; [done|]. pose proof (bits_val_range l).
  cbn [length]. rewrite bits_of_S by (cbn [bits_val foldr]; fold (bits_val l); destruct b; simpl; lia).
  cbn [bits_val foldr]. fold (bits_val l). f_equal.
  - rewrite Z.odd_add_mul_2. by destruct b.
  - transitivity (bits_of (length l) (bits_val l)); [|done]. f_equal. rewrite (Z.mul_comm 2), Z.div_add by lia.
    destruct b; cbn [Z.b2z]; [change (1 / 2) with 0|change (0 / 2) with 0]; lia.
Qed.

Lemma bits_of_inj n v w : 0 <= v < 2 ^ Z.of_nat n -> 0 <= w < 2 ^ Z.of_nat n -> bits_of n v = bits_of n w -> v = w.
Proof.
  intros Hv Hw E. apply (f_equal bits_val) in E. rewrite !bits_val_of in E by lia. by rewrite !Z.mod_small in E by lia.
Qed.

(** A register with [n] bits gets [m] more on top. *)
Lemma bits_of_push n m s v : 0 <= s < 2 ^ Z.of_nat n -> 0 <= v ->
  bits_of (n + m) (Z.lor s (Z.shiftl v (Z.of_nat n))) = bits_of n s ++ bits_of m v.
Proof.
  intros Hs Hv. rewrite bits_of_app. f_equal.
  - apply bits_of_ext. intros i Hi. rewrite Z.lor_spec, Z.shiftl_spec_low by lia. by rewrite orb_false_r.
  - f_equal. rewrite Z.shiftr_lor. rewrite (Z.shiftr_div_pow2 s) by lia. rewrite Z.div_small by done.
    rewrite Z.shiftr_shiftl_l by lia. rewrite Z.sub_diag. apply Z.shiftl_0_r.
Qed.

Lemma push_val n s v : 0 <= s < 2 ^ n -> 0 <= n -> Z.lor s (Z.shiftl v n) = s + v * 2 ^ n.
Proof. intros Hs Hn. rewrite Z.shiftl_mul_pow2, Z.lor_comm, lor_shifted_low by done. lia. Qed.

Lemma push_range n m s v : 0 <= s < 2 ^ n -> 0 <= v < 2 ^ m -> 0 <= n -> 0 <= m ->
  0 <= Z.lor s (Z.shiftl v n) < 2 ^ (n + m).
Proof. intros Hs Hv Hn Hm. rewrite push_val, Z.pow_add_r by done. nia. Qed.

Lemma bit_stream_cons b bs : bit_stream (b :: bs) = bits_of 8 b ++ bit_stream bs.
Proof. done. Qed.

Lemma length_bit_stream bs : zlen (bit_stream bs) = 8 * zlen bs.
Proof.
  induction bs as [|b bs IH]; [done|]. rewrite bit_stream_cons, length_app, length_bits_of. cbn [length]. lia.
Qed.

Lemma bit_stream_app bs bs' : bit_stream (bs ++ bs') = bit_stream bs ++ bit_stream bs'.
Proof. apply bind_app. Qed.

Lemma bit_stream_inj bs bs' : bytes_ok bs -> bytes_ok bs' -> bit_stream bs = bit_stream bs' -> bs = bs'.
Proof.
  intros H. revert bs'. induction H as [|b bs Hb _ IH]; intros bs' H' E.
  - destruct bs' as [|b' bs']; [done|]. apply (f_equal (fun l => zlen l)) in E. rewrite !length_bit_stream in E. cbn [length] in E. lia.
  - destruct H' as [|b' bs' Hb' H'].
    { apply (f_equal (fun l => zlen l)) in E. rewrite !length_bit_stream in E. cbn [length] in E. lia. }
    rewrite !bit_stream_cons in E. apply app_inj_1 in E as [E1 E2]; [|by rewrite !length_bits_of].
    f_equal; [by apply (bits_of_inj 8)|by apply IH].
Qed.

Lemma low_byte_bits v : bits_of 8 (Z.land v 255) = bits_of 8 v.
Proof.
  apply bits_of_ext. intros i Hi. change 255 with (Z.ones 8). rewrite Z.land_spec, Z.ones_spec_low by lia. apply andb_true_r.
Qed.

Lemma drained_stream x : bit_stream (drained x) = bits_of 32 x.
Proof.
  unfold drained, bit_stream. cbn [map mbind list_bind]. rewrite !low_byte_bits, app_nil_r.
  change 32%nat with (8 + (8 + (8 + 8)))%nat. rewrite !bits_of_app, !Z.shiftr_shiftr by lia. by rewrite Z.shiftr_0_r.
Qed.

Lemma land_255 v : is_byte (Z.land v 255).
Proof. change 255 with (Z.ones 8). rewrite Z.land_ones by lia. unfold is_byte. apply Z.mod_pos_bound. lia. Qed.

Lemma drained_ok x : bytes_ok (drained x).
Proof. unfold drained. cbn [map]. repeat constructor; apply land_255. Qed.

Lemma low_bits_mod v n : 0 <= n <= 32 -> low_bits v n = v mod 2 ^ n.
Proof.
  intros Hn. unfold low_bits, u32. destruct (Z.leb_spec 32 n); [by replace n with 32 by lia|].
  rewrite Z.shiftl_1_l. replace (2 ^ n - 1) with (Z.ones n) by (rewrite Z.ones_equiv; lia).
  rewrite Z.land_ones by lia.
  apply Z.mod_mod_divide.
  exists (2 ^ (32 - n)). rewrite <- Z.pow_add_r by lia. f_equal. lia.
Qed.

Lemma low_bits_bits v n : 0 <= n <= 32 -> bits_of (Z.to_nat n) (low_bits v n) = bits_of (Z.to_nat n) v.
Proof.
  intros Hn. rewrite low_bits_mod by done. apply bits_of_ext. intros i Hi. apply Z.mod_pow2_bits_low. lia.
Qed.

(** ** Widths *)

Lemma bits_for_span_spec fuel span bits : 0 <= span < 2 ^ Z.of_nat fuel ->
  bits <= bits_for_span fuel span bits <= bits + Z.of_nat fuel /\
  span < 2 ^ (bits_for_span fuel span bits - bits) /\ (0 < span -> bits < bits_for_span fuel span bits).
Proof.
  revert span bits. induction fuel as [|fuel IH]; intros span bits Hs; cbn [bits_for_span].
  { rewrite Z.sub_diag. simpl in *. lia. }
  rewrite Nat2Z.inj_succ, Z.pow_succ_r in * by lia. destruct (Z.ltb_spec 0 span) as [Hp|Hz]; [|rewrite Z.sub_diag; lia].
  rewrite <- Z.div2_spec, Z.div2_div. pose proof (Z_div_mod_eq_full span 2). pose proof (Z.mod_pos_bound span 2).
  destruct (IH (span / 2) (bits + 1)) as (H1 & H2 & _); [split; [apply Z.div_pos; lia|apply Z.div_lt_upper_bound; lia]|].
  split; [lia|]. split; [|lia]. set (r := bits_for_span fuel (span / 2) (bits + 1)) in *.
  replace (r - bits) with (Z.succ (r - (bits + 1))) by lia. rewrite Z.pow_succ_r by lia. lia.
Qed.

Lemma BitsForSpan_spec span : 0 <= span < 2 ^ 64 ->
  0 <= BitsForSpan span <= 64 /\ span < 2 ^ BitsForSpan span /\ (0 < span -> 0 < BitsForSpan span).
Proof.
  intros Hs. destruct (bits_for_span_spec 64 span 0) as (H1 & H2 & H3); [done|]. unfold BitsForSpan.
  rewrite Z.sub_0_r in H2. split; [lia|done].
Qed.

Lemma BitsForRange_spec lo hi : 0 <= lo -> hi < 2 ^ 64 -> lo < hi ->
  1 <= BitsForRange lo hi <= 64 /\ hi - lo < 2 ^ BitsForRange lo hi.
Proof.
  intros. unfold BitsForRange. destruct (Z.leb_spec hi lo); [lia|].
  destruct (BitsForSpan_spec (hi - lo)) as (? & ? & ?); lia.
Qed.

Definition int64 (z : Z) : Prop := - 2 ^ 63 <= z < 2 ^ 63.

Lemma signed_span lo hi : int64 lo -> int64 hi -> lo <= hi -> u64 (u64 hi - u64 lo) = hi - lo.
Proof.
  unfold int64, u64. intros. rewrite <- Zminus_mod. apply Z.mod_small. lia.
Qed.

Lemma BitsForSignedRange_spec lo hi : int64 lo -> int64 hi -> lo < hi ->
  1 <= BitsForSignedRange lo hi <= 64 /\ hi - lo < 2 ^ BitsForSignedRange lo hi.
Proof.
  intros Hlo Hhi Hlt. unfold BitsForSignedRange. destruct (Z.leb_spec hi lo); [lia|].
  rewrite signed_span by (done || lia). unfold int64 in *. destruct (BitsForSpan_spec (hi - lo)) as (? & ? & ?); lia.
Qed.

Lemma Clamp_spec v lo hi : lo <= hi -> lo <= BitPack.Clamp v lo hi <= hi.
Proof. unfold BitPack.Clamp. destruct (Z.ltb_spec v lo), (Z.ltb_spec hi v); lia. Qed.

(** ** Fields as bits *)

Fixpoint var_bits (fuel : nat) (v : Z) : list bool :=
  match fuel with
  | O => []
  | S fuel =>
      bits_of 4 v ++ [negb (Z.shiftr v 4 =? 0)] ++ (if Z.shiftr v 4 =? 0 then [] else var_bits fuel (Z.shiftr v 4))
  end.

Definition pad_to_byte (pos : Z) : Z := (8 - pos mod 8) mod 8.

(** The bits of a field written at position [pos]. *)
Definition field_bits (pos : Z) (f : Field) : list bool :=
  match f with
  | FBits v n | FBits64 v n => bits_of (Z.to_nat n) v
  | FBool v => [v]
  | FUInt v lo hi => bits_of (Z.to_nat (BitsForRange lo hi)) (BitPack.Clamp v lo hi - lo)
  | FInt v lo hi => bits_of (Z.to_nat (BitsForSignedRange lo hi)) (BitPack.Clamp v lo hi - lo)
  | FVar v => var_bits 16 v
  | FAlign => bits_of (Z.to_nat (pad_to_byte pos)) 0
  end.

(** The arguments C++ allows: widths a call can carry, unsigned or signed
    64-bit values, ranges that are not inverted. *)
Definition field_valid (f : Field) : Prop :=
  match f with
  | FBits v n => 0 <= v < 2 ^ 32 /\ 0 <= n <= 32
  | FBits64 v n => 0 <= v < 2 ^ 64 /\ 0 <= n <= 64
  | FBool _ | FAlign => True
  | FUInt v lo hi => 0 <= lo <= hi /\ hi < 2 ^ 64
  | FInt v lo hi => int64 lo /\ int64 hi /\ lo <= hi
  | FVar v => 0 <= v < 2 ^ 64
  end.

(** What reading it back gives: the low bits, the clamped value. *)
Definition field_value (f : Field) : Z :=
  match f with
  | FBits v n | FBits64 v n => v mod 2 ^ n
  | FBool v => Z.b2z v
  | FUInt v lo hi | FInt v lo hi => BitPack.Clamp v lo hi
  | FVar v => v
  | FAlign => 0
  end.

Fixpoint fields_bits (pos : Z) (fs : list Field) : list bool :=
  match fs with
  | [] => []
  | f :: fs => field_bits pos f ++ fields_bits (pos + zlen (field_bits pos f)) fs
  end.

(** ** Writing appends bits *)

Section Writing.
Context `{P : Platform} `{!AmplePlatform P}.
Context (b : Buffer) (N : Z) (Hready : ready N b).

(** Everything written since [b] is the stream [l], whole words of it in the
    buffer and fewer than 32 bits in the register. *)
Record writing (l : list bool) (w : BitWriter) : Prop := {
  wr_image : exists img, appends b img (w_buffer w) /\ bytes_ok img /\
    l = bit_stream img ++ bits_of (Z.to_nat (w_scratch_bits w)) (w_scratch w);
  wr_bits : 0 <= w_scratch_bits w < 32;
  wr_scratch : 0 <= w_scratch w < 2 ^ w_scratch_bits w;
  wr_count : bits_written_ w = zlen l;
  wr_ok : overflowed_ w = false
}.

Lemma room_small : N <= 2 ^ 31.
Proof. destruct Hready as [[]]. lia. Qed.

Lemma writing_room w img : appends b img (w_buffer w) -> 8 * (zlen img + 4) <= 8 * N -> ready 4 (w_buffer w).
Proof.
  intros Ha Hn. assert (Hr : ready (zlen img + 4) b) by (eapply ready_weaken; [|exact Hready]; lia).
  by apply (appends_ready _ _ _ _ Ha Hr).
Qed.

Lemma WriteBits_spec l w v n : writing l w -> 0 <= v -> 0 <= n <= 32 -> zlen l + n <= 8 * N ->
  writing (l ++ bits_of (Z.to_nat n) v) (WriteBits v n w).
Proof.
  intros [(img & Ha & Hok & El) Hb Hs Hc Ho] Hv Hn Hroom. pose proof room_small as HN.
  unfold WriteBits. destruct (Z.eqb_spec n 0) as [->|Hn0].
  { cbn [Z.to_nat bits_of]. rewrite app_nil_r. split; try done. by exists img. }
  unfold kMaxBitsPerCall. destruct (Z.ltb_spec 32 n); [lia|].
  set (sb := w_scratch_bits w) in *. set (s := w_scratch w) in *.
  assert (Hlow : 0 <= low_bits v n < 2 ^ n) by (rewrite low_bits_mod by lia; apply Z.mod_pos_bound, Z.pow_pos_nonneg; lia).
  rewrite u64_small; [|unfold size_max; rewrite Z.shiftl_mul_pow2 by lia;
    pose proof (Z.pow_le_mono_r 2 sb 31); pose proof (Z.pow_le_mono_r 2 n 32); nia].
  set (s' := Z.lor s (Z.shiftl (low_bits v n) sb)).
  assert (Hs' : 0 <= s' < 2 ^ (sb + n)) by (apply push_range; lia).
  assert (Hbits : bits_of (Z.to_nat (sb + n)) s' = bits_of (Z.to_nat sb) s ++ bits_of (Z.to_nat n) v).
  { rewrite Z2Nat.inj_add by lia. unfold s'. rewrite <- (Z2Nat.id sb) at 2 by lia.
    rewrite bits_of_push by (rewrite ?Z2Nat.id; lia). by rewrite low_bits_bits by lia. }
  assert (Hlen : zlen l = 8 * zlen img + sb) by (rewrite El, length_app, length_bits_of; pose proof (length_bit_stream img); lia).
  assert (Hcount : u64 (bits_written_ w + n) = zlen (l ++ bits_of (Z.to_nat n) v))
    by (rewrite length_app, length_bits_of, u64_small by (unfold size_max; lia); lia).
  rewrite Ho. cbn [orb]. destruct (Z.leb_spec 32 (sb + n)) as [Hfull|Hpart].
  - assert (Hr4 : ready 4 (w_buffer w)) by (apply (writing_room w img Ha); lia).
    assert (Hw : appends (w_buffer w) (drained s') (Write (drained s') (w_buffer w))) by (apply Write_appends; [exact Hr4|apply drained_ok]).
    split; cbn [w_buffer w_scratch w_scratch_bits bits_written_ overflowed_]; [|lia| |done|done].
    + exists (img ++ drained s'). split; [by eapply appends_trans|].
      split; [apply bytes_ok_app; split; [done|apply drained_ok]|].
      rewrite bit_stream_app, drained_stream, <- app_assoc, El, <- app_assoc, <- Hbits. f_equal.
      rewrite <- (bits_of_app 32). f_equal. lia.
    + rewrite Z.shiftr_div_pow2 by lia. split; [apply Z.div_pos; lia|]. apply Z.div_lt_upper_bound; [lia|].
      rewrite <- Z.pow_add_r by lia. replace (32 + (sb + n - 32)) with (sb + n) by lia. apply Hs'.
  - split; cbn [w_buffer w_scratch w_scratch_bits bits_written_ overflowed_]; try done; try lia.
    exists img. rewrite Hbits, El, <- app_assoc. done.
Qed.

Lemma WriteBits64_spec l w v n : writing l w -> 0 <= v < 2 ^ 64 -> 0 <= n <= 64 -> zlen l + n <= 8 * N ->
  writing (l ++ bits_of (Z.to_nat n) v) (WriteBits64 v n w).
Proof.
  intros Hw Hv Hn Hroom. unfold WriteBits64, kMaxBitsPerCall.
  assert (Hu : forall k, 0 <= k <= 32 -> bits_of (Z.to_nat k) (u32 v) = bits_of (Z.to_nat k) v).
  { intros k Hk. apply bits_of_ext. intros i Hi. apply Z.mod_pow2_bits_low. lia. }
  destruct (Z.leb_spec n 32).
  - rewrite <- Hu by lia. apply WriteBits_spec; [done|unfold u32; apply Z.mod_pos_bound; lia|lia|done].
  - destruct (Z.ltb_spec 64 n); [lia|]. rewrite orb_false_r.
    replace (Z.to_nat n) with (32 + Z.to_nat (n - 32))%nat by lia. rewrite bits_of_app, app_assoc.
    assert (Hhi : Z.shiftr v 32 = v / 2 ^ 32) by (apply Z.shiftr_div_pow2; lia).
    assert (Hhi2 : 0 <= v / 2 ^ 32 < 2 ^ 32) by (split; [apply Z.div_pos; lia|apply Z.div_lt_upper_bound; lia]).
    change (Z.of_nat 32) with 32. replace (u32 (Z.shiftr v 32)) with (Z.shiftr v 32)
      by (rewrite Hhi; unfold u32; by rewrite Z.mod_small).
    apply WriteBits_spec; [|lia|lia|rewrite length_app, length_bits_of; lia].
    replace (bits_of 32 v) with (bits_of (Z.to_nat 32) (Z.land v (2 ^ 32 - 1))).
    + apply WriteBits_spec; [by destruct w, Hw|apply Z.land_nonneg; lia|lia|lia].
    + change (2 ^ 32 - 1) with (Z.ones 32). rewrite Z.land_ones by lia. apply (Hu 32). lia.
Qed.

Lemma WriteBool_spec l w v : writing l w -> zlen l + 1 <= 8 * N -> writing (l ++ [v]) (BitPack.WriteBool v w).
Proof.
  intros Hw Hr. unfold BitPack.WriteBool. assert (E : [v] = bits_of (Z.to_nat 1) (if v then 1 else 0)) by (by destruct v).
  rewrite E. apply WriteBits_spec; [done|destruct v; lia|lia|done].
Qed.

Lemma write_var_spec fuel l w v : writing l w -> 0 <= v -> zlen l + zlen (var_bits fuel v) <= 8 * N ->
  writing (l ++ var_bits fuel v) (write_var fuel v w).
Proof.
  revert l w v. induction fuel as [|fuel IH]; intros l w v Hw Hv Hr; cbn [var_bits write_var] in *; [by rewrite app_nil_r|].
  rewrite !length_app, length_bits_of in Hr. cbn [length] in Hr.
  assert (Hn : 0 <= Z.land v 15) by (apply Z.land_nonneg; lia).
  assert (E : bits_of 4 v = bits_of (Z.to_nat 4) (Z.land v 15)).
  { apply bits_of_ext. intros i Hi. change 15 with (Z.ones 4). rewrite Z.land_spec, Z.ones_spec_low by lia. by rewrite andb_true_r. }
  assert (H1 : writing (l ++ bits_of 4 v) (WriteBits (Z.land v 15) 4 w)) by (rewrite E; apply WriteBits_spec; [done..|lia|lia]).
  apply (WriteBool_spec _ _ (negb (Z.shiftr v 4 =? 0))) in H1; [|rewrite length_app, length_bits_of; lia].
  rewrite !app_assoc. destruct (Z.shiftr v 4 =? 0); [by rewrite app_nil_r|].
  apply IH; [done|by apply Z.shiftr_nonneg|]. rewrite !length_app, length_bits_of. cbn [length]. lia.
Qed.

Lemma write_field_spec l w f : writing l w -> field_valid f -> zlen l + zlen (field_bits (zlen l) f) <= 8 * N ->
  writing (l ++ field_bits (zlen l) f) (write_field w f).
Proof.
  intros Hw Hf Hr. destruct f as [v n|v n|v|v lo hi|v lo hi|v|]; cbn [field_bits write_field field_valid] in *.
  - rewrite length_bits_of in Hr. apply WriteBits_spec; [done|lia|lia|lia].
  - rewrite length_bits_of in Hr. apply WriteBits64_spec; [done|lia|lia|lia].
  - by apply WriteBool_spec.
  - rewrite length_bits_of in Hr. unfold WriteUIntRanged. destruct (decide (lo < hi)) as [Hlt|Hge].
    + pose proof (BitsForRange_spec lo hi). pose proof (Clamp_spec v lo hi).
      destruct (Z.eqb_spec (BitsForRange lo hi) 0); [lia|]. apply WriteBits64_spec; [done|lia|lia|lia].
    + unfold BitsForRange. destruct (Z.leb_spec hi lo); [|lia]. by rewrite app_nil_r.
  - rewrite length_bits_of in Hr. destruct Hf as (Hlo & Hhi & Hle). unfold WriteIntRanged.
    pose proof (Clamp_spec v lo hi Hle) as Hcl. unfold int64 in *.
    destruct (decide (lo < hi)) as [Hlt|Hge].
    + pose proof (BitsForSignedRange_spec lo hi Hlo Hhi Hlt). destruct (Z.eqb_spec (BitsForSignedRange lo hi) 0); [lia|].
      rewrite signed_span by (unfold int64; lia). apply WriteBits64_spec; [done|lia|lia|lia].
    + unfold BitsForSignedRange. destruct (Z.leb_spec hi lo); [|lia]. by rewrite app_nil_r.
  - apply write_var_spec; [done|lia|done].
  - unfold Align_writer. rewrite (wr_count _ _ Hw). fold (pad_to_byte (zlen l)) in *. rewrite length_bits_of in Hr.
    assert (Hp : 0 <= pad_to_byte (zlen l) < 8) by (apply Z.mod_pos_bound; lia).
    destruct (Z.eqb_spec (pad_to_byte (zlen l)) 0) as [->|]; [by rewrite app_nil_r|]. apply WriteBits_spec; [done|lia|lia|lia].
Qed.

Lemma write_fields_spec fs l w : writing l w -> Forall field_valid fs ->
  zlen l + zlen (fields_bits (zlen l) fs) <= 8 * N ->
  writing (l ++ fields_bits (zlen l) fs) (foldl write_field w fs).
Proof.
  intros Hw Hf. revert l w Hw. induction Hf as [|f fs Hf _ IH]; intros l w Hw Hr; cbn [fields_bits foldl] in *; [by rewrite app_nil_r|].
  rewrite length_app in Hr. rewrite app_assoc. pose proof (write_field_spec l w f Hw Hf ltac:(lia)) as H1.
  assert (E : zlen (l ++ field_bits (zlen l) f) = zlen l + zlen (field_bits (zlen l) f)) by (rewrite length_app; lia).
  rewrite <- E in *. apply IH; [done|]. lia.
Qed.

Lemma flush_loop_spec fuel w img : appends b img (w_buffer w) -> bytes_ok img ->
  0 <= w_scratch_bits w <= 8 * Z.of_nat fuel -> 0 <= w_scratch w < 2 ^ w_scratch_bits w ->
  8 * zlen img + w_scratch_bits w + pad_to_byte (w_scratch_bits w) <= 8 * N ->
  exists img', appends b img' (w_buffer (flush_loop fuel w)) /\ bytes_ok img' /\
    bit_stream img' = bit_stream img ++ bits_of (Z.to_nat (w_scratch_bits w)) (w_scratch w)
                      ++ bits_of (Z.to_nat (pad_to_byte (w_scratch_bits w))) 0.
Proof.
  revert w img. induction fuel as [|fuel IH]; intros w img Ha Hok Hb Hs Hr; cbn [flush_loop].
  { exists img. replace (w_scratch_bits w) with 0 by lia. by rewrite app_nil_r. }
  destruct (Z.ltb_spec 0 (w_scratch_bits w)) as [Hp|Hz].
  2: { exists img. replace (w_scratch_bits w) with 0 by lia. by rewrite app_nil_r. }
  set (sb := w_scratch_bits w) in *. set (s := w_scratch w) in *.
  assert (Hpad : 0 <= pad_to_byte sb) by (apply Z.mod_pos_bound; lia).
  assert (Hn1 : 8 * (zlen img + 1) <= 8 * N).
  { destruct (decide (8 <= sb)); [lia|]. unfold pad_to_byte in Hr. rewrite (Z.mod_small sb 8) in Hr by lia. rewrite (Z.mod_small (8 - sb) 8) in Hr by lia. lia. }
  assert (Hr1 : ready 1 (w_buffer w)).
  { apply (appends_ready _ _ _ _ Ha). eapply ready_weaken; [|exact Hready]. lia. }
  assert (Hw : appends b (img ++ [Z.land s 255]) (WriteInt 1 (Z.land s 255) (w_buffer w))).
  { eapply appends_trans; [exact Ha|]. rewrite <- (enc_byte (endianness_ (w_buffer w))) by apply land_255.
    apply WriteNumber_appends; [done|lia]. }
  assert (Hok' : bytes_ok (img ++ [Z.land s 255])) by (apply bytes_ok_app; split; [done|]; repeat constructor; apply land_255).
  assert (Hstream : bit_stream (img ++ [Z.land s 255]) = bit_stream img ++ bits_of 8 s)
    by (rewrite bit_stream_app; cbn [bit_stream mbind list_bind]; by rewrite app_nil_r, low_byte_bits).
  destruct (Z.leb_spec 8 sb) as [Hbig|Hsmall].
  - edestruct (IH (mkWriter (WriteInt 1 (Z.land s 255) (w_buffer w)) (Z.shiftr s 8) (sb - 8) (bits_written_ w) (overflowed_ w)))
      as (img' & HA & HB & HC); cbn [w_buffer w_scratch w_scratch_bits]; [exact Hw|exact Hok'|lia|..].
    { rewrite Z.shiftr_div_pow2 by lia. split; [apply Z.div_pos; lia|]. apply Z.div_lt_upper_bound; [lia|].
      rewrite <- Z.pow_add_r by lia. replace (8 + (sb - 8)) with sb by lia. apply Hs. }
    { rewrite length_app. cbn [length]. replace (pad_to_byte (sb - 8)) with (pad_to_byte sb); [lia|].
      unfold pad_to_byte. do 2 f_equal. rewrite <- (Z_mod_plus_full (sb - 8) 1). f_equal. lia. }
    exists img'. split; [done|]. split; [done|]. rewrite HC, Hstream. cbn [w_scratch w_scratch_bits].
    replace (pad_to_byte (sb - 8)) with (pad_to_byte sb).
    2: { unfold pad_to_byte. do 2 f_equal. rewrite <- (Z_mod_plus_full (sb - 8) 1). f_equal. lia. }
    rewrite <- !app_assoc. f_equal. rewrite app_assoc. f_equal. rewrite <- (bits_of_app 8). f_equal. lia.
  - exists (img ++ [Z.land s 255]). destruct fuel as [|fuel]; cbn [flush_loop w_scratch_bits w_buffer];
      rewrite ?Z.ltb_irrefl; (split; [exact Hw|]); (split; [exact Hok'|]); rewrite Hstream; f_equal;
      unfold pad_to_byte; rewrite (Z.mod_small sb 8), (Z.mod_small (8 - sb) 8) by lia;
      (replace 8%nat with (Z.to_nat sb + Z.to_nat (8 - sb))%nat by lia); rewrite bits_of_app; do 2 f_equal;
      rewrite Z2Nat.id, Z.shiftr_div_pow2 by lia; by apply Z.div_small.
Qed.

(** The bits of a list of fields, padded to whole bytes, are what reaches the
    buffer. *)
Lemma write_fields_image fs : Forall field_valid fs ->
  zlen (fields_bits 0 fs) + pad_to_byte (zlen (fields_bits 0 fs)) <= 8 * N ->
  exists img, appends b img (write_fields fs b) /\ bytes_ok img /\
    bit_stream img = fields_bits 0 fs ++ bits_of (Z.to_nat (pad_to_byte (zlen (fields_bits 0 fs)))) 0.
Proof.
  intros Hf Hr. assert (Hpad : forall z, 0 <= pad_to_byte z) by (intros; apply Z.mod_pos_bound; lia).
  assert (Hnew : writing [] (BitWriter_new b)).
  { split; try done. exists []. split; [apply appends_nil; by destruct Hready|]. split; [constructor|reflexivity]. }
  pose proof (write_fields_spec fs [] _ Hnew Hf) as Hw. cbn [app length] in Hw. change (Z.of_nat 0) with 0 in Hw.
  specialize (Hpad (zlen (fields_bits 0 fs))) as Hpad0. specialize (Hw ltac:(lia)).
  set (l := fields_bits 0 fs) in *. unfold write_fields, Flush. cbn [w_buffer].
  destruct Hw as [(img & Ha & Hok & El) Hb Hs Hc Ho]. set (w := foldl write_field (BitWriter_new b) fs) in *.
  assert (Hlen : zlen l = 8 * zlen img + w_scratch_bits w)
    by (rewrite El, length_app, length_bits_of; pose proof (length_bit_stream img); lia).
  assert (Ep : pad_to_byte (zlen l) = pad_to_byte (w_scratch_bits w)).
  { unfold pad_to_byte. do 2 f_equal. rewrite Hlen, Z.add_comm, Z.mul_comm. apply Z_mod_plus_full. }
  rewrite Ep in *. destruct (flush_loop_spec 4 w img Ha Hok) as (img' & HA & HB & HC); [lia|done|lia|].
  exists img'. split; [done|]. split; [done|]. by rewrite HC, app_assoc, <- El.
Qed.

End Writing.

(** ** Reading consumes bits *)

Section Reading.
Context `{P : Platform}.

(** The bits still to come, after [pos] of them were read: fewer than eight in
    the register, the rest in the buffer. *)
Record reading (pos : Z) (l : list bool) (r : BitReader) : Prop := {
  rd_wf : wf (r_buffer r);
  rd_stream : l = bits_of (Z.to_nat (r_scratch_bits r)) (r_scratch r) ++ bit_stream (avail (r_buffer r));
  rd_bits : 0 <= r_scratch_bits r < 8;
  rd_scratch : 0 <= r_scratch r < 2 ^ r_scratch_bits r;
  rd_pos : bits_read_ r = pos;
  rd_ok : ok_ r = true
}.

(** One byte moves from the buffer to the register. *)
Lemma Refill_spec r : wf (r_buffer r) -> 0 <= r_scratch_bits r < 32 -> 0 <= r_scratch r < 2 ^ r_scratch_bits r ->
  avail (r_buffer r) <> [] ->
  exists r', Refill r = (true, r') /\ wf (r_buffer r') /\ r_scratch_bits r' = r_scratch_bits r + 8 /\
    0 <= r_scratch r' < 2 ^ r_scratch_bits r' /\ bits_read_ r' = bits_read_ r /\ ok_ r' = ok_ r /\
    bits_of (Z.to_nat (r_scratch_bits r')) (r_scratch r') ++ bit_stream (avail (r_buffer r'))
    = bits_of (Z.to_nat (r_scratch_bits r)) (r_scratch r) ++ bit_stream (avail (r_buffer r)).
Proof.
  intros Hwf Hb Hs Hne. pose proof (readable_avail _ Hwf) as HL. pose proof (avail_bytes_ok _ Hwf) as Hok.
  assert (Hr : 1 <= readable_bytes (r_buffer r)) by (destruct (avail (r_buffer r)); [done|cbn [length] in HL; lia]).
  unfold Refill. destruct (Z.eqb_spec (readable_bytes (r_buffer r)) 0); [lia|].
  destruct (ReadInt_covered 1 (r_buffer r) Hwf ltac:(lia) Hr) as (v & p & rest & b' & -> & Ea & Hp & Hv & Hc & Hrange & _).
  destruct p as [|x [|? ?]]; cbn [length] in Hp; try lia.
  rewrite Ea in Hok. apply bytes_ok_app in Hok as [Hx _]. inversion Hx as [|? ? Hbx]; subst.
  assert (Hdec : dec (endianness_ (r_buffer r)) [x] = x).
  { rewrite <- (enc_byte (endianness_ (r_buffer r)) x Hbx). apply dec_enc; [lia|]. unfold is_byte in Hbx. lia. }
  rewrite Hdec in *. eexists. split; [reflexivity|]. cbn [r_buffer r_scratch_bits r_scratch bits_read_ ok_].
  rewrite u64_small by (unfold size_max; rewrite Z.shiftl_mul_pow2 by lia; pose proof (Z.pow_le_mono_r 2 (r_scratch_bits r) 31); nia).
  split; [apply Hc|]. split; [done|]. split; [apply push_range; lia|]. split; [done|]. split; [done|].
  rewrite (con_avail _ _ _ _ Hc), Ea, Z2Nat.inj_add by lia. rewrite <- (Z2Nat.id (r_scratch_bits r)) at 2 by lia.
  rewrite bits_of_push by (rewrite ?Z2Nat.id; lia). cbn [app]. by rewrite bit_stream_cons, app_assoc.
Qed.

Lemma refill_to_spec fuel n r : wf (r_buffer r) -> 0 <= r_scratch_bits r -> 0 <= r_scratch r < 2 ^ r_scratch_bits r ->
  n <= 32 -> r_scratch_bits r < n + 8 -> n - r_scratch_bits r <= 8 * Z.of_nat fuel ->
  n <= r_scratch_bits r + 8 * zlen (avail (r_buffer r)) ->
  exists r', refill_to fuel n r = (true, r') /\ wf (r_buffer r') /\ n <= r_scratch_bits r' < n + 8 /\
    0 <= r_scratch r' < 2 ^ r_scratch_bits r' /\ bits_read_ r' = bits_read_ r /\ ok_ r' = ok_ r /\
    bits_of (Z.to_nat (r_scratch_bits r')) (r_scratch r') ++ bit_stream (avail (r_buffer r'))
    = bits_of (Z.to_nat (r_scratch_bits r)) (r_scratch r) ++ bit_stream (avail (r_buffer r)).
Proof.
  revert r. induction fuel as [|fuel IH]; intros r Hwf Hb Hs Hn Hsb Hf Ha; cbn [refill_to];
    (destruct (Z.ltb_spec (r_scratch_bits r) n); [|exists r; split_and!; done || lia]); [lia|].
  destruct (Refill_spec r Hwf) as (r1 & -> & H1 & H2 & H3 & H4 & H5 & H6); [lia|done|destruct (avail (r_buffer r)); [cbn [length] in Ha; lia|done]|].
  assert (HL : zlen (avail (r_buffer r1)) = zlen (avail (r_buffer r)) - 1).
  { apply (f_equal (fun l => zlen l)) in H6. rewrite !length_app, !length_bits_of in H6.
    pose proof (length_bit_stream (avail (r_buffer r1))). pose proof (length_bit_stream (avail (r_buffer r))). lia. }
  destruct (IH r1 H1) as (r' & -> & G1 & G2 & G3 & G4 & G5 & G6); [lia|lia|lia|lia|lia|lia|].
  exists r'. rewrite G4, G5, G6, H4, H5, H6. split_and!; done || lia.
Qed.

Lemma ReadBits_spec pos l r n : reading pos l r -> 0 <= n <= 32 -> n <= zlen l -> 0 <= pos -> pos + n < 2 ^ 63 ->
  exists r', ReadBits n r = (bits_val (take (Z.to_nat n) l), r') /\ reading (pos + n) (drop (Z.to_nat n) l) r'.
Proof.
  intros [Hwf Hst Hb Hs Hp Hok] Hn Hl Hpos0 Hpos. unfold ReadBits. destruct (Z.eqb_spec n 0) as [->|Hn0].
  { exists r. split; [done|]. cbn [Z.to_nat drop]. split; try done. lia. }
  unfold kMaxBitsPerCall. destruct (Z.ltb_spec 32 n); [lia|]. cbn [negb]. rewrite andb_true_r.
  assert (Hlen : zlen l = r_scratch_bits r + 8 * zlen (avail (r_buffer r)))
    by (rewrite Hst, length_app, length_bits_of; pose proof (length_bit_stream (avail (r_buffer r))); lia).
  assert (Hr : mkReader (r_buffer r) (r_scratch r) (r_scratch_bits r) (bits_read_ r) (ok_ r) = r) by (by destruct r). rewrite Hr.
  destruct (refill_to_spec 4 n r Hwf) as (r1 & -> & H1 & H2 & H3 & H4 & H5 & H6); [lia..|].
  rewrite <- Hst in H6. set (sb := r_scratch_bits r1) in *. set (s := r_scratch r1) in *.
  assert (Hsplit : bits_of (Z.to_nat sb) s = bits_of (Z.to_nat n) s ++ bits_of (Z.to_nat (sb - n)) (Z.shiftr s n)).
  { replace (Z.to_nat sb) with (Z.to_nat n + Z.to_nat (sb - n))%nat by lia. rewrite bits_of_app. by rewrite Z2Nat.id by lia. }
  rewrite Hsplit, <- app_assoc in H6.
  eexists. split; [f_equal|].
  - rewrite <- H6, take_app_le, take_ge by (rewrite length_bits_of; lia). rewrite bits_val_of by lia.
    rewrite Z2Nat.id by lia. by apply low_bits_mod.
  - split; cbn [r_buffer r_scratch r_scratch_bits bits_read_ ok_]; try done; try lia.
    + by rewrite <- H6, drop_app_ge, length_bits_of, Nat.sub_diag by (rewrite length_bits_of; lia).
    + rewrite Z.shiftr_div_pow2 by lia. split; [apply Z.div_pos; lia|]. apply Z.div_lt_upper_bound; [lia|].
      rewrite <- Z.pow_add_r by lia. replace (n + (sb - n)) with sb by lia. apply H3.
    + rewrite H4, Hp. apply u64_small. unfold size_max. lia.
    + congruence.
Qed.

(** Reading [p] at the front of the stream: the form in which the fields use
    it. *)
Lemma ReadBits_front pos p l r : reading pos (p ++ l) r -> zlen p <= 32 -> 0 <= pos -> pos + zlen p < 2 ^ 63 ->
  exists r', ReadBits (zlen p) r = (bits_val p, r') /\ reading (pos + zlen p) l r'.
Proof.
  intros Hr Hp H0 H1. destruct (ReadBits_spec pos (p ++ l) r (zlen p) Hr) as (r' & E & H); [lia|rewrite length_app; lia|done|done|].
  exists r'. rewrite Nat2Z.id in *. rewrite take_app_length in E. by rewrite drop_app_length in H.
Qed.

Lemma ReadBits64_front pos n v l r : reading pos (bits_of (Z.to_nat n) v ++ l) r -> 0 <= v -> 0 <= n <= 64 ->
  0 <= pos -> pos + n < 2 ^ 63 ->
  exists r', ReadBits64 n r = (v mod 2 ^ n, r') /\ reading (pos + n) l r'.
Proof.
  intros Hr Hv Hn H0 H1. unfold ReadBits64, kMaxBitsPerCall. destruct (Z.leb_spec n 32).
  - destruct (ReadBits_front pos _ l r Hr) as (r' & E & H2); rewrite ?length_bits_of, ?Z2Nat.id in * by lia; [lia|lia|lia|].
    exists r'. rewrite bits_val_of, Z2Nat.id in E by lia. done.
  - destruct (Z.ltb_spec 64 n); [lia|]. cbn [negb]. rewrite andb_true_r.
    assert (Er : mkReader (r_buffer r) (r_scratch r) (r_scratch_bits r) (bits_read_ r) (ok_ r) = r) by (by destruct r). rewrite Er.
    replace (Z.to_nat n) with (32 + Z.to_nat (n - 32))%nat in Hr by lia. rewrite bits_of_app, <- app_assoc in Hr.
    destruct (ReadBits_front pos _ _ r Hr) as (r1 & E1 & G1); rewrite ?length_bits_of in *; [lia|lia|lia|].
    change (Z.of_nat 32) with 32 in *. rewrite E1.
    destruct (ReadBits_front (pos + 32) _ l r1 G1) as (r2 & E2 & G2); rewrite ?length_bits_of, ?Z2Nat.id in * by lia; [lia|lia|lia|].
    rewrite E2. exists r2. split; [|by replace (pos + 32 + (n - 32)) with (pos + n) in G2 by lia]. f_equal.
    rewrite !bits_val_of by (rewrite ?Z.shiftr_nonneg; lia). rewrite Z2Nat.id by lia. change (Z.of_nat 32) with 32.
    rewrite Z.shiftr_div_pow2 by lia. set (hi := (v / 2 ^ 32) mod 2 ^ (n - 32)).
    assert (Hhi : 0 <= hi < 2 ^ (n - 32)) by (apply Z.mod_pos_bound, Z.pow_pos_nonneg; lia).
    pose proof (Z.pow_le_mono_r 2 (n - 32) 32 ltac:(lia) ltac:(lia)). pose proof (Z.mod_pos_bound v (2 ^ 32) ltac:(lia)).
    rewrite u64_small by (unfold size_max; rewrite Z.shiftl_mul_pow2 by lia; nia).
    rewrite push_val by lia. replace n with (32 + (n - 32)) at 1 by lia. rewrite Z.pow_add_r, Z.rem_mul_r by lia. subst hi. lia.
Qed.

Lemma ReadBool_front pos v l r : reading pos (v :: l) r -> 0 <= pos -> pos + 1 < 2 ^ 63 ->
  exists r', BitPack.ReadBool r = (v, r') /\ reading (pos + 1) l r'.
Proof.
  intros Hr H0 H1. destruct (ReadBits_front pos [v] l r Hr) as (r' & E & H); [cbn [length]; lia|done|cbn [length]; lia|].
  cbn [length] in *. change (Z.of_nat 1) with 1 in *. unfold BitPack.ReadBool. rewrite E. exists r'. split; [|done]. by destruct v.
Qed.

Lemma var_bits_length fuel v : zlen (var_bits fuel v) <= 5 * Z.of_nat fuel.
Proof.
  revert v. induction fuel as [|fuel IH]; intros v; cbn [var_bits]; [done|]. rewrite !length_app, length_bits_of. cbn [length].
  specialize (IH (Z.shiftr v 4)). destruct (_ =? 0); cbn [length]; lia.
Qed.

Lemma read_var_spec fuel pos acc v l r : reading pos (var_bits fuel v ++ l) r -> 0 <= v < 16 ^ Z.of_nat fuel ->
  0 <= acc < 2 ^ (64 - 4 * Z.of_nat fuel) -> (fuel <= 16)%nat -> 0 <= pos -> pos + zlen (var_bits fuel v) < 2 ^ 63 ->
  exists r', read_var fuel acc (64 - 4 * Z.of_nat fuel) r = (acc + v * 2 ^ (64 - 4 * Z.of_nat fuel), r') /\
    reading (pos + zlen (var_bits fuel v)) l r'.
Proof.
  revert pos acc v r. induction fuel as [|fuel IH]; intros pos acc v r Hr Hv Hacc Hf H0 H1.
  { exists r. simpl in Hv. replace v with 0 by lia. cbn [var_bits app length] in *. rewrite !Z.add_0_r. done. }
  set (sh := 64 - 4 * Z.of_nat (S fuel)) in *. rewrite Nat2Z.inj_succ, Z.pow_succ_r in Hv by lia.
  pose proof (Z_div_mod_eq_full v 16) as Hdm. pose proof (Z.mod_pos_bound v 16 ltac:(lia)) as Hm.
  assert (Esr : Z.shiftr v 4 = v / 16) by (by rewrite Z.shiftr_div_pow2 by lia).
  assert (Hv' : 0 <= v / 16 < 16 ^ Z.of_nat fuel) by (split; [apply Z.div_pos; lia|apply Z.div_lt_upper_bound; lia]).
  assert (Hpow : 2 ^ (sh + 4) = 16 * 2 ^ sh) by (rewrite Z.pow_add_r by lia; lia).
  assert (Hsh : 2 ^ (sh + 4) <= 2 ^ 64) by (apply Z.pow_le_mono_r; lia).
  cbn [var_bits read_var] in *. rewrite Esr in *. rewrite <- app_assoc in Hr.
  rewrite !length_app, length_bits_of in H1. cbn [length] in H1.
  destruct (ReadBits_front pos _ _ r Hr) as (r1 & E1 & G1); rewrite ?length_bits_of in *; [lia|lia|lia|].
  change (Z.of_nat 4) with 4 in *. rewrite E1, bits_val_of by lia. change (2 ^ Z.of_nat 4) with 16.
  destruct (Z.ltb_spec sh 64); [|lia]. rewrite u64_small by (unfold size_max; rewrite Z.shiftl_mul_pow2 by lia; nia).
  rewrite push_val by lia.
  destruct (ReadBool_front (pos + 4) (negb (v / 16 =? 0)) _ r1 G1) as (r2 & E2 & G2); [lia|lia|]. rewrite E2.
  rewrite (rd_ok _ _ _ G2). cbn [negb]. rewrite orb_false_r, negb_involutive. revert G2 H1.
  destruct (Z.eqb_spec (v / 16) 0) as [Ez|Ez]; intros G2 H1.
  - cbn [orb app] in *. exists r2. rewrite !length_app, length_bits_of. cbn [length].
    replace (pos + Z.of_nat (4 + 1)) with (pos + 4 + 1) by lia.
    split; [|done]. f_equal. rewrite Hdm at 2. rewrite Ez. lia.
  - cbn [orb]. destruct fuel as [|fuel]; [simpl in Hv'; lia|].
    destruct (Z.leb_spec 64 (sh + 4)); [lia|].
    replace (sh + 4) with (64 - 4 * Z.of_nat (S fuel)) in * by lia.
    destruct (IH (pos + 4 + 1) (acc + v mod 16 * 2 ^ sh) (v / 16) r2 G2 Hv') as (r3 & E3 & G3); [nia|lia|lia|lia|].
    exists r3. rewrite E3. split; [f_equal; rewrite Hpow; rewrite Hdm at 3; lia|].
    rewrite !length_app, length_bits_of. cbn [length].
    by replace (pos + Z.of_nat (4 + (1 + length (var_bits (S fuel) (v / 16))))) with (pos + 4 + 1 + zlen (var_bits (S fuel) (v / 16))) by lia.
Qed.

Lemma i64_of_u64 z : int64 z -> i64 (u64 z) = z.
Proof.
  unfold int64, i64, u64. intros Hz. rewrite Zplus_mod_idemp_l. rewrite Z.mod_small by lia. lia.
Qed.

Lemma Clamp_point v x : BitPack.Clamp v x x = x.
Proof. pose proof (Clamp_spec v x x). lia. Qed.

Lemma read_field_spec pos f l r : reading pos (field_bits pos f ++ l) r -> field_valid f -> 0 <= pos ->
  pos + zlen (field_bits pos f) < 2 ^ 63 ->
  exists r', read_field f r = (field_value f, r') /\ reading (pos + zlen (field_bits pos f)) l r'.
Proof.
  intros Hr Hf H0 H1. destruct f as [v n|v n|v|v lo hi|v lo hi|v|]; cbn [field_bits field_valid read_field field_value] in *.
  - rewrite length_bits_of, Z2Nat.id in * by lia.
    destruct (ReadBits_front pos _ l r Hr) as (r' & E & H2); rewrite ?length_bits_of, ?Z2Nat.id in * by lia; [lia|done|done|].
    exists r'. rewrite bits_val_of, Z2Nat.id in E by lia. done.
  - rewrite length_bits_of, Z2Nat.id in * by lia. apply ReadBits64_front; done || lia.
  - destruct (ReadBool_front pos v l r Hr) as (r' & E & H2); [done|cbn [length] in H1; lia|]. rewrite E. by exists r'.
  - unfold ReadUIntRanged. destruct (decide (lo < hi)) as [Hlt|Hge].
    + destruct (BitsForRange_spec lo hi) as [Hbits Hspan]; [lia..|]. pose proof (Clamp_spec v lo hi ltac:(lia)) as Hc.
      rewrite length_bits_of, Z2Nat.id in * by lia. destruct (Z.eqb_spec (BitsForRange lo hi) 0); [lia|].
      destruct (ReadBits64_front pos _ _ l r Hr) as (r' & E & H2); [lia..|]. rewrite E. exists r'. split; [|done]. f_equal.
      rewrite Z.mod_small by lia. destruct (Z.leb_spec (hi - lo) (BitPack.Clamp v lo hi - lo)); [lia|].
      rewrite u64_small by (unfold size_max; lia). lia.
    + assert (Eb : BitsForRange lo hi = 0) by (unfold BitsForRange; destruct (Z.leb_spec hi lo); [done|lia]).
      rewrite Eb in *. replace hi with lo by lia. rewrite Clamp_point. exists r. split; [done|]. cbn [length] in *. by rewrite Z.add_0_r.
  - destruct Hf as (Hlo & Hhi & Hle). unfold ReadIntRanged. pose proof (Clamp_spec v lo hi Hle) as Hc.
    destruct (decide (lo < hi)) as [Hlt|Hge].
    + destruct (BitsForSignedRange_spec lo hi Hlo Hhi Hlt) as [Hbits Hspan].
      rewrite length_bits_of, Z2Nat.id in * by lia. destruct (Z.eqb_spec (BitsForSignedRange lo hi) 0); [lia|].
      destruct (ReadBits64_front pos _ _ l r Hr) as (r' & E & H2); [lia..|]. rewrite E. exists r'. split; [|done]. f_equal.
      rewrite Z.mod_small by lia. rewrite signed_span by done.
      destruct (Z.leb_spec (hi - lo) (BitPack.Clamp v lo hi - lo)); [lia|].
      replace (u64 (u64 lo + (BitPack.Clamp v lo hi - lo))) with (u64 (BitPack.Clamp v lo hi)).
      2: { unfold u64. rewrite Zplus_mod_idemp_l. f_equal. lia. }
      apply i64_of_u64. unfold int64 in *. lia.
    + assert (Eb : BitsForSignedRange lo hi = 0) by (unfold BitsForSignedRange; destruct (Z.leb_spec hi lo); [done|lia]).
      rewrite Eb in *. replace hi with lo by lia. rewrite Clamp_point. exists r. split; [done|]. cbn [length] in *. by rewrite Z.add_0_r.
  - unfold ReadVarUInt. destruct (read_var_spec 16 pos 0 v l r Hr) as (r' & E & H2); [simpl; lia|simpl; lia|lia|done|done|].
    exists r'. split; [|done]. change (64 - 4 * Z.of_nat 16) with 0 in E. rewrite E. f_equal. lia.
  - unfold Align_reader. rewrite (rd_pos _ _ _ Hr). fold (pad_to_byte pos).
    assert (Hp : 0 <= pad_to_byte pos < 8) by (apply Z.mod_pos_bound; lia). rewrite length_bits_of, Z2Nat.id in * by lia.
    destruct (Z.eqb_spec (pad_to_byte pos) 0) as [E|E].
    + exists r. rewrite E in *. split; [done|]. by rewrite Z.add_0_r.
    + destruct (ReadBits_front pos _ l r Hr) as (r' & Er & H2); rewrite ?length_bits_of, ?Z2Nat.id in * by lia; [lia|done|done|].
      rewrite Er. by exists r'.
Qed.

Lemma read_fields_spec fs pos l r : reading pos (fields_bits pos fs ++ l) r -> Forall field_valid fs -> 0 <= pos ->
  pos + zlen (fields_bits pos fs) < 2 ^ 63 ->
  exists r', read_fields fs r = (field_value <$> fs, r') /\ reading (pos + zlen (fields_bits pos fs)) l r'.
Proof.
  intros Hr Hf. revert pos r Hr. induction Hf as [|f fs Hf _ IH]; intros pos r Hr H0 H1; cbn [fields_bits read_fields] in *.
  { exists r. cbn [length]. by rewrite Z.add_0_r. }
  rewrite <- app_assoc in Hr. rewrite length_app in *.
  destruct (read_field_spec pos f _ r Hr Hf) as (r1 & -> & G1); [done|lia|].
  destruct (IH _ r1 G1) as (r2 & -> & G2); [lia|lia|]. exists r2. split; [done|].
  by rewrite Nat2Z.inj_add, Z.add_assoc.
Qed.

(** A fresh reader over a buffer. *)
Lemma reading_new b : wf b -> reading 0 (bit_stream (avail b)) (BitReader_new b).
Proof. intros Hwf. by split. Qed.

(** Whole bytes were consumed when what is left is a padding of less than a
    byte. *)
Lemma reading_aligned pos pad bs r : reading pos (bits_of pad 0 ++ bit_stream bs) r -> (pad < 8)%nat -> bytes_ok bs ->
  avail (r_buffer r) = bs.
Proof.
  intros [Hwf Hst Hb Hs _ _] Hp Hok. pose proof (avail_bytes_ok _ Hwf) as Ha.
  pose proof (f_equal (fun l => zlen l) Hst) as HL. cbv beta in HL. rewrite !length_app, !length_bits_of in HL.
  pose proof (length_bit_stream bs). pose proof (length_bit_stream (avail (r_buffer r))).
  apply app_inj_1 in Hst as [_ E]; [|rewrite !length_bits_of; lia]. symmetry. by apply bit_stream_inj.
Qed.

End Reading.

(** ** Theorems *)

(** Bit-packed fields round trip: any sequence of fields written by one
    host and flushed is read back by another, clamped to its range or cut to its
    width as the writer says, and the reader leaves the buffer at the first byte
    behind the fields, where ordinary reads go on. *)
Theorem bitpack_roundtrip (P1 P2 : Platform) (A1 : AmplePlatform P1) (A2 : AmplePlatform P2)
  (e : Endianness) (fs : list Field) (rest : list Z)
  (Hfs : Forall field_valid fs) (Hlen : zlen (fields_bits 0 fs) <= 2 ^ 30) (Hrest : bytes_ok rest) (Hrlen : zlen rest <= 2 ^ 30) :
  exists r, @read_fields P2 fs (BitReader_new (@received P2 e (@sent _ P1 (@write_fields P1) e fs ++ rest)))
      = (field_value <$> fs, r) /\
    ok_ r = true /\ avail (r_buffer r) = rest.
Proof.
  set (L := zlen (fields_bits 0 fs)) in *.
  assert (Hp : 0 <= pad_to_byte L < 8) by (apply Z.mod_pos_bound; lia).
  destruct (@write_fields_image P1 A1 (Buffer_new e) (2 ^ 29) (Buffer_new_ready (2 ^ 29) e ltac:(lia)) fs Hfs) as (img & Ha & Hok & Hs); [fold L; lia|].
  fold L in Hs. destruct (@sent_appends _ P1 (@write_fields P1) e fs img Ha) as [-> _].
  assert (Hz : 8 * zlen img = L + pad_to_byte L) by (rewrite <- length_bit_stream, Hs, length_app, length_bits_of; lia).
  destruct (@Buffer_from_spec P2 A2 e (img ++ rest)) as (Hwf & Hav & _); [by apply bytes_ok_app|rewrite length_app; lia|].
  pose proof (reading_new _ Hwf) as Hr. rewrite Hav, bit_stream_app, Hs, <- app_assoc in Hr.
  destruct (read_fields_spec fs 0 _ _ Hr Hfs) as (r & -> & G); [done|fold L; lia|].
  exists r. split; [done|]. split; [apply G|]. eapply reading_aligned; [exact G|lia|done].
Qed.

Lemma bitpack_roundtrip_witness :
  exists r, @read_fields (host LittleEndian)
      [FBool true; FUInt 900 0 1000; FInt (-60) (-50) 100; FAlign; FVar 300; FBits64 (2 ^ 40 + 5) 41]
      (BitReader_new (@received (host LittleEndian) LittleEndian (@sent _ (host BigEndian) (@write_fields (host BigEndian)) LittleEndian
        [FBool true; FUInt 900 0 1000; FInt (-60) (-50) 100; FAlign; FVar 300; FBits64 (2 ^ 40 + 5) 41] ++ [7; 8])))
      = ([1; 900; -50; 0; 300; 2 ^ 40 + 5], r) /\
    ok_ r = true /\ avail (r_buffer r) = [7; 8].
Proof.
  apply (bitpack_roundtrip (host BigEndian) (host LittleEndian) (host_ample _) (host_ample _) LittleEndian
    [FBool true; FUInt 900 0 1000; FInt (-60) (-50) 100; FAlign; FVar 300; FBits64 (2 ^ 40 + 5) 41] [7; 8]).
  - repeat constructor; vm_compute; discriminate || reflexivity.
  - vm_compute. discriminate.
  - repeat constructor; vm_compute; discriminate || reflexivity.
  - vm_compute. discriminate.
Defined.

(** ** Hostile bits *)

Section Hostile.
Context `{P : Platform}.

Record reader_ok (r : BitReader) : Prop := {
  ro_wf : wf (r_buffer r);
  ro_bits : 0 <= r_scratch_bits r < 40;
  ro_scratch : 0 <= r_scratch r < 2 ^ r_scratch_bits r
}.

Lemma Refill_ok r : reader_ok r -> r_scratch_bits r < 32 -> reader_ok (Refill r).2.
Proof.
  intros [Hwf Hb Hs] H32. destruct (avail (r_buffer r)) as [|x l] eqn:Ea.
  - pose proof (readable_avail _ Hwf) as HL. rewrite Ea in HL. cbn [length] in HL.
    unfold Refill. rewrite HL. cbn [Z.eqb snd]. change (Z.of_nat 0 =? 0) with true. cbv iota.
    split; cbn [snd r_buffer r_scratch r_scratch_bits]; [by apply ReadInt_safe|done|done].
  - destruct (Refill_spec r Hwf) as (r' & -> & H1 & H2 & H3 & _); [lia|done|by rewrite Ea|].
    split; cbn [snd]; [done|lia|done].
Qed.

Lemma refill_to_ok fuel n r : reader_ok r -> n <= 32 ->
  reader_ok (refill_to fuel n r).2 /\ ((refill_to fuel n r).1 = true -> n <= r_scratch_bits (refill_to fuel n r).2).
Proof.
  revert r. induction fuel as [|fuel IH]; intros r Hr Hn; cbn [refill_to]; (destruct (Z.ltb_spec (r_scratch_bits r) n); [|by split; cbn; [|lia]]);
    [by split|]. pose proof (Refill_ok r Hr ltac:(lia)) as H1. destruct (Refill r) as [[|] r1]; [by apply IH|by split].
Qed.

Lemma ReadBits_ok n r : reader_ok r -> 0 <= n <= 32 -> reader_ok (ReadBits n r).2 /\ 0 <= (ReadBits n r).1 < 2 ^ n.
Proof.
  intros Hr Hn. assert (Hpos : 0 < 2 ^ n) by (apply Z.pow_pos_nonneg; lia). unfold ReadBits.
  destruct (Z.eqb_spec n 0); [by split; cbn [fst snd]; [|lia]|]. unfold kMaxBitsPerCall. destruct (Z.ltb_spec 32 n); [lia|].
  set (r0 := mkReader _ _ _ _ _). assert (H0 : reader_ok r0) by (by destruct Hr).
  destruct (refill_to_ok 4 n r0 H0 ltac:(lia)) as [H1 H2]. destruct (refill_to 4 n r0) as [[|] r1]; cbn [fst snd] in *; [|split; [done|lia]].
  specialize (H2 eq_refl). destruct H1 as [G1 G2 G3]. split; [|rewrite low_bits_mod by lia; by apply Z.mod_pos_bound].
  split; cbn [r_buffer r_scratch r_scratch_bits]; [done|lia|]. rewrite Z.shiftr_div_pow2 by lia.
  split; [apply Z.div_pos; lia|]. apply Z.div_lt_upper_bound; [lia|]. rewrite <- Z.pow_add_r by lia.
  replace (n + (r_scratch_bits r1 - n)) with (r_scratch_bits r1) by lia. apply G3.
Qed.

Lemma ReadBits64_ok n r : reader_ok r -> 0 <= n <= 64 -> reader_ok (ReadBits64 n r).2 /\ 0 <= (ReadBits64 n r).1 < 2 ^ n.
Proof.
  intros Hr Hn. unfold ReadBits64, kMaxBitsPerCall. destruct (Z.leb_spec n 32); [apply ReadBits_ok; [done|lia]|].
  destruct (Z.ltb_spec 64 n); [lia|]. set (r0 := mkReader _ _ _ _ _). assert (Hr0 : reader_ok r0) by (by destruct Hr).
  destruct (ReadBits_ok 32 r0 Hr0 ltac:(lia)) as [H1 H2]. destruct (ReadBits 32 r0) as [low r1]. cbn [fst snd] in *.
  destruct (ReadBits_ok (n - 32) r1 H1 ltac:(lia)) as [H3 H4]. destruct (ReadBits (n - 32) r1) as [high r2]. cbn [fst snd] in *.
  split; [done|]. pose proof (Z.pow_le_mono_r 2 (n - 32) 32 ltac:(lia) ltac:(lia)).
  rewrite u64_small by (unfold size_max; rewrite Z.shiftl_mul_pow2 by lia; nia).
  replace n with (32 + (n - 32)) by lia. apply push_range; lia.
Qed.

Lemma ReadBool_ok r : reader_ok r -> reader_ok (BitPack.ReadBool r).2.
Proof.
  intros Hr. unfold BitPack.ReadBool. destruct (ReadBits_ok 1 r Hr ltac:(lia)) as [H1 _]. by destruct (ReadBits 1 r).
Qed.

Lemma read_var_ok fuel acc sh r : reader_ok r -> 0 <= acc < 2 ^ 64 -> 0 <= sh ->
  reader_ok (read_var fuel acc sh r).2 /\ 0 <= (read_var fuel acc sh r).1 < 2 ^ 64.
Proof.
  revert acc sh r. induction fuel as [|fuel IH]; intros acc sh r Hr Ha Hsh; cbn [read_var]; [done|].
  destruct (ReadBits_ok 4 r Hr ltac:(lia)) as [H1 H2]. destruct (ReadBits 4 r) as [nib r1]. cbn [fst snd] in *.
  pose proof (ReadBool_ok r1 H1) as H3. destruct (BitPack.ReadBool r1) as [more r2]. cbn [snd] in H3.
  set (acc' := if sh <? 64 then _ else acc). assert (Ha' : 0 <= acc' < 2 ^ 64).
  { subst acc'. destruct (sh <? 64); [|done]. pose proof (u64_range (Z.shiftl nib sh)) as Hu. unfold size_max in Hu.
    assert (Hn : 0 <= Z.lor acc (u64 (Z.shiftl nib sh))) by (apply Z.lor_nonneg; lia). split; [done|].
    destruct (decide (Z.lor acc (u64 (Z.shiftl nib sh)) = 0)) as [->|]; [done|].
    apply Z.log2_lt_pow2; [lia|]. rewrite Z.log2_lor by lia. apply Z.max_lub_lt.
    - destruct (decide (acc = 0)) as [->|]; [done|]. apply Z.log2_lt_pow2; lia.
    - destruct (decide (u64 (Z.shiftl nib sh) = 0)) as [->|]; [done|]. apply Z.log2_lt_pow2; lia. }
  destruct (_ || _ || _); [done|]. apply IH; [done|done|lia].
Qed.

(** What a field can hold, whatever its bits are. *)
Definition field_range (f : Field) (v : Z) : Prop :=
  match f with
  | FBits _ n | FBits64 _ n => 0 <= v < 2 ^ n
  | FBool _ => v = 0 \/ v = 1
  | FUInt _ lo hi | FInt _ lo hi => lo <= v <= hi
  | FVar _ => 0 <= v < 2 ^ 64
  | FAlign => v = 0
  end.

Lemma read_field_ok f r : reader_ok r -> field_valid f ->
  reader_ok (read_field f r).2 /\ field_range f (read_field f r).1.
Proof.
  intros Hr Hf. destruct f as [v n|v n|v|v lo hi|v lo hi|v|]; cbn [field_valid read_field field_range] in *.
  - apply ReadBits_ok; [done|lia].
  - apply ReadBits64_ok; [done|lia].
  - pose proof (ReadBool_ok r Hr) as H. destruct (BitPack.ReadBool r) as [[] r']; cbn [fst snd Z.b2z] in *; auto.
  - unfold ReadUIntRanged. destruct (Z.eqb_spec (BitsForRange lo hi) 0); [cbn; split; [done|lia]|].
    destruct (decide (lo < hi)) as [Hlt|Hge].
    + destruct (BitsForRange_spec lo hi) as [Hb _]; [lia..|]. destruct (ReadBits64_ok (BitsForRange lo hi) r Hr) as [H1 H2]; [lia|].
      destruct (ReadBits64 (BitsForRange lo hi) r) as [o r']. cbn [fst snd] in *. split; [done|].
      destruct (Z.leb_spec (hi - lo) o); [lia|]. rewrite u64_small by (unfold size_max; lia). lia.
    + exfalso. apply n. unfold BitsForRange. destruct (Z.leb_spec hi lo); [done|lia].
  - destruct Hf as (Hlo & Hhi & Hle). unfold ReadIntRanged. destruct (Z.eqb_spec (BitsForSignedRange lo hi) 0); [cbn; split; [done|lia]|].
    destruct (decide (lo < hi)) as [Hlt|Hge].
    + destruct (BitsForSignedRange_spec lo hi Hlo Hhi Hlt) as [Hb _]. destruct (ReadBits64_ok (BitsForSignedRange lo hi) r Hr) as [H1 H2]; [lia|].
      destruct (ReadBits64 (BitsForSignedRange lo hi) r) as [o r']. cbn [fst snd] in *. split; [done|]. rewrite signed_span by done.
      destruct (Z.leb_spec (hi - lo) o); [lia|].
      replace (u64 (u64 lo + o)) with (u64 (lo + o)) by (unfold u64; by rewrite Zplus_mod_idemp_l).
      unfold int64 in *. rewrite i64_of_u64 by (unfold int64; lia). lia.
    + exfalso. apply n. unfold BitsForSignedRange. destruct (Z.leb_spec hi lo); [done|lia].
  - apply read_var_ok; [done|lia|lia].
  - unfold Align_reader. cbn [fst snd]. split; [|done]. fold (pad_to_byte (bits_read_ r)).
    assert (Hp : 0 <= pad_to_byte (bits_read_ r) < 8) by (apply Z.mod_pos_bound; lia).
    destruct (_ =? 0); [done|]. apply ReadBits_ok; [done|lia].
Qed.

(** Hostile bits are harmless: reading any sequence of fields from any
    buffer, however short and whatever its bytes, stays within the buffer's
    memory, and every value is in the range its caller asked for, also after a
    read that ran past the end. *)
Theorem hostile_fields_in_range (b : Buffer) (fs : list Field) (Hb : wf b) (Hfs : Forall field_valid fs) :
  wf (r_buffer (read_fields fs (BitReader_new b)).2) /\
  Forall2 field_range fs (read_fields fs (BitReader_new b)).1.
Proof.
  assert (Hr : reader_ok (BitReader_new b)) by (by split). revert Hr. generalize (BitReader_new b).
  induction Hfs as [|f fs Hf _ IH]; intros r Hr; cbn [read_fields]; [split; [apply Hr|constructor]|].
  destruct (read_field_ok f r Hr Hf) as [H1 H2]. destruct (read_field f r) as [v r1]. cbn [fst snd] in *.
  destruct (IH r1 H1) as [H3 H4]. destruct (read_fields fs r1) as [vs r2]. cbn [fst snd] in *. by split; [|constructor].
Qed.

(** A read past the end does not end the stream: the bits fetched before
    it failed stay in the register, and a narrower read returns them although
    [ok] is false.  The reader's documentation says later reads return zero. *)
Theorem failed_read_keeps_bits (b : Buffer) (x : Z) (Hwf : wf b) (Hx : avail b = [x]) :
  let r := (ReadBits 16 (BitReader_new b)).2 in
  (ReadBits 16 (BitReader_new b)).1 = 0 /\ ok_ r = false /\ (ReadBits 8 r).1 = x.
Proof.
  destruct (Refill_spec (BitReader_new b) Hwf) as (r1 & E1 & H1 & H2 & H3 & H4 & H5 & H6); [cbn; lia|done|cbn [BitReader_new r_buffer]; by rewrite Hx|].
  cbn [BitReader_new r_scratch_bits r_scratch r_buffer bits_read_ ok_] in *. change (bits_of (Z.to_nat 0) 0 ++ bit_stream (avail b)) with (bit_stream (avail b)) in H6.
  rewrite Hx in H6. assert (Eb : r_scratch_bits r1 = 8) by lia. rewrite Eb in *.
  assert (Ha : avail (r_buffer r1) = []).
  { apply (f_equal (fun l => zlen l)) in H6. rewrite length_app, length_bits_of in H6.
    pose proof (length_bit_stream (avail (r_buffer r1))). pose proof (length_bit_stream [x]). cbn [length] in *.
    destruct (avail (r_buffer r1)) as [|y l]; [done|]. exfalso. cbn [length] in *. lia. }
  assert (Hrb : readable_bytes (r_buffer r1) = 0) by (pose proof (readable_avail _ H1) as HL; rewrite Ha in HL; cbn in HL; lia).
  assert (Hx8 : r_scratch r1 = x).
  { rewrite Ha, app_nil_r in H6. cbn in H3. pose proof (avail_bytes_ok b Hwf) as Hok. rewrite Hx in Hok. inversion Hok as [|? ? Hbx]; subst.
    apply (bits_of_inj 8); [done|done|]. rewrite bit_stream_cons in H6. cbn [bit_stream mbind list_bind] in H6. by rewrite app_nil_r in H6. }
  assert (E16 : ReadBits 16 (BitReader_new b) = (0, mkReader (ReadInt 1 (r_buffer r1)).2 (r_scratch r1) 8 (bits_read_ r1) false)).
  { unfold ReadBits. cbn [Z.eqb]. change (kMaxBitsPerCall <? 16) with false. cbn [negb BitReader_new r_buffer r_scratch r_scratch_bits bits_read_ ok_ andb].
    fold (BitReader_new b). cbn [refill_to]. change (r_scratch_bits (BitReader_new b) <? 16) with true. cbv iota. rewrite E1.
    cbn [refill_to]. rewrite Eb. change (8 <? 16) with true. cbv iota. unfold Refill. rewrite Hrb. cbn [Z.eqb]. by rewrite Eb. }
  rewrite E16. cbn [fst snd ok_]. split; [done|]. split; [done|].
  unfold ReadBits. cbn [Z.eqb]. change (kMaxBitsPerCall <? 8) with false. cbn [negb andb r_buffer r_scratch r_scratch_bits bits_read_ ok_].
  cbn [refill_to r_scratch_bits]. change (8 <? 8) with false. cbv iota. cbn [fst r_scratch]. rewrite low_bits_mod by lia.
  rewrite Z.mod_small by (cbn in H3; lia). done.
Qed.

End Hostile.

Lemma hostile_fields_in_range_witness :
  Forall2 field_range [FUInt 0 10 12; FVar 0]
    (@read_fields (host LittleEndian) [FUInt 0 10 12; FVar 0] (BitReader_new (@received (host LittleEndian) LittleEndian [255]))).1.
Proof.
  apply (hostile_fields_in_range (P := host LittleEndian) (@received (host LittleEndian) LittleEndian [255]) [FUInt 0 10 12; FVar 0]).
  - apply (@Buffer_from_spec (host LittleEndian) (host_ample _)); [repeat constructor; vm_compute; discriminate || reflexivity|vm_compute; discriminate].
  - repeat constructor; vm_compute; discriminate || reflexivity.
Defined.

Lemma failed_read_keeps_bits_witness :
  (ReadBits (P := host LittleEndian) 8 (ReadBits (P := host LittleEndian) 16
    (BitReader_new (@received (host LittleEndian) LittleEndian [165]))).2).1 = 165.
Proof.
  destruct (@Buffer_from_spec (host LittleEndian) (host_ample _) LittleEndian [165]) as (Hwf & Ha & _);
    [repeat constructor; vm_compute; discriminate || reflexivity|vm_compute; discriminate|].
  exact (proj2 (proj2 (failed_read_keeps_bits (P := host LittleEndian) _ 165 Hwf Ha))).
Defined.
