(* ===== verification/Codec.v ===== *)
(** * Framing packets (codec.cc)

    A message is a sequence of frames, each a packet's id, the size of its body
    and the body its serializer wrote.  Serializers are the application's code:
    they are the arguments [Serialize_] and [Deserialize_] of the model, with
    what the codec relies on as laws where a theorem needs them.  Hex dumps and
    log lines are left out. *)

From S2P Require Import Prelude Buffer BufferSpec BufferCodecs.

Module Codec.

Section Codec.
Context `{P : Platform} {Packet : Type} (id_of : Packet -> Z).

(** What a serializer hands back: nothing, the buffer it was given, or one of
    its own (the first buffer is the one it was given, as it left it). *)
Inductive Serialized :=
  | SNothing
  | SFramed (framed : Buffer)
  | SOwn (framed own : Buffer).

Record PacketSerializer := mkSerializer {
  Serialize_ : Packet -> Buffer -> Serialized;
  Deserialize_ : Buffer -> option Packet * Buffer
}.

(** The map from packet ids to serializers. *)
Definition Codec : Type := gmap Z PacketSerializer.

(** [insert] leaves an id that is already there alone. *)
Definition Add (id : Z) (s : PacketSerializer) (c : Codec) : Codec :=
  match c !! id with Some _ => c | None => <[id := s]> c end.

(** ** Writing *)

Definition Serialize (c : Codec) (packet : Packet) (headroom : Z) : option Buffer :=
  match c !! id_of packet with
  | None => None
  | Some serializer =>
      let b := Buffer_new LittleEndian in
      let b := if headroom =? 0 then b else ReserveHeadroom headroom b in
      let b := WriteInt 4 0 (WriteVarInt 8 (id_of packet) b) in
      let write_cursor := write_cursor_ b in
      let backfill b :=
        let write_cursor_end := write_cursor_ b in
        let size := u64 (write_cursor_end - write_cursor) in
        set_write_cursor write_cursor_end
          (WriteInt 4 (u32 size) (set_write_cursor (u64 (write_cursor - 4)) b)) in
      match Serialize_ serializer packet b with
      | SNothing => None
      | SFramed b => Some (backfill b)
      | SOwn b own => Some (backfill (Write (load (read_cursor_ own) (readable_bytes own) own).1 b))
      end
  end.

(** ** Reading *)

Record DecodeStats := mkStats { invalid_frames : Z; framing_lost : bool }.

Definition note_invalid (s : DecodeStats) : DecodeStats := mkStats (u32 (invalid_frames s + 1)) (framing_lost s).

Definition lose_framing (s : DecodeStats) : DecodeStats := mkStats (invalid_frames s) true.

(** The statistics, the packets given to the handler, and the buffer. *)
Record Decoding := mkDecoding { stats : DecodeStats; handled : list Packet; buffer : Buffer }.

(** One round of the loop, and whether there is another. *)
Definition frame_step (c : Codec) (d : Decoding) : bool * Decoding :=
  let '(packet_id, b) := ReadVarInt 8 (buffer d) in
  let '(size, b) := ReadInt 4 b in
  let '(error, b) := GetAndClearLastError b in
  if negb (bool_decide (error = NoError)) then
    (false, mkDecoding (lose_framing (note_invalid (stats d))) (handled d) b)
  else if readable_bytes b <? size then
    (false, mkDecoding (lose_framing (note_invalid (stats d))) (handled d) b)
  else
    let read_cursor := read_cursor_ b in
    match c !! packet_id with
    | None => (true, mkDecoding (stats d) (handled d) (SkipRead size b))
    | Some serializer =>
        let b := SetReadLimit (u64 (read_cursor + size)) b in
        match Deserialize_ serializer b with
        | (None, b) =>
            (true, mkDecoding (note_invalid (stats d)) (handled d)
                     (SetReadLimit 0 (SkipRead size (set_read_cursor read_cursor b))))
        | (Some pk, b) =>
            let read_bytes := u64 (read_cursor_ b - read_cursor) in
            if read_bytes <? size then
              (true, mkDecoding (stats d) (handled d ++ [pk])
                       (SetReadLimit 0 (SkipRead size (set_read_cursor read_cursor b))))
            else if size <? read_bytes then
              (false, mkDecoding (lose_framing (note_invalid (stats d))) (handled d) b)
            else (true, mkDecoding (stats d) (handled d ++ [pk]) (SetReadLimit 0 b))
        end
    end.

Fixpoint frames (fuel : nat) (c : Codec) (d : Decoding) : Decoding :=
  match fuel with
  | O => d
  | S fuel =>
      if 0 <? readable_bytes (buffer d) then
        match frame_step c d with
        | (true, d) => frames fuel c d
        | (false, d) => d
        end
      else d
  end.

(** A round consumes at least one byte. *)
Definition Deserialize (c : Codec) (b : Buffer) : Decoding :=
  frames (Z.to_nat (readable_bytes b)) c (mkDecoding (mkStats 0 false) [] b).

End Codec.

End Codec.
