(* ===== verification/CodecTheorems.v ===== *)
(** * Frames: round trip, resynchronisation, termination *)

From S2P Require Import Prelude Buffer BufferSpec BufferCodecs BufferViews Codec.

Import Codec.


(** ** Frames on the wire *)

Section Frames.
Context `{P : Platform} {Packet : Type} (id_of : Packet -> Z).

Abbreviation PacketSerializer := (@PacketSerializer Packet).
Abbreviation Codec := (@Codec Packet).
Abbreviation Decoding := (@Decoding Packet).

Definition header_image (id size : Z) : list Z := var_image LittleEndian 8 id ++ enc LittleEndian 4 size.

Definition frame_image (id : Z) (body : list Z) : list Z := header_image id (zlen body) ++ body.

Lemma zlen_header id size : zlen (header_image id size) = var_size (mem_bytes 8 id) + 5.
Proof. unfold header_image. rewrite length_app, Nat2Z.inj_add, zlen_var_image, zlen_enc by lia. lia. Qed.

Lemma header_nonempty id size : 5 <= zlen (header_image id size).
Proof. rewrite zlen_header. pose proof (var_size_range (mem_bytes 8 id)). lia. Qed.

(** Reading a header that is there. *)
Lemma read_header b id size r : opened b -> 0 <= id < 2 ^ 64 -> 0 <= size < 2 ^ 32 ->
  avail b = header_image id size ++ r ->
  exists b1 b2, ReadVarInt 8 b = (id, b1) /\ ReadInt 4 b1 = (size, b2) /\
    opened b2 /\ avail b2 = r /\ last_error_ b2 = last_error_ b /\ read_cursor_ b2 = read_cursor_ b + zlen (header_image id size).
Proof.
  intros Ho Hid Hsz E. unfold header_image in E. rewrite <- app_assoc in E.
  destruct (ReadVarInt_parses LittleEndian 8 id ltac:(lia) ltac:(lia) b _ (op_wf b Ho) (op_endian b Ho) E) as (b1 & E1 & C1).
  pose proof (ReadVarInt_reads b (op_wf b Ho)) as [R1 _]. rewrite E1 in R1. cbn [snd] in R1.
  destruct (opened_advance b _ _ b1 Ho E R1 (con_rc _ _ _ _ C1)) as [Ho1 Ha1].
  destruct (ReadInt_enc LittleEndian 4 size b1 r (op_wf b1 Ho1) (op_endian b1 Ho1) ltac:(lia) ltac:(lia) Ha1) as (b2 & E2 & C2).
  pose proof (ReadInt_reads 4 b1 (op_wf b1 Ho1) ltac:(lia)) as R2. rewrite E2 in R2. cbn [snd] in R2.
  destruct (opened_advance b1 _ _ b2 Ho1 Ha1 R2 (con_rc _ _ _ _ C2)) as [Ho2 Ha2].
  assert (Hn2 : last_error_ b2 = last_error_ b) by (rewrite (con_err _ _ _ _ C2), (con_err _ _ _ _ C1); done).
  exists b1, b2. split; [done|]. split; [done|].
  split; [done|]. split; [done|]. split; [done|]. rewrite (con_rc _ _ _ _ C2), (con_rc _ _ _ _ C1). unfold header_image.
  rewrite length_app. lia.
Qed.

(** What a deserializer does with a body it is fenced in. *)
Definition answers_ (s : PacketSerializer) (body : list Z) (e : BufferError) (pk : option Packet) : Prop :=
  forall b, wf b -> endianness_ b = LittleEndian -> avail b = body -> last_error_ b = NoError ->
  read_cursor_ b <= Z.min (write_cursor_ b) (read_limit_ b) ->
  exists b', Deserialize_ s b = (pk, b') /\ reads_only b b' /\ last_error_ b' = e /\
    (is_Some pk -> read_cursor_ b <= read_cursor_ b' <= read_cursor_ b + zlen body).

(** One frame: who reads it and with what result. *)
Inductive Frame :=
  | FDecoded (id : Z) (body : list Z) (e : BufferError) (pk : Packet)
  | FRefused (id : Z) (body : list Z) (e : BufferError)
  | FUnknown (id : Z) (body : list Z).

Definition frame_bytes (f : Frame) : list Z :=
  match f with FDecoded id body _ _ | FRefused id body _ | FUnknown id body => frame_image id body end.

Definition frame_error (f : Frame) : BufferError :=
  match f with FDecoded _ _ e _ | FRefused _ _ e => e | FUnknown _ _ => NoError end.

Definition frame_ok (c : Codec) (f : Frame) : Prop :=
  match f with
  | FDecoded id body e pk => 0 <= id < 2 ^ 64 /\ zlen body < 2 ^ 32 /\ exists s, c !! id = Some s /\ answers_ s body e (Some pk)
  | FRefused id body e => 0 <= id < 2 ^ 64 /\ zlen body < 2 ^ 32 /\ exists s, c !! id = Some s /\ answers_ s body e None
  | FUnknown id body => 0 <= id < 2 ^ 64 /\ zlen body < 2 ^ 32 /\ c !! id = None
  end.

Definition frame_packets (f : Frame) : list Packet := match f with FDecoded _ _ _ pk => [pk] | _ => [] end.

Definition frame_stats (f : Frame) (s : DecodeStats) : DecodeStats :=
  match f with FRefused _ _ _ => note_invalid s | _ => s end.

(** The loop takes a whole frame, whatever its deserializer made of it. *)
Lemma frame_step_frame c f d r : frame_ok c f -> opened (buffer d) -> last_error_ (buffer d) = NoError ->
  avail (buffer d) = frame_bytes f ++ r ->
  exists b', frame_step c d = (true, mkDecoding (frame_stats f (stats d)) (handled d ++ frame_packets f) b') /\
    opened b' /\ avail b' = r /\ last_error_ b' = frame_error f.
Proof.
  intros Hf Ho Hn E.
  assert (H : exists id body, 0 <= id < 2 ^ 64 /\ zlen body < 2 ^ 32 /\ frame_bytes f = frame_image id body /\
    match f with FDecoded i bd _ _ | FRefused i bd _ | FUnknown i bd => i = id /\ bd = body end)
    by (destruct f as [id body ? ?|id body ?|id body]; destruct Hf as (? & ? & _); by exists id, body).
  destruct H as (id & body & Hid & Hsz & Ef & Hm). rewrite Ef in E. unfold frame_image in E. rewrite <- app_assoc in E.
  destruct (read_header (buffer d) id (zlen body) (body ++ r) Ho Hid ltac:(lia) E) as (b1 & b2 & E1 & E2 & Ho2 & Ha2 & Hn2 & Hc2).
  assert (E3 : GetAndClearLastError b2 = (NoError, b2))
    by (rewrite Hn in Hn2; unfold GetAndClearLastError; rewrite Hn2; by destruct b2; cbn in Hn2; subst).
  pose proof (header_nonempty id (zlen body)) as Hh. pose proof (wf_rc _ (op_wf _ Ho)) as Hrc0.
  destruct (opened_split b2 body r Ho2 Ha2) as (HL & _ & _). pose proof (wf_wc _ (op_wf _ Ho2)) as Hwc.
  assert (Hrd : (readable_bytes b2 <? zlen body) = false).
  { apply Z.ltb_ge. destruct (opened_avail b2 Ho2) as [_ ->]. lia. }
  unfold frame_step. rewrite E1, E2, E3. cbn [negb]. rewrite bool_decide_true by done. cbn [negb]. rewrite Hrd.
  destruct (fenced_avail b2 body r Ho2 Ha2 ltac:(lia)) as (Hwf3 & Ha3 & He3 & Hn3 & Hl3).
  set (b3 := SetReadLimit (u64 (read_cursor_ b2 + zlen body)) b2) in *.
  assert (Hd3 : data_ b3 = data_ b2 /\ write_cursor_ b3 = write_cursor_ b2 /\ endianness_ b3 = endianness_ b2 /\ read_cursor_ b3 = read_cursor_ b2)
    by (unfold b3, SetReadLimit; by destruct (_ =? 0)).
  destruct Hd3 as (Hd3 & Hw3 & Hen3 & Hr3).
  assert (Hin3 : read_cursor_ b3 <= Z.min (write_cursor_ b3) (read_limit_ b3)) by (rewrite Hl3, Hw3, Hr3; lia).
  (* resuming behind the body, from any buffer that differs in cursor and limit *)
  assert (Hresume : forall b4, reads_only b3 b4 ->
    let b5 := SetReadLimit 0 (SkipRead (zlen body) (set_read_cursor (read_cursor_ b2) b4)) in
    opened b5 /\ avail b5 = r /\ last_error_ b5 = last_error_ b4).
  { intros b4 [Hwf4 Hd4 Hw4 Hl4 He4]. assert (Hwf5 : wf (SkipRead (zlen body) (set_read_cursor (read_cursor_ b2) b4))).
    { assert (wf (set_read_cursor (read_cursor_ b2) b4)).
      { pose proof (op_wf _ Ho2) as []. destruct Hwf4. split; try done. unfold store_ok in *. cbn. rewrite Hd4, Hd3, Hw4, Hw3 in *. destruct (data_ b2); lia || done. }
      apply SkipRead_reads; [done|lia|]. cbn. lia. }
    edestruct (unfenced b2 body r) as [H1 H2]; [exact Ho2|exact Ha2| | | |exact Hwf5| |]; [cbn; congruence|cbn; congruence|cbn; congruence| |].
    - cbn. apply u64_small. unfold size_max. lia.
    - done. }
  destruct f as [i bd e pk|i bd e|i bd]; destruct Hm as [-> ->]; cbn [frame_ok frame_stats frame_packets frame_error] in *;
    destruct Hf as (_ & _ & Hf).
  - destruct Hf as (s & -> & Hans). destruct (Hans b3 Hwf3 He3 Ha3 ltac:(congruence) Hin3) as (b4 & -> & R4 & He4 & Hrange).
    specialize (Hrange ltac:(done)). rewrite Hr3 in Hrange. rewrite (u64_small (read_cursor_ b4 - read_cursor_ b2)) by (unfold size_max; lia).
    destruct (Z.ltb_spec (read_cursor_ b4 - read_cursor_ b2) (zlen body)).
    + destruct (Hresume b4 R4) as (H1 & H2 & H3). eexists. split; [reflexivity|]. split; [done|]. split; [done|congruence].
    + destruct (Z.ltb_spec (zlen body) (read_cursor_ b4 - read_cursor_ b2)); [lia|]. eexists. split; [reflexivity|].
      destruct R4 as [Hwf4 Hd4 Hw4 Hl4 He4'].
      destruct (unfenced b2 body r b4 Ho2 Ha2) as [H1 H2]; [congruence|congruence|congruence|done|lia|]. done.
  - destruct Hf as (s & -> & Hans). destruct (Hans b3 Hwf3 He3 Ha3 ltac:(congruence) Hin3) as (b4 & -> & R4 & He4 & _).
    destruct (Hresume b4 R4) as (H1 & H2 & H3). eexists. rewrite app_nil_r. split; [reflexivity|]. split; [done|]. split; [done|congruence].
  - rewrite Hf. eexists. rewrite app_nil_r. split; [reflexivity|].
    destruct (opened_advance b2 body r (SkipRead (zlen body) b2) Ho2 Ha2) as [H1 H2].
    + apply SkipRead_reads; [apply Ho2|lia|lia].
    + cbn. apply u64_small. unfold size_max. lia.
    + split; [done|]. split; [done|]. cbn. congruence.
Qed.

Lemma frame_bytes_length f : 1 <= zlen (frame_bytes f).
Proof.
  destruct f as [id body ? ?|id body ?|id body]; cbn [frame_bytes]; unfold frame_image; rewrite length_app;
    pose proof (header_nonempty id (zlen body)); lia.
Qed.

Lemma frames_run c fs fuel d : Forall (frame_ok c) fs -> Forall (fun f => frame_error f = NoError) fs ->
  opened (buffer d) -> last_error_ (buffer d) = NoError -> avail (buffer d) = fs ≫= frame_bytes ->
  (length (fs ≫= frame_bytes) <= fuel)%nat ->
  exists b', frames fuel c d = mkDecoding (foldl (fun s f => frame_stats f s) (stats d) fs) (handled d ++ (fs ≫= frame_packets)) b' /\
    avail b' = [].
Proof.
  intros Hfs. revert fuel d. induction Hfs as [|f fs Hf _ IH]; intros fuel d Hne Ho Hn E Hfuel; csimpl in *.
  - exists (buffer d). rewrite app_nil_r. split; [|done]. destruct fuel as [|fuel]; cbn [frames]; [by destruct d|].
    pose proof (readable_avail _ (op_wf _ Ho)) as Hr. rewrite E in Hr. rewrite Hr. by destruct d.
  - inversion Hne as [|? ? Hnf Hns]; subst. rewrite length_app in Hfuel. pose proof (frame_bytes_length f).
    destruct fuel as [|fuel]; [lia|]. cbn [frames].
    destruct (frame_step_frame c f d _ Hf Ho Hn E) as (b' & -> & Ho' & Ha' & Hn').
    pose proof (readable_avail _ (op_wf _ Ho)) as Hr. rewrite E, length_app in Hr.
    destruct (Z.ltb_spec 0 (readable_bytes (buffer d))); [|lia].
    destruct (IH fuel (mkDecoding (frame_stats f (stats d)) (handled d ++ frame_packets f) b')) as (b2 & -> & H2);
      cbn [buffer stats handled] in *; [done|done|congruence|done|lia|].
    exists b2. by rewrite <- app_assoc.
Qed.

(** A message made of frames, each decoded at its own start. *)
Lemma Deserialize_frames (c : Codec) (fs : list Frame) (b : Buffer)
  (Hfs : Forall (frame_ok c) fs) (Herr : Forall (fun f => frame_error f = NoError) fs)
  (Hb : opened b) (Hn : last_error_ b = NoError) (Ha : avail b = fs ≫= frame_bytes) :
  exists b', Deserialize c b = mkDecoding (foldl (fun s f => frame_stats f s) (mkStats 0 false) fs) (fs ≫= frame_packets) b' /\
    avail b' = [].
Proof.
  unfold Deserialize. apply (frames_run c fs _ (mkDecoding (mkStats 0 false) [] b)); try done.
  rewrite readable_avail by apply Hb. rewrite Ha. lia.
Qed.

(** The codec stays in step with the frames: a message of any frames,
    those a deserializer accepts (reading all of the body or less), those one
    refuses and those nobody knows, is taken frame by frame; exactly the
    accepted packets reach the handler, in order, exactly the refused frames are
    counted, the framing is kept and nothing is left.  Deserializers may leave
    no error behind. *)
Theorem codec_stays_in_step (c : Codec) (fs : list Frame) (b : Buffer)
  (Hfs : Forall (frame_ok c) fs) (Herr : Forall (fun f => frame_error f = NoError) fs)
  (Hb : opened b) (Hn : last_error_ b = NoError) (Ha : avail b = fs ≫= frame_bytes) :
  exists b', Deserialize c b = mkDecoding (foldl (fun s f => frame_stats f s) (mkStats 0 false) fs) (fs ≫= frame_packets) b' /\
    avail b' = [].
Proof. by apply Deserialize_frames. Qed.

(** An error one deserializer leaves in the buffer is charged to the
    next frame: the header check of that frame, which is well-formed, sees the
    stale error, and the rest of the message is dropped as if the framing were
    lost.  Nothing clears the error between frames. *)
Theorem stale_error_drops_next_frame (c : Codec) (f g : Frame) (b : Buffer) (rest : list Z)
  (Hf : frame_ok c f) (Herr : frame_error f <> NoError) (Hg : frame_ok c g)
  (Hb : opened b) (Hn : last_error_ b = NoError) (Ha : avail b = frame_bytes f ++ frame_bytes g ++ rest) :
  handled (Deserialize c b) = frame_packets f /\ framing_lost (stats (Deserialize c b)) = true.
Proof.
  unfold Deserialize. set (d := mkDecoding (mkStats 0 false) [] b).
  pose proof (readable_avail _ (op_wf _ Hb)) as Hr. rewrite Ha, !length_app in Hr.
  pose proof (frame_bytes_length f). pose proof (frame_bytes_length g).
  destruct (Z.to_nat (readable_bytes b)) as [|[|fuel]] eqn:Ef; [lia|lia|]. cbn [frames]. change (buffer d) with b.
  destruct (Z.ltb_spec 0 (readable_bytes b)); [|lia].
  destruct (frame_step_frame c f d _ Hf Hb Hn Ha) as (b' & -> & Ho' & Ha' & Hn'). cbn [frames buffer].
  pose proof (readable_avail _ (op_wf _ Ho')) as Hr'. rewrite Ha', length_app in Hr'.
  destruct (Z.ltb_spec 0 (readable_bytes b')); [|lia].
  assert (Hgi : exists id body, 0 <= id < 2 ^ 64 /\ zlen body < 2 ^ 32 /\ frame_bytes g = frame_image id body)
    by (destruct g as [id body ? ?|id body ?|id body]; destruct Hg as (? & ? & _); by exists id, body).
  destruct Hgi as (id & body & Hid & Hsz & Eg). rewrite Eg in Ha'. unfold frame_image in Ha'. rewrite <- app_assoc in Ha'.
  destruct (read_header b' id (zlen body) _ Ho' Hid ltac:(lia) Ha') as (b1 & b2 & E1 & E2 & _ & _ & Hn2 & _).
  unfold frame_step. cbn [buffer]. rewrite E1, E2. unfold GetAndClearLastError. rewrite Hn2, Hn'.
  rewrite bool_decide_false by done. done.
Qed.

(** ** Hostile messages *)

(** A deserializer that only reads. *)
Definition cautious (s : PacketSerializer) : Prop :=
  forall b, wf b -> endianness_ b = LittleEndian -> reads_only b (Deserialize_ s b).2.

(** A round of the loop goes on behind what it read, or gives the framing up. *)
Lemma frame_step_progress c d : map_Forall (fun _ s => cautious s) c -> opened (buffer d) ->
  let r := frame_step c d in
  if r.1 then opened (buffer r.2) /\ readable_bytes (buffer r.2) < readable_bytes (buffer d)
  else framing_lost (stats r.2) = true.
Proof.
  intros Hc Ho. unfold frame_step. set (b := buffer d) in *. pose proof (op_wf _ Ho) as Hwf.
  assert (Hin : in_range b) by (unfold in_range; rewrite (op_limit _ Ho); pose proof (wf_wc b Hwf); pose proof (op_order b Ho); unfold size_max; lia).
  destruct (ReadVarInt_reads b Hwf) as (R1 & I1 & M1). destruct (ReadVarInt 8 b) as [id b1] eqn:E1. cbn [snd] in *. specialize (I1 Hin).
  pose proof (ReadInt_reads 4 b1 (re_wf _ _ R1) ltac:(lia)) as R2. destruct (ReadInt_moves 4 b1 (re_wf _ _ R1) ltac:(lia) I1) as [I2 M2].
  pose proof (ReadInt_value_range 4 b1 (re_wf _ _ R1) ltac:(lia)) as Hsz.
  assert (Herr : last_error_ (ReadInt 4 b1).2 = NoError -> last_error_ b1 = NoError).
  { unfold ReadInt. destruct (ReadNumber_cases 4 b1 (re_wf _ _ R1) ltac:(lia)) as [(p & r & _ & _ & -> & _)|[_ ->]]; done. }
  destruct (ReadInt 4 b1) as [size b2]. cbn [fst snd] in *. unfold GetAndClearLastError. cbv iota.
  destruct (bool_decide (last_error_ b2 = NoError)) eqn:Ee; cbn [negb]; [apply bool_decide_eq_true in Ee|done].
  set (b3 := set_last_error NoError b2). destruct (Z.ltb_spec (readable_bytes b3) size) as [|Hfit]; [done|].
  assert (R3 : reads_only b b3) by (eapply reads_only_trans; [exact R1|]; eapply reads_only_trans; [exact R2|]; split; try done; apply set_last_error_wf, R2).
  assert (Ho3 : opened b3).
  { destruct R3, Ho. split; [done|congruence| |congruence]. unfold in_range in I2. cbn. lia. }
  assert (Hlt : read_cursor_ b < read_cursor_ b3) by (cbn; specialize (M1 (Herr Ee)); lia).
  destruct (opened_avail b Ho) as [_ Hrb]. destruct (opened_avail b3 Ho3) as [Ha3 Hrb3].
  assert (Hsplit : exists body rest, avail b3 = body ++ rest /\ zlen body = size).
  { exists (take (Z.to_nat size) (avail b3)), (drop (Z.to_nat size) (avail b3)). rewrite take_drop, length_take. split; [done|].
    pose proof (readable_avail b3 (op_wf _ Ho3)). lia. }
  destruct Hsplit as (body & rest & Ebr & <-).
  assert (Hdone : forall b5, opened b5 /\ avail b5 = rest -> opened b5 /\ readable_bytes b5 < readable_bytes b).
  { intros b5 [Ho5 Ha5]. split; [done|]. rewrite (readable_avail b5 (op_wf _ Ho5)), Ha5.
    pose proof (readable_avail b3 (op_wf _ Ho3)) as Hr3. rewrite Ebr, length_app in Hr3. rewrite (re_write _ _ R3) in Hrb3. lia. }
  pose proof (wf_wc _ (op_wf _ Ho3)) as Hwc. destruct (opened_split b3 body rest Ho3 Ebr) as (HL & _ & _).
  pose proof (wf_rc b Hwf) as Hrc.
  destruct (c !! id) as [s|] eqn:Es.
  - destruct (fenced_avail b3 body rest Ho3 Ebr ltac:(lia)) as (Hwf4 & _ & He4 & _ & _).
    set (b4 := SetReadLimit (u64 (read_cursor_ b3 + zlen body)) b3) in *.
    assert (Hd4 : data_ b4 = data_ b3 /\ write_cursor_ b4 = write_cursor_ b3 /\ endianness_ b4 = endianness_ b3)
      by (unfold b4, SetReadLimit; by destruct (_ =? 0)).
    destruct Hd4 as (Hd4 & Hw4 & Hen4). pose proof (Hc id s Es b4 Hwf4 He4) as [Hwf5 Hd5 Hw5 Hl5 He5].
    destruct (Deserialize_ s b4) as [pk b5]. cbn [snd] in *.
    assert (Hback : opened (SetReadLimit 0 (SkipRead (zlen body) (set_read_cursor (read_cursor_ b3) b5))) /\
      avail (SetReadLimit 0 (SkipRead (zlen body) (set_read_cursor (read_cursor_ b3) b5))) = rest).
    { apply (unfenced b3 body rest); [done|done|exact (eq_trans Hd5 Hd4)|exact (eq_trans Hw5 Hw4)|exact (eq_trans He5 Hen4)| |apply (u64_small (read_cursor_ b3 + zlen body)); unfold size_max; lia].
      assert (wf (set_read_cursor (read_cursor_ b3) b5)).
      { pose proof (op_wf _ Ho3) as []. destruct Hwf5. split; try done. unfold store_ok in *.
        change (data_ (set_read_cursor (read_cursor_ b3) b5)) with (data_ b5). cbn [set_read_cursor allocated_size_ write_cursor_ read_cursor_].
        rewrite Hd5, Hd4, Hw5, Hw4 in *. destruct (data_ b3); lia || done. }
      apply SkipRead_reads; [done|lia|]. cbn [set_read_cursor read_cursor_]. lia. }
    destruct pk as [pk|]; [|by apply Hdone].
    destruct (Z.ltb_spec (u64 (read_cursor_ b5 - read_cursor_ b3)) (zlen body)) as [|Hge]; [by apply Hdone|].
    destruct (Z.ltb_spec (zlen body) (u64 (read_cursor_ b5 - read_cursor_ b3))) as [|Hle]; [done|].
    apply Hdone. apply (unfenced b3 body rest); [done|done|exact (eq_trans Hd5 Hd4)|exact (eq_trans Hw5 Hw4)|exact (eq_trans He5 Hen4)|done|].
    pose proof (wf_rc _ Hwf5). pose proof (wf_rc _ (op_wf _ Ho3)). assert (E : u64 (read_cursor_ b5 - read_cursor_ b3) = zlen body) by lia.
    unfold u64 in E. destruct (Z.lt_ge_cases (read_cursor_ b5) (read_cursor_ b3)).
    + rewrite <- (Z_mod_plus_full _ 1), Z.mod_small in E by lia. lia.
    + rewrite Z.mod_small in E by lia. lia.
  - apply Hdone. apply (opened_advance b3 body rest); [done|done|apply SkipRead_reads; [apply Ho3|lia|lia]|].
    apply (u64_small (read_cursor_ b3 + zlen body)). unfold size_max. lia.
Qed.

(** Decoding ends by its own rules on any bytes, given deserializers that
    only read: either every byte was taken or the framing was given up.  The
    bound on the rounds, the number of readable bytes, is never what stops it. *)
Theorem decoding_terminates (c : Codec) (b : Buffer) (Hc : map_Forall (fun _ s => cautious s) c) (Hb : opened b) :
  framing_lost (stats (Deserialize c b)) = true \/ readable_bytes (buffer (Deserialize c b)) = 0.
Proof.
  unfold Deserialize. set (d := mkDecoding (mkStats 0 false) [] b).
  assert (H : forall fuel d, opened (buffer d) -> readable_bytes (buffer d) <= Z.of_nat fuel ->
    framing_lost (stats (frames fuel c d)) = true \/ readable_bytes (buffer (frames fuel c d)) = 0).
  { clear - Hc. induction fuel as [|fuel IH]; intros d Ho Hf; cbn [frames].
    - right. destruct (opened_avail _ Ho) as [_ Hr]. pose proof (op_order _ Ho). lia.
    - destruct (Z.ltb_spec 0 (readable_bytes (buffer d))) as [Hp|Hz].
      + pose proof (frame_step_progress c d Hc Ho) as Hs. cbv zeta in Hs. destruct (frame_step c d) as [[|] d1]; cbn [fst snd] in Hs; [|by left].
        destruct Hs as [Ho1 Hlt]. apply IH; [done|lia].
      + right. destruct (opened_avail _ Ho) as [_ Hr]. pose proof (op_order _ Ho). lia. }
  apply H; [done|]. change (buffer d) with b. destruct (opened_avail _ Hb) as [_ Hr]. pose proof (op_order _ Hb). lia.
Qed.

End Frames.

(** ** Serializing *)

Section Serializing.
Context `{P : Platform} `{!AmplePlatform P} {Packet : Type} (id_of : Packet -> Z).

(** A serializer that writes [body] for [p]: into the buffer it is given, or in
    a buffer of its own. *)
Definition encodes (s : @PacketSerializer Packet) (p : Packet) (body : list Z) : Prop :=
  forall b, ready (zlen body + 16) b -> endianness_ b = LittleEndian ->
  match Serialize_ s p b with
  | SNothing => False
  | SFramed b' => appends b body b'
  | SOwn b' own => b' = b /\ opened own /\ avail own = body
  end.

Lemma Serialize_image (c : @Codec Packet) p h s body : c !! id_of p = Some s -> encodes s p body -> bytes_ok body ->
  0 <= id_of p < 2 ^ 64 -> zlen body <= 2 ^ 30 -> 0 <= h <= 2 ^ 20 ->
  exists b, Serialize id_of c p h = Some b /\ avail b = frame_image (id_of p) body /\ headroom h b.
Proof.
  intros Hs He Hok Hid Hbody Hh. unfold Serialize. rewrite Hs.
  set (b0 := if h =? 0 then Buffer_new LittleEndian else ReserveHeadroom h (Buffer_new LittleEndian)).
  assert (H0 : ready (2 ^ 30 + 2 ^ 20) b0 /\ endianness_ b0 = LittleEndian /\ avail b0 = []).
  { unfold b0. destruct (h =? 0); (split; [|done]); split; try done; cbn; try lia; split; try done; cbn; unfold size_max; lia. }
  destruct H0 as (Hr0 & He0 & Ha0). set (img := var_image LittleEndian 8 (id_of p)). set (z4 := enc LittleEndian 4 0).
  assert (Hzi : 1 <= zlen img <= 9).
  { unfold img. rewrite zlen_var_image. pose proof (var_size_range (mem_bytes 8 (id_of p))) as Hv. rewrite length_mem_bytes in Hv. lia. }
  assert (Hz4 : zlen z4 = 4) by (apply zlen_enc; lia).
  assert (A1 : appends b0 img (WriteVarInt 8 (id_of p) b0)).
  { apply WriteVarInt_appends; [lia|done|]. fold img. eapply ready_weaken; [|exact Hr0]. lia. }
  set (b1 := WriteVarInt 8 (id_of p) b0) in *.
  assert (Hr1 : ready (2 ^ 30 + 20) b1) by (apply (appends_ready _ _ _ _ A1); eapply ready_weaken; [|exact Hr0]; lia).
  assert (A2 : appends b1 z4 (WriteInt 4 0 b1)).
  { unfold z4. rewrite <- He0, <- (app_endian _ _ _ A1). apply WriteNumber_appends; [eapply ready_weaken; [|exact Hr1]; lia|lia]. }
  set (b2 := WriteInt 4 0 b1) in *.
  assert (Hr2 : ready (zlen body + 16) b2) by (apply (appends_ready _ _ _ _ A2); eapply ready_weaken; [|exact Hr1]; lia).
  assert (He2 : endianness_ b2 = LittleEndian) by (rewrite (app_endian _ _ _ A2), (app_endian _ _ _ A1); done).
  set (backfill := fun b => set_write_cursor (write_cursor_ b) (WriteInt 4 (u32 (u64 (write_cursor_ b - write_cursor_ b2)))
    (set_write_cursor (u64 (write_cursor_ b2 - 4)) b))).
  assert (Hback : forall b3, appends b2 body b3 -> avail (backfill b3) = frame_image (id_of p) body /\ headroom h (backfill b3)).
  { intros b3 A3. assert (A : appends b0 (img ++ z4 ++ body) b3) by (eapply appends_trans; [exact A1|]; eapply appends_trans; [exact A2|exact A3]).
    assert (Ho3 : opened b3) by (eapply appends_opened; [|exact He0|exact A]; eapply ready_weaken; [|exact Hr0]; lia).
    assert (Ha3 : avail b3 = img ++ z4 ++ body) by (rewrite (app_avail _ _ _ A), Ha0; done).
    pose proof (app_wc _ _ _ A1). pose proof (app_wc _ _ _ A2). pose proof (app_wc _ _ _ A3). pose proof (app_rc _ _ _ A) as Hrc.
    assert (Hb0 : write_cursor_ b0 = read_cursor_ b0) by (unfold b0; by destruct (h =? 0)).
    pose proof (wf_rc _ (ready_wf _ _ Hr0)). pose proof (wf_wc _ (op_wf _ Ho3)).
    unfold backfill, frame_image, header_image. rewrite <- app_assoc. fold img.
    rewrite (u64_small (write_cursor_ b3 - write_cursor_ b2)) by (unfold size_max; lia).
    rewrite (u64_small (write_cursor_ b2 - 4)) by (unfold size_max; lia).
    replace (write_cursor_ b2 - 4) with (read_cursor_ b3 + zlen img) by lia.
    destruct (backfill_avail b3 img z4 body (u32 (write_cursor_ b3 - write_cursor_ b2)) Ho3 Ha3 Hz4) as (Ho4 & Ha4 & Hr4 & Hd4 & _).
    split; [|split; [exact Ho4| |exact Hd4] ]; [rewrite Ha4; do 3 f_equal; unfold u32; rewrite Z.mod_small by lia; lia|]. rewrite Hr4, Hrc. unfold b0. destruct (Z.eqb_spec h 0); cbn; lia. }
  specialize (He b2 Hr2 He2). destruct (Serialize_ s p b2) as [|b3|b3 own]; [done|..].
  - exists (backfill b3). split; [done|]. by apply Hback.
  - destruct He as (-> & Ho & Ha). exists (backfill (Write body b2)).
    assert (Hin : in_range own) by (destruct Ho as [Hw Hl Hor _]; unfold in_range; rewrite Hl; pose proof (wf_wc _ Hw); unfold size_max; lia).
    pose proof (readable_avail own (op_wf _ Ho)) as Hr. rewrite Ha in Hr.
    split; [|apply Hback; apply Write_appends; [eapply ready_weaken; [|exact Hr2]; lia|done] ]. rewrite Hr. rewrite (load_avail own body []); [done|apply Ho|done|by rewrite app_nil_r].
Qed.

Lemma packets_roundtrip (c : @Codec Packet) (ps : list Packet) (body : Packet -> list Z) (h : Z) (b : Buffer)
  (Hps : Forall (fun p => 0 <= id_of p < 2 ^ 64 /\ bytes_ok (body p) /\ zlen (body p) <= 2 ^ 30 /\
     exists s, c !! id_of p = Some s /\ encodes s p (body p) /\ answers_ s (body p) NoError (Some p)) ps)
  (Hh : 0 <= h <= 2 ^ 20) (Hb : opened b) (Hn : last_error_ b = NoError)
  (Ha : avail b = ps ≫= fun p => default [] (avail <$> Serialize id_of c p h)) :
  exists b', Deserialize c b = mkDecoding (mkStats 0 false) ps b' /\ avail b' = [].
Proof.
  set (frame := fun p => FDecoded (id_of p) (body p) NoError p).
  destruct (Deserialize_frames c (frame <$> ps) b) as (b' & E & H); [| |done|done|..].
  - apply Forall_fmap. eapply Forall_impl; [exact Hps|]. intros p (Hid & _ & HL & s & Hs & _ & Hans). cbn. split; [done|]. split; [lia|]. by exists s.
  - apply Forall_fmap. by apply Forall_true.
  - rewrite Ha. clear - AmplePlatform0 Hps Hh. induction Hps as [|p ps (Hid & Hok & HL & s & Hs & He & _) _ IH]; [done|]. rewrite fmap_cons, !bind_cons_eq, IH. f_equal.
    destruct (Serialize_image c p h s (body p) Hs He Hok Hid HL Hh) as (b' & -> & Hav & _). exact Hav.
  - exists b'. split; [|done]. rewrite E. clear. f_equal.
    + generalize (mkStats 0 false). induction ps as [|p ps IH]; intros st; [done|]. apply IH.
    + induction ps as [|p ps IH]; [done|]. csimpl. by rewrite IH.
Qed.

(** Packets round trip through the codec: each packet serialized into a
    message of its own (with room in front for later headers), and the messages
    put behind one another, are decoded into the same packets in the same order,
    and nothing is reported.  Serializers must write a body their own
    deserializer accepts. *)
Theorem codec_roundtrip (c : @Codec Packet) (ps : list Packet) (body : Packet -> list Z) (h : Z) (b : Buffer)
  (Hps : Forall (fun p => 0 <= id_of p < 2 ^ 64 /\ bytes_ok (body p) /\ zlen (body p) <= 2 ^ 30 /\
     exists s, c !! id_of p = Some s /\ encodes s p (body p) /\ answers_ s (body p) NoError (Some p)) ps)
  (Hh : 0 <= h <= 2 ^ 20) (Hb : opened b) (Hn : last_error_ b = NoError)
  (Ha : avail b = ps ≫= fun p => default [] (avail <$> Serialize id_of c p h)) :
  exists b', Deserialize c b = mkDecoding (mkStats 0 false) ps b' /\ avail b' = [].
Proof. by apply (packets_roundtrip c ps body h b). Qed.

End Serializing.

(** ** Example codecs *)

Module CodecExamples.
Section Examples.
Context `{P : Platform} `{!AmplePlatform P}.

(** Packets are 16-bit numbers with id 7. *)
Definition number : @PacketSerializer Z :=
  mkSerializer (fun p b => SFramed (WriteInt 2 p b)) (fun b => let '(v, b) := ReadInt 2 b in (Some v, b)).

(** A deserializer that reads four bytes and does not look at the error. *)
Definition careless : @PacketSerializer Z :=
  mkSerializer (fun p b => SFramed (WriteInt 2 p b)) (fun b => let '(v, b) := ReadInt 4 b in (Some v, b)).

Definition numbers : @Codec Z := <[7 := number]> (<[8 := careless]> ∅).

Definition only_number : gmap Z (@PacketSerializer Z) := {[7 := number]}.

Lemma number_encodes p : encodes number p (enc LittleEndian 2 p).
Proof.
  intros b Hr He. cbn [number Serialize_]. rewrite zlen_enc in Hr by lia. unfold WriteInt. rewrite <- He. apply WriteNumber_appends; [eapply ready_weaken; [|exact Hr]|]; lia.
Qed.

Lemma number_answers p : 0 <= p < 2 ^ 16 -> answers_ number (enc LittleEndian 2 p) NoError (Some p).
Proof.
  intros Hp b Hwf He Ha Hn Hin. cbn [number Deserialize_].
  destruct (ReadInt_enc LittleEndian 2 p b [] Hwf He ltac:(lia) ltac:(lia)) as (b' & E & C); [by rewrite app_nil_r|].
  pose proof (ReadInt_reads 2 b Hwf ltac:(lia)) as R. rewrite E in *. exists b'. split; [done|]. split; [done|].
  rewrite (con_err _ _ _ _ C), (con_rc _ _ _ _ C), Hn. split; [done|]. lia.
Qed.

Lemma careless_answers : answers_ careless [1; 2] ReadOutOfBounds (Some 0).
Proof.
  intros b Hwf He Ha Hn Hin. cbn [careless Deserialize_]. pose proof (readable_avail b Hwf) as Hr. rewrite Ha in Hr.
  unfold ReadInt. rewrite ReadNumber_short by (done || cbn in Hr; lia). eexists. split; [reflexivity|].
  split; [by split; [apply set_last_error_wf|..]|]. split; [done|]. cbn. lia.
Qed.

Lemma number_cautious : cautious number.
Proof.
  intros b Hwf _. cbn [number Deserialize_]. pose proof (ReadInt_reads 2 b Hwf ltac:(lia)). by destruct (ReadInt 2 b).
Qed.

End Examples.

Abbreviation LE := (host LittleEndian).

Lemma codec_roundtrip_witness :
  exists b', @Deserialize LE Z (@numbers LE) (@received LE LittleEndian
      ([258; 5] ≫= fun p => default [] (avail <$> @Serialize LE Z (fun _ => 7) (@numbers LE) p 4)))
    = mkDecoding (mkStats 0 false) [258; 5] b' /\ avail b' = [].
Proof.
  destruct (@received_opened LE (host_ample _) ([258; 5] ≫= fun p => default [] (avail <$> @Serialize LE Z (fun _ => 7) (@numbers LE) p 4)))
    as (Ho & Ha & Hn); [vm_compute; repeat constructor; discriminate|vm_compute; discriminate|].
  apply (@codec_roundtrip LE (host_ample _) Z (fun _ => 7) (@numbers LE) [258; 5] (enc LittleEndian 2) 4); [|lia|exact Ho|exact Hn|exact Ha].
  assert (H : forall p, 0 <= p < 2 ^ 16 -> 0 <= 7 < 2 ^ 64 /\ bytes_ok (enc LittleEndian 2 p) /\ zlen (enc LittleEndian 2 p) <= 2 ^ 30 /\
    exists s, @numbers LE !! 7 = Some s /\ encodes s p (enc LittleEndian 2 p) /\ answers_ s (enc LittleEndian 2 p) NoError (Some p)).
  { intros p Hp. split; [lia|]. split; [apply enc_bytes_ok|]. split; [rewrite zlen_enc; lia|]. exists (@number LE).
    split; [reflexivity|]. split; [apply (@number_encodes LE (host_ample _))|by apply number_answers]. }
  constructor; [apply H; lia|]. constructor; [apply H; lia|]. constructor.
Defined.

Definition two_frames : list (@Frame Z) := [FUnknown 9 [1; 2; 3]; FDecoded 7 [2; 1] NoError 258].

Lemma codec_stays_in_step_witness :
  exists b', @Deserialize LE Z (@numbers LE) (@received LE LittleEndian (two_frames ≫= @frame_bytes LE Z))
    = mkDecoding (mkStats 0 false) [258] b' /\ avail b' = [].
Proof.
  destruct (@received_opened LE (host_ample _) (two_frames ≫= @frame_bytes LE Z)) as (Ho & Ha & Hn);
    [vm_compute; repeat constructor; discriminate|vm_compute; discriminate|].
  apply (@codec_stays_in_step LE Z (@numbers LE) two_frames); [|repeat constructor|exact Ho|exact Hn|exact Ha].
  constructor; [split; [lia|]; split; [cbn; lia|reflexivity]|]. constructor; [|constructor].
  split; [lia|]. split; [cbn; lia|]. exists (@number LE). split; [reflexivity|]. apply (number_answers 258). lia.
Defined.

Definition careless_frame : @Frame Z := FDecoded 8 [1; 2] ReadOutOfBounds 0.
Definition good_frame : @Frame Z := FDecoded 7 [2; 1] NoError 258.

Lemma stale_error_drops_next_frame_witness :
  let b := @received LE LittleEndian (@frame_bytes LE Z careless_frame ++ @frame_bytes LE Z good_frame ++ []) in
  handled (@Deserialize LE Z (@numbers LE) b) = [0] /\ framing_lost (stats (@Deserialize LE Z (@numbers LE) b)) = true.
Proof.
  destruct (@received_opened LE (host_ample _) (@frame_bytes LE Z careless_frame ++ @frame_bytes LE Z good_frame ++ [])) as (Ho & Ha & Hn);
    [vm_compute; repeat constructor; discriminate|vm_compute; discriminate|].
  apply (@stale_error_drops_next_frame LE Z (@numbers LE) careless_frame good_frame _ []); [|discriminate| |exact Ho|exact Hn|exact Ha].
  - split; [lia|]. split; [cbn; lia|]. exists (@careless LE). split; [reflexivity|]. apply careless_answers.
  - split; [lia|]. split; [cbn; lia|]. exists (@number LE). split; [reflexivity|]. apply (number_answers 258). lia.
Defined.

Lemma decoding_terminates_witness :
  let b := @received LE LittleEndian [1; 7; 9; 0; 0; 0; 1] in
  framing_lost (stats (@Deserialize LE Z (@only_number LE) b)) = true \/
  readable_bytes (buffer (@Deserialize LE Z (@only_number LE) b)) = 0.
Proof.
  destruct (@received_opened LE (host_ample _) [1; 7; 9; 0; 0; 0; 1]) as (Ho & _ & _); [repeat constructor; vm_compute; discriminate|vm_compute; discriminate|].
  apply (@decoding_terminates LE Z (@only_number LE)); [|exact Ho].
  intros i x Hx. unfold only_number in Hx. apply (lookup_singleton_Some (M := gmap Z) 7 i (@number LE) x) in Hx as [_ <-]. apply number_cautious.
Defined.

End CodecExamples.
