(* ===== verification/Tcp.v ===== *)
(** * The TCP transport (backend/tcp.cc, backends/tcp.h)

    Messages as length-prefixed frames of a byte stream; a zero length marks a
    control frame.  What the socket answers to send() is a list in the state,
    what it answers to recv() an argument; the bytes send() took are kept. *)

From S2P Require Import Prelude Buffer BufferSpec BufferCodecs BufferViews.

Module Tcp.

(** One turn of the loop around send(), as it finds the world: some bytes taken;
    no room, and poll() returned; poll() failed; any other error; the application
    has closed the connection from its thread. *)
Inductive SendAnswer := Took (n : positive) | Stalled | StallFailed | SendFailed | AppCloses.

(** What recv() returned: bytes (none at the end of the stream), EWOULDBLOCK, or
    an error. *)
Inductive RecvAnswer := Got (bs : list Z) | WouldBlock | RecvFailed.

Record Tcp := mkTcp {
  recv_buffer_ : Buffer;
  is_closed_ : bool;
  keepalive_interval_ : Z;
  idle_timeout_ : Z;
  last_recv_ : Z;
  last_send_ : Z;
  answers_ : list SendAnswer;
  sent_ : list Z;
  ticks : nat
}.

Definition set_recv_buffer v t := mkTcp v (is_closed_ t) (keepalive_interval_ t) (idle_timeout_ t) (last_recv_ t) (last_send_ t) (answers_ t) (sent_ t) (ticks t).
Definition set_closed v t := mkTcp (recv_buffer_ t) v (keepalive_interval_ t) (idle_timeout_ t) (last_recv_ t) (last_send_ t) (answers_ t) (sent_ t) (ticks t).
Definition set_last_recv v t := mkTcp (recv_buffer_ t) (is_closed_ t) (keepalive_interval_ t) (idle_timeout_ t) v (last_send_ t) (answers_ t) (sent_ t) (ticks t).
Definition set_last_send v t := mkTcp (recv_buffer_ t) (is_closed_ t) (keepalive_interval_ t) (idle_timeout_ t) (last_recv_ t) v (answers_ t) (sent_ t) (ticks t).
Definition set_socket v w t := mkTcp (recv_buffer_ t) (is_closed_ t) (keepalive_interval_ t) (idle_timeout_ t) (last_recv_ t) (last_send_ t) v w (ticks t).
Definition tick t := mkTcp (recv_buffer_ t) (is_closed_ t) (keepalive_interval_ t) (idle_timeout_ t) (last_recv_ t) (last_send_ t) (answers_ t) (sent_ t) (S (ticks t)).

Definition ZNET_MAX_BUFFER_SIZE : Z := 4096.
Definition kControlPing : Z := 1.
Definition kControlPong : Z := 2.

Section Transport.
Context `{P : Platform} (clk : nat -> Z).

Definition now (t : Tcp) : Z * Tcp := (clk (ticks t), tick t).

Definition TCPTransportLayer_new (keepalive_interval idle_timeout : Z) (answers : list SendAnswer) : Tcp :=
  let b := (ReserveExact ZNET_MAX_BUFFER_SIZE (Buffer_new BigEndian)).2 in
  mkTcp b false keepalive_interval idle_timeout (clk 0%nat) (clk 1%nat) answers [] 2.

Definition IsClosed (t : Tcp) : bool := is_closed_ t.

Definition Close (t : Tcp) : Tcp := set_closed true t.

(** ** Writing *)

(** The loop: whether it ended with nothing left, whether it found the connection
    closed, the answers left and the bytes taken.  When the answers run out the
    socket stays stalled until the application closes the connection. *)
Fixpoint write_loop (answers : list SendAnswer) (data : list Z) : bool * bool * list SendAnswer * list Z :=
  match data with
  | [] => (true, false, answers, [])
  | _ =>
      match answers with
      | [] => (false, true, [], [])
      | AppCloses :: rest => (false, true, rest, [])
      | Took n :: rest =>
          let '(ok, closed, rest, taken) := write_loop rest (drop (Pos.to_nat n) data) in
          (ok, closed, rest, take (Pos.to_nat n) data ++ taken)
      | Stalled :: rest => write_loop rest data
      | StallFailed :: rest | SendFailed :: rest => (false, false, rest, [])
      end
  end.

Definition WriteAll (buffer : Buffer) (t : Tcp) : bool * Tcp :=
  let data := (load (read_cursor_ buffer) (readable_bytes buffer) buffer).1 in
  if (0 <? zlen data) && IsClosed t then (false, t)
  else
    let '(ok, closed, rest, taken) := write_loop (answers_ t) data in
    let t := set_socket rest (sent_ t ++ taken) t in
    let t := if closed then Close t else t in
    if ok then let '(at_, t) := now t in (true, set_last_send at_ t) else (false, t).

Definition SendControl (type : Z) (t : Tcp) : Tcp :=
  if IsClosed t then t
  else
    let frame := (ReserveExact 3 (Buffer_new LittleEndian)).2 in
    let frame := WriteInt 1 0 frame in
    let frame := WriteInt 1 0 frame in
    let frame := WriteInt 1 type frame in
    (WriteAll frame t).2.

Definition HandleControl (type : Z) (t : Tcp) : Tcp := if type =? kControlPing then SendControl kControlPong t else t.

Definition Send (buffer : Buffer) (t : Tcp) : bool * Tcp :=
  if IsClosed t then (false, t)
  else
    let limit := ZNET_MAX_BUFFER_SIZE - 48 in
    let payload_size := readable_bytes buffer in
    if payload_size =? 0 then (false, t)
    else
      let new_size := u64 (payload_size + 2) in
      if (limit <=? new_size) || (65535 <? payload_size) then (false, t)
      else
        let high := u8 (Z.shiftr payload_size 8) in
        let low := u8 (Z.land payload_size 255) in
        if 2 <=? read_cursor_ buffer then
          let buffer := (PrependInt8 low buffer).2 in
          let buffer := (PrependInt8 high buffer).2 in
          WriteAll buffer t
        else
          let framed := (ReserveExact new_size (Buffer_new LittleEndian)).2 in
          let framed := WriteInt 1 high framed in
          let framed := WriteInt 1 low framed in
          let framed := Write (load (read_cursor_ buffer) payload_size buffer).1 framed in
          WriteAll framed t.

Definition Update (t : Tcp) : Tcp :=
  if IsClosed t then t
  else
    let '(at_, t) := now t in
    if (0 <? idle_timeout_ t) && (idle_timeout_ t <? at_ - last_recv_ t) then Close t
    else if (0 <? keepalive_interval_ t) && (keepalive_interval_ t <? at_ - last_send_ t) then SendControl kControlPing t
    else t.

(** ** Reading *)

(** The loop of ReadBuffer; [fuel] bounds its rounds by the bytes there are. *)
Fixpoint read_frames (fuel : nat) (t : Tcp) : option Buffer * Tcp :=
  match fuel with
  | O => (None, set_recv_buffer (Compact (recv_buffer_ t)) t)
  | S fuel =>
      if 2 <=? readable_bytes (recv_buffer_ t) then
        let frame_start := read_cursor_ (recv_buffer_ t) in
        let '(size, b) := ReadInt 2 (recv_buffer_ t) in
        if allocated_size_ b <? size + 2 then (None, set_recv_buffer (Reset false b) (Close t))
        else
          let need := if size =? 0 then 1 else size in
          if readable_bytes b <? need then (None, set_recv_buffer (Compact (set_read_cursor frame_start b)) t)
          else if size =? 0 then
            let '(type, b) := ReadInt 1 b in read_frames fuel (HandleControl type (set_recv_buffer b t))
          else
            let '(bytes, b) := load (read_cursor_ b) size b in
            (Some (Buffer_from bytes LittleEndian), set_recv_buffer (SkipRead size b) t)
      else (None, set_recv_buffer (Compact (recv_buffer_ t)) t)
  end.

Definition ReadBuffer (t : Tcp) : option Buffer * Tcp := read_frames (S (Z.to_nat (readable_bytes (recv_buffer_ t)))) t.

(** What follows a call of recv(). *)
Definition on_recv (answer : RecvAnswer) (t : Tcp) : option Buffer * Tcp :=
  match answer with
  | Got [] => (None, Close t)
  | Got bs =>
      let '(at_, t) := now t in
      let t := set_last_recv at_ t in
      let b := recv_buffer_ t in
      ReadBuffer (set_recv_buffer (CommitWrite (zlen bs) (store (write_cursor_ b) bs b)) t)
  | WouldBlock => (None, t)
  | RecvFailed => (None, Close t)
  end.

(** [recv room] is what recv() answers when offered [room] bytes. *)
Definition Receive (recv : Z -> RecvAnswer) (t : Tcp) : option Buffer * Tcp :=
  match ReadBuffer t with
  | (Some frame, t) => (Some frame, t)
  | (None, t) => on_recv (recv (writable_bytes (recv_buffer_ t))) t
  end.

End Transport.

End Tcp.
