(* ===== verification/TcpTheorems.v ===== *)
(** * The TCP transport delivers its stream *)

From S2P Require Import Prelude Buffer BufferSpec BufferCodecs BufferViews Tcp.

Import Tcp.

(** ** The frames of a byte string *)

Inductive Parse := NeedMore | Oversize | ControlFrame (type : Z) (rest : list Z) | DataFrame (payload rest : list Z).

Definition frame_of (bs : list Z) : Parse :=
  match bs with
  | hi :: lo :: r =>
      let size := 256 * hi + lo in
      if ZNET_MAX_BUFFER_SIZE <? size + 2 then Oversize
      else if size =? 0 then match r with type :: r => ControlFrame type r | [] => NeedMore end
      else if zlen r <? size then NeedMore
      else DataFrame (take (Z.to_nat size) r) (drop (Z.to_nat size) r)
  | _ => NeedMore
  end.

(** What a look at [bs] comes to: a message, a broken stream, or neither yet. *)
Inductive Outcome := Message (p : list Z) | Broken | Starved.

Fixpoint skim (fuel : nat) (bs : list Z) : Outcome * list Z :=
  match fuel with
  | O => (Starved, bs)
  | S fuel =>
      match frame_of bs with
      | NeedMore => (Starved, bs)
      | Oversize => (Broken, [])
      | ControlFrame _ r => skim fuel r
      | DataFrame p r => (Message p, r)
      end
  end.

(** The control frames passed over. *)
Fixpoint controls (fuel : nat) (bs : list Z) : list Z :=
  match fuel with
  | O => []
  | S fuel => match frame_of bs with ControlFrame type r => type :: controls fuel r | _ => [] end
  end.

(** The receive buffer, holding [bs]. *)
Record inbox (bs : list Z) (b : Buffer) : Prop := {
  ib_wf : wf b;
  ib_limit : read_limit_ b = size_max;
  ib_order : read_cursor_ b <= write_cursor_ b;
  ib_endian : endianness_ b = BigEndian;
  ib_data : is_Some (data_ b);
  ib_alloc : allocated_size_ b = ZNET_MAX_BUFFER_SIZE;
  ib_avail : avail b = bs
}.

Section Reading.
Context `{P : Platform} `{!AmplePlatform P} (clk : nat -> Z).

Lemma inbox_readable bs b : inbox bs b -> readable_bytes b = zlen bs /\ write_cursor_ b - read_cursor_ b = zlen bs /\ write_cursor_ b <= ZNET_MAX_BUFFER_SIZE.
Proof.
  intros [Hwf Hl Ho He [d Hd] Ha <-]. pose proof (readable_avail b Hwf) as Hr. split; [done|]. unfold readable_bytes in Hr. rewrite Hl in Hr.
  pose proof (wf_wc b Hwf). unfold size_max in Hr. rewrite Z.min_l in Hr by lia. destruct (Z.ltb_spec (write_cursor_ b) (read_cursor_ b)); [lia|]. split; [done|].
  pose proof (wf_store b Hwf) as Hs. unfold store_ok in Hs. rewrite Hd in Hs. lia.
Qed.

Lemma inbox_consumes bs p r b b' : inbox bs b -> consumes b p r b' -> data_ b' = data_ b -> allocated_size_ b' = allocated_size_ b -> inbox r b'.
Proof. intros [] [] Hd Ha. split; try congruence; lia. Qed.

Lemma ReadInt_frame n b : data_ (ReadInt n b).2 = data_ b /\ allocated_size_ (ReadInt n b).2 = allocated_size_ b.
Proof.
  unfold ReadInt, ReadNumber, load. destruct (CheckReadableBytes n b); cbn [negb]; [|done].
  destruct (data_ b) as [d|] eqn:Hd; repeat case_match; simplify_eq; cbn; rewrite ?Hd; done.
Qed.

Lemma read_int_inbox n v bs r b : inbox bs b -> 1 <= n < 2 ^ 31 -> 0 <= v < 256 ^ n -> bs = enc BigEndian n v ++ r ->
  exists b', ReadInt n b = (v, b') /\ inbox r b'.
Proof.
  intros Hi Hn Hv E. destruct (ReadInt_enc BigEndian n v b r (ib_wf _ _ Hi) (ib_endian _ _ Hi) Hn Hv) as (b' & E' & Hc); [by rewrite (ib_avail _ _ Hi)|].
  exists b'. split; [done|]. destruct (ReadInt_frame n b) as [Hd Ha]. rewrite E' in Hd, Ha. by eapply inbox_consumes.
Qed.

Lemma enc_be2 hi lo : is_byte hi -> is_byte lo -> enc BigEndian 2 (256 * hi + lo) = [hi; lo].
Proof.
  unfold is_byte. intros. unfold enc. rewrite decide_False by done. change (Z.to_nat 2) with 2%nat. cbn [le_bytes rev app].
  assert (E1 : (256 * hi + lo) mod 256 = lo) by (rewrite Z.mul_comm, Z.add_comm, Z.mod_add, Z.mod_small by lia; done).
  assert (E2 : (256 * hi + lo) / 256 = hi) by (rewrite Z.mul_comm, Z.div_add_l, Z.div_small by lia; lia).
  rewrite E1, E2, Z.mod_small by lia. done.
Qed.

Lemma Compact_inbox bs b : inbox bs b -> inbox bs (Compact b) /\ read_cursor_ (Compact b) = 0.
Proof.
  intros Hi. pose proof (inbox_readable bs b Hi) as (Hr & Hw & Hm). destruct Hi as [Hwf Hl Ho He [d Hd] Ha Hav]. unfold Compact.
  destruct (Z.eqb_spec (read_cursor_ b) 0) as [H0|H0]; [split; [split; done || by eexists|done]|].
  pose proof (wf_rc b Hwf). pose proof (wf_store b Hwf) as Hs. unfold store_ok in Hs. rewrite Hd in Hs. destruct Hs as (Hz & Hwa & Hok).
  assert (Eu : (if read_cursor_ b <? write_cursor_ b then write_cursor_ b - read_cursor_ b else 0) = zlen bs) by (destruct (Z.ltb_spec (read_cursor_ b) (write_cursor_ b)); lia).
  rewrite Eu. set (b1 := if 0 <? zlen bs then _ else b).
  assert (H1 : exists d1, data_ b1 = Some d1 /\ zlen d1 = zlen d /\ bytes_ok d1 /\ slice 0 (zlen bs) d1 = bs /\
    b1 = set_data (Some d1) b).
  { unfold b1. destruct (Z.ltb_spec 0 (zlen bs)).
    - rewrite (load_avail b bs []); [|done|unfold in_range; rewrite Hl; unfold size_max; lia|by rewrite app_nil_r].
      unfold store. rewrite Hd. destruct (Z.leb_spec 0 0); [|lia]. destruct (Z.leb_spec (0 + zlen bs) (zlen d)); [|lia]. cbn [andb].
      pose proof (avail_bytes_ok b Hwf) as Hbok. rewrite Hav in Hbok.
      eexists. split; [done|]. split; [rewrite length_splice; lia|]. split; [by apply splice_bytes_ok|]. split; [|done]. apply slice_splice_eq. lia.
    - exists d. rewrite Hd. split; [done|]. split; [done|]. split; [done|]. split; [destruct bs; [done|cbn in *; lia]|]. destruct b; cbn in *; by subst. }
  destruct H1 as (d1 & Hd1 & Hz1 & Hok1 & Hsl & Eb1).
  assert (Hwf' : wf (set_write_cursor (zlen bs) (set_read_cursor 0 b1))).
  { rewrite Eb1. destruct Hwf. split; try done; cbn; try lia. unfold store_ok. cbn. split; [lia|]. split; [lia|done]. }
  split; [|done]. rewrite Eb1 in *. split; try done; [cbn; lia|].
  unfold avail, readable_bytes. cbn. rewrite Hl. unfold size_max. change ZNET_MAX_BUFFER_SIZE with 4096 in *. rewrite Z.min_l by lia. destruct (Z.ltb_spec (zlen bs) 0); [lia|]. by rewrite Z.sub_0_r.
Qed.

Lemma Reset_inbox bs b : inbox bs b -> inbox [] (Reset false b).
Proof.
  intros [Hwf Hl Ho He [d Hd] Ha _]. pose proof (wf_store b Hwf) as Hs. unfold store_ok in Hs. rewrite Hd in Hs.
  split; try done; [|].
  - destruct Hwf. split; try done; cbn; try lia. unfold store_ok. cbn. rewrite Hd. destruct Hs as (? & ? & ?). split; [done|]. split; [lia|done].
  - unfold avail, readable_bytes. cbn. rewrite Hd, Hl. unfold size_max. cbn. done.
Qed.

(** Control frames touch only the sending side. *)
Lemma HandleControl_inbox type t : recv_buffer_ (HandleControl clk type t) = recv_buffer_ t /\ (type <> kControlPing -> is_closed_ (HandleControl clk type t) = is_closed_ t).
Proof.
  unfold HandleControl. destruct (Z.eqb_spec type kControlPing); [|done]. split; [|done]. unfold SendControl, WriteAll, IsClosed. destruct (is_closed_ t) eqn:Hc; [done|].
  rewrite andb_false_r. destruct (write_loop _ _) as [ [ [ok cl] rest] taken]. destruct cl, ok; done.
Qed.

(** Frame by frame, the receive loop does what the byte string says. *)
Definition left_at (o : Outcome * list Z) (ctl : list Z) (t : Tcp) (res : option Buffer * Tcp) : Prop :=
  inbox o.2 (recv_buffer_ res.2) /\ (o.1 <> Broken -> (kControlPing ∉ ctl) -> is_closed_ res.2 = is_closed_ t) /\
  match o.1 with
  | Message p => res.1 = Some (received LittleEndian p)
  | Broken => res.1 = None /\ is_closed_ res.2 = true /\ read_cursor_ (recv_buffer_ res.2) = 0
  | Starved => res.1 = None /\ read_cursor_ (recv_buffer_ res.2) = 0
  end.

Lemma starved_at bs t : inbox bs (recv_buffer_ t) -> left_at (Starved, bs) [] t (None, set_recv_buffer (Compact (recv_buffer_ t)) t).
Proof. intros Hi. destruct (Compact_inbox bs _ Hi). done. Qed.

Lemma read_frames_skims fuel bs t : inbox bs (recv_buffer_ t) -> bytes_ok bs -> left_at (skim fuel bs) (controls fuel bs) t (read_frames clk fuel t).
Proof.
  revert bs t. induction fuel as [|fuel IH]; intros bs t Hi Hok; [by apply starved_at|]. cbn [skim controls read_frames].
  destruct (inbox_readable bs _ Hi) as (Hr & _ & _). rewrite Hr. destruct bs as [|hi [|lo r] ]; [by apply starved_at|by apply starved_at|].
  apply Forall_cons in Hok as [Hhi Hok]. apply Forall_cons in Hok as [Hlo Hok]. cbn [length]. destruct (Z.leb_spec 2 (Z.of_nat (S (S (length r))))); [|lia].
  set (size := 256 * hi + lo). assert (Hs : 0 <= size < 65536) by (unfold size, is_byte in *; lia).
  destruct (read_int_inbox 2 size (hi :: lo :: r) r (recv_buffer_ t) Hi ltac:(lia) ltac:(lia)) as (b & E & Hb); [unfold size; by rewrite enc_be2|].
  rewrite E, (ib_alloc _ _ Hb). destruct (inbox_readable r b Hb) as (Hrb & _ & _). rewrite Hrb. unfold frame_of. fold size.
  destruct (Z.ltb_spec ZNET_MAX_BUFFER_SIZE (size + 2)); [split; [by apply (Reset_inbox r)|done]|].
  assert (Hback : inbox (hi :: lo :: r) (set_read_cursor (read_cursor_ (recv_buffer_ t)) b)).
  { pose proof (ReadInt_reads 2 (recv_buffer_ t) (ib_wf _ _ Hi) ltac:(lia)) as [Hw Hd Hwc Hl He]. rewrite E in *. cbn [snd] in *.
    pose proof (ib_alloc _ _ Hb) as Hal. destruct Hi as [Hwf Hl0 Ho He0 Hd0 Ha0 Hav0].
    split; try (cbn; congruence).
    - destruct Hw. split; try done; [apply Hwf|]. unfold store_ok in *. cbn. rewrite Hd in *. destruct (data_ (recv_buffer_ t)); [done|by destruct Hd0].
    - rewrite <- Hav0. unfold avail, readable_bytes. cbn. by rewrite Hd, Hwc, Hl. }
  destruct (Z.eqb_spec size 0) as [E0|E0].
  - destruct r as [|type r]; cbn [length]; [exact (starved_at _ (set_recv_buffer _ t) Hback)|].
    destruct (Z.ltb_spec (Z.of_nat (S (length r))) 1); [lia|]. apply Forall_cons in Hok as [Hty Hok].
    destruct (read_int_inbox 1 type (type :: r) r b Hb ltac:(lia) Hty) as (b2 & -> & Hb2).
    { unfold enc. rewrite decide_False by done. change (Z.to_nat 1) with 1%nat. cbn [le_bytes rev app]. by rewrite Z.mod_small. }
    destruct (HandleControl_inbox type (set_recv_buffer b2 t)) as [Hkeep Hclosed].
    destruct (IH r (HandleControl clk type (set_recv_buffer b2 t))) as (G1 & G2 & G3); [by rewrite Hkeep|done|]. split; [done|]. split; [|done].
    intros Hn Hc. rewrite G2, Hclosed; [done| |done|]; [intros ->|intros ?]; apply Hc; by constructor.
  - destruct (Z.ltb_spec (zlen r) size); [exact (starved_at _ (set_recv_buffer _ t) Hback)|].
    set (p := take (Z.to_nat size) r). assert (Hp : zlen p = size) by (unfold p; rewrite length_take; lia).
    assert (Er : avail b = p ++ drop (Z.to_nat size) r) by (rewrite (ib_avail _ _ Hb); unfold p; by rewrite take_drop).
    assert (Hin : in_range b) by (destruct Hb as [Hw Hl Ho _ _ _ _]; unfold in_range; rewrite Hl; pose proof (wf_wc _ Hw); unfold size_max; lia).
    pose proof (SkipRead_consumes b p _ (ib_wf _ _ Hb) Hin Er) as Hc. pose proof (load_avail b p _ (ib_wf _ _ Hb) Hin Er) as El. rewrite Hp in Hc, El.
    rewrite El. split; [|done]. by apply (inbox_consumes r p _ b).
Qed.

Lemma ReadBuffer_skims bs t : inbox bs (recv_buffer_ t) -> bytes_ok bs -> left_at (skim (S (length bs)) bs) (controls (S (length bs)) bs) t (ReadBuffer clk t).
Proof. intros Hi Hok. unfold ReadBuffer. destruct (inbox_readable bs _ Hi) as (-> & _). rewrite Nat2Z.id. by apply read_frames_skims. Qed.

Lemma frame_of_rest bs : bytes_ok bs -> match frame_of bs with ControlFrame _ r | DataFrame _ r => bytes_ok r | _ => True end.
Proof.
  intros Hok. destruct bs as [|hi [|lo r] ]; [done|done|]. apply Forall_cons in Hok as [_ Hok]. apply Forall_cons in Hok as [_ Hok]. unfold frame_of.
  repeat case_match; simplify_eq; try done; [by apply Forall_cons in Hok as [_ Hok]|by apply Forall_drop].
Qed.

(** What is left unparsed of a look that found no message leaves room. *)
Lemma skim_starved fuel bs : (length bs < fuel)%nat -> (skim fuel bs).1 = Starved -> frame_of (skim fuel bs).2 = NeedMore.
Proof.
  revert bs. induction fuel as [|fuel IH]; intros bs Hf; [lia|]. cbn [skim]. destruct (frame_of bs) as [| |type r|p r] eqn:E; [done..| |done].
  intros Hs. apply IH; [|done]. unfold frame_of in E. repeat case_match; simplify_eq; cbn in *; lia.
Qed.

Lemma skim_broken fuel bs : (skim fuel bs).1 = Broken -> (skim fuel bs).2 = [].
Proof. revert bs. induction fuel as [|fuel IH]; intros bs; [done|]. cbn [skim]. destruct (frame_of bs); try done. apply IH. Qed.

Lemma skim_message fuel bs : bytes_ok bs -> match skim fuel bs with (Message p, _) => 1 <= zlen p <= ZNET_MAX_BUFFER_SIZE - 2 /\ bytes_ok p | _ => True end.
Proof.
  revert bs. induction fuel as [|fuel IH]; intros bs Hok; [done|]. cbn [skim]. pose proof (frame_of_rest bs Hok) as Hrest.
  destruct (frame_of bs) as [| |type r|p r] eqn:E; [done|done|by apply IH|].
  unfold frame_of in E. destruct bs as [|hi [|lo r0] ]; [done|done|]. apply Forall_cons in Hok as [Hhi Hok]. apply Forall_cons in Hok as [Hlo Hok]. unfold is_byte in *.
  repeat case_match; simplify_eq. rewrite length_take. split; [lia|by apply Forall_take].
Qed.

Lemma starved_room bs : frame_of bs = NeedMore -> zlen bs < ZNET_MAX_BUFFER_SIZE.
Proof. unfold frame_of, ZNET_MAX_BUFFER_SIZE. intros E. repeat case_match; simplify_eq; cbn [length]; lia. Qed.

Lemma skim_bytes fuel bs : bytes_ok bs -> bytes_ok (skim fuel bs).2.
Proof.
  revert bs. induction fuel as [|fuel IH]; intros bs Hok; [done|]. cbn [skim]. pose proof (frame_of_rest bs Hok). destruct (frame_of bs); cbn [snd]; auto. constructor.
Qed.

End Reading.

(** ** The stream of a sender *)

Inductive Item := Data (m : list Z) | Control (type : Z).

Definition image (i : Item) : list Z :=
  match i with Data m => enc BigEndian 2 (zlen m) ++ m | Control type => [0; 0; type] end.

Definition item_ok (i : Item) : Prop :=
  match i with Data m => 1 <= zlen m <= ZNET_MAX_BUFFER_SIZE - 2 /\ bytes_ok m | Control type => is_byte type end.

Definition stream (items : list Item) : list Z := items ≫= image.

Definition payloads (items : list Item) : list (list Z) := omap (fun i => match i with Data m => Some m | Control _ => None end) items.

(** The length prefix is the two bytes of the length. *)
Lemma image_prefix m : 1 <= zlen m <= ZNET_MAX_BUFFER_SIZE - 2 -> exists hi lo, is_byte hi /\ is_byte lo /\ 256 * hi + lo = zlen m /\ image (Data m) = hi :: lo :: m.
Proof.
  unfold ZNET_MAX_BUFFER_SIZE. intros Hm. exists (zlen m / 256), (zlen m mod 256). pose proof (Z.div_mod (zlen m) 256 ltac:(lia)) as E.
  pose proof (Z.mod_pos_bound (zlen m) 256 ltac:(lia)) as Hb. assert (Hd : is_byte (zlen m / 256)) by (unfold is_byte; lia).
  split; [done|]. split; [done|]. split; [lia|]. unfold image. rewrite E at 1. by rewrite enc_be2.
Qed.

Lemma image_bytes i : item_ok i -> bytes_ok (image i).
Proof.
  destruct i as [m|type]; [|intros H; repeat (constructor; [done|]); constructor].
  intros [_ H]. apply bytes_ok_app. split; [apply enc_bytes_ok|done].
Qed.

Lemma stream_bytes items : Forall item_ok items -> bytes_ok (stream items).
Proof. induction 1; [constructor|]. unfold stream. csimpl. apply bytes_ok_app. split; [by apply image_bytes|done]. Qed.

Lemma frame_of_image i r : item_ok i -> frame_of (image i ++ r) = match i with Data m => DataFrame m r | Control type => ControlFrame type r end.
Proof.
  destruct i as [m|type]; [|done]. intros [Hm _]. destruct (image_prefix m Hm) as (hi & lo & _ & _ & E & ->). unfold frame_of. cbn [app]. rewrite E.
  destruct (Z.ltb_spec ZNET_MAX_BUFFER_SIZE (zlen m + 2)); [unfold ZNET_MAX_BUFFER_SIZE in *; lia|]. destruct (Z.eqb_spec (zlen m) 0); [lia|]. rewrite length_app.
  destruct (Z.ltb_spec (Z.of_nat (length m + length r)) (zlen m)); [lia|]. rewrite Nat2Z.id. by rewrite take_app_length, drop_app_length.
Qed.

(** Less than a frame is not yet one. *)
Lemma frame_of_partial i bs s : item_ok i -> bs ++ s = image i -> s <> [] -> frame_of bs = NeedMore.
Proof.
  intros Hi E Hs. assert (HL : (length bs < length (image i))%nat) by (rewrite <- E, length_app; destruct s; [done|cbn; lia]).
  destruct bs as [|a [|b bs] ]; [done|done|]. destruct i as [m|type].
  - destruct (proj1 Hi) as [Hm1 Hm2]. destruct (image_prefix m (proj1 Hi)) as (hi & lo & _ & _ & E2 & Ei). rewrite Ei in *. cbn in E. injection E as -> -> E.
    unfold frame_of. rewrite E2. destruct (Z.ltb_spec ZNET_MAX_BUFFER_SIZE (zlen m + 2)); [unfold ZNET_MAX_BUFFER_SIZE in *; lia|]. destruct (Z.eqb_spec (zlen m) 0); [lia|].
    cbn [length] in HL. destruct (Z.ltb_spec (zlen bs) (zlen m)); [done|lia].
  - cbn in E. injection E as -> -> E. destruct bs as [|c bs]; [done|]. cbn in HL. lia.
Qed.

(** A look at the bytes of a stream that have arrived. *)
Lemma skim_stream fuel items bs rest : Forall item_ok items -> bs ++ rest = stream items -> (length bs < fuel)%nat ->
  exists items', Forall item_ok items' /\ (skim fuel bs).2 ++ rest = stream items' /\
    (forall c, c ∈ controls fuel bs -> Control c ∈ items) /\ (forall i, i ∈ items' -> i ∈ items) /\
    match (skim fuel bs).1 with
    | Message p => payloads items = p :: payloads items' /\ bytes_ok p /\ 1 <= zlen p <= ZNET_MAX_BUFFER_SIZE - 2
    | Starved => payloads items = payloads items' /\ (rest = [] -> items' = [])
    | Broken => False
    end.
Proof.
  revert items bs. induction fuel as [|fuel IH]; intros items bs Hok E Hf; [lia|]. cbn [skim controls].
  assert (Hstop : frame_of bs = NeedMore -> (rest = [] -> items = []) -> exists items', Forall item_ok items' /\ bs ++ rest = stream items' /\
    (forall c, c ∈ ([] : list Z) -> Control c ∈ items) /\ (forall i, i ∈ items' -> i ∈ items) /\ (payloads items = payloads items' /\ (rest = [] -> items' = []))).
  { intros _ Hr. exists items. split; [done|]. split; [done|]. split; [intros c Hc; by apply not_elem_of_nil in Hc|]. split; [done|]. done. }
  destruct items as [|i items].
  { cbn in E. apply app_eq_nil in E as [-> ->]. cbn. by apply Hstop. }
  pose proof Hok as Hoki. apply Forall_cons in Hoki as [Hi Hoks]. unfold stream in E. csimpl in E. fold (stream items) in E.
  destruct (decide (length bs < length (image i))%nat) as [Hlt|Hge].
  - assert (Hp : exists s, bs ++ s = image i /\ s <> []).
    { exists (drop (length bs) (image i)). assert (Eb : bs = take (length bs) (image i)).
      { rewrite <- (take_app_length bs rest) at 1. rewrite E. by rewrite take_app_le by lia. }
      split; [rewrite Eb at 1; apply take_drop|]. intros Hd. apply (f_equal length) in Hd. rewrite length_drop in Hd. cbn in Hd. lia. }
    destruct Hp as (s & Es & Hs). pose proof (frame_of_partial i bs s Hi Es Hs) as En. rewrite En. cbn [fst snd].
    apply Hstop; [done|]. intros ->. rewrite app_nil_r in E. apply (f_equal length) in E. rewrite length_app in E. lia.
  - assert (Hb : exists bs1, bs = image i ++ bs1 /\ bs1 ++ rest = stream items).
    { exists (drop (length (image i)) bs). assert (Eb : image i = take (length (image i)) bs).
      { rewrite <- (take_app_length (image i) (stream items)) at 1. rewrite <- E. by rewrite take_app_le by lia. }
      split; [rewrite Eb at 1; by rewrite take_drop|]. apply (app_inv_head (image i)). rewrite <- E, app_assoc. f_equal. rewrite Eb at 1. apply take_drop. }
    destruct Hb as (bs1 & -> & E1). rewrite frame_of_image by done. assert (Hpos : (0 < length (image i))%nat).
    { destruct i as [m|]; cbn; [rewrite length_app; destruct Hi as [? _]; lia|lia]. }
    rewrite length_app in Hf. destruct i as [m|type]; cbn [fst snd].
    + exists items. split; [done|]. split; [done|]. split; [intros c Hc; by apply not_elem_of_nil in Hc|]. split; [intros x Hx; by right|]. destruct Hi. by split.
    + destruct (IH items bs1 Hoks E1 ltac:(lia)) as (items' & H1 & H2 & H3 & H4 & H5). exists items'. split; [done|]. split; [done|].
      split; [|split; [intros x Hx; right; by apply H4|done] ]. intros c Hc. apply elem_of_cons in Hc as [->|Hc]; [left|right; by apply H3].
Qed.

(** ** Receiving *)

Section Receiving.
Context `{P : Platform} `{!AmplePlatform P} (clk : nat -> Z).

Lemma append_inbox bs new b : inbox bs b -> zlen bs + zlen new <= ZNET_MAX_BUFFER_SIZE -> bytes_ok new -> read_cursor_ b = 0 ->
  inbox (bs ++ new) (CommitWrite (zlen new) (store (write_cursor_ b) new b)).
Proof.
  intros Hi HL Hok H0. destruct (inbox_readable bs b Hi) as (_ & Hw & _). destruct Hi as [Hwf Hl Ho He Hd Ha Hav].
  destruct (store_appends new b Hwf Hl Ho Hok Hd ltac:(lia)) as [A1 A2 A3 A4 A5 A6]. destruct (store_keeps (write_cursor_ b) new b) as (K1 & K2 & _).
  split; [done|congruence|lia|congruence|by apply K2|by cbn; rewrite K1|by rewrite A6, Hav].
Qed.

Lemma room_of bs b : inbox bs b -> read_cursor_ b = 0 -> writable_bytes b = ZNET_MAX_BUFFER_SIZE - zlen bs.
Proof.
  intros Hi H0. destruct (inbox_readable bs b Hi) as (_ & Hw & Hm). unfold writable_bytes. rewrite (ib_alloc _ _ Hi). unfold ZNET_MAX_BUFFER_SIZE in *.
  rewrite u64_small by (unfold size_max; pose proof (wf_wc _ (ib_wf _ _ Hi)); lia). lia.
Qed.

(** A look that comes to nothing leaves room for more. *)
Lemma skim_room bs : match skim (S (length bs)) bs with (Message _, _) => True | (_, r) => zlen r < ZNET_MAX_BUFFER_SIZE end.
Proof.
  destruct (skim (S (length bs)) bs) as [ [p| |] r] eqn:E; [done| |].
  - pose proof (skim_broken (S (length bs)) bs) as Hb. rewrite E in Hb. specialize (Hb eq_refl). cbn in Hb. subst. cbn. unfold ZNET_MAX_BUFFER_SIZE. lia.
  - pose proof (skim_starved (S (length bs)) bs ltac:(lia)) as Hs. rewrite E in Hs. by apply starved_room, Hs.
Qed.

(** A call of [Receive]: a message already there, or what recv() is asked for. *)
Lemma Receive_cases recv bs t : inbox bs (recv_buffer_ t) -> bytes_ok bs ->
  match skim (S (length bs)) bs with
  | (Message p, r) => Receive clk recv t = ReadBuffer clk t
  | (_, r) =>
      let t1 := (ReadBuffer clk t).2 in
      inbox r (recv_buffer_ t1) /\ read_cursor_ (recv_buffer_ t1) = 0 /\ zlen r < ZNET_MAX_BUFFER_SIZE /\ (ReadBuffer clk t).1 = None /\
      writable_bytes (recv_buffer_ t1) = ZNET_MAX_BUFFER_SIZE - zlen r /\ Receive clk recv t = on_recv clk (recv (ZNET_MAX_BUFFER_SIZE - zlen r)) t1
  end.
Proof.
  intros Hi Hok. pose proof (ReadBuffer_skims clk bs t Hi Hok) as (H1 & _ & H2). pose proof (skim_room bs) as Hr. unfold Receive.
  destruct (ReadBuffer clk t) as [res t1]. destruct (skim _ _) as [ [p| |] r]; cbn [fst snd] in *; [by subst| |].
  - destruct H2 as (-> & _ & H0). pose proof (room_of r _ H1 H0) as Hw. rewrite Hw. done.
  - destruct H2 as (-> & H0). pose proof (room_of r _ H1 H0) as Hw. rewrite Hw. done.
Qed.

(** Bytes that arrive are looked at behind those there were. *)
Lemma on_recv_got new bs t : inbox bs (recv_buffer_ t) -> read_cursor_ (recv_buffer_ t) = 0 -> zlen bs + zlen new <= ZNET_MAX_BUFFER_SIZE -> bytes_ok new -> new <> [] ->
  exists t2, is_closed_ t2 = is_closed_ t /\ inbox (bs ++ new) (recv_buffer_ t2) /\ on_recv clk (Got new) t = ReadBuffer clk t2.
Proof.
  intros Hi H0 HL Hok Hne. destruct new as [|x new]; [done|]. eexists. split; [|split; [|reflexivity] ]; [done|]. by apply append_inbox.
Qed.

(** ** Any peer *)

(** recv() keeps to the room it is offered. *)
Definition respects (recv : Z -> RecvAnswer) : Prop :=
  forall room, 0 <= room -> match recv room with Got bs => zlen bs <= room /\ bytes_ok bs | _ => True end.

(** What a transport goes through. *)
Inductive tcp_step (t : Tcp) : Tcp -> Prop :=
  | step_receive recv : respects recv -> tcp_step t (Receive clk recv t).2
  | step_send b : tcp_step t (Send clk b t).2
  | step_update : tcp_step t (Update clk t)
  | step_close : tcp_step t (Close t).

Definition sound (t : Tcp) : Prop := exists bs, inbox bs (recv_buffer_ t) /\ bytes_ok bs.

Lemma WriteAll_keeps b t : recv_buffer_ (WriteAll clk b t).2 = recv_buffer_ t.
Proof. unfold WriteAll. destruct (_ && _); [done|]. destruct (write_loop _ _) as [ [ [ok cl] rest] taken]. by destruct cl, ok. Qed.

Lemma SendControl_keeps type t : recv_buffer_ (SendControl clk type t) = recv_buffer_ t.
Proof. unfold SendControl. destruct (IsClosed t); [done|]. apply WriteAll_keeps. Qed.

Lemma ReadBuffer_sound t : sound t -> sound (ReadBuffer clk t).2.
Proof. intros (bs & Hi & Hok). destruct (ReadBuffer_skims clk bs t Hi Hok) as (H & _). eexists. split; [exact H|by apply skim_bytes]. Qed.

Lemma Receive_sound recv t : respects recv -> sound t -> sound (Receive clk recv t).2.
Proof.
  intros Hrecv (bs & Hi & Hok). pose proof (Receive_cases recv bs t Hi Hok) as H. pose proof (skim_bytes (S (length bs)) bs Hok) as Hrok.
  assert (Hs : sound t) by (by exists bs). pose proof (ReadBuffer_sound t Hs) as Hs1.
  destruct (skim _ _) as [ [p| |] r]; [by rewrite H|..]; destruct H as (H1 & H0 & HL & _ & _ & ->); cbn [snd] in Hrok;
    specialize (Hrecv (ZNET_MAX_BUFFER_SIZE - zlen r) ltac:(lia)); (destruct (recv _) as [ [|x new]| |]; [done| |done|done]); destruct Hrecv as [Hfit Hnew];
    (destruct (on_recv_got (x :: new) r _ H1 H0 ltac:(lia) Hnew ltac:(done)) as (t2 & _ & Hi2 & ->)); apply ReadBuffer_sound; eexists; (split; [exact Hi2|by apply bytes_ok_app]).
Qed.

Lemma tcp_step_sound t t' : tcp_step t t' -> sound t -> sound t'.
Proof.
  intros [recv Hr|b| |] Hs; [by apply Receive_sound| | |done]; destruct Hs as (bs & Hi & Hok); exists bs; (split; [|done]).
  - unfold Send. repeat case_match; try done; by rewrite WriteAll_keeps.
  - unfold Update, IsClosed, now. destruct (is_closed_ t); [done|]. destruct (_ && _); [done|]. destruct (_ && _); [by rewrite SendControl_keeps|done].
Qed.

Lemma tcp_run_sound t t' : rtc tcp_step t t' -> sound t -> sound t'.
Proof. induction 1; eauto using tcp_step_sound. Qed.

Lemma new_inbox keepalive idle answers : inbox [] (recv_buffer_ (TCPTransportLayer_new clk keepalive idle answers)).
Proof.
  unfold TCPTransportLayer_new. cbn [recv_buffer_]. unfold ReserveExact, Reserve, ZNET_MAX_BUFFER_SIZE. cbn [Buffer_new data_].
  destruct (alloc_ample 4096 ltac:(lia)) as [d Hd]. rewrite Hd. pose proof (alloc_length _ _ Hd). pose proof (alloc_bytes _ _ Hd). cbn.
  by split.
Qed.

End Receiving.

(** [C34] Whatever the peer sends, in whatever pieces, and whatever the
    application does in between, the transport stays within its receive buffer:
    no byte is read or written outside it; whenever recv() is called it is
    offered room, so that a full buffer can never be taken for the end of the
    stream; and every message handed up has between 1 and 4094 bytes. *)
Theorem tcp_hostile_safe (P : Platform) (A : AmplePlatform P) (clk : nat -> Z) (keepalive idle : Z) (answers : list SendAnswer) (t : Tcp)
  (H : rtc (tcp_step clk) (TCPTransportLayer_new clk keepalive idle answers) t) :
  ub_ (recv_buffer_ t) = false /\
  ((ReadBuffer clk t).1 = None -> 1 <= writable_bytes (recv_buffer_ (ReadBuffer clk t).2)) /\
  forall recv b, respects recv -> (Receive clk recv t).1 = Some b -> opened b /\ 1 <= zlen (avail b) <= ZNET_MAX_BUFFER_SIZE - 2.
Proof.
  assert (Hs : sound t) by (apply (tcp_run_sound clk _ t H); exists []; split; [apply new_inbox|constructor]).
  assert (Hout : forall t1, sound t1 -> forall b, (ReadBuffer clk t1).1 = Some b -> opened b /\ 1 <= zlen (avail b) <= ZNET_MAX_BUFFER_SIZE - 2).
  { intros t1 (bs1 & Hi1 & Hok1) b E. destruct (ReadBuffer_skims clk bs1 t1 Hi1 Hok1) as (_ & _ & Ho). pose proof (skim_message (S (length bs1)) bs1 Hok1) as Hm.
    destruct (skim _ _) as [ [p| |] r]; cbn [fst] in Ho; [|by rewrite (proj1 Ho) in E..]. rewrite Ho in E. injection E as <-. destruct Hm as [Hp Hpok].
    destruct (received_opened p Hpok) as (? & -> & _); [unfold ZNET_MAX_BUFFER_SIZE in *; lia|done]. }
  destruct Hs as (bs & Hi & Hok). split; [apply (wf_ub _ (ib_wf _ _ Hi))|]. split.
  - intros En. pose proof (Receive_cases clk (fun _ => WouldBlock) bs t Hi Hok) as Hc. pose proof (ReadBuffer_skims clk bs t Hi Hok) as (_ & _ & Ho).
    destruct (skim _ _) as [ [p| |] r]; cbn [fst] in Ho; [by rewrite Ho in En|..]; destruct Hc as (_ & _ & HL & _ & -> & _); lia.
  - intros recv b Hr E. pose proof (Receive_cases clk recv bs t Hi Hok) as Hc. pose proof (skim_bytes (S (length bs)) bs Hok) as Hrok.
    destruct (skim _ _) as [ [p| |] r]; [rewrite Hc in E; apply (Hout t); [by exists bs|done]|..]; destruct Hc as (H1 & H0 & HL & _ & _ & Ec); rewrite Ec in E;
      specialize (Hr (ZNET_MAX_BUFFER_SIZE - zlen r) ltac:(lia)); (destruct (recv _) as [ [|x new]| |]; [done| |done|done]); destruct Hr as [Hfit Hnew];
      (destruct (on_recv_got clk (x :: new) r _ H1 H0 ltac:(lia) Hnew ltac:(done)) as (t2 & _ & Hi2 & E2)); rewrite E2 in E;
      (apply (Hout t2); [|done]); eexists; (split; [exact Hi2|by apply bytes_ok_app]).
Qed.

(** ** A sender and a receiver *)

(** The stream between them: [pending] has been sent and not yet received, and
    the next recv() gives at most [n] bytes of it. *)
Definition kernel (pending : list Z) (n : nat) (room : Z) : RecvAnswer :=
  if room <=? 0 then Got [] else match take (Nat.min n (Z.to_nat room)) pending with [] => WouldBlock | bs => Got bs end.

Section Stream.
Context `{P : Platform} `{!AmplePlatform P} (clk : nat -> Z).

(** A call of [Receive] on the receiving side, and what is then still pending. *)
Definition pull (n : nat) (pending : list Z) (t : Tcp) : option Buffer * list Z * Tcp :=
  let '(r, t1) := ReadBuffer clk t in
  let taken := match r with Some _ => 0%nat | None => Nat.min n (Z.to_nat (writable_bytes (recv_buffer_ t1))) end in
  let '(r, t) := Receive clk (kernel pending n) t in (r, drop taken pending, t).

Fixpoint pulls (ns : list nat) (pending : list Z) (t : Tcp) : list (list Z) * list Z * Tcp :=
  match ns with
  | [] => ([], pending, t)
  | n :: ns =>
      let '(r, pending, t) := pull n pending t in
      let '(out, pending, t) := pulls ns pending t in
      (option_list (avail <$> r) ++ out, pending, t)
  end.

(** The receiver in the middle of the stream of [items]. *)
Record midway (items : list Item) (pending : list Z) (t : Tcp) : Prop := {
  mw_ok : Forall item_ok items;
  mw_quiet : Control kControlPing ∉ items;
  mw_bytes : exists bs, inbox bs (recv_buffer_ t) /\ bs ++ pending = stream items
}.

(** A look at what is there. *)
Lemma look items pending t : midway items pending t ->
  exists items', midway items' pending (ReadBuffer clk t).2 /\ is_closed_ (ReadBuffer clk t).2 = is_closed_ t /\
    match (ReadBuffer clk t).1 with
    | Some b => payloads items = avail b :: payloads items'
    | None => payloads items = payloads items' /\ (pending = [] -> items' = [])
    end.
Proof.
  intros [Hok Hq (bs & Hi & E)]. assert (Hbok : bytes_ok bs) by (pose proof (stream_bytes items Hok) as H; rewrite <- E in H; by apply bytes_ok_app in H as [? _]).
  destruct (skim_stream (S (length bs)) items bs pending Hok E ltac:(lia)) as (items' & Hok' & E' & Hctl & Hsub & Hout).
  destruct (ReadBuffer_skims clk bs t Hi Hbok) as (H1 & H2 & H3). exists items'. destruct (skim _ _) as [o r]. cbn [fst snd] in *.
  split; [split; [done|by intros ?%Hsub|by exists r]|]. split; [apply H2; [by intros ->|by intros ?%Hctl]|].
  destruct o as [p| |]; [|done|by rewrite (proj1 H3)]. rewrite H3. destruct Hout as (-> & Hp & HL). unfold ZNET_MAX_BUFFER_SIZE in HL.
  destruct (received_opened p Hp) as (_ & -> & _); [lia|done].
Qed.

Lemma pull_step n items pending t : midway items pending t ->
  let '(r, pending', t') := pull n pending t in
  exists items', midway items' pending' t' /\ is_closed_ t' = is_closed_ t /\
    payloads items = option_list (avail <$> r) ++ payloads items' /\
    ((1 <= n)%nat -> (length pending' + length (payloads items') < length pending + length (payloads items))%nat \/ items' = []).
Proof.
  intros Hm. pose proof Hm as [Hok Hq (bs & Hi & E)].
  assert (Hbok : bytes_ok bs /\ bytes_ok pending) by (pose proof (stream_bytes items Hok) as H; rewrite <- E in H; by apply bytes_ok_app in H).
  pose proof (Receive_cases clk (kernel pending n) bs t Hi (proj1 Hbok)) as Hc. destruct (look items pending t Hm) as (items1 & Hm1 & Hcl & Hout).
  pose proof (ReadBuffer_skims clk bs t Hi (proj1 Hbok)) as (Hi1 & _ & Ho). unfold pull. destruct (ReadBuffer clk t) as [res t1] eqn:Er. cbn [fst snd] in *.
  destruct (skim _ _) as [ [p| |] r] eqn:Es; cbn [fst snd] in *.
  - subst res. rewrite Hc. exists items1. cbn [option_list fmap option_fmap option_map app] in *. rewrite drop_0. split; [done|]. split; [done|]. split; [done|]. intros _. left. rewrite Hout. cbn [length]. lia.
  - exfalso. destruct (skim_stream (S (length bs)) items bs pending Hok E ltac:(lia)) as (? & _ & _ & _ & _ & Hno). by rewrite Es in Hno.
  - destruct Hc as (_ & H0 & HL & -> & Hw & ->). destruct Hout as [Hpay Hend]. rewrite Hw. set (room := ZNET_MAX_BUFFER_SIZE - zlen r) in *.
    unfold kernel. destruct (Z.leb_spec room 0); [lia|]. set (k := Nat.min n (Z.to_nat room)).
    destruct (take k pending) as [|x new] eqn:Et.
    { cbn [on_recv]. exists items1. assert (Hd : drop k pending = pending) by (rewrite <- (take_drop k pending) at 2; by rewrite Et). rewrite Hd. split; [done|]. split; [done|]. split; [done|].
      intros Hn. right. apply Hend. destruct pending; [done|]. exfalso. destruct k as [|k'] eqn:Ek; [lia|done]. }
    assert (Hnew : bytes_ok (x :: new)) by (rewrite <- Et; apply Forall_take, Hbok).
    assert (Hfit : zlen r + zlen (x :: new) <= ZNET_MAX_BUFFER_SIZE) by (rewrite <- Et, length_take; lia).
    destruct (on_recv_got clk (x :: new) r t1 Hi1 H0 Hfit Hnew ltac:(done)) as (t2 & Hc2 & Hi2 & ->).
    assert (Hm2 : midway items1 (drop k pending) t2).
    { destruct Hm1 as [Hok1 Hq1 (r' & Hr' & E')]. assert (r' = r) as -> by (rewrite <- (ib_avail _ _ Hr'); apply (ib_avail _ _ Hi1)).
      split; [done|done|]. exists (r ++ x :: new). split; [done|]. rewrite <- E', <- Et, <- app_assoc. by rewrite take_drop. }
    destruct (look items1 _ t2 Hm2) as (items2 & Hm3 & Hcl3 & Hout3). destruct (ReadBuffer clk t2) as [res t3]. cbn [fst snd] in *.
    exists items2. split; [done|]. split; [congruence|].
    assert (Hlt : (length (drop k pending) < length pending)%nat) by (apply (f_equal length) in Et; rewrite length_take in Et; rewrite length_drop; cbn in Et; lia).
    destruct res as [b|]; cbn [option_list fmap option_fmap option_map app].
    + split; [by rewrite Hpay, Hout3|]. intros _. left. rewrite Hpay, Hout3. cbn [length]. lia.
    + destruct Hout3 as [Hp3 _]. split; [by rewrite Hpay, Hp3|]. intros _. left. rewrite Hpay, Hp3. lia.
Qed.

Lemma pulls_run ns items pending t : midway items pending t ->
  let '(out, pending', t') := pulls ns pending t in
  exists rest, payloads items = out ++ payloads rest /\ is_closed_ t' = is_closed_ t /\
    (Forall (fun n => 1 <= n)%nat ns -> (length pending + length (payloads items) <= length ns)%nat -> payloads rest = []).
Proof.
  revert items pending t. induction ns as [|n ns IH]; intros items pending t Hm.
  { exists items. split; [done|]. split; [done|]. intros _ HL. cbn in HL. apply length_zero_iff_nil. lia. }
  cbn [pulls]. pose proof (pull_step n items pending t Hm) as H. destruct (pull n pending t) as [ [r pending1] t1].
  destruct H as (items1 & Hm1 & Hc1 & Hp1 & Hprog). specialize (IH items1 pending1 t1 Hm1). destruct (pulls ns pending1 t1) as [ [out pending2] t2].
  destruct IH as (rest & Hp2 & Hc2 & Hdone). exists rest. split; [by rewrite Hp1, Hp2, app_assoc|]. split; [congruence|].
  intros Hns HL. apply Forall_cons in Hns as [Hn Hns]. cbn [length] in HL. destruct (Hprog Hn) as [Hlt | ->]; [apply Hdone; [done|lia]|].
  cbn in Hp2. symmetry in Hp2. by apply app_eq_nil in Hp2 as [_ ?].
Qed.

End Stream.

Section Sending.
Context `{P : Platform} `{!AmplePlatform P} (clk : nat -> Z).

(** A send loop takes its bytes in order, all of them exactly if it succeeds. *)
Lemma write_loop_takes answers data : let '(ok, closed, _, taken) := write_loop answers data in
  exists left, data = taken ++ left /\ (ok = true <-> left = []) /\ (ok = true -> closed = false).
Proof.
  revert data. induction answers as [|a answers IH]; intros [|x data]; cbn [write_loop]; try (by exists []); [by exists (x :: data)|].
  destruct a as [n| | | |]; try (by exists (x :: data)); [|apply IH].
  specialize (IH (drop (Pos.to_nat n) (x :: data))). destruct (write_loop _ _) as [ [ [ok cl] rest] taken]. destruct IH as (s & E & H).
  exists s. split; [|done]. rewrite <- app_assoc, <- E. by rewrite take_drop.
Qed.

Lemma WriteAll_sent b t : opened b -> let '(ok, t') := WriteAll clk b t in
  exists taken left, avail b = taken ++ left /\ sent_ t' = sent_ t ++ taken /\ (ok = true <-> left = []).
Proof.
  intros Ho. unfold WriteAll. rewrite load_opened by done. destruct ((0 <? zlen (avail b)) && IsClosed t) eqn:Ec.
  { exists [], (avail b). rewrite app_nil_r. split; [done|]. split; [done|]. split; [done|]. intros E. rewrite E in Ec. done. }
  pose proof (write_loop_takes (answers_ t) (avail b)) as H. destruct (write_loop _ _) as [ [ [ok cl] rest] taken]. destruct H as (s & E & Hok & _).
  destruct cl, ok; cbn; exists taken, s; done.
Qed.

Lemma u8_prefix n : 1 <= n <= ZNET_MAX_BUFFER_SIZE - 2 -> [u8 (Z.shiftr n 8); u8 (Z.land n 255)] = enc BigEndian 2 n.
Proof.
  unfold ZNET_MAX_BUFFER_SIZE. intros Hn. pose proof (Z.div_mod n 256 ltac:(lia)) as E. pose proof (Z.mod_pos_bound n 256 ltac:(lia)).
  assert (E1 : Z.shiftr n 8 = n / 256) by (by rewrite Z.shiftr_div_pow2). assert (E2 : Z.land n 255 = n mod 256) by (change 255 with (Z.ones 8); by rewrite Z.land_ones).
  rewrite E1, E2, !u8_small by lia. rewrite E at 3. by rewrite enc_be2 by (unfold is_byte; lia).
Qed.

(** A message of a size [Send] takes goes to the socket as its frame, in place or
    copied. *)
Lemma framed_image b t : opened b -> 1 <= zlen (avail b) -> zlen (avail b) + 2 < ZNET_MAX_BUFFER_SIZE - 48 -> is_closed_ t = false ->
  exists fb, opened fb /\ avail fb = image (Data (avail b)) /\ Send clk b t = WriteAll clk fb t.
Proof.
  intros Ho H1 HL Hc. unfold Send, IsClosed. rewrite Hc. pose proof (readable_avail b (op_wf _ Ho)) as Hr. rewrite Hr. unfold ZNET_MAX_BUFFER_SIZE in *.
  destruct (Z.eqb_spec (zlen (avail b)) 0); [lia|]. rewrite u64_small by (unfold size_max; lia).
  destruct (Z.leb_spec (4096 - 48) (zlen (avail b) + 2)); [lia|]. destruct (Z.ltb_spec 65535 (zlen (avail b))); [lia|]. cbn [orb].
  pose proof (avail_bytes_ok b (op_wf _ Ho)) as Hok. set (m := avail b) in *. assert (Hpre : [u8 (Z.shiftr (zlen m) 8); u8 (Z.land (zlen m) 255)] = enc BigEndian 2 (zlen m)) by (apply u8_prefix; unfold ZNET_MAX_BUFFER_SIZE; lia).
  destruct (Z.leb_spec 2 (read_cursor_ b)) as [H2|H2].
  - assert (Hd : is_Some (data_ b)).
    { pose proof (wf_store _ (op_wf _ Ho)) as Hs. unfold store_ok in Hs. destruct (data_ b); [by eexists|]. destruct (opened_avail b Ho) as [_ Hl]. rewrite Hr in Hl. lia. }
    destruct (PrependInt8_avail (u8 (Z.land (zlen m) 255)) b) as (b1 & -> & Ho1 & Ha1 & Hr1 & Hd1 & _); [split; [done|lia|done]|]. cbn [snd].
    destruct (PrependInt8_avail (u8 (Z.shiftr (zlen m) 8)) b1) as (b2 & -> & Ho2 & Ha2 & _); [split; [done|lia|done]|]. cbn [snd].
    exists b2. split; [done|]. split; [|done]. rewrite Ha2, Ha1. fold m. rewrite !(u8_small (u8 _)) by apply u8_range. unfold image. by rewrite <- Hpre.
  - destruct (reserve_fresh 0 (zlen m + 2)) as (R & _ & _ & Ha & _); [lia|lia|]. change (ReserveHeadroom 0 (Buffer_new LittleEndian)) with (Buffer_new LittleEndian) in *.
    replace (zlen m + 2 - 0) with (1 + (1 + (zlen m + 0))) in R by lia. set (b0 := (ReserveExact _ _).2) in *.
    pose proof (WriteInt_filled 1 (u8 (Z.shiftr (zlen m) 8)) _ b0 R ltac:(lia) ltac:(lia)) as F1.
    pose proof (WriteInt_filled 1 (u8 (Z.land (zlen m) 255)) _ _ (fi_roomy _ _ _ _ F1) ltac:(lia) ltac:(lia)) as F2.
    assert (El : (load (read_cursor_ b) (zlen m) b).1 = m) by (rewrite <- Hr; by apply load_opened). rewrite El.
    pose proof (Write_filled m 0 _ (fi_roomy _ _ _ _ F2) Hok ltac:(lia)) as F3. pose proof (filled_trans _ _ _ _ _ _ _ F1 (filled_trans _ _ _ _ _ _ _ F2 F3)) as F.
    eexists. split; [apply (fi_roomy _ _ _ _ F)|]. split; [|done]. rewrite (fi_avail _ _ _ _ F), Ha. unfold image. rewrite <- Hpre. unfold enc. rewrite !decide_True by done.
    change (Z.to_nat 1) with 1%nat. cbn [le_bytes app]. rewrite !(Z.mod_small (u8 _)) by apply u8_range. done.
Qed.

(** [Send] refuses a message, or writes its frame or a part of it and says which. *)
Lemma Send_frames b t : opened b -> let '(ok, t') := Send clk b t in
  (ok = false /\ t' = t) \/
  (item_ok (Data (avail b)) /\ exists taken left, image (Data (avail b)) = taken ++ left /\ sent_ t' = sent_ t ++ taken /\ (ok = true <-> left = [])).
Proof.
  intros Ho. destruct (decide (is_closed_ t = false /\ 1 <= zlen (avail b) /\ zlen (avail b) + 2 < ZNET_MAX_BUFFER_SIZE - 48)) as [(Hc & H1 & HL)|Hno].
  - destruct (framed_image b t Ho H1 HL Hc) as (fb & Hfo & Hfa & ->). pose proof (WriteAll_sent fb t Hfo) as H. destruct (WriteAll clk fb t) as [ok t'].
    rewrite Hfa in H. right. split; [|done]. split; [lia|by apply avail_bytes_ok, Ho].
  - unfold Send, IsClosed. destruct (is_closed_ t); [by left|]. rewrite (readable_avail b (op_wf _ Ho)). destruct (Z.eqb_spec (zlen (avail b)) 0); [by left|].
    assert (Hge : (ZNET_MAX_BUFFER_SIZE - 48 <=? u64 (zlen (avail b) + 2)) || (65535 <? zlen (avail b)) = true); [|rewrite Hge; by left].
    apply orb_true_iff. destruct (Z.ltb_spec 65535 (zlen (avail b))); [by right|left]. rewrite u64_small by (unfold size_max; lia). apply Z.leb_le.
    destruct (decide (ZNET_MAX_BUFFER_SIZE - 48 <= zlen (avail b) + 2)); [done|]. exfalso. apply Hno. split; [done|]. lia.
Qed.

(** Messages sent one after the other; whether all were. *)
Fixpoint send_all (msgs : list Buffer) (t : Tcp) : bool * Tcp :=
  match msgs with
  | [] => (true, t)
  | b :: msgs => let '(ok, t) := Send clk b t in let '(oks, t) := send_all msgs t in (ok && oks, t)
  end.

Lemma send_all_stream msgs t t' : Forall opened msgs -> send_all msgs t = (true, t') ->
  Forall item_ok ((fun b => Data (avail b)) <$> msgs) /\ sent_ t' = sent_ t ++ stream ((fun b => Data (avail b)) <$> msgs).
Proof.
  intros Ho. revert t. induction Ho as [|b msgs Hb _ IH]; intros t E; cbn [send_all] in E.
  { injection E as <-. split; [constructor|]. by rewrite app_nil_r. }
  pose proof (Send_frames b t Hb) as H. destruct (Send clk b t) as [ok t1]. destruct (send_all msgs t1) as [oks t2] eqn:E2.
  injection E as Ek <-. apply andb_true_iff in Ek as [-> ->]. destruct H as [ [? _]|(Hi & taken & left & Ei & Es & Hl)]; [done|].
  destruct (IH t1 E2) as [H1 H2]. csimpl. split; [by constructor|]. rewrite H2, Es. unfold stream. csimpl. destruct Hl as [Hl _]. rewrite (Hl eq_refl), app_nil_r in Ei.
  rewrite <- Ei. by rewrite <- app_assoc.
Qed.

End Sending.

Lemma payloads_data (msgs : list Buffer) : payloads ((fun b => Data (avail b)) <$> msgs) = avail <$> msgs.
Proof. unfold payloads. induction msgs as [|b msgs IH]; [done|]. csimpl. by rewrite IH. Qed.

Lemma no_ping (msgs : list Buffer) : Control kControlPing ∉ ((fun b => Data (avail b)) <$> msgs).
Proof. intros (b & ? & _)%list_elem_of_fmap. done. Qed.

(** [C33] The TCP transport delivers its stream: messages sent with [Send],
    however many pieces send() takes them in, are received as those messages, in
    order and none twice, however the stream is cut by recv(); the receiver never
    closes the connection; and if every recv() gives at least a byte, as many
    calls as there are bytes and messages return them all. *)
Theorem tcp_delivers (P : Platform) (A : AmplePlatform P) (clk : nat -> Z) (msgs : list Buffer) (a a' : Tcp) (keepalive idle : Z) (answers : list SendAnswer) (ns : list nat)
  (Ho : Forall opened msgs) (Ha : sent_ a = []) (Hs : send_all clk msgs a = (true, a')) :
  let '(out, pending, t) := pulls clk ns (sent_ a') (TCPTransportLayer_new clk keepalive idle answers) in
  (exists rest, avail <$> msgs = out ++ rest) /\ is_closed_ t = false /\
  (Forall (fun n => 1 <= n)%nat ns -> (length (sent_ a') + length msgs <= length ns)%nat -> out = avail <$> msgs).
Proof.
  destruct (send_all_stream clk msgs a a' Ho Hs) as [Hok Hst]. rewrite Ha in Hst. cbn [app] in Hst. set (items := (fun b => Data (avail b)) <$> msgs) in *.
  assert (Hm : midway items (sent_ a') (TCPTransportLayer_new clk keepalive idle answers)).
  { split; [done|apply no_ping|]. exists []. split; [apply new_inbox|done]. }
  pose proof (pulls_run clk ns items (sent_ a') _ Hm) as H. destruct (pulls clk ns (sent_ a') _) as [ [out pending] t]. destruct H as (rest & Hp & Hc & Hdone).
  unfold items in Hp, Hdone. rewrite payloads_data in Hp, Hdone. split; [by exists (payloads rest)|]. split; [done|]. intros Hns HL.
  rewrite Hp, Hdone; [by rewrite app_nil_r|done|by rewrite length_fmap].
Qed.

(** A message [Send] does not refuse, on a transport that is open. *)
Lemma Send_written `{P : Platform} `{!AmplePlatform P} (clk : nat -> Z) b t : opened b -> 1 <= zlen (avail b) -> zlen (avail b) + 2 < ZNET_MAX_BUFFER_SIZE - 48 -> is_closed_ t = false ->
  Send clk b t = let '(ok, closed, rest, taken) := write_loop (answers_ t) (image (Data (avail b))) in
    let t := set_socket rest (sent_ t ++ taken) t in
    let t := if closed then Close t else t in
    if ok then let '(at_, t) := now clk t in (true, set_last_send at_ t) else (false, t).
Proof.
  intros Ho H1 H2 Hc. destruct (framed_image clk b t Ho H1 H2) as (fb & Hfo & Hfa & E); [done|]. rewrite E. unfold WriteAll. rewrite load_opened, Hfa by done. unfold IsClosed. rewrite Hc, andb_false_r. done.
Qed.

(** A write that fails midway is reported and leaves the connection open:
    the part that was taken stays in the stream, and the next message is read as
    the rest of it.  The receiver is handed a message nobody sent: the start of
    the first and, prefix and all, the start of the second. *)
Theorem failed_write_splices (P : Platform) (A : AmplePlatform P) (clk : nat -> Z) (b1 b2 : Buffer) (t : Tcp) (k n : positive) (rest : list SendAnswer)
  (Ho1 : opened b1) (Ho2 : opened b2) (Hz1 : 1 <= zlen (avail b1) < ZNET_MAX_BUFFER_SIZE - 50) (Hz2 : 1 <= zlen (avail b2) < ZNET_MAX_BUFFER_SIZE - 50)
  (Hc : is_closed_ t = false) (Ha : answers_ t = [Took k; SendFailed; Took n] ++ rest)
  (Hk : 2 <= Z.pos k < zlen (avail b1) + 2) (Hn : zlen (avail b2) + 2 <= Z.pos n) (Hfits : zlen (avail b1) <= zlen (avail b2) + Z.pos k) :
  let t1 := (Send clk b1 t).2 in let t2 := (Send clk b2 t1).2 in
  (Send clk b1 t).1 = false /\ is_closed_ t1 = false /\ (Send clk b2 t1).1 = true /\
  exists written, sent_ t2 = sent_ t ++ written /\
    exists tail, frame_of written =
      DataFrame (take (Pos.to_nat k - 2) (avail b1) ++ take (length (avail b1) + 2 - Pos.to_nat k) (image (Data (avail b2)))) tail.
Proof.
  destruct (image_prefix (avail b1) ltac:(lia)) as (hi & lo & Hhi & Hlo & Esz & Ei).
  set (m1 := avail b1) in *. set (i2 := image (Data (avail b2))) in *. assert (Hl2 : length i2 = (length (avail b2) + 2)%nat).
  { destruct (image_prefix (avail b2) ltac:(lia)) as (? & ? & _ & _ & _ & E2). unfold i2. rewrite E2. cbn. lia. }
  assert (E1 : Send clk b1 t = (false, set_socket (Took n :: rest) (sent_ t ++ take (Pos.to_nat k) (hi :: lo :: m1)) t)).
  { rewrite Send_written; [fold m1|done|fold m1; lia|fold m1; lia|done]. rewrite Ei, Ha. cbn [app write_loop]. destruct (drop (Pos.to_nat k) (hi :: lo :: m1)) as [|x d] eqn:Ed.
    - apply (f_equal length) in Ed. rewrite length_drop in Ed. cbn in Ed. lia.
    - by rewrite app_nil_r. }
  cbv zeta. rewrite E1. cbn [fst snd]. split; [done|]. split; [done|]. set (t1 := set_socket _ _ t).
  assert (E2 : exists t2, Send clk b2 t1 = (true, t2) /\ sent_ t2 = (sent_ t ++ take (Pos.to_nat k) (hi :: lo :: m1)) ++ i2).
  { rewrite Send_written by (done || lia). fold i2. cbn [answers_ t1 set_socket sent_]. destruct i2 as [|x l] eqn:E; [cbn in Hl2; lia|]. cbn [write_loop].
    rewrite (drop_ge (x :: l)), (take_ge (x :: l)) by lia.
    assert (En : write_loop rest [] = (true, false, rest, [])) by (by destruct rest). rewrite En, app_nil_r. eexists. split; [reflexivity|done]. }
  destruct E2 as (t2 & -> & Es). cbn [fst snd]. split; [done|]. exists (take (Pos.to_nat k) (hi :: lo :: m1) ++ i2). split; [by rewrite Es, app_assoc|].
  destruct (Pos.to_nat k) as [|[|k'] ] eqn:Ek; [lia|lia|]. cbn [take app]. unfold frame_of. rewrite Esz. unfold ZNET_MAX_BUFFER_SIZE in *.
  destruct (Z.ltb_spec 4096 (zlen m1 + 2)); [lia|]. destruct (Z.eqb_spec (zlen m1) 0); [lia|].
  rewrite length_app, length_take. destruct (Z.ltb_spec (Z.of_nat (Nat.min k' (length m1) + length i2)) (zlen m1)); [lia|].
  eexists. f_equal. rewrite Nat2Z.id, take_app. f_equal; [rewrite take_take; f_equal; lia|]. rewrite length_take. f_equal. lia.
Qed.

(** ** At work *)

Module TcpExamples.

#[local] Instance machine : Platform := host LittleEndian.

#[local] Instance machine_ample : AmplePlatform machine.
Proof. apply host_ample. Qed.

Definition clk (n : nat) : Z := Z.of_nat n.

Definition text (bs : list Z) : Buffer := received LittleEndian bs.

Lemma wire_text_opened bs : forallb (fun x => (0 <=? x) && (x <? 256)) bs = true -> zlen bs <= 2 ^ 30 -> opened (text bs) /\ avail (text bs) = bs.
Proof.
  intros Hok HL. assert (Hb : bytes_ok bs).
  { apply Forall_forall. intros x Hx. rewrite forallb_forall in Hok. specialize (Hok x). rewrite <- list_elem_of_In in Hok. specialize (Hok Hx). bsplit. unfold is_byte. lia. }
  destruct (received_opened bs Hb ltac:(lia)) as (? & ? & _). done.
Qed.

Definition sender (answers : list SendAnswer) : Tcp := TCPTransportLayer_new clk 0 0 answers.

(** Three messages, taken in pieces and received in others. *)
Definition msgs : list Buffer := [text [1; 2; 3]; text [4]; text [5; 6]].
Definition pieces : list SendAnswer := [Took 2; Stalled; Took 9; Took 1; Took 1; Took 1; Took 4; Took 2].

Lemma tcp_delivers_witness :
  let a' := (send_all clk msgs (sender pieces)).2 in
  let '(out, pending, t) := pulls clk [1; 4; 2; 9; 1; 1; 1; 1; 1; 1; 1; 1; 1; 1; 1]%nat (sent_ a') (sender []) in
  (exists rest, avail <$> msgs = out ++ rest) /\ is_closed_ t = false /\ out = [[1; 2; 3]; [4]; [5; 6]].
Proof.
  assert (Ha : avail <$> msgs = [[1; 2; 3]; [4]; [5; 6]]) by (cbn; do 2 f_equal; apply wire_text_opened; done).
  pose proof (tcp_delivers machine machine_ample clk msgs (sender pieces) (send_all clk msgs (sender pieces)).2 0 0 [] [1; 4; 2; 9; 1; 1; 1; 1; 1; 1; 1; 1; 1; 1; 1]%nat) as H.
  cbv zeta. unfold sender in *. destruct (pulls _ _ _ _) as [ [out pending] t].
  destruct H as (H1 & H2 & H3); [repeat (constructor; [by apply wire_text_opened|]); constructor|reflexivity|vm_compute; reflexivity|].
  split; [done|]. split; [done|]. rewrite <- Ha. apply H3; [repeat constructor; lia|vm_compute; lia].
Defined.

Definition garbage (room : Z) : RecvAnswer := Got (take (Z.to_nat room) [0; 0; 1; 255; 255; 7]).

Lemma garbage_respects : respects garbage.
Proof.
  intros room Hroom. unfold garbage. split; [rewrite length_take; cbn [length]; lia|]. apply Forall_take. repeat constructor; discriminate.
Qed.

Definition hit : Tcp := (Receive clk garbage (sender [Took 2])).2.

Lemma tcp_hostile_safe_witness :
  is_closed_ hit = true /\ ub_ (recv_buffer_ hit) = false /\
  ((ReadBuffer clk hit).1 = None -> 1 <= writable_bytes (recv_buffer_ (ReadBuffer clk hit).2)) /\
  forall recv b, respects recv -> (Receive clk recv hit).1 = Some b -> opened b /\ 1 <= zlen (avail b) <= ZNET_MAX_BUFFER_SIZE - 2.
Proof.
  split; [vm_compute; reflexivity|]. apply (tcp_hostile_safe machine machine_ample clk 0 0 [Took 2] hit).
  apply rtc_once. apply (step_receive clk _ garbage), garbage_respects.
Defined.

Lemma failed_write_splices_witness :
  let t := sender [Took 3; SendFailed; Took 100] in
  let t1 := (Send clk (text [1; 2; 3]) t).2 in let t2 := (Send clk (text [4; 5]) t1).2 in
  (Send clk (text [1; 2; 3]) t).1 = false /\ is_closed_ t1 = false /\ (Send clk (text [4; 5]) t1).1 = true /\
  exists written, sent_ t2 = sent_ t ++ written /\ exists tail, frame_of written = DataFrame [1; 0; 2] tail.
Proof.
  intros t t1 t2. destruct (wire_text_opened [1; 2; 3] eq_refl ltac:(done)) as [Ho1 Ha1]. destruct (wire_text_opened [4; 5] eq_refl ltac:(done)) as [Ho2 Ha2].
  pose proof (failed_write_splices machine machine_ample clk (text [1; 2; 3]) (text [4; 5]) t 3 100 [] Ho1 Ho2) as H. rewrite Ha1, Ha2 in H.
  apply H; [vm_compute; split; [discriminate|reflexivity]..|reflexivity|reflexivity|vm_compute; split; [discriminate|reflexivity]|vm_compute; discriminate|vm_compute; discriminate].
Defined.

End TcpExamples.
