(* ===== verification/ReplayWindow.v ===== *)
(** * Anti-replay window (encryption.h, ReplayWindow)

    The highest counter accepted and a 64-bit map of the counters below it.
    [accepted_spec] is the abstract reading: a set of counters, of which the
    window remembers the newest 65. *)

From S2P Require Import Prelude.

Module Replay.

Definition kWidth : Z := 64.

Record ReplayWindow := mkWindow { highest_ : Z; window_ : Z; seen_any_ : bool }.

Definition ReplayWindow_new : ReplayWindow := mkWindow 0 0 false.

Definition Accept (counter : Z) (w : ReplayWindow) : bool * ReplayWindow :=
  if negb (seen_any_ w) then (true, mkWindow counter 0 true)
  else if highest_ w <? counter then
    let shift := u64 (counter - highest_ w) in
    let window :=
      if kWidth <? shift then 0
      else if shift =? kWidth then u64 (Z.shiftl 1 (kWidth - 1))
      else Z.lor (u64 (Z.shiftl (window_ w) shift)) (u64 (Z.shiftl 1 (shift - 1))) in
    (true, mkWindow counter window true)
  else
    let back := u64 (highest_ w - counter) in
    if (back =? 0) || (kWidth <? back) then (false, w)
    else
      let bit := u64 (Z.shiftl 1 (back - 1)) in
      if negb (Z.land (window_ w) bit =? 0) then (false, w)
      else (true, mkWindow (highest_ w) (Z.lor (window_ w) bit) true).

(** ** The abstract window *)

(** Counters accepted so far, newest first, and when another is. *)
Definition fresh (counter : Z) (seen : list Z) : bool :=
  match seen with
  | [] => true
  | _ => let top := foldr Z.max 0 seen in
         (top <? counter) || (top - counter <=? kWidth) && negb (bool_decide (counter ∈ seen))
  end.

(** Offers counters one after the other; which were accepted, in order. *)
Fixpoint accept_all (cs : list Z) (w : ReplayWindow) : list Z * ReplayWindow :=
  match cs with
  | [] => ([], w)
  | c :: cs =>
      let '(ok, w) := Accept c w in
      let '(l, w) := accept_all cs w in
      (if ok then c :: l else l, w)
  end.

(** [w] is the window after the counters [seen] were accepted. *)
Record tracks (seen : list Z) (w : ReplayWindow) : Prop := {
  tr_range : Forall (fun c => 0 <= c <= size_max) seen;
  tr_any : seen_any_ w = negb (bool_decide (seen = []));
  tr_high : seen <> [] -> highest_ w = foldr Z.max 0 seen;
  tr_window : 0 <= window_ w < 2 ^ 64;
  tr_bits i : seen <> [] -> 0 <= i < 64 -> Z.testbit (window_ w) i = bool_decide (highest_ w - 1 - i ∈ seen)
}.

Lemma top_in seen : seen <> [] -> Forall (fun c => 0 <= c <= size_max) seen -> foldr Z.max 0 seen ∈ seen.
Proof.
  intros Hn H. induction H as [|c seen Hc H IH]; [done|]. cbn. destruct seen as [|d seen].
  - cbn. rewrite Z.max_l by lia. constructor.
  - destruct (Z.max_spec c (foldr Z.max 0 (d :: seen))) as [[_ ->]|[_ ->]]; [constructor; by apply IH|constructor].
Qed.

Lemma top_ge seen c : c ∈ seen -> c <= foldr Z.max 0 seen.
Proof. induction 1; cbn; lia. Qed.

Lemma above_top seen c : foldr Z.max 0 seen < c -> c ∉ seen.
Proof. intros H Hin%top_ge. lia. Qed.

Lemma testbit_one k i : 0 <= k < 64 -> 0 <= i -> Z.testbit (u64 (Z.shiftl 1 k)) i = (i =? k).
Proof.
  intros Hk Hi. rewrite Z.shiftl_1_l. unfold u64. rewrite Z.mod_small by (split; [lia|]; apply Z.pow_lt_mono_r; lia).
  destruct (Z.eqb_spec i k) as [->|H]; [by apply Z.pow2_bits_true|apply Z.pow2_bits_false; lia].
Qed.

Lemma lor_below_64 a b : 0 <= a < 2 ^ 64 -> 0 <= b < 2 ^ 64 -> 0 <= Z.lor a b < 2 ^ 64.
Proof.
  intros Ha Hb. split; [apply Z.lor_nonneg; lia|]. destruct (Z.eq_dec (Z.lor a b) 0) as [->|H]; [done|].
  apply Z.log2_lt_pow2; [pose proof (Z.lor_nonneg a b); lia|]. rewrite Z.log2_lor by lia.
  apply Z.max_lub_lt; [destruct (Z.eq_dec a 0) as [->|]|destruct (Z.eq_dec b 0) as [->|]]; try done; apply Z.log2_lt_pow2; lia.
Qed.

Lemma bit_set w k : 0 <= k < 64 -> (Z.land w (u64 (Z.shiftl 1 k)) =? 0) = negb (Z.testbit w k).
Proof.
  intros Hk. destruct (Z.testbit w k) eqn:E; cbn.
  - apply Z.eqb_neq. intros H. apply (f_equal (fun z => Z.testbit z k)) in H.
    rewrite Z.land_spec, testbit_one, Z.eqb_refl, E, Z.bits_0 in H by lia. done.
  - apply Z.eqb_eq. apply Z.bits_inj'. intros i Hi. rewrite Z.land_spec, testbit_one, Z.bits_0 by lia.
    destruct (Z.eqb_spec i k) as [->|]; [by rewrite E|by rewrite andb_false_r].
Qed.

(** The bit map after the highest counter moved up by [shift]. *)
Lemma shifted_bits seen w c : tracks seen w -> seen <> [] -> highest_ w < c -> c <= size_max ->
  let shift := c - highest_ w in
  let window := if kWidth <? shift then 0
      else if shift =? kWidth then u64 (Z.shiftl 1 (kWidth - 1))
      else Z.lor (u64 (Z.shiftl (window_ w) shift)) (u64 (Z.shiftl 1 (shift - 1))) in
  0 <= window < 2 ^ 64 /\ forall i, 0 <= i < 64 -> Z.testbit window i = bool_decide (c - 1 - i ∈ c :: seen).
Proof.
  intros [Hr Ha Hh Hw Hb] Hn Hc Hmax shift window. specialize (Hh Hn).
  assert (Hmod : forall a, 0 <= u64 a < 2 ^ 64) by (intros; apply Z.mod_pos_bound; lia).
  assert (Hold : forall i, 0 <= i < 64 -> bool_decide (c - 1 - i ∈ c :: seen) = bool_decide (c - 1 - i ∈ seen)).
  { intros i Hi. apply bool_decide_ext. rewrite elem_of_cons. split; [intros [?|?]; [lia|done]|by right]. }
  assert (Hnew : forall i, i < shift - 1 -> bool_decide (c - 1 - i ∈ seen) = false).
  { intros i Hi. apply bool_decide_eq_false, above_top. unfold shift in Hi. lia. }
  assert (Htop : bool_decide (c - 1 - (shift - 1) ∈ seen) = true).
  { apply bool_decide_eq_true. replace (c - 1 - (shift - 1)) with (foldr Z.max 0 seen) by (unfold shift; lia). by apply top_in. }
  unfold window, kWidth. destruct (Z.ltb_spec 64 shift) as [H1|H1]; [|destruct (Z.eqb_spec shift 64) as [H2|H2]].
  - split; [done|]. intros i Hi. rewrite Z.bits_0, Hold, Hnew by lia. done.
  - split; [apply Hmod|]. intros i Hi. rewrite testbit_one, Hold by lia.
    destruct (Z.eqb_spec i (64 - 1)) as [->|]; [by replace (64 - 1) with (shift - 1) by lia|by rewrite Hnew by lia].
  - split; [apply lor_below_64; apply Hmod|]. intros i Hi. rewrite Z.lor_spec, testbit_one, Hold by lia.
    unfold u64. rewrite Z.mod_pow2_bits_low, Z.shiftl_spec by lia.
    destruct (Z.eqb_spec i (shift - 1)) as [->|]; [by rewrite orb_true_r, Htop|]. rewrite orb_false_r.
    destruct (Z_lt_le_dec i shift); [rewrite Z.testbit_neg_r, Hnew by lia; done|].
    rewrite (Hb _ Hn) by lia. apply bool_decide_ext. by replace (highest_ w - 1 - (i - shift)) with (c - 1 - i) by (unfold shift; lia).
Qed.

(** One counter: the window says what the abstract set says, and tracks it. *)
Lemma Accept_tracks seen w c : tracks seen w -> 0 <= c <= size_max ->
  (Accept c w).1 = fresh c seen /\
  tracks (if fresh c seen then c :: seen else seen) (Accept c w).2.
Proof.
  intros Ht Hc. pose proof Ht as [Hr Ha Hh Hw Hb]. unfold Accept. destruct seen as [|d seen0] eqn:Es.
  { rewrite Ha. cbn. split; [done|]. split; cbn; try done; [by constructor|intros _; lia|]. intros i _ Hi. rewrite Z.bits_0. symmetry.
    apply bool_decide_eq_false. rewrite list_elem_of_singleton. lia. }
  rewrite <- Es in *. assert (Hn : seen <> []) by (by rewrite Es). specialize (Hh Hn).
  assert (Hf : fresh c seen = (highest_ w <? c) || (highest_ w - c <=? kWidth) && negb (bool_decide (c ∈ seen))) by (rewrite Hh, Es; done).
  rewrite Ha, bool_decide_eq_false_2 by done. cbn [negb]. assert (Hhi : 0 <= highest_ w <= size_max).
  { rewrite Hh. pose proof (top_in seen Hn Hr) as Hin. by apply (proj1 (Forall_forall _ _) Hr) in Hin. }
  unfold size_max in *. destruct (Z.ltb_spec (highest_ w) c) as [Hlt|Hge].
  - rewrite (u64_small (c - highest_ w)) by (unfold size_max; lia). cbv zeta.
    destruct (shifted_bits seen w c Ht Hn Hlt) as [H1 H2]; [unfold size_max; lia|]. cbv zeta in H1, H2. rewrite Hf, orb_true_l. cbn [fst snd].
    split; [done|]. split; cbn [seen_any_ highest_ window_]; [by constructor|done| |done|auto]. intros _. cbn. lia.
  - rewrite (u64_small (highest_ w - c)) by (unfold size_max; lia). cbv zeta. rewrite Hf. cbn [orb]. unfold kWidth in *.
    destruct (Z.eqb_spec (highest_ w - c) 0) as [E0|E0].
    { cbn. replace (bool_decide (c ∈ seen)) with true; [by rewrite andb_false_r|]. symmetry. apply bool_decide_eq_true.
      replace c with (foldr Z.max 0 seen) by lia. by apply top_in. }
    cbn [orb]. destruct (Z.ltb_spec 64 (highest_ w - c)) as [H64|H64].
    { destruct (Z.leb_spec (highest_ w - c) 64); [lia|]. done. }
    destruct (Z.leb_spec (highest_ w - c) 64); [|lia]. cbn [andb]. rewrite bit_set, negb_involutive by lia.
    pose proof (Hb (highest_ w - c - 1) Hn ltac:(lia)) as Hbit. replace (highest_ w - 1 - (highest_ w - c - 1)) with c in Hbit by lia.
    rewrite Hbit. destruct (bool_decide (c ∈ seen)) eqn:Ein; [done|]. cbn. split; [done|].
    split; cbn [seen_any_ highest_ window_]; [by constructor|done|intros _; cbn; lia| |].
    + apply lor_below_64; [done|]. apply Z.mod_pos_bound. lia.
    + intros i _ Hi. rewrite Z.lor_spec, testbit_one, (Hb i Hn Hi) by lia.
      destruct (Z.eqb_spec i (highest_ w - c - 1)) as [->|Hne]; [rewrite orb_true_r|rewrite orb_false_r].
      * symmetry. apply bool_decide_eq_true. rewrite elem_of_cons. left. lia.
      * apply bool_decide_ext. rewrite elem_of_cons. split; [by right|intros [?|?]; [lia|done]].
Qed.

Lemma tracks_new : tracks [] ReplayWindow_new.
Proof. by split. Qed.

(** What the abstract window accepts of a sequence. *)
Fixpoint fresh_all (cs seen : list Z) : list Z :=
  match cs with
  | [] => []
  | c :: cs => if fresh c seen then c :: fresh_all cs (c :: seen) else fresh_all cs seen
  end.

Lemma accept_all_tracks cs seen w : tracks seen w -> Forall (fun c => 0 <= c <= size_max) cs ->
  (accept_all cs w).1 = fresh_all cs seen /\ tracks (rev (fresh_all cs seen) ++ seen) (accept_all cs w).2.
Proof.
  intros Ht Hcs. revert seen w Ht. induction Hcs as [|c cs Hc _ IH]; intros seen w Ht; [done|]. cbn [accept_all fresh_all].
  destruct (Accept_tracks seen w c Ht Hc) as [E Ht']. destruct (Accept c w) as [ok w1]. cbn [fst snd] in *. subst ok.
  destruct (IH _ _ Ht') as [E1 Ht1]. destruct (accept_all cs w1) as [l w2]. cbn [fst snd] in *. subst l.
  destruct (fresh c seen); [|done]. split; [done|]. cbn [rev]. by rewrite <- app_assoc.
Qed.

Lemma fresh_not_seen c seen : fresh c seen = true -> c ∉ seen.
Proof.
  destruct seen as [|d seen0] eqn:E; [intros _; apply not_elem_of_nil|]. rewrite <- E. intros H.
  assert (H' : (foldr Z.max 0 seen <? c) || (foldr Z.max 0 seen - c <=? kWidth) && negb (bool_decide (c ∈ seen)) = true) by (by rewrite E in *).
  apply orb_true_iff in H' as [H'|H']; bsplit; [by apply above_top|]. by apply bool_decide_eq_false in H1.
Qed.

Lemma fresh_all_nodup cs seen : NoDup seen -> NoDup (rev (fresh_all cs seen) ++ seen).
Proof.
  revert seen. induction cs as [|c cs IH]; intros seen H; [done|]. cbn [fresh_all].
  destruct (fresh c seen) eqn:E; [|auto]. cbn [rev]. rewrite <- app_assoc. cbn [app]. apply IH. constructor; [by apply fresh_not_seen|done].
Qed.


(** The replay window is a set of counters: offered any sequence of
    counters, it accepts exactly those that are newer than every one accepted
    before, or within 64 of the newest and not accepted before.  So it accepts
    none twice, and forgets nothing it could still be asked about. *)
Theorem replay_window_refines_set (cs : list Z) (Hcs : Forall (fun c => 0 <= c <= size_max) cs) :
  (accept_all cs ReplayWindow_new).1 = fresh_all cs [] /\ NoDup (accept_all cs ReplayWindow_new).1.
Proof.
  destruct (accept_all_tracks cs [] ReplayWindow_new tracks_new Hcs) as [-> _]. split; [done|].
  pose proof (fresh_all_nodup cs [] ltac:(constructor)) as H. rewrite app_nil_r in H. by rewrite <- Permutation_rev in H.
Qed.

Lemma replay_window_refines_set_witness :
  (accept_all [3; 70; 5; 6; 6; 70; 69; 133; 70] ReplayWindow_new).1 = [3; 70; 6; 69; 133] /\
  (accept_all [3; 70; 5; 6; 6; 70; 69; 133; 70] ReplayWindow_new).1 = fresh_all [3; 70; 5; 6; 6; 70; 69; 133; 70] [] /\
  NoDup (accept_all [3; 70; 5; 6; 6; 70; 69; 133; 70] ReplayWindow_new).1.
Proof.
  split; [vm_compute; reflexivity|]. apply (replay_window_refines_set [3; 70; 5; 6; 6; 70; 69; 133; 70]).
  unfold size_max. repeat constructor; lia.
Defined.

End Replay.
