(* ===== verification/Encryption.v ===== *)
(** * Session encryption (encryption.h, encryption.cc)

    AES-256-GCM over the messages of a session, one key per direction, a nonce
    of salt, stream and counter, and a replay window per stream.  OpenSSL is the
    class [Crypto]: what its primitives compute; whether one of its calls fails
    is the argument [evp] of the operations that make it.  The key exchange
    itself, which talks to the session, is in Session.v. *)

From Stdlib Require Import Strings.String Strings.Ascii.
From S2P Require Import Prelude Buffer BufferSpec BufferCodecs ReplayWindow.

Import Replay.

(** The bytes of a string literal, without its terminator. *)
Definition literal (s : string) : list Z := (fun a => Z.of_N (N_of_ascii a)) <$> list_ascii_of_string s.

(** [static_cast<int>] of a size. *)
Definition i32 (z : Z) : Z := (z + 2 ^ 31) mod 2 ^ 32 - 2 ^ 31.

Definition int_max : Z := 2 ^ 31 - 1.

(** OpenSSL: key objects, Diffie-Hellman, HKDF-SHA256, SHA-256 and
    AES-256-GCM.  [None] is a call that fails on its input. *)
Class Crypto := {
  PKey : Type;
  i2d_PUBKEY : PKey -> option (list Z);
  d2i_PUBKEY : list Z -> option PKey;
  EVP_PKEY_derive : PKey -> PKey -> option (list Z);
  HKDF_SHA256 : forall (salt secret info : list Z) (len : Z), option (list Z);
  SHA256 : list Z -> option (list Z);
  GCM_seal : forall (key nonce aad plaintext : list Z), list Z * list Z;
  GCM_open : forall (key nonce aad ciphertext tag : list Z), option (list Z)
}.

(** What AES-256-GCM is documented to do with a 32-byte key and a 12-byte
    nonce: the ciphertext is as long as the plaintext, the tag is 16 bytes, and
    what was sealed opens to what it was. *)
Class GcmLaws (C : Crypto) : Prop := {
  seal_length k n a p : zlen k = 32 -> zlen n = 12 -> zlen (GCM_seal k n a p).1 = zlen p;
  seal_tag k n a p : zlen k = 32 -> zlen n = 12 -> zlen (GCM_seal k n a p).2 = 16;
  seal_bytes k n a p : bytes_ok p -> bytes_ok (GCM_seal k n a p).1 /\ bytes_ok (GCM_seal k n a p).2;
  open_seal k n a p : zlen k = 32 -> zlen n = 12 -> GCM_open k n a (GCM_seal k n a p).1 (GCM_seal k n a p).2 = Some p;
  open_length k n a ct tag p : bytes_ok ct -> GCM_open k n a ct tag = Some p -> zlen p = zlen ct /\ bytes_ok p
}.

(** HKDF-SHA256 expands to any length it allows, and SHA-256 has 32 bytes. *)
Class KdfLaws (C : Crypto) : Prop := {
  hkdf_total salt secret info len : 0 <= len <= 255 * 32 -> exists out, HKDF_SHA256 salt secret info len = Some out /\ zlen out = len;
  sha256_total m : exists digest, SHA256 m = Some digest /\ zlen digest = 32
}.

Module Encryption.

Definition kNonceLen : Z := 12.
Definition kNonceSaltLen : Z := 4.
Definition kCounterLen : Z := 7.
Definition kHeaderLen : Z := 1 + kCounterLen.
Definition kTagLen : Z := 16.
Definition kMaxCounter : Z := u64 (Z.shiftl 1 (8 * kCounterLen)) - 1.
Definition kModePlaintext : Z := 0.
Definition kModeAesCbc : Z := 1.
Definition kModeAesGcm : Z := 2.
Definition kMaxExportLength : Z := 255 * 32.
Definition kMaxExportLabelLength : Z := 255.

Definition WriteCounter (counter : Z) : list Z :=
  (fun i => u8 (Z.land (Z.shiftr counter (8 * (kCounterLen - 1 - i))) 255)) <$> seqZ 0 kCounterLen.

Definition ReadCounter (input : list Z) : Z :=
  foldl (fun counter byte => Z.lor (u64 (Z.shiftl counter 8)) byte) 0 (take (Z.to_nat kCounterLen) input).

Definition BuildNonce (salt : list Z) (stream counter : Z) : list Z :=
  take (Z.to_nat kNonceSaltLen) salt ++ [stream] ++ WriteCounter counter.

(** [vec.resize(index + 1)] where the index is past the end. *)
Definition resized {A} (index : Z) (fill : A) (l : list A) : list A :=
  if zlen l <=? index then l ++ repeat fill (Z.to_nat (index + 1) - length l) else l.

Section Layer.
Context `{P : Platform} `{C : Crypto}.

(** ** Keys *)

Definition SerializePublicKey (pkey : option PKey) : option (list Z) :=
  match pkey with
  | None => None
  | Some k => match i2d_PUBKEY k with
              | Some [] => None
              | der => der
              end
  end.

Definition DeserializePublicKey (der : list Z) : option PKey :=
  match der with [] => None | _ => d2i_PUBKEY der end.

Definition ComputeSharedSecret (pkey peer_pkey : option PKey) : option (list Z) :=
  match pkey, peer_pkey with
  | Some k, Some p => EVP_PKEY_derive k p
  | _, _ => None
  end.

Definition Hkdf (secret info : list Z) (out_len : Z) : option (list Z) :=
  if (int_max <? zlen secret) || (int_max <? zlen info) || (int_max <? out_len) then None
  else HKDF_SHA256 (literal "znet-session-v1") secret info out_len.

Definition DeriveKeyFromSharedSecret (shared_secret label : list Z) (key_len : Z) : option (list Z) :=
  Hkdf shared_secret label key_len.

Record Keys := mkKeys {
  tx_key_ : list Z;
  rx_key_ : list Z;
  tx_salt_ : list Z;
  rx_salt_ : list Z;
  exporter_secret_ : list Z
}.

Definition zero_keys : Keys :=
  mkKeys (repeat 0 32) (repeat 0 32) (repeat 0 4) (repeat 0 4) (repeat 0 32).

Definition kClientToServer : list Z := literal "znet c2s v1".
Definition kServerToClient : list Z := literal "znet s2c v1".

(** A length prefix and a DER-encoded key, appended to the transcript. *)
Definition transcript_entry (der : list Z) : list Z :=
  ((fun shift => u8 (Z.land (Z.shiftr (zlen der) shift) 255)) <$> [24; 16; 8; 0]) ++ der.

Definition transcript (initiator_der acceptor_der : list Z) : list Z :=
  transcript_entry initiator_der ++ transcript_entry acceptor_der.

Definition DeriveExporterSecret (is_initiator : bool) (pub_key peer_pkey : option PKey)
    (shared_secret : list Z) : option (list Z) :=
  let initiator := if is_initiator then pub_key else peer_pkey in
  let acceptor := if is_initiator then peer_pkey else pub_key in
  match SerializePublicKey initiator, SerializePublicKey acceptor with
  | Some initiator_der, Some acceptor_der =>
      match SHA256 (transcript initiator_der acceptor_der) with
      | Some digest =>
          if zlen digest =? 32
          then Hkdf shared_secret (literal "znet exporter v1" ++ digest) 32
          else None
      | None => None
      end
  | _, _ => None
  end.

(** Whether all derivations succeeded, and the keys as they are left. *)
Definition DeriveDirectionalKeys (is_initiator : bool) (pub_key peer_pkey : option PKey)
    (shared_secret : list Z) (k : Keys) : bool * Keys :=
  let tx_label := if is_initiator then kClientToServer else kServerToClient in
  let rx_label := if is_initiator then kServerToClient else kClientToServer in
  match DeriveKeyFromSharedSecret shared_secret tx_label 36 with
  | None => (false, k)
  | Some tx_material =>
      match DeriveKeyFromSharedSecret shared_secret rx_label 36 with
      | None => (false, k)
      | Some rx_material =>
          let k := mkKeys (take 32 tx_material) (take 32 rx_material)
                     (slice 32 4 tx_material) (slice 32 4 rx_material) (exporter_secret_ k) in
          match DeriveExporterSecret is_initiator pub_key peer_pkey shared_secret with
          | None => (false, k)
          | Some secret => (true, mkKeys (tx_key_ k) (rx_key_ k) (tx_salt_ k) (rx_salt_ k) secret)
          end
      end
  end.

(** ** The cipher contexts *)

(** The calls on a cipher context that can fail. *)
Inductive EvpCall :=
  | CtxNew | InitCipher | SetIvLen | InitKey | InitNonce | UpdateAad | UpdateData | SetTag | Final | GetTag.

(** An [EVP_CIPHER_CTX]: the key it was given, and (ghost) every key and nonce
    a message was encrypted under. *)
Record CipherCtx := mkCtx { ctx_key : option (list Z); ctx_sealed : list (list Z * list Z) }.

Definition ctx_new : CipherCtx := mkCtx None [].

(** Sets the key (the first time) or only the nonce. *)
Definition init_ctx (evp : EvpCall -> bool) (set_key : bool) (key : list Z) (c : CipherCtx) : option CipherCtx :=
  if set_key then
    if evp InitCipher && evp SetIvLen && evp InitKey then Some (mkCtx (Some key) (ctx_sealed c)) else None
  else if evp InitNonce then Some c else None.

(** [None] in the second component is a result of -1. *)
Definition EncryptData (evp : EvpCall -> bool) (ctx : option CipherCtx) (set_key : bool)
    (key nonce aad plaintext : list Z) : option CipherCtx * option (list Z * list Z) :=
  match ctx with
  | None => (None, None)
  | Some c =>
      match init_ctx evp set_key key c with
      | None => (Some c, None)
      | Some c =>
          if negb (bool_decide (aad = [])) && negb (evp UpdateAad) then (Some c, None)
          else
            let k := default [] (ctx_key c) in
            let c := mkCtx (ctx_key c) (ctx_sealed c ++ [(k, nonce)]) in
            if negb (evp UpdateData) then (Some c, None)
            else if negb (evp Final) then (Some c, None)
            else if negb (evp GetTag) then (Some c, None)
            else (Some c, Some (GCM_seal k nonce aad plaintext))
      end
  end.

(** [EVP_DecryptFinal_ex] checks the tag. *)
Definition DecryptData (evp : EvpCall -> bool) (ctx : option CipherCtx) (set_key : bool)
    (key nonce aad ciphertext tag : list Z) : option CipherCtx * option (list Z) :=
  match ctx with
  | None => (None, None)
  | Some c =>
      match init_ctx evp set_key key c with
      | None => (Some c, None)
      | Some c =>
          if negb (bool_decide (aad = [])) && negb (evp UpdateAad) then (Some c, None)
          else if negb (evp UpdateData) then (Some c, None)
          else if negb (evp SetTag) then (Some c, None)
          else if negb (evp Final) then (Some c, None)
          else (Some c, GCM_open (default [] (ctx_key c)) nonce aad ciphertext tag)
      end
  end.

(** ** The layer *)

Record Cipher := mkCipher {
  tx_counters_ : list Z;
  rx_replay_ : list ReplayWindow;
  enc_ctx_ : option CipherCtx;
  dec_ctx_ : option CipherCtx;
  cipher_keyed_ : bool;
  dec_keyed_ : bool
}.

Definition Cipher_new : Cipher := mkCipher [] [] None None false false.

Record EncryptionLayer := mkLayer {
  pub_key_ : option PKey;
  peer_pkey_ : option PKey;
  sent_handshake_ : bool;
  sent_ready_ : bool;
  enable_encryption_ : bool;
  want_encryption_ : bool;
  negotiated_ : bool;
  shared_secret_ : option (list Z);
  key_filled_ : bool;
  keys : Keys;
  cipher : Cipher
}.

Definition set_cipher (c : Cipher) (l : EncryptionLayer) : EncryptionLayer :=
  mkLayer (pub_key_ l) (peer_pkey_ l) (sent_handshake_ l) (sent_ready_ l) (enable_encryption_ l)
    (want_encryption_ l) (negotiated_ l) (shared_secret_ l) (key_filled_ l) (keys l) c.

(** The results of the calls modelled here (znet::Result). *)
Inductive Result := Success | Failure | InvalidArgument.

(** [out] is whether the destination is not null; on success it is filled. *)
Definition ExportKeyingMaterial (label : list Z) (out : bool) (out_len : Z) (l : EncryptionLayer)
    : Result * option (list Z) :=
  if negb (enable_encryption_ l) || negb (key_filled_ l) then (Failure, None)
  else if negb out || (out_len =? 0) || (kMaxExportLength <? out_len) || (zlen label =? 0) ||
          (kMaxExportLabelLength <? zlen label) then (InvalidArgument, None)
  else match Hkdf (exporter_secret_ (keys l)) (literal "znet exporter label v1:" ++ label) out_len with
       | Some material => (Success, Some material)
       | None => (Failure, None)
       end.

Definition TxCounter (stream : Z) (c : Cipher) : Z * Cipher :=
  let counters := resized stream 0 (tx_counters_ c) in
  (default 0 (counters !! Z.to_nat stream),
   mkCipher counters (rx_replay_ c) (enc_ctx_ c) (dec_ctx_ c) (cipher_keyed_ c) (dec_keyed_ c)).

Definition RxWindow (stream : Z) (c : Cipher) : ReplayWindow * Cipher :=
  let windows := resized stream ReplayWindow_new (rx_replay_ c) in
  (default ReplayWindow_new (windows !! Z.to_nat stream),
   mkCipher (tx_counters_ c) windows (enc_ctx_ c) (dec_ctx_ c) (cipher_keyed_ c) (dec_keyed_ c)).

(** The critical section of [HandleOut]: takes the next counter of the stream
    and encrypts under it. *)
Definition seal_next (evp : EvpCall -> bool) (k : Keys) (stream : Z) (plaintext : list Z) (c : Cipher)
    : option (Z * option (list Z * list Z)) * Cipher :=
  let '(next, c) := TxCounter stream c in
  if next =? kMaxCounter then (None, c)
  else
    let counters := <[Z.to_nat stream := u64 (next + 1)]> (tx_counters_ c) in
    let nonce := BuildNonce (tx_salt_ k) stream next in
    let '(ctx, keyed) :=
      match enc_ctx_ c with
      | None => (if evp CtxNew then Some ctx_new else None, false)
      | Some x => (Some x, cipher_keyed_ c)
      end in
    let '(ctx, sealed) := EncryptData evp ctx (negb keyed) (tx_key_ k) nonce [kModeAesGcm] plaintext in
    let keyed := match sealed with Some _ => true | None => keyed end in
    (Some (next, sealed), mkCipher counters (rx_replay_ c) ctx (dec_ctx_ c) keyed (dec_keyed_ c)).

Definition HandleOut (evp : EvpCall -> bool) (buffer : Buffer) (stream : Z) (l : EncryptionLayer)
    : option Buffer * EncryptionLayer :=
  if int_max <? readable_bytes buffer then (None, l)
  else
    let buffer_len := readable_bytes buffer in
    let message := (load (read_cursor_ buffer) buffer_len buffer).1 in
    if enable_encryption_ l then
      let nb := ReserveHeadroom 2 (Buffer_new LittleEndian) in
      let nb := (ReserveExact (2 + 1 + kHeaderLen + buffer_len + kTagLen) nb).2 in
      let nb := WriteInt 1 kModeAesGcm nb in
      let header_pos := write_cursor_ nb in
      let nb := SkipWrite kHeaderLen nb in
      match seal_next evp (keys l) stream message (cipher l) with
      | (None, c) => (None, set_cipher c l)
      | (Some (_, None), c) => (None, set_cipher c l)
      | (Some (counter, Some (ciphertext, tag)), c) =>
          let nb := CommitWrite (zlen ciphertext) (store (write_cursor_ nb) ciphertext nb) in
          let nb := Write tag nb in
          let header := stream :: WriteCounter counter in
          let end_ := write_cursor_ nb in
          let nb := set_write_cursor end_ (Write header (set_write_cursor header_pos nb)) in
          (Some nb, set_cipher c l)
      end
    else
      match PrependInt8 0 buffer with
      | (true, buffer) => (Some buffer, l)
      | (false, _) =>
          let nb := ReserveHeadroom 2 (Buffer_new LittleEndian) in
          let nb := (ReserveExact (buffer_len + 3) nb).2 in
          (Some (Write message (WriteInt 1 0 nb)), l)
      end.

(** What [HandleDecrypt] does once the header is known: decrypts and, with the
    tag verified, consults the window. *)
Definition open_next (evp : EvpCall -> bool) (k : Keys) (stream counter : Z) (body tag : list Z) (c : Cipher)
    : option (list Z) * Cipher :=
  let nonce := BuildNonce (rx_salt_ k) stream counter in
  let '(ctx, keyed) :=
    match dec_ctx_ c with
    | None => (if evp CtxNew then Some ctx_new else None, false)
    | Some x => (Some x, dec_keyed_ c)
    end in
  let '(ctx, opened) := DecryptData evp ctx (negb keyed) (rx_key_ k) nonce [kModeAesGcm] body tag in
  let keyed := match opened with Some _ => true | None => keyed end in
  let c := mkCipher (tx_counters_ c) (rx_replay_ c) (enc_ctx_ c) ctx (cipher_keyed_ c) keyed in
  match opened with
  | None => (None, c)
  | Some plaintext =>
      let '(window, c) := RxWindow stream c in
      let '(ok, window) := Accept counter window in
      let c := mkCipher (tx_counters_ c) (<[Z.to_nat stream := window]> (rx_replay_ c)) (enc_ctx_ c) (dec_ctx_ c)
                 (cipher_keyed_ c) (dec_keyed_ c) in
      (if ok then Some plaintext else None, c)
  end.

Definition HandleDecrypt (evp : EvpCall -> bool) (buffer : Buffer) (l : EncryptionLayer)
    : option Buffer * EncryptionLayer :=
  let '(mode, buffer) := ReadInt 1 buffer in
  if mode =? kModePlaintext then if key_filled_ l then (None, l) else (Some buffer, l)
  else if mode =? kModeAesCbc then (None, l)
  else if negb (mode =? kModeAesGcm) then (None, l)
  else if negb (key_filled_ l) then (None, l)
  else if readable_bytes buffer <? kHeaderLen + kTagLen then (None, l)
  else
    let '(header, buffer) := Read 1 kHeaderLen (repeat 0 (Z.to_nat kHeaderLen)) buffer in
    let stream := default 0 (header !! 0%nat) in
    let counter := ReadCounter (drop 1 header) in
    let remaining := readable_bytes buffer in
    let cipher_len := i32 (remaining - kTagLen) in
    let body := (load (read_cursor_ buffer) cipher_len buffer).1 in
    let tag := (load (read_cursor_ buffer + cipher_len) kTagLen buffer).1 in
    let out := (ReserveExact (u64 cipher_len) (Buffer_new LittleEndian)).2 in
    match open_next evp (keys l) stream counter body tag (cipher l) with
    | (None, c) => (None, set_cipher c l)
    | (Some plaintext, c) =>
        (Some (CommitWrite (zlen plaintext) (store (write_cursor_ out) plaintext out)), set_cipher c l)
    end.

Definition HandleIn (evp : EvpCall -> bool) (buffer : Buffer) (l : EncryptionLayer) :=
  HandleDecrypt evp buffer l.

End Layer.

End Encryption.
