(* ===== verification/EncryptionTheorems.v ===== *)
(** * Encryption: nonces never repeat, messages round trip, only authentic ones
    are delivered, once *)

From S2P Require Import Prelude Buffer BufferSpec BufferCodecs BufferViews ReplayWindow Encryption.

Import Replay Encryption.

(** ** Counters and nonces *)

Lemma shifted_byte z k : 0 <= k -> u8 (Z.land (Z.shiftr z k) 255) = z / 2 ^ k mod 256.
Proof.
  intros Hk. change 255 with (Z.ones 8). rewrite Z.land_ones, Z.shiftr_div_pow2 by lia. unfold u8. by rewrite Z.mod_mod.
Qed.

Lemma WriteCounter_bytes c : WriteCounter c = rev (le_bytes 7 c).
Proof.
  change (WriteCounter c) with ((fun k => u8 (Z.land (Z.shiftr c k) 255)) <$> [48; 40; 32; 24; 16; 8; 0]).
  cbn [fmap list_fmap le_bytes rev app]. rewrite !shifted_byte, !Z.div_div by lia. by rewrite Z.div_1_r.
Qed.

Lemma zlen_WriteCounter c : zlen (WriteCounter c) = 7.
Proof. done. Qed.

Lemma WriteCounter_ok c : bytes_ok (WriteCounter c).
Proof. rewrite WriteCounter_bytes. apply bytes_ok_rev, le_bytes_ok. Qed.

Lemma ReadCounter_val bs : bytes_ok bs -> length bs = 7%nat -> ReadCounter bs = le_val (rev bs).
Proof.
  intros Hok HL. unfold ReadCounter. rewrite take_ge by (change (Z.to_nat kCounterLen) with 7%nat; lia).
  assert (Hstep : forall a b, 0 <= a < 2 ^ 48 -> is_byte b -> Z.lor (u64 (Z.shiftl a 8)) b = 256 * a + b).
  { clear. intros a b Ha Hb. unfold is_byte in Hb. rewrite Z.shiftl_mul_pow2 by lia. unfold u64. rewrite Z.mod_small by lia.
    rewrite Z.lor_comm, <- (Z.mod_small b (2 ^ 8)) at 1 by lia. rewrite <- Z.land_ones by lia.
    apply Z.bits_inj'. intros i Hi. rewrite Z.lor_spec. destruct (Z_lt_le_dec i 8).
    - rewrite Z.mul_pow2_bits_low, orb_false_r by lia. rewrite Z.land_spec, Z.ones_spec_low, andb_true_r by lia.
      rewrite <- (Z.mod_pow2_bits_low b 8 i), <- (Z.mod_pow2_bits_low (256 * a + b) 8 i) by lia. f_equal.
      change (2 ^ 8) with 256. rewrite Z.add_comm, Z.mul_comm. by rewrite Z.mod_add.
    - rewrite Z.land_spec, Z.ones_spec_high, andb_false_r by lia. cbn [orb]. rewrite Z.mul_pow2_bits by lia.
      replace (Z.testbit (256 * a + b) i) with (Z.testbit ((256 * a + b) / 2 ^ 8) (i - 8)) by (rewrite Z.div_pow2_bits by lia; f_equal; lia).
      f_equal. change (2 ^ 8) with 256.
      rewrite Z.add_comm, Z.mul_comm, Z.div_add, Z.div_small by lia. lia. }
  assert (H : forall l a, bytes_ok l -> 0 <= a -> (a + 1) * 256 ^ zlen l <= 2 ^ 56 ->
    foldl (fun c b => Z.lor (u64 (Z.shiftl c 8)) b) a l = le_val (rev l) + 256 ^ zlen l * a).
  { clear - Hstep. induction l as [|b l IH]; intros a Hok Ha Hb; [cbn; lia|]. apply Forall_cons in Hok as [Hb0 Hok].
    cbn [foldl length rev] in *. rewrite Nat2Z.inj_succ, Z.pow_succ_r in * by lia. pose proof (Z.pow_pos_nonneg 256 (zlen l)).
    unfold is_byte in Hb0. rewrite Hstep by (done || nia). rewrite IH by (done || nia). rewrite le_val_app, length_rev. cbn [le_val]. lia. }
  rewrite H; [lia|done|lia|rewrite HL; cbn; lia].
Qed.

Lemma ReadCounter_Write c : 0 <= c < 2 ^ 56 -> ReadCounter (WriteCounter c) = c.
Proof.
  intros Hc. rewrite ReadCounter_val; [|apply WriteCounter_ok|done]. rewrite WriteCounter_bytes, rev_involutive.
  apply le_val_bytes. cbn. lia.
Qed.

Lemma ReadCounter_range bs : bytes_ok bs -> length bs = 7%nat -> 0 <= ReadCounter bs < 2 ^ 56.
Proof.
  intros Hok HL. rewrite ReadCounter_val by done. pose proof (le_val_range (rev bs) (bytes_ok_rev _ Hok)) as H.
  rewrite length_rev, HL in H. exact H.
Qed.

Lemma WriteCounter_Read bs : bytes_ok bs -> length bs = 7%nat -> WriteCounter (ReadCounter bs) = bs.
Proof.
  intros Hok HL. rewrite ReadCounter_val, WriteCounter_bytes by done.
  replace 7%nat with (length (rev bs)) by (by rewrite length_rev). rewrite le_bytes_val by (by apply bytes_ok_rev). apply rev_involutive.
Qed.

Lemma BuildNonce_inj salt s1 c1 s2 c2 : 0 <= c1 < 2 ^ 56 -> 0 <= c2 < 2 ^ 56 ->
  BuildNonce salt s1 c1 = BuildNonce salt s2 c2 -> s1 = s2 /\ c1 = c2.
Proof.
  intros H1 H2 E. unfold BuildNonce in E. apply app_inv_head in E. cbn [app] in E.
  pose proof (f_equal (hd 0) E) as Hs. pose proof (f_equal (@tail Z) E) as Hc. cbn [hd tail] in Hs, Hc. split; [done|].
  rewrite <- (ReadCounter_Write c1), <- (ReadCounter_Write c2) by done. by rewrite Hc.
Qed.

Lemma kMaxCounter_value : kMaxCounter = 2 ^ 56 - 1.
Proof. reflexivity. Qed.

(** ** Nonces *)

Section Nonces.
Context `{P : Platform} `{C : Crypto}.

Lemma lookup_resized {A} (i j : Z) (x : A) l : default x (resized i x l !! Z.to_nat j) = default x (l !! Z.to_nat j).
Proof.
  unfold resized. destruct (zlen l <=? i); [|done]. destruct (decide (Z.to_nat j < length l)%nat).
  - by rewrite lookup_app_l.
  - rewrite lookup_app_r, (lookup_ge_None_2 l) by lia. cbn. destruct (repeat x _ !! _) eqn:E; [|done].
    apply list_elem_of_lookup_2, list_elem_of_In, repeat_spec in E. done.
Qed.

Lemma length_resized {A} (i : Z) (x : A) l : 0 <= i -> (Z.to_nat i < length (resized i x l))%nat.
Proof. intros Hi. unfold resized. destruct (Z.leb_spec (zlen l) i); [rewrite length_app, repeat_length|]; lia. Qed.

Lemma Forall_resized {A} (Q : A -> Prop) i x l : Q x -> Forall Q l -> Forall Q (resized i x l).
Proof.
  intros Hx Hl. unfold resized. destruct (_ <=? _); [|done]. apply Forall_app. split; [done|].
  apply Forall_forall. intros y Hy%list_elem_of_In%repeat_spec. by subst.
Qed.

Definition counter_of (s : Z) (c : Cipher) : Z := default 0 (tx_counters_ c !! Z.to_nat s).

(** The keys and nonces messages were encrypted under. *)
Definition sealed_by (c : Cipher) : list (list Z * list Z) :=
  match enc_ctx_ c with Some x => ctx_sealed x | None => [] end.

Lemma EncryptData_ctx evp x set_key key nonce aad p :
  set_key = true \/ ctx_key x = Some key ->
  exists x', (EncryptData evp (Some x) set_key key nonce aad p).1 = Some x' /\
    (ctx_sealed x' = ctx_sealed x \/ ctx_sealed x' = ctx_sealed x ++ [(key, nonce)]) /\
    (set_key = false -> ctx_key x' = Some key) /\
    match (EncryptData evp (Some x) set_key key nonce aad p).2 with
    | Some ct => ctx_key x' = Some key /\ ct = GCM_seal key nonce aad p
    | None => True
    end.
Proof.
  intros Hk. unfold EncryptData, init_ctx. destruct set_key.
  - clear Hk. destruct (_ && _ && _); [|exists x; cbn; naive_solver].
    repeat (case_match; [eexists; split; [done|]; cbn; naive_solver|]). eexists. split; [done|]. cbn. naive_solver.
  - destruct Hk as [?|Hk]; [done|]. destruct (evp InitNonce); [|exists x; cbn; naive_solver]. rewrite Hk.
    repeat (case_match; [eexists; split; [done|]; cbn; naive_solver|]). eexists. split; [done|]. cbn. naive_solver.
Qed.

(** Every nonce belongs to a counter already taken, under this key. *)
Record sealing (k : Keys) (c : Cipher) : Prop := {
  se_range : Forall (fun n => 0 <= n <= kMaxCounter) (tx_counters_ c);
  se_used u : u ∈ sealed_by c -> exists s n, 0 <= s /\ 0 <= n < counter_of s c /\ u = (tx_key_ k, BuildNonce (tx_salt_ k) s n);
  se_nodup : NoDup (sealed_by c);
  se_key : cipher_keyed_ c = true -> exists x, enc_ctx_ c = Some x /\ ctx_key x = Some (tx_key_ k)
}.

Lemma sealing_new k : sealing k Cipher_new.
Proof. split; [constructor|intros u H; by apply not_elem_of_nil in H|constructor|done]. Qed.

Lemma counter_new s : counter_of s Cipher_new = 0.
Proof. done. Qed.

Lemma counter_range k c s : sealing k c -> 0 <= counter_of s c <= kMaxCounter.
Proof.
  intros [Hr _ _ _]. unfold counter_of. destruct (tx_counters_ c !! Z.to_nat s) eqn:E; cbn; [|done].
  by apply (Forall_lookup_1 _ _ _ _ Hr E).
Qed.

(** The context an encryption starts from. *)
Lemma context_for (evp : EvpCall -> bool) (k : Keys) (c : Cipher) : sealing k c ->
  let start := match enc_ctx_ c with
               | None => (if evp CtxNew then Some ctx_new else None, false)
               | Some x => (Some x, cipher_keyed_ c)
               end in
  match start with
  | (None, keyed) => keyed = false /\ sealed_by c = []
  | (Some x, keyed) => ctx_sealed x = sealed_by c /\ (negb keyed = true \/ ctx_key x = Some (tx_key_ k))
  end.
Proof.
  intros [_ _ _ Hk]. unfold sealed_by. cbn. destruct (enc_ctx_ c) as [x|] eqn:E.
  - split; [done|]. destruct (cipher_keyed_ c); [right|by left]. destruct (Hk eq_refl) as (y & [= ->] & ?). done.
  - destruct (evp CtxNew); [|done]. split; [done|by left].
Qed.

Lemma seal_next_sealing evp k s p c : 0 <= s -> sealing k c -> sealing k (seal_next evp k s p c).2.
Proof.
  intros Hs Hc. pose proof (counter_range k c s Hc) as Hn. pose proof (context_for evp k c Hc) as Hctx. cbv zeta in Hctx.
  unfold seal_next, TxCounter. cbn [fst snd]. rewrite lookup_resized. fold (counter_of s c). rewrite kMaxCounter_value in *.
  set (counters := resized s 0 (tx_counters_ c)). destruct Hc as [Hr Hu Hnd Hk].
  assert (Hr' : Forall (fun n => 0 <= n <= kMaxCounter) counters) by (apply Forall_resized; [done|exact Hr]).
  destruct (Z.eqb_spec (counter_of s c) (2 ^ 56 - 1)) as [|Hne].
  { split; cbn [snd tx_counters_ enc_ctx_ cipher_keyed_]; [done| |done|done]. intros u H. destruct (Hu u H) as (s' & n & ? & ? & ?).
    exists s', n. unfold counter_of. cbn [tx_counters_]. unfold counters. by rewrite lookup_resized. }
  cbn [enc_ctx_ cipher_keyed_ tx_counters_]. rewrite (u64_small (counter_of s c + 1)) by (unfold size_max; lia).
  set (counters' := <[Z.to_nat s := counter_of s c + 1]> counters).
  assert (Hr2 : Forall (fun n => 0 <= n <= kMaxCounter) counters') by (apply Forall_insert; [done|rewrite kMaxCounter_value; lia]).
  assert (Hmono : forall s', 0 <= s' -> default 0 (counters' !! Z.to_nat s') = if s' =? s then counter_of s c + 1 else counter_of s' c).
  { intros s' Hs'. unfold counters'. destruct (Z.eqb_spec s' s) as [->|].
    - rewrite list_lookup_insert_eq; [done|]. by apply length_resized.
    - rewrite list_lookup_insert_ne by lia. apply lookup_resized. }
  assert (Hold : forall u, u ∈ sealed_by c -> exists s' n, 0 <= s' /\ 0 <= n < default 0 (counters' !! Z.to_nat s') /\
    u = (tx_key_ k, BuildNonce (tx_salt_ k) s' n)).
  { intros u H. destruct (Hu u H) as (s' & n & ? & ? & ?). exists s', n. rewrite Hmono by done. destruct (Z.eqb_spec s' s) as [->|]; split_and!; done || lia. }
  destruct (match enc_ctx_ c with None => _ | Some x => _ end) as [ [x|] keyed].
  2:{ cbn [EncryptData snd fst]. destruct Hctx as [-> Hnil]. split; cbn; try done; [|constructor]. intros u H. by apply not_elem_of_nil in H. }
  destruct Hctx as [Hsl Hkey].
  destruct (EncryptData_ctx evp x (negb keyed) (tx_key_ k) (BuildNonce (tx_salt_ k) s (counter_of s c)) [kModeAesGcm] p Hkey)
    as (x' & Ex & Hseal & Hkept & Hres).
  destruct (EncryptData _ _ _ _ _ _ _) as [ctx res]. cbn [fst snd] in *. subst ctx. rewrite Hsl in Hseal.
  split; cbn [tx_counters_ enc_ctx_ cipher_keyed_ sealed_by snd]; [done| | |].
  - intros u H. destruct Hseal as [E|E]; rewrite E in H; [by apply Hold|]. apply elem_of_app in H as [H|H]; [by apply Hold|].
    apply list_elem_of_singleton in H as ->. exists s, (counter_of s c).
    match goal with |- context [counter_of s (mkCipher ?a ?b ?d ?e ?f ?g)] => change (counter_of s (mkCipher a b d e f g)) with (default 0 (a !! Z.to_nat s)) end.
    rewrite Hmono, Z.eqb_refl by done. split_and!; done || lia.
  - destruct Hseal as [->|E]; [done|]. rewrite E. apply NoDup_app. split; [done|]. split; [|apply NoDup_singleton].
    intros u H Hin%list_elem_of_singleton. subst u. destruct (Hu _ H) as (s' & n & ? & Hn' & E').
    assert (Hc' : 0 <= counter_of s' c <= 2 ^ 56 - 1).
    { unfold counter_of. destruct (tx_counters_ c !! Z.to_nat s') eqn:El; cbn; [|lia]. apply (Forall_lookup_1 _ _ _ _ Hr El). }
    injection E' as E'. apply BuildNonce_inj in E' as [<- <-]; lia.
  - intros Hkd. exists x'. split; [done|]. destruct res as [ct|]; [apply Hres|]. apply Hkept. by rewrite Hkd.
Qed.

(** One message handed to the layer: which OpenSSL calls succeed, the message,
    and its stream. *)
Record Outgoing := mkOutgoing { out_evp : EvpCall -> bool; out_buffer : Buffer; out_stream : Z }.

Definition send_all (ms : list Outgoing) (l : EncryptionLayer) : EncryptionLayer :=
  foldl (fun l m => (HandleOut (out_evp m) (out_buffer m) (out_stream m) l).2) l ms.

Lemma HandleOut_cipher evp b s l :
  keys (HandleOut evp b s l).2 = keys l /\
  (cipher (HandleOut evp b s l).2 = cipher l \/
   cipher (HandleOut evp b s l).2 = (seal_next evp (keys l) s (load (read_cursor_ b) (readable_bytes b) b).1 (cipher l)).2).
Proof.
  unfold HandleOut. destruct (_ <? _); [by auto|]. destruct (enable_encryption_ l).
  - destruct (seal_next _ _ _ _ _) as [ [ [n [ [ct tag]|] ]|] c]; cbn; auto.
  - destruct (PrependInt8 0 b) as [ [] b']; cbn; auto.
Qed.

(** No two messages of a direction are encrypted under the same key and
    nonce: over any sequence of sends on any streams, whatever OpenSSL calls
    fail in between, the (key, nonce) pairs the cipher was used with are pairwise
    distinct, and all of them are under the direction's own key. *)
Theorem nonces_never_repeat (ms : list Outgoing) (l : EncryptionLayer)
  (Hms : Forall (fun m => 0 <= out_stream m < 256) ms) (Hl : cipher l = Cipher_new) :
  NoDup (sealed_by (cipher (send_all ms l))) /\
  Forall (fun u => u.1 = tx_key_ (keys l)) (sealed_by (cipher (send_all ms l))).
Proof.
  assert (H : sealing (keys l) (cipher l)) by (rewrite Hl; apply sealing_new). clear Hl.
  assert (Hk : forall k, keys l = k -> sealing k (cipher l) -> sealing k (cipher (send_all ms l))).
  { clear H. revert l. induction Hms as [|m ms Hm _ IH]; intros l k Ek H; [done|]. cbn [send_all foldl]. apply IH.
    - destruct (HandleOut_cipher (out_evp m) (out_buffer m) (out_stream m) l) as [-> _]. done.
    - destruct (HandleOut_cipher (out_evp m) (out_buffer m) (out_stream m) l) as [_ [->| ->] ]; [done|]. rewrite Ek. apply seal_next_sealing; [lia|done]. }
  destruct (Hk _ eq_refl H) as [_ Hu Hnd _]. split; [done|]. apply Forall_forall. intros u (s & n & _ & _ & ->)%Hu. done.
Qed.

End Nonces.

(** ** Opening *)

Section Opening.
Context `{P : Platform} `{C : Crypto}.

Definition window_of (s : Z) (c : Cipher) : ReplayWindow := default ReplayWindow_new (rx_replay_ c !! Z.to_nat s).

(** Per stream, the counters accepted so far. *)
Definition Seen : Type := Z -> list Z.

Definition see (s n : Z) (seen : Seen) : Seen := fun s' => if s' =? s then n :: seen s' else seen s'.

Record opening (k : Keys) (seen : Seen) (c : Cipher) : Prop := {
  on_key : dec_keyed_ c = true -> exists x, dec_ctx_ c = Some x /\ ctx_key x = Some (rx_key_ k);
  on_windows s : 0 <= s -> tracks (seen s) (window_of s c)
}.

Lemma opening_new k : opening k (fun _ => []) Cipher_new.
Proof. split; [done|]. intros s _. apply tracks_new. Qed.

Lemma DecryptData_ctx evp x set_key key nonce aad ct tag :
  set_key = true \/ ctx_key x = Some key ->
  exists x', (DecryptData evp (Some x) set_key key nonce aad ct tag).1 = Some x' /\
    (set_key = false -> ctx_key x' = Some key) /\
    match (DecryptData evp (Some x) set_key key nonce aad ct tag).2 with
    | Some p => ctx_key x' = Some key /\ GCM_open key nonce aad ct tag = Some p
    | None => (forall e, evp e = true) -> GCM_open key nonce aad ct tag = None
    end.
Proof.
  intros Hk. unfold DecryptData, init_ctx. assert (Hev : forall e, evp e = false -> ~ forall e, evp e = true) by (intros e He H; by rewrite H in He).
  destruct set_key.
  - clear Hk. destruct (evp InitCipher) eqn:E1; [|exists x; cbn; naive_solver]. destruct (evp SetIvLen) eqn:E2; [|exists x; cbn; naive_solver].
    destruct (evp InitKey) eqn:E3; [|exists x; cbn; naive_solver]. cbn [andb].
    destruct (evp UpdateAad) eqn:E4, (evp UpdateData) eqn:E5, (evp SetTag) eqn:E6, (evp Final) eqn:E7; cbn [negb];
      rewrite ?andb_false_r, ?andb_true_r; (case_match || idtac); eexists; (split; [done|]); cbn; repeat case_match; naive_solver.
  - destruct Hk as [?|Hk]; [done|]. destruct (evp InitNonce) eqn:E1; [|exists x; cbn; naive_solver]. rewrite Hk.
    destruct (evp UpdateAad) eqn:E4, (evp UpdateData) eqn:E5, (evp SetTag) eqn:E6, (evp Final) eqn:E7; cbn [negb];
      rewrite ?andb_false_r, ?andb_true_r; (case_match || idtac); eexists; (split; [done|]); cbn; repeat case_match; naive_solver.
Qed.

(** One message: it comes out only if its tag verifies under this direction's
    key and its counter is fresh in its stream, and then it is recorded. *)
Lemma open_next_cases evp k s n ct tag c seen : opening k seen c -> 0 <= s -> 0 <= n < 2 ^ 56 ->
  match open_next evp k s n ct tag c with
  | (Some p, c') => GCM_open (rx_key_ k) (BuildNonce (rx_salt_ k) s n) [kModeAesGcm] ct tag = Some p /\
      fresh n (seen s) = true /\ opening k (see s n seen) c'
  | (None, c') => opening k seen c' /\ ((forall e, evp e = true) ->
      GCM_open (rx_key_ k) (BuildNonce (rx_salt_ k) s n) [kModeAesGcm] ct tag = None \/ fresh n (seen s) = false)
  end.
Proof.
  intros [Hk Hw] Hs Hn. unfold open_next.
  assert (Hctx : match match dec_ctx_ c with
                       | None => (if evp CtxNew then Some ctx_new else None, false)
                       | Some x => (Some x, dec_keyed_ c)
                       end with
                 | (None, keyed) => keyed = false /\ evp CtxNew = false
                 | (Some x, keyed) => negb keyed = true \/ ctx_key x = Some (rx_key_ k)
                 end).
  { destruct (dec_ctx_ c) as [x|] eqn:E; [|destruct (evp CtxNew); [by left|done] ].
    destruct (dec_keyed_ c); [right|by left]. by destruct (Hk eq_refl) as (y & [= ->] & ?). }
  destruct (match dec_ctx_ c with None => _ | Some x => _ end) as [ [x|] keyed].
  2:{ destruct Hctx as [-> Hnew]. cbn. split; [by split|]. intros H. by rewrite H in Hnew. }
  destruct (DecryptData_ctx evp x (negb keyed) (rx_key_ k) (BuildNonce (rx_salt_ k) s n) [kModeAesGcm] ct tag Hctx) as (x' & E1 & Hkept & Hres).
  destruct (DecryptData _ _ _ _ _ _ _ _) as [ctx [p|] ]; cbn [fst snd] in *; subst ctx.
  - destruct Hres as [Hkey Hopen]. unfold RxWindow. cbn [rx_replay_]. rewrite lookup_resized. fold (window_of s c).
    destruct (Accept_tracks (seen s) (window_of s c) n (Hw s Hs) ltac:(unfold size_max; lia)) as [Ha Ht].
    destruct (Accept n (window_of s c)) as [ok w]. cbn [fst snd] in Ha, Ht. subst ok. cbn [tx_counters_ rx_replay_ enc_ctx_ dec_ctx_ cipher_keyed_ dec_keyed_].
    assert (Hwin : forall seen', seen' s = (if fresh n (seen s) then n :: seen s else seen s) -> (forall s', s' <> s -> seen' s' = seen s') ->
      opening k seen' (mkCipher (tx_counters_ c) (<[Z.to_nat s := w]> (resized s ReplayWindow_new (rx_replay_ c))) (enc_ctx_ c) (Some x') (cipher_keyed_ c) true)).
    { intros seen' Hseen Hother. split; [intros _; by exists x'|]. intros s' Hs'. unfold window_of. cbn [rx_replay_]. destruct (decide (s' = s)) as [->|Hne].
      - rewrite list_lookup_insert_eq by (by apply length_resized). by rewrite Hseen.
      - rewrite list_lookup_insert_ne, lookup_resized, Hother by lia. by apply Hw. }
    destruct (fresh n (seen s)) eqn:Ef.
    + split; [done|]. split; [done|]. apply Hwin; unfold see; [by rewrite Z.eqb_refl|]. intros s' Hne. by destruct (Z.eqb_spec s' s).
    + split; [by apply Hwin|]. by right.
  - split; [|by auto]. split; [|exact Hw]. cbn. intros ->. exists x'. split; [done|]. by apply Hkept.
Qed.

End Opening.

(** ** Messages on the wire *)

Section Wire.
Context `{P : Platform} `{!AmplePlatform P} `{C : Crypto} `{!GcmLaws C}.

(** Every OpenSSL call succeeds. *)
Definition all_ok : EvpCall -> bool := fun _ => true.

Definition keys_ok (k : Keys) : Prop :=
  zlen (tx_key_ k) = 32 /\ zlen (rx_key_ k) = 32 /\ zlen (tx_salt_ k) = 4 /\ zlen (rx_salt_ k) = 4.

Lemma length_nonce salt s n : zlen salt = 4 -> zlen (BuildNonce salt s n) = 12.
Proof. intros H. unfold BuildNonce. rewrite !length_app, length_take.
  change (length (WriteCounter n)) with 7%nat. change (Z.to_nat kNonceSaltLen) with 4%nat. change (length [s]) with 1%nat. lia. Qed.

(** The bytes of message [n] of stream [s]. *)
Definition sealed_bytes (key salt : list Z) (s n : Z) (p : list Z) : list Z :=
  let '(ct, tag) := GCM_seal key (BuildNonce salt s n) [kModeAesGcm] p in
  [kModeAesGcm] ++ (s :: WriteCounter n) ++ ct ++ tag.

(** With every call succeeding, the next message of the stream is sealed under
    the stream's next counter. *)
Lemma seal_next_ok k s p c : sealing k c -> 0 <= s -> counter_of s c < kMaxCounter ->
  exists c', seal_next all_ok k s p c =
    (Some (counter_of s c, Some (GCM_seal (tx_key_ k) (BuildNonce (tx_salt_ k) s (counter_of s c)) [kModeAesGcm] p)), c') /\
    sealing k c' /\ forall s', 0 <= s' -> counter_of s' c' = if s' =? s then counter_of s c + 1 else counter_of s' c.
Proof.
  intros Hc Hs Hlt. pose proof (seal_next_sealing all_ok k s p c Hs Hc) as Hc'. pose proof (counter_range k c s Hc) as Hn.
  pose proof (context_for all_ok k c Hc) as Hctx. cbv zeta in Hctx. rewrite kMaxCounter_value in *.
  unfold seal_next, TxCounter in *. cbn [fst snd] in *. rewrite lookup_resized in *. fold (counter_of s c) in *. rewrite kMaxCounter_value in *.
  destruct (Z.eqb_spec (counter_of s c) (2 ^ 56 - 1)) as [|_]; [lia|]. cbn [enc_ctx_ cipher_keyed_ tx_counters_] in *.
  rewrite (u64_small (counter_of s c + 1)) in * by (unfold size_max; lia).
  destruct (match enc_ctx_ c with None => _ | Some x => _ end) as [ [x|] keyed] eqn:Ex.
  2:{ exfalso. destruct (enc_ctx_ c); done. }
  destruct Hctx as [_ Hkey].
  destruct (EncryptData_ctx all_ok x (negb keyed) (tx_key_ k) (BuildNonce (tx_salt_ k) s (counter_of s c)) [kModeAesGcm] p Hkey) as (x' & E1 & _ & _ & E2).
  destruct (EncryptData _ _ _ _ _ _ _) as [ctx [sealed|] ] eqn:Ee; cbn [fst snd] in *.
  - destruct E2 as [_ ->]. eexists. split; [done|]. split; [done|]. intros s' Hs'. unfold counter_of at 1. cbn [tx_counters_].
    destruct (Z.eqb_spec s' s) as [->|]; [rewrite list_lookup_insert_eq by (by apply length_resized); done|].
    rewrite list_lookup_insert_ne by lia. apply lookup_resized.
  - exfalso. unfold EncryptData, init_ctx in Ee. destruct keyed; cbn in Ee; done.
Qed.

Lemma HandleOut_sealed b s l : opened b -> zlen (avail b) <= 2 ^ 30 -> 0 <= s < 256 -> enable_encryption_ l = true ->
  keys_ok (keys l) -> sealing (keys l) (cipher l) -> counter_of s (cipher l) < kMaxCounter ->
  exists nb c', HandleOut all_ok b s l = (Some nb, set_cipher c' l) /\ headroom 2 nb /\
    avail nb = sealed_bytes (tx_key_ (keys l)) (tx_salt_ (keys l)) s (counter_of s (cipher l)) (avail b) /\
    sealing (keys l) c' /\
    forall s', 0 <= s' -> counter_of s' c' = if s' =? s then counter_of s (cipher l) + 1 else counter_of s' (cipher l).
Proof.
  intros Ho HL Hs He (Hk1 & _ & Hk3 & _) Hc Hlt. unfold HandleOut. rewrite load_opened by done.
  pose proof (readable_avail b (op_wf _ Ho)) as Hr. rewrite Hr, He. unfold int_max. destruct (Z.ltb_spec (2 ^ 31 - 1) (zlen (avail b))); [lia|].
  destruct (seal_next_ok (keys l) s (avail b) (cipher l) Hc ltac:(lia) Hlt) as (c' & -> & Hc' & Hcnt).
  set (n := counter_of s (cipher l)) in *. set (nonce := BuildNonce (tx_salt_ (keys l)) s n).
  unfold sealed_bytes. fold nonce. pose proof (length_nonce (tx_salt_ (keys l)) s n Hk3) as Hnl. fold nonce in Hnl.
  pose proof (seal_length (tx_key_ (keys l)) nonce [kModeAesGcm] (avail b) Hk1 Hnl) as Hcl.
  pose proof (seal_tag (tx_key_ (keys l)) nonce [kModeAesGcm] (avail b) Hk1 Hnl) as Htl.
  pose proof (seal_bytes (tx_key_ (keys l)) nonce [kModeAesGcm] (avail b) (avail_bytes_ok b (op_wf _ Ho))) as [Hcb Htb].
  destruct (GCM_seal (tx_key_ (keys l)) nonce [kModeAesGcm] (avail b)) as [ct tag]. cbn [fst snd] in *.
  change (kHeaderLen) with 8. change kTagLen with 16. rewrite <- Hcl in *.
  destruct (reserve_fresh 2 (2 + 1 + 8 + zlen ct + 16)) as (R0 & Hrc0 & Hwc0 & Ha0 & _); [lia|lia|].
  set (b0 := (ReserveExact _ _).2) in *. replace (2 + 1 + 8 + zlen ct + 16 - 2) with (1 + (8 + (zlen ct + (16 + 0)))) in R0 by lia.
  pose proof (WriteInt_filled 1 kModeAesGcm _ b0 R0 ltac:(lia) ltac:(lia)) as F1. change (enc LittleEndian 1 kModeAesGcm) with [kModeAesGcm] in F1.
  set (b1 := WriteInt 1 kModeAesGcm b0) in *.
  destruct (SkipWrite_filled 8 _ b1 (fi_roomy _ _ _ _ F1) ltac:(lia) ltac:(lia)) as (z & Hz & F2). set (b2 := SkipWrite 8 b1) in *.
  pose proof (store_filled ct (16 + 0) b2 (fi_roomy _ _ _ _ F2) Hcb ltac:(lia)) as F3. set (b3 := CommitWrite _ _) in *.
  pose proof (Write_filled tag 0 b3) as F4. rewrite Htl in F4. specialize (F4 (fi_roomy _ _ _ _ F3) Htb ltac:(lia)). set (b4 := Write tag b3) in *.
  pose proof (filled_trans _ _ _ _ _ _ _ F2 (filled_trans _ _ _ _ _ _ _ F3 F4)) as F24. pose proof (filled_trans _ _ _ _ _ _ _ F1 F24) as F.
  assert (Ha4 : avail b4 = [kModeAesGcm] ++ z ++ ct ++ tag) by (rewrite (fi_avail _ _ _ _ F), Ha0; done).
  assert (Hpos : write_cursor_ b1 = read_cursor_ b4 + zlen [kModeAesGcm]) by (rewrite (fi_wc _ _ _ _ F1), (fi_rc _ _ _ _ F); cbn; lia).
  rewrite Hpos, Write_put.
  destruct (overwrite_avail (zlen (s :: WriteCounter n)) (fun _ => s :: WriteCounter n) (s :: WriteCounter n) b4 [kModeAesGcm] z (ct ++ tag))
    as (Ho5 & Ha5 & Hr5 & Hd5 & _); try done; [apply (ro_opened _ _ (fi_roomy _ _ _ _ F))|by constructor; [unfold is_byte|apply WriteCounter_ok]|].
  eexists _, c'. split; [done|]. split; [split; [done| |done]|by split_and!]. rewrite Hr5, (fi_rc _ _ _ _ F). lia.
Qed.

(** The message a decrypted payload is returned in. *)
Definition opened_message (len : Z) (p : list Z) : Buffer :=
  let out := (ReserveExact len (Buffer_new LittleEndian)).2 in CommitWrite (zlen p) (store (write_cursor_ out) p out).

Lemma opened_message_spec p : zlen p <= 2 ^ 30 -> bytes_ok p ->
  opened (opened_message (zlen p) p) /\ avail (opened_message (zlen p) p) = p /\ last_error_ (opened_message (zlen p) p) = NoError.
Proof.
  intros HL Hok. destruct (reserve_fresh 0 (zlen p)) as (R & _ & _ & Ha & He); [lia|lia|].
  change (ReserveHeadroom 0 (Buffer_new LittleEndian)) with (Buffer_new LittleEndian) in *.
  replace (zlen p - 0) with (zlen p + 0) in R by lia. destruct (store_filled p 0 _ R Hok ltac:(lia)) as [R' Ha' _ _ He'].
  split; [apply R'|]. unfold opened_message. rewrite Ha', Ha, He', He. done.
Qed.

(** A message long enough for a header and a tag, mode byte 2. *)
Lemma HandleDecrypt_body evp b l s hdr ct tag : opened b -> avail b = [kModeAesGcm] ++ (s :: hdr) ++ ct ++ tag ->
  length hdr = 7%nat -> zlen tag = 16 -> zlen ct <= 2 ^ 30 -> key_filled_ l = true ->
  HandleDecrypt evp b l =
  match open_next evp (keys l) s (ReadCounter hdr) ct tag (cipher l) with
  | (None, c) => (None, set_cipher c l)
  | (Some p, c) => (Some (opened_message (zlen ct) p), set_cipher c l)
  end.
Proof.
  intros Ho E Hh Ht Hct Hk. unfold HandleDecrypt.
  destruct (ReadInt1_opened kModeAesGcm ((s :: hdr) ++ ct ++ tag) b Ho E ltac:(done)) as (b1 & -> & Ho1 & Ha1 & _). rewrite Hk.
  change (kModeAesGcm =? kModePlaintext) with false. change (kModeAesGcm =? kModeAesCbc) with false. rewrite Z.eqb_refl. cbn [negb].
  pose proof (readable_avail b1 (op_wf _ Ho1)) as Hr1. rewrite Ha1, !length_app in Hr1. cbn [length] in Hr1.
  change (kHeaderLen + kTagLen) with 24. destruct (Z.ltb_spec (readable_bytes b1) 24); [lia|].
  destruct (Read_opened kHeaderLen (repeat 0 (Z.to_nat kHeaderLen)) (s :: hdr) (ct ++ tag) b1 Ho1 Ha1) as (b2 & -> & Ho2 & Ha2 & _);
    [cbn [length]; change kHeaderLen with 8; lia|by change kHeaderLen with 8|].
  pose proof (readable_avail b2 (op_wf _ Ho2)) as Hr2. rewrite Ha2, length_app in Hr2.
  assert (Hlen : i32 (readable_bytes b2 - kTagLen) = zlen ct) by (unfold i32; change kTagLen with 16; rewrite Z.mod_small; lia).
  rewrite Hlen. destruct (opened_split b2 ct tag Ho2 Ha2) as (HL & H1 & H2).
  rewrite (load_avail b2 ct tag (op_wf _ Ho2) (opened_in_range _ Ho2) Ha2).
  assert (Htag : (load (read_cursor_ b2 + zlen ct) kTagLen b2).1 = tag).
  { pose proof (wf_store _ (op_wf _ Ho2)) as Hst. pose proof (wf_rc _ (op_wf _ Ho2)). unfold store_ok, load in *. change kTagLen with 16.
    destruct (data_ b2) as [d|]; cbn [default] in *; [|lia]. destruct Hst as (Hz & Hwa & _).
    destruct (Z.leb_spec 0 (read_cursor_ b2 + zlen ct)); [|lia]. destruct (Z.leb_spec (read_cursor_ b2 + zlen ct + 16) (zlen d)); [|lia].
    cbn. by rewrite <- Ht. }
  rewrite Htag. cbn [lookup list_lookup default drop fst]. rewrite (u64_small (zlen ct)) by (unfold size_max; lia). done.
Qed.

(** Any message: refused, or of that form. *)
Lemma HandleDecrypt_shape evp b l : opened b -> zlen (avail b) <= 2 ^ 30 -> key_filled_ l = true ->
  HandleDecrypt evp b l = (None, l) \/
  exists s hdr ct tag, avail b = [kModeAesGcm] ++ (s :: hdr) ++ ct ++ tag /\ length hdr = 7%nat /\ zlen tag = 16 /\ zlen ct <= 2 ^ 30 /\
    is_byte s /\ bytes_ok hdr /\ bytes_ok ct.
Proof.
  intros Ho HL Hk. pose proof (avail_bytes_ok b (op_wf _ Ho)) as Hok. destruct (avail b) as [|mode rest] eqn:Ea.
  { left. unfold HandleDecrypt, ReadInt. rewrite ReadNumber_short; [|apply Ho|lia|rewrite (readable_avail b (op_wf _ Ho)), Ea; cbn; lia]. cbn. by rewrite Hk. }
  apply Forall_cons in Hok as [Hm Hok]. destruct (ReadInt1_opened mode rest b Ho Ea Hm) as (b1 & E1 & Ho1 & Ha1 & _).
  destruct (decide (mode = kModeAesGcm /\ 24 <= zlen rest)) as [ [-> H24]|Hno].
  - right. destruct rest as [|s rest]; [cbn in H24; lia|]. apply Forall_cons in Hok as [Hs Hok]. cbn [length] in *.
    exists s, (take 7 rest), (take (length rest - 23) (drop 7 rest)), (drop (length rest - 23) (drop 7 rest)).
    split; [cbn; by rewrite !take_drop|]. rewrite !length_take, !length_drop. split; [lia|]. split; [lia|]. split; [lia|]. split; [done|].
    split; [by apply Forall_take|by apply Forall_take, Forall_drop].
  - left. unfold HandleDecrypt. rewrite E1, Hk. destruct (mode =? kModePlaintext); [done|]. destruct (mode =? kModeAesCbc); [done|].
    destruct (Z.eqb_spec mode kModeAesGcm) as [->|]; [|done]. cbn [negb]. change (kHeaderLen + kTagLen) with 24.
    rewrite (readable_avail b1 (op_wf _ Ho1)), Ha1. destruct (Z.ltb_spec (zlen rest) 24); [done|]. exfalso. apply Hno. split; [done|lia].
Qed.

(** [C28] Once a session has keys, a message is delivered only if it is
    authentic and new: it carries mode 2, its tag verifies under the receiving
    direction's key and the nonce of its stream and counter, its payload is
    exactly what that opens to, and its counter was not accepted before in its
    stream; plaintext, the retired CBC mode and short messages are refused,
    whichever OpenSSL calls fail.  The counter is recorded from then on. *)
Theorem only_authentic_delivered (evp : EvpCall -> bool) (b out : Buffer) (l l' : EncryptionLayer) (seen : Seen)
  (Hb : opened b) (HL : zlen (avail b) <= 2 ^ 30) (Hk : key_filled_ l = true) (Ho : opening (keys l) seen (cipher l))
  (HD : HandleDecrypt evp b l = (Some out, l')) :
  exists s n ct tag, avail b = [kModeAesGcm] ++ (s :: WriteCounter n) ++ ct ++ tag /\ 0 <= s < 256 /\ 0 <= n < 2 ^ 56 /\ zlen tag = 16 /\
    GCM_open (rx_key_ (keys l)) (BuildNonce (rx_salt_ (keys l)) s n) [kModeAesGcm] ct tag = Some (avail out) /\
    (n ∉ seen s) /\ opening (keys l) (see s n seen) (cipher l') /\ keys l' = keys l.
Proof.
  destruct (HandleDecrypt_shape evp b l Hb HL Hk) as [E|(s & hdr & ct & tag & E & Hh & Ht & Hct & Hs & Hok & Hctok)]; [by rewrite E in HD|].
  rewrite (HandleDecrypt_body evp b l s hdr ct tag) in HD by done. unfold is_byte in Hs. pose proof (ReadCounter_range hdr Hok Hh) as Hn.
  pose proof (open_next_cases evp (keys l) s (ReadCounter hdr) ct tag (cipher l) seen Ho ltac:(lia) Hn) as Hcase.
  destruct (open_next _ _ _ _ _ _ _) as [ [p|] c]; [|done]. injection HD as <- <-. destruct Hcase as (Hopen & Hf & Hop).
  destruct (open_length _ _ _ _ _ _ Hctok Hopen) as [Hpl Hpb]. rewrite <- Hpl.
  destruct (opened_message_spec p ltac:(lia) Hpb) as (_ & Ha & _). rewrite Ha.
  exists s, (ReadCounter hdr), ct, tag. rewrite WriteCounter_Read by done. pose proof (fresh_not_seen _ _ Hf). by split_and!; try lia.
Qed.

(** ** A channel *)

(** One direction of a session: messages, each with its stream, handed to the
    sender in order; the bytes that leave. *)
Fixpoint seal_all (ms : list (Z * Buffer)) (l : EncryptionLayer) : list (option (list Z)) * EncryptionLayer :=
  match ms with
  | [] => ([], l)
  | (s, b) :: ms =>
      let '(nb, l) := HandleOut all_ok b s l in
      let '(ws, l) := seal_all ms l in
      ((avail <$> nb) :: ws, l)
  end.

(** Messages handed to the receiver; what comes out of each. *)
Fixpoint open_all (bs : list Buffer) (l : EncryptionLayer) : list (option (list Z)) * EncryptionLayer :=
  match bs with
  | [] => ([], l)
  | b :: bs =>
      let '(out, l) := HandleIn all_ok b l in
      let '(ps, l) := open_all bs l in
      ((avail <$> out) :: ps, l)
  end.

(** The counter of message [i]: how many messages of its stream precede it. *)
Definition number_of (ss : list Z) (i : nat) : Z := zlen (filter (fun s => s = ss !!! i) (take i ss)).

(** What arrives, [ids] naming messages in the order of arrival: a message comes
    out unless its number was accepted before or is more than 64 behind. *)
Fixpoint arrivals (ss : list Z) (ids : list nat) (seen : Seen) : list bool :=
  match ids with
  | [] => []
  | i :: ids =>
      let ok := fresh (number_of ss i) (seen (ss !!! i)) in
      ok :: arrivals ss ids (if ok then see (ss !!! i) (number_of ss i) seen else seen)
  end.

Lemma number_of_range ss i : 0 <= number_of ss i <= Z.of_nat i.
Proof. unfold number_of. pose proof (length_filter (fun s => s = ss !!! i) (take i ss)) as H. rewrite length_take in H. lia. Qed.

Lemma number_of_S s ss i : number_of (s :: ss) (S i) = (if decide (s = ss !!! i) then 1 else 0) + number_of ss i.
Proof. unfold number_of. cbn [take]. rewrite filter_cons. change ((s :: ss) !!! S i) with (ss !!! i). case_decide; cbn [length]; lia. Qed.

(** Later messages of a stream have higher numbers. *)
Lemma number_of_mono ss i j : (i < j)%nat -> (j < length ss)%nat -> ss !!! i = ss !!! j -> number_of ss i < number_of ss j.
Proof.
  intros Hij Hj E. unfold number_of. rewrite <- E. replace j with (i + S (j - i - 1))%nat by lia.
  rewrite <- take_take_drop, filter_app, length_app. destruct (lookup_lt_is_Some_2 ss i ltac:(lia)) as [x Hx].
  rewrite (drop_S ss x i Hx). cbn [take]. rewrite filter_cons_True by (symmetry; by apply list_lookup_total_correct). cbn [length]. lia.
Qed.

Lemma seal_all_spec ms l : sealing (keys l) (cipher l) -> enable_encryption_ l = true -> keys_ok (keys l) ->
  Forall (fun m => 0 <= m.1 < 256 /\ opened m.2 /\ zlen (avail m.2) <= 2 ^ 30) ms ->
  (forall s, 0 <= s -> counter_of s (cipher l) + zlen ms <= kMaxCounter) ->
  length (seal_all ms l).1 = length ms /\
  forall i s b, ms !! i = Some (s, b) -> (seal_all ms l).1 !! i =
    Some (Some (sealed_bytes (tx_key_ (keys l)) (tx_salt_ (keys l)) s (counter_of s (cipher l) + number_of ms.*1 i) (avail b))).
Proof.
  intros Hc He Hk Hms. revert l Hc He Hk. induction Hms as [|[s0 b0] ms (Hs0 & Hb0 & HL0) Hms IH]; intros l Hc He Hk Hmax; [done|]. cbn [fst snd] in *.
  assert (Hlt : counter_of s0 (cipher l) < kMaxCounter) by (specialize (Hmax s0 ltac:(lia)); cbn [length] in Hmax; lia).
  destruct (HandleOut_sealed b0 s0 l Hb0 HL0 Hs0 He Hk Hc Hlt) as (nb & c' & E & _ & Ha & Hc' & Hcnt). cbn [seal_all]. rewrite E.
  destruct (IH (set_cipher c' l)) as [IH1 IH2]; [done|done|done| |].
  { intros s Hs. cbn [set_cipher cipher]. rewrite Hcnt by done. specialize (Hmax s Hs). cbn [length] in Hmax. destruct (Z.eqb_spec s s0) as [->|]; lia. }
  destruct (seal_all ms (set_cipher c' l)) as [ws l1]. cbn [fst] in *. split; [cbn; by rewrite IH1|].
  intros [|i] s b Hi.
  - injection Hi as -> ->. cbn. rewrite Ha. unfold number_of. cbn. by rewrite Z.add_0_r.
  - change (((avail <$> Some nb) :: ws) !! S i) with (ws !! i). change (((s0, b0) :: ms) !! S i) with (ms !! i) in Hi. rewrite (IH2 i s b Hi). cbn [set_cipher cipher keys fmap list_fmap fst]. do 2 f_equal.
    assert (Hss : (ms.*1 !!! i) = s) by (apply list_lookup_total_correct; by rewrite list_lookup_fmap, Hi).
    assert (Hs : 0 <= s < 256) by (apply (Forall_lookup_1 _ _ _ _ Hms Hi)). change (fst <$> ms) with (ms.*1).
    rewrite number_of_S, Hss, Hcnt by lia. destruct (Z.eqb_spec s s0) as [->|]; [rewrite decide_True by done|rewrite decide_False by congruence]; f_equal; lia.
Qed.

(** The receiver, fed sealed messages of its direction. *)
Lemma HandleIn_sealed w s n p l seen : opened w -> avail w = sealed_bytes (rx_key_ (keys l)) (rx_salt_ (keys l)) s n p ->
  zlen p <= 2 ^ 30 -> key_filled_ l = true -> keys_ok (keys l) -> opening (keys l) seen (cipher l) -> 0 <= s < 256 -> 0 <= n < 2 ^ 56 -> bytes_ok p ->
  exists out c', HandleIn all_ok w l = (out, set_cipher c' l) /\
    opening (keys l) (if fresh n (seen s) then see s n seen else seen) c' /\
    match out with
    | Some out => fresh n (seen s) = true /\ opened out /\ avail out = p /\ last_error_ out = NoError
    | None => fresh n (seen s) = false
    end.
Proof.
  intros Ho E HL Hk (_ & Hk2 & _ & Hk4) Hop Hs Hn Hok. unfold sealed_bytes in E.
  pose proof (length_nonce (rx_salt_ (keys l)) s n Hk4) as Hnl.
  pose proof (seal_length (rx_key_ (keys l)) (BuildNonce (rx_salt_ (keys l)) s n) [kModeAesGcm] p Hk2 Hnl) as Hcl.
  pose proof (seal_tag (rx_key_ (keys l)) (BuildNonce (rx_salt_ (keys l)) s n) [kModeAesGcm] p Hk2 Hnl) as Htl.
  pose proof (open_seal (rx_key_ (keys l)) (BuildNonce (rx_salt_ (keys l)) s n) [kModeAesGcm] p Hk2 Hnl) as Hopen.
  destruct (GCM_seal _ _ _ _) as [ct tag]. cbn [fst snd] in *. unfold HandleIn.
  rewrite (HandleDecrypt_body all_ok w l s (WriteCounter n) ct tag) by (done || lia). rewrite ReadCounter_Write by done.
  pose proof (open_next_cases all_ok (keys l) s n ct tag (cipher l) seen Hop ltac:(lia) Hn) as Hcase. rewrite Hopen in Hcase.
  destruct (open_next _ _ _ _ _ _ _) as [ [q|] c].
  - destruct Hcase as ([= <-] & Hf & Hop'). exists (Some (opened_message (zlen ct) p)), c. rewrite Hf, Hcl. split; [done|]. split; [done|]. split; [done|].
    apply opened_message_spec; [done|done].
  - destruct Hcase as [Hop' Hf]. destruct (Hf (fun _ => eq_refl)) as [?|Hf']; [done|]. exists None, c. by rewrite Hf'.
Qed.

(** The messages that came out, of those that arrived. *)
Definition delivered (ids : list nat) (oks : list bool) : list nat := (zip ids oks) ≫= fun '(i, ok) => if ok : bool then [i] else [].

Definition payload (ms : list (Z * Buffer)) (i : nat) : list Z := default [] ((fun m => avail m.2) <$> ms !! i).

Lemma sealed_bytes_ok key salt s n p : zlen key = 32 -> zlen salt = 4 -> 0 <= s < 256 -> zlen p <= 2 ^ 30 -> bytes_ok p ->
  zlen (sealed_bytes key salt s n p) <= 2 ^ 31 /\ bytes_ok (sealed_bytes key salt s n p).
Proof.
  intros Hk Hsl Hs HL Hok. unfold sealed_bytes. pose proof (length_nonce salt s n Hsl) as Hnl.
  pose proof (seal_length key (BuildNonce salt s n) [kModeAesGcm] p Hk Hnl). pose proof (seal_tag key (BuildNonce salt s n) [kModeAesGcm] p Hk Hnl).
  pose proof (seal_bytes key (BuildNonce salt s n) [kModeAesGcm] p Hok) as [? ?]. destruct (GCM_seal _ _ _ _) as [ct tag]. cbn [fst snd] in *.
  split; [rewrite !length_app; change (length [kModeAesGcm]) with 1%nat; change (length (s :: WriteCounter n)) with 8%nat; lia|].
  apply bytes_ok_app. split; [by repeat constructor|]. apply bytes_ok_app. split; [constructor; [done|apply WriteCounter_ok]|by apply bytes_ok_app].
Qed.

Lemma open_all_spec (ms : list (Z * Buffer)) wire ids l seen : key_filled_ l = true -> keys_ok (keys l) -> opening (keys l) seen (cipher l) ->
  Forall (fun m => 0 <= m.1 < 256 /\ opened m.2 /\ zlen (avail m.2) <= 2 ^ 30) ms -> zlen ms <= 2 ^ 56 - 1 ->
  Forall (fun i => (i < length ms)%nat) ids ->
  (forall i s b, ms !! i = Some (s, b) -> wire i = sealed_bytes (rx_key_ (keys l)) (rx_salt_ (keys l)) s (number_of ms.*1 i) (avail b)) ->
  (open_all ((fun i => received LittleEndian (wire i)) <$> ids) l).1 = zip_with (fun i ok => if ok : bool then Some (payload ms i) else None) ids (arrivals ms.*1 ids seen).
Proof.
  intros Hk Hks Hop Hms Hmax Hids Hw. revert l seen Hk Hks Hop Hw. induction Hids as [|i ids Hi _ IH]; intros l seen Hk Hks Hop Hw; [done|].
  cbn [fmap list_fmap open_all arrivals zip_with]. destruct (lookup_lt_is_Some_2 ms i Hi) as [ [s b] Hib].
  destruct (Forall_lookup_1 _ _ _ _ Hms Hib) as (Hs & Hb & HL). cbn [fst snd] in *. set (n := number_of ms.*1 i).
  assert (Hss : ms.*1 !!! i = s) by (apply list_lookup_total_correct; by rewrite list_lookup_fmap, Hib). rewrite Hss.
  pose proof (number_of_range ms.*1 i) as Hn. fold n in Hn. pose proof (avail_bytes_ok b (op_wf _ Hb)) as Hbok.
  assert (Hp : payload ms i = avail b) by (unfold payload; by rewrite Hib).
  pose proof (Hw i s b Hib) as Ew. fold n in Ew. destruct Hks as (Hk1 & Hk2 & Hk3 & Hk4).
  assert (Hwl : zlen (wire i) <= 2 ^ 31 /\ bytes_ok (wire i)) by (rewrite Ew; by apply sealed_bytes_ok).
  destruct (received_opened (wire i) (proj2 Hwl) (proj1 Hwl)) as (Ho & Ha & _). apply (fun H => eq_trans H Ew) in Ha.
  destruct (HandleIn_sealed (received LittleEndian (wire i)) s n (avail b) l seen Ho Ha HL Hk ltac:(done) Hop Hs ltac:(lia) Hbok) as (out & c' & -> & Hop' & Hout).
  specialize (IH (set_cipher c' l) (if fresh n (seen s) then see s n seen else seen) Hk ltac:(done) Hop' Hw).
  destruct (open_all ((fun i => received LittleEndian (wire i)) <$> ids) (set_cipher c' l)) as [ps l1]. cbn [fst] in *. rewrite IH. f_equal.
  destruct out as [out|]; [|by rewrite Hout]. destruct Hout as (-> & _ & E & _). cbn. by rewrite E, Hp.
Qed.

Lemma delivered_fresh ss ids seen : Forall (fun i => (i < length ss)%nat) ids ->
  NoDup (delivered ids (arrivals ss ids seen)) /\
  forall i, i ∈ delivered ids (arrivals ss ids seen) -> (i < length ss)%nat /\ (number_of ss i ∉ seen (ss !!! i)).
Proof.
  intros Hids. revert seen. induction Hids as [|i ids Hi _ IH]; intros seen; [split; [constructor|]; intros i Hi; by apply not_elem_of_nil in Hi|].
  cbn [arrivals]. set (ok := fresh _ _). destruct (IH (if ok then see (ss !!! i) (number_of ss i) seen else seen)) as [IH1 IH2].
  unfold delivered in *. cbn [zip zip_with mbind list_bind]. destruct ok eqn:Eok; cbn [app]; [|done]. split.
  - constructor; [|done]. intros Hin. destruct (IH2 i Hin) as [_ Hn]. apply Hn. unfold see. rewrite Z.eqb_refl. constructor.
  - intros j [->|Hj]%elem_of_cons; [split; [done|]; by apply fresh_not_seen|]. destruct (IH2 j Hj) as [Hlt Hn]. split; [done|]. unfold see in Hn.
    destruct (Z.eqb_spec (ss !!! j) (ss !!! i)); [|done]. intros Hin. apply Hn. by constructor.
Qed.

(** What was sealed, however it arrives. *)
Lemma channel_run (ms : list (Z * Buffer)) (ids : list nat) (l r : EncryptionLayer)
  (Hms : Forall (fun m => 0 <= m.1 < 256 /\ opened m.2 /\ zlen (avail m.2) <= 2 ^ 30) ms) (Hmax : zlen ms <= 2 ^ 56 - 1)
  (Hids : Forall (fun i => (i < length ms)%nat) ids)
  (Hl : cipher l = Cipher_new) (Hr : cipher r = Cipher_new) (He : enable_encryption_ l = true) (Hk : key_filled_ r = true)
  (Hkl : keys_ok (keys l)) (Hkr : keys_ok (keys r))
  (Hkey : rx_key_ (keys r) = tx_key_ (keys l)) (Hsalt : rx_salt_ (keys r) = tx_salt_ (keys l)) :
  exists ws, (seal_all ms l).1 = Some <$> ws /\
    (open_all ((fun i => received LittleEndian (ws !!! i)) <$> ids) r).1 =
      zip_with (fun i ok => if ok : bool then Some (payload ms i) else None) ids (arrivals ms.*1 ids (fun _ => [])).
Proof.
  destruct (seal_all_spec ms l) as [HL Hw]; try done.
  { rewrite Hl. apply sealing_new. }
  { intros s _. rewrite Hl, kMaxCounter_value, counter_new. lia. }
  assert (Hws : forall os : list (option (list Z)), (forall i o, os !! i = Some o -> is_Some o) -> exists ws, os = Some <$> ws).
  { clear. induction os as [|o os IH]; intros H; [by exists []|]. destruct (H 0%nat o eq_refl) as [w ->]. destruct IH as [ws ->]; [intros i; apply (H (S i))|]. by exists (w :: ws). }
  destruct (Hws (seal_all ms l).1) as [ws Ews].
  { intros i o Hi. destruct (lookup_lt_is_Some_2 ms i) as [ [s b] Hib]; [rewrite <- HL; by eapply lookup_lt_Some|].
    rewrite (Hw i s b Hib) in Hi. injection Hi as <-. by eexists. }
  exists ws. split; [done|].
  apply open_all_spec; try done; [rewrite Hr; apply opening_new|]. intros i s b Hib. specialize (Hw i s b Hib). rewrite Ews, list_lookup_fmap, Hl, counter_new in Hw.
  destruct (ws !! i) as [w|] eqn:Ewi; [|done]. injection Hw as Hw. rewrite (list_lookup_total_correct _ _ _ Ewi), Hw, Hkey, Hsalt. done.
Qed.

(** A direction of an encrypted session over a transport that may lose,
    reorder and duplicate: with the receiver's keys the mirror of the sender's,
    every message that arrives comes out with the payload that was sent, unless
    its number was accepted before or is more than 64 behind the newest accepted
    of its stream; in particular none comes out twice. *)
Theorem sealed_channel (ms : list (Z * Buffer)) (ids : list nat) (l r : EncryptionLayer)
  (Hms : Forall (fun m => 0 <= m.1 < 256 /\ opened m.2 /\ zlen (avail m.2) <= 2 ^ 30) ms) (Hmax : zlen ms <= 2 ^ 56 - 1)
  (Hids : Forall (fun i => (i < length ms)%nat) ids)
  (Hl : cipher l = Cipher_new) (Hr : cipher r = Cipher_new) (He : enable_encryption_ l = true) (Hk : key_filled_ r = true)
  (Hkl : keys_ok (keys l)) (Hkr : keys_ok (keys r))
  (Hkey : rx_key_ (keys r) = tx_key_ (keys l)) (Hsalt : rx_salt_ (keys r) = tx_salt_ (keys l)) :
  exists ws, (seal_all ms l).1 = Some <$> ws /\
    (open_all ((fun i => received LittleEndian (ws !!! i)) <$> ids) r).1 =
      zip_with (fun i ok => if ok : bool then Some (payload ms i) else None) ids (arrivals ms.*1 ids (fun _ => [])) /\
    NoDup (delivered ids (arrivals ms.*1 ids (fun _ => []))).
Proof.
  destruct (channel_run ms ids l r Hms Hmax Hids Hl Hr He Hk Hkl Hkr Hkey Hsalt) as (ws & H1 & H2).
  exists ws. split; [done|]. split; [done|]. apply delivered_fresh. by rewrite length_fmap.
Qed.

(** ** Arrival orders *)

Lemma fresh_above c seen : Forall (fun d => 0 <= d < c) seen -> fresh c seen = true.
Proof.
  intros H. destruct seen as [|d seen]; [done|]. unfold fresh. apply orb_true_iff. left. apply Z.ltb_lt.
  assert (Hc : 0 < c) by (apply Forall_cons in H as [? _]; lia). clear - H Hc. induction H; cbn; lia.
Qed.

(** Messages that arrive in the order they were sent, losses aside. *)
Lemma arrivals_sorted ss ids seen : StronglySorted lt ids -> Forall (fun i => (i < length ss)%nat) ids ->
  (forall i, i ∈ ids -> Forall (fun d => 0 <= d < number_of ss i) (seen (ss !!! i))) ->
  arrivals ss ids seen = repeat true (length ids).
Proof.
  intros Hs. revert seen. induction Hs as [|i ids Hs IH Hlt]; intros seen Hids Hseen; [done|]. apply Forall_cons in Hids as [Hi Hids].
  cbn [arrivals length repeat]. rewrite fresh_above by (apply Hseen; constructor). f_equal. apply IH; [done|]. intros j Hj. unfold see.
  pose proof (Hseen j ltac:(by constructor)) as Hold. destruct (Z.eqb_spec (ss !!! j) (ss !!! i)) as [E|]; [|done]. constructor; [|done].
  pose proof (number_of_range ss i). split; [lia|]. apply number_of_mono; [|by apply (proj1 (Forall_forall _ _) Hids)|done].
  by apply (proj1 (Forall_forall _ _) Hlt).
Qed.

Lemma zip_with_true {A B} (f : A -> B) (g : A -> B) l : zip_with (fun i ok => if ok : bool then f i else g i) l (repeat true (length l)) = f <$> l.
Proof. induction l as [|x l IH]; [done|]. cbn. by rewrite IH. Qed.

End Wire.
