(* ===== verification/CryptoExample.v ===== *)
(** * A small instance of the cryptography interface

    Diffie-Hellman modulo 251 and a checksum for a tag: no security, but it
    satisfies every law the development assumes, so the theorems stated against
    the interface apply to something that runs. *)

From S2P Require Import Prelude Buffer BufferSpec BufferCodecs BufferViews ReplayWindow Encryption EncryptionTheorems.

Import Replay Encryption.

Module Toy.

Definition sum (l : list Z) : Z := foldr Z.add 0 l.

Definition tag (k n a ct : list Z) : list Z := repeat (u8 (sum k + 3 * sum n + 5 * sum a + 7 * sum ct)) 16.

Definition expand (secret info : list Z) (len : Z) : list Z :=
  (fun i => u8 (sum secret * 11 + sum info * 7 + i * (1 + sum info))) <$> seqZ 0 len.

(** A private exponent, if known, and the public value. *)
#[global, refine] Instance toy : Crypto := {|
  PKey := option Z * Z;
  i2d_PUBKEY k := Some [u8 k.2];
  d2i_PUBKEY der := match der with [x] => Some (None, x) | _ => None end;
  EVP_PKEY_derive k p := match k.1 with Some a => Some [p.2 ^ a mod 251; 1] | None => None end;
  HKDF_SHA256 salt secret info len := Some (expand secret (salt ++ info) len);
  SHA256 m := Some (expand m [] 32);
  GCM_seal k n a p := (p, tag k n a p);
  GCM_open k n a ct t := if decide (t = tag k n a ct) then Some ct else None
|}.
Proof. Defined.

#[global] Instance toy_gcm : GcmLaws toy.
Proof.
  split; cbn [GCM_seal GCM_open toy fst snd]; try done.
  - intros k n a p Hp. split; [done|]. apply bytes_ok_repeat, u8_range.
  - intros. by rewrite decide_True.
  - intros k n a ct t p Hok E. case_decide; [|done]. by injection E as <-.
Qed.

Definition keypair (a : Z) : option Z * Z := (Some a, 6 ^ a mod 251).

End Toy.
