(* ===== verification/Compression.v ===== *)
(** * Compression of messages (compression.h, compression.cc)

    One byte in front of every message says how it is compressed.  zstd is a
    library: the class [Zstd] has the calls the code makes, and whether the build
    has it (ZNET_USE_ZSTD). *)

From S2P Require Import Prelude Buffer BufferSpec BufferCodecs BufferViews.

Class Zstd := {
  ZNET_USE_ZSTD : bool;
  ZSTD_compressBound : Z -> Z;
  (** [ZSTD_compress(dst, capacity, src, size, level)]: the bytes written *)
  ZSTD_compress : forall (src : list Z) (capacity level : Z), option (list Z);
  (** [ZSTD_getFrameContentSize], [None] for its two error values *)
  ZSTD_getFrameContentSize : list Z -> option Z;
  ZSTD_decompress : forall (src : list Z) (capacity : Z), option (list Z)
}.

(** What zstd documents: a compression bound suffices, and a frame compressed in
    one call records its content size and decompresses to it. *)
Class ZstdLaws (S : Zstd) : Prop := {
  zstd_bound n : 0 <= n <= 2 ^ 30 -> n <= ZSTD_compressBound n <= n + n / 256 + 64;
  zstd_compress src level : bytes_ok src -> zlen src <= 2 ^ 30 -> exists out, ZSTD_compress src (ZSTD_compressBound (zlen src)) level = Some out;
  zstd_fits src cap level out : ZSTD_compress src cap level = Some out -> zlen out <= cap /\ bytes_ok out;
  zstd_size src cap level out : ZSTD_compress src cap level = Some out -> ZSTD_getFrameContentSize out = Some (zlen src);
  zstd_inverse src cap level out : ZSTD_compress src cap level = Some out -> ZSTD_decompress out (zlen src) = Some src;
  zstd_capacity src cap out : ZSTD_decompress src cap = Some out -> zlen out <= cap /\ bytes_ok out
}.

Module Compression.

(** CompressionType, by value; a byte off the wire may be any other. *)
Definition CompressionType : Type := Z.
Definition None_ : CompressionType := 0.
Definition Zstandard : CompressionType := 1.
Definition Default : CompressionType := 255.

Definition GetCompressionTypeRaw (type : CompressionType) : Z := u8 type.

Section Codecs.
Context `{P : Platform} `{S : Zstd}.

Definition ResolveCompressionType (type : CompressionType) : CompressionType :=
  if negb (type =? Default) then type else if ZNET_USE_ZSTD then Zstandard else None_.

(** ** CompressionCodec<None> *)

Definition NoneCodec_HandleIn (buffer : Buffer) : Buffer := buffer.

Definition NoneCodec_HandleOut (buffer : Buffer) : Buffer :=
  match PrependInt8 (GetCompressionTypeRaw None_) buffer with
  | (true, buffer) => buffer
  | (false, _) =>
      let out := ReserveHeadroom 3 (Buffer_new LittleEndian) in
      let out := (ReserveExact (readable_bytes buffer + 4) out).2 in
      let out := WriteInt 1 (GetCompressionTypeRaw None_) out in
      Write (load (read_cursor_ buffer) (readable_bytes buffer) buffer).1 out
  end.

(** ** CompressionCodec<Zstandard> *)

Definition DecompressZstd (buffer : Buffer) : option Buffer :=
  let src := (load (read_cursor_ buffer) (readable_bytes buffer) buffer).1 in
  match ZSTD_getFrameContentSize src with
  | None => None
  | Some decompressed_bound =>
      let new_buffer := (ReserveExact decompressed_bound (Buffer_new LittleEndian)).2 in
      match ZSTD_decompress src decompressed_bound with
      | None => None
      | Some out => Some (CommitWrite (zlen out) (store (write_cursor_ new_buffer) out new_buffer))
      end
  end.

Definition CompressZstd (buffer : Buffer) : option Buffer :=
  let src := (load (read_cursor_ buffer) (readable_bytes buffer) buffer).1 in
  let max_size := ZSTD_compressBound (readable_bytes buffer) in
  let new_buffer := ReserveHeadroom 4 (Buffer_new LittleEndian) in
  let new_buffer := (ReserveExact (4 + max_size) new_buffer).2 in
  match ZSTD_compress src max_size 2 with
  | None => None
  | Some out => Some (CommitWrite (zlen out) (store (write_cursor_ new_buffer) out new_buffer))
  end.

Definition ZstandardCodec_HandleOut (buffer : Buffer) : option Buffer :=
  match CompressZstd buffer with
  | None => None
  | Some compressed =>
      match PrependInt8 (GetCompressionTypeRaw Zstandard) compressed with
      | (true, compressed) => Some compressed
      | (false, _) => None
      end
  end.

(** ** compr *)

Definition HandleOutWithType (type : CompressionType) (buffer : Buffer) : option Buffer :=
  if type =? None_ then Some (NoneCodec_HandleOut buffer)
  else if type =? Zstandard then
    if ZNET_USE_ZSTD then ZstandardCodec_HandleOut buffer else Some (NoneCodec_HandleOut buffer)
  else None.

Definition HandleInWithType (type : CompressionType) (buffer : Buffer) : option Buffer :=
  if type =? None_ then Some (NoneCodec_HandleIn buffer)
  else if type =? Zstandard then if ZNET_USE_ZSTD then DecompressZstd buffer else None
  else None.

Definition HandleInDynamic (buffer : Buffer) : option Buffer :=
  let '(type, buffer) := ReadInt 1 buffer in HandleInWithType type buffer.

(** ** Theorems *)

Context `{!AmplePlatform P}.

(** A message sent with nothing in front gets a byte in front. *)
Lemma NoneCodec_out b : opened b -> zlen (avail b) <= 2 ^ 30 ->
  opened (NoneCodec_HandleOut b) /\ avail (NoneCodec_HandleOut b) = None_ :: avail b /\
  forall h, headroom h b -> 1 <= h -> headroom (h - 1) (NoneCodec_HandleOut b).
Proof.
  intros Ho HL. unfold NoneCodec_HandleOut. destruct (decide (1 <= read_cursor_ b /\ is_Some (data_ b))) as [ [Hr Hd]|Hno].
  - destruct (PrependInt8_avail (GetCompressionTypeRaw None_) b) as (b' & -> & Ho' & Ha' & Hr' & Hd' & _); [by split|].
    split; [done|]. split; [done|]. intros h [_ Hh _] H1. split; [done|lia|done].
  - assert (E : PrependInt8 (GetCompressionTypeRaw None_) b = (false, b)).
    { unfold PrependInt8. destruct (data_ b) as [d|] eqn:Ed; [|done]. destruct (Z.eqb_spec (read_cursor_ b) 0); [done|].
      exfalso. apply Hno. pose proof (wf_rc _ (op_wf _ Ho)). split; [lia|by eexists]. }
    rewrite E. rewrite load_opened, (readable_avail b (op_wf _ Ho)) by done.
    destruct (reserve_fresh 3 (zlen (avail b) + 4)) as (R & Hrc & _ & Ha & _); [lia|lia|].
    replace (zlen (avail b) + 4 - 3) with (1 + (zlen (avail b) + 0)) in R by lia.
    pose proof (WriteInt_filled 1 (GetCompressionTypeRaw None_) _ _ R ltac:(lia) ltac:(lia)) as F1. change (enc LittleEndian 1 (GetCompressionTypeRaw None_)) with [None_] in F1.
    pose proof (Write_filled (avail b) 0 _ (fi_roomy _ _ _ _ F1) (avail_bytes_ok _ (op_wf _ Ho)) ltac:(lia)) as F2.
    destruct (filled_trans _ _ _ _ _ _ _ F1 F2) as [R' Ha' Hrc' _ _]. split; [apply R'|]. split; [rewrite Ha', Ha; done|].
    intros h [_ Hh Hd] H1. exfalso. apply Hno. split; [lia|done].
Qed.

Context `{!ZstdLaws S}.

Lemma zstd_room n : 0 <= n <= 2 ^ 30 -> n <= ZSTD_compressBound n <= n + 2 ^ 22 + 64.
Proof. intros H. pose proof (zstd_bound n H). assert (n / 256 <= 2 ^ 22) by (apply Z.div_le_upper_bound; lia). lia. Qed.

Lemma ZstandardCodec_out b : opened b -> zlen (avail b) <= 2 ^ 30 ->
  exists out b', ZSTD_compress (avail b) (ZSTD_compressBound (zlen (avail b))) 2 = Some out /\
    ZstandardCodec_HandleOut b = Some b' /\ headroom 3 b' /\ avail b' = Zstandard :: out.
Proof.
  intros Ho HL. unfold ZstandardCodec_HandleOut, CompressZstd. rewrite load_opened, (readable_avail b (op_wf _ Ho)) by done.
  destruct (zstd_compress (avail b) 2 (avail_bytes_ok _ (op_wf _ Ho)) HL) as [out E]. rewrite E. destruct (zstd_fits _ _ _ _ E) as [Hf Hok].
  pose proof (zstd_room (zlen (avail b)) ltac:(lia)) as Hb. set (m := ZSTD_compressBound _) in *.
  destruct (reserve_fresh 4 (4 + m)) as (R & Hrc & _ & Ha & _); [lia|lia|]. replace (4 + m - 4) with (zlen out + (m - zlen out)) in R by lia.
  destruct (store_filled out (m - zlen out) _ R Hok ltac:(lia)) as [R' Ha' Hrc' _ _]. rewrite Ha in Ha'. cbn [app] in Ha'.
  set (b1 := CommitWrite _ _) in *. assert (Hh : headroom 1 b1) by (split; [apply R'|lia|apply R']).
  destruct (PrependInt8_avail (GetCompressionTypeRaw Zstandard) b1 Hh) as (b' & Ep & Ho' & Ha2 & Hr2 & Hd2 & _).
  rewrite Ep. exists out, b'. split; [done|]. split; [done|]. split; [split; [done|lia|done]|]. by rewrite Ha2, Ha'.
Qed.

Lemma DecompressZstd_in b src : opened b -> zlen src <= 2 ^ 30 ->
  ZSTD_getFrameContentSize (avail b) = Some (zlen src) -> ZSTD_decompress (avail b) (zlen src) = Some src ->
  exists b', DecompressZstd b = Some b' /\ opened b' /\ avail b' = src /\ last_error_ b' = NoError.
Proof.
  intros Ho HL E1 E2. unfold DecompressZstd. rewrite load_opened by done. rewrite E1, E2. destruct (zstd_capacity _ _ _ E2) as [_ Hok].
  destruct (reserve_fresh 0 (zlen src)) as (R & _ & _ & Ha & He); [lia|lia|].
  change (ReserveHeadroom 0 (Buffer_new LittleEndian)) with (Buffer_new LittleEndian) in *. replace (zlen src - 0) with (zlen src + 0) in R by lia.
  destruct (store_filled src 0 _ R Hok ltac:(lia)) as [R' Ha' _ _ He']. eexists. split; [done|]. split; [apply R'|]. by rewrite Ha', Ha, He', He.
Qed.

(** What the receiving side makes of the bytes of a message. *)
Lemma compression_inverse type b b2 : opened b -> zlen (avail b) <= 2 ^ 30 -> type = None_ \/ type = Zstandard ->
  opened b2 -> avail <$> HandleOutWithType type b = Some (avail b2) -> last_error_ b2 = NoError ->
  exists b', HandleInDynamic b2 = Some b' /\ opened b' /\ avail b' = avail b /\ last_error_ b' = NoError.
Proof.
  intros Ho HL Hty Ho2 E Hn.
  assert (Hnone : avail b2 = None_ :: avail b -> exists b', HandleInDynamic b2 = Some b' /\ opened b' /\ avail b' = avail b /\ last_error_ b' = NoError).
  { intros Ea. destruct (ReadInt1_opened None_ (avail b) b2 Ho2 Ea ltac:(done)) as (b' & E' & Ho' & Ha' & Hn').
    exists b'. unfold HandleInDynamic. rewrite E'. by rewrite Hn'. }
  destruct (NoneCodec_out b Ho HL) as (_ & Ha & _). unfold HandleOutWithType in E. destruct Hty as [-> | ->].
  - apply Hnone. cbn in E. injection E as <-. done.
  - change (Zstandard =? None_) with false in E. rewrite Z.eqb_refl in E. destruct ZNET_USE_ZSTD eqn:Hz; [|apply Hnone; cbn in E; injection E as <-; done].
    destruct (ZstandardCodec_out b Ho HL) as (out & b1 & Ec & E1 & _ & Ha1). rewrite E1 in E. cbn in E. injection E as E. rewrite Ha1 in E. symmetry in E.
    destruct (ReadInt1_opened Zstandard out b2 Ho2 E ltac:(done)) as (b3 & E3 & Ho3 & Ha3 & _).
    destruct (DecompressZstd_in b3 (avail b)) as (b' & E4 & H4); [done|done|rewrite Ha3; by eapply zstd_size|rewrite Ha3; by eapply zstd_inverse|].
    exists b'. unfold HandleInDynamic, HandleInWithType. rewrite E3. change (Zstandard =? None_) with false. rewrite Z.eqb_refl, Hz. done.
Qed.

End Codecs.

(** Compression round trips: a message compressed in either mode, in a
    build with or without zstd, and received in a buffer of its own is the
    message that was sent. *)
Theorem compression_roundtrip {P : Platform} {S : Zstd} (A : AmplePlatform P) (L : ZstdLaws S) (type : CompressionType) (b : Buffer)
  (Hb : opened b) (HL : zlen (avail b) <= 2 ^ 30) (Hty : type = None_ \/ type = Zstandard) :
  exists out b', HandleOutWithType type b = Some out /\ HandleInDynamic (received LittleEndian (avail out)) = Some b' /\
    avail b' = avail b /\ last_error_ b' = NoError.
Proof.
  assert (Hout : exists out, HandleOutWithType type b = Some out /\ zlen (avail out) <= 2 ^ 31 /\ bytes_ok (avail out)).
  { destruct (NoneCodec_out b Hb HL) as (Ho & Ha & _). assert (Hn : exists out, Some (NoneCodec_HandleOut b) = Some out /\ zlen (avail out) <= 2 ^ 31 /\ bytes_ok (avail out)).
    { eexists. split; [done|]. split; [rewrite Ha; cbn [length]; lia|by apply avail_bytes_ok, Ho]. }
    unfold HandleOutWithType. destruct Hty as [-> | ->]; [exact Hn|]. change (Zstandard =? None_) with false. rewrite Z.eqb_refl.
    destruct ZNET_USE_ZSTD; [|exact Hn]. destruct (ZstandardCodec_out b Hb HL) as (o & b1 & Ec & E1 & [Ho1 _ _] & Ha1). exists b1. split; [done|].
    destruct (zstd_fits _ _ _ _ Ec) as [Hf _]. pose proof (zstd_room (zlen (avail b)) ltac:(lia)). split; [rewrite Ha1; cbn [length]; lia|by apply avail_bytes_ok, Ho1]. }
  destruct Hout as (out & E & HL2 & Hok). destruct (received_opened (avail out) Hok HL2) as (Ho2 & Ha2 & Hn2).
  destruct (compression_inverse type b (received LittleEndian (avail out))) as (b' & E' & _ & Ha' & Hn'); try done; [rewrite E, Ha2; done|].
  exists out, b'. done.
Qed.

(** The size a zstd frame claims is reserved unchecked: where it cannot be
    allocated, decompression is handed a null destination with that capacity and
    writes through it. *)
Theorem claimed_size_writes_null {P : Platform} {S : Zstd} (b : Buffer) (size : Z) (out : list Z)
  (Hb : opened b) (Hsize : ZSTD_getFrameContentSize (avail b) = Some size) (Halloc : alloc size = None)
  (Hout : ZSTD_decompress (avail b) size = Some out) (Hne : out <> []) :
  exists b', DecompressZstd b = Some b' /\ ub_ b' = true.
Proof.
  unfold DecompressZstd. rewrite load_opened by done. rewrite Hsize, Hout. eexists. split; [done|].
  unfold ReserveExact, Reserve. cbn [Buffer_new data_]. rewrite Halloc. cbn. destruct out; [done|]. done.
Qed.

End Compression.
