(* ===== verification/ZdtWire.v ===== *)
(** * ZDT wire format (zdt_wire.h, zdt_wire.cc)

    Constants, sequence arithmetic, datagram and record headers, offline
    messages, the relay channel header and the return-routability cookie.  The
    readers and writers are the source's, over [Buffer]; raw-pointer readers
    work on the byte list the pointer and length denote.  HMAC-SHA256,
    [CRYPTO_memcmp] and [RAND_bytes] are OpenSSL's, so they are parameters. *)

From S2P Require Import Prelude Buffer.

(** ** Constants *)

Definition kZDTProtocolVersion : Z := 5.
Definition kZDTCapMigration : Z := 1.
Definition kZDTMagic : list Z := [90; 78; 69; 84; 90; 68; 84; 1].
Definition kFlagFin : Z := 1.
Definition kFlagPing : Z := 2.
Definition kFlagPong : Z := 4.
Definition kFlagHasCid : Z := 8.
Definition kFlagOnline : Z := 128.
Definition kZDTRelayMarker : Z := 192.
Definition kZDTRelayHeaderSize : Z := 4.
Definition kZDTMaxRelayChannel : Z := 16777215.
Definition kRecReliable : Z := 1.
Definition kRecOrdered : Z := 2.
Definition kRecFragment : Z := 4.
Definition kZDTOfflineHeaderSize : Z := 9.
Definition kZDTReflectSize : Z := 64.
Definition kZDTHeaderSize : Z := 6.
Definition kZDTCidSize : Z := 8.
Definition kZDTRecordHeaderSize : Z := 6.
Definition kZDTFragRecordHeaderSize : Z := 8.
Definition kZDTAckHistoryBits : Z := 1024.
Definition kZDTAckHistoryWords : Z := kZDTAckHistoryBits / 64.
Definition kZDTMaxAckBlocks : Z := 24.
Definition kZDTAckBlockSize : Z := 2.
Definition kZDTAckBlocksReserved : Z := 4.
Definition kZDTHeaderReserve : Z :=
  kZDTHeaderSize + kZDTCidSize + kZDTAckBlocksReserved * kZDTAckBlockSize.
Definition kZDTMaxDatagramsInFlight : Z := kZDTAckHistoryBits.
Definition kZDTTailProbeFloorMs : Z := 10.
Definition kZDTCookieLen : Z := 16.

(** Offline message ids, the values of [enum class ZDTOfflineMsg]. *)
Inductive ZDTOfflineMsg :=
  | OpenConnectionRequest1 | OpenConnectionReply1 | OpenConnectionRequest2
  | OpenConnectionReply2 | IncompatibleProtocolVersion | NoFreeConnections
  | AlreadyConnected | ConnectionBanned | Punch | RelayBind | RelayBound
  | Reflect | Reflected | PathChallenge | PathResponse.

Definition offline_id (m : ZDTOfflineMsg) : Z :=
  match m with
  | OpenConnectionRequest1 => 1 | OpenConnectionReply1 => 2 | OpenConnectionRequest2 => 3
  | OpenConnectionReply2 => 4 | IncompatibleProtocolVersion => 5 | NoFreeConnections => 6
  | AlreadyConnected => 7 | ConnectionBanned => 8 | Punch => 9 | RelayBind => 10
  | RelayBound => 11 | Reflect => 12 | Reflected => 13 | PathChallenge => 14 | PathResponse => 15
  end.

(** ** Sequences *)

Definition kPeriod : Z := 2 ^ 16.

(** Rebuilds a full 64-bit sequence from its low 16 bits, nearest [expected]. *)
Definition ReconstructSeq (truncated expected : Z) : Z :=
  let candidate := Z.lor (Z.land expected (Z.ldiff (2 ^ 64 - 1) (kPeriod - 1))) truncated in
  if u64 (candidate + kPeriod / 2) <? expected then u64 (candidate + kPeriod)
  else if (u64 (expected + kPeriod / 2) <=? candidate) && (kPeriod <=? candidate)
  then candidate - kPeriod
  else candidate.

Definition SeqGreater (a b : Z) : bool := 0 <? i16 (a - b).
Definition SeqLess (a b : Z) : bool := i16 (a - b) <? 0.

(** ** Headers *)

Record ZDTAckBlock := mkBlock { num_ack : Z; num_nack : Z }.

Record ZDTHeader := mkHeader {
  h_flags : Z;
  h_cid : Z;
  h_packet_seq : Z;
  h_ack : Z;
  h_blocks : list ZDTAckBlock;
  h_block_count : Z
}.

Definition ZDTHeader_default : ZDTHeader :=
  mkHeader kFlagOnline 0 0 0 (repeat (mkBlock 0 0) 24) 0.

Record ZDTRecord := mkRecord {
  r_flags : Z;
  r_channel : Z;
  r_message_seq : Z;
  r_frag_index : Z;
  r_frag_count : Z;
  r_length : Z
}.

Definition ZDTRecord_default : ZDTRecord := mkRecord 0 0 0 0 1 0.

(** An access past [std::array<ZDTAckBlock, 24>] does not happen below
    [block_count <= 24]; the default only totalises the lookup. *)
Definition block_at (h : ZDTHeader) (i : nat) : ZDTAckBlock :=
  default (mkBlock 0 0) (h_blocks h !! i).

Definition set_block (h : ZDTHeader) (i : nat) (blk : ZDTAckBlock) : ZDTHeader :=
  mkHeader (h_flags h) (h_cid h) (h_packet_seq h) (h_ack h) (<[i := blk]> (h_blocks h)) (h_block_count h).

Section Wire.
Context `{P : Platform}.

Definition WriteZDTHeader (b : Buffer) (h : ZDTHeader) : Buffer :=
  let b := WriteInt 1 (h_flags h) b in
  let b := if has_flag (h_flags h) kFlagHasCid then WriteInt 8 (h_cid h) b else b in
  let b := WriteInt 2 (h_packet_seq h) b in
  let b := WriteInt 2 (h_ack h) b in
  let b := WriteInt 1 (h_block_count h) b in
  foldl (fun b i => WriteInt 1 (num_nack (block_at h i)) (WriteInt 1 (num_ack (block_at h i)) b))
    b (seq 0 (Z.to_nat (h_block_count h))).

(** The loop over the [count] blocks that follow the header. *)
Fixpoint read_blocks (i n : nat) (out : ZDTHeader) (b : Buffer) : ZDTHeader * Buffer :=
  match n with
  | O => (out, b)
  | S n =>
      let '(a, b) := ReadInt 1 b in
      let '(k, b) := ReadInt 1 b in
      read_blocks (S i) n (set_block out i (mkBlock a k)) b
  end.

Definition ReadZDTHeader (b : Buffer) (out : ZDTHeader) : bool * ZDTHeader * Buffer :=
  if readable_bytes b <? 1 then (false, out, b)
  else
    let '(flags, b) := ReadInt 1 b in
    let out := mkHeader flags (h_cid out) (h_packet_seq out) (h_ack out) (h_blocks out) (h_block_count out) in
    if negb (has_flag flags kFlagOnline) then (false, out, b)
    else
      let cid_size := if has_flag flags kFlagHasCid then kZDTCidSize else 0 in
      if readable_bytes b <? (kZDTHeaderSize - 1) + cid_size then (false, out, b)
      else
        let '(cid, b) := if negb (cid_size =? 0) then ReadInt 8 b else (h_cid out, b) in
        let '(packet_seq, b) := ReadInt 2 b in
        let '(ack, b) := ReadInt 2 b in
        let out := mkHeader flags cid packet_seq ack (h_blocks out) (h_block_count out) in
        let '(count, b) := ReadInt 1 b in
        if (kZDTMaxAckBlocks <? count) || (readable_bytes b <? count * kZDTAckBlockSize)
        then (false, out, b)
        else
          let '(out, b) := read_blocks 0 (Z.to_nat count) out b in
          (true, mkHeader (h_flags out) (h_cid out) (h_packet_seq out) (h_ack out) (h_blocks out) count, b).

Definition WriteZDTRecord (b : Buffer) (r : ZDTRecord) : Buffer :=
  let b := WriteInt 1 (r_flags r) b in
  let b := WriteInt 1 (r_channel r) b in
  let b := WriteInt 2 (r_message_seq r) b in
  let b := if has_flag (r_flags r) kRecFragment
           then WriteInt 1 (r_frag_count r) (WriteInt 1 (r_frag_index r) b) else b in
  WriteInt 2 (r_length r) b.

Definition ReadZDTRecord (b : Buffer) (out : ZDTRecord) : bool * ZDTRecord * Buffer :=
  if readable_bytes b <? kZDTRecordHeaderSize then (false, out, b)
  else
    let '(flags, b) := ReadInt 1 b in
    let '(channel, b) := ReadInt 1 b in
    let '(message_seq, b) := ReadInt 2 b in
    if has_flag flags kRecFragment && (readable_bytes b <? 4)
    then (false, mkRecord flags channel message_seq (r_frag_index out) (r_frag_count out) (r_length out), b)
    else
      let '(frag_index, frag_count, b) :=
        if has_flag flags kRecFragment
        then let '(i, b) := ReadInt 1 b in let '(c, b) := ReadInt 1 b in (i, c, b)
        else (0, 1, b) in
      let '(len, b) := ReadInt 2 b in
      (len <=? readable_bytes b, mkRecord flags channel message_seq frag_index frag_count len, b).

Definition WriteOfflineHeader (b : Buffer) (id : Z) : Buffer :=
  Write kZDTMagic (WriteInt 1 id b).

Definition ReadOfflineHeader (b : Buffer) : option Z * Buffer :=
  if readable_bytes b <? 1 + zlen kZDTMagic then (None, b)
  else
    let '(id, b) := ReadInt 1 b in
    if has_flag id kFlagOnline then (None, b)
    else
      let '(magic, b) := Read 1 (zlen kZDTMagic) (repeat 0 8) b in
      if decide (magic = kZDTMagic) then (Some id, b) else (None, b).

(** ** Raw-pointer readers: [data] is the [len] bytes at the pointer *)

Definition byte_at (data : list Z) (i : nat) : Z := default 0 (data !! i).

Definition PeekOfflineHeader (data : list Z) : option Z :=
  if (zlen data <? kZDTOfflineHeaderSize) || negb (Z.land (byte_at data 0) kFlagOnline =? 0) then None
  else if decide (slice 1 (zlen kZDTMagic) data = kZDTMagic) then Some (byte_at data 0) else None.

Definition ReadBigEndian64 (data : list Z) : Z :=
  foldl (fun value i => u64 (Z.lor (Z.shiftl value 8) (byte_at data i))) 0 (seq 0 8).

Definition WriteRelayHeader (b : Buffer) (channel : Z) : Buffer :=
  let b := WriteInt 1 kZDTRelayMarker b in
  let b := WriteInt 1 (u8 (Z.land (Z.shiftr channel 16) 255)) b in
  let b := WriteInt 1 (u8 (Z.land (Z.shiftr channel 8) 255)) b in
  WriteInt 1 (u8 (Z.land channel 255)) b.

Definition ReadRelayHeader (data : list Z) : option Z :=
  if (zlen data <? kZDTRelayHeaderSize) || negb (byte_at data 0 =? kZDTRelayMarker) then None
  else
    let channel := Z.lor (Z.lor (Z.shiftl (byte_at data 1) 16) (Z.shiftl (byte_at data 2) 8)) (byte_at data 3) in
    if channel =? 0 then None else Some channel.

Definition PeekCid (data : list Z) : option Z :=
  if (zlen data <? 1 + kZDTCidSize) || negb (has_flag (byte_at data 0) kFlagHasCid) then None
  else Some (ReadBigEndian64 (drop 1 data)).

(** ** MTU arithmetic *)

Inductive InetProtocolVersion := IPv4 | IPv6 | Unix.

Definition kZDTIPv4Overhead : Z := 28.
Definition kZDTIPv6Overhead : Z := 48.

Definition ZDTDatagramOverhead (ipv : InetProtocolVersion) : Z :=
  match ipv with IPv6 => kZDTIPv6Overhead | _ => kZDTIPv4Overhead end.

Definition ZDTPayloadForLinkMTU (link_mtu : Z) (ipv : InetProtocolVersion) : Z :=
  let overhead := ZDTDatagramOverhead ipv in
  if overhead <? link_mtu then u16 (link_mtu - overhead) else 0.

Definition ZDTRecordSize (fragment : bool) (payload_len : Z) : Z :=
  (if fragment then kZDTFragRecordHeaderSize else kZDTRecordHeaderSize) + payload_len.

(** ** Path validation *)

Record ZDTPathMessage := mkPath { pm_cid : Z; pm_epoch : Z; pm_cookie : list Z }.

Definition WritePathMessage (id : Z) (msg : ZDTPathMessage) : Buffer :=
  let out := Buffer_new BigEndian in
  let out := WriteOfflineHeader out id in
  let out := WriteInt 8 (pm_cid msg) out in
  let out := WriteInt 4 (pm_epoch msg) out in
  Write (pm_cookie msg) out.

Definition ReadPathMessage (b : Buffer) (out : ZDTPathMessage) : bool * ZDTPathMessage * Buffer :=
  if readable_bytes b <? 8 + 4 + kZDTCookieLen then (false, out, b)
  else
    let '(cid, b) := ReadInt 8 b in
    let '(epoch, b) := ReadInt 4 b in
    let '(cookie, b) := Read 1 (zlen (pm_cookie out)) (pm_cookie out) b in
    (true, mkPath cid epoch cookie, b).

(** ** Return-routability cookie *)

Definition cookie_message (peer_readable : list Z) (epoch : Z) : list Z :=
  (peer_readable ++ [124]) ++
  map (fun i => Z.land (Z.shiftr epoch (Z.of_nat i * 8)) 255) (seq 0 4).

Definition ComputeCookie (HMAC : list Z -> list Z -> list Z) (secret peer_readable : list Z) (epoch : Z)
  : list Z :=
  let digest := HMAC secret (cookie_message peer_readable epoch) in
  let copy := Nat.min 16 (length digest) in
  take copy digest ++ repeat 0 (16 - copy)%nat.

Definition ConstTimeEqual (CRYPTO_memcmp : list Z -> list Z -> Z) (a b : list Z) : bool :=
  CRYPTO_memcmp a b =? 0.

End Wire.
