(* ===== verification/ZdtWireTheorems.v ===== *)
(** * Theorems of the ZDT wire layer *)

From S2P Require Import Prelude Buffer BufferSpec BufferCodecs ZdtWire ZdtWireSpec.

(** ** Sequence arithmetic *)

Lemma candidate_eq e t :
  0 <= e < 2 ^ 64 -> 0 <= t < kPeriod ->
  Z.lor (Z.land e (Z.ldiff (2 ^ 64 - 1) (kPeriod - 1))) t = e / kPeriod * kPeriod + t.
Proof.
  intros He Ht. unfold kPeriod in *.
  change (2 ^ 64 - 1) with (Z.ones 64). change (2 ^ 16 - 1) with (Z.ones 16).
  assert (H : Z.land e (Z.ldiff (Z.ones 64) (Z.ones 16)) = e / 2 ^ 16 * 2 ^ 16).
  { rewrite <- Z.shiftl_mul_pow2, <- Z.shiftr_div_pow2, <- Z.ldiff_ones_r by lia.
    apply Z.bits_inj'. intros i Hi. rewrite Z.land_spec, !Z.ldiff_spec.
    destruct (Z.lt_ge_cases i 64).
    - rewrite (Z.ones_spec_low 64 i) by lia. by rewrite andb_true_l.
    - rewrite (testbit_high e 64 i) by lia. done. }
  rewrite H. apply lor_shifted_low; lia.
Qed.

Lemma ReconstructSeq_exact s e :
  0 <= s < 2 ^ 63 -> 0 <= e < 2 ^ 63 -> e - 2 ^ 15 <= s < e + 2 ^ 15 ->
  ReconstructSeq (u16 s) e = s.
Proof.
  intros Hs He Hw. unfold ReconstructSeq.
  rewrite candidate_eq by (unfold kPeriod, u16; try apply Z.mod_pos_bound; lia).
  unfold u16, kPeriod. change (2 ^ 16 / 2) with 32768.
  pose proof (Z_div_mod_eq_full s (2 ^ 16)) as Es. pose proof (Z.mod_pos_bound s (2 ^ 16)) as Bs.
  pose proof (Z_div_mod_eq_full e (2 ^ 16)) as Ee. pose proof (Z.mod_pos_bound e (2 ^ 16)) as Be.
  set (qs := s / 2 ^ 16) in *. set (qe := e / 2 ^ 16) in *.
  set (rs := s mod 2 ^ 16) in *. set (re := e mod 2 ^ 16) in *.
  change (2 ^ 16) with 65536 in *. change (2 ^ 15) with 32768 in *.
  rewrite !u64_small by (unfold size_max; lia).
  destruct (Z.ltb_spec (qe * 65536 + rs + 32768) e); [lia|].
  destruct (Z.leb_spec (e + 32768) (qe * 65536 + rs)), (Z.leb_spec 65536 (qe * 65536 + rs));
    cbn [andb]; lia.
Qed.

Lemma i16_sub a b : - 2 ^ 15 <= a - b < 2 ^ 15 -> i16 (u16 a - u16 b) = a - b.
Proof.
  intros H. unfold i16, u16.
  replace (a mod 2 ^ 16 - b mod 2 ^ 16 + 2 ^ 15) with (a mod 2 ^ 16 - (b mod 2 ^ 16 - 2 ^ 15)) by lia.
  rewrite Zminus_mod_idemp_l.
  replace (a - (b mod 2 ^ 16 - 2 ^ 15)) with (a + 2 ^ 15 - b mod 2 ^ 16) by lia.
  rewrite Zminus_mod_idemp_r, Z.mod_small; lia.
Qed.

(** A sequence number truncated to 16 bits is rebuilt exactly whenever the
    true one lies within half a period of the receiver's position: from
    [expected - 32768] inclusive to [expected + 32768] exclusive. *)
Theorem ReconstructSeq_nearest (s expected : Z)
  (Hs : 0 <= s < 2 ^ 63) (He : 0 <= expected < 2 ^ 63)
  (Hw : expected - 2 ^ 15 <= s < expected + 2 ^ 15) :
  ReconstructSeq (u16 s) expected = s.
Proof. by apply ReconstructSeq_exact. Qed.

Lemma ReconstructSeq_nearest_witness : ReconstructSeq (u16 65530) 65540 = 65530.
Proof. apply (ReconstructSeq_nearest 65530 65540); lia. Defined.

(** The 16-bit comparisons order full sequence numbers correctly across
    wrap-around as long as they are less than half a period apart. *)
Theorem Seq_compare_wraps (a b : Z) (H : - 2 ^ 15 < a - b < 2 ^ 15) :
  SeqGreater (u16 a) (u16 b) = (b <? a) /\ SeqLess (u16 a) (u16 b) = (a <? b).
Proof.
  unfold SeqGreater, SeqLess. rewrite i16_sub by lia.
  split; apply eq_true_iff_eq; rewrite !Z.ltb_lt; lia.
Qed.

Lemma Seq_compare_wraps_witness :
  SeqGreater (u16 65537) (u16 65535) = (65535 <? 65537) /\ SeqLess (u16 65537) (u16 65535) = (65537 <? 65535).
Proof. apply (Seq_compare_wraps 65537 65535). lia. Defined.

(** ** Round trips *)

(** Datagram headers round trip: the header a sender writes, followed by any
    records, is parsed back with the same flags, sequence, acknowledgment and
    ack blocks (and connection id when it travels), and the read cursor is left
    at the first record.  Sender and receiver may be different machines. *)
Theorem header_roundtrip (P1 P2 : Platform) (A1 : AmplePlatform P1) (A2 : AmplePlatform P2)
  (h : ZDTHeader) (rest : list Z) (Hh : header_ok h) (Hr : bytes_ok rest) (HL : zlen rest <= 65536) :
  exists b', @ReadZDTHeader P2 (@received P2 BigEndian
      (@sent _ P1 (fun h b => @WriteZDTHeader P1 b h) BigEndian h ++ rest)) ZDTHeader_default
    = (true, header_seen h, b') /\ avail b' = rest /\ wf b'.
Proof.
  assert (Hlen := zlen_header_image h ltac:(by destruct Hh as [_ _ _ _ _ [? _] _])).
  assert (Hsz : zlen (header_image h) <= 64).
  { rewrite Hlen. unfold cid_size. destruct Hh as [_ _ _ _ _ Hc _]. unfold kZDTMaxAckBlocks in Hc.
    case_match; lia. }
  destruct (@sent_appends _ P1 (fun h b => @WriteZDTHeader P1 b h) BigEndian h (header_image h)) as [-> Hok].
  { apply WriteZDTHeader_writes; [done|]. apply Buffer_new_ready. lia. }
  destruct (@Buffer_from_spec P2 A2 BigEndian (header_image h ++ rest)) as (Hwf & Hav & He & _).
  { by apply bytes_ok_app. } { rewrite length_app. lia. }
  destruct (@ReadZDTHeader_image P2 h _ rest Hh Hwf He Hav) as (b' & -> & C).
  exists b'. by destruct C.
Qed.

Lemma header_roundtrip_witness :
  let h := mkHeader (kFlagOnline + kFlagHasCid) 77 5 9 [mkBlock 3 2; mkBlock 1 0] 2 in
  exists b', @ReadZDTHeader (host BigEndian) (@received (host BigEndian) BigEndian
      (@sent _ (host LittleEndian) (fun h b => @WriteZDTHeader (host LittleEndian) b h) BigEndian h ++ [1; 2]))
      ZDTHeader_default
    = (true, header_seen h, b') /\ avail b' = [1; 2] /\ wf b'.
Proof.
  apply (header_roundtrip (host LittleEndian) (host BigEndian) (host_ample _) (host_ample _)
    (mkHeader (kFlagOnline + kFlagHasCid) 77 5 9 [mkBlock 3 2; mkBlock 1 0] 2) [1; 2]).
  - split; unfold kZDTMaxAckBlocks; simpl; try lia; try done. repeat constructor; simpl; lia.
  - repeat constructor; done.
  - simpl; lia.
Defined.

(** Record headers round trip, and a record is accepted exactly when the
    payload it announces is there. *)
Theorem record_roundtrip (P1 P2 : Platform) (A1 : AmplePlatform P1) (A2 : AmplePlatform P2)
  (r : ZDTRecord) (payload : list Z) (Hr : record_ok r) (Hp : bytes_ok payload) (HL : zlen payload <= 65536) :
  exists b', @ReadZDTRecord P2 (@received P2 BigEndian
      (@sent _ P1 (fun r b => @WriteZDTRecord P1 b r) BigEndian r ++ payload)) ZDTRecord_default
    = (r_length r <=? zlen payload, r, b') /\ avail b' = payload /\ wf b'.
Proof.
  assert (Hlen := zlen_record_image r).
  assert (Hsz : zlen (record_image r) <= 8) by (rewrite Hlen; case_match; lia).
  destruct (@sent_appends _ P1 (fun r b => @WriteZDTRecord P1 b r) BigEndian r (record_image r)) as [-> Hok].
  { apply WriteZDTRecord_writes; [done|]. apply Buffer_new_ready. lia. }
  destruct (@Buffer_from_spec P2 A2 BigEndian (record_image r ++ payload)) as (Hwf & Hav & He & _).
  { by apply bytes_ok_app. } { rewrite length_app. lia. }
  destruct (@ReadZDTRecord_image P2 r _ payload Hr Hwf He Hav) as (b' & -> & C).
  exists b'. by destruct C.
Qed.

Lemma record_roundtrip_witness :
  let r := mkRecord (kRecReliable + kRecFragment) 3 500 1 4 2 in
  exists b', @ReadZDTRecord (host LittleEndian) (@received (host LittleEndian) BigEndian
      (@sent _ (host LittleEndian) (fun r b => @WriteZDTRecord (host LittleEndian) b r) BigEndian r ++ [7; 8]))
      ZDTRecord_default
    = (r_length r <=? zlen [7; 8], r, b') /\ avail b' = [7; 8] /\ wf b'.
Proof.
  apply (record_roundtrip (host LittleEndian) (host LittleEndian) (host_ample _) (host_ample _)
    (mkRecord (kRecReliable + kRecFragment) 3 500 1 4 2) [7; 8]).
  - split; simpl; try lia; try done.
  - repeat constructor; done.
  - simpl; lia.
Defined.

(** ** Hostile input *)

Section Hostile.
Context `{P : Platform}.

(** A buffer after reads that all succeeded. *)
Record clean (b b' : Buffer) : Prop := {
  cl_wf : wf b';
  cl_err : last_error_ b' = last_error_ b;
  cl_endian : endianness_ b' = endianness_ b;
  cl_wc : write_cursor_ b' = write_cursor_ b
}.

Lemma read_clean n b0 b :
  clean b0 b -> 1 <= n < 2 ^ 31 -> n <= readable_bytes b ->
  exists v b', ReadInt n b = (v, b') /\ clean b0 b' /\ 0 <= v < 256 ^ n /\
    readable_bytes b' = readable_bytes b - n.
Proof.
  intros C Hn Hr. destruct (ReadInt_covered n b (cl_wf _ _ C) Hn Hr) as (v & p & r & b' & E & _ & _ & _ & K & Hv & Hr').
  exists v, b'. split; [done|]. destruct C, K. split; [|done]. split; congruence.
Qed.

Lemma read_blocks_clean b0 n : forall i out b,
  clean b0 b -> 2 * Z.of_nat n <= readable_bytes b ->
  exists out' b', read_blocks i n out b = (out', b') /\ clean b0 b' /\
    length (h_blocks out') = length (h_blocks out) /\
    h_flags out' = h_flags out.
Proof.
  induction n as [|n IH]; intros i out b C Hr; cbn [read_blocks]; [by eauto 7|].
  destruct (read_clean 1 b0 b C) as (a & b1 & -> & C1 & Ha & R1); [lia|lia|].
  destruct (read_clean 1 b0 b1 C1) as (k & b2 & -> & C2 & Hk & R2); [lia|lia|].
  destruct (IH (S i) (set_block out i (mkBlock a k)) b2 C2) as (out' & b' & -> & C' & HL & Hf); [lia|].
  exists out', b'. split; [done|]. split; [done|]. simpl in *. by rewrite length_insert in HL.
Qed.

(** Parsing any datagram as a header is safe: every read the parser makes is
    covered by the bytes on hand (the buffer's error flag is untouched on every
    path), the block array is never overrun, and an accepted header is marked
    online with at most 24 blocks. *)
Theorem ReadZDTHeader_guarded (b : Buffer) (Hwf : wf b) :
  let '(ok, h, b') := ReadZDTHeader b ZDTHeader_default in
  wf b' /\ last_error_ b' = last_error_ b /\ write_cursor_ b' = write_cursor_ b /\
  length (h_blocks h) = 24%nat /\
  (ok = true -> has_flag (h_flags h) kFlagOnline = true /\ 0 <= h_block_count h <= kZDTMaxAckBlocks).
Proof.
  assert (C0 : clean b b) by done. unfold ReadZDTHeader.
  destruct (Z.ltb_spec (readable_bytes b) 1); [done|].
  destruct (read_clean 1 b b C0) as (flags & b1 & -> & C1 & Hf & R1); [lia|lia|].
  destruct (has_flag flags kFlagOnline) eqn:Hon; cbn [negb]; [|by destruct C1].
  destruct (Z.ltb_spec (readable_bytes b1) (kZDTHeaderSize - 1 + (if has_flag flags kFlagHasCid then kZDTCidSize else 0)));
    [by destruct C1|].
  unfold kZDTHeaderSize, kZDTCidSize in *. cbn [h_cid h_flags h_packet_seq h_ack h_blocks h_block_count].
  assert (Hc : exists cid b2, (if negb ((if has_flag flags kFlagHasCid then 8 else 0) =? 0)
      then ReadInt 8 b1 else (h_cid ZDTHeader_default, b1)) = (cid, b2) /\ clean b b2 /\ 5 <= readable_bytes b2).
  { destruct (has_flag flags kFlagHasCid); cbn; [|exists 0, b1; split; [done|split; [done|lia]]].
    destruct (read_clean 8 b b1 C1) as (cid & b2 & -> & C2 & _ & R2); [lia|lia|].
    exists cid, b2. split; [done|split; [done|lia]]. }
  destruct Hc as (cid & b2 & -> & C2 & R2).
  destruct (read_clean 2 b b2 C2) as (seq & b3 & -> & C3 & _ & R3); [lia|lia|].
  destruct (read_clean 2 b b3 C3) as (ack & b4 & -> & C4 & _ & R4); [lia|lia|].
  destruct (read_clean 1 b b4 C4) as (count & b5 & -> & C5 & Hcount & R5); [lia|lia|].
  destruct ((kZDTMaxAckBlocks <? count) || (readable_bytes b5 <? count * kZDTAckBlockSize)) eqn:Hg;
    [by destruct C5|]. bsplit. unfold kZDTAckBlockSize in *.
  destruct (read_blocks_clean b (Z.to_nat count) 0
    (mkHeader flags cid seq ack (h_blocks ZDTHeader_default) (h_block_count ZDTHeader_default)) b5 C5)
    as (out & b6 & -> & C6 & HL & Hfl); [lia|].
  destruct C6. cbn [h_flags h_blocks h_block_count] in *. rewrite Hfl, HL. by eauto 10 with lia.
Qed.

(** Parsing any bytes as a record is safe in the same way, and an accepted
    record announces no more payload than the datagram still holds. *)
Theorem ReadZDTRecord_guarded (b : Buffer) (Hwf : wf b) :
  let '(ok, r, b') := ReadZDTRecord b ZDTRecord_default in
  wf b' /\ last_error_ b' = last_error_ b /\ write_cursor_ b' = write_cursor_ b /\
  (ok = true -> 0 <= r_length r <= readable_bytes b').
Proof.
  assert (C0 : clean b b) by done. unfold ReadZDTRecord, kZDTRecordHeaderSize.
  destruct (Z.ltb_spec (readable_bytes b) 6); [done|].
  destruct (read_clean 1 b b C0) as (flags & b1 & -> & C1 & Hf & R1); [lia|lia|].
  destruct (read_clean 1 b b1 C1) as (ch & b2 & -> & C2 & _ & R2); [lia|lia|].
  destruct (read_clean 2 b b2 C2) as (seq & b3 & -> & C3 & _ & R3); [lia|lia|].
  destruct (has_flag flags kRecFragment) eqn:Hfr; cbn [andb].
  - destruct (Z.ltb_spec (readable_bytes b3) 4); [by destruct C3|].
    destruct (read_clean 1 b b3 C3) as (fi & b4 & -> & C4 & _ & R4); [lia|lia|].
    destruct (read_clean 1 b b4 C4) as (fc & b5 & -> & C5 & _ & R5); [lia|lia|].
    destruct (read_clean 2 b b5 C5) as (len & b6 & -> & C6 & Hl & R6); [lia|lia|].
    destruct C6. split; [done|]. split; [done|]. split; [done|]. simpl. intros Hle%Z.leb_le. lia.
  - destruct (read_clean 2 b b3 C3) as (len & b6 & -> & C6 & Hl & R6); [lia|lia|].
    destruct C6. split; [done|]. split; [done|]. split; [done|]. simpl. intros Hle%Z.leb_le. lia.
Qed.

End Hostile.

Lemma ReadZDTHeader_guarded_witness :
  let b := @received (host LittleEndian) BigEndian [128; 0; 1] in
  let '(ok, h, b') := @ReadZDTHeader (host LittleEndian) b ZDTHeader_default in
  wf b' /\ last_error_ b' = last_error_ b /\ write_cursor_ b' = write_cursor_ b /\
  length (h_blocks h) = 24%nat /\
  (ok = true -> has_flag (h_flags h) kFlagOnline = true /\ 0 <= h_block_count h <= kZDTMaxAckBlocks).
Proof.
  apply (@ReadZDTHeader_guarded (host LittleEndian)).
  apply (@Buffer_from_spec (host LittleEndian) (host_ample _)); [repeat constructor; done|simpl; lia].
Defined.

Lemma ReadZDTRecord_guarded_witness :
  let b := @received (host LittleEndian) BigEndian [5; 0; 0; 1; 0; 9; 255] in
  let '(ok, r, b') := @ReadZDTRecord (host LittleEndian) b ZDTRecord_default in
  wf b' /\ last_error_ b' = last_error_ b /\ write_cursor_ b' = write_cursor_ b /\
  (ok = true -> 0 <= r_length r <= readable_bytes b').
Proof.
  apply (@ReadZDTRecord_guarded (host LittleEndian)).
  apply (@Buffer_from_spec (host LittleEndian) (host_ample _)); [repeat constructor; done|simpl; lia].
Defined.
