(* ===== verification/ZdtOffline.v ===== *)
(** * Offline messages, relay framing, connection ids and cookies

    The raw-byte readers agree with the buffer readers, relayed, online and
    offline datagrams are distinguishable from their first byte, path messages
    and relay headers round trip, and the cookie's MAC input determines the
    address and the epoch. *)

From S2P Require Import Prelude Buffer BufferSpec BufferCodecs ZdtWire ZdtWireSpec.

Lemma has_flag_land x m : has_flag x m = negb (Z.land x m =? 0).
Proof. done. Qed.

Lemma dec_single e x : dec e [x] = x.
Proof. unfold dec. case_decide; simpl; lia. Qed.

(** ** Big-endian words off raw bytes *)

Lemma foldl_byte_at (f : Z -> Z -> Z) data n : forall i a, (i + n <= length data)%nat ->
  foldl (fun v j => f v (byte_at data j)) a (seq i n) = foldl f a (take n (drop i data)).
Proof.
  induction n as [|n IH]; intros i a H; [done|]. cbn [seq foldl].
  destruct (lookup_lt_is_Some_2 data i ltac:(lia)) as [x Hx].
  rewrite (drop_S _ _ _ Hx). cbn [take foldl]. rewrite IH by lia. unfold byte_at. by rewrite Hx.
Qed.

Lemma be_fold bs :
  bytes_ok bs -> (length bs <= 8)%nat ->
  foldl (fun v b => u64 (Z.lor (Z.shiftl v 8) b)) 0 bs = dec BigEndian bs.
Proof.
  unfold dec. rewrite decide_False by done.
  induction bs as [|b bs IH] using rev_ind; intros Hok HL; [done|].
  apply bytes_ok_app in Hok as [Hok Hb]. inversion_clear Hb as [|? ? Hx _].
  rewrite length_app in HL. simpl in HL. rewrite foldl_app. cbn [foldl]. rewrite IH by (done || lia).
  rewrite rev_app_distr. cbn [rev app le_val].
  pose proof (le_val_range (rev bs) (bytes_ok_rev _ Hok)) as Hv. rewrite length_rev in Hv.
  assert (256 ^ zlen bs <= 256 ^ 7) by (apply Z.pow_le_mono_r; lia).
  unfold is_byte in Hx. rewrite Z.shiftl_mul_pow2, lor_shifted_low by lia.
  rewrite u64_small; unfold size_max; lia.
Qed.

Lemma ReadBigEndian64_dec bs r :
  bytes_ok bs -> length bs = 8%nat -> ReadBigEndian64 (bs ++ r) = dec BigEndian bs.
Proof.
  intros Hok HL. unfold ReadBigEndian64.
  rewrite (foldl_byte_at (fun v b => u64 (Z.lor (Z.shiftl v 8) b))) by (rewrite length_app; lia).
  rewrite drop_0, take_app_length' by done. apply be_fold; [done|lia].
Qed.

Section Offline.
Context `{P : Platform}.

Lemma covered_byte b :
  wf b -> 1 <= readable_bytes b ->
  exists x r b', ReadInt 1 b = (x, b') /\ avail b = x :: r /\ consumes b [x] r b'.
Proof.
  intros Hwf Hr. destruct (ReadInt_covered 1 b Hwf ltac:(lia) Hr) as (v & p & r & b' & E & Ea & HL & Hv & C & _).
  destruct p as [|x [|]]; simpl in HL; try lia. rewrite dec_single in Hv. subst v.
  exists x, r, b'. done.
Qed.

(** The two offline-header readers agree: on any datagram the raw-byte
    check used by the receive loop and the buffer reader used by the handshake
    accept the same messages with the same id. *)
Theorem PeekOfflineHeader_agrees (b : Buffer) (Hwf : wf b) :
  (ReadOfflineHeader b).1 = PeekOfflineHeader (avail b).
Proof.
  unfold ReadOfflineHeader, PeekOfflineHeader, kZDTOfflineHeaderSize.
  change (1 + zlen kZDTMagic) with 9.
  rewrite <- readable_avail by done.
  destruct (Z.ltb_spec (readable_bytes b) 9) as [|Hr]; [done|]. cbn [orb].
  destruct (covered_byte b Hwf ltac:(lia)) as (x & r & b1 & -> & Ea & C).
  rewrite Ea. unfold byte_at at 1 2. cbn [lookup list_lookup default from_option id].
  rewrite has_flag_land. destruct (Z.land x kFlagOnline =? 0); cbn [negb]; [|done].
  assert (HL : 8 <= zlen r).
  { rewrite readable_avail, Ea in Hr by done. simpl length in Hr. lia. }
  destruct (Read_parses (endianness_ b) 1 8 (take 8 r) (repeat 0 8)) with (b := b1) (r := drop 8 r)
    as (b2 & E2 & C2); try lia.
  { rewrite length_take. lia. } { by destruct C. } { by destruct C. }
  { rewrite take_drop. by destruct C. }
  change (zlen kZDTMagic) with 8. rewrite E2.
  change (slice 1 8 (x :: r)) with (take 8 (drop 0 r)). rewrite drop_0.
  by destruct (decide (take 8 r = kZDTMagic)).
Qed.

Lemma read_blocks_keeps n : forall i o b,
  h_cid (read_blocks i n o b).1 = h_cid o /\ h_flags (read_blocks i n o b).1 = h_flags o.
Proof.
  induction n as [|n IH]; intros i o b; cbn [read_blocks]; [done|].
  destruct (ReadInt 1 b) as [a b1], (ReadInt 1 b1) as [k b2].
  by destruct (IH (S i) (set_block o i (mkBlock a k)) b2) as [-> ->].
Qed.

(** What follows the flags of an accepted header: the id, when flagged. *)
Lemma ReadZDTHeader_tail flags b1 out h b' :
  (let '(cid, b) := if negb ((if has_flag flags kFlagHasCid then kZDTCidSize else 0) =? 0)
                    then ReadInt 8 b1 else (h_cid out, b1) in
   let '(packet_seq, b) := ReadInt 2 b in
   let '(ack, b) := ReadInt 2 b in
   let out := mkHeader flags cid packet_seq ack (h_blocks out) (h_block_count out) in
   let '(count, b) := ReadInt 1 b in
   if (kZDTMaxAckBlocks <? count) || (readable_bytes b <? count * kZDTAckBlockSize)
   then (false, out, b)
   else
     let '(out, b) := read_blocks 0 (Z.to_nat count) out b in
     (true, mkHeader (h_flags out) (h_cid out) (h_packet_seq out) (h_ack out) (h_blocks out) count, b))
  = (true, h, b') ->
  h_flags h = flags /\ (has_flag flags kFlagHasCid = true -> h_cid h = (ReadInt 8 b1).1).
Proof.
  set (first := if negb _ then _ else _).
  destruct first as [cid b] eqn:Ef. subst first.
  destruct (ReadInt 2 b) as [s b3], (ReadInt 2 b3) as [a b4], (ReadInt 1 b4) as [count b5].
  destruct (_ || _); [done|].
  destruct (read_blocks 0 (Z.to_nat count) (mkHeader flags cid s a (h_blocks out) (h_block_count out)) b5)
    as [o b6] eqn:Eb.
  cbv beta iota zeta. intros E0. rewrite Eb in E0. injection E0 as <- <-. simpl.
  destruct (read_blocks_keeps (Z.to_nat count) 0
    (mkHeader flags cid s a (h_blocks out) (h_block_count out)) b5) as [Hc Hf].
  rewrite Eb in Hc, Hf. simpl in Hc, Hf. split; [done|]. intros Hx. rewrite Hx in Ef. simpl in Ef.
  by rewrite Ef, Hc.
Qed.

(** Routing by connection id sees what the parser will see: when a datagram
    parses as an online header carrying a connection id, the id read off the
    raw bytes is the header's. *)
Theorem PeekCid_agrees (b b' : Buffer) (h : ZDTHeader)
  (Hwf : wf b) (He : endianness_ b = BigEndian)
  (Hread : ReadZDTHeader b ZDTHeader_default = (true, h, b'))
  (Hcid : has_flag (h_flags h) kFlagHasCid = true) :
  PeekCid (avail b) = Some (h_cid h).
Proof.
  unfold ReadZDTHeader in Hread. destruct (Z.ltb_spec (readable_bytes b) 1); [done|].
  destruct (covered_byte b Hwf ltac:(lia)) as (x & r & b1 & E1 & Ea & C). rewrite E1 in Hread.
  destruct (has_flag x kFlagOnline); cbn [negb] in Hread; [|done].
  destruct (Z.ltb_spec (readable_bytes b1) (kZDTHeaderSize - 1 + (if has_flag x kFlagHasCid then kZDTCidSize else 0)))
    as [|Hr1]; [done|].
  apply ReadZDTHeader_tail in Hread as [<- Hc]. rewrite Hcid in Hr1. specialize (Hc Hcid).
  unfold kZDTHeaderSize, kZDTCidSize in Hr1.
  destruct (ReadInt_covered 8 b1 ltac:(by destruct C) ltac:(lia) ltac:(lia))
    as (v & p & r' & b2 & E2 & Ea2 & HL & Hv & _ & _). rewrite E2 in Hc. simpl in Hc. rewrite Hc, Hv.
  rewrite (con_avail _ _ _ _ C) in Ea2. subst r. unfold PeekCid, kZDTCidSize. rewrite Ea.
  assert (Hok : bytes_ok p).
  { pose proof (avail_bytes_ok b Hwf) as Hb. rewrite Ea in Hb. inversion_clear Hb as [|? ? _ Hb'].
    by apply bytes_ok_app in Hb' as [? _]. }
  replace (zlen (h_flags h :: p ++ r') <? 1 + 8) with false.
  2: { symmetry. apply Z.ltb_ge. simpl length. rewrite length_app. lia. }
  change (byte_at (h_flags h :: p ++ r') 0) with (h_flags h). rewrite Hcid. cbn [negb orb].
  change (drop 1 (h_flags h :: p ++ r')) with (p ++ r').
  rewrite ReadBigEndian64_dec by (done || lia). by rewrite (con_endian _ _ _ _ C), He.
Qed.

End Offline.

Lemma PeekOfflineHeader_agrees_witness :
  let b := @received (host LittleEndian) BigEndian ([9] ++ kZDTMagic) in
  (@ReadOfflineHeader (host LittleEndian) b).1 = PeekOfflineHeader (avail b).
Proof.
  apply (@PeekOfflineHeader_agrees (host LittleEndian)).
  apply (@Buffer_from_spec (host LittleEndian) (host_ample _)); [repeat constructor; done|simpl; lia].
Defined.

Lemma PeekCid_agrees_witness :
  let b := @received (host LittleEndian) BigEndian [136; 0; 0; 0; 0; 0; 0; 1; 2; 0; 1; 0; 0; 0] in
  PeekCid (avail b) = Some (h_cid (@ReadZDTHeader (host LittleEndian) b ZDTHeader_default).1.2).
Proof.
  apply (@PeekCid_agrees (host LittleEndian)) with
    (b' := (@ReadZDTHeader (host LittleEndian) (@received (host LittleEndian) BigEndian
       [136; 0; 0; 0; 0; 0; 0; 1; 2; 0; 1; 0; 0; 0]) ZDTHeader_default).2); try (vm_compute; reflexivity).
  apply (@Buffer_from_spec (host LittleEndian) (host_ample _)); [repeat constructor; done|simpl; lia].
Defined.

(** ** The relay channel header *)

Lemma u8_land_255 c : u8 (Z.land c 255) = c mod 256.
Proof.
  change 255 with (Z.ones 8). rewrite Z.land_ones by lia. unfold u8. by rewrite Z.mod_mod.
Qed.

(** A byte's flags, settled by enumeration. *)
Lemma byte_ind (Q : Z -> bool) :
  forallb Q (map Z.of_nat (seq 0 256)) = true -> forall x, is_byte x -> Q x = true.
Proof.
  rewrite forallb_forall. intros H x Hx. apply H, in_map_iff. exists (Z.to_nat x).
  unfold is_byte in Hx. split; [lia|]. apply in_seq. lia.
Qed.

Definition relay_image (c : Z) : list Z := [192; c / 65536 mod 256; c / 256 mod 256; c mod 256].

Lemma WriteRelayHeader_writes `{P : Platform} `{!AmplePlatform P} c :
  writes BigEndian (relay_image c) (fun b => WriteRelayHeader b c).
Proof.
  assert (Hb : forall v, writes BigEndian [v mod 256] (WriteInt 1 (v mod 256))).
  { intros v. rewrite <- (enc_byte BigEndian) by (apply Z.mod_pos_bound; lia). by apply writes_WriteInt. }
  unfold relay_image, WriteRelayHeader. rewrite !u8_land_255, !Z.shiftr_div_pow2 by lia.
  exact (writes_comp _ [192] _ _ _ (Hb 192) (writes_comp _ [_] _ _ _ (Hb (c / 65536))
    (writes_comp _ [_] [_] _ _ (Hb (c / 256)) (Hb c)))).
Qed.

Lemma ReadRelayHeader_image c payload :
  0 < c <= kZDTMaxRelayChannel -> ReadRelayHeader (relay_image c ++ payload) = Some c.
Proof.
  intros Hc. unfold kZDTMaxRelayChannel in Hc.
  unfold ReadRelayHeader, relay_image, kZDTRelayHeaderSize, kZDTRelayMarker, byte_at. cbn [app].
  replace (_ <? 4) with false by (symmetry; apply Z.ltb_ge; cbn [length]; lia).
  cbn [lookup list_lookup default from_option id orb negb Z.eqb Pos.eqb].
  rewrite !Z.shiftl_mul_pow2 by lia.
  pose proof (Z.mod_pos_bound (c / 256) 256 ltac:(lia)). pose proof (Z.mod_pos_bound c 256 ltac:(lia)).
  rewrite (lor_shifted_low (c / 65536 mod 256) (c / 256 mod 256 * 2 ^ 8) 16) by lia.
  replace (c / 65536 mod 256 * 2 ^ 16 + c / 256 mod 256 * 2 ^ 8)
    with ((c / 65536 mod 256 * 256 + c / 256 mod 256) * 2 ^ 8) by lia.
  rewrite lor_shifted_low by lia.
  replace (_ * 2 ^ 8 + c mod 256) with c; [destruct (Z.eqb_spec c 0); [lia|done]|].
  assert (c / 65536 = c / 256 / 256) by (rewrite Z.div_div; [done|lia|lia]).
  assert (c / 65536 < 256) by (apply Z.div_lt_upper_bound; lia).
  assert (0 <= c / 65536) by (apply Z.div_pos; lia).
  rewrite (Z.mod_small (c / 65536)) by lia.
  pose proof (Z_div_mod_eq_full c 256). pose proof (Z_div_mod_eq_full (c / 256) 256). lia.
Qed.

(** What the raw-byte readers make of an offline message. *)
Lemma offline_kind m payload :
  ReadRelayHeader (offline_image (offline_id m) ++ payload) = None /\
  PeekOfflineHeader (offline_image (offline_id m) ++ payload) = Some (offline_id m).
Proof.
  assert (Hb : byte_at (offline_image (offline_id m) ++ payload) 0 = offline_id m) by (by destruct m).
  unfold ReadRelayHeader, PeekOfflineHeader. rewrite Hb. split.
  - replace (negb (offline_id m =? kZDTRelayMarker)) with true by (by destruct m). by rewrite orb_true_r.
  - replace (zlen _ <? kZDTOfflineHeaderSize) with false.
    2: { symmetry. apply Z.ltb_ge. rewrite length_app. unfold kZDTOfflineHeaderSize, offline_image.
         rewrite length_app. pose proof (zlen_enc BigEndian 1 (offline_id m)). simpl (length kZDTMagic). lia. }
    replace (negb (Z.land (offline_id m) kFlagOnline =? 0)) with false by (by destruct m). cbn [orb].
    rewrite decide_True; [done|]. by destruct m.
Qed.

(** The relay header round trips for every channel, and the three kinds of
    datagram never collide: what a relay wraps is neither an online header nor
    an offline message, an online header (whose reserved bit 6 is clear) is not
    a relay header, and an offline message is neither. *)
Theorem datagram_kinds_disjoint (P : Platform) (A : AmplePlatform P) :
  (forall c payload, 0 < c <= kZDTMaxRelayChannel ->
     ReadRelayHeader (sent (fun c b => WriteRelayHeader b c) BigEndian c ++ payload) = Some c /\
     PeekOfflineHeader (sent (fun c b => WriteRelayHeader b c) BigEndian c ++ payload) = None) /\
  (forall h payload, header_ok h -> has_flag (h_flags h) 64 = false ->
     ReadRelayHeader (sent (fun h b => WriteZDTHeader b h) BigEndian h ++ payload) = None /\
     PeekOfflineHeader (sent (fun h b => WriteZDTHeader b h) BigEndian h ++ payload) = None) /\
  (forall m payload,
     ReadRelayHeader (sent (fun id b => WriteOfflineHeader b id) BigEndian (offline_id m) ++ payload) = None /\
     PeekOfflineHeader (sent (fun id b => WriteOfflineHeader b id) BigEndian (offline_id m) ++ payload)
       = Some (offline_id m)).
Proof.
  split; [|split].
  - intros c payload Hc.
    destruct (sent_appends (fun c b => WriteRelayHeader b c) BigEndian c (relay_image c)) as [-> _].
    { apply WriteRelayHeader_writes; [done|]. apply Buffer_new_ready. simpl; lia. }
    split; [by apply ReadRelayHeader_image|]. unfold PeekOfflineHeader.
    change (Z.land (byte_at (relay_image c ++ payload) 0) kFlagOnline =? 0) with false.
    cbn [negb]. by rewrite orb_true_r.
  - intros h payload Hh Hbit.
    assert (Hz := zlen_header_image h ltac:(by destruct Hh as [_ _ _ _ _ [? _] _])).
    destruct (sent_appends (fun h b => WriteZDTHeader b h) BigEndian h (header_image h)) as [-> _].
    { apply WriteZDTHeader_writes; [done|]. apply Buffer_new_ready. rewrite Hz. unfold cid_size.
      destruct Hh as [_ _ _ _ _ Hc _]. unfold kZDTMaxAckBlocks in Hc. case_match; lia. }
    destruct Hh as [Hf Hon _ _ _ _ _].
    assert (Hb : byte_at (header_image h ++ payload) 0 = h_flags h).
    { unfold header_image. rewrite enc_byte by done. done. }
    unfold ReadRelayHeader, PeekOfflineHeader. rewrite Hb. split.
    + pose proof (byte_ind (fun x => implb (has_flag x kFlagOnline && negb (has_flag x 64))
        (negb (x =? kZDTRelayMarker))) eq_refl (h_flags h) Hf) as HQ.
      cbv beta in HQ. rewrite Hon, Hbit in HQ. simpl in HQ. rewrite HQ. by rewrite orb_true_r.
    + unfold has_flag in Hon. rewrite Hon. by rewrite orb_true_r.
  - intros m payload.
    destruct (sent_appends (fun id b => WriteOfflineHeader b id) BigEndian (offline_id m)
      (offline_image (offline_id m))) as [-> _].
    { apply WriteOfflineHeader_writes; [done|]. apply Buffer_new_ready. destruct m; vm_compute; split; discriminate. }
    apply offline_kind.
Qed.

Lemma datagram_kinds_disjoint_witness :
  ReadRelayHeader (@sent Z (host BigEndian) (fun c b => @WriteRelayHeader (host BigEndian) b c) BigEndian 300 ++ [1; 2]) = Some 300 /\
  PeekOfflineHeader (@sent Z (host BigEndian) (fun c b => @WriteRelayHeader (host BigEndian) b c) BigEndian 300 ++ [1; 2]) = None.
Proof.
  apply (proj1 (datagram_kinds_disjoint (host BigEndian) (host_ample BigEndian)) 300 [1; 2]). unfold kZDTMaxRelayChannel. lia.
Defined.

(** ** Path messages and cookies *)

(** A PathChallenge or PathResponse round trips: the header identifies it
    and the fields that follow are the connection id, epoch and cookie sent. *)
Theorem path_message_roundtrip (P1 P2 : Platform) (A1 : AmplePlatform P1) (A2 : AmplePlatform P2)
  (id : Z) (msg : ZDTPathMessage)
  (Hid : 0 <= id < 128) (Hcid : 0 <= pm_cid msg < 2 ^ 64) (Hep : 0 <= pm_epoch msg < 2 ^ 32)
  (Hck : bytes_ok (pm_cookie msg)) (HL : length (pm_cookie msg) = 16%nat) :
  exists b1 b2, @ReadOfflineHeader P2 (@received P2 BigEndian (avail (@WritePathMessage P1 id msg))) = (Some id, b1) /\
    @ReadPathMessage P2 b1 (mkPath 0 0 (repeat 0 16)) = (true, msg, b2) /\ avail b2 = [].
Proof.
  set (img := offline_image id ++ enc BigEndian 8 (pm_cid msg) ++ enc BigEndian 4 (pm_epoch msg) ++ pm_cookie msg).
  assert (Hz : zlen img = 37).
  { unfold img, offline_image. rewrite !length_app, !Nat2Z.inj_add, !zlen_enc, HL by lia. simpl; lia. }
  assert (Ha : appends (Buffer_new BigEndian) img (@WritePathMessage P1 id msg)).
  { assert (W : writes BigEndian img (fun b => @Write P1 (pm_cookie msg) (@WriteInt P1 4 (pm_epoch msg)
      (@WriteInt P1 8 (pm_cid msg) (@WriteOfflineHeader P1 b id))))).
    { exact (writes_comp _ _ _ _ _ (WriteOfflineHeader_writes id)
        (writes_comp _ _ _ _ _ (writes_WriteInt _ 8 (pm_cid msg) ltac:(lia))
        (writes_comp _ _ _ _ _ (writes_WriteInt _ 4 (pm_epoch msg) ltac:(lia)) (writes_Write _ _ Hck)))). }
    apply W; [done|]. apply Buffer_new_ready. lia. }
  apply (@sent_appends unit P1 (fun _ _ => @WritePathMessage P1 id msg) BigEndian tt) in Ha as [Hs Hok].
  unfold sent in Hs. rewrite Hs.
  destruct (@Buffer_from_spec P2 A2 BigEndian img Hok ltac:(lia)) as (Hwf & Hav & He & _).
  set (b := @received P2 BigEndian img) in *. unfold img, offline_image in Hav. rewrite <- !app_assoc in Hav.
  destruct (@ReadInt_enc P2 BigEndian 1 id b _ Hwf He ltac:(lia) ltac:(lia) Hav) as (c1 & E1 & C1).
  destruct (Read_parses BigEndian 1 8 kZDTMagic (repeat 0 8)) with (b := c1)
    (r := enc BigEndian 8 (pm_cid msg) ++ enc BigEndian 4 (pm_epoch msg) ++ pm_cookie msg)
    as (c2 & E2 & C2); try lia; try done; try (by destruct C1).
  { by rewrite (con_endian _ _ _ _ C1). }
  assert (K2 := consumes_trans _ _ _ _ _ _ C1 C2).
  destruct (@read_next P2 8 (pm_cid msg) b _ c2 _ He K2) as (c3 & E3 & C3); [lia|lia|].
  destruct (@read_next P2 4 (pm_epoch msg) b _ c3 _ He C3) as (c4 & E4 & C4); [lia|lia|].
  destruct (Read_parses BigEndian 1 16 (pm_cookie msg) (repeat 0 16)) with (b := c4) (r := [] : list Z)
    as (c5 & E5 & C5); try lia; try (by destruct C4).
  { by rewrite (con_endian _ _ _ _ C4). } { rewrite app_nil_r. by destruct C4. }
  exists c2, c5. split; [|split; [|by destruct C5]].
  - unfold ReadOfflineHeader. change (1 + zlen kZDTMagic) with 9.
    replace (readable_bytes b <? 9) with false.
    2: { symmetry. apply Z.ltb_ge. rewrite readable_avail, Hav, !length_app, !Nat2Z.inj_add, !zlen_enc by (done || lia).
         simpl (zlen kZDTMagic). lia. }
    rewrite E1. change (zlen kZDTMagic) with 8.
    pose proof (byte_ind (fun x => implb (x <? 128) (negb (has_flag x kFlagOnline))) eq_refl id ltac:(unfold is_byte; lia)) as HQ.
    cbv beta in HQ. replace (id <? 128) with true in HQ by (symmetry; apply Z.ltb_lt; lia). simpl in HQ.
    destruct (has_flag id kFlagOnline); [done|]. by rewrite E2.
  - unfold ReadPathMessage, kZDTCookieLen.
    replace (readable_bytes c2 <? _) with false.
    2: { symmetry. apply Z.ltb_ge. rewrite (consumes_readable _ _ _ _ C2), !length_app, !Nat2Z.inj_add, !zlen_enc, HL by lia. lia. }
    rewrite E3, E4. cbn [pm_cookie]. change (zlen (repeat 0 16)) with 16. rewrite E5. by destruct msg.
Qed.

Lemma path_message_roundtrip_witness :
  let msg := mkPath 9 3 (map Z.of_nat (seq 1 16)) in
  exists b1 b2, @ReadOfflineHeader (host LittleEndian) (@received (host LittleEndian) BigEndian
      (avail (@WritePathMessage (host LittleEndian) (offline_id PathChallenge) msg))) = (Some (offline_id PathChallenge), b1) /\
    @ReadPathMessage (host LittleEndian) b1 (mkPath 0 0 (repeat 0 16)) = (true, msg, b2) /\ avail b2 = [].
Proof.
  apply (path_message_roundtrip (host LittleEndian) (host LittleEndian) (host_ample _) (host_ample _)
    (offline_id PathChallenge) (mkPath 9 3 (map Z.of_nat (seq 1 16)))); simpl; try lia; try done.
  repeat constructor; done.
Defined.

Lemma epoch_bytes epoch :
  map (fun i => Z.land (Z.shiftr epoch (Z.of_nat i * 8)) 255) (seq 0 4) = le_bytes 4 epoch.
Proof.
  cbn [seq map le_bytes]. change 255 with (Z.ones 8). rewrite !Z.land_ones, !Z.shiftr_div_pow2 by lia.
  rewrite !Z.div_div by lia. simpl (Z.of_nat _ * 8). rewrite Z.pow_0_r, Z.div_1_r. done.
Qed.

(** The return-routability cookie binds the peer: the MAC input determines
    both the peer's address and the epoch, and a cookie is always 16 bytes, so
    a server that recomputes it accepts only the digest it issued. *)
Theorem cookie_binds_peer (peer1 peer2 : list Z) (e1 e2 : Z)
  (H1 : 0 <= e1 < 2 ^ 32) (H2 : 0 <= e2 < 2 ^ 32) :
  (cookie_message peer1 e1 = cookie_message peer2 e2 <-> peer1 = peer2 /\ e1 = e2) /\
  forall HMAC secret, length (ComputeCookie HMAC secret peer1 e1) = 16%nat.
Proof.
  split.
  - split; [|by intros [-> ->]]. unfold cookie_message. rewrite !epoch_bytes. intros E.
    apply app_inj_2 in E as [Ep Ee]; [|by rewrite !length_le_bytes].
    apply app_inj_2 in Ep as [-> _]; [|done]. split; [done|].
    rewrite <- (le_val_bytes 4 e1), <- (le_val_bytes 4 e2), Ee by (simpl; lia). done.
  - intros HMAC secret. unfold ComputeCookie. rewrite length_app, length_take, repeat_length. lia.
Qed.

Lemma cookie_binds_peer_witness :
  (cookie_message [49] 1 = cookie_message [50] 1 <-> [49] = [50] /\ 1 = 1) /\
  forall HMAC secret, length (ComputeCookie HMAC secret [49] 1) = 16%nat.
Proof. apply (cookie_binds_peer [49] [50] 1 1); lia. Defined.
