(* ===== verification/InetAddr.v ===== *)
(** * Addresses and address blocks (inet_addr.h, inet_addr.cc)

    The three classes of address with their textual form, host key and equality,
    the construction from text and from a socket address, the host's own
    addresses, and CIDR blocks.  The C library's [inet_pton] and [inet_ntop], the
    resolver and the interface list are parameters; the laws of the first two are
    what POSIX documents.  A string is the list of its bytes. *)

From Stdlib Require Import String Ascii.
From S2P Require Import Prelude Buffer BufferSpec ZdtWire.

#[local] Open Scope Z_scope.

(** ** Strings *)

Definition chars (s : String.string) : list Z := map (fun c => Z.of_nat (nat_of_ascii c)) (String.list_ascii_of_string s).
Arguments chars s%_string.

(** [c_str()] as a C function sees it: up to the first NUL. *)
Fixpoint c_str (s : list Z) : list Z :=
  match s with
  | [] => []
  | c :: s => if c =? 0 then [] else c :: c_str s
  end.

(** [ip.rfind(prefix, 0) == 0] and [strncmp(name, prefix, strlen(prefix)) == 0] *)
Definition starts_with (prefix s : list Z) : bool := bool_decide (take (length prefix) s = prefix).

(** [find(c)] *)
Fixpoint find_char (c : Z) (s : list Z) : option nat :=
  match s with
  | [] => None
  | x :: s => if x =? c then Some O else S <$> find_char c s
  end.

(** [std::to_string] of an unsigned value below [10 ^ n]. *)
Fixpoint digits (n : nat) (v : Z) : list Z :=
  match n with
  | O => []
  | S n => if v <? 10 then [48 + v] else digits n (v / 10) ++ [48 + v mod 10]
  end.

Definition to_string (v : Z) : list Z := digits 20 v.

Definition is_digit (c : Z) : bool := (48 <=? c) && (c <=? 57).

(** [strtol] of a string of digits. *)
Definition strtol (s : list Z) : Z := foldl (fun v c => v * 10 + (c - 48)) 0 s.

(** ** The C library *)

Class Inet := {
  inet_pton4 : list Z -> option (list Z);
  inet_pton6 : list Z -> option (list Z);
  inet_ntop4 : list Z -> list Z;
  inet_ntop6 : list Z -> list Z
}.

(** The characters of a textual address. *)
Definition addr_char (c : Z) : bool :=
  is_digit c || (97 <=? c) && (c <=? 102) || (c =? 46) || (c =? 58).

Class InetLaws (I : Inet) : Prop := {
  pton4_bytes s ip : inet_pton4 s = Some ip -> bytes_ok ip /\ length ip = 4%nat;
  pton6_bytes s ip : inet_pton6 s = Some ip -> bytes_ok ip /\ length ip = 16%nat;
  pton_ntop4 ip : bytes_ok ip -> length ip = 4%nat -> inet_pton4 (inet_ntop4 ip) = Some ip;
  pton_ntop6 ip : bytes_ok ip -> length ip = 16%nat -> inet_pton6 (inet_ntop6 ip) = Some ip;
  pton_one_family s : inet_pton4 s = None \/ inet_pton6 s = None;
  ntop4_chars ip : bytes_ok ip -> Forall (fun c => addr_char c = true) (inet_ntop4 ip);
  ntop6_chars ip : bytes_ok ip -> Forall (fun c => addr_char c = true) (inet_ntop6 ip)
}.

Definition ipv (a : InetAddress) : InetProtocolVersion :=
  match a with InetAddressIPv4 _ _ => IPv4 | InetAddressIPv6 _ _ => IPv6 | InetAddressUnix _ => Unix end.

Section Addresses.
Context `{I : Inet}.

(** ** Addresses *)

Definition IsIPv4 (ip : list Z) : bool := bool_decide (is_Some (inet_pton4 (c_str ip))).
Definition IsIPv6 (ip : list Z) : bool := bool_decide (is_Some (inet_pton6 (c_str ip))).

Definition ParseIPv4 (ip_str : list Z) : list Z := default (repeat 0 4) (inet_pton4 (c_str ip_str)).
Definition ParseIPv6 (ip_str : list Z) : list Z := default (repeat 0 16) (inet_pton6 (c_str ip_str)).

Definition GetAnyBindAddress (version : InetProtocolVersion) : list Z :=
  match version with IPv4 => chars "0.0.0.0" | IPv6 => chars "::" | Unix => chars "0.0.0.0" end.

(** [sizeof(sockaddr_un::sun_path)] on Linux. *)
Definition sun_path_size : Z := 108.

Definition is_valid (a : InetAddress) : bool :=
  match a with InetAddressUnix path => zlen path <? sun_path_size | _ => true end.

Definition readable (a : InetAddress) : list Z :=
  match a with
  | InetAddressIPv4 ip port => inet_ntop4 ip ++ [58] ++ to_string port
  | InetAddressIPv6 ip port => inet_ntop6 ip ++ [58] ++ to_string port
  | InetAddressUnix path => if is_valid a then chars "unix:" ++ path else chars "Invalid Address"
  end.

Definition port (a : InetAddress) : Z :=
  match a with InetAddressIPv4 _ p | InetAddressIPv6 _ p => p | InetAddressUnix _ => 0 end.

(** An invalid path was never stored, so it reads back empty. *)
Definition WithPort (a : InetAddress) (port : Z) : InetAddress :=
  match a with
  | InetAddressIPv4 ip _ => InetAddressIPv4 ip port
  | InetAddressIPv6 ip _ => InetAddressIPv6 ip port
  | InetAddressUnix path => InetAddressUnix (if is_valid a then c_str path else [])
  end.

Definition IsV4MappedV6 (bytes : list Z) : bool :=
  forallb (fun i => byte_at bytes i =? 0) (seq 0 10) && (byte_at bytes 10 =? 255) && (byte_at bytes 11 =? 255).

Definition host_key (a : InetAddress) : list Z :=
  match a with
  | InetAddressIPv4 ip _ => ip
  | InetAddressIPv6 ip _ => if IsV4MappedV6 ip then slice 12 4 ip else ip
  | InetAddressUnix _ => []
  end.

(** Valid addresses of one family have the same host and port, or the same path. *)
Definition SameEndpoint (a b : InetAddress) : bool :=
  match a, b with
  | InetAddressIPv4 x p, InetAddressIPv4 y q | InetAddressIPv6 x p, InetAddressIPv6 y q =>
      (p =? q) && bool_decide (x = y)
  | _, _ => false
  end.

#[global] Instance InetProtocolVersion_eq_dec : EqDecision InetProtocolVersion.
Proof. solve_decision. Defined.

#[global] Instance InetAddress_eq_dec : EqDecision InetAddress.
Proof. solve_decision. Defined.

Definition InetAddress_eq (a b : InetAddress) : bool :=
  if negb (bool_decide (ipv a = ipv b)) || negb (eqb (is_valid a) (is_valid b)) then false
  else if negb (is_valid a) then true
  else if bool_decide (ipv a = Unix) then bool_decide (readable a = readable b)
  else SameEndpoint a b.

(** [from(host, port)]; [resolve] is [ResolveHostnameToIP]. *)
Definition from_host (resolve : list Z -> list Z) (host : list Z) (port : Z) : option InetAddress :=
  if bool_decide (host = []) then Some (InetAddressIPv4 (repeat 0 4) port)
  else if starts_with (chars "unix:") host then Some (InetAddressUnix (drop 5 host))
  else
    let ip_str := resolve host in
    let ip_str := if bool_decide (ip_str = chars "localhost") then chars "127.0.0.1" else ip_str in
    if IsIPv4 ip_str then Some (InetAddressIPv4 (ParseIPv4 ip_str) port)
    else if IsIPv6 ip_str then Some (InetAddressIPv6 (ParseIPv6 ip_str) port)
    else None.

(** A socket address: the family, then the fields as they sit in memory. *)
Inductive sockaddr :=
  | sockaddr_in (sin_addr sin_port : list Z)
  | sockaddr_in6 (sin6_addr sin6_port : list Z)
  | sockaddr_un (sun_path : list Z)
  | sockaddr_other.

Definition ntohs (p : list Z) : Z := dec BigEndian p.

Definition from_sockaddr (s : sockaddr) : option InetAddress :=
  match s with
  | sockaddr_in a p => Some (InetAddressIPv4 a (ntohs p))
  | sockaddr_in6 a p => Some (InetAddressIPv6 a (ntohs p))
  | sockaddr_un p => Some (InetAddressUnix (c_str p))
  | sockaddr_other => None
  end.

(** [initialized]: [znet::Init] succeeded; [prefer_ipv4]: the build's
    [ZNET_PREFER_IPV4]; [res]: what [getaddrinfo] lists, [None] when it fails. *)
Definition ResolveHostnameToIP (initialized prefer_ipv4 : bool) (res : list Z -> option (list sockaddr))
    (hostname : list Z) : list Z :=
  if negb initialized then hostname
  else match res hostname with
       | None | Some [] => hostname
       | Some (first :: rest) =>
           let is_ipv4 a := match a with sockaddr_in _ _ => true | _ => false end in
           let selected := if prefer_ipv4 then default first (List.find is_ipv4 (first :: rest)) else first in
           match selected with
           | sockaddr_in a _ => inet_ntop4 a
           | sockaddr_in6 a _ => inet_ntop6 a
           | _ => hostname
           end
       end.

(** ** The host's own addresses *)

Definition LoopbackAddress (version : InetProtocolVersion) : list Z :=
  match version with IPv6 => chars "::1" | _ => chars "127.0.0.1" end.

Definition IsLinkLocal (version : InetProtocolVersion) (ip : list Z) : bool :=
  match version with
  | IPv6 => starts_with (chars "fe80:") ip || starts_with (chars "FE80:") ip
  | _ => starts_with (chars "169.254.") ip
  end.

Definition IsLoopback (version : InetProtocolVersion) (ip : list Z) : bool :=
  match version with
  | IPv6 => bool_decide (ip = chars "::1")
  | _ => starts_with (chars "127.") ip
  end.

Definition kPrefixes : list (list Z) :=
  map chars ["docker"; "br-"; "veth"; "virbr"; "vmnet"; "vboxnet"]%string.

Definition IsVirtualBridge (name : option (list Z)) : bool :=
  match name with None => false | Some n => existsb (fun p => starts_with p n) kPrefixes end.

Definition kMaxLocalAddresses : nat := 8.

(** One entry of [getifaddrs]: its name, the family of its address when it has
    one, whether it is up, and its numeric name when [getnameinfo] gives one. *)
Record ifaddr := mkIf {
  ifa_name : option (list Z);
  ifa_family : option InetProtocolVersion;
  ifa_up : bool;
  ifa_text : option (list Z)
}.

Definition local_entry (version : InetProtocolVersion) (acc : list (list Z) * bool) (it : ifaddr)
  : list (list Z) * bool :=
  let family := match version with IPv6 => IPv6 | _ => IPv4 end in
  match ifa_family it with
  | None => acc
  | Some f =>
      if negb (bool_decide (f = family)) then acc
      else if negb (ifa_up it) then acc
      else if IsVirtualBridge (ifa_name it) then acc
      else match ifa_text it with
           | None => acc
           | Some text =>
               let ip := match find_char 37 text with Some n => take n text | None => text end in
               if IsLinkLocal version ip then acc
               else if IsLoopback version ip then (acc.1, true)
               else (acc.1 ++ [ip], acc.2)
           end
  end.

(** [interfaces]: what [getifaddrs] lists, [None] when it fails. *)
Definition GetLocalAddresses (interfaces : option (list ifaddr)) (version : InetProtocolVersion) : list (list Z) :=
  let '(addresses, has_loopback) := foldl (local_entry version) ([], false) (default [] interfaces) in
  let addresses := take kMaxLocalAddresses addresses in
  if has_loopback || bool_decide (addresses = []) then addresses ++ [LoopbackAddress version] else addresses.

Definition GetLoopbackAddress (version : InetProtocolVersion) : list Z :=
  match version with Unix => LoopbackAddress IPv4 | v => LoopbackAddress v end.

(** ** CIDR blocks *)

Record CIDRBlock := mkCIDR {
  text_ : list Z;
  bytes_ : list Z;
  prefix_ : Z;
  is_ipv6_ : bool;
  is_valid_ : bool
}.

Definition CIDRBlock_default : CIDRBlock := mkCIDR [] (repeat 0 16) 0 false false.

Definition PrefixMatch (a b : list Z) (bits : Z) : bool :=
  let whole := bits / 8 in
  if negb (whole =? 0) && negb (bool_decide (slice 0 whole a = slice 0 whole b)) then false
  else
    let rem := bits mod 8 in
    if rem =? 0 then true
    else
      let mask := u8 (Z.shiftl 255 (8 - rem)) in
      Z.land (byte_at a (Z.to_nat whole)) mask =? Z.land (byte_at b (Z.to_nat whole)) mask.

(** The address part and the prefix length, [None] when the latter is malformed. *)
Definition split_block (text : list Z) : option (list Z * Z) :=
  match find_char 47 text with
  | None => Some (text, -1)
  | Some slash =>
      let prefix_str := drop (S slash) text in
      if bool_decide (prefix_str = []) || (3 <? zlen prefix_str) || negb (forallb is_digit prefix_str)
      then None else Some (take slash text, strtol prefix_str)
  end.

Definition Parse (text : list Z) : CIDRBlock :=
  let block := mkCIDR text (repeat 0 16) 0 false false in
  match split_block text with
  | None => block
  | Some (addr, prefix) =>
      match inet_pton4 (c_str addr) with
      | Some v4 =>
          let bytes := splice 0 v4 (repeat 0 16) in
          let prefix := if prefix <? 0 then 32 else prefix in
          if 32 <? prefix then mkCIDR text bytes 0 false false
          else mkCIDR text bytes (u8 prefix) false true
      | None =>
          match inet_pton6 (c_str addr) with
          | Some v6 =>
              let bytes := splice 0 v6 (repeat 0 16) in
              let prefix := if prefix <? 0 then 128 else prefix in
              if 128 <? prefix then mkCIDR text bytes 0 true false
              else mkCIDR text bytes (u8 prefix) true true
          | None => block
          end
      end
  end.

Definition Matches (block : CIDRBlock) (address : InetAddress) : bool :=
  if negb (is_valid_ block) then false
  else
    let candidate := host_key address in
    if bool_decide (candidate = []) then false
    else if negb (eqb (zlen candidate =? 16) (is_ipv6_ block)) then false
    else PrefixMatch (bytes_ block) candidate (prefix_ block).

End Addresses.
