(* ===== verification/InetAddrTheorems.v ===== *)
(** * What addresses and blocks promise

    An address is determined by its text, a block written as [host/prefix]
    matches exactly the addresses that agree with it on the first [prefix] bits,
    and every parsed block keeps the byte comparison inside the two addresses. *)

From Stdlib Require Import String Ascii.
From S2P Require Import Prelude Buffer BufferSpec BufferCodecs ZdtWire ZdtOffline InetAddr.

#[local] Open Scope Z_scope.

(** ** Decimal numbers *)

Lemma strtol_snoc s c : strtol (s ++ [c]) = strtol s * 10 + (c - 48).
Proof. unfold strtol. by rewrite foldl_app. Qed.

Lemma strtol_digits n v : 0 <= v < 10 ^ Z.of_nat n -> strtol (digits n v) = v.
Proof.
  revert v. induction n as [|n IH]; intros v Hv; [unfold strtol; simpl in *; lia|].
  rewrite Nat2Z.inj_succ, Z.pow_succ_r in Hv by lia. cbn [digits].
  destruct (Z.ltb_spec v 10); [unfold strtol; simpl; lia|].
  rewrite strtol_snoc, IH.
  - pose proof (Z_div_mod_eq_full v 10). lia.
  - split; [apply Z.div_pos; lia|]. apply Z.div_lt_upper_bound; lia.
Qed.

Lemma digits_are_digits n v : 0 <= v -> Forall (fun c => is_digit c = true) (digits n v).
Proof.
  revert v. induction n as [|n IH]; intros v Hv; [constructor|]. cbn [digits].
  assert (Hd : forall x, 0 <= x < 10 -> is_digit (48 + x) = true).
  { intros x Hx. unfold is_digit. apply andb_true_intro. split; apply Z.leb_le; lia. }
  destruct (Z.ltb_spec v 10).
  - repeat constructor. apply Hd. lia.
  - apply Forall_app. split; [apply IH, Z.div_pos; lia|]. repeat constructor. apply Hd, Z.mod_pos_bound. lia.
Qed.

Lemma strtol_to_string v : 0 <= v < 2 ^ 64 -> strtol (to_string v) = v.
Proof. intros. apply strtol_digits. change (10 ^ Z.of_nat 20) with 100000000000000000000. lia. Qed.

Lemma to_string_inj v w : 0 <= v < 2 ^ 64 -> 0 <= w < 2 ^ 64 -> to_string v = to_string w -> v = w.
Proof. intros Hv Hw E. by rewrite <- (strtol_to_string v), <- (strtol_to_string w), E. Qed.

Lemma to_string_digits v : 0 <= v -> Forall (fun c => is_digit c = true) (to_string v).
Proof. apply digits_are_digits. Qed.

(** A separator that one class of characters excludes. *)
Lemma not_char (Q : Z -> bool) c s : Forall (fun x => Q x = true) s -> Q c = false -> c ∉ s.
Proof. intros H Hc Hin. rewrite Forall_forall in H. specialize (H c Hin). congruence. Qed.

Lemma digits_exclude c v : 0 <= v -> is_digit c = false -> c ∉ to_string v.
Proof. intros Hv Hc. by apply (not_char is_digit); [apply to_string_digits|]. Qed.

(** Text split at the last occurrence of a separator. *)
Lemma split_last (c : Z) l1 r1 l2 r2 :
  c ∉ r1 -> c ∉ r2 -> l1 ++ [c] ++ r1 = l2 ++ [c] ++ r2 -> l1 = l2 /\ r1 = r2.
Proof.
  revert l2. induction l1 as [|x l1 IH]; intros [|y l2] H1 H2 E; simpl in E.
  - by injection E as ->.
  - exfalso. injection E as -> ->. apply H1. set_solver.
  - exfalso. injection E as -> <-. apply H2. set_solver.
  - injection E as -> E. destruct (IH l2 H1 H2 E) as [-> ->]. done.
Qed.

(** Text split at the first occurrence of a separator. *)
Lemma split_first (c : Z) l1 r1 l2 r2 :
  c ∉ l1 -> c ∉ l2 -> l1 ++ [c] ++ r1 = l2 ++ [c] ++ r2 -> l1 = l2 /\ r1 = r2.
Proof.
  revert l2. induction l1 as [|x l1 IH]; intros [|y l2] H1 H2 E; simpl in E.
  - by injection E as ->.
  - exfalso. injection E as -> _. set_solver.
  - exfalso. injection E as -> _. set_solver.
  - injection E as -> E. destruct (IH l2) as [-> ->]; set_solver.
Qed.

Lemma find_char_app c l r : c ∉ l -> find_char c (l ++ c :: r) = Some (length l).
Proof.
  induction l as [|x l IH]; intros H; cbn [app find_char length]; [by rewrite Z.eqb_refl|].
  destruct (Z.eqb_spec x c) as [->|]; [set_solver|]. rewrite IH by set_solver. done.
Qed.

Lemma find_char_None c l : c ∉ l -> find_char c l = None.
Proof.
  induction l as [|x l IH]; intros H; cbn [find_char]; [done|].
  destruct (Z.eqb_spec x c) as [->|]; [set_solver|]. rewrite IH by set_solver. done.
Qed.

Lemma c_str_id s : 0 ∉ s -> c_str s = s.
Proof.
  induction s as [|c s IH]; intros H; cbn [c_str]; [done|].
  destruct (Z.eqb_spec c 0) as [->|]; [set_solver|]. rewrite IH by set_solver. done.
Qed.

(** ** Text and equality *)

Section Text.
Context `{I : Inet} `{!InetLaws I}.

Lemma ntop_excludes c ip : bytes_ok ip -> addr_char c = false -> c ∉ inet_ntop4 ip /\ c ∉ inet_ntop6 ip.
Proof.
  intros Hip Hc. split; apply (not_char addr_char); try done; [by apply ntop4_chars|by apply ntop6_chars].
Qed.

Lemma ntop_inj4 x y :
  bytes_ok x -> bytes_ok y -> length x = 4%nat -> length y = 4%nat -> inet_ntop4 x = inet_ntop4 y -> x = y.
Proof. intros Hx Hy Lx Ly E. apply (f_equal inet_pton4) in E. rewrite !pton_ntop4 in E by done. congruence. Qed.

Lemma ntop_inj6 x y :
  bytes_ok x -> bytes_ok y -> length x = 16%nat -> length y = 16%nat -> inet_ntop6 x = inet_ntop6 y -> x = y.
Proof. intros Hx Hy Lx Ly E. apply (f_equal inet_pton6) in E. rewrite !pton_ntop6 in E by done. congruence. Qed.

Lemma ntop_families x y :
  bytes_ok x -> bytes_ok y -> length x = 4%nat -> length y = 16%nat -> inet_ntop4 x <> inet_ntop6 y.
Proof.
  intros Hx Hy Lx Ly E. destruct (pton_one_family (inet_ntop4 x)) as [H|H].
  - by rewrite pton_ntop4 in H.
  - by rewrite E, pton_ntop6 in H.
Qed.

(** The server's tables are keyed by an address's text; the text determines the
    address. *)
Lemma readable_inj a b : address_ok a -> address_ok b -> readable a = readable b -> a = b.
Proof.
  intros Ha Hb E.
  assert (Hp : forall p, 0 <= p -> 58 ∉ to_string p) by (intros; by apply digits_exclude).
  destruct a as [x p|x p|], b as [y q|y q|]; try done; destruct Ha as (Hx & Lx & ?), Hb as (Hy & Ly & ?);
    apply split_last in E as [E Ep]; try (apply Hp; lia); apply to_string_inj in Ep; try lia; subst.
  - by rewrite (ntop_inj4 x y).
  - by destruct (ntop_families x y).
  - by destruct (ntop_families y x).
  - by rewrite (ntop_inj6 x y).
Qed.

Lemma readable_excludes a c :
  address_ok a -> addr_char c = false -> is_digit c = false -> c <> 58 -> c ∉ readable a.
Proof.
  intros Ha Hc Hd Hne.
  destruct a as [x p|x p|]; [| |done]; destruct Ha as (Hx & _ & Hp); unfold readable;
    rewrite !not_elem_of_app, not_elem_of_cons; (split; [by apply ntop_excludes|]);
    (split; [split; [done|apply not_elem_of_nil]|]); apply digits_exclude; (done || lia).
Qed.

(** The text of a host is not taken for a name, and parses back in its own family. *)
Lemma from_host_text (resolve : list Z -> list Z) host port a :
  host <> [] -> starts_with (chars "unix:") host = false -> address_ok a ->
  match a with
  | InetAddressIPv4 ip p => resolve host = inet_ntop4 ip /\ p = port
  | InetAddressIPv6 ip p => resolve host = inet_ntop6 ip /\ p = port
  | InetAddressUnix _ => False
  end -> from_host resolve host port = Some a.
Proof.
  intros Hne Hun Ha Hr. unfold from_host. rewrite bool_decide_false, Hun by done.
  assert (Hl : forall t, 108 ∉ t -> 0 ∉ t -> bool_decide (t = chars "localhost") = false /\ c_str t = t).
  { intros t H1 H2. split; [|by apply c_str_id]. apply bool_decide_false. intros ->. apply H1. vm_compute. left. }
  destruct a as [ip p|ip p|]; [| |done]; destruct Ha as (Hb & Hlen & _), Hr as [-> ->];
    destruct (ntop_excludes 108 ip Hb eq_refl), (ntop_excludes 0 ip Hb eq_refl).
  - destruct (Hl (inet_ntop4 ip)) as [-> Ec]; [done..|]. unfold IsIPv4, ParseIPv4. rewrite Ec, pton_ntop4 by done.
    rewrite bool_decide_true by by eexists. done.
  - destruct (Hl (inet_ntop6 ip)) as [-> Ec]; [done..|]. unfold IsIPv4, IsIPv6, ParseIPv6. rewrite Ec, pton_ntop6 by done.
    destruct (pton_one_family (inet_ntop6 ip)) as [->|E]; [|by rewrite pton_ntop6 in E].
    rewrite bool_decide_false by (by intros [? ?]). rewrite bool_decide_true by by eexists. done.
Qed.

(** Equality of addresses is that of the values, whichever objects hold them. *)
Lemma InetAddress_eq_spec a b : address_ok a -> address_ok b -> InetAddress_eq a b = bool_decide (a = b).
Proof.
  intros Ha Hb. unfold InetAddress_eq, SameEndpoint.
  destruct a as [x p|x p|], b as [y q|y q|]; try done; cbn;
    (destruct (Z.eqb_spec p q) as [->|]; cbn; [|symmetry; apply bool_decide_eq_false; congruence]);
    apply bool_decide_ext; split; congruence.
Qed.

End Text.

(** ** Blocks *)

(** Bit [i] of an address, the most significant bit of the first byte first. *)
Definition addr_bit (bs : list Z) (i : nat) : bool :=
  Z.testbit (byte_at bs (i / 8)) (7 - Z.of_nat (i mod 8)).

Definition same_bits (a b : list Z) (n : nat) : Prop := forall i, (i < n)%nat -> addr_bit a i = addr_bit b i.

Lemma byte_high z k : is_byte z -> 8 <= k -> Z.testbit z k = false.
Proof.
  unfold is_byte. intros Hz Hk. rewrite <- (Z.mod_small z (2 ^ 8)) by lia. apply Z.mod_pow2_bits_high. lia.
Qed.

Lemma byte_ext x y : is_byte x -> is_byte y -> (forall k, 0 <= k < 8 -> Z.testbit x k = Z.testbit y k) -> x = y.
Proof.
  intros Hx Hy H. apply Z.bits_inj'. intros k Hk. destruct (Z.ltb_spec k 8) as [|Hge]; [by apply H|].
  by rewrite !byte_high by done.
Qed.

Lemma mask_testbit r k : 0 < r < 8 -> 0 <= k < 8 -> Z.testbit (u8 (Z.shiftl 255 (8 - r))) k = (8 - r <=? k).
Proof.
  intros Hr Hk. unfold u8. rewrite Z.mod_pow2_bits_low by lia. rewrite Z.shiftl_spec by lia.
  change 255 with (Z.ones 8). destruct (Z.leb_spec (8 - r) k).
  - rewrite Z.ones_spec_low; [done|lia].
  - rewrite Z.testbit_neg_r; [done|lia].
Qed.

(** The masked comparison looks at the leading bits of the byte. *)
Lemma masked_eq x y r :
  is_byte x -> is_byte y -> 0 < r < 8 ->
  (Z.land x (u8 (Z.shiftl 255 (8 - r))) =? Z.land y (u8 (Z.shiftl 255 (8 - r)))) = true <->
  forall j, 0 <= j < r -> Z.testbit x (7 - j) = Z.testbit y (7 - j).
Proof.
  intros Hx Hy Hr. rewrite Z.eqb_eq.
  split.
  - intros E j Hj. apply (f_equal (fun z => Z.testbit z (7 - j))) in E. rewrite !Z.land_spec in E.
    rewrite mask_testbit in E by lia.
    replace (8 - r <=? 7 - j) with true in E by (symmetry; apply Z.leb_le; lia). by rewrite !andb_true_r in E.
  - intros H. apply Z.bits_inj'. intros k Hk. rewrite !Z.land_spec.
    destruct (Z.ltb_spec k 8); [|by rewrite (byte_high x k), (byte_high y k) by done].
    rewrite mask_testbit by lia. destruct (Z.leb_spec (8 - r) k); [|by rewrite !andb_false_r].
    rewrite !andb_true_r. specialize (H (7 - k) ltac:(lia)). by replace (7 - (7 - k)) with k in H by lia.
Qed.

Lemma byte_at_ok bs i : bytes_ok bs -> is_byte (byte_at bs i).
Proof.
  intros H. unfold byte_at. destruct (bs !! i) as [x|] eqn:E; [|unfold is_byte; simpl; lia].
  by apply (Forall_lookup_1 _ _ _ _ H E).
Qed.

Lemma slices_eq a b n :
  (n <= length a)%nat -> (n <= length b)%nat ->
  slice 0 (Z.of_nat n) a = slice 0 (Z.of_nat n) b <-> forall i, (i < n)%nat -> byte_at a i = byte_at b i.
Proof.
  intros La Lb. unfold slice. rewrite !drop_0, Nat2Z.id. split.
  - intros E i Hi. unfold byte_at. apply (f_equal (fun l => l !! i)) in E.
    rewrite !lookup_take_lt in E by done. by rewrite E.
  - intros H. apply list_eq. intros i. destruct (decide (i < n)%nat).
    + rewrite !lookup_take_lt by done. specialize (H i ltac:(done)). unfold byte_at in H.
      destruct (lookup_lt_is_Some_2 a i ltac:(lia)) as [x Hx], (lookup_lt_is_Some_2 b i ltac:(lia)) as [y Hy].
      rewrite Hx, Hy in *. simpl in H. by subst.
    + rewrite !lookup_take_ge by lia. done.
Qed.

(** Equal bytes are equal bits, eight at a time. *)
Lemma whole_bits a b n :
  bytes_ok a -> bytes_ok b ->
  (forall i, (i < n)%nat -> byte_at a i = byte_at b i) <-> same_bits a b (8 * n).
Proof.
  intros Ha Hb. split.
  - intros H i Hi. unfold addr_bit. rewrite H; [done|]. apply Nat.Div0.div_lt_upper_bound. lia.
  - intros H i Hi. apply byte_ext; [by apply byte_at_ok|by apply byte_at_ok|]. intros k Hk.
    specialize (H (8 * i + Z.to_nat (7 - k))%nat ltac:(lia)). unfold addr_bit in H.
    replace ((8 * i + Z.to_nat (7 - k)) / 8)%nat with i in H.
    2: { apply Nat.div_unique with (Z.to_nat (7 - k)); lia. }
    replace ((8 * i + Z.to_nat (7 - k)) mod 8)%nat with (Z.to_nat (7 - k)) in H.
    2: { apply Nat.mod_unique with i; lia. }
    by replace (7 - Z.of_nat (Z.to_nat (7 - k))) with k in H by lia.
Qed.

Lemma same_bits_split a b n r :
  (r < 8)%nat -> same_bits a b (8 * n + r) <->
  same_bits a b (8 * n) /\ forall j, 0 <= j < Z.of_nat r -> Z.testbit (byte_at a n) (7 - j) = Z.testbit (byte_at b n) (7 - j).
Proof.
  intros Hr.
  assert (Hi : forall j, (j < r)%nat -> ((8 * n + j) / 8)%nat = n /\ ((8 * n + j) mod 8)%nat = j).
  { intros j Hj. split; [symmetry; apply Nat.div_unique with j; lia|symmetry; apply Nat.mod_unique with n; lia]. }
  split.
  - intros H. split; [intros i Hlt; apply H; lia|]. intros j Hj.
    specialize (H (8 * n + Z.to_nat j)%nat ltac:(lia)). unfold addr_bit in H.
    destruct (Hi (Z.to_nat j) ltac:(lia)) as [E1 E2]. rewrite E1, E2 in H. by rewrite Z2Nat.id in H by lia.
  - intros [H1 H2] i Hlt. destruct (decide (i < 8 * n)%nat); [by apply H1|].
    unfold addr_bit. replace i with (8 * n + (i - 8 * n))%nat by lia.
    destruct (Hi (i - 8 * n)%nat ltac:(lia)) as [E1 E2]. rewrite E1, E2. apply H2. lia.
Qed.

(** The byte-wise comparison is a comparison of the first [bits] bits. *)
Lemma PrefixMatch_bits a b bits :
  bytes_ok a -> bytes_ok b -> 0 <= bits <= 8 * zlen a -> bits <= 8 * zlen b ->
  PrefixMatch a b bits = true <-> same_bits a b (Z.to_nat bits).
Proof.
  intros Ha Hb H1 H2. unfold PrefixMatch.
  pose proof (Z_div_mod_eq_full bits 8) as Hd. pose proof (Z.mod_pos_bound bits 8 ltac:(lia)) as Hm.
  assert (0 <= bits / 8) by (apply Z.div_pos; lia).
  set (whole := bits / 8) in *. set (rem := bits mod 8) in *.
  replace (Z.to_nat bits) with (8 * Z.to_nat whole + Z.to_nat rem)%nat by lia.
  rewrite same_bits_split, <- whole_bits, <- slices_eq, Z2Nat.id by (done || lia).
  rewrite Z2Nat.id by lia.
  assert (Hw : negb (whole =? 0) && negb (bool_decide (slice 0 whole a = slice 0 whole b)) = false <->
               slice 0 whole a = slice 0 whole b).
  { destruct (Z.eqb_spec whole 0) as [->|]; cbn [negb andb]; [by rewrite !slice_nil by lia|].
    rewrite negb_false_iff. apply bool_decide_eq_true. }
  destruct (negb (whole =? 0) && _).
  { split; [done|]. intros [Hs _]. by apply Hw in Hs. }
  pose proof (proj1 Hw eq_refl) as E. destruct (Z.eqb_spec rem 0) as [E0|].
  - split; [|done]. intros _. split; [done|]. lia.
  - rewrite masked_eq by (try apply byte_at_ok; done || lia). tauto.
Qed.

(** A block holds 16 bytes; a valid one has a prefix its family can carry. *)
Record cidr_ok (b : CIDRBlock) : Prop := {
  cidr_bytes : bytes_ok (bytes_ b) /\ length (bytes_ b) = 16%nat;
  cidr_prefix : is_valid_ b = true -> 0 <= prefix_ b <= (if is_ipv6_ b then 128 else 32)
}.

Lemma strtol_nonneg s : forallb is_digit s = true -> 0 <= strtol s.
Proof.
  induction s as [|c s IH] using rev_ind; intros H; [unfold strtol; simpl; lia|].
  rewrite forallb_app in H. apply andb_true_iff in H as [H1 H2]. simpl in H2. unfold is_digit in H2.
  rewrite strtol_snoc. specialize (IH H1). bsplit. lia.
Qed.

Lemma split_block_prefix text addr prefix : split_block text = Some (addr, prefix) -> -1 <= prefix.
Proof.
  unfold split_block. destruct (find_char 47 text) as [n|].
  - destruct (bool_decide _), (3 <? _); try done. destruct (forallb is_digit (drop (S n) text)) eqn:E; [|done].
    intros H. injection H as <- <-. pose proof (strtol_nonneg _ E). lia.
  - intros H. injection H as <- <-. lia.
Qed.

Section Blocks.
Context `{I : Inet} `{!InetLaws I}.

Lemma Parse_ok text : cidr_ok (Parse text).
Proof.
  assert (Hz : bytes_ok (repeat 0 16)) by (apply bytes_ok_repeat; unfold is_byte; lia).
  unfold Parse. destruct (split_block text) as [[addr prefix]|] eqn:Es; [|by split; [split|]].
  apply split_block_prefix in Es.
  destruct (inet_pton4 _) as [v4|] eqn:E4.
  { destruct (pton4_bytes _ _ E4) as [Hb HL].
    assert (bytes_ok (splice 0 v4 (repeat 0 16)) /\ length (splice 0 v4 (repeat 0 16)) = 16%nat).
    { split; [by apply splice_bytes_ok|]. by rewrite length_splice by (rewrite ?HL; simpl; lia). }
    destruct (Z.ltb_spec 32 (if prefix <? 0 then 32 else prefix)) as [|Hp]; split; try done.
    intros _. cbn [prefix_ is_ipv6_]. destruct (Z.ltb_spec prefix 0); rewrite u8_small; lia. }
  destruct (inet_pton6 _) as [v6|] eqn:E6; [|by split; [split|]].
  destruct (pton6_bytes _ _ E6) as [Hb HL].
  assert (bytes_ok (splice 0 v6 (repeat 0 16)) /\ length (splice 0 v6 (repeat 0 16)) = 16%nat).
  { split; [by apply splice_bytes_ok|]. by rewrite length_splice by (rewrite ?HL; simpl; lia). }
  destruct (Z.ltb_spec 128 (if prefix <? 0 then 128 else prefix)) as [|Hp]; split; try done.
  intros _. cbn [prefix_ is_ipv6_]. destruct (Z.ltb_spec prefix 0); rewrite u8_small; lia.
Qed.

Lemma host_key_ok a :
  address_ok a -> bytes_ok (host_key a) /\ (length (host_key a) = 4%nat \/ length (host_key a) = 16%nat).
Proof.
  destruct a as [x p|x p|]; intros H; [| |done]; destruct H as (Hx & Lx & _); cbn [host_key]; [by auto|].
  destruct (IsV4MappedV6 x); [|by auto]. split; [by apply slice_bytes_ok|left].
  unfold slice. rewrite length_take, length_drop. lia.
Qed.

(** What a well-formed valid block matches. *)
Lemma Matches_bits b a :
  cidr_ok b -> is_valid_ b = true -> address_ok a ->
  Matches b a = true <->
  length (host_key a) = (if is_ipv6_ b then 16 else 4)%nat /\
  same_bits (bytes_ b) (host_key a) (Z.to_nat (prefix_ b)).
Proof.
  intros [ [Hb HL] Hp] Hv Ha. specialize (Hp Hv). destruct (host_key_ok a Ha) as [Hk Hlen].
  unfold Matches. rewrite Hv. cbn [negb].
  destruct (bool_decide_reflect (host_key a = [])) as [E|_]; [rewrite E in Hlen; simpl in Hlen; lia|].
  destruct (is_ipv6_ b).
  - destruct (Z.eqb_spec (zlen (host_key a)) 16); cbn [eqb negb].
    + rewrite PrefixMatch_bits by (done || lia). split; [|tauto]. intros. split; [lia|done].
    + split; [done|]. intros [? _]. lia.
  - destruct (Z.eqb_spec (zlen (host_key a)) 16); cbn [eqb negb].
    + split; [done|]. intros [? _]. lia.
    + rewrite PrefixMatch_bits by (done || lia). split; [|tauto]. intros. split; [lia|done].
Qed.

(** The text [host/prefix], parsed. *)
Lemma Parse_text host p :
  (forall c, addr_char c = false -> c ∉ host) -> 0 <= p < 1000 ->
  split_block (host ++ [47] ++ to_string p) = Some (host, p) /\ c_str host = host.
Proof.
  intros Hc Hp. split; [|apply c_str_id; by apply Hc].
  unfold split_block. cbn [app]. rewrite find_char_app by (by apply Hc).
  replace (drop (S (length host)) (host ++ 47 :: to_string p)) with (to_string p).
  2: { replace (S (length host)) with (length host + 1)%nat by lia. by rewrite <- drop_drop, drop_app_length. }
  rewrite take_app_length, strtol_to_string by lia.
  assert (HQ : forallb (fun p => negb (bool_decide (to_string p = [])) && negb (3 <? zlen (to_string p)))
    (map Z.of_nat (seq 0 1000)) = true) by (vm_compute; reflexivity).
  rewrite forallb_forall in HQ. specialize (HQ p).
  assert (Hin : In p (map Z.of_nat (seq 0 1000))) by (apply in_map_iff; exists (Z.to_nat p); rewrite in_seq; lia).
  specialize (HQ Hin). apply andb_true_iff in HQ as [H1 H2]. apply negb_true_iff in H1, H2. rewrite H1, H2.
  replace (forallb is_digit (to_string p)) with true; [done|].
  symmetry. apply forallb_forall. pose proof (to_string_digits p ltac:(lia)) as H. rewrite Forall_forall in H.
  intros x Hx. apply H, list_elem_of_In, Hx.
Qed.

Lemma splice_front_bits ip a n :
  (n <= 8 * length ip)%nat -> same_bits (splice 0 ip (repeat 0 16)) a n <-> same_bits ip a n.
Proof.
  intros Hn. unfold same_bits, addr_bit, byte_at, splice. simpl (take _ _). cbn [app].
  split; intros H i Hi; specialize (H i Hi); rewrite lookup_app_l in *; try done;
    apply Nat.Div0.div_lt_upper_bound; lia.
Qed.

(** [C35] A rule written as an address and a prefix length matches exactly the
    sources of its family whose leading bits agree with it, where an IPv4-mapped
    IPv6 source counts as the IPv4 host it names: the parser reads back what was
    written and the byte-wise comparison is a comparison of bits. *)
Theorem cidr_rule_exact (ip : list Z) (p : Z) (a : InetAddress)
  (Hip : bytes_ok ip) (Hp : 0 <= p) (Ha : address_ok a) :
  (length ip = 4%nat -> p <= 32 ->
     Matches (Parse (inet_ntop4 ip ++ [47] ++ to_string p)) a = true <->
     length (host_key a) = 4%nat /\ same_bits ip (host_key a) (Z.to_nat p)) /\
  (length ip = 16%nat -> p <= 128 ->
     Matches (Parse (inet_ntop6 ip ++ [47] ++ to_string p)) a = true <->
     length (host_key a) = 16%nat /\ same_bits ip (host_key a) (Z.to_nat p)).
Proof.
  split; intros HL Hb.
  - destruct (Parse_text (inet_ntop4 ip) p) as [E1 E2]; [intros c Hc; by apply ntop_excludes|lia|].
    pose proof (Parse_ok (inet_ntop4 ip ++ [47] ++ to_string p)) as Hok. revert Hok.
    unfold Parse. rewrite E1, E2, pton_ntop4 by done.
    replace (p <? 0) with false by (symmetry; apply Z.ltb_ge; lia).
    replace (32 <? p) with false by (symmetry; apply Z.ltb_ge; lia). intros Hok.
    rewrite Matches_bits by done. cbn [is_ipv6_ bytes_ prefix_]. rewrite u8_small by lia.
    by rewrite splice_front_bits by lia.
  - destruct (Parse_text (inet_ntop6 ip) p) as [E1 E2]; [intros c Hc; by apply ntop_excludes|lia|].
    pose proof (Parse_ok (inet_ntop6 ip ++ [47] ++ to_string p)) as Hok. revert Hok.
    unfold Parse. rewrite E1, E2, pton_ntop6 by done.
    destruct (pton_one_family (inet_ntop6 ip)) as [->|E6]; [|by rewrite pton_ntop6 in E6].
    replace (p <? 0) with false by (symmetry; apply Z.ltb_ge; lia).
    replace (128 <? p) with false by (symmetry; apply Z.ltb_ge; lia). intros Hok.
    rewrite Matches_bits by done. cbn [is_ipv6_ bytes_ prefix_]. rewrite u8_small by lia.
    by rewrite splice_front_bits by lia.
Qed.

End Blocks.

(** ** A concrete C library, for the examples

    Dotted decimals and groups of four hexadecimal digits. *)

Module TextInet.

Definition join (c : Z) (fields : list (list Z)) : list Z :=
  match fields with [] => [] | f :: fs => f ++ (fs ≫= fun g => c :: g) end.

Fixpoint split (c : Z) (s : list Z) : list (list Z) :=
  match s with
  | [] => [ [] ]
  | x :: s =>
      if x =? c then [] :: split c s
      else match split c s with [] => [ [x] ] | f :: fs => (x :: f) :: fs end
  end.

Definition read_field (f : list Z) : option Z :=
  if forallb is_digit f && bool_decide (f <> []) && (strtol f <? 256) then Some (strtol f) else None.

Definition hex_digit (v : Z) : Z := if v <? 10 then 48 + v else 87 + v.
Definition hex_value (c : Z) : Z := if c <? 58 then c - 48 else c - 87.
Definition hex (b : Z) : list Z := [hex_digit (b / 16); hex_digit (b mod 16)].

Definition read_group (f : list Z) : option (list Z) :=
  match f with
  | [a; b; c; d] => Some [u8 (hex_value a * 16 + hex_value b); u8 (hex_value c * 16 + hex_value d)]
  | _ => None
  end.

Fixpoint groups (ip : list Z) : list (list Z) :=
  match ip with a :: b :: ip => (hex a ++ hex b) :: groups ip | _ => [] end.

#[export] Instance text : Inet := {|
  inet_ntop4 ip := join 46 (map to_string ip);
  inet_ntop6 ip := join 58 (groups ip);
  inet_pton4 s :=
    if existsb (Z.eqb 58) s then None
    else match mapM read_field (split 46 s) with
         | Some ip => if (length ip =? 4)%nat then Some ip else None
         | None => None
         end;
  inet_pton6 s :=
    if existsb (Z.eqb 58) s
    then match mapM read_group (split 58 s) with
         | Some gs => if (length (concat gs) =? 16)%nat then Some (concat gs) else None
         | None => None
         end
    else None
|}.

Lemma split_field c f r : c ∉ f -> split c (f ++ c :: r) = f :: split c r.
Proof.
  induction f as [|x f IH]; intros H; cbn [app split]; [by rewrite Z.eqb_refl|].
  destruct (Z.eqb_spec x c) as [->|]; [set_solver|]. by rewrite IH by set_solver.
Qed.

Lemma split_last_field c f : c ∉ f -> split c f = [f].
Proof.
  induction f as [|x f IH]; intros H; cbn [split]; [done|].
  destruct (Z.eqb_spec x c) as [->|]; [set_solver|]. by rewrite IH by set_solver.
Qed.

Lemma split_join c f fs : Forall (fun g => c ∉ g) (f :: fs) -> split c (join c (f :: fs)) = f :: fs.
Proof.
  revert f. induction fs as [|g fs IH]; intros f H; inversion_clear H as [|? ? Hf Hfs].
  - cbn. rewrite app_nil_r. by apply split_last_field.
  - cbn [join]. rewrite bind_cons_eq. cbn [app]. rewrite split_field by done.
    f_equal. exact (IH g Hfs).
Qed.

Lemma join_chars (Q : Z -> bool) c fs :
  Q c = true -> Forall (Forall (fun x => Q x = true)) fs -> Forall (fun x => Q x = true) (join c fs).
Proof.
  intros Hc H. destruct H as [|f fs Hf Hfs]; [constructor|]. cbn [join]. apply Forall_app. split; [done|].
  induction Hfs as [|g fs Hg _ IH]; [constructor|]. rewrite bind_cons_eq. cbn [app].
  constructor; [done|]. by apply Forall_app.
Qed.

Lemma byte_text x :
  is_byte x -> read_field (to_string x) = Some x /\ Forall (fun c => is_digit c = true) (to_string x).
Proof.
  intros Hx. split; [|apply to_string_digits; unfold is_byte in Hx; lia].
  pose proof (byte_ind (fun x => match read_field (to_string x) with Some y => y =? x | None => false end)
    ltac:(vm_compute; reflexivity) x Hx) as H. cbv beta in H.
  destruct (read_field (to_string x)); [|done]. by apply Z.eqb_eq in H as ->.
Qed.

Lemma hex_text x y :
  is_byte x -> is_byte y -> read_group (hex x ++ hex y) = Some [x; y] /\
  Forall (fun c => addr_char c && negb (c =? 58) = true) (hex x).
Proof.
  intros Hx Hy.
  assert (H : forall x, is_byte x -> u8 (hex_value (hex_digit (x / 16)) * 16 + hex_value (hex_digit (x mod 16))) = x).
  { intros z Hz. pose proof (byte_ind (fun x => u8 (hex_value (hex_digit (x / 16)) * 16 + hex_value (hex_digit (x mod 16))) =? x)
      ltac:(vm_compute; reflexivity) z Hz) as E. by apply Z.eqb_eq in E. }
  split; [cbn; by rewrite !H|].
  pose proof (byte_ind (fun x => forallb (fun c => addr_char c && negb (c =? 58)) (hex x))
    ltac:(vm_compute; reflexivity) x Hx) as E.
  rewrite forallb_forall in E. apply Forall_forall. intros c Hc. by apply E, list_elem_of_In.
Qed.

Lemma groups_ok ip :
  bytes_ok ip -> length ip = 16%nat ->
  mapM read_group (groups ip) = Some (map (fun i => slice (2 * Z.of_nat i) 2 ip) (seq 0 8)).
Proof.
  intros H HL. do 16 (destruct ip as [|? ip]; [done|]). destruct ip; [|done].
  unfold bytes_ok in H. rewrite !Forall_cons in H. destruct_and! H.
  cbn [groups mapM]. rewrite !(fun x y Hx Hy => proj1 (hex_text x y Hx Hy)) by done. done.
Qed.

Lemma groups_chars ip :
  bytes_ok ip -> Forall (Forall (fun c => addr_char c && negb (c =? 58) = true)) (groups ip).
Proof.
  revert ip. fix IH 1. intros [|a [|b ip] ] H; [constructor|constructor|].
  inversion_clear H as [|? ? Ha H']. inversion_clear H' as [|? ? Hb Hip]. constructor; [|by apply IH].
  apply Forall_app. split; [by apply (hex_text a b)|by apply (hex_text b a)].
Qed.

Lemma no_colon s : 58 ∉ s -> existsb (Z.eqb 58) s = false.
Proof.
  intros H. apply not_true_is_false. rewrite existsb_exists. intros (x & Hx & E).
  apply Z.eqb_eq in E as <-. by apply H, list_elem_of_In.
Qed.

#[export] Instance text_laws : InetLaws text.
Proof.
  split; cbn.
  - intros s ip. destruct (existsb _ s); [done|]. destruct (mapM _ _) as [l|] eqn:E; [|done].
    destruct (Nat.eqb_spec (length l) 4); [|done]. intros [= <-]. split; [|done].
    apply mapM_Some in E. apply Forall_forall. intros x Hx. apply list_elem_of_lookup in Hx as [i Hi].
    destruct (Forall2_lookup_r _ _ _ _ _ E Hi) as (f & _ & Hf). unfold read_field in Hf.
    destruct (forallb is_digit f) eqn:Ed, (bool_decide _), (Z.ltb_spec (strtol f) 256); try done.
    injection Hf as <-. pose proof (strtol_nonneg _ Ed). unfold is_byte. lia.
  - intros s ip. destruct (existsb _ s); [|done]. destruct (mapM _ _) as [l|] eqn:E; [|done].
    destruct (Nat.eqb_spec (length (concat l)) 16); [|done]. intros [= <-]. split; [|done].
    apply mapM_Some in E. apply Forall_concat, Forall_forall. intros g Hg. apply list_elem_of_lookup in Hg as [i Hi].
    destruct (Forall2_lookup_r _ _ _ _ _ E Hi) as (f & _ & Hf). unfold read_group in Hf.
    destruct f as [|a [|b [|c [|d [|] ] ] ] ]; try done. injection Hf as <-. repeat constructor; apply u8_range.
  - intros ip Hip HL. destruct ip as [|x ip]; [done|].
    assert (HF : Forall (Forall (fun c => is_digit c = true)) (map to_string (x :: ip))).
    { apply Forall_map, Forall_forall. intros y Hy. apply byte_text. by apply (Forall_forall is_byte (x :: ip)). }
    rewrite no_colon.
    2: { apply (not_char (fun c => is_digit c || (c =? 46))); [|done].
         apply join_chars; [done|]. eapply Forall_impl; [exact HF|]. intros f Hf.
         eapply Forall_impl; [exact Hf|]. cbn. by intros c ->. }
    change (map to_string (x :: ip)) with (to_string x :: map to_string ip).
    rewrite split_join.
    2: { eapply Forall_impl; [exact HF|]. intros f Hf. by apply (not_char is_digit). }
    replace (mapM read_field (to_string x :: map to_string ip)) with (Some (x :: ip)).
    { by rewrite HL. }
    symmetry. apply mapM_Some. change (to_string x :: map to_string ip) with (map to_string (x :: ip)).
    apply Forall2_fmap_l, Forall_Forall2_diag, Forall_forall. intros y Hy. apply byte_text.
    by apply (Forall_forall is_byte (x :: ip)).
  - intros ip Hip HL. pose proof (groups_chars ip Hip) as HF. pose proof (groups_ok ip Hip HL) as HG.
    assert (E : exists g h gs, groups ip = g :: h :: gs).
    { do 4 (destruct ip as [|? ip]; [done|]). cbn. eauto. }
    destruct E as (g & h & gs & E). rewrite E in *.
    replace (existsb (Z.eqb 58) (join 58 (g :: h :: gs))) with true.
    2: { symmetry. apply existsb_exists. exists 58. split; [|done]. apply list_elem_of_In.
         cbn [join]. rewrite bind_cons_eq. set_solver. }
    rewrite split_join.
    2: { eapply Forall_impl; [exact HF|]. intros f Hf. by apply (not_char (fun c => addr_char c && negb (c =? 58))). }
    rewrite HG. do 16 (destruct ip as [|? ip]; [done|]). by destruct ip.
  - intros s. destruct (existsb _ s); auto.
  - intros ip Hip. apply join_chars; [done|]. apply Forall_map, Forall_forall. intros y Hy.
    destruct (byte_text y) as [_ Hd]; [by apply (Forall_forall is_byte ip)|].
    eapply Forall_impl; [exact Hd|]. intros c Hc. unfold addr_char. by rewrite Hc.
  - intros ip Hip. apply join_chars; [done|]. eapply Forall_impl; [by apply groups_chars|].
    intros f Hf. eapply Forall_impl; [exact Hf|]. intros c Hc. by apply andb_true_iff in Hc as [? _].
Qed.

End TextInet.

Import TextInet.

(** 10.16.0.0/12 on an IPv4-mapped source inside it. *)
Lemma cidr_rule_exact_witness :
  let a := InetAddressIPv6 (repeat 0 10 ++ [255; 255; 10; 31; 7; 9]) 5000 in
  Matches (Parse (inet_ntop4 [10; 16; 0; 0] ++ [47] ++ to_string 12)) a = true <->
  length (host_key a) = 4%nat /\ same_bits [10; 16; 0; 0] (host_key a) 12.
Proof.
  apply (cidr_rule_exact [10; 16; 0; 0] 12 (InetAddressIPv6 (repeat 0 10 ++ [255; 255; 10; 31; 7; 9]) 5000)); try done;
    try lia; repeat split; try lia; try (repeat constructor; done).
Defined.
