(* ===== verification/Admission.v ===== *)
(** * Listener-side admission (admission.h, admission.cc)

    The allow and deny lists and the per-source attempt throttle.  Times are
    nanoseconds of the steady clock; a caller passes the reading [Admit] takes. *)

From S2P Require Import Prelude Buffer BufferSpec BufferCodecs ZdtWire InetAddr.

(** ** The rules and the table *)

Inductive Verdict := Allow | Denylisted | NotAllowlisted | Throttled.

#[export] Instance Verdict_eq_dec : EqDecision Verdict.
Proof. solve_decision. Defined.

Record SourceWindow := mkWindow { window_start : Z; count : Z }.

(** [attempt_window] in milliseconds. *)
Record ServerOptions := mkServerOptions {
  allowlist : list CIDRBlock;
  denylist : list CIDRBlock;
  max_attempts_per_source : Z;
  attempt_window : Z
}.

Record AdmissionControl := mkAdmission {
  allowlist_ : list CIDRBlock;
  denylist_ : list CIDRBlock;
  max_attempts_ : Z;
  window_ : Z;
  sources_ : gmap (list Z) SourceWindow
}.

Definition set_sources (v : gmap (list Z) SourceWindow) (a : AdmissionControl) : AdmissionControl :=
  mkAdmission (allowlist_ a) (denylist_ a) (max_attempts_ a) (window_ a) v.

Definition kMaxTrackedSources : Z := 4096.

Definition AnyMatch (blocks : list CIDRBlock) (source : InetAddress) : bool :=
  existsb (fun block => Matches block source) blocks.

Definition ValidOnly (blocks : list CIDRBlock) : list CIDRBlock := List.filter is_valid_ blocks.

Definition AdmissionControl_new (options : ServerOptions) : AdmissionControl :=
  mkAdmission (ValidOnly (allowlist options)) (ValidOnly (denylist options))
    (max_attempts_per_source options) (attempt_window options) ∅.

Definition Screen (source : InetAddress) (a : AdmissionControl) : Verdict :=
  if bool_decide (ipv source = Unix) then Allow
  else if AnyMatch (denylist_ a) source then Denylisted
  else if negb (bool_decide (allowlist_ a = [])) && negb (AnyMatch (allowlist_ a) source) then NotAllowlisted
  else Allow.

Definition window_ns (a : AdmissionControl) : Z := window_ a * 1000000.

(** Entries whose window has elapsed, dropped. *)
Definition prune (now window : Z) (sources : gmap (list Z) SourceWindow) : gmap (list Z) SourceWindow :=
  filter (fun e => negb (window <? now - window_start e.2)) sources.

Definition map_size {A} (m : gmap (list Z) A) : Z := Z.of_nat (size m).

Definition Admit (now : Z) (source : InetAddress) (a : AdmissionControl) : Verdict * AdmissionControl :=
  let verdict := Screen source a in
  if negb (bool_decide (verdict = Allow)) then (verdict, a)
  else if (max_attempts_ a =? 0) || (window_ a <=? 0) then (Allow, a)
  else
    let key := host_key source in
    if bool_decide (key = []) then (Allow, a)
    else
      let full := kMaxTrackedSources <? map_size (sources_ a) in
      let sources := if full then prune now (window_ns a) (sources_ a) else sources_ a in
      if full && (kMaxTrackedSources <? map_size sources) && bool_decide (sources !! key = None)
      then (Allow, set_sources sources a)
      else
        let entry := default (mkWindow 0 0) (sources !! key) in
        let entry := if (count entry =? 0) || (window_ns a <? now - window_start entry)
                     then mkWindow now 0 else entry in
        let entry := mkWindow (window_start entry) (u32 (count entry + 1)) in
        (if count entry <=? max_attempts_ a then Allow else Throttled,
         set_sources (<[key := entry]> sources) a).

(** ** A counter per fixed window

    What both throttles of the server do with one source's entry. *)

Definition hit (window now : Z) (e : option SourceWindow) : SourceWindow :=
  match e with
  | Some w => if (count w =? 0) || (window <? now - window_start w) then mkWindow now 1
              else mkWindow (window_start w) (count w + 1)
  | None => mkWindow now 1
  end.

(** [allowed] of the attempts made since [from] are covered by the entry. *)
Definition covers (from limit : Z) (e : option SourceWindow) (allowed : Z) : Prop :=
  match e with
  | Some w => 0 <= count w /\ allowed <= (if window_start w <? from then 0 else limit) + Z.min (count w) limit
  | None => allowed <= limit
  end.

Lemma hit_covers window limit from now e allowed :
  0 <= limit -> from <= now <= from + window ->
  covers from limit e allowed ->
  covers from limit (Some (hit window now e)) (allowed + if count (hit window now e) <=? limit then 1 else 0).
Proof.
  intros Hl Hn Hc. destruct e as [ [s c] |]; cbn [hit].
  - destruct Hc as [Hc0 Hc]. cbn [count window_start] in *.
    destruct (Z.eqb_spec c 0) as [->|], (Z.ltb_spec window (now - s)); cbn [orb covers count window_start];
      (split; [lia|]); destruct (Z.ltb_spec s from), (Z.ltb_spec now from); try lia;
      match goal with |- context [?x <=? limit] => destruct (Z.leb_spec x limit) end; lia.
  - cbn [covers count window_start] in *. split; [lia|]. destruct (Z.ltb_spec now from); [lia|].
    destruct (Z.leb_spec 1 limit); lia.
Qed.

(** Dropping an elapsed entry loses nothing: it belonged to an earlier window. *)
Lemma drop_covers window limit from now w allowed :
  from <= now <= from + window -> 0 <= limit -> window < now - window_start w ->
  covers from limit (Some w) allowed -> covers from limit None allowed.
Proof. intros Hn Hl He [_ Hc]. cbn. destruct (Z.ltb_spec (window_start w) from); lia. Qed.

Lemma covers_bound from limit e allowed : 0 <= limit -> covers from limit e allowed -> allowed <= 2 * limit.
Proof. intros Hl. destruct e as [w|]; cbn; [intros [_ H]; destruct (_ <? _); lia|lia]. Qed.

Lemma covers_start from limit e :
  0 <= limit -> (forall w, e = Some w -> 0 <= count w) -> covers from limit e 0.
Proof. intros Hl He. destruct e as [w|]; cbn; [|done]. specialize (He w eq_refl). destruct (_ <? _); lia. Qed.

(** ** The lists *)

Section Rules.

Lemma ValidOnly_elem b bs : b ∈ ValidOnly bs <-> b ∈ bs /\ is_valid_ b = true.
Proof. unfold ValidOnly. rewrite !list_elem_of_In. apply filter_In. Qed.

Lemma AnyMatch_true bs a : AnyMatch bs a = true <-> exists b, b ∈ bs /\ Matches b a = true.
Proof.
  unfold AnyMatch. rewrite existsb_exists. split; intros (b & H1 & H2); exists b;
    (split; [by apply list_elem_of_In|done]).
Qed.

Lemma AnyMatch_valid bs a : AnyMatch (ValidOnly bs) a = AnyMatch bs a.
Proof.
  apply eq_true_iff_eq. rewrite !AnyMatch_true. split; intros (b & H1 & H2); exists b.
  - apply ValidOnly_elem in H1 as [? _]. done.
  - split; [|done]. apply ValidOnly_elem. split; [done|]. unfold Matches in H2. by destruct (is_valid_ b).
Qed.

Lemma Admit_rules now source a :
  allowlist_ (Admit now source a).2 = allowlist_ a /\ denylist_ (Admit now source a).2 = denylist_ a /\
  max_attempts_ (Admit now source a).2 = max_attempts_ a /\ window_ (Admit now source a).2 = window_ a.
Proof. unfold Admit. repeat case_match; done. Qed.

Lemma Admit_screened now source a : (Admit now source a).1 = Allow -> Screen source a = Allow.
Proof.
  unfold Admit. destruct (bool_decide_reflect (Screen source a = Allow)) as [E|E]; [done|].
  cbn. intros. by destruct E.
Qed.

Lemma Screen_rules source a b :
  allowlist_ a = allowlist_ b -> denylist_ a = denylist_ b -> Screen source a = Screen source b.
Proof. unfold Screen. by intros -> ->. Qed.

End Rules.

(** ** Runs *)

(** A sequence of attempts, each with its time; the verdicts in order. *)
Fixpoint admit_all (attempts : list (Z * InetAddress)) (a : AdmissionControl) : list Verdict * AdmissionControl :=
  match attempts with
  | [] => ([], a)
  | (now, source) :: rest =>
      let '(v, a) := Admit now source a in
      let '(vs, a) := admit_all rest a in
      (v :: vs, a)
  end.

Lemma admit_all_app xs ys a :
  admit_all (xs ++ ys) a =
  let '(vs, a1) := admit_all xs a in let '(ws, a2) := admit_all ys a1 in (vs ++ ws, a2).
Proof.
  revert a. induction xs as [|[now s] xs IH]; intros a; cbn [app admit_all].
  - by destruct (admit_all ys a).
  - destruct (Admit now s a) as [v a']. rewrite IH.
    destruct (admit_all xs a') as [vs a1], (admit_all ys a1) as [ws a2]. done.
Qed.

Lemma length_admit_all xs a : length (admit_all xs a).1 = length xs.
Proof.
  revert a. induction xs as [|[now s] xs IH]; intros a; cbn [admit_all]; [done|].
  destruct (Admit now s a) as [v a'] eqn:E. specialize (IH a').
  destruct (admit_all xs a') as [vs a1]. simpl in *. by rewrite IH.
Qed.

(** How many attempts of one host passed. *)
Fixpoint allowed_of (key : list Z) (attempts : list (Z * InetAddress)) (vs : list Verdict) : Z :=
  match attempts, vs with
  | (_, s) :: attempts, v :: vs =>
      (if bool_decide (host_key s = key) && bool_decide (v = Allow) then 1 else 0) + allowed_of key attempts vs
  | _, _ => 0
  end.

Definition throttling (a : AdmissionControl) : Prop := 0 < max_attempts_ a < 2 ^ 32 /\ 0 < window_ a.

(** *** The traffic *)

(** The hosts that made one of the attempts [xs] within [window] of [now]. *)
Definition recent_hosts (now window : Z) (xs : list (Z * InetAddress)) : gset (list Z) :=
  list_to_set ((fun x => host_key x.2) <$> filter (fun x => now - x.1 <= window) xs).

(** At every attempt, no more hosts than the table tracks made one within the
    window before it, so that their windows alone do not fill the table. *)
Fixpoint uncrowded (window : Z) (past xs : list (Z * InetAddress)) : bool :=
  match xs with
  | [] => true
  | x :: xs => (Z.of_nat (size (recent_hosts x.1 window past)) <=? kMaxTrackedSources) && uncrowded window (past ++ [x]) xs
  end.

(** The readings of the steady clock do not go back. *)
Fixpoint clock_ok (last : Z) (xs : list (Z * InetAddress)) : bool :=
  match xs with [] => true | x :: xs => (last <=? x.1) && clock_ok x.1 xs end.

(** The attempts of one host between two times. *)
Definition hits (key : list Z) (lo hi : Z) (xs : list (Z * InetAddress)) : Z :=
  zlen (filter (fun x => host_key x.2 = key /\ lo <= x.1 <= hi) xs).

Lemma hits_app key lo hi xs ys : hits key lo hi (xs ++ ys) = hits key lo hi xs + hits key lo hi ys.
Proof. unfold hits. rewrite filter_app, length_app. lia. Qed.

Lemma hits_nonneg key lo hi xs : 0 <= hits key lo hi xs <= zlen xs.
Proof. unfold hits. pose proof (length_filter (fun x => host_key x.2 = key /\ lo <= x.1 <= hi) xs). lia. Qed.

Lemma hits_self key lo hi now s : host_key s = key -> lo <= now <= hi -> hits key lo hi [(now, s)] = 1.
Proof. intros Hk Hn. unfold hits. by rewrite filter_cons_True. Qed.

Lemma uncrowded_app window past xs ys :
  uncrowded window past (xs ++ ys) = uncrowded window past xs && uncrowded window (past ++ xs) ys.
Proof.
  revert past. induction xs as [|x xs IH]; intros past; cbn [app uncrowded]; [by rewrite app_nil_r|].
  by rewrite IH, andb_assoc, <- app_assoc.
Qed.

Lemma size_recent now window xs : Z.of_nat (size (recent_hosts now window xs)) <= zlen xs.
Proof.
  unfold recent_hosts. set (f := filter _ xs). assert (H : (size (list_to_set ((fun x => host_key x.2) <$> f) : gset (list Z)) <= length f)%nat).
  { clearbody f. induction f as [|x f IH]; cbn [fmap list_fmap list_to_set length]; [by rewrite size_empty|].
    pose proof (size_union_alt ({[host_key x.2]} : gset (list Z)) (list_to_set ((fun x => host_key x.2) <$> f))) as E.
    pose proof (subseteq_size (list_to_set ((fun x => host_key x.2) <$> f) ∖ {[host_key x.2]}) (list_to_set ((fun x => host_key x.2) <$> f) : gset (list Z)) ltac:(set_solver)).
    rewrite size_singleton in E. lia. }
  pose proof (length_filter (fun x : Z * InetAddress => now - x.1 <= window) xs). fold f in H0. lia.
Qed.

(** *** The table and one host's entry *)

Section Throttle.
Context (key : list Z).

(** After the attempts [past]: every window was opened by an attempt of its
    host, and the host's own counter counts attempts of its window. *)
Record table_ok (past : list (Z * InetAddress)) (a : AdmissionControl) : Prop := {
  to_opened : forall k w, sources_ a !! k = Some w -> exists x, x ∈ past /\ host_key x.2 = k /\ x.1 = window_start w;
  to_count : forall w, sources_ a !! key = Some w ->
    0 <= count w <= hits key (window_start w) (window_start w + window_ns a) past
}.

(** The entry of the host once elapsed windows may have been dropped. *)
Definition maybe_pruned (now window : Z) (e e' : option SourceWindow) : Prop :=
  e' = e \/ e' = None /\ exists w, e = Some w /\ window < now - window_start w.

Lemma prune_recent past now a : table_ok past a ->
  map_size (prune now (window_ns a) (sources_ a)) <= Z.of_nat (size (recent_hosts now (window_ns a) past)).
Proof.
  intros [Ho _]. unfold map_size. rewrite <- size_dom. apply inj_le, subseteq_size. intros k.
  rewrite elem_of_dom. intros [w Hw]. unfold prune in Hw. apply map_lookup_filter_Some in Hw as [Hw Hlive]. cbn [snd] in Hlive.
  destruct (Ho k w Hw) as (x & Hx & Hk & Ht). unfold recent_hosts. rewrite elem_of_list_to_set, list_elem_of_fmap.
  exists x. split; [done|]. apply list_elem_of_filter. split; [|done].
  destruct (Z.ltb_spec (window_ns a) (now - window_start w)); [done|lia].
Qed.

Lemma prune_lookup (now window : Z) (m : gmap (list Z) SourceWindow) : maybe_pruned now window (m !! key) (prune now window m !! key).
Proof.
  unfold prune, maybe_pruned. rewrite map_lookup_filter. destruct (m !! key) as [w|]; cbn; [|by left].
  destruct (Z.ltb_spec window (now - window_start w)); cbn; [right|left]; [|done]. split; [done|]. eauto.
Qed.

Lemma table_ok_weaken past a x : table_ok past a -> table_ok (past ++ [x]) a.
Proof.
  intros [Ho Hc]. split.
  - intros k w Hk. destruct (Ho k w Hk) as (y & Hy & ?). exists y. split; [|done]. apply elem_of_app. by left.
  - intros w Hw. specialize (Hc w Hw). rewrite hits_app. pose proof (hits_nonneg key (window_start w) (window_start w + window_ns a) [x]). lia.
Qed.

(** An attempt never fails to be counted while the traffic is not crowded:
    nothing happens to the table, or elapsed windows may go and the host's own
    entry is hit. *)
Lemma Admit_step past now source a :
  throttling a -> table_ok past a -> Forall (fun x => x.1 <= now) past ->
  Z.of_nat (size (recent_hosts now (window_ns a) past)) <= kMaxTrackedSources ->
  (forall t, hits key t (t + window_ns a) (past ++ [(now, source)]) < 2 ^ 32) ->
  let '(v, a') := Admit now source a in
  table_ok (past ++ [(now, source)]) a' /\
  (sources_ a' = sources_ a /\ (v <> Allow \/ host_key source = []) \/
   exists e, maybe_pruned now (window_ns a) (sources_ a !! key) e /\
     if bool_decide (host_key source = key)
     then sources_ a' !! key = Some (hit (window_ns a) now e) /\
          v = (if count (hit (window_ns a) now e) <=? max_attempts_ a then Allow else Throttled)
     else sources_ a' !! key = e).
Proof.
  intros [Hm Hw] Hok Hpast Hfew Hflood. pose proof (table_ok_weaken past a (now, source) Hok) as Hweak.
  unfold Admit. destruct (bool_decide_reflect (Screen source a = Allow)) as [E|E]; cbn [negb]; [|by eauto].
  replace (max_attempts_ a =? 0) with false by (symmetry; apply Z.eqb_neq; lia).
  replace (window_ a <=? 0) with false by (symmetry; apply Z.leb_gt; lia). cbn [orb].
  destruct (bool_decide_reflect (host_key source = [])) as [E0|E0]; [by eauto|].
  set (full := kMaxTrackedSources <? map_size (sources_ a)).
  set (sources := if full then prune now (window_ns a) (sources_ a) else sources_ a).
  assert (Hroom : full && (kMaxTrackedSources <? map_size sources) = false).
  { unfold sources. destruct full eqn:Ef; [|done]. cbn [andb]. apply Z.ltb_ge. pose proof (prune_recent past now a Hok). lia. }
  rewrite Hroom. cbn [andb].
  assert (Hmp : maybe_pruned now (window_ns a) (sources_ a !! key) (sources !! key))
    by (unfold sources; destruct full; [apply prune_lookup|by left]).
  assert (Hsub : forall k w, sources !! k = Some w -> sources_ a !! k = Some w).
  { unfold sources. destruct full; [|done]. intros k w Hk. unfold prune in Hk. by apply map_lookup_filter_Some in Hk as [? _]. }
  clearbody sources. clear Hroom. set (e0 := sources !! host_key source).
  set (entry := mkWindow _ _). destruct Hok as [Ho Hc].
  assert (Hstart : window_start entry = now \/ exists w, e0 = Some w /\ window_start entry = window_start w).
  { subst entry. cbn [window_start]. destruct e0 as [w|]; cbn; [|by left]. destruct (_ || _); [by left|right; eauto]. }
  assert (Hkey : host_key source = key -> entry = hit (window_ns a) now e0 /\
    0 <= count entry <= hits key (window_start entry) (window_start entry + window_ns a) (past ++ [(now, source)])).
  { intros Hk. assert (Hns : 0 < window_ns a) by (unfold window_ns; lia). subst entry. unfold e0. rewrite Hk. destruct (sources !! key) as [w|] eqn:Ew; cbn [default from_option id hit].
    - pose proof (Hsub _ _ Ew) as Hwa. pose proof (Hc w Hwa) as Hcw. destruct (Ho _ _ Hwa) as (x & Hx & _ & Hxt).
      pose proof (proj1 (Forall_forall _ _) Hpast x Hx) as Hle. cbn beta in Hle.
      destruct (Z.eqb_spec (count w) 0); cbn [orb]; [|destruct (Z.ltb_spec (window_ns a) (now - window_start w))]; cbn [count window_start].
      + split; [done|]. rewrite hits_app, hits_self by (done || lia). pose proof (hits_nonneg key now (now + window_ns a) past). change (u32 (0 + 1)) with 1. lia.
      + split; [done|]. rewrite hits_app, hits_self by (done || lia). pose proof (hits_nonneg key now (now + window_ns a) past). change (u32 (0 + 1)) with 1. lia.
      + specialize (Hflood (window_start w)). rewrite hits_app, hits_self in Hflood |- * by (done || lia).
        replace (u32 (count w + 1)) with (count w + 1) by (unfold u32; rewrite Z.mod_small; lia). split; [done|]. lia.
    - cbn [count window_start Z.eqb orb]. split; [done|]. rewrite hits_app, hits_self by (done || lia).
      pose proof (hits_nonneg key now (now + window_ns a) past). change (u32 (0 + 1)) with 1. lia. }
  split; [split|right; exists (sources !! key); split; [done|]].
  - intros k w. cbn [set_sources sources_]. rewrite lookup_insert_Some. intros [ [<- <-]|[_ Hk] ].
    + destruct Hstart as [->|(w & Hw0 & ->)]; [exists (now, source); rewrite elem_of_app, list_elem_of_singleton; auto|].
      destruct (Ho (host_key source) w) as (x & Hx & ? & ?); [by apply Hsub|]. exists x. rewrite elem_of_app. auto.
    + destruct (Ho k w) as (x & Hx & ? & ?); [by apply Hsub|]. exists x. rewrite elem_of_app. auto.
  - intros w. cbn [set_sources sources_]. rewrite lookup_insert_Some. intros [ [Hk <-]|[_ Hk] ]; [by apply Hkey|].
    destruct Hweak as [_ Hcw]. by apply Hcw, Hsub.
  - cbn [set_sources sources_]. destruct (bool_decide_reflect (host_key source = key)) as [Hk|Hk].
    + destruct (Hkey Hk) as [Ee _]. rewrite <- Hk, lookup_insert_eq. subst e0. by rewrite <- Ee.
    + by rewrite lookup_insert_ne.
Qed.

Lemma throttling_Admit now source a : throttling a -> throttling (Admit now source a).2.
Proof. unfold throttling. by destruct (Admit_rules now source a) as (_ & _ & -> & ->). Qed.

(** What a run may assume of the traffic after [past]. *)
Record traffic_ok (window last : Z) (past xs : list (Z * InetAddress)) : Prop := {
  tr_past : Forall (fun x => x.1 <= last) past;
  tr_clock : clock_ok last xs = true;
  tr_few : uncrowded window past xs = true;
  tr_flood : forall t, hits key t (t + window) (past ++ xs) < 2 ^ 32
}.

Lemma traffic_tail window last past x xs : traffic_ok window last past (x :: xs) ->
  Forall (fun y => y.1 <= x.1) past /\ Z.of_nat (size (recent_hosts x.1 window past)) <= kMaxTrackedSources /\
  (forall t, hits key t (t + window) (past ++ [x]) < 2 ^ 32) /\ traffic_ok window x.1 (past ++ [x]) xs.
Proof.
  intros [Hp Hc Hu Hf]. cbn [clock_ok uncrowded] in Hc, Hu. apply andb_true_iff in Hc as [Hl Hc], Hu as [Hn Hu].
  apply Z.leb_le in Hl, Hn.
  assert (Hp' : Forall (fun y => y.1 <= x.1) past) by (eapply Forall_impl; [exact Hp|cbn; lia]).
  split; [done|]. split; [done|]. split.
  - intros t. specialize (Hf t). rewrite hits_app in *. change (x :: xs) with ([x] ++ xs) in Hf. rewrite hits_app in Hf.
    pose proof (hits_nonneg key t (t + window) xs). lia.
  - split; [|done|done|]; [apply Forall_app; split; [done|by repeat constructor]|]. by rewrite <- app_assoc.
Qed.

(** The attempts of a run inside one window's span. *)
Lemma admit_all_covered from xs : key <> [] -> forall last past a allowed,
  throttling a -> table_ok past a -> traffic_ok (window_ns a) last past xs ->
  Forall (fun x => from <= x.1 <= from + window_ns a) xs ->
  covers from (max_attempts_ a) (sources_ a !! key) allowed ->
  let '(vs, a') := admit_all xs a in
  covers from (max_attempts_ a) (sources_ a' !! key) (allowed + allowed_of key xs vs).
Proof.
  intros Hkey. induction xs as [|[now s] rest IH]; intros last past a allowed Ht Hok Htr Hall Hcov; cbn [admit_all].
  { by rewrite Z.add_0_r. }
  inversion_clear Hall as [|? ? Htime Hrest]. cbn [fst snd] in *.
  assert (Hm : 0 <= max_attempts_ a) by (destruct Ht; lia).
  destruct (traffic_tail _ _ _ _ _ Htr) as (Hpast & Hfew & Hflood & Htr').
  pose proof (Admit_step past now s a Ht Hok Hpast Hfew Hflood) as Hstep.
  pose proof (throttling_Admit now s a Ht) as Ht'. destruct (Admit_rules now s a) as (_ & _ & Em & Ew).
  destruct (Admit now s a) as [v a'] eqn:E. cbn [snd] in *. destruct Hstep as [Hok' Hcase].
  assert (Hc' : covers from (max_attempts_ a) (sources_ a' !! key)
    (allowed + if bool_decide (host_key s = key) && bool_decide (v = Allow) then 1 else 0)).
  { destruct Hcase as [ [-> Hv] | (e & Hmp & He) ].
    - replace (bool_decide (host_key s = key) && bool_decide (v = Allow)) with false; [by rewrite Z.add_0_r|].
      symmetry. apply andb_false_iff. rewrite !bool_decide_eq_false. destruct Hv as [?| ->]; [by right|by left].
    - assert (Hce : covers from (max_attempts_ a) e allowed).
      { destruct Hmp as [->|(-> & w & Hw & Hel)]; [done|]. rewrite Hw in Hcov. by eapply (drop_covers (window_ns a)). }
      destruct (bool_decide (host_key s = key)); cbn [andb].
      + destruct He as [-> ->]. pose proof (hit_covers (window_ns a) _ _ _ _ _ Hm Htime Hce) as H.
        destruct (_ <=? _); [by rewrite bool_decide_true|by rewrite bool_decide_false]; done.
      + rewrite He. by rewrite Z.add_0_r. }
  assert (Hw' : window_ns a' = window_ns a) by (unfold window_ns; by rewrite Ew).
  rewrite <- Em in Hc'. rewrite <- Hw' in Htr', Hrest.
  specialize (IH _ _ a' _ Ht' Hok' Htr' Hrest Hc').
  destruct (admit_all rest a') as [vs a2]. cbn [allowed_of]. rewrite <- Em. by rewrite Z.add_assoc.
Qed.

Lemma admit_all_table xs : forall last past a,
  throttling a -> table_ok past a -> traffic_ok (window_ns a) last past xs ->
  table_ok (past ++ xs) (admit_all xs a).2 /\ throttling (admit_all xs a).2 /\
  max_attempts_ (admit_all xs a).2 = max_attempts_ a /\ window_ (admit_all xs a).2 = window_ a.
Proof.
  induction xs as [|[now s] rest IH]; intros last past a Ht Hok Htr; cbn [admit_all]; [by rewrite app_nil_r|].
  destruct (traffic_tail _ _ _ _ _ Htr) as (Hpast & Hfew & Hflood & Htr').
  pose proof (Admit_step past now s a Ht Hok Hpast Hfew Hflood) as Hstep.
  pose proof (throttling_Admit now s a Ht) as Ht'. destruct (Admit_rules now s a) as (_ & _ & Em & Ew).
  destruct (Admit now s a) as [v a'] eqn:E. cbn [snd] in *. destruct Hstep as [Hok' _].
  assert (Hw' : window_ns a' = window_ns a) by (unfold window_ns; by rewrite Ew). rewrite <- Hw' in Htr'.
  specialize (IH _ _ a' Ht' Hok' Htr'). destruct (admit_all rest a') as [vs a2]. cbn [snd] in *. rewrite Em, Ew in IH.
  by rewrite <- app_assoc in IH.
Qed.

(** The run up to the span leaves the traffic of the span. *)
Lemma traffic_app window last past xs ys : traffic_ok window last past (xs ++ ys) ->
  traffic_ok window last past xs /\ exists last', traffic_ok window last' (past ++ xs) ys.
Proof.
  revert last past. induction xs as [|x xs IH]; intros last past H.
  - split; [|exists last; by rewrite app_nil_r]. destruct H as [Hp _ _ Hf]. split; [done..|]. intros t. specialize (Hf t).
    rewrite app_nil_r, hits_app in *. pose proof (hits_nonneg key t (t + window) ys). cbn [app] in Hf. lia.
  - cbn [app] in H. destruct (traffic_tail _ _ _ _ _ H) as (_ & Hn & _ & H'). destruct (IH _ _ H') as [H1 [l' H2] ].
    split; [|exists l'; by rewrite <- app_assoc in H2]. destruct H as [Hp Hc Hu Hf], H1 as [_ Hc1 Hu1 Hf1].
    cbn [clock_ok uncrowded] in Hc, Hu. split; cbn [clock_ok uncrowded]; [done| | |by intros t; specialize (Hf1 t); rewrite <- app_assoc in Hf1].
    + apply andb_true_iff in Hc as [-> _]. done.
    + apply andb_true_iff in Hu as [-> _]. done.
Qed.

End Throttle.

(** ** Admission *)

(** What the configured lists say of a source, unix paths apart. *)
Definition listed (options : ServerOptions) (source : InetAddress) : Prop :=
  ipv source = Unix \/
  (forall b, b ∈ denylist options -> Matches b source = false) /\
  (ValidOnly (allowlist options) = [] \/ exists b, b ∈ allowlist options /\ Matches b source = true).

Lemma Screen_listed options source a :
  allowlist_ a = ValidOnly (allowlist options) -> denylist_ a = ValidOnly (denylist options) ->
  Screen source a = Allow <-> listed options source.
Proof.
  intros Ea Ed. unfold Screen, listed. rewrite Ea, Ed, !AnyMatch_valid.
  destruct (bool_decide_reflect (ipv source = Unix)) as [Eu|Eu]; [by split; auto|].
  assert (Hd : AnyMatch (denylist options) source = false <-> forall b, b ∈ denylist options -> Matches b source = false).
  { rewrite <- not_true_iff_false, AnyMatch_true. split.
    - intros H b Hb. apply not_true_is_false. intros Hm. apply H. by exists b.
    - intros H (b & Hb & Hm). by rewrite H in Hm. }
  destruct (AnyMatch (denylist options) source).
  { split; [done|]. intros [?|[H _] ]; [done|]. by apply Hd in H. }
  pose proof (proj1 Hd eq_refl) as Hno.
  destruct (bool_decide_reflect (ValidOnly (allowlist options) = [])) as [El|El]; cbn [negb andb]; [by split; auto|].
  destruct (AnyMatch (allowlist options) source) eqn:Em; cbn [negb].
  - apply AnyMatch_true in Em. split; [by auto 6|done].
  - split; [done|]. intros [?|[_ [?|H] ] ]; [done|done|]. apply AnyMatch_true in H. congruence.
Qed.

Lemma admit_all_screened options attempts : forall a,
  allowlist_ a = ValidOnly (allowlist options) -> denylist_ a = ValidOnly (denylist options) ->
  Forall2 (fun x v => v = Allow -> listed options x.2) attempts (admit_all attempts a).1.
Proof.
  induction attempts as [|[now s] rest IH]; intros a Ea Ed; cbn [admit_all]; [constructor|].
  pose proof (Admit_screened now s a) as Hs. destruct (Admit_rules now s a) as (E1 & E2 & _).
  destruct (Admit now s a) as [v a']. cbn [fst snd] in *. specialize (IH a' ltac:(congruence) ltac:(congruence)).
  destruct (admit_all rest a') as [vs a2]. constructor; [|done]. intros ->. by apply (Screen_listed options s a), Hs.
Qed.

(** [C32] Admission holds over any sequence of connection attempts with clock
    readings that do not go back.  Whoever is let in passes the configured lists:
    no deny rule matches and, where there is a valid allow rule, some allow rule
    does.  And of the attempts one host makes within any span of one window at
    most twice the configured number are let in, however many hosts come and go
    and whatever the table drops to make room, as long as at each attempt no more
    than [kMaxTrackedSources] hosts have made one within the window before it
    ([uncrowded]; beyond that the code lets untracked sources through) and the
    host makes fewer than 2^32 attempts per window. *)
Theorem admission_enforced (options : ServerOptions) (before during : list (Z * InetAddress)) (key : list Z) (start from : Z)
  (Hmax : 0 < max_attempts_per_source options < 2 ^ 32) (Hwin : 0 < attempt_window options) (Hkey : key <> [])
  (Hclock : clock_ok start (before ++ during) = true)
  (Hfew : uncrowded (attempt_window options * 1000000) [] (before ++ during) = true)
  (Hflood : forall t, hits key t (t + attempt_window options * 1000000) (before ++ during) < 2 ^ 32)
  (Htime : Forall (fun x => from <= x.1 <= from + attempt_window options * 1000000) during) :
  let vs := (admit_all (before ++ during) (AdmissionControl_new options)).1 in
  Forall2 (fun x v => v = Allow -> listed options x.2) (before ++ during) vs /\
  allowed_of key during (drop (length before) vs) <= 2 * max_attempts_per_source options.
Proof.
  set (a := AdmissionControl_new options). split; [by apply (admit_all_screened options)|].
  assert (Ht : throttling a) by done.
  assert (Ho : table_ok key [] a) by (split; cbn; intros *; by rewrite lookup_empty).
  assert (Htr : traffic_ok key (window_ns a) start [] (before ++ during)) by (split; [constructor|done..]).
  apply traffic_app in Htr as [Hb [last Hd] ].
  destruct (admit_all_table key before start [] a Ht Ho Hb) as (Ho1 & Ht1 & Em & Ew).
  rewrite admit_all_app. pose proof (length_admit_all before a) as HL.
  destruct (admit_all before a) as [vs a1]. cbn [fst snd app] in *.
  assert (Hw : window_ns a1 = window_ns a) by (unfold window_ns; by rewrite Ew). rewrite <- Hw in Hd.
  pose proof (admit_all_covered key from during Hkey last before a1 0 Ht1 Ho1 Hd) as Hcov. rewrite Hw in Hcov. specialize (Hcov Htime).
  destruct (admit_all during a1) as [ws a2]. cbn [fst]. rewrite drop_app_length' by lia.
  change (max_attempts_per_source options) with (max_attempts_ a). rewrite <- Em.
  assert (Hm : 0 <= max_attempts_ a1) by (destruct Ht1; lia).
  apply (covers_bound from _ (sources_ a2 !! key)); [done|]. apply Hcov, covers_start; [done|].
  intros w Hwk. apply (to_count _ _ _ Ho1 _ Hwk).
Qed.

(** Three attempts a minute; the fifth attempt of the host is refused, a
    denied host never enters. *)
Module AdmissionExample.

Definition deny : CIDRBlock := mkCIDR [] (splice 0 [10; 0; 0; 0] (repeat 0 16)) 8 false true.
Definition options : ServerOptions := mkServerOptions [] [deny] 3 60000.
Definition host (a b : Z) (p : Z) : InetAddress := InetAddressIPv4 [a; 0; 0; b] p.
Definition attempts : list (Z * InetAddress) :=
  [(60000000005, host 192 1 1); (60000000006, host 10 1 1); (60000000007, host 192 1 2); (60000000008, host 192 1 3); (60000000009, host 192 1 4)].

(** More hosts than the table tracks, a minute earlier. *)
Definition crowd : list (Z * InetAddress) :=
  (fun i => (0, InetAddressIPv4 [11; 0; Z.of_nat i / 256; Z.of_nat i mod 256] 1)) <$> seq 0 4097.

(** The table they leave. *)
Definition crowded : AdmissionControl :=
  set_sources (list_to_map ((fun x => (host_key x.2, mkWindow x.1 1)) <$> crowd)) (AdmissionControl_new options).

End AdmissionExample.

Lemma uncrowded_short window past xs : zlen past + zlen xs <= kMaxTrackedSources + 1 -> uncrowded window past xs = true.
Proof.
  revert past. induction xs as [|x xs IH]; intros past H; cbn [uncrowded]; [done|]. cbn [length] in H.
  apply andb_true_iff. split; [apply Z.leb_le; pose proof (size_recent x.1 window past); lia|].
  apply IH. rewrite length_app. cbn [length]. lia.
Qed.

(** An attempt that finds the table full drops the elapsed windows and is
    counted; the next ones are throttled as if the crowd had never been there. *)
Example full_table_pruned :
  map_size (sources_ AdmissionExample.crowded) = 4097 /\
  (admit_all AdmissionExample.attempts AdmissionExample.crowded).1 = [Allow; Denylisted; Allow; Allow; Throttled] /\
  map_size (sources_ (admit_all AdmissionExample.attempts AdmissionExample.crowded).2) = 1.
Proof. split_and!; vm_compute; reflexivity. Qed.

(** The bound at a run whose first 4097 hosts fill the table, so that the
    first of [attempts] prunes it. *)
Lemma admission_enforced_witness :
  let vs := (admit_all (AdmissionExample.crowd ++ AdmissionExample.attempts) (AdmissionControl_new AdmissionExample.options)).1 in
  Forall2 (fun x v => v = Allow -> listed AdmissionExample.options x.2) (AdmissionExample.crowd ++ AdmissionExample.attempts) vs /\
  allowed_of [192; 0; 0; 1] AdmissionExample.attempts (drop (length AdmissionExample.crowd) vs)
  <= 2 * max_attempts_per_source AdmissionExample.options.
Proof.
  assert (Hmax : 0 < max_attempts_per_source AdmissionExample.options < 2 ^ 32) by (split; vm_compute; reflexivity).
  assert (Hwin : 0 < attempt_window AdmissionExample.options) by (vm_compute; reflexivity).
  assert (Hclock : clock_ok 0 (AdmissionExample.crowd ++ AdmissionExample.attempts) = true) by (vm_compute; reflexivity).
  assert (Hfew : uncrowded (attempt_window AdmissionExample.options * 1000000) [] (AdmissionExample.crowd ++ AdmissionExample.attempts) = true).
  { rewrite uncrowded_app. apply andb_true_iff. split; [apply uncrowded_short; apply Z.leb_le; vm_compute; reflexivity|vm_compute; reflexivity]. }
  assert (Hflood : forall t, hits [192; 0; 0; 1] t (t + attempt_window AdmissionExample.options * 1000000)
    (AdmissionExample.crowd ++ AdmissionExample.attempts) < 2 ^ 32).
  { intros t. eapply Z.le_lt_trans; [apply hits_nonneg|]. vm_compute. reflexivity. }
  assert (Htime : Forall (fun x => 60000000005 <= x.1 <= 60000000005 + attempt_window AdmissionExample.options * 1000000) AdmissionExample.attempts).
  { apply Forall_fold_right. cbn. lia. }
  exact (admission_enforced AdmissionExample.options AdmissionExample.crowd AdmissionExample.attempts [192; 0; 0; 1] 0 60000000005
    Hmax Hwin ltac:(discriminate) Hclock Hfew Hflood Htime).
Defined.
