(* ===== verification/ZdtCookie.v ===== *)
(** * Return-routability cookies and path challenges (zdt_cookie.h, zdt_cookie.cc)

    The rotating secret behind the handshake's cookies and the migration
    challenge built on it.  OpenSSL's HMAC, constant-time comparison and random
    bytes are parameters: [RAND_bytes n] is the n-th draw. *)

From Stdlib Require Import String.
From S2P Require Import Prelude Buffer BufferSpec BufferCodecs ZdtWire ZdtOffline InetAddr InetAddrTheorems.

Class CookieCrypto := {
  HMAC : list Z -> list Z -> list Z;
  CRYPTO_memcmp : list Z -> list Z -> Z;
  RAND_bytes : nat -> list Z
}.

Class CookieCryptoLaws (C : CookieCrypto) : Prop := {
  HMAC_bytes k m : bytes_ok (HMAC k m);
  memcmp_zero a b : length a = length b -> CRYPTO_memcmp a b = 0 <-> a = b
}.

(** [drawn_] counts the random draws of the object; times in nanoseconds. *)
Record CookieSecret := mkSecret {
  current_ : list Z;
  previous_ : list Z;
  epoch_ : Z;
  has_previous_ : bool;
  last_rotation_ : Z;
  drawn_ : nat
}.

Section Cookie.
Context `{I : Inet} `{C : CookieCrypto}.

Definition CookieSecret_new (now : Z) : CookieSecret :=
  mkSecret (RAND_bytes 0) (repeat 0 32) 0 false now 1.

Definition MaybeRotate (interval now : Z) (s : CookieSecret) : CookieSecret :=
  if now - last_rotation_ s <? interval then s
  else mkSecret (RAND_bytes (drawn_ s)) (current_ s) (u32 (epoch_ s + 1)) true now (S (drawn_ s)).

Definition Compute (key : list Z) (epoch : Z) (s : CookieSecret) : list Z :=
  if negb (epoch =? epoch_ s) && has_previous_ s && (epoch =? u32 (epoch_ s - 1))
  then ComputeCookie HMAC (previous_ s) key epoch
  else ComputeCookie HMAC (current_ s) key epoch.

Definition PathCookieKey (peer_readable : list Z) (cid : Z) : list Z :=
  chars "path|" ++ peer_readable ++ chars "|" ++ to_string cid.

Definition MakePathChallenge (s : CookieSecret) (peer_readable : list Z) (cid : Z) : ZDTPathMessage :=
  ZdtWire.mkPath cid (epoch_ s) (Compute (PathCookieKey peer_readable cid) (epoch_ s) s).

Definition VerifyPathResponse (s : CookieSecret) (peer_readable : list Z) (response : ZDTPathMessage) : bool :=
  ConstTimeEqual CRYPTO_memcmp (pm_cookie response)
    (Compute (PathCookieKey peer_readable (pm_cid response)) (pm_epoch response) s).

(** ** The secret's invariant *)

Record secret_ok (s : CookieSecret) : Prop := {
  so_epoch : 0 <= epoch_ s < 2 ^ 32;
  so_drawn : (0 < drawn_ s)%nat /\ current_ s = RAND_bytes (drawn_ s - 1);
  so_previous : has_previous_ s = true -> (1 < drawn_ s)%nat /\ previous_ s = RAND_bytes (drawn_ s - 2)
}.

Lemma CookieSecret_new_ok now : secret_ok (CookieSecret_new now).
Proof. by split; cbn; [lia|split; [lia|]|]. Qed.

Lemma u32_range z : 0 <= u32 z < 2 ^ 32.
Proof. apply Z.mod_pos_bound. lia. Qed.

Lemma MaybeRotate_ok interval now s : secret_ok s -> secret_ok (MaybeRotate interval now s).
Proof.
  intros Hs. unfold MaybeRotate. destruct (_ <? _) eqn:E; [done|]. destruct Hs as [He [Hd Hc] _].
  split; cbn.
  - apply u32_range.
  - split; [lia|]. f_equal. lia.
  - intros _. split; [lia|]. rewrite Hc. done.
Qed.

Lemma length_ComputeCookie h secret key epoch : length (ComputeCookie h secret key epoch) = 16%nat.
Proof. unfold ComputeCookie. rewrite length_app, length_take, repeat_length. lia. Qed.

Lemma length_Compute key epoch s : length (Compute key epoch s) = 16%nat.
Proof. unfold Compute. destruct (_ && _); apply length_ComputeCookie. Qed.

Lemma Compute_current key s : Compute key (epoch_ s) s = ComputeCookie HMAC (current_ s) key (epoch_ s).
Proof. unfold Compute. by rewrite Z.eqb_refl. Qed.

(** ** The life of a cookie *)

(** Calls to [MaybeRotate], each with its interval and time. *)
Definition rotate_all (calls : list (Z * Z)) (s : CookieSecret) : CookieSecret :=
  foldl (fun s c => MaybeRotate c.1 c.2 s) s calls.

Definition rotations (s s' : CookieSecret) : Z := Z.of_nat (drawn_ s') - Z.of_nat (drawn_ s).

(** What any number of rotations makes of the secret. *)
Record rotated (s s' : CookieSecret) : Prop := {
  rot_ok : secret_ok s';
  rot_le : 0 <= rotations s s';
  rot_epoch : epoch_ s' = u32 (epoch_ s + rotations s s');
  rot_none : rotations s s' = 0 -> s' = s;
  rot_one : 1 <= rotations s s' -> has_previous_ s' = true
}.

Lemma rotate_all_rotated calls s : secret_ok s -> rotated s (rotate_all calls s).
Proof.
  intros Hs. induction calls as [|c calls IH] using rev_ind.
  - split; try done; unfold rotations; cbn; try lia. rewrite Z.sub_diag, Z.add_0_r.
    destruct Hs. unfold u32. by rewrite Z.mod_small.
  - unfold rotate_all in *. rewrite foldl_app. cbn [foldl].
    set (s1 := foldl _ s calls) in *. destruct IH as [H1 H2 H3 H4 H5].
    assert (Hok : secret_ok (MaybeRotate c.1 c.2 s1)) by (by apply MaybeRotate_ok).
    revert Hok. unfold MaybeRotate. destruct (_ <? _); intros Hok; [by split|].
    assert (Er : rotations s (mkSecret (RAND_bytes (drawn_ s1)) (current_ s1) (u32 (epoch_ s1 + 1)) true c.2 (S (drawn_ s1)))
                 = rotations s s1 + 1) by (unfold rotations; cbn; lia).
    split; rewrite ?Er; cbn; try done; try lia.
    rewrite H3. unfold u32. rewrite Zplus_mod_idemp_l. f_equal. lia.
Qed.

Lemma u32_shift e n : 0 <= e < 2 ^ 32 -> 0 < n < 2 ^ 32 -> u32 (e + n) <> e.
Proof. intros He Hn. unfold u32. Z.to_euclidean_division_equations. nia. Qed.

(** Within one rotation the value is the one issued. *)
Lemma Compute_one_rotation key s s' :
  secret_ok s -> rotated s s' -> rotations s s' <= 1 -> Compute key (epoch_ s) s' = Compute key (epoch_ s) s.
Proof.
  intros [Hrange [_ Hc] _] [ [_ _ Hp'] Hle He H0 H1] Hr.
  destruct (Z.eq_dec (rotations s s') 0) as [E|E]; [by rewrite (H0 E)|].
  assert (E1 : rotations s s' = 1) by lia. specialize (H1 ltac:(lia)). destruct (Hp' H1) as [_ Hp].
  rewrite Compute_current. unfold Compute. rewrite H1, He, E1.
  pose proof (u32_shift (epoch_ s) 1 Hrange ltac:(lia)) as Hne.
  destruct (Z.eqb_spec (epoch_ s) (u32 (epoch_ s + 1))) as [Ex|_]; [by destruct Hne|]. cbn [negb andb].
  replace (u32 (u32 (epoch_ s + 1) - 1)) with (epoch_ s).
  2: { unfold u32. rewrite Zminus_mod_idemp_l, Z.add_simpl_r, Z.mod_small; lia. }
  rewrite Z.eqb_refl, Hp, Hc. do 2 f_equal. unfold rotations in E1. lia.
Qed.

(** A cookie outlives exactly one rotation of the secret: verified at the
    epoch it was issued under, it is recomputed to the same value until the secret
    has rotated twice; from then on (until the 32-bit epoch wraps) the value it is
    compared with is the MAC under a secret drawn after it was issued. *)
Theorem cookie_lifetime (s : CookieSecret) (key : list Z) (calls : list (Z * Z))
  (Hs : secret_ok s) :
  let s' := rotate_all calls s in
  (rotations s s' <= 1 -> Compute key (epoch_ s) s' = Compute key (epoch_ s) s) /\
  (2 <= rotations s s' < 2 ^ 32 ->
     exists n, (drawn_ s < n)%nat /\ Compute key (epoch_ s) s' = ComputeCookie HMAC (RAND_bytes n) key (epoch_ s)).
Proof.
  cbv zeta. pose proof (rotate_all_rotated calls s Hs) as Hrot. set (s' := rotate_all calls s) in *. split.
  - intros Hr. by apply (Compute_one_rotation key s s').
  - intros Hr. destruct Hrot as [ [_ [Hd' Hc'] _] _ He _ _], Hs as [Hrange _ _].
    exists (drawn_ s' - 1)%nat. unfold rotations in Hr. split; [lia|].
    unfold Compute. replace (epoch_ s =? u32 (epoch_ s' - 1)) with false.
    { by rewrite andb_false_r, Hc'. }
    symmetry. apply Z.eqb_neq. rewrite He. unfold u32 at 1. unfold u32. rewrite Zminus_mod_idemp_l.
    replace (epoch_ s + rotations s s' - 1) with (epoch_ s + (rotations s s' - 1)) by lia.
    intros Ex. symmetry in Ex. revert Ex. apply u32_shift; [done|]. unfold rotations. lia.
Qed.

(** ** Path challenges *)

Section Path.
Context `{!InetLaws I} `{!CookieCryptoLaws C}.

Lemma ConstTimeEqual_Compute ck key epoch s :
  length ck = 16%nat -> ConstTimeEqual CRYPTO_memcmp ck (Compute key epoch s) = bool_decide (ck = Compute key epoch s).
Proof.
  intros HL. unfold ConstTimeEqual. pose proof (memcmp_zero ck (Compute key epoch s)) as H.
  rewrite length_Compute in H. specialize (H HL).
  destruct (Z.eqb_spec (CRYPTO_memcmp ck (Compute key epoch s)) 0) as [E|E]; symmetry.
  - apply bool_decide_eq_true. by apply H.
  - apply bool_decide_eq_false. intros Ex. by apply E, H.
Qed.

Lemma PathCookieKey_inj a b c d :
  address_ok a -> address_ok b -> 0 <= c < 2 ^ 64 -> 0 <= d < 2 ^ 64 ->
  PathCookieKey (readable a) c = PathCookieKey (readable b) d -> a = b /\ c = d.
Proof.
  intros Ha Hb Hc Hd E. unfold PathCookieKey in E. apply app_inv_head in E. change (chars "|") with [124] in E.
  apply split_last in E as [E1 E2]; try (apply digits_exclude; [lia|done]).
  split; [by apply readable_inj|by apply to_string_inj].
Qed.

(** Handshake keys and path keys never meet. *)
Lemma PathCookieKey_separate a b c : address_ok a -> readable a <> PathCookieKey b c.
Proof.
  intros Ha E. apply (readable_excludes a 124 Ha); [done|done|done|]. rewrite E. unfold PathCookieKey.
  apply elem_of_app. left. cbn. set_solver.
Qed.

(** A path response is accepted only for the path it was challenged on: the
    echo of a challenge is accepted from the challenged address as long as the
    secret has rotated at most once since, and whatever response is accepted
    carries the MAC over its own source address and connection id under the current
    or the previous secret, an input no other address,
    no other connection id and no handshake cookie share. *)
Theorem path_challenge_sound (s : CookieSecret) (a : InetAddress) (cid : Z) (calls : list (Z * Z))
  (response : ZDTPathMessage) (Hs : secret_ok s) (Ha : address_ok a) (Hcid : 0 <= cid < 2 ^ 64)
  (Hlen : length (pm_cookie response) = 16%nat) (Hrcid : 0 <= pm_cid response < 2 ^ 64) :
  let s' := rotate_all calls s in
  (rotations s s' <= 1 -> VerifyPathResponse s' (readable a) (MakePathChallenge s (readable a) cid) = true) /\
  (VerifyPathResponse s' (readable a) response = true ->
     exists secret, (secret = current_ s' \/ has_previous_ s' = true /\ secret = previous_ s') /\ pm_cookie response =
       ComputeCookie HMAC secret (PathCookieKey (readable a) (pm_cid response)) (pm_epoch response)) /\
  (forall b d, address_ok b -> 0 <= d < 2 ^ 64 -> readable b <> PathCookieKey (readable a) cid /\
     (PathCookieKey (readable b) d = PathCookieKey (readable a) cid -> b = a /\ d = cid)).
Proof.
  cbv zeta. split; [|split].
  - intros Hr. unfold VerifyPathResponse, MakePathChallenge. cbn [pm_cid pm_epoch pm_cookie].
    rewrite ConstTimeEqual_Compute by apply length_Compute. apply bool_decide_eq_true.
    symmetry. apply Compute_one_rotation; [done|by apply rotate_all_rotated|done].
  - unfold VerifyPathResponse. rewrite ConstTimeEqual_Compute by done. intros H. apply bool_decide_eq_true in H.
    rewrite H. unfold Compute at 1. destruct (has_previous_ (rotate_all calls s)); rewrite ?andb_false_r; [|by eauto].
    destruct (_ && _); by eauto 6.
  - intros b d Hb Hd. split; [by apply PathCookieKey_separate|]. by apply PathCookieKey_inj.
Qed.

End Path.
End Cookie.

(** ** A concrete crypto library, for the examples *)

Module ToyCrypto.

(** A keyed checksum of sixteen bytes. *)
#[export] Instance toy : CookieCrypto := {|
  HMAC k m := map (fun i => u8 (foldl (fun acc b => acc * 31 + b + i) (foldl Z.add i k) m)) (map Z.of_nat (seq 1 16));
  CRYPTO_memcmp a b := if decide (a = b) then 0 else 1;
  RAND_bytes n := repeat (Z.of_nat n mod 256) 32
|}.

#[export] Instance toy_laws : CookieCryptoLaws toy.
Proof.
  split.
  - intros k m. unfold HMAC, toy. apply Forall_forall. intros x Hx.
    apply list_elem_of_fmap in Hx as (i & -> & _). apply u8_range.
  - intros a b _. unfold CRYPTO_memcmp, toy. by destruct (decide (a = b)).
Qed.

End ToyCrypto.

Import TextInet ToyCrypto.

Lemma cookie_lifetime_witness :
  let s := CookieSecret_new 0 in
  let s' := rotate_all [(10, 5); (10, 12); (10, 20)] s in
  rotations s s' = 1 /\ Compute [1; 2] (epoch_ s) s' = Compute [1; 2] (epoch_ s) s /\
  let s2 := rotate_all [(10, 12); (10, 30)] s in
  exists n, (drawn_ s < n)%nat /\ Compute [1; 2] (epoch_ s) s2 = ComputeCookie HMAC (RAND_bytes n) [1; 2] (epoch_ s).
Proof.
  split; [reflexivity|]. split.
  - apply (cookie_lifetime (CookieSecret_new 0) [1; 2] [(10, 5); (10, 12); (10, 20)]); [apply CookieSecret_new_ok|].
    vm_compute. discriminate.
  - apply (cookie_lifetime (CookieSecret_new 0) [1; 2] [(10, 12); (10, 30)]); [apply CookieSecret_new_ok|].
    vm_compute. split; [discriminate|reflexivity].
Defined.

Lemma path_challenge_sound_witness :
  let s := CookieSecret_new 0 in
  let a := InetAddressIPv4 [10; 0; 0; 7] 4000 in
  VerifyPathResponse (rotate_all [(10, 12)] s) (readable a) (MakePathChallenge s (readable a) 99) = true /\
  readable (InetAddressIPv4 [10; 0; 0; 8] 1) <> PathCookieKey (readable a) 99.
Proof.
  assert (Ha : address_ok (InetAddressIPv4 [10; 0; 0; 7] 4000)) by (repeat split; try lia; repeat constructor; done).
  assert (Hb : address_ok (InetAddressIPv4 [10; 0; 0; 8] 1)) by (repeat split; try lia; repeat constructor; done).
  destruct (path_challenge_sound (CookieSecret_new 0) _ 99 [(10, 12)] (ZdtWire.mkPath 99 0 (repeat 0 16))
    (CookieSecret_new_ok 0) Ha) as (H1 & _ & H3); [lia|done|cbn; lia|].
  split; [apply H1; vm_compute; discriminate|]. apply (H3 _ 99 Hb). lia.
Defined.
