(* ===== verification/ZdtAckHistory.v ===== *)
(** * The receiver's ack history (zdt_ack_history.h, zdt_ack_history.cc)

    A window of 1024 bits over the packet sequences that arrived, newest first,
    and its run-length encoding into the ack blocks of an outgoing header.  The
    window is related to the set of full sequence numbers recorded, and the
    blocks to the window. *)

From S2P Require Import Prelude ZdtWire ZdtWireTheorems.

Definition history_bits : nat := 1024.
Definition history_words : nat := 16.

Record ZDTAckHistory := mkHistory {
  highest_ : Z;
  bits_ : list Z;
  valid_bits_ : Z;
  has_any_ : bool
}.

Definition ZDTAckHistory_default : ZDTAckHistory := mkHistory 0 (repeat 0 history_words) 0 false.

Definition word_at (bits : list Z) (i : nat) : Z := default 0 (bits !! i).

Definition HistoryBit (bits : list Z) (b : nat) : bool :=
  Z.odd (Z.shiftr (word_at bits (b / 64)) (Z.of_nat (b mod 64))).

Definition SetHistoryBit (bits : list Z) (b : nat) : list Z :=
  <[(b / 64)%nat := Z.lor (word_at bits (b / 64)) (u64 (Z.shiftl 1 (Z.of_nat (b mod 64))))]> bits.

(** One iteration of the loop, for word [i]. *)
Definition shifted_word (words rem : nat) (bits : list Z) (i : nat) : Z :=
  if (words <=? i)%nat then
    let v := u64 (Z.shiftl (word_at bits (i - words)) (Z.of_nat rem)) in
    if negb (rem =? 0)%nat && (words <? i)%nat
    then Z.lor v (Z.shiftr (word_at bits (i - words - 1)) (Z.of_nat (64 - rem)))
    else v
  else 0.

Definition shift_word (words rem : nat) (bits : list Z) (i : nat) : list Z :=
  <[i := shifted_word words rem bits i]> bits.

(** In place, from the highest word down. *)
Definition ShiftHistoryUp (bits : list Z) (n : nat) : list Z :=
  if (history_bits <=? n)%nat then repeat 0 history_words
  else foldl (shift_word (n / 64) (n mod 64)) bits (rev (seq 0 history_words)).

Definition Record_ (h : ZDTAckHistory) (packet_seq : Z) : ZDTAckHistory :=
  if negb (has_any_ h)
  then mkHistory packet_seq (SetHistoryBit (repeat 0 history_words) 0) 1 true
  else if SeqGreater packet_seq (highest_ h) then
    let shift := u16 (packet_seq - highest_ h) in
    let bits := SetHistoryBit (ShiftHistoryUp (bits_ h) (Z.to_nat shift)) 0 in
    let valid := valid_bits_ h + shift in
    mkHistory packet_seq bits
      (if kZDTAckHistoryBits <? valid then kZDTAckHistoryBits else valid) true
  else if SeqLess packet_seq (highest_ h) then
    let back := u16 (highest_ h - packet_seq) in
    if back <? kZDTAckHistoryBits
    then mkHistory (highest_ h) (SetHistoryBit (bits_ h) (Z.to_nat back)) (valid_bits_ h) (has_any_ h)
    else h
  else h.

(** The inner loops: how many positions from [b] on, below [limit] and at most
    [budget], have the bit [want]. *)
Fixpoint run_length (want : bool) (bits : list Z) (limit budget b : nat) : nat :=
  match budget with
  | O => O
  | S k => if (b <? limit)%nat && Bool.eqb (HistoryBit bits b) want
           then S (run_length want bits limit k (S b)) else O
  end.

(** The outer loop.  Every iteration that continues consumes a position, so
    [limit] iterations are enough. *)
Fixpoint fill_loop (fuel : nat) (bits : list Z) (limit max_blocks b : nat) (h : ZDTHeader) : ZDTHeader :=
  match fuel with
  | O => h
  | S fuel =>
      if (b <? limit)%nat && (Z.to_nat (h_block_count h) <? max_blocks)%nat then
        let acks := run_length true bits limit 255 b in
        let b := (b + acks)%nat in
        let nacks := run_length false bits limit 255 b in
        let b := (b + nacks)%nat in
        if (acks =? 0)%nat && (nacks =? 0)%nat then h
        else
          let h := set_block h (Z.to_nat (h_block_count h)) (mkBlock (Z.of_nat acks) (Z.of_nat nacks)) in
          fill_loop fuel bits limit max_blocks b
            (mkHeader (h_flags h) (h_cid h) (h_packet_seq h) (h_ack h) (h_blocks h) (h_block_count h + 1))
      else h
  end.

(** Drops trailing blocks that acknowledge nothing; at most [n] of them. *)
Fixpoint drop_nack_tail (n : nat) (h : ZDTHeader) : ZDTHeader :=
  match n with
  | O => h
  | S k => if num_ack (block_at h k) =? 0
           then drop_nack_tail k (mkHeader (h_flags h) (h_cid h) (h_packet_seq h) (h_ack h) (h_blocks h) (Z.of_nat k))
           else h
  end.

Definition Fill (hist : ZDTAckHistory) (header : ZDTHeader) (max_blocks reportable_cap : Z) : ZDTHeader :=
  let header := mkHeader (h_flags header) (h_cid header) (h_packet_seq header) (highest_ hist) (h_blocks header) 0 in
  if negb (has_any_ hist) || (max_blocks =? 0) then header
  else
    let max_blocks := if kZDTMaxAckBlocks <? max_blocks then kZDTMaxAckBlocks else max_blocks in
    let limit := if reportable_cap <? valid_bits_ hist then reportable_cap else valid_bits_ hist in
    let header := fill_loop (Z.to_nat limit) (bits_ hist) (Z.to_nat limit) (Z.to_nat max_blocks) 0 header in
    drop_nack_tail (Z.to_nat (h_block_count header)) header.

(** ** The window as bits *)

Definition words_ok (bits : list Z) : Prop :=
  length bits = history_words /\ Forall (fun w => 0 <= w < 2 ^ 64) bits.

Lemma HistoryBit_testbit bits b :
  HistoryBit bits b = Z.testbit (word_at bits (b / 64)) (Z.of_nat (b mod 64)).
Proof. unfold HistoryBit. by rewrite <- Z.bit0_odd, Z.shiftr_spec. Qed.

Lemma word_at_range bits i : words_ok bits -> 0 <= word_at bits i < 2 ^ 64.
Proof.
  intros [_ H]. unfold word_at. destruct (bits !! i) as [w|] eqn:E; simpl; [|lia].
  by apply (Forall_lookup_1 _ _ _ _ H E).
Qed.

Lemma below_pow2 a k : 0 <= k -> 0 <= a -> (forall i, k <= i -> Z.testbit a i = false) -> 0 <= a < 2 ^ k.
Proof.
  intros Hk Ha H. split; [done|].
  assert (E : a = a mod 2 ^ k).
  { apply Z.bits_inj'. intros i Hi. destruct (Z.lt_ge_cases i k).
    - by rewrite Z.mod_pow2_bits_low by lia.
    - by rewrite Z.mod_pow2_bits_high, H by lia. }
  rewrite E. apply Z.mod_pos_bound. lia.
Qed.

Lemma lor_range a b k : 0 <= k -> 0 <= a < 2 ^ k -> 0 <= b < 2 ^ k -> 0 <= Z.lor a b < 2 ^ k.
Proof.
  intros Hk Ha Hb. apply below_pow2; [done|apply Z.lor_nonneg; lia|].
  intros i Hi. rewrite Z.lor_spec, (testbit_high a k), (testbit_high b k) by lia. done.
Qed.

Lemma words_ok_insert bits i w : words_ok bits -> 0 <= w < 2 ^ 64 -> words_ok (<[i := w]> bits).
Proof. intros [HL HF] Hw. split; [by rewrite length_insert|by apply Forall_insert]. Qed.

Lemma SetHistoryBit_ok bits b : words_ok bits -> words_ok (SetHistoryBit bits b).
Proof.
  intros H. apply words_ok_insert; [done|]. apply lor_range; [lia|by apply word_at_range|].
  pose proof (u64_range (Z.shiftl 1 (Z.of_nat (b mod 64)))). unfold size_max in *. lia.
Qed.

Lemma div64_lt b : (b < history_bits)%nat -> (b / 64 < history_words)%nat.
Proof. intros. apply Nat.Div0.div_lt_upper_bound. unfold history_bits, history_words in *. lia. Qed.

Lemma SetHistoryBit_spec bits b j :
  words_ok bits -> (b < history_bits)%nat ->
  HistoryBit (SetHistoryBit bits b) j = (j =? b)%nat || HistoryBit bits j.
Proof.
  intros [HL HF] Hb. rewrite !HistoryBit_testbit. unfold SetHistoryBit.
  pose proof (div64_lt b Hb). pose proof (Nat.mod_upper_bound b 64 ltac:(lia)).
  pose proof (Nat.mod_upper_bound j 64 ltac:(lia)).
  pose proof (Nat.div_mod_eq b 64). pose proof (Nat.div_mod_eq j 64).
  destruct (decide (b / 64 = j / 64)%nat) as [E|E].
  - unfold word_at at 1. rewrite <- E, list_lookup_insert_eq by lia. cbn [default from_option id].
    unfold u64. rewrite Z.lor_spec, Z.mod_pow2_bits_low, Z.shiftl_1_l, Z.pow2_bits_eqb by lia.
    rewrite orb_comm. f_equal.
    destruct (Nat.eqb_spec j b) as [->|]; [apply Z.eqb_refl|]. apply Z.eqb_neq. lia.
  - unfold word_at at 1. rewrite list_lookup_insert_ne by done.
    destruct (Nat.eqb_spec j b) as [->|]; done.
Qed.

Lemma zeros_ok : words_ok (repeat 0 history_words).
Proof. split; [done|]. repeat constructor; lia. Qed.

Lemma HistoryBit_zeros j : HistoryBit (repeat 0 history_words) j = false.
Proof.
  rewrite HistoryBit_testbit. unfold word_at.
  destruct (repeat 0 history_words !! (j / 64)%nat) as [w|] eqn:E; simpl; [|apply Z.bits_0].
  apply list_elem_of_lookup_2, list_elem_of_In, repeat_spec in E as ->. apply Z.bits_0.
Qed.

(** ** Sliding the window *)

Lemma word_at_insert bits i j w :
  (i < length bits)%nat -> word_at (<[i := w]> bits) j = if (j =? i)%nat then w else word_at bits j.
Proof.
  intros Hi. unfold word_at. destruct (Nat.eqb_spec j i) as [->|].
  - by rewrite list_lookup_insert_eq.
  - by rewrite list_lookup_insert_ne.
Qed.

Lemma shifted_word_local words rem bits bits' i :
  (forall j, (j <= i)%nat -> word_at bits' j = word_at bits j) ->
  shifted_word words rem bits' i = shifted_word words rem bits i.
Proof.
  intros H. unfold shifted_word. rewrite (H (i - words)%nat), (H (i - words - 1)%nat) by lia. done.
Qed.

(** Working down from the top, the loop reads only words it has not yet
    overwritten. *)
Lemma shift_loop words rem n bits j :
  (n <= length bits)%nat ->
  word_at (foldl (shift_word words rem) bits (rev (seq 0 n))) j
  = if (j <? n)%nat then shifted_word words rem bits j else word_at bits j.
Proof.
  revert bits. induction n as [|n IH]; intros bits Hn; [done|].
  rewrite seq_S, rev_app_distr. cbn [rev app foldl Nat.add].
  rewrite IH by (unfold shift_word; rewrite length_insert; lia).
  destruct (Nat.ltb_spec j n), (Nat.ltb_spec j (S n)); try lia.
  - apply shifted_word_local. intros k Hk. unfold shift_word. rewrite word_at_insert by lia.
    by destruct (Nat.eqb_spec k n); [lia|].
  - unfold shift_word. rewrite word_at_insert by lia.
    by replace j with n by lia; rewrite Nat.eqb_refl.
  - unfold shift_word. rewrite word_at_insert by lia.
    by destruct (Nat.eqb_spec j n); [lia|].
Qed.

Lemma shift_loop_length words rem l bits :
  length (foldl (shift_word words rem) bits l) = length bits.
Proof.
  revert bits. induction l as [|i l IH]; intros; [done|].
  cbn [foldl]. by rewrite IH; unfold shift_word; rewrite length_insert.
Qed.

Lemma shifted_word_bit words rem bits i m :
  words_ok bits -> (rem < 64)%nat -> (m < 64)%nat ->
  Z.testbit (shifted_word words rem bits i) (Z.of_nat m)
  = if (i * 64 + m <? words * 64 + rem)%nat then false
    else HistoryBit bits (i * 64 + m - (words * 64 + rem)).
Proof.
  intros Hok Hr Hm. unfold shifted_word. rewrite HistoryBit_testbit.
  destruct (Nat.leb_spec words i); destruct (Nat.ltb_spec (i * 64 + m) (words * 64 + rem)) as [Hlt|Hge];
    try lia; [| |apply Z.bits_0].
  all: set (v := u64 _); assert (Ev : Z.testbit v (Z.of_nat m)
    = if (m <? rem)%nat then false else Z.testbit (word_at bits (i - words)) (Z.of_nat (m - rem)))
    by (unfold v, u64; rewrite Z.mod_pow2_bits_low, Z.shiftl_spec by lia;
        destruct (Nat.ltb_spec m rem); [apply Z.testbit_neg_r; lia|f_equal; lia]).
  - assert (i = words) as -> by lia. rewrite Nat.ltb_irrefl, andb_false_r, Ev.
    by destruct (Nat.ltb_spec m rem); [|lia].
  - destruct (Nat.ltb_spec m rem).
    + replace (i * 64 + m - (words * 64 + rem))%nat with (m + 64 - rem + (i - words - 1) * 64)%nat by lia.
      rewrite Nat.div_add, Nat.Div0.mod_add, Nat.div_small, Nat.mod_small by lia. cbn [Nat.add].
      destruct (Nat.eqb_spec rem 0), (Nat.ltb_spec words i); try lia. cbn [negb andb].
      rewrite Z.lor_spec, Ev, Z.shiftr_spec by lia. cbn [orb]. f_equal. lia.
    + replace (i * 64 + m - (words * 64 + rem))%nat with (m - rem + (i - words) * 64)%nat by lia.
      rewrite Nat.div_add, Nat.Div0.mod_add, Nat.div_small, Nat.mod_small by lia. cbn [Nat.add].
      destruct (negb (rem =? 0)%nat && (words <? i)%nat) eqn:E; [|done].
      rewrite Z.lor_spec, Ev, Z.shiftr_spec by lia.
      rewrite (testbit_high (word_at bits (i - words - 1)) 64); [by rewrite orb_false_r|by apply word_at_range|].
      apply andb_true_iff in E as [E%negb_true_iff%Nat.eqb_neq _]. lia.
Qed.

Lemma ShiftHistoryUp_spec bits n j :
  words_ok bits -> (j < history_bits)%nat ->
  HistoryBit (ShiftHistoryUp bits n) j = if (j <? n)%nat then false else HistoryBit bits (j - n).
Proof.
  intros Hok Hj. unfold ShiftHistoryUp. destruct (Nat.leb_spec history_bits n) as [Hn|Hn].
  - rewrite HistoryBit_zeros. destruct (Nat.ltb_spec j n); [done|lia].
  - rewrite HistoryBit_testbit, shift_loop by (destruct Hok as [-> _]; done).
    pose proof (div64_lt j Hj). destruct (Nat.ltb_spec (j / 64) history_words); [|lia].
    rewrite shifted_word_bit by (done || apply Nat.mod_upper_bound; lia).
    pose proof (Nat.div_mod_eq j 64). pose proof (Nat.div_mod_eq n 64).
    replace (j / 64 * 64 + j mod 64)%nat with j by lia.
    by replace (n / 64 * 64 + n mod 64)%nat with n by lia.
Qed.

Lemma shifted_word_range words rem bits i :
  words_ok bits -> 0 <= shifted_word words rem bits i < 2 ^ 64.
Proof.
  intros Hok. unfold shifted_word. destruct (_ <=? _)%nat; [|lia].
  set (v := u64 _). assert (0 <= v < 2 ^ 64) by (apply Z.mod_pos_bound; lia).
  destruct (_ && _); [|done]. apply lor_range; [lia|done|].
  pose proof (word_at_range bits (i - words - 1) Hok). rewrite Z.shiftr_div_pow2 by lia.
  split; [apply Z.div_pos; lia|]. apply Z.div_lt_upper_bound; nia.
Qed.

Lemma ShiftHistoryUp_ok bits n : words_ok bits -> words_ok (ShiftHistoryUp bits n).
Proof.
  intros Hok. unfold ShiftHistoryUp. case_match; [apply zeros_ok|]. clear -Hok.
  revert bits Hok. induction (rev (seq 0 history_words)) as [|i l IH]; intros; [done|].
  cbn [foldl]. apply IH, words_ok_insert; [done|by apply shifted_word_range].
Qed.

#[export] Hint Resolve SetHistoryBit_ok ShiftHistoryUp_ok zeros_ok : znet.

(** ** The window against the packets that arrived

    The packets recorded are a list of full sequence numbers, oldest arrival
    first.  The history sees only their low 16 bits. *)

Fixpoint newest (l : list Z) : Z :=
  match l with
  | [] => 0
  | [s] => s
  | s :: l => Z.max s (newest l)
  end.

Definition record_all (l : list Z) : ZDTAckHistory :=
  foldl (fun h s => Record_ h (u16 s)) ZDTAckHistory_default l.

(** Every arrival is less than half a period away from the newest one before
    it. *)
Inductive arrivals : list Z -> Prop :=
  | arrivals_first s : arrivals [s]
  | arrivals_next l s : arrivals l -> - 2 ^ 15 < s - newest l < 2 ^ 15 -> arrivals (l ++ [s]).

Record tracks (h : ZDTAckHistory) (l : list Z) : Prop := {
  tr_any : has_any_ h = true;
  tr_words : words_ok (bits_ h);
  tr_highest : highest_ h = u16 (newest l);
  tr_bits : forall i, (i < history_bits)%nat ->
    HistoryBit (bits_ h) i = bool_decide (newest l - Z.of_nat i ∈ l);
  tr_valid : valid_bits_ h = Z.min kZDTAckHistoryBits (newest l - hd 0 l + 1)
}.

Lemma newest_app l s : l <> [] -> newest (l ++ [s]) = Z.max (newest l) s.
Proof.
  induction l as [|a l IH]; intros Hn; [done|].
  destruct l as [|c l]; [done|].
  change (Z.max a (newest ((c :: l) ++ [s])) = Z.max (Z.max a (newest (c :: l))) s).
  rewrite IH by done. lia.
Qed.

Lemma newest_ge l s : s ∈ l -> s <= newest l.
Proof.
  induction l as [|a l IH]; [by rewrite elem_of_nil|]. rewrite elem_of_cons.
  destruct l as [|c l].
  - intros [->|H%not_elem_of_nil]; [simpl; lia|done].
  - change (newest (a :: c :: l)) with (Z.max a (newest (c :: l))). intros [->|H]; [lia|]. specialize (IH H). lia.
Qed.

Lemma newest_in l : l <> [] -> newest l ∈ l.
Proof.
  induction l as [|a l IH]; intros Hn; [done|].
  destruct l as [|c l]; [by apply list_elem_of_singleton|].
  change (newest (a :: c :: l)) with (Z.max a (newest (c :: l))).
  destruct (Z.max_spec a (newest (c :: l))) as [[_ ->]|[_ ->]]; [|by left].
  right. by apply IH.
Qed.

Lemma arrivals_nonempty l : arrivals l -> l <> [].
Proof. destruct 1; [done|]. by destruct l. Qed.

Lemma hd_app_ne (l : list Z) s : l <> [] -> hd 0 (l ++ [s]) = hd 0 l.
Proof. by destruct l. Qed.

Lemma hd_le_newest l : l <> [] -> hd 0 l <= newest l.
Proof. intros. apply newest_ge. destruct l; [done|left]. Qed.

Lemma u16_u16_sub a b : u16 (u16 a - u16 b) = u16 (a - b).
Proof. unfold u16. by rewrite <- Zminus_mod. Qed.

Lemma tracks_first s : tracks (Record_ ZDTAckHistory_default (u16 s)) [s].
Proof.
  split; try done.
  - cbn [Record_ ZDTAckHistory_default has_any_ negb bits_]. auto with znet.
  - intros i Hi. cbn [Record_ ZDTAckHistory_default has_any_ negb bits_].
    rewrite SetHistoryBit_spec, HistoryBit_zeros by (auto with znet; unfold history_bits; lia).
    rewrite orb_false_r. destruct (Nat.eqb_spec i 0) as [->|]; symmetry.
    + apply bool_decide_eq_true. rewrite list_elem_of_singleton. simpl. lia.
    + apply bool_decide_eq_false. rewrite list_elem_of_singleton. simpl. lia.
  - cbn [Record_ ZDTAckHistory_default has_any_ negb valid_bits_ newest hd]. unfold kZDTAckHistoryBits. lia.
Qed.

Lemma tracks_newer h l s :
  l <> [] -> tracks h l -> 0 < s - newest l < 2 ^ 15 -> tracks (Record_ h (u16 s)) (l ++ [s]).
Proof.
  intros Hn [Ha Hw Hh Hb Hv] Hs. pose proof (hd_le_newest l Hn).
  assert (En : newest (l ++ [s]) = s) by (rewrite newest_app by done; lia).
  unfold Record_. rewrite Ha, Hh. cbn [negb]. unfold SeqGreater. rewrite i16_sub by lia.
  destruct (Z.ltb_spec 0 (s - newest l)); [|lia].
  rewrite u16_u16_sub, (u16_small (s - newest l)) by lia.
  split; cbn [has_any_ bits_ highest_ valid_bits_]; rewrite ?En, ?hd_app_ne by done; auto with znet.
  - intros i Hi. rewrite SetHistoryBit_spec, ShiftHistoryUp_spec by (auto with znet; unfold history_bits; lia).
    apply eq_true_iff_eq. rewrite orb_true_iff, bool_decide_eq_true, Nat.eqb_eq, elem_of_app, list_elem_of_singleton.
    destruct (Nat.ltb_spec i (Z.to_nat (s - newest l))).
    + split; [intros [->|]; [right; lia|done]|]. intros [HI%newest_ge|HI]; [lia|left; lia].
    + rewrite Hb, bool_decide_eq_true by lia.
      replace (newest l - Z.of_nat (i - Z.to_nat (s - newest l))) with (s - Z.of_nat i) by lia.
      split; [intros [->|]; [right; lia|by left]|intros [|]; [by right|left; lia]].
  - rewrite Hv. destruct (Z.ltb_spec kZDTAckHistoryBits
      (Z.min kZDTAckHistoryBits (newest l - hd 0 l + 1) + (s - newest l))); unfold kZDTAckHistoryBits in *; lia.
Qed.

Lemma tracks_older h l s :
  l <> [] -> tracks h l -> - 2 ^ 15 < s - newest l <= 0 -> tracks (Record_ h (u16 s)) (l ++ [s]).
Proof.
  intros Hn [Ha Hw Hh Hb Hv] Hs.
  assert (En : newest (l ++ [s]) = newest l) by (rewrite newest_app by done; lia).
  unfold Record_. rewrite Ha, Hh. cbn [negb]. unfold SeqGreater, SeqLess. rewrite i16_sub by lia.
  destruct (Z.ltb_spec 0 (s - newest l)); [lia|].
  assert (Hsame : (forall i, (i < history_bits)%nat -> s <> newest l - Z.of_nat i) ->
    tracks h (l ++ [s])).
  { intros Hout. split; rewrite ?En, ?hd_app_ne by done; auto. intros i Hi. rewrite Hb by done.
    apply bool_decide_ext. rewrite elem_of_app, list_elem_of_singleton.
    split; [by left|]. intros [|E]; [done|]. by destruct (Hout i Hi). }
  destruct (Z.ltb_spec (s - newest l) 0).
  - rewrite u16_u16_sub, (u16_small (newest l - s)) by lia. destruct (Z.ltb_spec (newest l - s) kZDTAckHistoryBits) as [Hin|Hin].
    + unfold kZDTAckHistoryBits in Hin.
      split; cbn [has_any_ bits_ highest_ valid_bits_]; rewrite ?En, ?hd_app_ne by done; auto with znet.
      intros i Hi. rewrite SetHistoryBit_spec by (done || (unfold history_bits; lia)).
      apply eq_true_iff_eq. rewrite orb_true_iff, Nat.eqb_eq, Hb by done.
      rewrite !bool_decide_eq_true, elem_of_app, list_elem_of_singleton.
      split; [intros [|]; [right; lia|by left]|intros [|]; [by right|left; lia]].
    + apply Hsame. unfold kZDTAckHistoryBits, history_bits in *. intros. lia.
  - split; rewrite ?En, ?hd_app_ne by done; auto. intros i Hi. rewrite Hb by done.
    apply bool_decide_ext. rewrite elem_of_app, list_elem_of_singleton.
    split; [by left|]. intros [|E]; [done|]. rewrite E. replace s with (newest l) by lia. by apply newest_in.
Qed.

Lemma record_all_snoc l s : record_all (l ++ [s]) = Record_ (record_all l) (u16 s).
Proof. unfold record_all. by rewrite foldl_app. Qed.

Lemma record_all_tracks l : arrivals l -> tracks (record_all l) l.
Proof.
  induction 1 as [s|l s Hl IH Hs]; [apply tracks_first|].
  pose proof (arrivals_nonempty _ Hl). rewrite record_all_snoc.
  destruct (Z.lt_ge_cases 0 (s - newest l)); [apply tracks_newer|apply tracks_older]; done || lia.
Qed.

(** ** The blocks against the window *)

(** What a list of ack blocks says, newest packet first. *)
Definition runs (bs : list ZDTAckBlock) : list bool :=
  bs ≫= fun k => repeat true (Z.to_nat (num_ack k)) ++ repeat false (Z.to_nat (num_nack k)).

Definition reported (h : ZDTHeader) : list ZDTAckBlock := take (Z.to_nat (h_block_count h)) (h_blocks h).

Definition window (bits : list Z) (n : nat) : list bool := map (HistoryBit bits) (seq 0 n).

Definition block_ok (k : ZDTAckBlock) : Prop := 0 <= num_ack k < 256 /\ 0 <= num_nack k < 256.

Lemma runs_app bs cs : runs (bs ++ cs) = runs bs ++ runs cs.
Proof. apply bind_app. Qed.

Lemma run_length_spec want bits limit budget b :
  let r := run_length want bits limit budget b in
  (r <= budget)%nat /\ (r = 0 \/ b + r <= limit)%nat /\
  map (HistoryBit bits) (seq b r) = repeat want r.
Proof.
  revert b. induction budget as [|k IH]; intros b; simpl; [split_and!; try done; lia|].
  destruct (Nat.ltb_spec b limit); [|simpl; split_and!; try done; lia].
  destruct (Bool.eqb (HistoryBit bits b) want) eqn:E; [|simpl; split_and!; try done; lia].
  destruct (IH (S b)) as (H1 & H2 & H3). simpl. apply Bool.eqb_prop in E.
  split_and!; [lia|lia|]. by rewrite E, H3.
Qed.

(** One of the two inner loops advances as long as the window is not exhausted. *)
Lemma run_length_progress bits limit k b :
  (b < limit)%nat -> run_length (HistoryBit bits b) bits limit (S k) b <> 0%nat.
Proof.
  intros Hb. simpl. destruct (Nat.ltb_spec b limit); [|lia].
  by rewrite Bool.eqb_reflx.
Qed.

Record filled (bits : list Z) (limit max_blocks b : nat) (h : ZDTHeader) : Prop := {
  fl_count : 0 <= h_block_count h <= Z.of_nat max_blocks;
  fl_max : (max_blocks <= 24)%nat;
  fl_len : length (h_blocks h) = 24%nat;
  fl_pos : (b <= limit)%nat;
  fl_blocks : Forall block_ok (reported h);
  fl_runs : runs (reported h) = window bits b
}.

Definition push_block (h : ZDTHeader) (k : ZDTAckBlock) : ZDTHeader :=
  mkHeader (h_flags h) (h_cid h) (h_packet_seq h) (h_ack h)
    (<[Z.to_nat (h_block_count h) := k]> (h_blocks h)) (h_block_count h + 1).

Lemma reported_push h k :
  0 <= h_block_count h < zlen (h_blocks h) -> reported (push_block h k) = reported h ++ [k].
Proof.
  intros Hc. unfold reported, push_block. cbn [h_block_count h_blocks].
  replace (Z.to_nat (h_block_count h + 1)) with (S (Z.to_nat (h_block_count h))) by lia.
  rewrite take_S_r with (x := k) by (apply list_lookup_insert_eq; lia).
  by rewrite take_insert_ge by lia.
Qed.

Lemma filled_push bits limit max_blocks b h :
  filled bits limit max_blocks b h -> (b < limit)%nat -> (Z.to_nat (h_block_count h) < max_blocks)%nat ->
  let acks := run_length true bits limit 255 b in
  let nacks := run_length false bits limit 255 (b + acks) in
  (0 < acks + nacks)%nat /\
  filled bits limit max_blocks (b + acks + nacks) (push_block h (mkBlock (Z.of_nat acks) (Z.of_nat nacks))).
Proof.
  intros [Hc Hm Hl Hp Hb Hr] Hlt Hcnt. intros acks nacks.
  destruct (run_length_spec true bits limit 255 b) as (A1 & A2 & A3).
  destruct (run_length_spec false bits limit 255 (b + acks)) as (N1 & N2 & N3).
  fold acks in A1, A2, A3. fold nacks in N1, N2, N3.
  split.
  - destruct (HistoryBit bits b) eqn:E.
    + pose proof (run_length_progress bits limit 254 b Hlt) as Hpr. rewrite E in Hpr. fold acks in Hpr. lia.
    + destruct (decide (acks = 0%nat)) as [Ez|]; [|lia].
      pose proof (run_length_progress bits limit 254 b Hlt) as Hpr. rewrite E in Hpr.
      unfold nacks. rewrite Ez, Nat.add_0_r. lia.
  - assert (Hrep : reported (push_block h (mkBlock (Z.of_nat acks) (Z.of_nat nacks)))
      = reported h ++ [mkBlock (Z.of_nat acks) (Z.of_nat nacks)]) by (apply reported_push; lia).
    split; [simpl; lia|done|simpl; by rewrite length_insert|lia| |].
    + rewrite Hrep. apply Forall_app. split; [done|]. repeat constructor; simpl; lia.
    + rewrite Hrep, runs_app, Hr. unfold runs, window. rewrite bind_cons_eq. cbn [num_ack num_nack mbind list_bind].
      rewrite app_nil_r, !Nat2Z.id, <- A3, <- N3, !seq_app, !map_app. cbn [Nat.add]. by rewrite app_assoc.
Qed.

Lemma fill_loop_spec fuel bits limit max_blocks b h :
  filled bits limit max_blocks b h -> (limit <= b + fuel)%nat ->
  let h' := fill_loop fuel bits limit max_blocks b h in
  exists b', filled bits limit max_blocks b' h' /\
    (b' = limit \/ h_block_count h' = Z.of_nat max_blocks) /\
    h_ack h' = h_ack h /\ h_flags h' = h_flags h /\ h_cid h' = h_cid h /\ h_packet_seq h' = h_packet_seq h.
Proof.
  revert b h. induction fuel as [|fuel IH]; intros b h Hf Hfuel; cbn [fill_loop].
  { exists b. split_and!; try done. left. destruct Hf. lia. }
  destruct (Nat.ltb_spec b limit), (Nat.ltb_spec (Z.to_nat (h_block_count h)) max_blocks); cbn [andb].
  2-4: exists b; split_and!; try done; destruct Hf; lia.
  destruct (filled_push _ _ _ _ _ Hf H H0) as [Hpos Hf'].
  destruct (Nat.eqb_spec (run_length true bits limit 255 b) 0),
    (Nat.eqb_spec (run_length false bits limit 255 (b + run_length true bits limit 255 b)) 0); cbn [andb]; [lia|..];
  (destruct (IH _ _ Hf' ltac:(lia)) as (b' & F & D & E1 & E2 & E3 & E4);
   exists b'; cbn [h_ack h_flags h_cid h_packet_seq push_block] in *; by split_and!).
Qed.

Lemma drop_nack_tail_spec n h :
  h_block_count h = Z.of_nat n -> (n <= length (h_blocks h))%nat ->
  exists m dropped, (m <= n)%nat /\
    drop_nack_tail n h = mkHeader (h_flags h) (h_cid h) (h_packet_seq h) (h_ack h) (h_blocks h) (Z.of_nat m) /\
    take n (h_blocks h) = take m (h_blocks h) ++ dropped /\
    Forall (fun k => num_ack k = 0) dropped /\
    (m = 0%nat \/ num_ack (block_at h (m - 1)) <> 0).
Proof.
  revert h. induction n as [|n IH]; intros h Hc Hn.
  - exists 0%nat, []. destruct h; simpl in *; subst. split_and!; try done. by left.
  - cbn [drop_nack_tail]. destruct (Z.eqb_spec (num_ack (block_at h n)) 0) as [Ez|Ez].
    + set (h1 := mkHeader _ _ _ _ _ _). destruct (IH h1) as (m & dr & Hm & E & Et & Hd & Hl); [done|simpl; lia|].
      destruct (lookup_lt_is_Some_2 (h_blocks h) n ltac:(lia)) as [x Ex].
      exists m, (dr ++ [x]). split_and!; [lia|done| |apply Forall_app; split; [done|]|done].
      * rewrite (take_S_r _ _ _ Ex), app_assoc. f_equal. exact Et.
      * repeat constructor. unfold block_at in Ez. by rewrite Ex in Ez.
    + exists (S n), []. rewrite app_nil_r, Nat.sub_succ, Nat.sub_0_r. destruct h; simpl in *; subst.
      split_and!; try done. by right.
Qed.

(** The positions [Fill] describes at most. *)
Definition fill_limit (hist : ZDTAckHistory) (reportable_cap : Z) : Z := Z.min reportable_cap (valid_bits_ hist).

Lemma Fill_spec hist header max_blocks reportable_cap :
  has_any_ hist = true -> 0 < max_blocks -> 0 <= reportable_cap -> 0 <= valid_bits_ hist ->
  length (h_blocks header) = 24%nat ->
  let h' := Fill hist header max_blocks reportable_cap in
  let most := Z.min max_blocks kZDTMaxAckBlocks in
  h_ack h' = highest_ hist /\ 0 <= h_block_count h' <= most /\
  length (h_blocks h') = 24%nat /\ Forall block_ok (reported h') /\
  h_flags h' = h_flags header /\ h_cid h' = h_cid header /\ h_packet_seq h' = h_packet_seq header /\
  exists n dropped, Z.of_nat n <= fill_limit hist reportable_cap /\
    runs (reported h' ++ dropped) = window (bits_ hist) n /\
    Forall (fun k => num_ack k = 0) dropped /\
    (Z.of_nat n = fill_limit hist reportable_cap \/ zlen (reported h' ++ dropped) = most).
Proof.
  intros Ha Hmax Hcap Hv Hlen. unfold Fill. rewrite Ha. cbn [negb orb].
  destruct (Z.eqb_spec max_blocks 0); [lia|].
  set (h0 := mkHeader _ _ _ _ _ 0).
  replace (if kZDTMaxAckBlocks <? max_blocks then kZDTMaxAckBlocks else max_blocks)
    with (Z.min max_blocks kZDTMaxAckBlocks) by (destruct (Z.ltb_spec kZDTMaxAckBlocks max_blocks); lia).
  replace (if reportable_cap <? valid_bits_ hist then reportable_cap else valid_bits_ hist)
    with (fill_limit hist reportable_cap) by (unfold fill_limit; destruct (Z.ltb_spec reportable_cap (valid_bits_ hist)); lia).
  set (most := Z.min max_blocks kZDTMaxAckBlocks). set (limit := fill_limit hist reportable_cap).
  assert (Hmost : 0 < most <= 24) by (unfold most, kZDTMaxAckBlocks; lia).
  assert (Hlim : 0 <= limit) by (unfold limit, fill_limit; lia).
  destruct (fill_loop_spec (Z.to_nat limit) (bits_ hist) (Z.to_nat limit) (Z.to_nat most) 0 h0)
    as (b & [Fc Fm Fl Fp Fb Fr] & D & E1 & E2 & E3 & E4).
  { split; simpl; try lia; try done. } { lia. }
  set (h1 := fill_loop _ _ _ _ _ _) in *.
  destruct (drop_nack_tail_spec (Z.to_nat (h_block_count h1)) h1) as (m & dr & Hm & Ed & Et & Hd & _); [lia|lia|].
  rewrite Ed. cbn zeta. unfold reported in *. cbn [h_ack h_flags h_cid h_packet_seq h_blocks h_block_count]. rewrite Nat2Z.id.
  split_and!; try done; try lia.
  { rewrite Et in Fb. by apply Forall_app in Fb as [? _]. }
  exists b, dr. rewrite <- Et. split_and!; try done; try lia.
  destruct D as [->|D]; [left; lia|right]. rewrite D, length_take. lia.
Qed.

Lemma window_lookup bits n i v : window bits n !! i = Some v <-> (i < n)%nat /\ v = HistoryBit bits i.
Proof.
  unfold window. rewrite list_lookup_fmap. destruct (decide (i < n)%nat) as [Hi|Hi].
  - rewrite lookup_seq_lt by done. simpl. naive_solver.
  - rewrite lookup_seq_ge by lia. simpl. naive_solver.
Qed.

Lemma valid_bits_range h l : l <> [] -> tracks h l -> 0 < valid_bits_ h <= kZDTAckHistoryBits.
Proof.
  intros Hn [_ _ _ _ Hv]. pose proof (hd_le_newest l Hn). rewrite Hv. unfold kZDTAckHistoryBits. lia.
Qed.

(** Trailing all-missing blocks say nothing about any packet that arrived. *)
Lemma runs_all_missing bs i : Forall (fun k => num_ack k = 0) bs -> runs bs !! i = Some true -> False.
Proof.
  intros H. revert i. induction H as [|k bs Hk _ IH]; intros i; unfold runs in *; [done|].
  rewrite bind_cons_eq, Hk. cbn [repeat Z.to_nat app]. rewrite lookup_app_Some, lookup_app_Some.
  intros [[Hi|[_ Hi]]|[_ Hi]]; [done| |by apply IH in Hi].
  by apply list_elem_of_lookup_2, list_elem_of_In, repeat_spec in Hi.
Qed.

(** ** Theorems *)

(** [C37] The history tracks the packets that arrived: over any sequence of
    arrivals, reordered and duplicated, in which each is within half a period of
    the newest before it, the 16-bit window holds exactly the recorded packets
    among the newest 1024, across wrap-around. *)
Theorem history_refines_arrivals (l : list Z) (Hl : arrivals l) (i : nat) (Hi : (i < history_bits)%nat) :
  has_any_ (record_all l) = true /\ highest_ (record_all l) = u16 (newest l) /\
  HistoryBit (bits_ (record_all l)) i = bool_decide (newest l - Z.of_nat i ∈ l).
Proof. destruct (record_all_tracks l Hl). auto. Qed.

Lemma arrivals_wrap_example : arrivals [65534; 65537; 65535].
Proof.
  change (arrivals (([65534] ++ [65537]) ++ [65535])).
  repeat apply arrivals_next; try apply arrivals_first; simpl; lia.
Qed.

Lemma history_refines_arrivals_witness :
  has_any_ (record_all [65534; 65537; 65535]) = true /\ highest_ (record_all [65534; 65537; 65535]) = 1 /\
  HistoryBit (bits_ (record_all [65534; 65537; 65535])) 2 = true.
Proof. apply (history_refines_arrivals [65534; 65537; 65535] arrivals_wrap_example 2). unfold history_bits. lia. Defined.

(** Acknowledgments tell the truth.  Whatever blocks [Fill] writes, the ack
    field is the newest packet, a position in an ack run is a packet that
    arrived, and a position in a nack run is a packet that did not arrive and
    is not older than the first one ever received, so no loss is invented. *)
Theorem Fill_truthful (l : list Z) (Hl : arrivals l) (header : ZDTHeader) (max_blocks reportable_cap : Z)
  (HB : length (h_blocks header) = 24%nat) (Hm : 0 < max_blocks) (Hc : 0 <= reportable_cap) (i : nat) (v : bool)
  (Hv : runs (reported (Fill (record_all l) header max_blocks reportable_cap)) !! i = Some v) :
  h_ack (Fill (record_all l) header max_blocks reportable_cap) = u16 (newest l) /\
  v = bool_decide (newest l - Z.of_nat i ∈ l) /\ hd 0 l <= newest l - Z.of_nat i /\ Z.of_nat i < reportable_cap.
Proof.
  pose proof (arrivals_nonempty l Hl) as Hn. pose proof (record_all_tracks l Hl) as T.
  pose proof (valid_bits_range _ _ Hn T) as Hval. destruct T as [Ha _ Hh Hb Hvb].
  destruct (Fill_spec (record_all l) header max_blocks reportable_cap Ha Hm Hc ltac:(lia) HB)
    as (E & _ & _ & _ & _ & _ & _ & n & dr & Hle & Hr & _).
  apply (lookup_app_l_Some _ (runs dr)) in Hv. rewrite <- runs_app, Hr, window_lookup in Hv.
  destruct Hv as [Hi ->]. unfold fill_limit, kZDTAckHistoryBits in *.
  rewrite Hb by (unfold history_bits; lia). split_and!; [by rewrite E|done|lia|lia].
Qed.

Lemma Fill_truthful_witness :
  h_ack (Fill (record_all [65534; 65537; 65535]) ZDTHeader_default 24 1024) = 1 /\
  false = bool_decide (65537 - 1 ∈ [65534; 65537; 65535]) /\ 65534 <= 65537 - 1 /\ 1 < 1024.
Proof.
  apply (Fill_truthful [65534; 65537; 65535] arrivals_wrap_example ZDTHeader_default 24 1024 eq_refl
    ltac:(lia) ltac:(lia) 1 false). vm_compute. reflexivity.
Defined.

(** Acknowledgments are complete up to the space they are given: every packet
    that arrived within the reportable window is acknowledged, unless all the
    blocks allowed were already used for newer packets. *)
Theorem Fill_complete (l : list Z) (Hl : arrivals l) (header : ZDTHeader) (max_blocks reportable_cap : Z)
  (HB : length (h_blocks header) = 24%nat) (Hm : 0 < max_blocks) (Hc : 0 <= reportable_cap) (s : Z)
  (Hs : s ∈ l) (Hold : hd 0 l <= s) (Hwin : newest l - s < Z.min reportable_cap kZDTAckHistoryBits) :
  let h' := Fill (record_all l) header max_blocks reportable_cap in
  runs (reported h') !! Z.to_nat (newest l - s) = Some true \/
  exists dropped, Forall (fun k => num_ack k = 0) dropped /\
    zlen (reported h' ++ dropped) = Z.min max_blocks kZDTMaxAckBlocks /\
    (length (runs (reported h' ++ dropped)) <= Z.to_nat (newest l - s))%nat.
Proof.
  pose proof (arrivals_nonempty l Hl) as Hn. pose proof (record_all_tracks l Hl) as T.
  pose proof (valid_bits_range _ _ Hn T) as Hval. destruct T as [Ha _ Hh Hb Hvb].
  pose proof (newest_ge l s Hs) as Hge. set (i := Z.to_nat (newest l - s)).
  destruct (Fill_spec (record_all l) header max_blocks reportable_cap Ha Hm Hc ltac:(lia) HB)
    as (E & _ & _ & _ & _ & _ & _ & n & dr & Hle & Hr & Hd & Hend).
  intros h'. fold h' in E, Hr, Hend. destruct (decide (i < n)%nat) as [Hi|Hi].
  - left. assert (Hw : window (bits_ (record_all l)) n !! i = Some true).
    { apply window_lookup. split; [done|]. rewrite Hb by (unfold history_bits, kZDTAckHistoryBits in *; lia).
      symmetry. apply bool_decide_eq_true. by replace (newest l - Z.of_nat i) with s by lia. }
    rewrite <- Hr, runs_app, lookup_app_Some in Hw. destruct Hw as [|[_ Hw]]; [done|].
    by apply runs_all_missing in Hw.
  - right. exists dr. split_and!; [done| |].
    + destruct Hend as [Hend|]; [|done]. unfold fill_limit in Hend. lia.
    + rewrite Hr. unfold window. rewrite length_map, length_seq. lia.
Qed.

Lemma Fill_complete_witness :
  let h' := Fill (record_all [65534; 65537; 65535]) ZDTHeader_default 24 1024 in
  runs (reported h') !! 2%nat = Some true \/
  exists dropped, Forall (fun k => num_ack k = 0) dropped /\
    zlen (reported h' ++ dropped) = 24 /\
    (length (runs (reported h' ++ dropped)) <= 2)%nat.
Proof.
  apply (Fill_complete [65534; 65537; 65535] arrivals_wrap_example ZDTHeader_default 24 1024 eq_refl
    ltac:(lia) ltac:(lia) 65535).
  - apply list_elem_of_In. simpl. auto.
  - simpl. lia.
  - unfold kZDTAckHistoryBits. simpl. lia.
Defined.

(** A packet that arrives late and is older than the first one recorded is
    never acknowledged, whatever space the header has: its bit is set, but
    [valid_bits_] is not extended to cover it. *)
Theorem late_before_first_unreported (l : list Z) (Hl : arrivals l) (s : Z) (Hs : s < hd 0 l)
  (header : ZDTHeader) (max_blocks reportable_cap : Z)
  (HB : length (h_blocks header) = 24%nat) (Hm : 0 < max_blocks) (Hc : 0 <= reportable_cap) :
  runs (reported (Fill (record_all l) header max_blocks reportable_cap)) !! Z.to_nat (newest l - s) = None.
Proof.
  pose proof (arrivals_nonempty l Hl) as Hn. pose proof (record_all_tracks l Hl) as T.
  pose proof (valid_bits_range _ _ Hn T) as Hval. pose proof (hd_le_newest l Hn). destruct T as [Ha _ Hh Hb Hvb].
  destruct (Fill_spec (record_all l) header max_blocks reportable_cap Ha Hm Hc ltac:(lia) HB)
    as (_ & _ & _ & _ & _ & _ & _ & n & dr & Hle & Hr & _).
  apply lookup_ge_None_2. apply (f_equal length) in Hr. unfold window, fill_limit in *.
  rewrite runs_app, length_app, length_map, length_seq in Hr. lia.
Qed.

Lemma late_before_first_unreported_witness :
  runs (reported (Fill (record_all ([5] ++ [4])) ZDTHeader_default 24 1024)) !! 1%nat = None.
Proof.
  apply (late_before_first_unreported ([5] ++ [4])
    (arrivals_next [5] 4 (arrivals_first 5) ltac:(simpl; lia)) 4 ltac:(simpl; lia) ZDTHeader_default 24 1024 eq_refl);
  lia.
Defined.
