(* ===== verification/Binary64.v ===== *)
(** * Binary64 arithmetic

    The estimator and the congestion window are computed in C++ [double].  A
    finite double is a rational here, and every operation is the exact one
    followed by [rnd], the round-to-nearest-even of IEEE 754 binary64: 53 bits of
    significand and a smallest exponent of -1074.  Overflow to infinity is left
    out; the bounds proved of the values that use it keep them far below it. *)

From S2P Require Import Prelude.
From Stdlib Require Import QArith Qabs Lqa.

#[local] Open Scope Z_scope.

(** The nearest integer to [n / d], ties to even. *)
Definition rint (n d : Z) : Z :=
  let f := n / d in
  let r := n mod d in
  if 2 * r <? d then f else if d <? 2 * r then f + 1 else if Z.even f then f else f + 1.

(** The [k] with [2^k <= n/d < 2^(k+1)]. *)
Definition scaled_le (k n d : Z) : bool :=
  if 0 <=? k then 2 ^ k * d <=? n else d <=? n * 2 ^ (- k).

Definition log2_ratio (n d : Z) : Z :=
  let k := Z.log2 n - Z.log2 d in
  if scaled_le k n d then k else k - 1.

Definition min_exponent : Z := -1074.
Definition exponent (n d : Z) : Z := Z.max (log2_ratio n d - 52) min_exponent.

Definition pow2 (e : Z) : Q := if 0 <=? e then inject_Z (2 ^ e) else 1 # Z.to_pos (2 ^ (- e)).

(** [n / d], for [n > 0], rounded to a multiple of [2^e]. *)
Definition significand (e n d : Z) : Z :=
  if 0 <=? e then rint n (d * 2 ^ e) else rint (n * 2 ^ (- e)) d.

Definition rnd_pos (q : Q) : Q :=
  let n := Qnum q in
  let d := Zpos (Qden q) in
  let e := exponent n d in
  Qred (inject_Z (significand e n d) * pow2 e)%Q.

Definition rnd (q : Q) : Q :=
  if Qnum q =? 0 then 0%Q
  else if 0 <? Qnum q then rnd_pos q
  else (- rnd_pos (- q))%Q.

(** ** Operations *)

Definition fadd (a b : Q) : Q := rnd (a + b).
Definition fsub (a b : Q) : Q := rnd (a - b).
Definition fmul (a b : Q) : Q := rnd (a * b).
Definition fdiv (a b : Q) : Q := rnd (a / b).
Definition ffabs (a : Q) : Q := Qabs a.
Definition fltb (a b : Q) : bool := negb (Qle_bool b a).
Definition fmax (a b : Q) : Q := if fltb a b then b else a.
(** An integer converted to double, and a double truncated to an integer. *)
Definition of_int (z : Z) : Q := rnd (inject_Z z).
Definition to_int (q : Q) : Z := Z.quot (Qnum q) (Zpos (Qden q)).

(** ** Powers of two *)

Lemma pow2_pos e : (0 < pow2 e)%Q.
Proof.
  unfold pow2. destruct (Z.leb_spec 0 e); [|done].
  unfold Qlt. simpl. pose proof (Z.pow_pos_nonneg 2 e). lia.
Qed.

(** Turns a comparison of rationals built from powers of two into one of integers. *)
Ltac qz :=
  unfold Qeq, Qle, Qlt; cbn -[Z.pow Z.mul];
  rewrite ?Pos.mul_1_r, ?Pos.mul_1_l, ?Pos2Z.inj_mul, ?Z.mul_1_r, ?Z.mul_1_l, ?Z2Pos.id
    by (first [done | apply Z.pow_pos_nonneg; lia]).

(** [2^a = 2^(a-b) * 2^b] for [b <= a], so a multiple of the larger power is a
    multiple of the smaller. *)
Lemma pow2_split a b : b <= a -> (pow2 a == inject_Z (2 ^ (a - b)) * pow2 b)%Q.
Proof.
  intros Hab. unfold pow2.
  destruct (Z.leb_spec 0 a), (Z.leb_spec 0 b); try lia; qz; rewrite <- Z.pow_add_r by lia; f_equal; lia.
Qed.

Lemma pow2_le a b : a <= b -> (pow2 a <= pow2 b)%Q.
Proof.
  intros H. rewrite (pow2_split b a H). pose proof (pow2_pos a).
  assert (1 <= inject_Z (2 ^ (b - a)))%Q.
  { unfold Qle. simpl. pose proof (Z.pow_pos_nonneg 2 (b - a)). lia. }
  nra.
Qed.

(** ** Rounding to an integer *)

Lemma rint_ge c n d : 0 < d -> c * d <= n -> c <= rint n d.
Proof.
  intros Hd H. assert (c <= n / d) by (apply Z.div_le_lower_bound; lia).
  unfold rint. repeat case_match; lia.
Qed.

Lemma rint_le c n d : 0 < d -> n <= c * d -> rint n d <= c.
Proof.
  intros Hd H. unfold rint. pose proof (Z_div_mod_eq_full n d). pose proof (Z.mod_pos_bound n d Hd).
  destruct (Z.eq_dec (n mod d) 0) as [E|E].
  - rewrite E. destruct (Z.ltb_spec (2 * 0) d); [|lia]. nia.
  - assert (n / d + 1 <= c) by nia. repeat case_match; lia.
Qed.

(** Comparing with a multiple of [2^e] survives the rounding at exponent [e]. *)
Lemma significand_ge e c n d : 0 < d ->
  (inject_Z c * pow2 e <= n # Z.to_pos d)%Q -> c <= significand e n d.
Proof.
  intros Hd. unfold pow2, significand. destruct (Z.leb_spec 0 e); qz; intros Hc; apply rint_ge; try nia.
Qed.

Lemma significand_le e c n d : 0 < d ->
  (n # Z.to_pos d <= inject_Z c * pow2 e)%Q -> significand e n d <= c.
Proof.
  intros Hd. unfold pow2, significand. destruct (Z.leb_spec 0 e); qz; intros Hc; apply rint_le; try nia.
Qed.

(** ** The exponent *)

Lemma scaled_le_spec k n d : 0 < d -> scaled_le k n d = true <-> (pow2 k <= n # Z.to_pos d)%Q.
Proof. intros Hd. unfold scaled_le, pow2. destruct (Z.leb_spec 0 k); qz; rewrite Z.leb_le; lia. Qed.

Lemma ratio_lower a b n d : 2 ^ a <= n -> 0 <= a -> 0 <= b -> 0 < d <= 2 ^ b -> (pow2 (a - b) <= n # Z.to_pos d)%Q.
Proof.
  intros Hn Ha Hb Hd. apply scaled_le_spec; [lia|]. unfold scaled_le. destruct (Z.leb_spec 0 (a - b)); apply Z.leb_le.
  - assert (2 ^ a = 2 ^ (a - b) * 2 ^ b) by (rewrite <- Z.pow_add_r by lia; f_equal; lia).
    pose proof (Z.pow_pos_nonneg 2 (a - b)). nia.
  - assert (2 ^ b = 2 ^ a * 2 ^ (- (a - b))) by (rewrite <- Z.pow_add_r by lia; f_equal; lia).
    pose proof (Z.pow_pos_nonneg 2 (- (a - b))). nia.
Qed.

Lemma ratio_upper a b n d : n < 2 ^ a -> 0 <= a -> 0 <= b -> 2 ^ b <= d -> (n # Z.to_pos d < pow2 (a - b))%Q.
Proof.
  intros Hn Ha Hb Hd. pose proof (Z.pow_pos_nonneg 2 b). apply Qnot_le_lt. rewrite <- scaled_le_spec by lia.
  unfold scaled_le. destruct (Z.leb_spec 0 (a - b)); rewrite Z.leb_le.
  - assert (2 ^ a = 2 ^ (a - b) * 2 ^ b) by (rewrite <- Z.pow_add_r by lia; f_equal; lia).
    pose proof (Z.pow_pos_nonneg 2 (a - b)). nia.
  - assert (2 ^ b = 2 ^ a * 2 ^ (- (a - b))) by (rewrite <- Z.pow_add_r by lia; f_equal; lia).
    pose proof (Z.pow_pos_nonneg 2 (- (a - b))). nia.
Qed.

Lemma log2_ratio_spec n d : 0 < n -> 0 < d ->
  (pow2 (log2_ratio n d) <= n # Z.to_pos d)%Q /\ (n # Z.to_pos d < pow2 (log2_ratio n d + 1))%Q.
Proof.
  intros Hn Hd. pose proof (Z.log2_spec n Hn). pose proof (Z.log2_spec d Hd).
  pose proof (Z.log2_nonneg n). pose proof (Z.log2_nonneg d). unfold log2_ratio.
  destruct (scaled_le _ n d) eqn:E.
  - split; [by apply scaled_le_spec|].
    replace (Z.log2 n - Z.log2 d + 1) with (Z.succ (Z.log2 n) - Z.log2 d) by lia. apply ratio_upper; lia.
  - replace (Z.log2 n - Z.log2 d - 1) with (Z.log2 n - Z.succ (Z.log2 d)) by lia.
    split; [apply ratio_lower; lia|]. apply Qnot_le_lt. rewrite <- scaled_le_spec by lia.
    replace (Z.log2 n - Z.succ (Z.log2 d) + 1) with (Z.log2 n - Z.log2 d) by lia. by rewrite E.
Qed.

(** ** Representable values *)

Definition representable (c : Q) : Prop :=
  exists m e, 0 <= m <= 2 ^ 53 /\ min_exponent <= e /\ (c == inject_Z m * pow2 e)%Q.

Lemma rnd_pos_eq q : (rnd_pos q == inject_Z (significand (exponent (Qnum q) (Zpos (Qden q))) (Qnum q) (Zpos (Qden q)))
  * pow2 (exponent (Qnum q) (Zpos (Qden q))))%Q.
Proof. apply Qred_correct. Qed.

Lemma inject_le a b x : (0 < x)%Q -> a <= b -> (inject_Z a * x <= inject_Z b * x)%Q.
Proof. intros Hx H. apply Qmult_le_r; [done|]. by rewrite <- Zle_Qle. Qed.

Lemma rnd_pos_ge q c : (0 < q)%Q -> representable c -> (c <= q)%Q -> (c <= rnd_pos q)%Q.
Proof.
  destruct q as [n d]. intros Hq (m & e' & Hm & He' & Ec) Hc. rewrite rnd_pos_eq. cbn [Qnum Qden].
  assert (Hn : 0 < n) by (unfold Qlt in Hq; simpl in Hq; lia).
  destruct (log2_ratio_spec n (Zpos d) Hn ltac:(lia)) as [Hlo _]. rewrite Pos2Z.id in Hlo.
  set (e := exponent n (Zpos d)). pose proof (pow2_pos e).
  destruct (Z.le_gt_cases e e') as [Hle|Hgt].
  - assert (E : (c == inject_Z (m * 2 ^ (e' - e)) * pow2 e)%Q)
      by (rewrite Ec, (pow2_split e' e Hle), inject_Z_mult; ring).
    rewrite E. apply inject_le; [done|]. apply significand_ge; [lia|]. rewrite Pos2Z.id, <- E. done.
  - assert (Ek : e = log2_ratio n (Zpos d) - 52) by (unfold e, exponent in *; lia).
    assert (E : (pow2 (log2_ratio n (Zpos d)) == inject_Z (2 ^ 52) * pow2 e)%Q).
    { replace (2 ^ 52) with (2 ^ (log2_ratio n (Zpos d) - e)) by (f_equal; lia). apply pow2_split. lia. }
    apply Qle_trans with (inject_Z (2 ^ 52) * pow2 e)%Q.
    + rewrite <- E, Ec. apply Qle_trans with (inject_Z (2 ^ 53) * pow2 e')%Q; [apply inject_le; [apply pow2_pos|lia]|].
      replace (2 ^ 53) with (2 ^ (e' + 53 - e')) by (f_equal; lia). rewrite <- pow2_split by lia. apply pow2_le. lia.
    + apply inject_le; [done|]. apply significand_ge; [lia|]. by rewrite Pos2Z.id, <- E.
Qed.

Lemma rnd_pos_le q c : (0 < q)%Q -> representable c -> (q <= c)%Q -> (rnd_pos q <= c)%Q.
Proof.
  destruct q as [n d]. intros Hq (m & e' & Hm & He' & Ec) Hc. rewrite rnd_pos_eq. cbn [Qnum Qden].
  assert (Hn : 0 < n) by (unfold Qlt in Hq; simpl in Hq; lia).
  destruct (log2_ratio_spec n (Zpos d) Hn ltac:(lia)) as [Hlo _]. rewrite Pos2Z.id in Hlo.
  set (e := exponent n (Zpos d)). pose proof (pow2_pos e).
  destruct (Z.le_gt_cases e e') as [Hle|Hgt].
  - assert (E : (c == inject_Z (m * 2 ^ (e' - e)) * pow2 e)%Q)
      by (rewrite Ec, (pow2_split e' e Hle), inject_Z_mult; ring).
    rewrite E. apply inject_le; [done|]. apply significand_le; [lia|]. rewrite Pos2Z.id, <- E. done.
  - assert (Ek : e = log2_ratio n (Zpos d) - 52) by (unfold e, exponent in *; lia).
    assert (E : (pow2 (log2_ratio n (Zpos d)) == inject_Z (2 ^ 52) * pow2 e)%Q).
    { replace (2 ^ 52) with (2 ^ (log2_ratio n (Zpos d) - e)) by (f_equal; lia). apply pow2_split. lia. }
    apply Qle_trans with (inject_Z (2 ^ 52) * pow2 e)%Q; [|rewrite <- E; by apply Qle_trans with (n # d)%Q].
    apply inject_le; [done|]. apply significand_le; [lia|]. rewrite Pos2Z.id, <- E.
    apply Qle_trans with c; [done|]. rewrite Ec.
    apply Qle_trans with (inject_Z (2 ^ 53) * pow2 e')%Q; [apply inject_le; [apply pow2_pos|lia]|].
    replace (2 ^ 53) with (2 ^ (e' + 53 - e')) by (f_equal; lia). rewrite <- pow2_split by lia. apply pow2_le. lia.
Qed.

Lemma rnd_pos_representable q : (0 < q)%Q -> representable (rnd_pos q).
Proof.
  destruct q as [n d]. intros Hq.
  assert (Hn : 0 < n) by (unfold Qlt in Hq; simpl in Hq; lia).
  destruct (log2_ratio_spec n (Zpos d) Hn ltac:(lia)) as [_ Hup]. rewrite Pos2Z.id in Hup.
  set (e := exponent n (Zpos d)). exists (significand e n (Zpos d)), e. split_and!.
  - apply significand_ge; [lia|]. rewrite Pos2Z.id. apply Qlt_le_weak in Hq. by rewrite Qmult_0_l.
  - apply significand_le; [lia|]. rewrite Pos2Z.id. apply Qlt_le_weak, Qlt_le_trans with (1 := Hup).
    replace (2 ^ 53) with (2 ^ (e + 53 - e)) by (f_equal; lia). rewrite <- pow2_split by lia.
    apply pow2_le. unfold e, exponent. lia.
  - unfold e, exponent. lia.
  - apply rnd_pos_eq.
Qed.

(** ** The rounding lemmas the components use, on non-negative values *)

Lemma rnd_cases q : (0 <= q)%Q -> (q == 0)%Q /\ rnd q = 0%Q \/ (0 < q)%Q /\ rnd q = rnd_pos q.
Proof.
  destruct q as [n d]. unfold rnd, Qle, Qlt, Qeq. cbn [Qnum Qden]. intros H.
  destruct (Z.eqb_spec n 0) as [->|]; [by left|]. destruct (Z.ltb_spec 0 n); [right; split; [lia|done]|lia].
Qed.

Lemma representable_0 : representable 0%Q.
Proof. exists 0, 0. unfold min_exponent. split_and!; try lia. done. Qed.

Lemma rnd_ge q c : (0 <= c)%Q -> representable c -> (c <= q)%Q -> (c <= rnd q)%Q.
Proof.
  intros Hc Hr Hq. destruct (rnd_cases q) as [[E ->]|[Hp ->]]; [lra|lra|by apply rnd_pos_ge].
Qed.

Lemma rnd_le q c : (0 <= q)%Q -> representable c -> (q <= c)%Q -> (rnd q <= c)%Q.
Proof.
  intros Hp Hr Hq. destruct (rnd_cases q) as [[E ->]|[Hp' ->]]; [done|lra|by apply rnd_pos_le].
Qed.

Lemma rnd_representable q : (0 <= q)%Q -> representable (rnd q).
Proof.
  intros Hq. destruct (rnd_cases q Hq) as [[_ ->]|[Hp ->]]; [apply representable_0|by apply rnd_pos_representable].
Qed.

Lemma rnd_nonneg q : (0 <= q)%Q -> (0 <= rnd q)%Q.
Proof. intros. apply rnd_ge; [lra|apply representable_0|done]. Qed.

Lemma rnd_exact q : (0 <= q)%Q -> representable q -> (rnd q == q)%Q.
Proof. intros. apply Qle_antisym; [apply rnd_le|apply rnd_ge]; done || lra. Qed.

Lemma representable_int z : 0 <= z <= 2 ^ 53 -> representable (inject_Z z).
Proof. intros. exists z, 0. unfold min_exponent. split_and!; try lia. change (pow2 0) with 1%Q. ring. Qed.

Lemma of_int_exact z : 0 <= z <= 2 ^ 53 -> (of_int z == inject_Z z)%Q.
Proof.
  intros H. apply rnd_exact; [|by apply representable_int]. change 0%Q with (inject_Z 0). rewrite <- Zle_Qle. lia.
Qed.

Lemma fltb_spec a b : fltb a b = true <-> (a < b)%Q.
Proof.
  unfold fltb. rewrite negb_true_iff, <- not_true_iff_false, Qle_bool_iff. split; [apply Qnot_le_lt|apply Qlt_not_le].
Qed.

Lemma fltb_ge a b : fltb a b = false <-> (b <= a)%Q.
Proof. unfold fltb. rewrite negb_false_iff. apply Qle_bool_iff. Qed.

Lemma to_int_ge q z : 0 <= z -> (inject_Z z <= q)%Q -> z <= to_int q.
Proof.
  destruct q as [n d]. unfold to_int, Qle. cbn -[Z.mul]. intros Hz H.
  rewrite Z.quot_div_nonneg by nia. apply Z.div_le_lower_bound; lia.
Qed.

Lemma to_int_le q z : (0 <= q)%Q -> (q <= inject_Z z)%Q -> to_int q <= z.
Proof.
  destruct q as [n d]. unfold to_int, Qle. cbn -[Z.mul]. intros H0 H.
  rewrite Z.quot_div_nonneg by lia. apply Z.div_le_upper_bound; lia.
Qed.

#[export] Instance representable_proper : Proper (Qeq ==> iff) representable.
Proof.
  intros q r E. split; intros (m & e & Hm & He & Eq); exists m, e; split_and!; try lia;
    [by rewrite <- E|by rewrite E].
Qed.
