(* ===== verification/ZdtCongestion.v ===== *)
(** * Round-trip estimation and the congestion window (zdt_congestion.h, zdt_congestion.cc)

    Two state machines over doubles.  Time is in nanoseconds, the unit of
    [steady_clock]; the retransmit timeout is in milliseconds. *)

From S2P Require Import Prelude Binary64 ZdtWire.
From Stdlib Require Import QArith Qabs Lqa.

#[local] Open Scope Z_scope.

(** ** Constants (zdt_wire.h) *)

Definition kZDTRttMinWindowMs : Z := 10000.
Definition kZDTQueueingRttRatio : Q := 125 # 100.
Definition kZDTQueueingBackoff : Q := Eval vm_compute in rnd (85 # 100).
Definition kZDTQueueingTimeoutBackoff : Q := 1 # 2.
Definition kZDTLossTimeoutBackoff : Q := Eval vm_compute in rnd (9 # 10).
Definition kZDTMinWindow : Q := 2.
Definition kZDTQueueingWindowFloorMs : Z := 10.

Definition ns_per_ms : Z := 1000000.

(** [std::chrono::duration<double, std::milli>(ns)]. *)
Definition millis_of_ns (ns : Z) : Q := fdiv (of_int ns) (of_int ns_per_ms).

(** [compat::Clamp] *)
Definition Clamp (v lo hi : Z) : Z := if v <? lo then lo else if hi <? v then hi else v.

(** ** ZDTRttEstimator *)

Record ZDTRttEstimator := mkRtt {
  srtt_ms_ : Q;
  rttvar_ms_ : Q;
  rtt_min_ms_ : Q;
  rtt_min_stamp_ : Z;
  window_min_ms_ : Q;
  collecting_min_ms_ : Q;
  window_start_ : Z;
  has_rtt_ : bool;
  rto_ : Z
}.

Definition ZDTRttEstimator_default : ZDTRttEstimator := mkRtt 0 0 0 0 0 0 0 false 200.

Definition Rtt_Reset (r : ZDTRttEstimator) (rto : Z) : ZDTRttEstimator :=
  mkRtt (srtt_ms_ r) (rttvar_ms_ r) (rtt_min_ms_ r) (rtt_min_stamp_ r) (window_min_ms_ r)
    (collecting_min_ms_ r) (window_start_ r) (has_rtt_ r) rto.

(** The [else] branch of [OnSample]: every sample but the first. *)
Definition fold_sample (r : ZDTRttEstimator) (ms : Q) (now : Z) : ZDTRttEstimator :=
  let stale := kZDTRttMinWindowMs * ns_per_ms <? now - rtt_min_stamp_ r in
  let '(rtt_min, stamp) :=
    if fltb ms (rtt_min_ms_ r) || Qle_bool (rtt_min_ms_ r) 0 || stale
    then (ms, now) else (rtt_min_ms_ r, rtt_min_stamp_ r) in
  let rttvar := fadd (fmul (3 # 4) (rttvar_ms_ r)) (fmul (1 # 4) (ffabs (fsub (srtt_ms_ r) ms))) in
  let srtt := fadd (fmul (7 # 8) (srtt_ms_ r)) (fmul (1 # 8) ms) in
  let window_ms := fmax (fmul 2 srtt) (of_int kZDTQueueingWindowFloorMs) in
  let '(window_min, collecting, start) :=
    if negb (fltb (of_int (now - window_start_ r)) (fmul window_ms (of_int ns_per_ms)))
    then (collecting_min_ms_ r, ms, now)
    else if fltb ms (collecting_min_ms_ r) then (window_min_ms_ r, ms, window_start_ r)
    else (window_min_ms_ r, collecting_min_ms_ r, window_start_ r) in
  mkRtt srtt rttvar rtt_min stamp window_min collecting start (has_rtt_ r) (rto_ r).

Definition OnSample (r : ZDTRttEstimator) (sample now rto_min rto_max : Z) : ZDTRttEstimator :=
  let ms := millis_of_ns sample in
  if fltb ms 0 then r
  else
    let r :=
      if negb (has_rtt_ r)
      then mkRtt ms (fdiv ms 2) ms now (window_min_ms_ r) ms now true (rto_ r)
      else fold_sample r ms now in
    let rto := to_int (fadd (srtt_ms_ r) (fmul 4 (rttvar_ms_ r))) in
    Rtt_Reset r (Clamp rto rto_min rto_max).

Definition IsQueueing (r : ZDTRttEstimator) : bool :=
  has_rtt_ r && fltb 0 (rtt_min_ms_ r) && fltb 0 (window_min_ms_ r) &&
  fltb (fmul (rtt_min_ms_ r) kZDTQueueingRttRatio) (window_min_ms_ r).

(** ** ZDTCongestionController *)

Record ZDTCongestionController := mkController {
  cwnd_ : Q;
  ssthresh_ : Q;
  loss_recovery_until_ : Z;
  in_loss_recovery_ : bool
}.

Definition ZDTCongestionController_default : ZDTCongestionController := mkController 10 1000000000 0 false.

Definition OnAckArrived (c : ZDTCongestionController) (peer_ack : Z) : ZDTCongestionController :=
  if in_loss_recovery_ c && negb (SeqLess peer_ack (loss_recovery_until_ c))
  then mkController (cwnd_ c) (ssthresh_ c) (loss_recovery_until_ c) false
  else c.

Definition Reduce (c : ZDTCongestionController) (factor : Q) (next_seq : Z) : ZDTCongestionController :=
  if in_loss_recovery_ c then c
  else
    let cwnd := fmul (cwnd_ c) factor in
    mkController (if fltb cwnd kZDTMinWindow then kZDTMinWindow else cwnd) (cwnd_ c) next_seq true.

Definition OnAcked (c : ZDTCongestionController) (acked_datagrams : Z) (rtt : ZDTRttEstimator)
    (next_seq cap : Z) : ZDTCongestionController :=
  if acked_datagrams <=? 0 then c
  else if IsQueueing rtt && fltb (fmul 2 kZDTMinWindow) (cwnd_ c)
  then Reduce c kZDTQueueingBackoff next_seq
  else
    let cwnd :=
      if fltb (cwnd_ c) (ssthresh_ c)
      then fadd (cwnd_ c) (of_int acked_datagrams)
      else fadd (cwnd_ c) (fdiv (of_int acked_datagrams) (cwnd_ c)) in
    let cap_d := of_int cap in
    mkController (if fltb cap_d cwnd then cap_d else cwnd) (ssthresh_ c) (loss_recovery_until_ c) (in_loss_recovery_ c).

Definition OnRetransmitTimeout (c : ZDTCongestionController) (rtt : ZDTRttEstimator) (next_seq : Z) :
    ZDTCongestionController :=
  Reduce c (if IsQueueing rtt then kZDTQueueingTimeoutBackoff else kZDTLossTimeoutBackoff) next_seq.

Definition Window (c : ZDTCongestionController) (cap : Z) : Z :=
  let w := to_int (cwnd_ c) in
  if cap <? w then cap else w.

(** ** The controller's events, as the transport issues them *)

Inductive congestion_event :=
  | EvAckArrived (peer_ack : Z)
  | EvAcked (acked : Z) (rtt : ZDTRttEstimator) (next_seq : Z)
  | EvTimeout (rtt : ZDTRttEstimator) (next_seq : Z).

Definition congestion_step (cap : Z) (c : ZDTCongestionController) (ev : congestion_event) :
    ZDTCongestionController :=
  match ev with
  | EvAckArrived a => OnAckArrived c a
  | EvAcked n rtt s => OnAcked c n rtt s cap
  | EvTimeout rtt s => OnRetransmitTimeout c rtt s
  end.

Definition congestion_run (cap : Z) : ZDTCongestionController -> list congestion_event -> ZDTCongestionController :=
  foldl (congestion_step cap).

(** ** The window invariant *)

Record window_ok (c : ZDTCongestionController) : Prop := {
  wo_floor : (2 <= cwnd_ c)%Q;
  wo_repr : representable (cwnd_ c)
}.

Lemma representable_2 : representable kZDTMinWindow.
Proof. apply (representable_int 2). lia. Qed.

Lemma cap_repr cap : 2 <= cap < 2 ^ 31 -> (of_int cap == inject_Z cap)%Q /\ representable (of_int cap).
Proof.
  intros H. assert (E : (of_int cap == inject_Z cap)%Q) by (apply of_int_exact; lia). split; [done|].
  rewrite E. apply representable_int. lia.
Qed.

Lemma Reduce_ok c factor next_seq : (0 <= factor)%Q -> window_ok c -> window_ok (Reduce c factor next_seq).
Proof.
  intros Hf [Hw Hr]. unfold Reduce. destruct (in_loss_recovery_ c); [done|].
  assert (0 <= cwnd_ c * factor)%Q by (apply Qmult_le_0_compat; lra).
  destruct (fltb _ _) eqn:E; split; cbn [cwnd_].
  - unfold kZDTMinWindow. lra.
  - apply representable_2.
  - apply fltb_ge in E. done.
  - by apply rnd_representable.
Qed.

(** How much [OnAcked] adds, before rounding. *)
Lemma growth_nonneg c n : (2 <= cwnd_ c)%Q -> 0 < n ->
  (0 <= of_int n)%Q /\ (0 <= fdiv (of_int n) (cwnd_ c))%Q.
Proof.
  intros Hc Hn. assert (0 <= of_int n)%Q.
  { apply rnd_nonneg. change 0%Q with (inject_Z 0). rewrite <- Zle_Qle. lia. }
  split; [done|]. apply rnd_nonneg. unfold Qdiv. apply Qmult_le_0_compat; [done|].
  apply Qinv_le_0_compat. lra.
Qed.

Lemma grow_ok c x : window_ok c -> (0 <= x)%Q ->
  (cwnd_ c <= fadd (cwnd_ c) x)%Q /\ representable (fadd (cwnd_ c) x).
Proof.
  intros [Hw Hr] Hx. split; [apply rnd_ge; [lra|done|lra]|apply rnd_representable; lra].
Qed.

Lemma OnAcked_ok c n rtt next_seq cap :
  2 <= cap < 2 ^ 31 -> window_ok c -> window_ok (OnAcked c n rtt next_seq cap).
Proof.
  intros Hcap Hc. unfold OnAcked. destruct (Z.leb_spec n 0); [done|].
  destruct (_ && _); [apply Reduce_ok; [unfold kZDTQueueingBackoff; lra|done]|].
  destruct (cap_repr cap Hcap) as [Ec Rc]. destruct (growth_nonneg c n ltac:(apply Hc) ltac:(lia)) as [G1 G2].
  set (cwnd := if fltb (cwnd_ c) (ssthresh_ c) then _ else _).
  assert (Hcw : (cwnd_ c <= cwnd)%Q /\ representable cwnd) by (unfold cwnd; destruct (fltb _ _); by apply grow_ok).
  destruct Hcw, Hc. destruct (fltb (of_int cap) cwnd); split; cbn [cwnd_]; try done; [|lra].
  rewrite Ec. change 2%Q with (inject_Z 2). rewrite <- Zle_Qle. lia.
Qed.

Lemma congestion_step_ok cap c ev : 2 <= cap < 2 ^ 31 -> window_ok c -> window_ok (congestion_step cap c ev).
Proof.
  intros Hcap Hc. destruct ev as [a|n rtt s|rtt s]; cbn [congestion_step].
  - unfold OnAckArrived. destruct (_ && _); [|done]. by destruct Hc.
  - by apply OnAcked_ok.
  - apply Reduce_ok; [|done]. destruct (IsQueueing rtt); unfold kZDTQueueingTimeoutBackoff, kZDTLossTimeoutBackoff; lra.
Qed.

Lemma congestion_run_ok cap c evs : 2 <= cap < 2 ^ 31 -> window_ok c -> window_ok (congestion_run cap c evs).
Proof.
  intros Hcap. revert c. induction evs as [|ev evs IH]; intros c Hc; [done|].
  apply IH. by apply congestion_step_ok.
Qed.

Lemma initial_window_ok : window_ok ZDTCongestionController_default.
Proof. split; cbn; [lra|apply (representable_int 10); lia]. Qed.

Lemma Window_range c cap : 2 <= cap -> (2 <= cwnd_ c)%Q -> 2 <= Window c cap <= cap.
Proof.
  intros Hcap Hc. unfold Window. assert (2 <= to_int (cwnd_ c)) by (apply to_int_ge; [lia|done]).
  destruct (Z.ltb_spec cap (to_int (cwnd_ c))); lia.
Qed.

(** ** One reduction per loss epoch *)

(** The events of one epoch: every ack that arrives is for something sent before
    it opened. *)
Definition within_epoch (c : ZDTCongestionController) (ev : congestion_event) : Prop :=
  match ev with
  | EvAckArrived a => SeqLess a (loss_recovery_until_ c) = true
  | _ => True
  end.

Record same_epoch (cap : Z) (c c' : ZDTCongestionController) : Prop := {
  se_grows : (cwnd_ c <= cwnd_ c')%Q;
  se_cap : (cwnd_ c' <= inject_Z cap)%Q;
  se_ssthresh : ssthresh_ c' = ssthresh_ c;
  se_until : loss_recovery_until_ c' = loss_recovery_until_ c;
  se_in : in_loss_recovery_ c' = true
}.

Lemma epoch_step cap c c' ev :
  2 <= cap < 2 ^ 31 -> window_ok c' -> same_epoch cap c c' -> within_epoch c ev ->
  same_epoch cap c (congestion_step cap c' ev).
Proof.
  intros Hcap Hok [Hg Hc Hs Hu Hi] Hev. destruct ev as [a|n rtt s|rtt s]; cbn [congestion_step within_epoch] in *.
  - unfold OnAckArrived. rewrite Hu, Hev, andb_false_r. done.
  - unfold OnAcked, Reduce. rewrite Hi. destruct (Z.leb_spec n 0); [done|]. destruct (_ && _); [done|].
    destruct (cap_repr cap Hcap) as [Ec Rc]. destruct (growth_nonneg c' n ltac:(apply Hok) ltac:(lia)) as [G1 G2].
    set (cwnd := if fltb (cwnd_ c') (ssthresh_ c') then _ else _).
    assert (cwnd_ c' <= cwnd)%Q by (unfold cwnd; destruct (fltb _ _); by apply grow_ok).
    destruct (fltb (of_int cap) cwnd) eqn:E; split; cbn [cwnd_ ssthresh_ loss_recovery_until_ in_loss_recovery_]; try done.
    + rewrite Ec. lra.
    + rewrite Ec. lra.
    + lra.
    + apply fltb_ge in E. rewrite Ec in E. done.
  - unfold OnRetransmitTimeout, Reduce. by rewrite Hi.
Qed.

Lemma epoch_run cap c c' evs :
  2 <= cap < 2 ^ 31 -> window_ok c' -> same_epoch cap c c' -> Forall (within_epoch c) evs ->
  same_epoch cap c (congestion_run cap c' evs).
Proof.
  intros Hcap Hok Hs Hev. revert c' Hok Hs. induction Hev as [|ev evs He _ IH]; intros c' Hok Hs; [done|].
  apply IH; [by apply congestion_step_ok|by apply epoch_step].
Qed.

(** ** The estimator's invariant

    Samples are non-negative 64-bit nanosecond counts, so no value passes 2^44
    milliseconds. *)

Definition ms_bound : Q := inject_Z (2 ^ 44).

Record rtt_ok (r : ZDTRttEstimator) : Prop := {
  ro_srtt : (0 <= srtt_ms_ r <= ms_bound)%Q;
  ro_rttvar : (0 <= rttvar_ms_ r <= ms_bound)%Q
}.

Lemma inject_nonneg z : 0 <= z -> (0 <= inject_Z z)%Q.
Proof. intros. change 0%Q with (inject_Z 0). by rewrite <- Zle_Qle. Qed.

Lemma representable_bound k : 0 <= k <= 53 -> representable (inject_Z (2 ^ k)).
Proof.
  intros H. apply representable_int. split; [apply Z.pow_nonneg; lia|]. apply Z.pow_le_mono_r; lia.
Qed.

Lemma millis_of_ns_range n : 0 <= n < 2 ^ 63 -> (0 <= millis_of_ns n <= ms_bound)%Q.
Proof.
  intros Hn. unfold millis_of_ns, fdiv.
  assert (Ed : (of_int ns_per_ms == 1000000)%Q) by (apply of_int_exact; unfold ns_per_ms; lia).
  assert (H63 : representable (inject_Z (2 ^ 63))).
  { exists (2 ^ 52), 11. unfold min_exponent. split_and!; try lia. done. }
  assert (Hi : (0 <= of_int n <= inject_Z (2 ^ 63))%Q).
  { split; [apply rnd_nonneg; apply inject_nonneg; lia|].
    apply rnd_le; [apply inject_nonneg; lia|done|]. rewrite <- Zle_Qle. lia. }
  assert (E : (of_int n / of_int ns_per_ms == of_int n * (1 # 1000000))%Q) by (rewrite Ed; reflexivity).
  destruct Hi as [Hi1 Hi2].
  assert (Hm : (0 <= of_int n / of_int ns_per_ms)%Q) by (rewrite E; lra).
  split; [by apply rnd_nonneg|]. apply rnd_le; [done|by apply representable_bound|].
  rewrite E. unfold ms_bound. change (inject_Z (2 ^ 63)) with 9223372036854775808%Q in *.
  change (inject_Z (2 ^ 44)) with 17592186044416%Q. lra.
Qed.

(** A difference of two values in range, rounded, in absolute value. *)
Lemma abs_diff_range a b : (0 <= a <= ms_bound)%Q -> (0 <= b <= ms_bound)%Q ->
  (0 <= ffabs (fsub a b) <= ms_bound)%Q.
Proof.
  intros Ha Hb. split; [apply Qabs_nonneg|]. unfold ffabs, fsub.
  destruct (Qlt_le_dec (a - b) 0) as [Hneg|Hpos].
  - assert (E : rnd (a - b) = (- rnd_pos (- (a - b)))%Q).
    { unfold rnd, Qlt in *. simpl Qnum in Hneg. cbn -[Z.mul] in Hneg.
      destruct (Z.eqb_spec (Qnum (a - b)) 0), (Z.ltb_spec 0 (Qnum (a - b))); try done; cbn -[Z.mul] in *; lia. }
    rewrite E, Qabs_opp, Qabs_pos.
    + apply rnd_pos_le; [lra|by apply representable_bound|unfold ms_bound in *; lra].
    + apply rnd_pos_ge; [lra|apply representable_0|lra].
  - rewrite Qabs_pos by (by apply rnd_nonneg). apply rnd_le; [done|by apply representable_bound|unfold ms_bound in *; lra].
Qed.

(** A weighted mean of values in range, each product rounded, stays in range. *)
Lemma mean_range (k : Q) a b (m : Z) :
  (0 <= m <= 8) -> (k == m # 8)%Q -> (0 <= a <= ms_bound)%Q -> (0 <= b <= ms_bound)%Q ->
  (0 <= fadd (fmul k a) (fmul (1 - k) b) <= ms_bound)%Q.
Proof.
  intros Hm Hk Ha Hb. unfold ms_bound in *. change (inject_Z (2 ^ 44)) with 17592186044416%Q in *.
  assert (Hk01 : (0 <= k <= 1)%Q) by (rewrite Hk; unfold Qle; simpl; lia).
  assert (R : forall j, 0 <= j <= 8 -> representable ((j # 8) * 17592186044416)%Q).
  { intros j Hj. assert (E : ((j # 8) * 17592186044416 == inject_Z (j * 2199023255552))%Q) by (unfold Qeq; simpl; lia).
    rewrite E. apply representable_int. lia. }
  assert (A : (0 <= fmul k a <= k * 17592186044416)%Q).
  { split; [apply rnd_nonneg; nra|]. apply rnd_le; [nra| |nra]. rewrite Hk. by apply R. }
  assert (B : (0 <= fmul (1 - k) b <= (1 - k) * 17592186044416)%Q).
  { split; [apply rnd_nonneg; nra|]. apply rnd_le; [nra| |nra].
    assert (E : (1 - k == (8 - m) # 8)%Q) by (rewrite Hk; unfold Qeq; simpl; lia). rewrite E. apply R. lia. }
  split; [apply rnd_nonneg; lra|]. apply rnd_le; [lra| |lra]. apply (representable_bound 44). lia.
Qed.

Lemma fold_sample_ok r ms now : rtt_ok r -> (0 <= ms <= ms_bound)%Q -> rtt_ok (fold_sample r ms now).
Proof.
  intros [Hs Hv] Hm. unfold fold_sample. destruct (_ || _ || _), (negb _); try destruct (fltb ms (collecting_min_ms_ r));
    split; cbn [srtt_ms_ rttvar_ms_];
    first [ apply (mean_range (7 # 8) _ _ 7); first [done | lia]
          | apply (mean_range (3 # 4) _ _ 6); first [done | lia | by apply abs_diff_range] ].
Qed.

Lemma half_range q : (0 <= q <= ms_bound)%Q -> (0 <= fdiv q 2 <= ms_bound)%Q.
Proof.
  intros [Hq Hq']. assert (E : (q / 2 == q * (1 # 2))%Q) by reflexivity.
  assert (0 <= q / 2)%Q by (rewrite E; lra).
  split; [by apply rnd_nonneg|]. apply rnd_le; [done|by apply representable_bound|].
  rewrite E. unfold ms_bound in *. lra.
Qed.

(** The value [OnSample] converts to [long long]. *)
Lemma rto_range r : rtt_ok r -> 0 <= to_int (fadd (srtt_ms_ r) (fmul 4 (rttvar_ms_ r))) <= 2 ^ 47.
Proof.
  intros [Hs Hv]. unfold ms_bound in *. change (inject_Z (2 ^ 44)) with 17592186044416%Q in *.
  assert (B4 : (0 <= fmul 4 (rttvar_ms_ r) <= inject_Z (2 ^ 46))%Q).
  { change (inject_Z (2 ^ 46)) with 70368744177664%Q. split; [apply rnd_nonneg; lra|].
    apply rnd_le; [lra|apply (representable_bound 46); lia|lra]. }
  change (inject_Z (2 ^ 46)) with 70368744177664%Q in B4.
  assert (S : (0 <= fadd (srtt_ms_ r) (fmul 4 (rttvar_ms_ r)) <= inject_Z (2 ^ 47))%Q).
  { change (inject_Z (2 ^ 47)) with 140737488355328%Q. split; [apply rnd_nonneg; lra|].
    apply rnd_le; [lra|apply (representable_bound 47); lia|lra]. }
  split; [apply to_int_ge; [lia|apply S]|apply to_int_le; apply S].
Qed.

Lemma OnSample_ok r sample now rto_min rto_max :
  rtt_ok r -> 0 <= sample < 2 ^ 63 -> rtt_ok (OnSample r sample now rto_min rto_max).
Proof.
  intros Hr Hs. pose proof (millis_of_ns_range sample Hs) as Hm. unfold OnSample.
  destruct (fltb _ 0); [done|]. destruct (has_rtt_ r); cbn [negb].
  - destruct (fold_sample_ok r (millis_of_ns sample) now Hr Hm). by split.
  - split; cbn [Rtt_Reset srtt_ms_ rttvar_ms_]; [done|by apply half_range].
Qed.

Lemma Clamp_range v lo hi : lo <= hi -> lo <= Clamp v lo hi <= hi.
Proof. intros. unfold Clamp. destruct (Z.ltb_spec v lo), (Z.ltb_spec hi v); lia. Qed.

(** ** The two windows of samples

    Ghost state: the samples of the window being collected, and those of the
    last full one, split where [fold_sample] splits them. *)

Definition closes (r : ZDTRttEstimator) (ms : Q) (now : Z) : bool :=
  let srtt := fadd (fmul (7 # 8) (srtt_ms_ r)) (fmul (1 # 8) ms) in
  let window_ms := fmax (fmul 2 srtt) (of_int kZDTQueueingWindowFloorMs) in
  negb (fltb (of_int (now - window_start_ r)) (fmul window_ms (of_int ns_per_ms))).

Definition split_windows (r : ZDTRttEstimator) (ms : Q) (now : Z) (w : list Q * list Q) : list Q * list Q :=
  if negb (has_rtt_ r) then ([ms], w.2)
  else if closes r ms now then ([ms], w.1) else (ms :: w.1, w.2).

(** One call of [OnSample] with the windows kept beside it. *)
Definition sample_step (rto_min rto_max : Z) (s : ZDTRttEstimator * (list Q * list Q)) (ev : Z * Z) :
    ZDTRttEstimator * (list Q * list Q) :=
  (OnSample s.1 ev.1 ev.2 rto_min rto_max, split_windows s.1 (millis_of_ns ev.1) ev.2 s.2).

Definition smallest (q : Q) (l : list Q) : Prop := q ∈ l /\ Forall (fun x => (q <= x)%Q) l.

Record windows_ok (r : ZDTRttEstimator) (w : list Q * list Q) : Prop := {
  wk_cur : has_rtt_ r = true -> smallest (collecting_min_ms_ r) w.1;
  wk_last : smallest (window_min_ms_ r) w.2 \/ w.2 = [] /\ window_min_ms_ r = 0%Q
}.

Lemma smallest_one q : smallest q [q].
Proof. split; [by apply list_elem_of_singleton|]. repeat constructor. lra. Qed.

Lemma smallest_cons q x l : smallest q l -> smallest (if fltb x q then x else q) (x :: l).
Proof.
  intros [HI HF]. destruct (fltb x q) eqn:E.
  - apply fltb_spec in E. split; [left|]. constructor; [lra|]. eapply Forall_impl; [done|]. simpl. intros. lra.
  - apply fltb_ge in E. split; [by right|]. by constructor.
Qed.

Lemma sample_step_ok rto_min rto_max s ev :
  0 <= ev.1 < 2 ^ 63 -> windows_ok s.1 s.2 ->
  windows_ok (sample_step rto_min rto_max s ev).1 (sample_step rto_min rto_max s ev).2 /\
  has_rtt_ (sample_step rto_min rto_max s ev).1 = true.
Proof.
  destruct s as [r w], ev as [sample now]. cbn [fst snd sample_step]. intros Hs [Hc Hl].
  destruct (millis_of_ns_range sample Hs) as [Hm _]. unfold OnSample, split_windows.
  destruct (fltb _ 0) eqn:Eneg; [apply fltb_spec in Eneg; lra|].
  destruct (has_rtt_ r) eqn:Eh; cbn [negb].
  - set (ms := millis_of_ns sample). unfold fold_sample. fold (closes r ms now).
    specialize (Hc eq_refl). pose proof (smallest_cons _ ms _ Hc) as Hcons.
    destruct (closes r ms now) eqn:Ecl, (_ || _ || _);
      try destruct (fltb ms (collecting_min_ms_ r)); cbn [Rtt_Reset has_rtt_]; (split; [|done]);
      split; cbn [fst snd Rtt_Reset collecting_min_ms_ window_min_ms_]; auto using smallest_one.
  - cbn [Rtt_Reset has_rtt_]. split; [|done]. split; cbn [fst snd Rtt_Reset collecting_min_ms_ window_min_ms_].
    + intros _. apply smallest_one.
    + done.
Qed.

Lemma rtt_min_le_sample r sample now rto_min rto_max :
  0 <= sample < 2 ^ 63 -> (rtt_min_ms_ (OnSample r sample now rto_min rto_max) <= millis_of_ns sample)%Q.
Proof.
  intros Hs. destruct (millis_of_ns_range sample Hs) as [Hm _]. unfold OnSample.
  destruct (fltb _ 0) eqn:Eneg; [apply fltb_spec in Eneg; lra|].
  destruct (has_rtt_ r); cbn [negb Rtt_Reset rtt_min_ms_]; [|lra]. unfold fold_sample.
  destruct (fltb (millis_of_ns sample) (rtt_min_ms_ r)) eqn:E; cbn [orb].
  - destruct (negb _); [|destruct (fltb _ (collecting_min_ms_ r))]; cbn [rtt_min_ms_]; lra.
  - apply fltb_ge in E. destruct (_ || _), (negb _); try destruct (fltb _ (collecting_min_ms_ r)); cbn [rtt_min_ms_]; lra.
Qed.

Lemma Reduce_shrinks c factor s : (0 <= factor <= 1)%Q -> window_ok c -> (cwnd_ (Reduce c factor s) <= cwnd_ c)%Q.
Proof.
  intros [Hf0 Hf1] [Hw Hr]. unfold Reduce. destruct (in_loss_recovery_ c); [lra|].
  destruct (fltb _ _) eqn:E; cbn [cwnd_]; [unfold kZDTMinWindow; lra|].
  apply rnd_le; [apply Qmult_le_0_compat; lra|done|]. nra.
Qed.

(** ** Theorems *)

(** The window always permits progress and never passes its ceiling: after
    any history of acknowledgments, queueing back-offs and retransmit timeouts,
    at least two datagrams are allowed in flight and at most [cap]. *)
Theorem window_bounds (cap : Z) (evs : list congestion_event) (Hcap : 2 <= cap < 2 ^ 31) :
  2 <= Window (congestion_run cap ZDTCongestionController_default evs) cap <= cap.
Proof.
  apply Window_range; [lia|]. apply congestion_run_ok; [done|apply initial_window_ok].
Qed.

Lemma window_bounds_witness :
  2 <= Window (congestion_run 64 ZDTCongestionController_default
    [EvTimeout ZDTRttEstimator_default 7; EvAckArrived 9; EvAcked 3 ZDTRttEstimator_default 12]) 64 <= 64.
Proof. apply window_bounds. lia. Defined.

(** One reduction per loss epoch.  The timeout that opens an epoch shrinks the
    window and remembers it as the slow-start threshold; however many further
    timeouts, queueing verdicts and acknowledgments of older packets follow, the
    window never shrinks again before something sent after the loss is
    acknowledged. *)
Theorem one_reduction_per_epoch (cap : Z) (c : ZDTCongestionController) (rtt : ZDTRttEstimator) (next_seq : Z)
  (evs : list congestion_event) (Hcap : 2 <= cap < 2 ^ 31) (Hc : window_ok c) (Hle : (cwnd_ c <= inject_Z cap)%Q)
  (Hout : in_loss_recovery_ c = false)
  (Hev : Forall (within_epoch (OnRetransmitTimeout c rtt next_seq)) evs) :
  let opened := OnRetransmitTimeout c rtt next_seq in
  let later := congestion_run cap opened evs in
  (cwnd_ opened <= cwnd_ c)%Q /\ (cwnd_ opened <= cwnd_ later)%Q /\ (cwnd_ later <= inject_Z cap)%Q /\
  ssthresh_ later = cwnd_ c /\ in_loss_recovery_ later = true.
Proof.
  intros opened later.
  assert (Hf : (0 <= (if IsQueueing rtt then kZDTQueueingTimeoutBackoff else kZDTLossTimeoutBackoff) <= 1)%Q)
    by (destruct (IsQueueing rtt); unfold kZDTQueueingTimeoutBackoff, kZDTLossTimeoutBackoff; lra).
  assert (Hsh : (cwnd_ opened <= cwnd_ c)%Q) by (by apply Reduce_shrinks).
  assert (Hfresh : ssthresh_ opened = cwnd_ c /\ in_loss_recovery_ opened = true)
    by (unfold opened, OnRetransmitTimeout, Reduce; by rewrite Hout).
  destruct (epoch_run cap opened opened evs) as [G C T _ I]; try done.
  - apply Reduce_ok; [apply Hf|done].
  - split; try done; lra || apply Hfresh.
  - fold later in G, C, T, I. split_and!; try done. by rewrite T, (proj1 Hfresh).
Qed.

Lemma one_reduction_per_epoch_witness :
  let opened := OnRetransmitTimeout ZDTCongestionController_default ZDTRttEstimator_default 7 in
  let later := congestion_run 64 opened [EvTimeout ZDTRttEstimator_default 8; EvAckArrived 6] in
  (cwnd_ opened <= cwnd_ ZDTCongestionController_default)%Q /\ (cwnd_ opened <= cwnd_ later)%Q /\
  (cwnd_ later <= inject_Z 64)%Q /\ ssthresh_ later = cwnd_ ZDTCongestionController_default /\
  in_loss_recovery_ later = true.
Proof.
  apply (one_reduction_per_epoch 64 ZDTCongestionController_default ZDTRttEstimator_default 7
    [EvTimeout ZDTRttEstimator_default 8; EvAckArrived 6]).
  - lia.
  - apply initial_window_ok.
  - unfold Qle. simpl. lia.
  - reflexivity.
  - repeat constructor.
Defined.

(** Every round-trip sample leaves a usable retransmit timeout: the value cast
    to an integer fits (it is at most 2^47), the timeout ends between the
    configured bounds, and the round-trip floor is not above the sample. *)
Theorem OnSample_rto_bounds (r : ZDTRttEstimator) (sample now rto_min rto_max : Z)
  (Hr : rtt_ok r) (Hs : 0 <= sample < 2 ^ 63) (Hb : rto_min <= rto_max) :
  let r' := OnSample r sample now rto_min rto_max in
  rtt_ok r' /\ 0 <= to_int (fadd (srtt_ms_ r') (fmul 4 (rttvar_ms_ r'))) <= 2 ^ 47 /\
  rto_min <= rto_ r' <= rto_max /\ (rtt_min_ms_ r' <= millis_of_ns sample)%Q.
Proof.
  intros r'. pose proof (OnSample_ok r sample now rto_min rto_max Hr Hs) as Hok. fold r' in Hok.
  split_and!; [done|by apply rto_range..| | |by apply rtt_min_le_sample].
  all: unfold r', OnSample; destruct (fltb _ 0) eqn:E;
    [apply fltb_spec in E; destruct (millis_of_ns_range sample Hs); lra|]; cbn [Rtt_Reset rto_]; by apply Clamp_range.
Qed.

Lemma OnSample_rto_bounds_witness :
  let r' := OnSample ZDTRttEstimator_default 30000000 5 100 3000 in
  rtt_ok r' /\ 0 <= to_int (fadd (srtt_ms_ r') (fmul 4 (rttvar_ms_ r'))) <= 2 ^ 47 /\
  100 <= rto_ r' <= 3000 /\ (rtt_min_ms_ r' <= millis_of_ns 30000000)%Q.
Proof.
  apply (OnSample_rto_bounds ZDTRttEstimator_default 30000000 5 100 3000).
  - split; split; unfold Qle; simpl; lia.
  - lia.
  - lia.
Defined.

(** A queueing verdict needs a whole window of slow round trips: if
    [IsQueueing] holds after any run of samples, then a full window has been
    collected and every sample in it was above the floor by the ratio.  A single
    late acknowledgment in a window of fast ones never counts as a queue. *)
Theorem queueing_needs_full_window (rto_min rto_max : Z) (evs : list (Z * Z))
  (Hev : Forall (fun ev => 0 <= ev.1 < 2 ^ 63) evs) :
  let '(r, (_, last)) := foldl (sample_step rto_min rto_max) (ZDTRttEstimator_default, ([], [])) evs in
  IsQueueing r = true ->
  last <> [] /\ Forall (fun ms => (fmul (rtt_min_ms_ r) kZDTQueueingRttRatio < ms)%Q) last.
Proof.
  assert (Hrun : forall s, windows_ok s.1 s.2 ->
    windows_ok (foldl (sample_step rto_min rto_max) s evs).1 (foldl (sample_step rto_min rto_max) s evs).2).
  { induction Hev as [|ev evs' He _ IH]; intros s Hs; [done|]. apply IH. by apply sample_step_ok. }
  specialize (Hrun (ZDTRttEstimator_default, ([], []))).
  destruct (foldl _ _ evs) as [r [cur last]]. cbn [fst snd] in Hrun.
  destruct Hrun as [_ Hl]. { split; [done|by right]. }
  unfold IsQueueing. rewrite !andb_true_iff, !fltb_spec. intros [[_ Hpos] Hq]. cbn [snd] in Hl.
  destruct Hl as [[HI HF]|[_ E]]; [|rewrite E in Hpos; lra].
  split; [by intros ->; apply not_elem_of_nil in HI|].
  eapply Forall_impl; [done|]. simpl. intros ms Hms. lra.
Qed.

Lemma queueing_needs_full_window_witness :
  let '(r, (_, last)) := foldl (sample_step 100 3000) (ZDTRttEstimator_default, ([], []))
    [(10000000, 0); (30000000, 50000000); (30000000, 51000000); (31000000, 200000000)] in
  IsQueueing r = true ->
  last <> [] /\ Forall (fun ms => (fmul (rtt_min_ms_ r) kZDTQueueingRttRatio < ms)%Q) last.
Proof.
  apply (queueing_needs_full_window 100 3000
    [(10000000, 0); (30000000, 50000000); (30000000, 51000000); (31000000, 200000000)]).
  repeat constructor; simpl; lia.
Defined.

(** The witness's verdict is a real one: the two slow samples make a queue. *)
Example queueing_example :
  IsQueueing (foldl (sample_step 100 3000) (ZDTRttEstimator_default, ([], []))
    [(10000000, 0); (30000000, 50000000); (30000000, 51000000); (31000000, 200000000)]).1 = true.
Proof. vm_compute. reflexivity. Qed.
