(* ===== verification/ZdtOptions.v ===== *)
(** * Options and connection parameters (send_options.h, options.h, zdt_connection.h)

    What a caller asks of one message, the tunables of the transport, and the
    parameters the handshake settles. *)

From S2P Require Import Prelude.

(** ** SendOptions *)

Inductive OptionKey := ReliableKey | OrderedKey | ChannelKey.

Definition key_id (k : OptionKey) : Z :=
  match k with ReliableKey => 0 | OrderedKey => 1 | ChannelKey => 2 end.

(** [Key::type]: two options are booleans, the channel a byte. *)
Definition key_type (k : OptionKey) : Type :=
  match k with ReliableKey | OrderedKey => bool | ChannelKey => Z end.

Record SendOptions := mkSendOptions {
  bitmask_ : Z;
  so_reliable : bool;
  so_ordered : bool;
  so_channel : Z
}.

Definition SendOptions_default : SendOptions := mkSendOptions 0 true true 0.

Definition key_bit (k : OptionKey) : Z := Z.shiftl 1 (key_id k).

(** The constructor from a [SendOptionsInit]. *)
Definition SendOptions_init (reliable ordered : bool) (channel : Z) : SendOptions :=
  mkSendOptions (Z.lor (Z.lor (key_bit ReliableKey) (key_bit OrderedKey)) (key_bit ChannelKey))
    reliable ordered channel.

Definition Reliable (value : bool) (o : SendOptions) : SendOptions :=
  mkSendOptions (Z.lor (bitmask_ o) (key_bit ReliableKey)) value (so_ordered o) (so_channel o).

Definition Ordered (value : bool) (o : SendOptions) : SendOptions :=
  mkSendOptions (Z.lor (bitmask_ o) (key_bit OrderedKey)) (so_reliable o) value (so_channel o).

Definition Channel (value : Z) (o : SendOptions) : SendOptions :=
  mkSendOptions (Z.lor (bitmask_ o) (key_bit ChannelKey)) (so_reliable o) (so_ordered o) value.

Definition Get (k : OptionKey) (o : SendOptions) : key_type k :=
  match k with ReliableKey => so_reliable o | OrderedKey => so_ordered o | ChannelKey => so_channel o end.

Definition Set_ (k : OptionKey) : key_type k -> SendOptions -> SendOptions :=
  match k with ReliableKey => Reliable | OrderedKey => Ordered | ChannelKey => Channel end.

Definition Has (k : OptionKey) (o : SendOptions) : bool := has_flag (bitmask_ o) (key_bit k).

Definition GetOr (k : OptionKey) (def : key_type k) (o : SendOptions) : key_type k :=
  if Has k o then Get k o else def.

(** ** Tunables *)

Record MTULadder := mkLadder { rungs : list Z; ladder_count : Z }.

Definition ladder_capacity : Z := 4.

Definition MTULadder_default : MTULadder := mkLadder [1492; 1200; 576; 0] 3.

Definition MTULadder_Set (l : MTULadder) (values : list Z) : MTULadder :=
  foldl (fun l v => if ladder_count l =? ladder_capacity then l
                    else mkLadder (<[Z.to_nat (ladder_count l) := v]> (rungs l)) (ladder_count l + 1))
    (mkLadder (rungs l) 0) values.

Definition MTULadder_back (l : MTULadder) : Z :=
  default 0 (rungs l !! Z.to_nat (if ladder_count l =? 0 then 0 else ladder_count l - 1)).

(** Durations in milliseconds; the socket buffer sizes, which only the operating
    system reads, are left out. *)
Record ZDTOptions := mkZDTOptions {
  mtu_ladder : MTULadder;
  rto_min : Z;
  rto_max : Z;
  max_retries : Z;
  max_datagrams_in_flight : Z;
  max_messages_in_flight : Z;
  handshake_retransmit : Z;
  handshake_retries_per_rung : Z;
  cookie_secret_rotation : Z;
  max_connections : Z;
  per_source_handshake_rate : Z;
  enable_connection_migration : bool;
  reassembly_timeout : Z;
  max_reassembly_bytes : Z;
  max_inbox_datagrams : Z;
  outbound_queue_capacity : Z;
  max_reassemblies : Z
}.

Definition ZDTOptions_default : ZDTOptions :=
  mkZDTOptions MTULadder_default 100 2000 10 512 4096 250 4 120000 4096 20 false 5000 (16 * 1024 * 1024) 4096 4096 256.

Record CommonOptions := mkCommon { idle_timeout : Z; keepalive_interval : Z }.

Definition CommonOptions_default : CommonOptions := mkCommon 10000 1000.

Record ZDTConnection := mkConnection {
  conn_mtu : Z;
  local_guid : Z;
  remote_guid : Z;
  migration_enabled : bool;
  relay_channel : Z
}.

Definition ZDTConnection_default : ZDTConnection := mkConnection 1200 0 0 false 0.

(** ** Options set and read back *)

Lemma has_flag_lor a m n : has_flag (Z.lor a m) n = has_flag a n || has_flag m n.
Proof.
  unfold has_flag. rewrite Z.land_lor_distr_l.
  destruct (Z.eqb_spec (Z.land a n) 0) as [Ea|Ea], (Z.eqb_spec (Z.land m n) 0) as [Em|Em]; cbn [negb orb].
  - by rewrite Ea, Em.
  - rewrite Ea, Z.lor_0_l. by destruct (Z.eqb_spec (Z.land m n) 0).
  - rewrite Em, Z.lor_0_r. by destruct (Z.eqb_spec (Z.land a n) 0).
  - destruct (Z.eqb_spec (Z.lor (Z.land a n) (Z.land m n)) 0) as [E|]; [|done].
    by apply Z.lor_eq_0_iff in E as [? _].
Qed.

Lemma Set_bits k v o : bitmask_ (Set_ k v o) = Z.lor (bitmask_ o) (key_bit k).
Proof. by destruct k. Qed.

(** Message options are independent: setting one makes exactly that one read
    back as set, with the value given, and leaves what any other key reads,
    whether it was set or falls back to the transport's default, as it was. *)
Theorem SendOptions_independent (k k' : OptionKey) (v : key_type k) (o : SendOptions) (def : key_type k') (def0 : key_type k) :
  GetOr k def0 (Set_ k v o) = v /\ (k <> k' -> GetOr k' def (Set_ k v o) = GetOr k' def o).
Proof.
  unfold GetOr, Has. rewrite Set_bits, !has_flag_lor. split.
  - destruct k; rewrite orb_true_r; reflexivity.
  - intros Hk. destruct k, k'; try done; rewrite orb_false_r; reflexivity.
Qed.

Lemma SendOptions_independent_witness :
  GetOr ChannelKey 0 (Set_ ChannelKey 7 SendOptions_default) = 7 /\
  (ChannelKey <> ReliableKey ->
    GetOr ReliableKey true (Set_ ChannelKey 7 SendOptions_default) = GetOr ReliableKey true SendOptions_default).
Proof. apply (SendOptions_independent ChannelKey ReliableKey 7 SendOptions_default true 0). Defined.
