(* ===== verification/MpscQueue.v ===== *)
(** * The bounded queue between producers and the worker (mpsc_queue.h)

    A ring of cells with sequence numbers, many producers and one consumer.  The
    operations are split at their atomic accesses, so that threads interleave
    between any two of them; memory is sequentially consistent, which the
    acquire/release pairs on [sequence] justify for the cell's value.

    Positions are 64-bit and only ever grow; the theorems cover runs of fewer
    than 2^63 pushes. *)

From S2P Require Import Prelude.

Module Mpsc.

(** [limit] is half of what a [size_t] holds; doubling from 2 reaches it in 62
    steps. *)
Fixpoint round_up (fuel : nat) (value slots : Z) : Z :=
  match fuel with
  | O => slots
  | S fuel => if (slots <? value) && (slots <? 2 ^ 63) then round_up fuel value (2 * slots) else slots
  end.

Definition RoundUpPowerOfTwo (value : Z) : Z := round_up 62 value 2.

(** A queue holds at least what was asked for, up to [limit]. *)
Lemma round_up_least fuel value k : 0 <= k -> k + Z.of_nat fuel = 63 -> Z.min value (2 ^ 63) <= round_up fuel value (2 ^ k).
Proof.
  revert k. induction fuel as [|fuel IH]; intros k Hk Hf; cbn [round_up]; [replace k with 63 by lia; lia|].
  destruct (Z.ltb_spec (2 ^ k) value), (Z.ltb_spec (2 ^ k) (2 ^ 63)); cbn [andb]; try lia.
  rewrite <- Z.pow_succ_r by done. apply IH; lia.
Qed.

Lemma RoundUpPowerOfTwo_least value : Z.min value (2 ^ 63) <= RoundUpPowerOfTwo value.
Proof. apply (round_up_least 62 value 1); lia. Qed.

Definition kBehind : Z := size_max / 2.

Section Queue.
Context {T : Type} (dflt : T).

Record Cell := mkCell { sequence : Z; value : T }.

Record MpscQueue := mkQueue {
  cells_ : list Cell;
  mask_ : Z;
  enqueue_ : Z;
  dequeue_ : Z
}.

Definition MpscQueue_new (capacity : Z) : MpscQueue :=
  let slots := RoundUpPowerOfTwo capacity in
  mkQueue ((fun i => mkCell (Z.of_nat i) dflt) <$> seq 0 (Z.to_nat slots)) (slots - 1) 0 0.

Definition capacity (q : MpscQueue) : Z := mask_ q + 1.

Definition slot (q : MpscQueue) (pos : Z) : nat := Z.to_nat (Z.land pos (mask_ q)).

Definition cell_at (q : MpscQueue) (pos : Z) : Cell := default (mkCell 0 dflt) (cells_ q !! slot q pos).

Definition set_cell (pos : Z) (c : Cell) (q : MpscQueue) : MpscQueue :=
  mkQueue (<[slot q pos := c]> (cells_ q)) (mask_ q) (enqueue_ q) (dequeue_ q).

(** ** A producer inside [Push] *)

Inductive Producer :=
  | PLoaded (pos : Z) (v : T)     (* the top of the loop, [pos] read *)
  | PClaiming (pos : Z) (v : T)   (* [distance == 0]: about to compare-exchange *)
  | PClaimed (pos : Z) (v : T)    (* the position is this producer's *)
  | PCounted (pos : Z) (v : T) (queued : Z)  (* [out_queued] read *)
  | PStored (pos : Z) (queued : Z)  (* the value is in the cell, not yet published *)
  | PDone (pushed : bool) (queued : Z).

Definition push_start (q : MpscQueue) (v : T) : Producer := PLoaded (enqueue_ q) v.

(** One atomic access.  [spurious] is [compare_exchange_weak] failing although
    the value matched.  A caller that passes no [out_queued] skips the load of
    [PClaimed], which changes nothing else. *)
Definition push_step (spurious : bool) (q : MpscQueue) (p : Producer) : MpscQueue * Producer :=
  match p with
  | PLoaded pos v =>
      let distance := u64 (sequence (cell_at q pos) - pos) in
      if distance =? 0 then (q, PClaiming pos v)
      else if kBehind <? distance then (q, PDone false 0)
      else (q, PLoaded (enqueue_ q) v)
  | PClaiming pos v =>
      if (enqueue_ q =? pos) && negb spurious
      then (mkQueue (cells_ q) (mask_ q) (u64 (pos + 1)) (dequeue_ q), PClaimed pos v)
      else (q, PLoaded (enqueue_ q) v)
  | PClaimed pos v => (q, PCounted pos v (u64 (pos - dequeue_ q)))
  | PCounted pos v n => (set_cell pos (mkCell (sequence (cell_at q pos)) v) q, PStored pos n)
  | PStored pos n => (set_cell pos (mkCell (u64 (pos + 1)) (value (cell_at q pos))) q, PDone true n)
  | PDone b n => (q, PDone b n)
  end.

(** ** The consumer inside [Pop] *)

Inductive Consumer :=
  | CIdle
  | CReadable          (* [NextReadable] returned the cell *)
  | CTaken (v : T)     (* the value moved out of the cell *)
  | CReleased (v : T)  (* the cell handed back, the cursor not yet advanced *)
  | CPopped (r : option T).

Definition NextReadable (q : MpscQueue) : bool :=
  sequence (cell_at q (dequeue_ q)) =? u64 (dequeue_ q + 1).

Definition pop_step (q : MpscQueue) (c : Consumer) : MpscQueue * Consumer :=
  match c with
  | CIdle => (q, if NextReadable q then CReadable else CPopped None)
  | CReadable => (q, CTaken (value (cell_at q (dequeue_ q))))
  | CTaken v =>
      let pos := dequeue_ q in
      (set_cell pos (mkCell (u64 (pos + mask_ q + 1)) (value (cell_at q pos))) q, CReleased v)
  | CReleased v => (mkQueue (cells_ q) (mask_ q) (enqueue_ q) (u64 (dequeue_ q + 1)), CPopped (Some v))
  | CPopped r => (q, CPopped r)
  end.

(** ** Whole operations, uninterrupted *)

Definition push_run (q : MpscQueue) (v : T) : MpscQueue * Producer :=
  Nat.iter 5 (fun s => push_step false s.1 s.2) (q, push_start q v).

Definition Push (q : MpscQueue) (v : T) : bool * MpscQueue :=
  match push_run q v with
  | (q, PDone pushed _) => (pushed, q)
  | (q, _) => (false, q)
  end.

Definition Pop (q : MpscQueue) : option T * MpscQueue :=
  match Nat.iter 4 (fun s => pop_step s.1 s.2) (q, CIdle) with
  | (q, CPopped r) => (r, q)
  | (q, _) => (None, q)
  end.

(** [Empty] stores the cursor it loaded back before it loads the other one;
    uninterrupted, the store changes nothing. *)
Definition Empty (q : MpscQueue) : bool := enqueue_ q =? dequeue_ q.

Definition size (q : MpscQueue) : Z :=
  if dequeue_ q <? enqueue_ q then enqueue_ q - dequeue_ q else 0.

(** [DrainTo]; the ring holds [mask_ + 1] items at most. *)
Fixpoint drain (fuel : nat) (q : MpscQueue) (out : list T) : list T * MpscQueue :=
  match fuel with
  | O => (out, q)
  | S fuel => match Pop q with
              | (Some v, q) => drain fuel q (out ++ [v])
              | (None, q) => (out, q)
              end
  end.

Definition DrainTo (q : MpscQueue) (out : list T) : list T * MpscQueue :=
  drain (Z.to_nat (capacity q)) q out.

End Queue.

End Mpsc.
