(* ===== verification/Session.v ===== *)
(** * Sessions (peer_session.cc, message_pipeline.cc, and the key exchange of
    encryption.cc)

    A session owns a transport, the pipeline that turns packets into messages
    (serialize, compress, encrypt) and back, and the encryption layer, whose key
    exchange runs over the session's own packets.  The transport is the
    interface [TransportLayer] of transport.h.  The thread that drives a session
    is the one modelled; queueing from other threads is OutboundQueue.v. *)

From Stdlib Require Import Strings.String.
From S2P Require Import Prelude MpscQueue Buffer BufferSpec BufferCodecs BufferViews Codec ReplayWindow Encryption Compression ZdtOptions.

Import Codec Encryption Compression.

(** transport.h: the operations of a transport, on its state. *)
Class TransportLayer := {
  Link : Type;
  Receive : Link -> option Buffer * Link;
  Send : Buffer -> SendOptions -> Link -> bool * Link;
  OrderingDomain : SendOptions -> Z;
  OrderingDomain_range o : 0 <= OrderingDomain o < 256;
  Close_ : bool -> Link -> Link;
  IsClosed : Link -> bool;
  Update_ : Link -> Link;
  Flush_ : Link -> Link
}.

Module Session.

Section Session.
Context `{P : Platform} `{C : Crypto} `{Zs : Zstd} `{T : TransportLayer}.
Context {A : Type} (app_id : A -> Z).

(** Which OpenSSL calls succeed, per message. *)
Context (evp : nat -> EvpCall -> bool).

(** ** Packets of the handshake *)

Record HandshakePacket := mkHandshake { hs_pub_key : option PKey; hs_encryption : bool; hs_compression : Z }.

Inductive Packet :=
  | PHandshake (h : HandshakePacket)
  | PReady (magic : list Z)
  | PApp (a : A).

Definition packet_id (p : Packet) : Z :=
  match p with
  | PHandshake _ => 2 ^ 64 - 2
  | PReady _ => 2 ^ 64 - 3
  | PApp a => app_id a
  end.

Definition kMagic : list Z := literal "343693b5-2b04-4d56-a3b5-48582ca37c7d".

Definition HandshakePacketSerializerV1 : PacketSerializer (Packet := Packet) :=
  mkSerializer
    (fun p b =>
       match p with
       | PHandshake packet =>
           let b := WriteInt 1 (if hs_encryption packet then 1 else 0) b in
           let b := WriteInt 1 (hs_compression packet) b in
           match SerializePublicKey (hs_pub_key packet) with
           | None => SFramed (WriteInt 4 0 b)
           | Some data => SFramed (Write data (WriteInt 4 (u32 (zlen data)) b))
           end
       | _ => SNothing
       end)
    (fun b =>
       let '(encryption, b) := ReadInt 1 b in
       let '(compression, b) := ReadInt 1 b in
       let '(len, b) := ReadInt 4 b in
       if len =? 0 then (Some (PHandshake (mkHandshake None (negb (encryption =? 0)) compression)), b)
       else
         let '(tmp, b) := Read 1 len (repeat 0 (Z.to_nat len)) b in
         (Some (PHandshake (mkHandshake (DeserializePublicKey tmp) (negb (encryption =? 0)) compression)), b)).

Definition ConnectionReadyPacketSerializerV1 : PacketSerializer (Packet := Packet) :=
  mkSerializer
    (fun p b => match p with PReady magic => SFramed (WriteString magic b) | _ => SNothing end)
    (fun b => let '(magic, b) := ReadString b in (Some (PReady magic), b)).

Definition handshake_codec : Codec (Packet := Packet) :=
  Add (2 ^ 64 - 3) ConnectionReadyPacketSerializerV1 (Add (2 ^ 64 - 2) HandshakePacketSerializerV1 ∅).

(** ** Sessions *)

(** The handler a session dispatches to: the key exchange's own, or the
    application's, which here keeps what it is given. *)
Inductive Handler := HandshakeHandler | AppHandler.

Record PeerSession := mkSession {
  link_ : Link;
  is_initiator_ : bool;
  handler_ : option Handler;
  codec_ : option (Codec (Packet := Packet));
  out_compression_ : CompressionType;
  compression_threshold_ : Z;
  encryption_layer_ : EncryptionLayer;
  negotiated_compression_ : CompressionType;
  is_ready_ : bool;
  invalid_frames_ : Z;
  max_invalid_frames_ : Z;
  outbound_ : list (Packet * SendOptions);
  send_queue_capacity_ : Z;
  has_encoder_ : bool;
  app_received : list Packet;
  evp_calls : nat;
  freed_used : bool
}.

Definition set_link v s := mkSession v (is_initiator_ s) (handler_ s) (codec_ s) (out_compression_ s) (compression_threshold_ s)
  (encryption_layer_ s) (negotiated_compression_ s) (is_ready_ s) (invalid_frames_ s) (max_invalid_frames_ s) (outbound_ s)
  (send_queue_capacity_ s) (has_encoder_ s) (app_received s) (evp_calls s) (freed_used s).
Definition set_handler v s := mkSession (link_ s) (is_initiator_ s) v (codec_ s) (out_compression_ s) (compression_threshold_ s)
  (encryption_layer_ s) (negotiated_compression_ s) (is_ready_ s) (invalid_frames_ s) (max_invalid_frames_ s) (outbound_ s)
  (send_queue_capacity_ s) (has_encoder_ s) (app_received s) (evp_calls s) (freed_used s).
Definition set_codec v s := mkSession (link_ s) (is_initiator_ s) (handler_ s) v (out_compression_ s) (compression_threshold_ s)
  (encryption_layer_ s) (negotiated_compression_ s) (is_ready_ s) (invalid_frames_ s) (max_invalid_frames_ s) (outbound_ s)
  (send_queue_capacity_ s) (has_encoder_ s) (app_received s) (evp_calls s) (freed_used s).
Definition set_out_compression v s := mkSession (link_ s) (is_initiator_ s) (handler_ s) (codec_ s) v (compression_threshold_ s)
  (encryption_layer_ s) (negotiated_compression_ s) (is_ready_ s) (invalid_frames_ s) (max_invalid_frames_ s) (outbound_ s)
  (send_queue_capacity_ s) (has_encoder_ s) (app_received s) (evp_calls s) (freed_used s).
Definition set_layer v s := mkSession (link_ s) (is_initiator_ s) (handler_ s) (codec_ s) (out_compression_ s) (compression_threshold_ s)
  v (negotiated_compression_ s) (is_ready_ s) (invalid_frames_ s) (max_invalid_frames_ s) (outbound_ s)
  (send_queue_capacity_ s) (has_encoder_ s) (app_received s) (evp_calls s) (freed_used s).
Definition set_negotiated_compression v s := mkSession (link_ s) (is_initiator_ s) (handler_ s) (codec_ s) (out_compression_ s) (compression_threshold_ s)
  (encryption_layer_ s) v (is_ready_ s) (invalid_frames_ s) (max_invalid_frames_ s) (outbound_ s)
  (send_queue_capacity_ s) (has_encoder_ s) (app_received s) (evp_calls s) (freed_used s).
Definition set_is_ready v s := mkSession (link_ s) (is_initiator_ s) (handler_ s) (codec_ s) (out_compression_ s) (compression_threshold_ s)
  (encryption_layer_ s) (negotiated_compression_ s) v (invalid_frames_ s) (max_invalid_frames_ s) (outbound_ s)
  (send_queue_capacity_ s) (has_encoder_ s) (app_received s) (evp_calls s) (freed_used s).
Definition set_invalid_frames v s := mkSession (link_ s) (is_initiator_ s) (handler_ s) (codec_ s) (out_compression_ s) (compression_threshold_ s)
  (encryption_layer_ s) (negotiated_compression_ s) (is_ready_ s) v (max_invalid_frames_ s) (outbound_ s)
  (send_queue_capacity_ s) (has_encoder_ s) (app_received s) (evp_calls s) (freed_used s).
Definition set_outbound v s := mkSession (link_ s) (is_initiator_ s) (handler_ s) (codec_ s) (out_compression_ s) (compression_threshold_ s)
  (encryption_layer_ s) (negotiated_compression_ s) (is_ready_ s) (invalid_frames_ s) (max_invalid_frames_ s) v
  (send_queue_capacity_ s) (has_encoder_ s) (app_received s) (evp_calls s) (freed_used s).
Definition set_app_received v s := mkSession (link_ s) (is_initiator_ s) (handler_ s) (codec_ s) (out_compression_ s) (compression_threshold_ s)
  (encryption_layer_ s) (negotiated_compression_ s) (is_ready_ s) (invalid_frames_ s) (max_invalid_frames_ s) (outbound_ s)
  (send_queue_capacity_ s) (has_encoder_ s) v (evp_calls s) (freed_used s).
Definition tick_evp s := mkSession (link_ s) (is_initiator_ s) (handler_ s) (codec_ s) (out_compression_ s) (compression_threshold_ s)
  (encryption_layer_ s) (negotiated_compression_ s) (is_ready_ s) (invalid_frames_ s) (max_invalid_frames_ s) (outbound_ s)
  (send_queue_capacity_ s) (has_encoder_ s) (app_received s) (evp_calls s + 1) (freed_used s).
Definition use_freed s := mkSession (link_ s) (is_initiator_ s) (handler_ s) (codec_ s) (out_compression_ s) (compression_threshold_ s)
  (encryption_layer_ s) (negotiated_compression_ s) (is_ready_ s) (invalid_frames_ s) (max_invalid_frames_ s) (outbound_ s)
  (send_queue_capacity_ s) (has_encoder_ s) (app_received s) (evp_calls s) true.

Definition upd_layer (f : EncryptionLayer -> EncryptionLayer) (s : PeerSession) : PeerSession :=
  set_layer (f (encryption_layer_ s)) s.

Definition IsAlive (s : PeerSession) : bool := negb (IsClosed (link_ s)).

Definition Close (no_linger : bool) (s : PeerSession) : PeerSession := set_link (Close_ no_linger (link_ s)) s.

(** ** MessagePipeline *)

Definition kSendHeadroom : Z := 4.

Definition Encode (packet : Packet) (stream : Z) (s : PeerSession) : option Buffer * PeerSession :=
  match codec_ s with
  | None => (None, s)
  | Some codec =>
      match Serialize packet_id codec packet kSendHeadroom with
      | None => (None, s)
      | Some buffer =>
          let compression := if readable_bytes buffer <? compression_threshold_ s then None_ else out_compression_ s in
          match HandleOutWithType compression buffer with
          | None => (None, s)
          | Some buffer =>
              let '(out, l) := HandleOut (evp (evp_calls s)) buffer stream (encryption_layer_ s) in
              (out, tick_evp (set_layer l s))
          end
      end
  end.

Definition Decode (buffer : Buffer) (s : PeerSession) : option Buffer * PeerSession :=
  let '(out, l) := HandleIn (evp (evp_calls s)) buffer (encryption_layer_ s) in
  let s := tick_evp (set_layer l s) in
  match out with
  | None => (None, s)
  | Some buffer => (HandleInDynamic buffer, s)
  end.

(** ** Sending *)

Definition EncodeAndSend (packet : Packet) (options : SendOptions) (s : PeerSession) : bool * PeerSession :=
  match Encode packet (OrderingDomain options) s with
  | (None, s) => (false, s)
  | (Some buffer, s) =>
      let '(ok, link) := Send buffer options (link_ s) in (ok, set_link link s)
  end.

Definition SendImmediate (packet : Packet) (options : SendOptions) (s : PeerSession) : bool * PeerSession :=
  if negb (IsAlive s) then (false, s) else EncodeAndSend packet options s.

Inductive SendResult := SendSuccess | SendNotConnected | SendNotReady | SendQueueFull.

Definition SendPacket (packet : Packet) (options : SendOptions) (s : PeerSession) : SendResult * PeerSession :=
  if negb (IsAlive s) then (SendNotConnected, s)
  else if negb (is_ready_ s) then (SendNotReady, s)
  else if Mpsc.RoundUpPowerOfTwo (send_queue_capacity_ s) <=? zlen (outbound_ s) then (SendQueueFull, s)
  else (SendSuccess, set_outbound (outbound_ s ++ [(packet, options)]) s).

Definition drain_item (acc : bool * PeerSession) (item : Packet * SendOptions) : bool * PeerSession :=
  let '(encoded, s) := acc in
  if negb (IsAlive s) then (encoded, s) else (true, (EncodeAndSend item.1 item.2 s).2).

Definition DrainOutbound (s : PeerSession) : bool * PeerSession :=
  foldl drain_item (false, set_outbound [] s) (outbound_ s).

Definition ShouldEncodeInline (s : PeerSession) : bool := negb (has_encoder_ s) || (zlen (outbound_ s) <=? 1).

(** ** The key exchange *)

Definition set_sent_handshake (l : EncryptionLayer) : EncryptionLayer :=
  mkLayer (pub_key_ l) (peer_pkey_ l) true (sent_ready_ l) (enable_encryption_ l) (want_encryption_ l) (negotiated_ l)
    (shared_secret_ l) (key_filled_ l) (keys l) (cipher l).
Definition set_sent_ready (l : EncryptionLayer) : EncryptionLayer :=
  mkLayer (pub_key_ l) (peer_pkey_ l) (sent_handshake_ l) true (enable_encryption_ l) (want_encryption_ l) (negotiated_ l)
    (shared_secret_ l) (key_filled_ l) (keys l) (cipher l).
Definition set_enable_encryption (v : bool) (l : EncryptionLayer) : EncryptionLayer :=
  mkLayer (pub_key_ l) (peer_pkey_ l) (sent_handshake_ l) (sent_ready_ l) v (want_encryption_ l) (negotiated_ l)
    (shared_secret_ l) (key_filled_ l) (keys l) (cipher l).
Definition set_want_encryption (v : bool) (l : EncryptionLayer) : EncryptionLayer :=
  mkLayer (pub_key_ l) (peer_pkey_ l) (sent_handshake_ l) (sent_ready_ l) (enable_encryption_ l) v (negotiated_ l)
    (shared_secret_ l) (key_filled_ l) (keys l) (cipher l).
Definition set_negotiated (l : EncryptionLayer) : EncryptionLayer :=
  mkLayer (pub_key_ l) (peer_pkey_ l) (sent_handshake_ l) (sent_ready_ l) (enable_encryption_ l) (want_encryption_ l) true
    (shared_secret_ l) (key_filled_ l) (keys l) (cipher l).
Definition set_peer_pkey (v : option PKey) (l : EncryptionLayer) : EncryptionLayer :=
  mkLayer (pub_key_ l) v (sent_handshake_ l) (sent_ready_ l) (enable_encryption_ l) (want_encryption_ l) (negotiated_ l)
    (shared_secret_ l) (key_filled_ l) (keys l) (cipher l).
Definition set_shared_secret (v : option (list Z)) (l : EncryptionLayer) : EncryptionLayer :=
  mkLayer (pub_key_ l) (peer_pkey_ l) (sent_handshake_ l) (sent_ready_ l) (enable_encryption_ l) (want_encryption_ l) (negotiated_ l)
    v (key_filled_ l) (keys l) (cipher l).
Definition set_keys (v : Keys) (l : EncryptionLayer) : EncryptionLayer :=
  mkLayer (pub_key_ l) (peer_pkey_ l) (sent_handshake_ l) (sent_ready_ l) (enable_encryption_ l) (want_encryption_ l) (negotiated_ l)
    (shared_secret_ l) (key_filled_ l) v (cipher l).
Definition set_key_filled (l : EncryptionLayer) : EncryptionLayer :=
  mkLayer (pub_key_ l) (peer_pkey_ l) (sent_handshake_ l) (sent_ready_ l) (enable_encryption_ l) (want_encryption_ l) (negotiated_ l)
    (shared_secret_ l) true (keys l) (cipher l).

Definition SendHandshake (s : PeerSession) : PeerSession :=
  let l := encryption_layer_ s in
  let offer_key := is_initiator_ s || want_encryption_ l in
  let pub_key := if offer_key then pub_key_ l else None in
  let packet := mkHandshake pub_key (want_encryption_ l) (GetCompressionTypeRaw (negotiated_compression_ s)) in
  upd_layer set_sent_handshake (SendImmediate (PHandshake packet) SendOptions_default s).2.

Definition SendReady (s : PeerSession) : PeerSession :=
  let s := upd_layer (fun l => set_enable_encryption (key_filled_ l) l) s in
  upd_layer set_sent_ready (SendImmediate (PReady kMagic) SendOptions_default s).2.

Definition Initialize (send want_encryption : bool) (s : PeerSession) : PeerSession :=
  let s := upd_layer (set_want_encryption want_encryption) s in
  if send then SendHandshake s else s.

(** The next packet of the exchange, where one is still owed. *)
Definition send_next (s : PeerSession) : PeerSession :=
  if negb (sent_handshake_ (encryption_layer_ s)) then SendHandshake s
  else if negb (sent_ready_ (encryption_layer_ s)) then SendReady s
  else s.

(** From the peer's key on. *)
Definition take_peer_key (packet : HandshakePacket) (s : PeerSession) : PeerSession :=
  let s := upd_layer (set_peer_pkey (hs_pub_key packet)) s in
  let secret := ComputeSharedSecret (pub_key_ (encryption_layer_ s)) (peer_pkey_ (encryption_layer_ s)) in
  let s := upd_layer (set_shared_secret secret) s in
  match secret with
  | None | Some [] => Close false s
  | Some shared_secret =>
      let l := encryption_layer_ s in
      let '(ok, ks) := DeriveDirectionalKeys (is_initiator_ s) (pub_key_ l) (peer_pkey_ l) shared_secret (keys l) in
      let s := upd_layer (set_keys ks) s in
      if negb ok then Close false s
      else send_next (upd_layer (fun l => set_negotiated (set_key_filled l)) s)
  end.

Definition OnHandshakePacket (packet : HandshakePacket) (s : PeerSession) : PeerSession :=
  let l := encryption_layer_ s in
  if bool_decide (is_Some (peer_pkey_ l)) || key_filled_ l then Close false s
  else if is_initiator_ s then
    let s := set_negotiated_compression (hs_compression packet) s in
    if negb (hs_encryption packet) then
      let s := upd_layer set_negotiated s in
      if negb (sent_ready_ (encryption_layer_ s)) then SendReady s else s
    else match hs_pub_key packet with
         | None => Close false s
         | Some _ => take_peer_key packet s
         end
  else if negb (want_encryption_ l) then send_next (upd_layer set_negotiated s)
  else match hs_pub_key packet with
       | None => Close false s
       | Some _ => take_peer_key packet s
       end.

Definition Ready (s : PeerSession) : PeerSession :=
  if negb (IsAlive s) then s
  else
    let s := if negb (negotiated_compression_ s =? None_) then set_out_compression (negotiated_compression_ s) s else s in
    set_is_ready true s.

Definition OnAcknowledgePacket (magic : list Z) (s : PeerSession) : PeerSession :=
  if negb (negotiated_ (encryption_layer_ s)) then Close false s
  else if negb (bool_decide (magic = kMagic)) then Close false s
  else
    let s := if negb (sent_ready_ (encryption_layer_ s)) then SendReady s else s in
    Ready (set_codec None (set_handler None s)).

(** ** Receiving *)

Definition Handle (h : Handler) (s : PeerSession) (p : Packet) : PeerSession :=
  match h, p with
  | HandshakeHandler, PHandshake packet => OnHandshakePacket packet s
  | HandshakeHandler, PReady magic => OnAcknowledgePacket magic s
  | HandshakeHandler, PApp _ => s
  | AppHandler, p => set_app_received (app_received s ++ [p]) s
  end.

(** Whether a round of [Codec::Deserialize] gets as far as the map of
    serializers. *)
Definition reaches_serializers (d : Decoding (Packet := Packet)) : bool := (frame_step ∅ d).1.

(** [Codec::Deserialize] with the handler called after each packet.  The session
    holds the only reference to the codec that runs: once the handler has
    cleared it, the loop runs on a destroyed object. *)
Fixpoint dispatch_frames (fuel : nat) (c : Codec (Packet := Packet)) (h : Handler) (d : Decoding (Packet := Packet)) (s : PeerSession)
    : DecodeStats * PeerSession :=
  match fuel with
  | O => (stats d, s)
  | S fuel =>
      if 0 <? readable_bytes (buffer d) then
        if negb (bool_decide (is_Some (codec_ s))) && reaches_serializers d then (stats d, use_freed s)
        else
          let '(more, d) := frame_step c (mkDecoding (stats d) [] (buffer d)) in
          let s := foldl (Handle h) s (handled d) in
          if more then dispatch_frames fuel c h d s else (stats d, s)
      else (stats d, s)
  end.

Definition Dispatch (payload : Buffer) (h : Handler) (s : PeerSession) : DecodeStats * PeerSession :=
  match codec_ s with
  | None => (mkStats 0 false, use_freed s)
  | Some c => dispatch_frames (Z.to_nat (readable_bytes payload)) c h (mkDecoding (mkStats 0 false) [] payload) s
  end.

Definition kMaxReceivesPerProcess : nat := 256.

(** One turn of the receive loop; whether it goes on, and whether it worked. *)
Definition receive_once (s : PeerSession) : bool * bool * PeerSession :=
  match handler_ s, codec_ s with
  | Some h, Some _ =>
      match Receive (link_ s) with
      | (None, link) => (false, false, set_link link s)
      | (Some buffer, link) =>
          match Decode buffer (set_link link s) with
          | (None, s) => (true, true, s)
          | (Some payload, s) =>
              let '(stats, s) := Dispatch payload h s in
              if 0 <? invalid_frames stats then
                let s := set_invalid_frames (u64 (invalid_frames_ s + invalid_frames stats)) s in
                if negb (max_invalid_frames_ s =? 0) && (max_invalid_frames_ s <=? invalid_frames_ s)
                then (false, true, Close true s)
                else (true, true, s)
              else (true, true, s)
          end
      end
  | _, _ => (false, false, s)
  end.

Fixpoint receive_loop (n : nat) (worked : bool) (s : PeerSession) : bool * PeerSession :=
  match n with
  | O => (worked, s)
  | S n =>
      let '(more, w, s) := receive_once s in
      if more then receive_loop n (worked || w) s else (worked || w, s)
  end.

Definition Process (s : PeerSession) : bool * PeerSession :=
  if negb (IsAlive s) then (false, s)
  else
    let s := set_link (Update_ (link_ s)) s in
    let '(worked, s) := receive_loop kMaxReceivesPerProcess false s in
    let '(worked, s) :=
      if ShouldEncodeInline s || negb (IsAlive s)
      then let '(w, s) := DrainOutbound s in (w || worked, s)
      else (worked, s) in
    let s := if IsAlive s then set_link (Flush_ (link_ s)) s else s in
    (worked, s).

(** ** Construction *)

Definition EncryptionLayer_new (pub_key : option PKey) : EncryptionLayer :=
  mkLayer pub_key None false false false true false None false zero_keys Cipher_new.

(** The constructor's effect on its session; [pub_key] is what GenerateKey()
    returned. *)
Definition EncryptionLayer_ctor (pub_key : option PKey) (s : PeerSession) : PeerSession :=
  match pub_key with
  | None => Close false s
  | Some _ => set_codec (Some handshake_codec) (set_handler (Some HandshakeHandler) s)
  end.

Definition PeerSession_new (link : Link) (is_initiator : bool) (pub_key : option PKey) (encryption : bool)
    (compression : CompressionType) (threshold max_invalid capacity : Z) : PeerSession :=
  let s := mkSession link is_initiator None None None_ threshold (EncryptionLayer_new pub_key)
             (if is_initiator then None_ else ResolveCompressionType compression)
             false 0 max_invalid [] capacity false [] 0 false in
  Initialize is_initiator encryption (EncryptionLayer_ctor pub_key s).

End Session.

End Session.
