(* ===== verification/SessionPackets.v ===== *)
(** * The packets of the key exchange on the wire *)

From S2P Require Import Prelude Buffer BufferSpec BufferCodecs BufferViews Codec CodecTheorems ReplayWindow Encryption Compression ZdtOptions Session.

Import Codec Encryption Compression Session.

Section Packets.
Context `{P : Platform} `{!AmplePlatform P} `{C : Crypto} {A : Type}.

Abbreviation Packet := (@Packet C A).

(** ** Reading leaves the bytes alone *)

Lemma load_buffer off n b : wf b -> ub_ (load off n b).2 = false -> (load off n b).2 = b.
Proof. intros [Hu _ _ _ _ _]. unfold load. repeat case_match; cbn; done || congruence. Qed.

Lemma Read_reads n dst p r b : wf b -> endianness_ b = LittleEndian -> avail b = p ++ r -> zlen p = n -> 1 <= n < 2 ^ 31 -> in_range b ->
  exists b', Read 1 n dst b = (p, b') /\ reads_only b b' /\ consumes b p r b'.
Proof.
  intros Hwf He E HL Hn Hin. destruct (Read_parses LittleEndian 1 n p dst ltac:(lia) ltac:(lia) ltac:(lia) ltac:(lia) b r Hwf He E) as (b' & E' & Hc).
  exists b'. split; [done|]. split; [|done]. unfold Read in E'. change (size_max / 1) with (2 ^ 64 - 1) in E'.
  destruct (Z.ltb_spec (2 ^ 64 - 1) n); [lia|]. rewrite u64_small in E' by (unfold size_max; lia). rewrite Z.mul_1_l in E'.
  destruct (negb _).
  - injection E' as <- <-. split; try done. by apply set_last_error_wf.
  - subst n. rewrite (load_avail b p r Hwf Hin E) in E'. injection E' as <-. destruct Hc. by split.
Qed.

Lemma ReadInt_step n v r b : wf b -> endianness_ b = LittleEndian -> 1 <= n < 2 ^ 31 -> 0 <= v < 256 ^ n -> avail b = enc LittleEndian n v ++ r ->
  exists b', ReadInt n b = (v, b') /\ reads_only b b' /\ consumes b (enc LittleEndian n v) r b'.
Proof.
  intros Hwf He Hn Hv E. destruct (ReadInt_enc LittleEndian n v b r Hwf He Hn Hv E) as (b' & E' & Hc). exists b'. split; [done|]. split; [|done].
  pose proof (ReadInt_reads n b Hwf ltac:(lia)) as R. by rewrite E' in R.
Qed.

Lemma ReadString_step s b : wf b -> endianness_ b = LittleEndian -> bytes_ok s -> 1 <= zlen s <= 65536 -> avail b = string_image LittleEndian s ->
  exists b', ReadString b = (s, b') /\ reads_only b b' /\ consumes b (string_image LittleEndian s) [] b'.
Proof.
  intros Hwf He Hok HL E. unfold string_image in *.
  destruct (ReadVarInt_parses LittleEndian 8 (zlen s) ltac:(lia) ltac:(lia) b _ Hwf He E) as (b1 & E1 & C1).
  destruct (ReadVarInt_reads b Hwf) as [R1 _]. rewrite E1 in R1. cbn [snd] in R1.
  unfold ReadString. rewrite E1. unfold CheckReadCount, kMaxReadStringLength. destruct (Z.ltb_spec 65536 (zlen s)); [lia|].
  change (negb (65536 =? 0) && false) with false. change (if 1 =? 0 then 1 else 1) with 1. cbv iota zeta.
  pose proof (con_avail _ _ _ _ C1) as Ha1. rewrite readable_avail, Ha1, Z.div_1_r by (by destruct C1).
  destruct (Z.ltb_spec (zlen s) (zlen s)); [lia|]. cbn [negb]. rewrite (load_avail b1 s []) by (by destruct C1; rewrite ?app_nil_r).
  exists (SkipRead (zlen s) b1). split; [done|].
  assert (C2 : consumes b1 s [] (SkipRead (zlen s) b1)) by (apply SkipRead_consumes; by destruct C1; rewrite ?app_nil_r).
  split; [|eapply consumes_trans; [|exact C2]; by rewrite app_nil_r].
  eapply reads_only_trans; [exact R1|]. apply SkipRead_reads; [by destruct C1|lia|].
  pose proof (con_in _ _ _ _ C2) as H2. pose proof (con_rc _ _ _ _ C2) as H3. pose proof (wf_wc _ (con_wf _ _ _ _ C2)). lia.
Qed.

(** ** Bodies *)

Definition key_image (pk : option PKey) : list Z :=
  match SerializePublicKey pk with
  | None => enc LittleEndian 4 0
  | Some der => enc LittleEndian 4 (zlen der) ++ der
  end.

Definition handshake_body (h : HandshakePacket) : list Z :=
  enc LittleEndian 1 (if hs_encryption h then 1 else 0) ++ enc LittleEndian 1 (hs_compression h) ++ key_image (hs_pub_key h).

(** A packet whose fields fit the wire. *)
Definition handshake_fits (h : HandshakePacket) : Prop :=
  0 <= hs_compression h < 256 /\
  match SerializePublicKey (hs_pub_key h) with Some der => bytes_ok der /\ zlen der <= 2 ^ 20 | None => True end.

(** The key as the peer reads it back. *)
Definition handshake_read (h : HandshakePacket) : HandshakePacket :=
  mkHandshake (match SerializePublicKey (hs_pub_key h) with Some der => DeserializePublicKey der | None => None end)
    (hs_encryption h) (hs_compression h).

Lemma SerializePublicKey_nonempty pk der : SerializePublicKey pk = Some der -> 1 <= zlen der.
Proof.
  unfold SerializePublicKey. intros E. destruct pk as [k|]; [|done]. destruct (i2d_PUBKEY k) as [ [|x l]|]; [done| |done]. simplify_eq. cbn. lia.
Qed.

Lemma handshake_body_length h : handshake_fits h -> 6 <= zlen (handshake_body h) <= 2 ^ 20 + 6 /\ bytes_ok (handshake_body h).
Proof.
  intros [_ H]. unfold handshake_body, key_image. rewrite !length_app, !Nat2Z.inj_add, !zlen_enc by lia.
  destruct (SerializePublicKey _) as [der|]; [destruct H; rewrite length_app, Nat2Z.inj_add|]; rewrite zlen_enc by lia.
  - split; [lia|]. repeat (apply bytes_ok_app; split); try apply enc_bytes_ok; done.
  - split; [lia|]. repeat (apply bytes_ok_app; split); apply enc_bytes_ok.
Qed.

Lemma handshake_encodes h : handshake_fits h -> encodes (HandshakePacketSerializerV1 (A := A)) (PHandshake h) (handshake_body h).
Proof.
  intros Hf b Hr He. pose proof (handshake_body_length h Hf) as [HL _]. destruct Hf as [Hc Hk]. cbn [HandshakePacketSerializerV1 Serialize_].
  assert (Hw2 : writes LittleEndian (enc LittleEndian 1 (if hs_encryption h then 1 else 0) ++ enc LittleEndian 1 (hs_compression h))
    (fun b => WriteInt 1 (hs_compression h) (WriteInt 1 (if hs_encryption h then 1 else 0) b))) by (apply writes_comp; apply writes_WriteInt; lia).
  assert (Hb : forall bs f, writes LittleEndian bs f -> bs = key_image (hs_pub_key h) ->
    appends b (handshake_body h) (f (WriteInt 1 (hs_compression h) (WriteInt 1 (if hs_encryption h then 1 else 0) b)))).
  { intros bs f Hw ->. unfold handshake_body. rewrite app_assoc. apply (writes_comp _ _ _ _ f Hw2 Hw b He).
    eapply ready_weaken; [|exact Hr]. unfold handshake_body. rewrite app_assoc. lia. }
  unfold key_image in Hb. destruct (SerializePublicKey (hs_pub_key h)) as [der|].
  - destruct Hk as [Hok Hz]. apply (Hb (enc LittleEndian 4 (zlen der) ++ der) (fun b => Write der (WriteInt 4 (u32 (zlen der)) b))); [|done].
    unfold u32. rewrite Z.mod_small by lia. apply (writes_comp _ _ _ (WriteInt 4 (zlen der)) (Write der)); [apply writes_WriteInt; lia|by apply writes_Write].
  - apply (Hb (enc LittleEndian 4 0) (WriteInt 4 0)); [apply writes_WriteInt; lia|done].
Qed.

Lemma handshake_answers h : handshake_fits h -> answers_ (HandshakePacketSerializerV1 (A := A)) (handshake_body h) NoError (Some (PHandshake (handshake_read h))).
Proof.
  intros Hf b Hwf He Ha Hn Hin. destruct Hf as [Hc Hk]. cbn [HandshakePacketSerializerV1 Deserialize_].
  destruct (ReadInt_step 1 (if hs_encryption h then 1 else 0) _ b Hwf He ltac:(lia) ltac:(destruct (hs_encryption h); lia) Ha) as (b1 & -> & R1 & C1).
  destruct (ReadInt_step 1 (hs_compression h) _ b1 (re_wf _ _ R1) ltac:(rewrite (re_endian _ _ R1); done) ltac:(lia) ltac:(lia) (con_avail _ _ _ _ C1)) as (b2 & -> & R2 & C2).
  pose proof (reads_only_trans _ _ _ R1 R2) as R12. pose proof (con_avail _ _ _ _ C2) as Ha2. unfold handshake_body, handshake_read, key_image in *.
  assert (Henc : negb ((if hs_encryption h then 1 else 0) =? 0) = hs_encryption h) by (by destruct (hs_encryption h)).
  pose proof (con_rc _ _ _ _ C1) as Hr1. pose proof (con_rc _ _ _ _ C2) as Hr2. pose proof (con_err _ _ _ _ C1). pose proof (con_err _ _ _ _ C2).
  rewrite !length_app, !Nat2Z.inj_add, !zlen_enc in * by lia. destruct (SerializePublicKey (hs_pub_key h)) as [der|] eqn:Es.
  - destruct Hk as [Hok Hz]. pose proof (SerializePublicKey_nonempty _ _ Es) as H1.
    destruct (ReadInt_step 4 (zlen der) der b2 (re_wf _ _ R2) ltac:(rewrite (re_endian _ _ R12); done) ltac:(lia) ltac:(lia) Ha2) as (b3 & -> & R3 & C3).
    destruct (Z.eqb_spec (zlen der) 0); [lia|].
    destruct (Read_reads (zlen der) (repeat 0 (Z.to_nat (zlen der))) der [] b3 (re_wf _ _ R3)) as (b4 & -> & R4 & C4);
      [rewrite (re_endian _ _ R3), (re_endian _ _ R12); done|rewrite app_nil_r; by apply C3|done|lia|by eapply consumes_in_range|].
    exists b4. rewrite Henc. split; [done|]. split; [eapply reads_only_trans; [exact R12|]; eapply reads_only_trans; done|].
    pose proof (con_rc _ _ _ _ C3). pose proof (con_rc _ _ _ _ C4). pose proof (con_err _ _ _ _ C3). pose proof (con_err _ _ _ _ C4).
    rewrite zlen_enc in * by lia. split; [congruence|]. intros _. rewrite length_app, Nat2Z.inj_add, zlen_enc by lia. lia.
  - destruct (ReadInt_step 4 0 [] b2 (re_wf _ _ R2) ltac:(rewrite (re_endian _ _ R12); done) ltac:(lia) ltac:(lia) ltac:(by rewrite app_nil_r)) as (b3 & -> & R3 & C3).
    cbn [Z.eqb]. exists b3. rewrite Henc. split; [done|]. split; [by eapply reads_only_trans|]. pose proof (con_rc _ _ _ _ C3). pose proof (con_err _ _ _ _ C3).
    rewrite zlen_enc in * by lia. split; [congruence|]. intros _. lia.
Qed.

Lemma ready_encodes magic : bytes_ok magic -> zlen magic <= 65536 ->
  encodes (ConnectionReadyPacketSerializerV1 (A := A)) (PReady magic) (string_image LittleEndian magic).
Proof.
  intros Hok HL b Hr He. cbn [ConnectionReadyPacketSerializerV1 Serialize_]. apply WriteString_appends; [done|done|]. eapply ready_weaken; [|exact Hr]. lia.
Qed.

Lemma ready_answers magic : bytes_ok magic -> 1 <= zlen magic <= 65536 ->
  answers_ (ConnectionReadyPacketSerializerV1 (A := A)) (string_image LittleEndian magic) NoError (Some (PReady magic)).
Proof.
  intros Hok HL b Hwf He Ha Hn Hin. cbn [ConnectionReadyPacketSerializerV1 Deserialize_].
  destruct (ReadString_step magic b Hwf He Hok HL Ha) as (b' & -> & R & Hc). exists b'. split; [done|]. split; [done|].
  pose proof (con_rc _ _ _ _ Hc). pose proof (con_err _ _ _ _ Hc). split; [congruence|]. intros _. lia.
Qed.

End Packets.
