(* ===== verification/SessionTheorems.v ===== *)
(** * Sessions: what holds whatever the peer sends *)

From S2P Require Import Prelude Buffer BufferSpec BufferCodecs BufferViews Codec CodecTheorems ReplayWindow Encryption EncryptionTheorems Compression ZdtOptions Session.

Import Codec Replay Encryption Compression Session.

Section Safety.
Context `{P : Platform} `{C : Crypto} `{Zs : Zstd} `{T : TransportLayer}.
Context {A : Type} (app_id : A -> Z) (evp : nat -> EvpCall -> bool).

Abbreviation PeerSession := (@PeerSession C T A).
Abbreviation Packet := (@Packet C A).

(** ** What sending and receiving leave alone *)

Lemma set_cipher_same (l : EncryptionLayer) : set_cipher (cipher l) l = l.
Proof. by destruct l. Qed.

(** Sealing or opening a message changes the cipher only; sealing needs the
    layer to be enabled, opening leaves the sending side alone. *)
Definition tx_untouched (c c' : Cipher) : Prop :=
  tx_counters_ c' = tx_counters_ c /\ enc_ctx_ c' = enc_ctx_ c /\ cipher_keyed_ c' = cipher_keyed_ c.

Definition cipher_steps (l : EncryptionLayer) (c : Cipher) : Prop :=
  tx_untouched (cipher l) c \/
  (enable_encryption_ l = true /\ exists evp s p, 0 <= s /\ c = (seal_next evp (keys l) s p (cipher l)).2).

Lemma tx_untouched_refl c : tx_untouched c c.
Proof. done. Qed.

Lemma HandleOut_layer e b s l : 0 <= s -> exists c, (HandleOut e b s l).2 = set_cipher c l /\ cipher_steps l c.
Proof.
  intros Hs. assert (Hsame : exists c, l = set_cipher c l /\ cipher_steps l c) by (exists (cipher l); rewrite set_cipher_same; split; [done|by left]).
  unfold HandleOut. destruct (_ <? _); [done|]. destruct (enable_encryption_ l) eqn:He.
  - destruct (seal_next _ _ _ _ _) as [r c] eqn:E.
    assert (Hc : cipher_steps l c) by (right; split; [done|]; eexists _, _, _; split; [done|]; by rewrite E). destruct r as [ [n [ [ct tag]|] ]|]; cbn; by exists c.
  - destruct (PrependInt8 0 b) as [ [] b']; done.
Qed.

Lemma HandleIn_layer e b l : exists c, (HandleIn e b l).2 = set_cipher c l /\ tx_untouched (cipher l) c.
Proof.
  assert (Hsame : exists c, l = set_cipher c l /\ tx_untouched (cipher l) c) by (exists (cipher l); by rewrite set_cipher_same).
  unfold HandleIn, HandleDecrypt. destruct (ReadInt 1 b) as [mode b1]. repeat (case_match; [by destruct (key_filled_ l)|| done|]).
  destruct (Read _ _ _ _) as [hdr b2]. set (o := open_next _ _ _ _ _ _ _).
  assert (Ho : tx_untouched (cipher l) o.2).
  { unfold o, open_next. destruct (match dec_ctx_ _ with None => _ | Some _ => _ end) as [ctx keyed]. destruct (DecryptData _ _ _ _ _ _ _ _) as [ctx' [p|] ]; [|done].
    unfold RxWindow. destruct (Accept _ _) as [ok w]. by destruct ok. }
  destruct o as [ [p|] c]; cbn [snd] in Ho; by exists c.
Qed.

(** [s'] is [s] after messages went in or out: only the cipher, the link and
    the count of OpenSSL calls moved. *)
Record quiet (s s' : PeerSession) : Prop := {
  qu_role : is_initiator_ s' = is_initiator_ s;
  qu_handler : handler_ s' = handler_ s;
  qu_codec : codec_ s' = codec_ s;
  qu_ready : is_ready_ s' = is_ready_ s;
  qu_layer : exists c, encryption_layer_ s' = set_cipher c (encryption_layer_ s) /\ cipher_steps (encryption_layer_ s) c;
  qu_freed : freed_used s' = freed_used s
}.

Lemma quiet_refl s : quiet s s.
Proof. split; try done. exists (cipher (encryption_layer_ s)). rewrite set_cipher_same. split; [done|by left]. Qed.

Lemma Encode_quiet p st s : 0 <= st -> quiet s (Encode app_id evp p st s).2.
Proof.
  intros Hst. unfold Encode. destruct (codec_ s) as [cd|]; [|apply quiet_refl]. destruct (Serialize _ _ _ _) as [b0|]; [|apply quiet_refl].
  destruct (HandleOutWithType _ _) as [b|]; [|apply quiet_refl].
  destruct (HandleOut_layer (evp (evp_calls s)) b st (encryption_layer_ s) Hst) as (c & E & Hc).
  destruct (HandleOut _ _ _ _) as [out l]. cbn [snd] in E. subst l. split; try done. by exists c.
Qed.

Lemma Decode_quiet b s : quiet s (Decode evp b s).2.
Proof.
  unfold Decode. destruct (HandleIn_layer (evp (evp_calls s)) b (encryption_layer_ s)) as (c & E & Hc).
  destruct (HandleIn _ _ _) as [out l]. cbn [snd] in E. subst l. destruct out; (split; try done; exists c; split; [done|by left]).
Qed.

Lemma EncodeAndSend_quiet p o s : quiet s (EncodeAndSend app_id evp p o s).2.
Proof.
  unfold EncodeAndSend. pose proof (Encode_quiet p (OrderingDomain o) s ltac:(apply OrderingDomain_range)) as H.
  destruct (Encode _ _ _ _ _) as [ [b|] s1]; [|done]. cbn [snd] in H. destruct (Send _ _ _) as [ok k]. destruct H. by split.
Qed.

Lemma SendImmediate_quiet p o s : quiet s (SendImmediate app_id evp p o s).2.
Proof. unfold SendImmediate. destruct (negb (IsAlive s)); [apply quiet_refl|apply EncodeAndSend_quiet]. Qed.

(** ** The invariant *)

Definition tx_new (c : Cipher) : Prop := tx_counters_ c = [] /\ enc_ctx_ c = None /\ cipher_keyed_ c = false.

(** Until the keys are there nothing is sealed; from then on nonces are fresh.
    An accepting side that wants encryption settles on nothing else. *)
Record layer_inv (initiator : bool) (l : EncryptionLayer) : Prop := {
  li_unkeyed : key_filled_ l = false -> enable_encryption_ l = false /\ tx_new (cipher l);
  li_keyed : key_filled_ l = true -> sealing (keys l) (cipher l);
  li_policy : initiator = false -> want_encryption_ l = true ->
    (negotiated_ l = true -> key_filled_ l = true) /\ (sent_ready_ l = true -> enable_encryption_ l = true)
}.

(** The role and the policy are fixed for the life of a session. *)
Context (role want : bool).

Definition session_inv (s : PeerSession) : Prop :=
  layer_inv (is_initiator_ s) (encryption_layer_ s) /\
  ((is_ready_ s = true -> sent_ready_ (encryption_layer_ s) = true) /\
   is_initiator_ s = role /\ want_encryption_ (encryption_layer_ s) = want).

Lemma sealing_tx k c c' : tx_untouched c c' -> sealing k c -> sealing k c'.
Proof.
  intros (E1 & E2 & E3) [H1 H2 H3 H4]. split; unfold sealed_by, counter_of in *; rewrite ?E1, ?E2, ?E3; [done| |done|done].
  intros u Hu. destruct (H2 u Hu) as (s & n & H). by exists s, n.
Qed.

Lemma tx_new_sealing k c : tx_new c -> sealing k c.
Proof. intros (E1 & E2 & E3). apply (sealing_tx k Cipher_new c); [by split_and!|apply sealing_new]. Qed.

Lemma cipher_inv r l c : cipher_steps l c -> layer_inv r l -> layer_inv r (set_cipher c l).
Proof.
  intros Hc [H1 H2 H3]. split; cbn [set_cipher key_filled_ enable_encryption_ cipher keys want_encryption_ negotiated_ sent_ready_]; [| |done].
  - intros Hk. destruct (H1 Hk) as [He Hn]. split; [done|]. destruct Hc as [(E1 & E2 & E3)|(He' & _)]; [|congruence].
    destruct Hn as (? & ? & ?). split_and!; congruence.
  - intros Hk. destruct Hc as [Hc|(_ & e & s & p & Hs & ->)]; [by eapply sealing_tx; [|apply H2]|by apply seal_next_sealing; [|apply H2] ].
Qed.

Lemma quiet_inv s s' : quiet s s' -> session_inv s -> session_inv s'.
Proof.
  intros [Hr _ _ Hd (c & El & Hc) _] [Hl Hs]. unfold session_inv. rewrite Hr, Hd, El. split; [by apply cipher_inv|done].
Qed.

(** Changes of other fields. *)
Lemma same_inv s s' : is_initiator_ s' = is_initiator_ s -> encryption_layer_ s' = encryption_layer_ s ->
  is_ready_ s' = is_ready_ s -> session_inv s -> session_inv s'.
Proof. intros E1 E2 E3 H. unfold session_inv. by rewrite E1, E2, E3. Qed.

Lemma Close_inv b s : session_inv s -> session_inv (Close b s).
Proof. by apply same_inv. Qed.

Lemma SendHandshake_inv s : session_inv s -> session_inv (SendHandshake app_id evp s).
Proof.
  intros H. unfold SendHandshake. set (pk := PHandshake _). destruct (quiet_inv _ _ (SendImmediate_quiet pk SendOptions_default s) H) as [ [H1 H2 H3] Hr].
  split; [by split|done].
Qed.

(** The ready packet is sent once the outcome is settled. *)
Lemma SendReady_inv s : session_inv s -> negotiated_ (encryption_layer_ s) = true ->
  session_inv (SendReady app_id evp s) /\ sent_ready_ (encryption_layer_ (SendReady app_id evp s)) = true /\ is_ready_ (SendReady app_id evp s) = is_ready_ s.
Proof.
  intros [Hl Hrd] Hn. unfold SendReady. set (s1 := upd_layer _ s).
  assert (Hs1 : session_inv s1).
  { destruct Hl as [H1 H2 H3]. split; [|exact Hrd]. split; cbn; [|done|].
    - intros Hk. split; [done|]. by apply H1.
    - intros Hi Hw. split; [by apply H3|]. intros Hsr. apply H3; [done|done|]. done. }
  pose proof (SendImmediate_quiet (PReady kMagic) SendOptions_default s1) as Hq. pose proof (quiet_inv _ _ Hq Hs1) as [ [H1 H2 H3] Hr].
  destruct Hq as [Q1 _ _ Q4 (c & El & _) _]. split; [|split; [done|by cbn] ]. split; [|split; [done|exact (proj2 Hr)] ].
  cbn [upd_layer set_layer encryption_layer_ is_initiator_]. rewrite El, Q1 in *. cbn in *. split; cbn; [done|done|].
  intros Hi Hw. split; [by apply H3|]. intros _. apply Hl; done.
Qed.

Lemma send_next_inv s : session_inv s -> negotiated_ (encryption_layer_ s) = true -> session_inv (send_next app_id evp s).
Proof.
  intros H Hn. unfold send_next. destruct (negb (sent_handshake_ _)); [by apply SendHandshake_inv|]. destruct (negb (sent_ready_ _)); [|done].
  by apply SendReady_inv.
Qed.

Lemma take_peer_key_inv h s : session_inv s -> key_filled_ (encryption_layer_ s) = false -> session_inv (take_peer_key app_id evp h s).
Proof.
  intros [ [H1 H2 H3] Hr] Hk. unfold take_peer_key. set (s1 := upd_layer (set_peer_pkey _) s). set (secret := ComputeSharedSecret _ _).
  assert (Hs2 : session_inv (upd_layer (set_shared_secret secret) s1)) by (split; [by split|done]). set (s2 := upd_layer (set_shared_secret secret) s1) in *.
  destruct secret as [ [|x secret]|]; [by apply Close_inv| |by apply Close_inv].
  destruct (DeriveDirectionalKeys _ _ _ _ _) as [ok ks]. set (s3 := upd_layer (set_keys ks) s2).
  assert (Hk3 : key_filled_ (encryption_layer_ s3) = false) by done.
  assert (Hs3 : session_inv s3) by (split; [split; [done| |done]|done]; intros Hf; congruence). destruct ok; [|by apply Close_inv]. cbn [negb].
  apply send_next_inv; [|done]. destruct (H1 Hk) as [He Hnew]. split; [|done]. split; cbn; [done| |].
  - intros _. by apply tx_new_sealing.
  - intros Hi Hw. split; [done|]. by apply H3.
Qed.

Lemma OnHandshakePacket_inv h s : session_inv s -> session_inv (OnHandshakePacket app_id evp h s).
Proof.
  intros H. unfold OnHandshakePacket. destruct (_ || _) eqn:E; [by apply Close_inv|]. apply orb_false_iff in E as [_ Hk].
  assert (Hneg : forall s, is_initiator_ s = true \/ want_encryption_ (encryption_layer_ s) = false -> session_inv s -> session_inv (upd_layer set_negotiated s)).
  { clear. intros s Hv [ [H1 H2 H3] Hr]. split; [|done]. split; [done|done|]. cbn. intros Hi Hw. destruct Hv; congruence. }
  destruct (is_initiator_ s) eqn:Hi.
  - set (s1 := set_negotiated_compression _ s). assert (Hs1 : session_inv s1) by (by apply (same_inv s)). destruct (negb (hs_encryption h)).
    + pose proof (Hneg s1 (or_introl Hi) Hs1) as Hs2. destruct (negb (sent_ready_ _)); [by apply SendReady_inv|done].
    + destruct (hs_pub_key h); [by apply take_peer_key_inv|by apply Close_inv].
  - destruct (want_encryption_ _) eqn:Hw; cbn [negb].
    + destruct (hs_pub_key h); [by apply take_peer_key_inv|by apply Close_inv].
    + apply send_next_inv; [|done]. by apply Hneg; [right|].
Qed.

Lemma OnAcknowledgePacket_inv m s : session_inv s -> session_inv (OnAcknowledgePacket app_id evp m s).
Proof.
  intros H. unfold OnAcknowledgePacket. destruct (negotiated_ _) eqn:Hn; [|by apply Close_inv]. cbn [negb].
  destruct (negb (bool_decide (m = kMagic))); [by apply Close_inv|].
  assert (Hready : forall s, session_inv s -> sent_ready_ (encryption_layer_ s) = true -> session_inv (Ready (set_codec None (set_handler None s)))).
  { clear. intros s [Hl [Hr Hf] ] Hs. unfold Ready. destruct (negb (IsAlive _)); [by split|]. destruct (negb _); (split; [done|by split]). }
  destruct (sent_ready_ _) eqn:Hs; cbn [negb]; [by apply Hready|]. destruct (SendReady_inv s H Hn) as (H1 & H2 & _). by apply Hready.
Qed.

Lemma Handle_inv h s p : session_inv s -> session_inv (Handle app_id evp h s p).
Proof.
  intros H. unfold Handle. destruct h, p; [by apply OnHandshakePacket_inv|by apply OnAcknowledgePacket_inv|done|by apply (same_inv s)..].
Qed.

Lemma dispatch_inv fuel c h d s : session_inv s -> session_inv (dispatch_frames app_id evp fuel c h d s).2.
Proof.
  revert d s. induction fuel as [|fuel IH]; intros d s H; [done|]. cbn [dispatch_frames]. destruct (0 <? _); [|done].
  destruct (_ && _); [by apply (same_inv s)|]. destruct (frame_step _ _) as [more d'].
  assert (Hf : forall ps s, session_inv s -> session_inv (foldl (Handle app_id evp h) s ps)).
  { clear. induction ps as [|p ps IH]; intros s H; [done|]. apply IH. by apply Handle_inv. }
  destruct more; [apply IH; by apply Hf|by apply Hf].
Qed.

Lemma receive_once_inv s : session_inv s -> session_inv (receive_once app_id evp s).2.
Proof.
  intros H. unfold receive_once. destruct (handler_ s) as [h|]; [|done]. destruct (codec_ s); [|done]. destruct (Receive (link_ s)) as [ [b|] k].
  - assert (Hl : session_inv (set_link k s)) by (by apply (same_inv s)). pose proof (quiet_inv _ _ (Decode_quiet b (set_link k s)) Hl) as Hd.
    destruct (Decode evp b (set_link k s)) as [ [payload|] s1]; cbn [snd] in *; [|done].
    assert (Hp : session_inv (Dispatch app_id evp payload h s1).2).
    { unfold Dispatch. destruct (codec_ s1); [by apply dispatch_inv|by apply (same_inv s1)]. }
    destruct (Dispatch _ _ _ _ _) as [stats s2]. cbn [snd] in Hp. destruct (0 <? _); [|done].
    assert (Hi : session_inv (set_invalid_frames (u64 (invalid_frames_ s2 + invalid_frames stats)) s2)) by (by apply (same_inv s2)).
    destruct (_ && _); [by apply Close_inv|done].
  - by apply (same_inv s).
Qed.

Lemma Process_inv s : session_inv s -> session_inv (Process app_id evp s).2.
Proof.
  intros H. unfold Process. destruct (negb (IsAlive s)); [done|].
  assert (Hloop : forall n w s, session_inv s -> session_inv (receive_loop app_id evp n w s).2).
  { clear. induction n as [|n IH]; intros w s H; [done|]. cbn [receive_loop]. pose proof (receive_once_inv s H) as H1.
    destruct (receive_once app_id evp s) as [ [more w'] s1]. cbn [snd] in H1. destruct more; [by apply IH|done]. }
  assert (H1 : session_inv (set_link (Update_ (link_ s)) s)) by (by apply (same_inv s)). specialize (Hloop kMaxReceivesPerProcess false _ H1).
  destruct (receive_loop _ _ _ _ _) as [w s1]. cbn [snd] in Hloop.
  assert (Hdrain : session_inv (DrainOutbound app_id evp s1).2).
  { unfold DrainOutbound. assert (Hf : forall items acc, session_inv acc.2 -> session_inv (foldl (drain_item app_id evp) acc items).2).
    { clear. induction items as [|i items IH]; intros [e s] H; [done|]. apply IH. unfold drain_item. destruct (negb (IsAlive s)); [done|].
      by eapply quiet_inv; [apply EncodeAndSend_quiet|]. }
    apply Hf. by apply (same_inv s1). }
  set (r := if ShouldEncodeInline s1 || negb (IsAlive s1) then _ else _).
  assert (Hr : session_inv r.2) by (unfold r; destruct (_ || _); [by destruct (DrainOutbound _ _ _)|done]). destruct r as [w2 s2]. cbn [snd] in *.
  destruct (IsAlive s2); [by apply (same_inv s2)|done].
Qed.

(** ** Reachable sessions *)

(** What can happen to a session: its owner drives it, the application queues
    packets, installs its codec and handler once connected, picks a compression
    or closes; the network and the transport's other threads do to the link
    whatever they like. *)
Inductive step (s : PeerSession) : PeerSession -> Prop :=
  | step_process : step s (Process app_id evp s).2
  | step_send p o : step s (SendPacket p o s).2
  | step_install c : is_ready_ s = true -> step s (set_codec (Some c) (set_handler (Some AppHandler) s))
  | step_compression t : step s (set_out_compression t s)
  | step_close b : step s (Close b s)
  | step_link k : step s (set_link k s).

Lemma step_inv s s' : step s s' -> session_inv s -> session_inv s'.
Proof.
  intros [|p o|c _|t|b|k] H; [by apply Process_inv| |by apply (same_inv s)..].
  unfold SendPacket. repeat (case_match; [done|]). by apply (same_inv s).
Qed.

Lemma reachable_inv s s' : rtc step s s' -> session_inv s -> session_inv s'.
Proof. induction 1; eauto using step_inv. Qed.

End Safety.

Section Policy.
Context `{P : Platform} `{C : Crypto} `{Zs : Zstd} `{T : TransportLayer}.
Context {A : Type} (app_id : A -> Z) (evp : nat -> EvpCall -> bool).

Lemma new_inv link role key want comp th mi cap :
  session_inv role want (PeerSession_new app_id evp link role key want comp th mi cap).
Proof.
  unfold PeerSession_new, EncryptionLayer_ctor, Initialize. set (s := mkSession _ _ _ _ _ _ _ _ _ _ _ _ _ _ _ _ _).
  set (s1 := match key with None => _ | Some _ => _ end).
  assert (H1 : session_inv role want (upd_layer (set_want_encryption want) s1)).
  { unfold s1. destruct key; (split; [split; cbn; [done|done|]|done]); intros _ _; done. }
  destruct role; [by apply SendHandshake_inv|done].
Qed.



End Policy.
