(* ===== verification/SessionHandshake.v ===== *)
(** * The key exchange between two honest sessions, over a pipe *)

From Stdlib Require Import Strings.String.
From S2P Require Import Prelude Buffer BufferSpec BufferCodecs BufferViews Codec CodecTheorems ReplayWindow Encryption EncryptionTheorems Compression ZdtOptions Session SessionPackets SessionTheorems.

Import Codec Replay Encryption Compression Session.

(** ** A reliable ordered link *)

Record Pipe := mkPipe { inq : list (list Z); outq : list (list Z); closed : bool }.

(** What the session needs of a transport, at its simplest: whole messages, in
    order. *)
#[export, refine] Instance pipe `{P : Platform} : TransportLayer := {|
  Link := Pipe;
  Receive p := match inq p with
               | [] => (None, p)
               | m :: q => (Some (received LittleEndian m), mkPipe q (outq p) (closed p))
               end;
  Send b _ p := (true, mkPipe (inq p) (outq p ++ [avail b]) (closed p));
  OrderingDomain _ := 0;
  Close_ _ p := mkPipe (inq p) (outq p) true;
  IsClosed p := closed p;
  Update_ p := p;
  Flush_ p := p
|}.
Proof. intros _. lia. Defined.

Section Exchange.
Context `{P : Platform} `{!AmplePlatform P} `{C : Crypto} `{!GcmLaws C} `{Zs : Zstd}.
Context {A : Type} (app_id : A -> Z).

Abbreviation PeerSession := (@PeerSession C pipe A).
Abbreviation Packet := (@Packet C A).

(** What sending leaves of the receiving side. *)
Definition rx_untouched (c c' : Cipher) : Prop := rx_replay_ c' = rx_replay_ c /\ dec_ctx_ c' = dec_ctx_ c /\ dec_keyed_ c' = dec_keyed_ c.

Lemma HandleOut_rx e b s l : rx_untouched (cipher l) (cipher (HandleOut e b s l).2).
Proof.
  destruct (HandleOut_cipher e b s l) as [E [H|H] ]; rewrite H; [done|].
  unfold seal_next, TxCounter. destruct (_ =? _); [done|]. destruct (match enc_ctx_ _ with None => _ | Some _ => _ end) as [ctx keyed].
  destruct (EncryptData _ _ _ _ _ _ _) as [ctx' sealed]. done.
Qed.

Definition evp_ok : nat -> EvpCall -> bool := fun _ => all_ok.

(** What one side has sent moves to the other, which then runs. *)
Definition hand_over (a b : PeerSession) : PeerSession * PeerSession :=
  let la := link_ a in let lb := link_ b in
  (set_link (mkPipe (inq la) [] (closed la)) a, set_link (mkPipe (inq lb ++ outq la) (outq lb) (closed lb)) b).

Definition turn (a b : PeerSession) : PeerSession * PeerSession :=
  let '(a, b) := hand_over a b in (a, (Process app_id evp_ok b).2).

(** A session in the middle of the exchange. *)
Definition during (role : bool) (th mi cap : Z) (link : Pipe) (hc : bool) (oc neg : Z) (l : EncryptionLayer) (rdy : bool) (n : nat) : PeerSession :=
  mkSession link role (if hc then Some HandshakeHandler else None) (if hc then Some (handshake_codec (A := A)) else None)
    oc th l neg rdy 0 mi [] cap false [] n false.

Lemma handshake_lookup : handshake_codec (A := A) !! (2 ^ 64 - 2) = Some (HandshakePacketSerializerV1 (A := A)) /\
  handshake_codec (A := A) !! (2 ^ 64 - 3) = Some (ConnectionReadyPacketSerializerV1 (A := A)).
Proof. done. Qed.

(** ** Out *)

(** A packet of the exchange: its serializer and its bytes. *)
Definition on_wire (p : Packet) (body : list Z) : Prop :=
  0 <= packet_id app_id p < 2 ^ 64 /\ bytes_ok body /\ zlen body <= 2 ^ 21 /\
  exists s, handshake_codec !! packet_id app_id p = Some s /\ encodes s p body.

Definition compressed (p : Packet) (body : list Z) : list Z := None_ :: frame_image (packet_id app_id p) body.

Lemma zlen_frame id body : zlen (frame_image id body) <= zlen body + 14.
Proof.
  unfold frame_image. rewrite length_app, Nat2Z.inj_add, zlen_header. pose proof (var_size_range (mem_bytes 8 id)) as H. rewrite length_mem_bytes in H. lia.
Qed.

Lemma frame_bytes_ok (p : Packet) body : on_wire p body -> bytes_ok (frame_image (packet_id app_id p) body).
Proof.
  intros (Hid & Hok & HL & s & Hs & He). destruct (Serialize_image (packet_id app_id) handshake_codec p 4 s body Hs He Hok Hid ltac:(lia) ltac:(lia)) as (b & _ & Ha & [Ho _ _]).
  rewrite <- Ha. apply avail_bytes_ok, Ho.
Qed.

Lemma serialized (p : Packet) body th : on_wire p body ->
  exists b1 b2, Serialize (packet_id app_id) handshake_codec p kSendHeadroom = Some b1 /\
    HandleOutWithType (if readable_bytes b1 <? th then None_ else None_) b1 = Some b2 /\ headroom 3 b2 /\ avail b2 = compressed p body.
Proof.
  intros (Hid & Hok & HL & s & Hs & He).
  destruct (Serialize_image (packet_id app_id) handshake_codec p 4 s body Hs He Hok Hid ltac:(lia) ltac:(lia)) as (b & E & Ha & Hh).
  pose proof (zlen_frame (packet_id app_id p) body) as Hz. destruct (NoneCodec_out b (hd_opened _ _ Hh)) as (H1 & H2 & H3); [rewrite Ha; lia|].
  exists b, (NoneCodec_HandleOut b). split; [done|]. split; [by destruct (_ <? _)|]. split; [by apply (H3 4)|]. by rewrite H2, Ha.
Qed.

Lemma send_plain role th mi cap link neg l rdy n p body : on_wire p body -> closed link = false -> enable_encryption_ l = false ->
  SendImmediate app_id evp_ok p SendOptions_default (during role th mi cap link true None_ neg l rdy n) =
  (true, during role th mi cap (mkPipe (inq link) (outq link ++ [0 :: compressed p body]) false) true None_ neg l rdy (n + 1)).
Proof.
  intros Hp Hc He. unfold SendImmediate, IsAlive. cbn [link_ during IsClosed pipe]. rewrite Hc. cbn [negb].
  unfold EncodeAndSend, Encode. cbn [codec_ during out_compression_ compression_threshold_ encryption_layer_ evp_calls].
  destruct (serialized p body th Hp) as (b1 & b2 & -> & -> & Hh & Ha). unfold HandleOut. rewrite He.
  pose proof (hd_opened _ _ Hh) as Ho. pose proof (readable_avail b2 (op_wf _ Ho)) as Hr. rewrite Ha in Hr. pose proof (zlen_frame (packet_id app_id p) body) as Hz.
  destruct Hp as (_ & _ & HL & _). unfold compressed in Hr. cbn [length] in Hr. unfold int_max. destruct (Z.ltb_spec (2 ^ 31 - 1) (readable_bytes b2)); [lia|].
  destruct (PrependInt8_avail 0 b2) as (b3 & -> & _ & Ha3 & _); [destruct Hh; split; [done|lia|done]|]. cbn [Send pipe]. rewrite Ha3, Ha. by rewrite <- Hc.
Qed.

Lemma send_sealed role th mi cap link neg l rdy n p body : on_wire p body -> closed link = false -> enable_encryption_ l = true ->
  keys_ok (keys l) -> sealing (keys l) (cipher l) -> counter_of 0 (cipher l) < kMaxCounter ->
  exists c', SendImmediate app_id evp_ok p SendOptions_default (during role th mi cap link true None_ neg l rdy n) =
  (true, during role th mi cap (mkPipe (inq link) (outq link ++ [sealed_bytes (tx_key_ (keys l)) (tx_salt_ (keys l)) 0 (counter_of 0 (cipher l)) (compressed p body)]) false)
     true None_ neg (set_cipher c' l) rdy (n + 1)) /\ sealing (keys l) c' /\ counter_of 0 c' = counter_of 0 (cipher l) + 1 /\ rx_untouched (cipher l) c'.
Proof.
  intros Hp Hc He Hk Hs Hlt. unfold SendImmediate, IsAlive. cbn [link_ during IsClosed pipe]. rewrite Hc. cbn [negb].
  unfold EncodeAndSend, Encode. cbn [codec_ during out_compression_ compression_threshold_ encryption_layer_ evp_calls OrderingDomain pipe].
  destruct (serialized p body th Hp) as (b1 & b2 & -> & -> & Hh & Ha). pose proof (zlen_frame (packet_id app_id p) body) as Hz. pose proof Hp as (_ & _ & HL & _).
  destruct (HandleOut_sealed b2 0 l (hd_opened _ _ Hh)) as (nb & c' & E & _ & Ha' & Hs' & Hcnt); try done; [rewrite Ha; unfold compressed; cbn [length]; lia|].
  unfold evp_ok. rewrite E. exists c'. cbn [Send pipe]. rewrite Ha', Ha. split; [by rewrite <- Hc|]. split; [done|]. split; [by apply (Hcnt 0)|].
  pose proof (HandleOut_rx all_ok b2 0 l) as Hrx. by rewrite E in Hrx.
Qed.

(** ** In *)

(** A payload that is one frame, and the packet in it. *)
Record carries (k : @Codec Packet) (payload : Buffer) (id : Z) (body : list Z) (pk : Packet) : Prop := {
  ca_opened : opened payload;
  ca_avail : avail payload = frame_image id body;
  ca_error : last_error_ payload = NoError;
  ca_frame : frame_ok k (FDecoded id body NoError pk)
}.

Lemma dispatch_one k h payload id body pk s : carries k payload id body pk -> codec_ s = Some k ->
  Dispatch app_id evp_ok payload h s = (mkStats 0 false, Handle app_id evp_ok h s pk).
Proof.
  intros [Ho Ha He Hf] Hc. unfold Dispatch. rewrite Hc. pose proof (readable_avail payload (op_wf _ Ho)) as Hr. rewrite Ha in Hr.
  assert (H1 : 1 <= zlen (frame_image id body)) by (unfold frame_image; rewrite length_app; pose proof (header_nonempty id (zlen body)); lia).
  destruct (Z.to_nat (readable_bytes payload)) as [|fuel] eqn:Ef; [lia|]. cbn [dispatch_frames buffer stats].
  destruct (Z.ltb_spec 0 (readable_bytes payload)); [|lia]. rewrite Hc. rewrite bool_decide_eq_true_2 by (by eexists). cbn [negb andb].
  destruct (frame_step_frame k (FDecoded id body NoError pk) (mkDecoding (mkStats 0 false) [] payload) [] Hf Ho He)
    as (b' & -> & Ho' & Ha' & _); [cbn [frame_bytes buffer]; by rewrite app_nil_r|].
  cbn [handled app frame_packets foldl frame_stats stats buffer]. pose proof (readable_avail b' (op_wf _ Ho')) as Hr'. rewrite Ha' in Hr'. cbn in Hr'.
  destruct fuel; [done|]. cbn [dispatch_frames buffer]. rewrite Hr'. done.
Qed.

(** A session that gets one message and handles the packet in it. *)
Lemma process_one role th mi cap m out neg l n payload l1 id body pk out2 hc2 oc2 neg2 l2 rdy2 n2 :
  Decode evp_ok (received LittleEndian m) (during role th mi cap (mkPipe [] out false) true None_ neg l false n) =
    (Some payload, during role th mi cap (mkPipe [] out false) true None_ neg l1 false (n + 1)) ->
  carries handshake_codec payload id body pk ->
  Handle app_id evp_ok HandshakeHandler (during role th mi cap (mkPipe [] out false) true None_ neg l1 false (n + 1)) pk =
    during role th mi cap (mkPipe [] out2 false) hc2 oc2 neg2 l2 rdy2 n2 ->
  (Process app_id evp_ok (during role th mi cap (mkPipe [m] out false) true None_ neg l false n)).2 =
    during role th mi cap (mkPipe [] out2 false) hc2 oc2 neg2 l2 rdy2 n2.
Proof.
  intros Hd Hca Hh. unfold Process. change (IsAlive (during role th mi cap (mkPipe [m] out false) true None_ neg l false n)) with true. cbn [negb].
  change (set_link (T := pipe) _ (during role th mi cap (mkPipe [m] out false) true None_ neg l false n)) with (during role th mi cap (mkPipe [m] out false) true None_ neg l false n).
  set (s2 := during role th mi cap (mkPipe [] out2 false) hc2 oc2 neg2 l2 rdy2 n2) in *.
  assert (E1 : receive_once app_id evp_ok (during role th mi cap (mkPipe [m] out false) true None_ neg l false n) = (true, true, s2)).
  { unfold receive_once. cbn [handler_ codec_ during link_ Receive pipe inq outq closed].
    change (set_link (T := pipe) (mkPipe [] out false) (during role th mi cap (mkPipe [m] out false) true None_ neg l false n))
      with (during role th mi cap (mkPipe [] out false) true None_ neg l false n).
    rewrite Hd. rewrite (dispatch_one handshake_codec HandshakeHandler payload id body pk) by done. rewrite Hh. done. }
  assert (E2 : receive_once app_id evp_ok s2 = (false, false, s2)) by (unfold receive_once, s2; by destruct hc2).
  assert (E3 : forall k, receive_loop app_id evp_ok (S (S k)) false (during role th mi cap (mkPipe [m] out false) true None_ neg l false n) = (true, s2)).
  { intros k. cbn [receive_loop]. rewrite E1, E2. done. }
  change kMaxReceivesPerProcess with (S (S 254)). rewrite (E3 254%nat).
  change (ShouldEncodeInline s2) with true. cbn [orb]. change (DrainOutbound app_id evp_ok s2) with (false, s2). done.
Qed.

Lemma receive_plain role th mi cap link neg l n p body pk : on_wire p body -> key_filled_ l = false ->
  frame_ok (handshake_codec (A := A)) (FDecoded (packet_id app_id p) body NoError pk) ->
  exists payload, Decode evp_ok (received LittleEndian (0 :: compressed p body)) (during role th mi cap link true None_ neg l false n) =
    (Some payload, during role th mi cap link true None_ neg l false (n + 1)) /\ carries handshake_codec payload (packet_id app_id p) body pk.
Proof.
  intros Hp Hk Hf. pose proof (frame_bytes_ok p body Hp) as Hok. pose proof (zlen_frame (packet_id app_id p) body). pose proof Hp as (_ & _ & HL & _).
  destruct (received_opened (0 :: compressed p body)) as (Ho & Ha & He); [repeat (constructor; [done|]); done|unfold compressed; cbn [length]; lia|].
  unfold Decode, HandleIn, HandleDecrypt. destruct (ReadInt1_opened 0 (compressed p body) _ Ho Ha ltac:(done)) as (b1 & -> & Ho1 & Ha1 & He1).
  change (0 =? kModePlaintext) with true. cbn [encryption_layer_ during]. rewrite Hk. unfold HandleInDynamic.
  destruct (ReadInt1_opened None_ (frame_image (packet_id app_id p) body) b1 Ho1 Ha1 ltac:(done)) as (b2 & -> & Ho2 & Ha2 & He2).
  exists b2. split; [done|]. split; [done|done|congruence|done].
Qed.

Lemma receive_sealed role th mi cap link neg l n p body pk k seen : on_wire p body -> key_filled_ l = true -> keys_ok (keys l) ->
  opening (keys l) seen (cipher l) -> 0 <= k < 2 ^ 56 -> fresh k (seen 0) = true ->
  frame_ok (handshake_codec (A := A)) (FDecoded (packet_id app_id p) body NoError pk) ->
  exists payload c', Decode evp_ok (received LittleEndian (sealed_bytes (rx_key_ (keys l)) (rx_salt_ (keys l)) 0 k (compressed p body)))
    (during role th mi cap link true None_ neg l false n) =
    (Some payload, during role th mi cap link true None_ neg (set_cipher c' l) false (n + 1)) /\ carries handshake_codec payload (packet_id app_id p) body pk /\
    tx_untouched (cipher l) c' /\ opening (keys l) (see 0 k seen) c'.
Proof.
  intros Hp Hk Hks Hop Hkr Hfr Hf. pose proof (frame_bytes_ok p body Hp) as Hok. pose proof (zlen_frame (packet_id app_id p) body) as Hz. pose proof Hp as (_ & _ & HL & _).
  assert (Hcl : zlen (compressed p body) <= 2 ^ 22) by (unfold compressed; cbn [length]; lia).
  assert (Hcb : bytes_ok (compressed p body)) by (by constructor).
  assert (Hsb : zlen (sealed_bytes (rx_key_ (keys l)) (rx_salt_ (keys l)) 0 k (compressed p body)) <= 2 ^ 31 /\
    bytes_ok (sealed_bytes (rx_key_ (keys l)) (rx_salt_ (keys l)) 0 k (compressed p body))) by (destruct Hks as (_ & ? & _ & ?); apply sealed_bytes_ok; done || lia).
  destruct (received_opened _ (proj2 Hsb) (proj1 Hsb)) as (Ho & Ha & _). set (w := received LittleEndian _) in *.
  destruct (HandleIn_sealed w 0 k (compressed p body) l seen Ho Ha ltac:(lia) Hk Hks Hop ltac:(lia) Hkr Hcb) as (o & c' & E & Hop' & Hout).
  destruct (HandleIn_layer all_ok w l) as (c2 & E2 & Htx). rewrite E in E2. cbn [snd] in E2.
  assert (Hcc : c' = c2) by (by injection E2). subst c2. rewrite Hfr in *.
  destruct o as [o|]; [|done]. destruct Hout as (_ & Ho1 & Ha1 & He1). unfold Decode, evp_ok. cbn [encryption_layer_ during]. rewrite E. unfold HandleInDynamic.
  destruct (ReadInt1_opened None_ (frame_image (packet_id app_id p) body) o Ho1 Ha1 ltac:(done)) as (b2 & -> & Ho2 & Ha2 & He2).
  exists b2, c'. split; [done|]. split; [split; [done|done|congruence|done]|]. done.
Qed.

(** ** The two ends' keys *)

(** Diffie-Hellman between two key pairs whose public halves survive the wire:
    both ends compute the same secret. *)
Record key_agreement (kc ks : PKey) (dc ds : list Z) (pc ps : PKey) (secret : list Z) : Prop := {
  ka_dc : SerializePublicKey (Some kc) = Some dc;
  ka_ds : SerializePublicKey (Some ks) = Some ds;
  ka_pc : DeserializePublicKey dc = Some pc /\ SerializePublicKey (Some pc) = Some dc;
  ka_ps : DeserializePublicKey ds = Some ps /\ SerializePublicKey (Some ps) = Some ds;
  ka_der : (bytes_ok dc /\ zlen dc <= 2 ^ 20) /\ (bytes_ok ds /\ zlen ds <= 2 ^ 20);
  ka_client : EVP_PKEY_derive kc ps = Some secret;
  ka_server : EVP_PKEY_derive ks pc = Some secret;
  ka_secret : 1 <= zlen secret <= int_max
}.

Context `{!KdfLaws C}.

Lemma derive_mirrored kc ks dc ds pc ps secret k k' : key_agreement kc ks dc ds pc ps secret ->
  exists kkc kks, DeriveDirectionalKeys true (Some kc) (Some ps) secret k = (true, kkc) /\
    DeriveDirectionalKeys false (Some ks) (Some pc) secret k' = (true, kks) /\ keys_ok kkc /\ keys_ok kks /\
    tx_key_ kkc = rx_key_ kks /\ tx_salt_ kkc = rx_salt_ kks /\ rx_key_ kkc = tx_key_ kks /\ rx_salt_ kkc = tx_salt_ kks /\
    exporter_secret_ kkc = exporter_secret_ kks.
Proof.
  intros H. assert (Hz : forall info, zlen info <= 100 -> forall len, 0 <= len <= 255 * 32 -> exists out, Hkdf secret info len = Some out /\ zlen out = len).
  { intros info Hi len Hl. unfold Hkdf. pose proof (ka_secret _ _ _ _ _ _ _ H). unfold int_max in *.
    destruct (Z.ltb_spec (2 ^ 31 - 1) (zlen secret)); [lia|]. destruct (Z.ltb_spec (2 ^ 31 - 1) (zlen info)); [lia|].
    destruct (Z.ltb_spec (2 ^ 31 - 1) len); [lia|]. cbn [orb]. by apply hkdf_total. }
  destruct (Hz kClientToServer ltac:(by vm_compute) 36 ltac:(lia)) as (mc & Emc & Lmc). destruct (Hz kServerToClient ltac:(by vm_compute) 36 ltac:(lia)) as (ms & Ems & Lms).
  destruct (sha256_total (transcript dc ds)) as (digest & Edig & Ldig).
  destruct (Hz (literal "znet exporter v1" ++ digest) ltac:(rewrite length_app; change (length (literal "znet exporter v1")) with 16%nat; lia) 32 ltac:(lia)) as (ex & Eex & _).
  unfold DeriveDirectionalKeys, DeriveKeyFromSharedSecret, DeriveExporterSecret. rewrite Emc, Ems.
  rewrite (ka_dc _ _ _ _ _ _ _ H), (ka_ds _ _ _ _ _ _ _ H), (proj2 (ka_pc _ _ _ _ _ _ _ H)), (proj2 (ka_ps _ _ _ _ _ _ _ H)), Edig, Ldig. cbn [Z.eqb Pos.eqb].
  rewrite Eex. eexists _, _. split; [done|]. split; [done|]. cbn [tx_key_ rx_key_ tx_salt_ rx_salt_ exporter_secret_].
  assert (Hl : forall m : list Z, zlen m = 36 -> zlen (take 32 m) = 32 /\ zlen (slice 32 4 m) = 4) by (intros m Hm; rewrite length_take, length_slice by lia; lia).
  destruct (Hl mc Lmc), (Hl ms Lms). by split_and!.
Qed.

(** ** The packets of the exchange *)

Lemma handshake_on_wire h : handshake_fits h -> on_wire (PHandshake h) (handshake_body h) /\
  frame_ok (handshake_codec (A := A)) (FDecoded (packet_id app_id (PHandshake h)) (handshake_body h) NoError (PHandshake (handshake_read h))).
Proof.
  intros Hf. pose proof (handshake_body_length h Hf) as [HL Hok]. destruct handshake_lookup as [Hlk _]. change (packet_id app_id (PHandshake h)) with (2 ^ 64 - 2).
  split.
  - split; [by change (packet_id app_id (PHandshake h)) with (2 ^ 64 - 2)|]. split; [done|]. split; [lia|]. eexists. split; [exact Hlk|by apply handshake_encodes].
  - split; [done|]. split; [lia|]. eexists. split; [exact Hlk|by apply handshake_answers].
Qed.

Definition ready_body : list Z := string_image LittleEndian kMagic.

Lemma magic_ok : bytes_ok kMagic /\ zlen kMagic = 36.
Proof. split; [|done]. apply (bool_decide_unpack _). by vm_compute. Qed.

Lemma ready_on_wire : on_wire (PReady kMagic) ready_body /\
  frame_ok (handshake_codec (A := A)) (FDecoded (packet_id app_id (PReady kMagic)) ready_body NoError (PReady kMagic)).
Proof.
  destruct magic_ok as [Hok HL]. destruct handshake_lookup as [_ Hlk]. change (packet_id app_id (PReady kMagic)) with (2 ^ 64 - 3).
  assert (Hz : zlen ready_body <= 46).
  { unfold ready_body, string_image. rewrite length_app, Nat2Z.inj_add, zlen_var_image, HL. pose proof (var_size_range (mem_bytes 8 36)) as H. rewrite length_mem_bytes in H. lia. }
  assert (Hb : bytes_ok ready_body).
  { apply bytes_ok_app. split; [|done]. apply bytes_ok_app. split; [apply enc_bytes_ok|]. apply reorder_bytes_ok, Forall_take, mem_bytes_ok. }
  split.
  - split; [by change (packet_id app_id (PReady kMagic)) with (2 ^ 64 - 3)|]. split; [done|]. split; [lia|]. eexists. split; [exact Hlk|apply ready_encodes; [done|lia] ].
  - split; [done|]. split; [lia|]. eexists. split; [exact Hlk|apply ready_answers; [done|lia] ].
Qed.

(** ** The exchange *)

Definition layer0 (k : PKey) (want sent : bool) : EncryptionLayer :=
  mkLayer (Some k) None sent false false want false None false zero_keys Cipher_new.

Definition offer (k : PKey) (want : bool) (compression : Z) : HandshakePacket := mkHandshake (Some k) want compression.

Definition wire_of (p : Packet) (body : list Z) : list Z := 0 :: compressed p body.

Lemma client_starts kc wc comp th mi cap : handshake_fits (offer kc wc 0) ->
  PeerSession_new app_id evp_ok (mkPipe [] [] false) true (Some kc) wc comp th mi cap =
  during true th mi cap (mkPipe [] [wire_of (PHandshake (offer kc wc 0)) (handshake_body (offer kc wc 0))] false) true None_ None_ (layer0 kc wc true) false 1.
Proof.
  intros Hf. destruct (handshake_on_wire _ Hf) as [Hw _].
  pose proof (send_plain true th mi cap (mkPipe [] [] false) None_ (layer0 kc wc false) false 0 _ _ Hw eq_refl eq_refl) as E.
  unfold PeerSession_new, EncryptionLayer_ctor, Initialize, SendHandshake. cbn [upd_layer set_layer set_codec set_handler encryption_layer_ is_initiator_ want_encryption_ orb].
  match goal with |- context [SendImmediate app_id evp_ok ?p ?o ?s] => change (SendImmediate app_id evp_ok p o s) with
    (SendImmediate app_id evp_ok (PHandshake (offer kc wc 0)) SendOptions_default (during true th mi cap (mkPipe [] [] false) true None_ None_ (layer0 kc wc false) false 0)) end.
  rewrite E. done.
Qed.

Lemma server_starts ks w comp th mi cap :
  PeerSession_new app_id evp_ok (mkPipe [] [] false) false (Some ks) w comp th mi cap =
  during false th mi cap (mkPipe [] [] false) true None_ (ResolveCompressionType comp) (layer0 ks w false) false 0.
Proof. done. Qed.

(** A layer that has taken the peer's key. *)
Definition keyed (k peer : PKey) (sent_hs sent_rd enable want : bool) (secret : list Z) (ks : Keys) (c : Cipher) : EncryptionLayer :=
  mkLayer (Some k) (Some peer) sent_hs sent_rd enable want true (Some secret) true ks c.

(** The peer's key taken: what is owed next is sent. *)
Lemma take_key role th mi cap link neg k want sent peer secret ks h n : hs_pub_key h = Some peer ->
  EVP_PKEY_derive k peer = Some secret -> 1 <= zlen secret -> DeriveDirectionalKeys role (Some k) (Some peer) secret zero_keys = (true, ks) ->
  take_peer_key app_id evp_ok h (during role th mi cap link true None_ neg (layer0 k want sent) false n) =
  send_next app_id evp_ok (during role th mi cap link true None_ neg (keyed k peer sent false false want secret ks Cipher_new) false n).
Proof.
  intros Hh Hs Hz Hd. unfold take_peer_key. rewrite Hh. cbn [upd_layer set_layer set_peer_pkey during encryption_layer_ layer0 pub_key_ peer_pkey_ ComputeSharedSecret].
  rewrite Hs. destruct secret as [|x secret]; [done|].
  match goal with |- context [DeriveDirectionalKeys ?a ?b ?c ?d ?e] =>
    change (DeriveDirectionalKeys a b c d e) with (DeriveDirectionalKeys role (Some k) (Some peer) (x :: secret) zero_keys) end.
  rewrite Hd. done.
Qed.

Lemma send_offer role th mi cap link neg l n k : pub_key_ l = Some k -> role || want_encryption_ l = true -> enable_encryption_ l = false ->
  0 <= neg < 256 -> handshake_fits (offer k (want_encryption_ l) neg) -> closed link = false ->
  SendHandshake app_id evp_ok (during role th mi cap link true None_ neg l false n) =
  during role th mi cap (mkPipe (inq link) (outq link ++ [wire_of (PHandshake (offer k (want_encryption_ l) neg)) (handshake_body (offer k (want_encryption_ l) neg))]) false)
    true None_ neg (set_sent_handshake l) false (n + 1).
Proof.
  intros Hk Ho He Hn Hf Hc. destruct (handshake_on_wire _ Hf) as [Hw _].
  pose proof (send_plain role th mi cap link neg l false n _ _ Hw Hc He) as E. unfold SendHandshake.
  change (encryption_layer_ (during role th mi cap link true None_ neg l false n)) with l.
  change (is_initiator_ (during role th mi cap link true None_ neg l false n)) with role.
  change (negotiated_compression_ (during role th mi cap link true None_ neg l false n)) with neg.
  rewrite Ho, Hk. unfold GetCompressionTypeRaw. rewrite u8_small by lia. fold (offer k (want_encryption_ l) neg). rewrite E. done.
Qed.

Lemma opening_rx k seen c c' : rx_untouched c c' -> opening k seen c -> opening k seen c'.
Proof. intros (E1 & E2 & E3) [H1 H2]. split; [by rewrite E2, E3|]. intros st Hst. unfold window_of. rewrite E1. by apply H2. Qed.

Definition sealed_ready (key salt : list Z) : list Z := sealed_bytes key salt 0 0 (compressed (PReady kMagic) ready_body).

(** The first sealed message: the ready packet. *)
Lemma send_ready role th mi cap link neg k peer want secret ks c n : closed link = false -> keys_ok ks -> sealing ks c -> counter_of 0 c = 0 ->
  exists c', SendReady app_id evp_ok (during role th mi cap link true None_ neg (keyed k peer true false false want secret ks c) false n) =
    during role th mi cap (mkPipe (inq link) (outq link ++ [sealed_ready (tx_key_ ks) (tx_salt_ ks)]) false) true None_ neg
      (keyed k peer true true true want secret ks c') false (n + 1) /\
    sealing ks c' /\ counter_of 0 c' = 1 /\ rx_untouched c c'.
Proof.
  intros Hc Hk Hs H0. destruct ready_on_wire as [Hw _].
  destruct (send_sealed role th mi cap link neg (keyed k peer true false true want secret ks c) false n _ _ Hw Hc eq_refl Hk Hs) as (c' & E & Hs' & Hcnt & Hrx).
  { cbn [keyed cipher]. rewrite H0. done. }
  exists c'. split; [|split; [done|split; [by rewrite Hcnt; cbn [keyed cipher]; rewrite H0|done] ] ]. cbn [keyed cipher keys] in E. rewrite H0 in E. unfold SendReady.
  match goal with |- context [SendImmediate app_id evp_ok _ _ ?s] =>
    change s with (during role th mi cap link true None_ neg (keyed k peer true false true want secret ks c) false n) end.
  cbn [keyed]. rewrite E. done.
Qed.

Lemma ready_now role th mi cap link neg l n : closed link = false ->
  Ready (set_codec None (set_handler None (during role th mi cap link true None_ neg l false n))) = during role th mi cap link false neg neg l true n.
Proof.
  intros Hc. unfold Ready, IsAlive. cbn [set_codec set_handler during link_ IsClosed pipe negotiated_compression_]. rewrite Hc. cbn [negb].
  destruct (Z.eqb_spec neg None_) as [->|]; done.
Qed.

Section Encrypted.
Context (kc ks : PKey) (dc ds : list Z) (pc ps : PKey) (secret : list Z) (Hka : key_agreement kc ks dc ds pc ps secret).
Context (wc : bool) (nc : Z) (Hnc : 0 <= nc < 256).

Lemma offer_fits_c w n : 0 <= n < 256 -> handshake_fits (offer kc w n).
Proof. intros Hn. split; [done|]. cbn [offer hs_pub_key]. rewrite (ka_dc _ _ _ _ _ _ _ Hka). apply (ka_der _ _ _ _ _ _ _ Hka). Qed.

Lemma offer_fits_s w n : 0 <= n < 256 -> handshake_fits (offer ks w n).
Proof. intros Hn. split; [done|]. cbn [offer hs_pub_key]. rewrite (ka_ds _ _ _ _ _ _ _ Hka). apply (ka_der _ _ _ _ _ _ _ Hka). Qed.

Lemma offer_read_c w n : handshake_read (offer kc w n) = mkHandshake (Some pc) w n.
Proof. unfold handshake_read, offer. cbn [hs_pub_key hs_encryption hs_compression]. rewrite (ka_dc _ _ _ _ _ _ _ Hka), (proj1 (ka_pc _ _ _ _ _ _ _ Hka)). done. Qed.

Lemma offer_read_s w n : handshake_read (offer ks w n) = mkHandshake (Some ps) w n.
Proof. unfold handshake_read, offer. cbn [hs_pub_key hs_encryption hs_compression]. rewrite (ka_ds _ _ _ _ _ _ _ Hka), (proj1 (ka_ps _ _ _ _ _ _ _ Hka)). done. Qed.

(** The server takes the client's key and answers with its own. *)
Lemma server_answers th mi cap kks : DeriveDirectionalKeys false (Some ks) (Some pc) secret zero_keys = (true, kks) ->
  (Process app_id evp_ok (during false th mi cap (mkPipe [wire_of (PHandshake (offer kc wc 0)) (handshake_body (offer kc wc 0))] [] false) true None_ nc (layer0 ks true false) false 0)).2 =
  during false th mi cap (mkPipe [] [wire_of (PHandshake (offer ks true nc)) (handshake_body (offer ks true nc))] false) true None_ nc
    (keyed ks pc true false false true secret kks Cipher_new) false 2.
Proof.
  intros Hd. destruct (handshake_on_wire _ (offer_fits_c wc 0 ltac:(lia))) as [Hw Hf]. rewrite offer_read_c in Hf.
  destruct (receive_plain false th mi cap (mkPipe [] [] false) nc (layer0 ks true false) 0 _ _ _ Hw eq_refl Hf) as (payload & E & Hca).
  eapply process_one; [exact E|exact Hca|]. cbn [Handle]. unfold OnHandshakePacket.
  set (s1 := during false th mi cap (mkPipe [] [] false) true None_ nc (layer0 ks true false) false (0 + 1)).
  change (encryption_layer_ s1) with (layer0 ks true false). change (is_initiator_ s1) with false. cbn [layer0 peer_pkey_ key_filled_ want_encryption_ negb hs_pub_key].
  rewrite bool_decide_eq_false_2 by (by intros [? ?]). cbn [orb]. unfold s1.
  rewrite (take_key false th mi cap _ nc ks true false pc secret kks); [|done|apply Hka|apply (ka_secret _ _ _ _ _ _ _ Hka)|done].
  unfold send_next. match goal with |- context [negb (sent_handshake_ ?l)] => change (sent_handshake_ l) with false end. cbn [negb].
  rewrite (send_offer false th mi cap _ nc _ 1 ks); try done; by apply offer_fits_s.
Qed.

(** The client takes the server's key and is the first to encrypt. *)
Lemma client_confirms th mi cap kkc : DeriveDirectionalKeys true (Some kc) (Some ps) secret zero_keys = (true, kkc) -> keys_ok kkc ->
  exists c', (Process app_id evp_ok (during true th mi cap (mkPipe [wire_of (PHandshake (offer ks true nc)) (handshake_body (offer ks true nc))] [] false) true None_ None_
    (layer0 kc wc true) false 1)).2 =
  during true th mi cap (mkPipe [] [sealed_ready (tx_key_ kkc) (tx_salt_ kkc)] false) true None_ nc (keyed kc ps true true true wc secret kkc c') false 3 /\
  opening kkc (fun _ => []) c' /\ sealing kkc c' /\ counter_of 0 c' = 1.
Proof.
  intros Hd Hk. destruct (handshake_on_wire _ (offer_fits_s true nc Hnc)) as [Hw Hf]. rewrite offer_read_s in Hf.
  destruct (receive_plain true th mi cap (mkPipe [] [] false) None_ (layer0 kc wc true) 1 _ _ _ Hw eq_refl Hf) as (payload & E & Hca).
  destruct (send_ready true th mi cap (mkPipe [] [] false) nc kc ps wc secret kkc Cipher_new (1 + 1) eq_refl Hk (sealing_new kkc) eq_refl) as (c' & Es & Hs' & Hcnt & Hrx).
  exists c'. split; [|split; [|done]; by apply (opening_rx kkc _ Cipher_new); [|apply opening_new] ].
  eapply process_one; [exact E|exact Hca|]. cbn [Handle]. unfold OnHandshakePacket.
  set (s1 := during true th mi cap (mkPipe [] [] false) true None_ None_ (layer0 kc wc true) false (1 + 1)).
  change (encryption_layer_ s1) with (layer0 kc wc true). change (is_initiator_ s1) with true. cbn [layer0 peer_pkey_ key_filled_ hs_encryption hs_compression negb hs_pub_key].
  rewrite bool_decide_eq_false_2 by (by intros [? ?]). cbn [orb].
  change (set_negotiated_compression nc s1) with (during true th mi cap (mkPipe [] [] false) true None_ nc (layer0 kc wc true) false (1 + 1)).
  rewrite (take_key true th mi cap _ nc kc wc true ps secret kkc); [|done|apply Hka|apply (ka_secret _ _ _ _ _ _ _ Hka)|done].
  unfold send_next. match goal with |- context [negb (sent_handshake_ ?l)] => change (sent_handshake_ l) with true end.
  match goal with |- context [negb (sent_ready_ ?l)] => change (sent_ready_ l) with false end. cbn [negb]. exact Es.
Qed.

(** Either end on the other's ready packet. *)
Lemma ready_received role th mi cap out k peer (sent : bool) want kks c n m : keys_ok kks -> opening kks (fun _ => []) c -> closed (mkPipe [] out false) = false ->
  m = sealed_ready (rx_key_ kks) (rx_salt_ kks) -> sealing kks c -> counter_of 0 c = (if sent then 1 else 0) ->
  exists c' n', (Process app_id evp_ok (during role th mi cap (mkPipe [m] out false) true None_ nc (keyed k peer true sent sent want secret kks c) false n)).2 =
    during role th mi cap (mkPipe [] (if sent then out else out ++ [sealed_ready (tx_key_ kks) (tx_salt_ kks)]) false) false nc nc
      (keyed k peer true true true want secret kks c') true n' /\
    sealing kks c' /\ counter_of 0 c' = 1 /\ opening kks (see 0 0 (fun _ => [])) c'.
Proof.
  intros Hk Hop _ -> Hs H0. destruct ready_on_wire as [Hw Hf].
  destruct (receive_sealed role th mi cap (mkPipe [] out false) nc (keyed k peer true sent sent want secret kks c) n _ _ _ 0 _ Hw eq_refl Hk Hop ltac:(lia) eq_refl Hf)
    as (payload & c1 & E & Hca & Htx & Hop1). cbn [keyed keys cipher set_cipher] in E, Htx, Hop1.
  change (mkLayer _ _ _ _ _ _ _ _ _ _ c1) with (keyed k peer true sent sent want secret kks c1) in E.
  assert (Hh : exists c' n', Handle app_id evp_ok HandshakeHandler
    (during role th mi cap (mkPipe [] out false) true None_ nc (keyed k peer true sent sent want secret kks c1) false (n + 1)) (PReady kMagic) =
    during role th mi cap (mkPipe [] (if sent then out else out ++ [sealed_ready (tx_key_ kks) (tx_salt_ kks)]) false) false nc nc
      (keyed k peer true true true want secret kks c') true n' /\
    sealing kks c' /\ counter_of 0 c' = 1 /\ opening kks (see 0 0 (fun _ => [])) c').
  { assert (Hs1 : sealing kks c1) by (by apply (sealing_tx kks c)).
    assert (H1 : counter_of 0 c1 = if sent then 1 else 0) by (destruct Htx as (T1 & _); unfold counter_of in *; by rewrite T1).
    cbn [Handle]. unfold OnAcknowledgePacket. rewrite bool_decide_eq_true_2 by done. cbn [negb].
    match goal with |- context [negotiated_ ?l] => change (negotiated_ l) with true end. cbn [negb].
    match goal with |- context [negb (sent_ready_ ?l)] => change (sent_ready_ l) with sent end. destruct sent; cbn [negb].
    - exists c1, (n + 1)%nat. split; [by apply ready_now|done].
    - destruct (send_ready role th mi cap (mkPipe [] out false) nc k peer want secret kks c1 (n + 1) eq_refl Hk Hs1 H1) as (c2 & -> & Hs2 & H2 & Hrx).
      eexists c2, _. split; [by apply ready_now|]. split; [done|]. split; [done|by apply (opening_rx kks _ c1)]. }
  destruct Hh as (c' & n' & Hh & Hpos). exists c', n'. split; [|done]. eapply process_one; [exact E|exact Hca|exact Hh].
Qed.

End Encrypted.

(** ** Without encryption *)

Section Plaintext.
Context (kc ks : PKey) (dc : list Z) (pc : PKey) (Hdc : SerializePublicKey (Some kc) = Some dc) (Hpc : DeserializePublicKey dc = Some pc).
Context (Hder : bytes_ok dc /\ zlen dc <= 2 ^ 20) (wc : bool) (nc : Z) (Hnc : 0 <= nc < 256).

Definition no_key : HandshakePacket := mkHandshake None false nc.

(** A layer that settled on no encryption. *)
Definition settled (k : PKey) (sent_hs sent_rd want : bool) : EncryptionLayer :=
  mkLayer (Some k) None sent_hs sent_rd false want true None false zero_keys Cipher_new.

Lemma plain_ready role th mi cap link neg k want n : closed link = false ->
  SendReady app_id evp_ok (during role th mi cap link true None_ neg (settled k true false want) false n) =
  during role th mi cap (mkPipe (inq link) (outq link ++ [wire_of (PReady kMagic) ready_body]) false) true None_ neg (settled k true true want) false (n + 1).
Proof.
  intros Hc. destruct ready_on_wire as [Hw _]. pose proof (send_plain role th mi cap link neg (settled k true false want) false n _ _ Hw Hc eq_refl) as E.
  unfold SendReady. match goal with |- context [SendImmediate app_id evp_ok _ _ ?s] =>
    change s with (during role th mi cap link true None_ neg (settled k true false want) false n) end. rewrite E. done.
Qed.

Lemma server_declines th mi cap :
  (Process app_id evp_ok (during false th mi cap (mkPipe [wire_of (PHandshake (offer kc wc 0)) (handshake_body (offer kc wc 0))] [] false) true None_ nc (layer0 ks false false) false 0)).2 =
  during false th mi cap (mkPipe [] [wire_of (PHandshake no_key) (handshake_body no_key)] false) true None_ nc (settled ks true false false) false 2.
Proof.
  assert (Hfit : handshake_fits (offer kc wc 0)) by (split; [done|]; cbn [offer hs_pub_key]; by rewrite Hdc).
  assert (Hread : handshake_read (offer kc wc 0) = mkHandshake (Some pc) wc 0) by (unfold handshake_read, offer; cbn [hs_pub_key hs_encryption hs_compression]; by rewrite Hdc, Hpc).
  destruct (handshake_on_wire _ Hfit) as [Hw Hf]. rewrite Hread in Hf.
  destruct (receive_plain false th mi cap (mkPipe [] [] false) nc (layer0 ks false false) 0 _ _ _ Hw eq_refl Hf) as (payload & E & Hca).
  assert (Hfit2 : handshake_fits no_key) by (by split). destruct (handshake_on_wire _ Hfit2) as [Hw2 _].
  pose proof (send_plain false th mi cap (mkPipe [] [] false) nc (settled ks false false false) false 1 _ _ Hw2 eq_refl eq_refl) as Es.
  eapply process_one; [exact E|exact Hca|]. cbn [Handle]. unfold OnHandshakePacket.
  set (s1 := during false th mi cap (mkPipe [] [] false) true None_ nc (layer0 ks false false) false (0 + 1)).
  change (encryption_layer_ s1) with (layer0 ks false false). change (is_initiator_ s1) with false. cbn [layer0 peer_pkey_ key_filled_ want_encryption_ negb hs_pub_key].
  rewrite bool_decide_eq_false_2 by (by intros [? ?]). cbn [orb]. unfold send_next.
  match goal with |- context [negb (sent_handshake_ ?l)] => change (sent_handshake_ l) with false end. cbn [negb]. unfold SendHandshake.
  match goal with |- context [SendImmediate app_id evp_ok ?p ?o ?s] =>
    change (SendImmediate app_id evp_ok p o s) with (SendImmediate app_id evp_ok (PHandshake (mkHandshake None false (u8 nc))) SendOptions_default
      (during false th mi cap (mkPipe [] [] false) true None_ nc (settled ks false false false) false 1)) end.
  rewrite u8_small by lia. fold no_key. rewrite Es. done.
Qed.

Lemma client_follows th mi cap :
  (Process app_id evp_ok (during true th mi cap (mkPipe [wire_of (PHandshake no_key) (handshake_body no_key)] [] false) true None_ None_ (layer0 kc wc true) false 1)).2 =
  during true th mi cap (mkPipe [] [wire_of (PReady kMagic) ready_body] false) true None_ nc (settled kc true true wc) false 3.
Proof.
  assert (Hfit2 : handshake_fits no_key) by (by split). destruct (handshake_on_wire _ Hfit2) as [Hw Hf].
  destruct (receive_plain true th mi cap (mkPipe [] [] false) None_ (layer0 kc wc true) 1 _ _ _ Hw eq_refl Hf) as (payload & E & Hca).
  eapply process_one; [exact E|exact Hca|]. cbn [Handle]. unfold OnHandshakePacket.
  set (s1 := during true th mi cap (mkPipe [] [] false) true None_ None_ (layer0 kc wc true) false (1 + 1)).
  change (encryption_layer_ s1) with (layer0 kc wc true). change (is_initiator_ s1) with true. cbn [layer0 peer_pkey_ key_filled_].
  rewrite bool_decide_eq_false_2 by (by intros [? ?]). cbn [orb handshake_read no_key hs_encryption hs_compression negb].
  match goal with |- context [negb (sent_ready_ ?l)] => change (sent_ready_ l) with false end. cbn [negb].
  exact (plain_ready true th mi cap (mkPipe [] [] false) nc kc wc 2 eq_refl).
Qed.

Lemma plain_ready_received role th mi cap out k sent want n :
  exists n', (Process app_id evp_ok (during role th mi cap (mkPipe [wire_of (PReady kMagic) ready_body] out false) true None_ nc (settled k true sent want) false n)).2 =
    during role th mi cap (mkPipe [] (if sent then out else out ++ [wire_of (PReady kMagic) ready_body]) false) false nc nc (settled k true true want) true n'.
Proof.
  destruct ready_on_wire as [Hw Hf].
  destruct (receive_plain role th mi cap (mkPipe [] out false) nc (settled k true sent want) n _ _ _ Hw eq_refl Hf) as (payload & E & Hca).
  assert (Hh : exists n', Handle app_id evp_ok HandshakeHandler (during role th mi cap (mkPipe [] out false) true None_ nc (settled k true sent want) false (n + 1)) (PReady kMagic) =
    during role th mi cap (mkPipe [] (if sent then out else out ++ [wire_of (PReady kMagic) ready_body]) false) false nc nc (settled k true true want) true n').
  { cbn [Handle]. unfold OnAcknowledgePacket. rewrite bool_decide_eq_true_2 by done. cbn [negb].
    match goal with |- context [negotiated_ ?l] => change (negotiated_ l) with true end. cbn [negb].
    match goal with |- context [negb (sent_ready_ ?l)] => change (sent_ready_ l) with sent end. destruct sent; cbn [negb].
    - exists (n + 1)%nat. by apply ready_now.
    - rewrite plain_ready by done. eexists. by apply ready_now. }
  destruct Hh as (n' & Hh). exists n'. eapply process_one; [exact E|exact Hca|exact Hh].
Qed.

End Plaintext.

(** ** The theorem *)

(** The four turns of the exchange; the client has already sent its offer. *)
Definition handshake (c s : PeerSession) : PeerSession * PeerSession :=
  let '(c, s) := turn c s in
  let '(s, c) := turn s c in
  let '(c, s) := turn c s in
  let '(s, c) := turn s c in
  (c, s).

(** The sending side is about to seal message [n] of the session's one stream,
    and the receiving side has opened none from [n] on. *)
Definition tx_at (n : Z) (l : EncryptionLayer) : Prop :=
  enable_encryption_ l = true -> keys_ok (keys l) /\ sealing (keys l) (cipher l) /\ counter_of 0 (cipher l) = n.

Definition rx_at (n : Z) (l : EncryptionLayer) : Prop :=
  key_filled_ l = true -> keys_ok (keys l) /\ exists seen, opening (keys l) seen (cipher l) /\ Forall (fun m => 0 <= m < n) (seen 0).

(** Both ends are ready and agree. *)
Record agreed (encrypted : bool) (compression capc caps : Z) (c s : PeerSession) : Prop := {
  ag_ready : is_ready_ c = true /\ is_ready_ s = true;
  ag_alive : IsAlive c = true /\ IsAlive s = true;
  ag_encryption : enable_encryption_ (encryption_layer_ c) = encrypted /\ enable_encryption_ (encryption_layer_ s) = encrypted;
  ag_filled : key_filled_ (encryption_layer_ c) = encrypted /\ key_filled_ (encryption_layer_ s) = encrypted;
  ag_compression : out_compression_ c = compression /\ out_compression_ s = compression;
  ag_freed : freed_used c = false /\ freed_used s = false;
  ag_cleared : handler_ c = None /\ handler_ s = None /\ codec_ c = None /\ codec_ s = None;
  ag_idle : link_ c = mkPipe [] [] false /\ link_ s = mkPipe [] [] false /\ outbound_ c = [] /\ outbound_ s = [] /\ app_received c = [] /\ app_received s = [];
  ag_own : has_encoder_ c = false /\ has_encoder_ s = false;
  ag_capacity : send_queue_capacity_ c = capc /\ send_queue_capacity_ s = caps;
  ag_position : (tx_at 1 (encryption_layer_ c) /\ rx_at 1 (encryption_layer_ c)) /\ (tx_at 1 (encryption_layer_ s) /\ rx_at 1 (encryption_layer_ s));
  ag_keys : encrypted = true ->
    tx_key_ (keys (encryption_layer_ c)) = rx_key_ (keys (encryption_layer_ s)) /\ tx_salt_ (keys (encryption_layer_ c)) = rx_salt_ (keys (encryption_layer_ s)) /\
    rx_key_ (keys (encryption_layer_ c)) = tx_key_ (keys (encryption_layer_ s)) /\ rx_salt_ (keys (encryption_layer_ c)) = tx_salt_ (keys (encryption_layer_ s)) /\
    exporter_secret_ (keys (encryption_layer_ c)) = exporter_secret_ (keys (encryption_layer_ s))
}.

Lemma hand_over_during ra tha mia capa la hca oca nega lla rda na rb thb mib capb lb hcb ocb negb_ llb rdb nb :
  hand_over (during ra tha mia capa la hca oca nega lla rda na) (during rb thb mib capb lb hcb ocb negb_ llb rdb nb) =
  (during ra tha mia capa (mkPipe (inq la) [] (closed la)) hca oca nega lla rda na,
   during rb thb mib capb (mkPipe (inq lb ++ outq la) (outq lb) (closed lb)) hcb ocb negb_ llb rdb nb).
Proof. done. Qed.

Lemma turn_during ra tha mia capa m hca oca nega lla rda na rb thb mib capb hcb ocb negb_ llb rdb nb b' :
  (Process app_id evp_ok (during rb thb mib capb (mkPipe [m] [] false) hcb ocb negb_ llb rdb nb)).2 = b' ->
  turn (during ra tha mia capa (mkPipe [] [m] false) hca oca nega lla rda na) (during rb thb mib capb (mkPipe [] [] false) hcb ocb negb_ llb rdb nb) =
  (during ra tha mia capa (mkPipe [] [] false) hca oca nega lla rda na, b').
Proof. intros <-. unfold turn. rewrite hand_over_during. done. Qed.

Lemma handshake_agrees (kc ks : PKey) (dc ds : list Z) (pc ps : PKey) (secret : list Z) (wc w : bool) (compc comps thc mic capc ths mis caps : Z)
  (Hka : key_agreement kc ks dc ds pc ps secret) (Hcomp : 0 <= ResolveCompressionType comps < 256) :
  let c := PeerSession_new app_id evp_ok (mkPipe [] [] false) true (Some kc) wc compc thc mic capc in
  let s := PeerSession_new app_id evp_ok (mkPipe [] [] false) false (Some ks) w comps ths mis caps in
  agreed w (ResolveCompressionType comps) capc caps (handshake c s).1 (handshake c s).2.
Proof.
  cbv zeta. set (nc := ResolveCompressionType comps) in *. rewrite (client_starts kc wc compc thc mic capc (offer_fits_c kc ks dc ds pc ps secret Hka wc 0 ltac:(lia))).
  rewrite server_starts. fold nc. unfold handshake. destruct w.
  - destruct (derive_mirrored kc ks dc ds pc ps secret zero_keys zero_keys Hka) as (kkc & kks & Dc & Ds & Okc & Oks & M1 & M2 & M3 & M4 & M5).
    rewrite (turn_during _ _ _ _ _ _ _ _ _ _ _ _ _ _ _ _ _ _ _ _ _ _ (server_answers kc ks dc ds pc ps secret Hka wc nc Hcomp ths mis caps kks Ds)).
    destruct (client_confirms kc ks dc ds pc ps secret Hka wc nc Hcomp thc mic capc kkc Dc Okc) as (c1 & E1 & Hop1 & Hs1 & Hc1).
    rewrite (turn_during _ _ _ _ _ _ _ _ _ _ _ _ _ _ _ _ _ _ _ _ _ _ E1).
    destruct (ready_received secret nc false ths mis caps [] ks pc false true kks Cipher_new 2 (sealed_ready (tx_key_ kkc) (tx_salt_ kkc)) Oks (opening_new kks) eq_refl)
      as (c2 & n2 & E2 & Hs2 & Hc2 & Hop2); [by rewrite M1, M2|apply sealing_new|done|].
    rewrite (turn_during _ _ _ _ _ _ _ _ _ _ _ _ _ _ _ _ _ _ _ _ _ _ E2).
    destruct (ready_received secret nc true thc mic capc [] kc ps true wc kkc c1 3 (sealed_ready (tx_key_ kks) (tx_salt_ kks)) Okc Hop1 eq_refl)
      as (c3 & n3 & E3 & Hs3 & Hc3 & Hop3); [by rewrite M3, M4|done|done|].
    cbn [app]. rewrite (turn_during _ _ _ _ _ _ _ _ _ _ _ _ _ _ _ _ _ _ _ _ _ _ E3). split; try done.
    assert (Hseen : Forall (fun m => 0 <= m < 1) (see 0 0 (fun _ => []) 0)) by (repeat constructor; lia).
    split; split; intros _; (split; [done|]); [done|by exists (see 0 0 (fun _ => []))|done|by exists (see 0 0 (fun _ => []))].
  - rewrite (turn_during _ _ _ _ _ _ _ _ _ _ _ _ _ _ _ _ _ _ _ _ _ _ (server_declines kc ks dc pc (ka_dc _ _ _ _ _ _ _ Hka) (proj1 (ka_pc _ _ _ _ _ _ _ Hka))
      (proj1 (ka_der _ _ _ _ _ _ _ Hka)) wc nc Hcomp ths mis caps)).
    rewrite (turn_during _ _ _ _ _ _ _ _ _ _ _ _ _ _ _ _ _ _ _ _ _ _ (client_follows kc wc nc Hcomp thc mic capc)).
    destruct (plain_ready_received nc false ths mis caps [] ks false false 2) as (n2 & E2).
    rewrite (turn_during _ _ _ _ _ _ _ _ _ _ _ _ _ _ _ _ _ _ _ _ _ _ E2).
    destruct (plain_ready_received nc true thc mic capc [] kc true wc 3) as (n3 & E3).
    cbn [app]. rewrite (turn_during _ _ _ _ _ _ _ _ _ _ _ _ _ _ _ _ _ _ _ _ _ _ E3). split; try done.
Qed.

(** [C6] The key exchange completes and agrees: two honest sessions over a
    reliable ordered link, whose key pairs agree on a secret, are both ready after
    the four turns of the exchange.  Both encrypt exactly if the server wants to,
    whatever the client is configured with; then each end's sending key and salt
    are the other's receiving ones and both export the same secret; both compress
    as the server chose; and both wait for the application to install its codec
    and handler. *)
Theorem handshake_completes (kc ks : PKey) (dc ds : list Z) (pc ps : PKey) (secret : list Z) (wc w : bool) (compc comps thc mic capc ths mis caps : Z)
  (Hka : key_agreement kc ks dc ds pc ps secret) (Hcomp : 0 <= ResolveCompressionType comps < 256) :
  let c := PeerSession_new app_id evp_ok (mkPipe [] [] false) true (Some kc) wc compc thc mic capc in
  let s := PeerSession_new app_id evp_ok (mkPipe [] [] false) false (Some ks) w comps ths mis caps in
  agreed w (ResolveCompressionType comps) capc caps (handshake c s).1 (handshake c s).2.
Proof. exact (handshake_agrees kc ks dc ds pc ps secret wc w compc comps thc mic capc ths mis caps Hka Hcomp). Qed.

End Exchange.

(** ** What the exchange does not guard against *)

Section Unguarded.
Context `{P : Platform} `{!AmplePlatform P} `{C : Crypto} `{Zs : Zstd} `{T : TransportLayer}.
Context {A : Type} (app_id : A -> Z) (evp : nat -> EvpCall -> bool).

(** A peer can make a session run a destroyed codec: once the exchange is
    negotiated, a message that holds the ready packet and one more frame, of any
    packet, clears the session's handler and codec while that codec is still
    decoding the message; its next round looks the second frame up in the map of
    the destroyed object. *)
Theorem ready_with_more_uses_freed_codec (s : PeerSession (A := A)) (payload : Buffer) (id : Z) (body rest : list Z)
  (Hc : codec_ s = Some handshake_codec) (Hn : negotiated_ (encryption_layer_ s) = true)
  (Ho : opened payload) (He : last_error_ payload = NoError) (Hid : 0 <= id < 2 ^ 64) (Hb : zlen body < 2 ^ 32)
  (Ha : avail payload = frame_image (2 ^ 64 - 3) ready_body ++ frame_image id body ++ rest) :
  freed_used (Dispatch app_id evp payload HandshakeHandler s).2 = true.
Proof.
  unfold Dispatch. rewrite Hc. pose proof (readable_avail payload (op_wf _ Ho)) as Hr. rewrite Ha, !length_app in Hr.
  assert (H1 : forall i b, 5 <= zlen (frame_image i b)) by (intros i b; unfold frame_image; rewrite length_app; pose proof (header_nonempty i (zlen b)); lia).
  pose proof (H1 (2 ^ 64 - 3) ready_body). pose proof (H1 id body).
  destruct (Z.to_nat (readable_bytes payload)) as [|[|fuel] ] eqn:Ef; [lia|lia|]. cbn [dispatch_frames buffer stats].
  destruct (Z.ltb_spec 0 (readable_bytes payload)); [|lia]. rewrite Hc. rewrite bool_decide_eq_true_2 by (by eexists). cbn [negb andb].
  destruct (ready_on_wire (A := A) app_id) as [_ Hf].
  destruct (frame_step_frame handshake_codec _ (mkDecoding (mkStats 0 false) [] payload) _ Hf Ho He Ha) as (b' & -> & Ho' & Ha' & He').
  cbn [handled app frame_packets foldl frame_stats stats buffer dispatch_frames Handle].
  pose proof (readable_avail b' (op_wf _ Ho')) as Hr'. rewrite Ha', length_app in Hr'. destruct (Z.ltb_spec 0 (readable_bytes b')); [|lia].
  assert (Hcl : codec_ (OnAcknowledgePacket app_id evp kMagic s) = None).
  { unfold OnAcknowledgePacket. rewrite Hn, bool_decide_eq_true_2 by done. cbn [negb]. unfold Ready. repeat case_match; done. }
  rewrite Hcl, bool_decide_eq_false_2 by (by intros [? ?]). cbn [negb andb].
  destruct (frame_step_frame (∅ : Codec) (FUnknown id body) (mkDecoding (mkStats 0 false) [PReady (A := A) kMagic] b') rest) as (b2 & E2 & _); try done.
  unfold reaches_serializers. rewrite E2. done.
Qed.

(** The guard against a second handshake packet does not hold on an
    unencrypted session: where the server chose no encryption and the client has
    sent its ready packet, a second handshake packet that carries a key is taken.
    The client then has keys, so it refuses everything its peer sends in
    plaintext, while it goes on sending plaintext itself; it is not closed. *)
Theorem second_handshake_taken (s : PeerSession (A := A)) (h : HandshakePacket) (k peer : PKey) (x : Z) (secret : list Z) (ks : Keys)
  (Hi : is_initiator_ s = true) (Hk : pub_key_ (encryption_layer_ s) = Some k) (Hp : peer_pkey_ (encryption_layer_ s) = None)
  (Hf : key_filled_ (encryption_layer_ s) = false) (Hh : sent_handshake_ (encryption_layer_ s) = true) (Hr : sent_ready_ (encryption_layer_ s) = true)
  (He : enable_encryption_ (encryption_layer_ s) = false)
  (Henc : hs_encryption h = true) (Hkey : hs_pub_key h = Some peer) (Hsec : EVP_PKEY_derive k peer = Some (x :: secret))
  (Hd : DeriveDirectionalKeys true (Some k) (Some peer) (x :: secret) (keys (encryption_layer_ s)) = (true, ks)) :
  let s' := OnHandshakePacket app_id evp h s in
  link_ s' = link_ s /\ key_filled_ (encryption_layer_ s') = true /\ enable_encryption_ (encryption_layer_ s') = false.
Proof.
  cbv zeta. destruct s. cbn in *. match goal with l : EncryptionLayer |- _ => destruct l end. cbn in *. subst.
  unfold OnHandshakePacket. cbn. rewrite Henc, Hkey. cbn. unfold take_peer_key. rewrite Hkey. cbn. rewrite Hsec. cbn. rewrite Hd. done.
Qed.

End Unguarded.
