(* ===== verification/SessionDelivery.v ===== *)
(** * Packets between two connected sessions

    Composes the pipeline end to end: what one application queues is serialized,
    compressed and sealed by its session, crosses the link, and is opened,
    decompressed and decoded into calls of the other application's handler. *)

From S2P Require Import Prelude MpscQueue Buffer BufferSpec BufferCodecs BufferViews Codec CodecTheorems ReplayWindow Encryption EncryptionTheorems Compression ZdtOptions Session SessionPackets SessionTheorems SessionHandshake.

Import Codec Replay Encryption Compression Session.

Section Delivery.
Context `{P : Platform} `{!AmplePlatform P} `{C : Crypto} `{!GcmLaws C} `{Zs : Zstd} `{!ZstdLaws Zs}.
Context {A : Type} (app_id : A -> Z).

Abbreviation PeerSession := (@PeerSession C pipe A).
Abbreviation Packet := (@Packet C A).

(** The codec both applications install. *)
Context (k : @Codec Packet).

(** A packet the codec carries: its serializer writes bytes that it reads back
    as that packet. *)
Definition carried (p : Packet) : Prop :=
  exists body s, bytes_ok body /\ zlen body <= 2 ^ 21 /\ 0 <= packet_id app_id p < 2 ^ 64 /\
    k !! packet_id app_id p = Some s /\ encodes s p body /\ answers_ s body NoError (Some p).

(** What does not change while a session is up. *)
Record Setup := mkSetup { su_role : bool; su_compression : Z; su_threshold : Z; su_negotiated : Z; su_invalid : Z; su_max : Z; su_capacity : Z }.

Definition compresses (f : Setup) : Prop := su_compression f = None_ \/ su_compression f = Zstandard.

(** A session that is ready, its application installed. *)
Definition up (f : Setup) (link : Pipe) (l : EncryptionLayer) (q : list (Packet * SendOptions)) (recv : list Packet) (n : nat) : PeerSession :=
  mkSession link (su_role f) (Some AppHandler) (Some k) (su_compression f) (su_threshold f) l (su_negotiated f) true (su_invalid f) (su_max f) q
    (su_capacity f) false recv n false.

(** ** Out *)

(** Bytes that decompress and decode to [p]. *)
Definition packs (c : list Z) (p : Packet) : Prop :=
  bytes_ok c /\ zlen c <= 2 ^ 30 /\
  forall b, opened b -> avail b = c -> last_error_ b = NoError ->
    exists payload body, HandleInDynamic b = Some payload /\ carries k payload (packet_id app_id p) body p.

Lemma HandleOut_front type b : opened b -> headroom 4 b -> zlen (avail b) <= 2 ^ 22 -> type = None_ \/ type = Zstandard ->
  exists b2, HandleOutWithType type b = Some b2 /\ headroom 3 b2 /\ zlen (avail b2) <= 2 ^ 24.
Proof.
  intros Ho Hh HL Hty. destruct (NoneCodec_out b Ho) as (_ & Ha & Hr); [lia|].
  assert (Hn : exists b2, Some (NoneCodec_HandleOut b) = Some b2 /\ headroom 3 b2 /\ zlen (avail b2) <= 2 ^ 24).
  { eexists. split; [done|]. split; [by apply (Hr 4)|]. rewrite Ha. cbn [length]. lia. }
  unfold HandleOutWithType. destruct Hty as [-> | ->]; [done|]. change (Zstandard =? None_) with false. rewrite Z.eqb_refl. destruct ZNET_USE_ZSTD; [|done].
  destruct (ZstandardCodec_out b Ho) as (o & b2 & Ec & E & Hh2 & Ha2); [lia|]. exists b2. split; [done|]. split; [done|].
  destruct (zstd_fits _ _ _ _ Ec) as [Hf _]. pose proof (zstd_room (zlen (avail b)) ltac:(lia)). rewrite Ha2. cbn [length]. lia.
Qed.

Lemma pack_out f p : carried p -> compresses f ->
  exists b1 b2, Serialize (packet_id app_id) k p kSendHeadroom = Some b1 /\
    HandleOutWithType (if readable_bytes b1 <? su_threshold f then None_ else su_compression f) b1 = Some b2 /\ headroom 3 b2 /\
    zlen (avail b2) <= 2 ^ 24 /\ packs (avail b2) p.
Proof.
  intros (body & s & Hok & HL & Hid & Hs & He & Hans) Hco.
  destruct (Serialize_image (packet_id app_id) k p 4 s body Hs He Hok Hid ltac:(lia) ltac:(lia)) as (b1 & E1 & Ha1 & Hh1).
  pose proof (zlen_frame (packet_id app_id p) body) as Hz. pose proof (hd_opened _ _ Hh1) as Ho1.
  set (type := if readable_bytes b1 <? su_threshold f then None_ else su_compression f).
  assert (Hty : type = None_ \/ type = Zstandard) by (unfold type; destruct (_ <? _); [by left|done]).
  destruct (HandleOut_front type b1 Ho1 Hh1) as (b2 & E2 & Hh2 & HL2); [rewrite Ha1; lia|done|].
  exists b1, b2. split; [done|]. split; [done|]. split; [done|]. split; [done|]. split; [apply avail_bytes_ok, (op_wf _ (hd_opened _ _ Hh2))|]. split; [lia|].
  intros b Ho Ha Hn. destruct (compression_inverse type b1 b Ho1) as (payload & E & Hop & Hpa & Hpn); try done; [rewrite Ha1; lia|by rewrite E2, Ha|].
  exists payload, body. split; [done|]. split; [done|by rewrite Hpa|done|]. split; [done|]. split; [lia|]. by exists s.
Qed.

(** The bytes that leave for message [n]. *)
Definition wire (l : EncryptionLayer) (n : Z) (c : list Z) : list Z :=
  if enable_encryption_ l then sealed_bytes (tx_key_ (keys l)) (tx_salt_ (keys l)) 0 n c else 0 :: c.

Lemma wire_cipher l n c c' : wire (set_cipher c' l) n c = wire l n c.
Proof. done. Qed.

Lemma HandleOut_wire l n b : headroom 3 b -> zlen (avail b) <= 2 ^ 24 -> tx_at n l -> n < kMaxCounter ->
  exists nb c', HandleOut all_ok b 0 l = (Some nb, set_cipher c' l) /\ avail nb = wire l n (avail b) /\ tx_at (n + 1) (set_cipher c' l) /\ rx_untouched (cipher l) c'.
Proof.
  intros Hh HL Ht Hn. pose proof (hd_opened _ _ Hh) as Ho. pose proof (HandleOut_rx all_ok b 0 l) as Hrx. unfold wire, tx_at in *.
  destruct (enable_encryption_ l) eqn:He.
  - destruct (Ht eq_refl) as (Hk & Hs & Hc). destruct (HandleOut_sealed b 0 l Ho) as (nb & c' & E & _ & Ha & Hs' & Hcnt); try done; [lia|lia|].
    rewrite E in Hrx. exists nb, c'. rewrite <- Hc. split; [done|]. split; [done|]. split; [|done]. intros _. split; [done|]. split; [done|by apply (Hcnt 0)].
  - unfold HandleOut in *. rewrite He in *. pose proof (readable_avail b (op_wf _ Ho)) as Hr. unfold int_max in *.
    destruct (Z.ltb_spec (2 ^ 31 - 1) (readable_bytes b)); [lia|].
    destruct (PrependInt8_avail 0 b) as (nb & -> & _ & Ha & _); [destruct Hh; split; [done|lia|done]|].
    exists nb, (cipher l). rewrite set_cipher_same. split; [done|]. split; [done|]. split; [|done]. by rewrite He.
Qed.

Lemma send_one f link l q recv n m p o : carried p -> compresses f -> closed link = false -> tx_at m l -> m < kMaxCounter ->
  exists c c', packs c p /\
    EncodeAndSend app_id evp_ok p o (up f link l q recv n) =
      (true, up f (mkPipe (inq link) (outq link ++ [wire l m c]) false) (set_cipher c' l) q recv (n + 1)) /\
    tx_at (m + 1) (set_cipher c' l) /\ rx_untouched (cipher l) c'.
Proof.
  intros Hp Hf Hc Ht Hm. destruct (pack_out f p Hp Hf) as (b1 & b2 & E1 & E2 & Hh & HL & Hpk).
  destruct (HandleOut_wire l m b2 Hh HL Ht Hm) as (nb & c' & E3 & Ha & Ht' & Hrx). exists (avail b2), c'. split; [done|]. split; [|done].
  unfold EncodeAndSend, Encode. cbn [codec_ up compression_threshold_ out_compression_ encryption_layer_ evp_calls OrderingDomain pipe].
  rewrite E1, E2. unfold evp_ok. rewrite E3. cbn [Send pipe tick_evp set_layer link_]. rewrite Ha. by rewrite <- Hc.
Qed.

(** A layer of which only the sending side has moved. *)
Definition sent_from (l l' : EncryptionLayer) : Prop := exists c', l' = set_cipher c' l /\ rx_untouched (cipher l) c'.

Lemma drain_all f items link l recv n m worked : Forall (fun i => carried i.1) items -> compresses f -> closed link = false ->
  tx_at m l -> m + zlen items <= kMaxCounter ->
  exists cs l' n' w, Forall2 packs cs items.*1 /\ sent_from l l' /\ tx_at (m + zlen items) l' /\
    foldl (drain_item app_id evp_ok) (worked, up f link l [] recv n) items =
      (w, up f (mkPipe (inq link) (outq link ++ imap (fun i c => wire l (m + Z.of_nat i) c) cs) false) l' [] recv n').
Proof.
  intros Hi Hf. revert link l n m worked. induction Hi as [|[p o] items Hp _ IH]; intros link l n m worked Hc Ht Hm.
  { exists [], l, n, worked. split; [constructor|]. split; [exists (cipher l); by rewrite set_cipher_same|]. split; [by rewrite Z.add_0_r|].
    cbn. rewrite app_nil_r, <- Hc. by destruct link. }
  cbn [length] in Hm. destruct (send_one f link l [] recv n m p o Hp Hf Hc Ht ltac:(lia)) as (c & c' & Hpk & E & Ht' & Hrx).
  destruct (IH (mkPipe (inq link) (outq link ++ [wire l m c]) false) (set_cipher c' l) (n + 1)%nat (m + 1) true eq_refl Ht' ltac:(lia))
    as (cs & l' & n' & w & Hcs & (c2 & -> & Hrx2) & Ht2 & E2).
  exists (c :: cs), (set_cipher c2 (set_cipher c' l)), n', w. split; [by constructor|].
  split; [exists c2; split; [done|]; destruct Hrx as (? & ? & ?), Hrx2 as (? & ? & ?); by split_and!; etrans|].
  split; [cbn [length]; by replace (m + Z.of_nat (S (length items))) with (m + 1 + zlen items) by lia|].
  cbn [foldl drain_item fst snd]. unfold IsAlive. cbn [link_ up IsClosed pipe]. rewrite Hc. cbn [negb]. rewrite E. cbn [snd]. rewrite E2.
  cbn [inq outq imap]. rewrite <- app_assoc, Z.add_0_r. cbn [app]. do 5 f_equal. apply imap_ext. intros i x _. cbn [compose]. rewrite wire_cipher. f_equal. lia.
Qed.

(** ** In *)

(** One side's sending keys are the other's receiving ones. *)
Definition paired (from to : EncryptionLayer) : Prop :=
  enable_encryption_ from = key_filled_ to /\
  (key_filled_ to = true -> tx_key_ (keys from) = rx_key_ (keys to) /\ tx_salt_ (keys from) = rx_salt_ (keys to)).

Lemma HandleIn_wire from l m c : paired from l -> bytes_ok c -> zlen c <= 2 ^ 30 -> rx_at m l -> 0 <= m < kMaxCounter ->
  exists out c', HandleIn all_ok (received LittleEndian (wire from m c)) l = (Some out, set_cipher c' l) /\
    opened out /\ avail out = c /\ last_error_ out = NoError /\ rx_at (m + 1) (set_cipher c' l) /\ tx_untouched (cipher l) c'.
Proof.
  intros [He Hkeys] Hok HL Hrx Hm. unfold wire. rewrite He. unfold rx_at in *. change kMaxCounter with (2 ^ 56 - 1) in Hm. destruct (key_filled_ l) eqn:Hk.
  - destruct (Hkeys eq_refl) as [-> ->]. destruct (Hrx eq_refl) as (Hks & seen & Hop & Hseen).
    assert (Hsb : zlen (sealed_bytes (rx_key_ (keys l)) (rx_salt_ (keys l)) 0 m c) <= 2 ^ 31 /\ bytes_ok (sealed_bytes (rx_key_ (keys l)) (rx_salt_ (keys l)) 0 m c))
      by (destruct Hks as (_ & ? & _ & ?); apply sealed_bytes_ok; done || lia).
    destruct (received_opened _ (proj2 Hsb) (proj1 Hsb)) as (Ho & Ha & _). set (w := received LittleEndian _) in *.
    destruct (HandleIn_sealed w 0 m c l seen Ho Ha HL Hk Hks Hop ltac:(lia) ltac:(lia) Hok) as (o & c' & E & Hop' & Hout).
    destruct (HandleIn_layer all_ok w l) as (c2 & E2 & Htx). rewrite E in E2. assert (c' = c2) as <- by (by injection E2).
    rewrite (fresh_above m (seen 0) Hseen) in *. destruct o as [o|]; [|done]. destruct Hout as (_ & Ho1 & Ha1 & He1).
    exists o, c'. split; [done|]. split; [done|]. split; [done|]. split; [done|]. split; [|done]. intros _. split; [done|]. exists (see 0 m seen). split; [done|].
    unfold see. constructor; [lia|]. eapply Forall_impl; [exact Hseen|]. intros z Hz. cbn in Hz. lia.
  - destruct (received_opened (0 :: c)) as (Ho & Ha & Hn); [by constructor|cbn [length]; lia|].
    unfold HandleIn, HandleDecrypt. destruct (ReadInt1_opened 0 c _ Ho Ha ltac:(done)) as (b1 & -> & Ho1 & Ha1 & He1).
    change (0 =? kModePlaintext) with true. rewrite Hk. exists b1, (cipher l). rewrite set_cipher_same, Hk. split_and!; done || congruence.
Qed.

Lemma receive_one f from l m c p ws out q recv n : paired from l -> packs c p -> rx_at m l -> 0 <= m < kMaxCounter ->
  exists c', receive_once app_id evp_ok (up f (mkPipe (wire from m c :: ws) out false) l q recv n) =
      (true, true, up f (mkPipe ws out false) (set_cipher c' l) q (recv ++ [p]) (n + 1)) /\
    rx_at (m + 1) (set_cipher c' l) /\ tx_untouched (cipher l) c'.
Proof.
  intros Hpa (Hok & HL & Hin) Hrx Hm. destruct (HandleIn_wire from l m c Hpa Hok HL Hrx Hm) as (b & c' & E & Ho & Ha & Hn & Hrx' & Htx).
  destruct (Hin b Ho Ha Hn) as (payload & body & E2 & Hca). exists c'. split; [|done].
  unfold receive_once. cbn [handler_ codec_ up link_ Receive pipe inq outq closed]. unfold Decode, evp_ok.
  cbn [evp_calls encryption_layer_ set_link up]. rewrite E, E2. fold evp_ok. rewrite (dispatch_one app_id k AppHandler payload (packet_id app_id p) body p) by done. done.
Qed.

(** A layer of which only the receiving side has moved. *)
Definition opened_from (l l' : EncryptionLayer) : Prop := exists c', l' = set_cipher c' l /\ tx_untouched (cipher l) c'.

Lemma receive_all f from cs ps l m out q recv n fuel worked : Forall2 packs cs ps -> paired from l -> rx_at m l -> 0 <= m -> m + zlen cs <= kMaxCounter ->
  (length cs <= fuel)%nat ->
  exists l' n' w, receive_loop app_id evp_ok fuel worked (up f (mkPipe (imap (fun i c => wire from (m + Z.of_nat i) c) cs) out false) l q recv n) =
      (w, up f (mkPipe [] out false) l' q (recv ++ ps) n') /\
    opened_from l l' /\ rx_at (m + zlen cs) l'.
Proof.
  intros Hcs. revert l m recv n fuel worked. induction Hcs as [|c p cs ps Hp _ IH]; intros l m recv n fuel worked Hpa Hrx Hm Hmax Hfuel.
  { exists l, n. rewrite app_nil_r, Z.add_0_r. assert (Hl : opened_from l l) by (exists (cipher l); by rewrite set_cipher_same).
    destruct fuel; eexists; (split; [reflexivity|done]). }
  cbn [length] in *. destruct fuel as [|fuel]; [lia|]. cbn [imap receive_loop]. rewrite Z.add_0_r.
  destruct (receive_one f from l m c p (imap ((fun i c => wire from (m + Z.of_nat i) c) ∘ S) cs) out q recv n Hpa Hp Hrx ltac:(lia)) as (c' & -> & Hrx' & Htx).
  destruct (IH (set_cipher c' l) (m + 1) (recv ++ [p]) (n + 1)%nat fuel (worked || true) Hpa Hrx' ltac:(lia) ltac:(lia) ltac:(lia)) as (l' & n' & w & E & (c2 & -> & Htx2) & Hrx2).
  exists (set_cipher c2 (set_cipher c' l)), n', w. split; [|split; [exists c2; split; [done|]|by replace (m + Z.of_nat (S (length cs))) with (m + 1 + zlen cs) by lia] ].
  - rewrite <- app_assoc in E. cbn [app] in E. rewrite <- E.
    rewrite (imap_ext ((fun i c => wire from (m + Z.of_nat i) c) ∘ S) (fun i c => wire from (m + 1 + Z.of_nat i) c)); [done|].
    intros i x _. cbn [compose]. f_equal. lia.
  - destruct Htx as (? & ? & ?), Htx2 as (? & ? & ?). by split_and!; etrans.
Qed.

(** ** Two sessions *)

(** Both ends up and idle; [m] and [m'] are the numbers of the next message in
    either direction. *)
Record conversing (m m' : Z) (a b : PeerSession) (ra rb : list Packet) : Prop := {
  cv_ends : exists fa fb la lb na nb,
    a = up fa (mkPipe [] [] false) la [] ra na /\ b = up fb (mkPipe [] [] false) lb [] rb nb /\
    (compresses fa /\ compresses fb) /\ (256 <= su_capacity fa /\ 256 <= su_capacity fb) /\
    (paired la lb /\ paired lb la) /\ (tx_at m la /\ rx_at m lb) /\ (tx_at m' lb /\ rx_at m' la);
  cv_low : 0 <= m /\ 0 <= m'
}.

Lemma conversing_sym m m' a b ra rb : conversing m m' a b ra rb -> conversing m' m b a rb ra.
Proof. intros [ (fa & fb & la & lb & na & nb & H) H0]. split; [|tauto]. exists fb, fa, lb, la, nb, na. tauto. Qed.

(** The application queues packets. *)
Definition send_packets (items : list (Packet * SendOptions)) (s : PeerSession) : PeerSession :=
  foldl (fun s i => (SendPacket i.1 i.2 s).2) s items.

Lemma queue_all f link l recv n items q : closed link = false -> zlen q + zlen items <= Z.min (su_capacity f) (2 ^ 63) ->
  send_packets items (up f link l q recv n) = up f link l (q ++ items) recv n.
Proof.
  intros Hc. revert q. induction items as [|[p o] items IH]; intros q Hq; [by rewrite app_nil_r|]. cbn [length] in Hq.
  cbn [send_packets foldl fst snd]. unfold SendPacket, IsAlive. cbn [link_ up IsClosed pipe is_ready_ send_queue_capacity_ outbound_]. rewrite Hc. cbn [negb].
  pose proof (Mpsc.RoundUpPowerOfTwo_least (su_capacity f)).
  destruct (Z.leb_spec (Mpsc.RoundUpPowerOfTwo (su_capacity f)) (zlen q)); [lia|]. cbn [snd]. fold (send_packets items).
  change (send_packets items (up f link l (q ++ [(p, o)]) recv n) = up f link l (q ++ (p, o) :: items) recv n).
  rewrite IH by (rewrite length_app; cbn [length]; lia). by rewrite <- app_assoc.
Qed.

Lemma process_sends f l items recv n m : Forall (fun i => carried i.1) items -> compresses f -> tx_at m l -> m + zlen items <= kMaxCounter ->
  exists cs l' n', Forall2 packs cs items.*1 /\ sent_from l l' /\ tx_at (m + zlen items) l' /\
    (Process app_id evp_ok (up f (mkPipe [] [] false) l items recv n)).2 =
      up f (mkPipe [] (imap (fun i c => wire l (m + Z.of_nat i) c) cs) false) l' [] recv n'.
Proof.
  intros Hi Hf Ht Hm. destruct (drain_all f items (mkPipe [] [] false) l recv n m false Hi Hf eq_refl Ht Hm) as (cs & l' & n' & w & Hcs & Hl & Ht' & E).
  exists cs, l', n'. split; [done|]. split; [done|]. split; [done|]. unfold Process.
  change (receive_loop app_id evp_ok kMaxReceivesPerProcess false (set_link (T := pipe) (Update_ (link_ (up f (mkPipe [] [] false) l items recv n))) (up f (mkPipe [] [] false) l items recv n)))
    with (false, up f (mkPipe [] [] false) l items recv n).
  change (IsAlive (up f (mkPipe [] [] false) l items recv n)) with true. change (ShouldEncodeInline (up f (mkPipe [] [] false) l items recv n)) with true. cbn [negb orb].
  unfold DrainOutbound. change (set_outbound [] (up f (mkPipe [] [] false) l items recv n)) with (up f (mkPipe [] [] false) l [] recv n).
  change (outbound_ (up f (mkPipe [] [] false) l items recv n)) with items. rewrite E. done.
Qed.

Lemma process_receives f from cs ps l m recv n : Forall2 packs cs ps -> paired from l -> rx_at m l -> 0 <= m -> m + zlen cs <= kMaxCounter ->
  (length cs <= 256)%nat ->
  exists l' n', (Process app_id evp_ok (up f (mkPipe (imap (fun i c => wire from (m + Z.of_nat i) c) cs) [] false) l [] recv n)).2 =
      up f (mkPipe [] [] false) l' [] (recv ++ ps) n' /\ opened_from l l' /\ rx_at (m + zlen cs) l'.
Proof.
  intros Hcs Hpa Hrx Hm Hmax Hlen. destruct (receive_all f from cs ps l m [] [] recv n kMaxReceivesPerProcess false Hcs Hpa Hrx Hm Hmax Hlen)
    as (l' & n' & w & E & Hl & Hrx'). exists l', n'. split; [|done]. unfold Process. set (s := up f _ l [] recv n) in *.
  change (IsAlive s) with true. cbn [negb]. change (set_link (T := pipe) (Update_ (link_ s)) s) with s. rewrite E. done.
Qed.

(** One side's application queues packets, its session runs, the link carries
    what left, the other session runs. *)
Definition deliver (items : list (Packet * SendOptions)) (a b : PeerSession) : PeerSession * PeerSession :=
  turn app_id (Process app_id evp_ok (send_packets items a)).2 b.

Lemma tx_opened m l l' : opened_from l l' -> tx_at m l -> tx_at m l'.
Proof.
  intros (c & -> & H) Ht He. destruct (Ht He) as (Hk & Hs & Hc). split; [done|]. split; [by apply (sealing_tx _ (cipher l))|].
  destruct H as (T & _). unfold counter_of in *. cbn [set_cipher cipher]. by rewrite T.
Qed.

Lemma rx_sent m l l' : sent_from l l' -> rx_at m l -> rx_at m l'.
Proof. intros (c & -> & H) Hr He. destruct (Hr He) as (Hk & seen & Ho & Hs). split; [done|]. exists seen. split; [by apply (opening_rx _ _ (cipher l))|done]. Qed.

Lemma deliver_round m m' a b ra rb items : conversing m m' a b ra rb -> Forall (fun i => carried i.1) items ->
  (length items <= 256)%nat -> m + zlen items <= kMaxCounter ->
  conversing (m + zlen items) m' (deliver items a b).1 (deliver items a b).2 ra (rb ++ items.*1).
Proof.
  intros [ (fa & fb & la & lb & na & nb & -> & -> & [Hfa Hfb] & [Hca Hcb] & [Hab Hba] & [Hta Hrb] & [Htb Hra]) [H0 H0'] ] Hi Hlen Hmax.
  unfold deliver. rewrite queue_all by (done || (cbn [length]; lia)). cbn [app].
  destruct (process_sends fa la items ra na m Hi Hfa Hta Hmax) as (cs & la' & na' & Hcs & Hsent & Hta' & ->).
  assert (Hl : length cs = length items) by (rewrite (Forall2_length _ _ _ Hcs); apply length_fmap).
  destruct (process_receives fb la cs items.*1 lb m rb nb Hcs Hab Hrb H0) as (lb' & nb' & E & Hop & Hrb'); [lia|lia|].
  unfold turn. match goal with |- context [hand_over ?x ?y] => change (hand_over x y) with
    (up fa (mkPipe [] [] false) la' [] ra na', up fb (mkPipe (imap (fun i c => wire la (m + Z.of_nat i) c) cs) [] false) lb [] rb nb) end.
  cbv beta iota. rewrite E. cbn [fst snd]. rewrite Hl in Hrb'. split; [|lia]. exists fa, fb, la', lb', na', nb'. pose proof Hsent as (ca & -> & _). pose proof Hop as (cb & -> & _).
  split_and!; try done; [by eapply tx_opened|by eapply rx_sent].
Qed.

(** Whose turn it is, and what is said. *)
Definition Round : Type := bool * list (Packet * SendOptions).

Definition converse (ends : PeerSession * PeerSession) (r : Round) : PeerSession * PeerSession :=
  let '(c, s) := ends in
  if r.1 then deliver r.2 c s else let '(s, c) := deliver r.2 s c in (c, s).

Definition said (by_client : bool) (rounds : list Round) : list Packet :=
  rounds ≫= fun r => if Bool.eqb r.1 by_client then r.2.*1 else [].

Definition round_ok (r : Round) : Prop := Forall (fun i => carried i.1) r.2 /\ (length r.2 <= 256)%nat.

Lemma converse_all rounds c s rc rs m m' : conversing m m' c s rc rs -> Forall round_ok rounds ->
  m + 256 * zlen rounds <= kMaxCounter -> m' + 256 * zlen rounds <= kMaxCounter ->
  exists n n', let ends := foldl converse (c, s) rounds in conversing n n' ends.1 ends.2 (rc ++ said false rounds) (rs ++ said true rounds).
Proof.
  intros Hcv Hr. revert c s rc rs m m' Hcv. induction Hr as [|[from items] rounds [Hi Hl] _ IH]; intros c s rc rs m m' Hcv Hm Hm'.
  { exists m, m'. unfold said. cbn. by rewrite !app_nil_r. }
  cbn [length fst snd] in *. destruct from; cbn [foldl converse fst snd].
  - pose proof (deliver_round m m' c s rc rs items Hcv Hi Hl ltac:(lia)) as H. destruct (deliver items c s) as [c1 s1].
    destruct (IH c1 s1 rc (rs ++ items.*1) _ _ H ltac:(lia) ltac:(lia)) as (n & n' & Hn). exists n, n'. unfold said in *. cbn [mbind list_bind fst snd Bool.eqb app]. by rewrite <- app_assoc in Hn.
  - pose proof (deliver_round m' m s c rs rc items (conversing_sym _ _ _ _ _ _ Hcv) Hi Hl ltac:(lia)) as H. destruct (deliver items s c) as [s1 c1].
    destruct (IH c1 s1 (rc ++ items.*1) rs _ _ (conversing_sym _ _ _ _ _ _ H) ltac:(lia) ltac:(lia)) as (n & n' & Hn). exists n, n'. unfold said in *. cbn [mbind list_bind fst snd Bool.eqb app]. by rewrite <- app_assoc in Hn.
Qed.

(** The connect event: the application installs its codec and handler. *)
Definition install (s : PeerSession) : PeerSession := set_codec (Some k) (set_handler (Some AppHandler) s).

Lemma installed (s : PeerSession) : is_ready_ s = true -> freed_used s = false -> has_encoder_ s = false -> outbound_ s = [] -> app_received s = [] ->
  link_ s = mkPipe [] [] false ->
  exists f, install s = up f (mkPipe [] [] false) (encryption_layer_ s) [] [] (evp_calls s) /\
    su_compression f = out_compression_ s /\ su_capacity f = send_queue_capacity_ s.
Proof.
  intros. destruct s. cbn in *. subst.
  match goal with |- context [install (mkSession _ ?r _ _ ?oc ?th _ ?ng _ ?iv ?mi _ ?cp _ _ _ _)] => exists (mkSetup r oc th ng iv mi cp) end. done.
Qed.

Lemma agreed_conversing enc comp capc caps c s : agreed enc comp capc caps c s -> comp = None_ \/ comp = Zstandard -> 256 <= capc -> 256 <= caps ->
  conversing 1 1 (install c) (install s) [] [].
Proof.
  intros [ [R1 R2] _ [E1 E2] [K1 K2] [O1 O2] [F1 F2] _ (L1 & L2 & Q1 & Q2 & A1 & A2) [N1 N2] [Z1 Z2] [ [T1 X1] [T2 X2] ] Hk] Hc Hcc Hcs.
  destruct (installed c) as (fc & Ec & Oc & Cc); try done. destruct (installed s) as (fs & Es & Os & Cs); try done.
  split; [|lia]. eexists fc, fs, _, _, _, _. split; [exact Ec|]. split; [exact Es|]. unfold compresses. rewrite Oc, Os, Cc, Cs, O1, O2, Z1, Z2.
  split; [done|]. split; [done|]. split; [|done]. unfold paired. rewrite E1, E2, K1, K2. split; (split; [done|]); intros He; destruct (Hk He) as (? & ? & ? & ? & _); done.
Qed.

Context `{!KdfLaws C}.

(** [C1] Two sessions connect and talk: after the key exchange of two honest
    sessions and the installation of one codec on both, whatever rounds of
    packets the two applications queue, in any alternation, each application's
    handler is called with exactly the packets the other queued, in order and
    once; through the outbound queue, serialization, compression, encryption with
    the server's choice of either, replay protection, decryption, decompression
    and dispatch.  The link is a pipe that loses and reorders nothing, a round is at
    most 256 packets of one side, what one [Process] of the other takes in, and no call
    of OpenSSL fails. *)
Theorem sessions_deliver (kc ks : PKey) (dc ds : list Z) (pc ps : PKey) (secret : list Z) (wc w : bool) (compc comps thc mic capc ths mis caps : Z) (rounds : list Round)
  (Hka : key_agreement kc ks dc ds pc ps secret) (Hcomp : ResolveCompressionType comps = None_ \/ ResolveCompressionType comps = Zstandard)
  (Hcap : 256 <= capc /\ 256 <= caps) (Hr : Forall round_ok rounds) (Hn : zlen rounds <= 2 ^ 40) :
  let c := PeerSession_new app_id evp_ok (mkPipe [] [] false) true (Some kc) wc compc thc mic capc in
  let s := PeerSession_new app_id evp_ok (mkPipe [] [] false) false (Some ks) w comps ths mis caps in
  let '(c, s) := handshake app_id c s in
  let '(c, s) := foldl converse (install c, install s) rounds in
  app_received c = said false rounds /\ app_received s = said true rounds /\ IsAlive c = true /\ IsAlive s = true.
Proof.
  cbv zeta. set (c0 := PeerSession_new _ _ _ true _ _ _ _ _ _). set (s0 := PeerSession_new _ _ _ false _ _ _ _ _ _).
  pose proof (handshake_agrees app_id kc ks dc ds pc ps secret wc w compc comps thc mic capc ths mis caps Hka) as H.
  specialize (H ltac:(destruct Hcomp as [-> | ->]; done)). cbv zeta in H. fold c0 s0 in H. destruct (handshake app_id c0 s0) as [c s]. cbn [fst snd] in H.
  pose proof (agreed_conversing _ _ _ _ _ _ H Hcomp (proj1 Hcap) (proj2 Hcap)) as Hcv.
  destruct (converse_all rounds _ _ _ _ _ _ Hcv Hr) as (n & n' & Hend); [change kMaxCounter with (2 ^ 56 - 1); lia..|].
  cbv zeta in Hend. destruct (foldl converse _ rounds) as [c' s']. cbn [fst snd app] in Hend.
  destruct Hend as [ (fa & fb & la & lb & na & nb & -> & -> & _) _]. done.
Qed.

End Delivery.
