(* ===== verification/SessionExamples.v ===== *)
(** * Compression and sessions at work on small instances *)

From S2P Require Import Prelude Buffer BufferSpec BufferCodecs BufferTheorems BufferViews Codec CodecTheorems ReplayWindow Encryption EncryptionTheorems CryptoExample Compression ZdtOptions Session SessionPackets SessionTheorems SessionHandshake SessionDelivery.

Import Codec Replay Encryption Compression Session Toy.

Module SessionExamples.

#[local] Instance machine : Platform := host LittleEndian.

#[local] Instance machine_ample : AmplePlatform machine.
Proof. apply host_ample. Qed.

(** ** zstd *)

(** A compressor that only adds a trailer. *)
Definition pack (src : list Z) (capacity : Z) : option (list Z) :=
  if bool_decide (bytes_ok src /\ zlen src + 1 <= capacity) then Some (src ++ [42]) else None.

Definition unpack (src : list Z) (capacity : Z) : option (list Z) :=
  let out := take (length src - 1) src in
  if bool_decide (bytes_ok src /\ src = out ++ [42] /\ zlen out <= capacity) then Some out else None.

#[local] Instance toy_zstd : Zstd := {|
  ZNET_USE_ZSTD := true;
  ZSTD_compressBound n := n + 1;
  ZSTD_compress src capacity _ := pack src capacity;
  ZSTD_getFrameContentSize src := Some (zlen src - 1);
  ZSTD_decompress := unpack
|}.

Lemma pack_spec src cap out : pack src cap = Some out -> bytes_ok src /\ zlen src + 1 <= cap /\ out = src ++ [42].
Proof. unfold pack. case_bool_decide as H; [|done]. intros [= <-]. destruct H. done. Qed.

#[local] Instance toy_zstd_laws : ZstdLaws toy_zstd.
Proof.
  split; cbn [ZSTD_compressBound ZSTD_compress ZSTD_getFrameContentSize ZSTD_decompress toy_zstd].
  - intros n H. pose proof (Z.div_pos n 256). lia.
  - intros src level Hok HL. unfold pack. rewrite bool_decide_eq_true_2 by (split; [done|lia]). by eexists.
  - intros src cap level out (Hok & HL & ->)%pack_spec. rewrite length_app. cbn [length]. split; [lia|].
    apply Forall_app. split; [done|by repeat constructor].
  - intros src cap level out (Hok & HL & ->)%pack_spec. rewrite length_app. cbn [length]. f_equal. lia.
  - intros src cap level out (Hok & HL & ->)%pack_spec. unfold unpack. rewrite length_app. cbn [length].
    replace (length src + 1 - 1)%nat with (length src) by lia. rewrite take_app_length, bool_decide_eq_true_2; [done|].
    split; [|split; [done|lia] ]. apply Forall_app. split; [done|by repeat constructor].
  - intros src cap out E. unfold unpack in E. case_bool_decide as H; [|done]. injection E as <-. destruct H as (Hok & _ & HL).
    split; [done|by apply Forall_take].
Qed.

Lemma compression_roundtrip_witness :
  exists out b', HandleOutWithType Zstandard (received LittleEndian [5; 6; 7]) = Some out /\
    HandleInDynamic (received LittleEndian (avail out)) = Some b' /\ avail b' = avail (received LittleEndian [5; 6; 7]) /\ last_error_ b' = NoError.
Proof.
  apply (compression_roundtrip machine_ample toy_zstd_laws Zstandard (received LittleEndian [5; 6; 7])).
  - apply received_opened; [repeat constructor; done|done].
  - done.
  - by right.
Defined.

(** A frame that claims more than there is memory for. *)
Definition bomb : Zstd := {|
  ZNET_USE_ZSTD := true;
  ZSTD_compressBound n := n + 1;
  ZSTD_compress _ _ _ := None;
  ZSTD_getFrameContentSize _ := Some (2 ^ 63);
  ZSTD_decompress src _ := Some src
|}.

Lemma claimed_size_writes_null_witness : exists b', @DecompressZstd machine bomb (received LittleEndian [5; 6; 7]) = Some b' /\ ub_ b' = true.
Proof.
  apply (@claimed_size_writes_null machine bomb (received LittleEndian [5; 6; 7]) (2 ^ 63) [5; 6; 7]); [|reflexivity|reflexivity|vm_compute; reflexivity|discriminate].
  apply received_opened; [repeat constructor; done|done].
Defined.

(** ** Sessions *)

#[local] Instance toy_kdf : KdfLaws toy.
Proof.
  split.
  - intros salt secret info len Hl. eexists. split; [reflexivity|]. unfold expand. rewrite length_fmap, length_seqZ. lia.
  - intros m. eexists. split; [reflexivity|]. unfold expand. rewrite length_fmap, length_seqZ. lia.
Qed.

(** The application has no packets of its own. *)
Definition no_id (a : Empty_set) : Z := match a with end.

Definition kc : @PKey toy := keypair 5.
Definition ks : @PKey toy := keypair 9.

Lemma toy_agreement : key_agreement kc ks [kc.2] [ks.2] (None, kc.2) (None, ks.2) [ks.2 ^ 5 mod 251; 1].
Proof. split; vm_compute; repeat split; try reflexivity; try discriminate; repeat constructor; discriminate. Qed.

Definition client : PeerSession (T := pipe) := PeerSession_new no_id evp_ok (mkPipe [] [] false) true (Some kc) false Default 0 16 64.
Definition server : PeerSession (T := pipe) := PeerSession_new no_id evp_ok (mkPipe [] [] false) false (Some ks) true Default 0 16 64.

Lemma handshake_completes_witness : agreed true Zstandard 64 64 (handshake no_id client server).1 (handshake no_id client server).2.
Proof. unfold client, server. change Zstandard with (ResolveCompressionType Default). apply (handshake_completes no_id kc ks _ _ _ _ _ false true Default Default 0 16 64 0 16 64 toy_agreement). vm_compute. split; [discriminate|reflexivity]. Defined.

(** The exchange is made of steps of either session. *)
Lemma turn_steps (a b : PeerSession (T := pipe)) : rtc (step no_id evp_ok) a (turn no_id a b).1 /\ rtc (step no_id evp_ok) b (turn no_id a b).2.
Proof. split; [apply rtc_once, step_link|eapply rtc_l; [apply step_link|apply rtc_once, step_process] ]. Qed.

Lemma handshake_steps (c s : PeerSession (T := pipe)) : rtc (step no_id evp_ok) c (handshake no_id c s).1 /\ rtc (step no_id evp_ok) s (handshake no_id c s).2.
Proof.
  unfold handshake. pose proof (turn_steps c s) as [H1 H2]. destruct (turn no_id c s) as [c1 s1].
  pose proof (turn_steps s1 c1) as [H3 H4]. destruct (turn no_id s1 c1) as [s2 c2].
  pose proof (turn_steps c2 s2) as [H5 H6]. destruct (turn no_id c2 s2) as [c3 s3].
  pose proof (turn_steps s3 c3) as [H7 H8]. destruct (turn no_id s3 c3) as [s4 c4]. cbn in *.
  split; repeat (etrans; [eassumption|]); done.
Qed.

Abbreviation met := (handshake no_id client server).



(** A server that has answered, and a client's ready packet with more behind. *)
Definition answered : PeerSession (T := pipe) := (turn no_id client server).2.

Definition ready_and_more : Buffer := received LittleEndian (frame_image (2 ^ 64 - 3) ready_body ++ frame_image 7 [1; 2] ++ []).

Lemma ready_with_more_uses_freed_codec_witness : freed_used (Dispatch no_id evp_ok ready_and_more HandshakeHandler answered).2 = true.
Proof.
  assert (Hok : bytes_ok (frame_image (2 ^ 64 - 3) ready_body ++ frame_image 7 [1; 2] ++ [])) by (apply (bool_decide_unpack _); vm_compute; exact I).
  destruct (received_opened _ Hok ltac:(vm_compute; discriminate)) as (Ho & Ha & He).
  apply (ready_with_more_uses_freed_codec no_id evp_ok answered ready_and_more 7 [1; 2] []); [reflexivity|vm_compute; reflexivity|exact Ho|exact He|lia|done|exact Ha].
Defined.

(** A client whose server chose no encryption. *)
Definition plain_server : PeerSession (T := pipe) := PeerSession_new no_id evp_ok (mkPipe [] [] false) false (Some ks) false Default 0 16 64.

Definition following : PeerSession (T := pipe) := let '(c, s) := turn no_id client plain_server in (turn no_id s c).2.

Definition ks_public : @PKey toy := (None, ks.2).

Lemma second_handshake_taken_witness :
  let s' := OnHandshakePacket no_id evp_ok (mkHandshake (Some ks_public) true 0) following in
  link_ s' = link_ following /\ key_filled_ (encryption_layer_ s') = true /\ enable_encryption_ (encryption_layer_ s') = false.
Proof.
  apply (second_handshake_taken no_id evp_ok following (mkHandshake (Some ks_public) true 0) kc ks_public (ks.2 ^ 5 mod 251) [1]
    (DeriveDirectionalKeys true (Some kc) (Some ks_public) [ks.2 ^ 5 mod 251; 1] (keys (encryption_layer_ following))).2); vm_compute; reflexivity.
Defined.

(** An application of one packet, a 16-bit number. *)
Definition note : PacketSerializer (Packet := @Packet toy Z) :=
  mkSerializer (fun p b => match p with PApp v => SFramed (WriteInt 2 v b) | _ => SNothing end)
    (fun b => let '(v, b) := ReadInt 2 b in (Some (PApp v), b)).

Definition notes : Codec (Packet := @Packet toy Z) := {[7 := note]}.

Lemma note_carried v : 0 <= v < 2 ^ 16 -> carried (fun _ => 7) notes (PApp v).
Proof.
  intros Hv. exists (enc LittleEndian 2 v), note. split; [apply enc_bytes_ok|]. split; [rewrite zlen_enc; lia|]. split; [cbn; lia|]. split; [reflexivity|]. split.
  - intros b Hr He. cbn [note Serialize_]. rewrite zlen_enc in Hr by lia. apply (writes_WriteInt LittleEndian 2 v ltac:(lia) b He).
    rewrite zlen_enc by lia. eapply ready_weaken; [|exact Hr]. lia.
  - intros b Hwf He Ha Hn Hin. cbn [note Deserialize_].
    destruct (ReadInt_enc LittleEndian 2 v b [] Hwf He ltac:(lia) ltac:(lia)) as (b' & E & Cb); [by rewrite app_nil_r|].
    pose proof (ReadInt_reads 2 b Hwf ltac:(lia)) as R. rewrite E in *. exists b'. split; [done|]. split; [done|].
    rewrite (con_err _ _ _ _ Cb), (con_rc _ _ _ _ Cb), Hn. split; [done|]. intros _. rewrite zlen_enc by lia. lia.
Qed.

Definition say (v : Z) : @Packet toy Z * SendOptions := (PApp v, SendOptions_default).

Definition rounds : list (@Round toy Z) := [(true, [say 1; say 2]); (false, [say 3]); (true, [say 4])].

Lemma sessions_deliver_witness :
  said false rounds = [PApp 3] /\ said true rounds = [PApp 1; PApp 2; PApp 4] /\
  let c := PeerSession_new (fun _ => 7) evp_ok (mkPipe [] [] false) true (Some kc) false Default 2 16 256 in
  let s := PeerSession_new (fun _ => 7) evp_ok (mkPipe [] [] false) false (Some ks) true Default 2 16 256 in
  let '(c, s) := handshake (fun _ => 7) c s in
  let '(c, s) := foldl (converse (fun _ => 7)) (install notes c, install notes s) rounds in
  app_received c = said false rounds /\ app_received s = said true rounds /\ IsAlive c = true /\ IsAlive s = true.
Proof.
  split; [reflexivity|]. split; [reflexivity|].
  apply (sessions_deliver (fun _ => 7) notes kc ks _ _ _ _ _ false true Default Default 2 16 256 2 16 256 rounds toy_agreement);
    [right; reflexivity|lia| |vm_compute; discriminate].
  repeat constructor; try (apply note_carried; lia); cbn; lia.
Defined.

End SessionExamples.
