(* ===== verification/ZdtState.v ===== *)
(** * The transport's state (zdt_transport.h, zdt_net.h)

    The data the per-peer transport keeps, grouped by what uses it: the path it
    sends on, the sender's bookkeeping, the receiver's, and the queues at its
    edges.  Times are nanoseconds of the steady clock.  A [std::map] keyed by
    [MsgKey] is a finite map whose traversal order is given by [ordered_keys]. *)

From S2P Require Import Prelude Buffer ZdtWire ZdtAckHistory ZdtCongestion ZdtOptions.

(** ** MsgKey *)

Record MsgKey := mkKey { k_channel : Z; k_reliable : bool; k_frag_index : Z; k_message_seq : Z }.

#[export] Instance MsgKey_eq_dec : EqDecision MsgKey.
Proof. solve_decision. Defined.

#[export] Instance MsgKey_countable : Countable MsgKey.
Proof.
  refine (inj_countable' (fun k => (k_channel k, k_reliable k, k_frag_index k, k_message_seq k))
    (fun '(c, r, i, s) => mkKey c r i s) _).
  by intros [].
Defined.

(** [operator<]: channel, then reliable, then message_seq, then frag_index. *)
Definition key_lt (a b : MsgKey) : bool :=
  if k_channel a <? k_channel b then true else if k_channel b <? k_channel a then false
  else match k_reliable a, k_reliable b with
       | false, true => true
       | true, false => false
       | _, _ =>
           if k_message_seq a <? k_message_seq b then true else if k_message_seq b <? k_message_seq a then false
           else k_frag_index a <? k_frag_index b
       end.

Definition key_le (a b : MsgKey) : Prop := key_lt b a = false.

#[export] Instance key_le_dec : RelDecision key_le.
Proof. intros a b. unfold key_le. apply _. Defined.

Definition ordered_keys {A} (m : gmap MsgKey A) : list MsgKey :=
  merge_sort key_le (map_to_list m).*1.

(** [std::map::lower_bound] *)
Definition lower_bound {A} (k : MsgKey) (m : gmap MsgKey A) : option MsgKey :=
  head (filter (fun k' => key_lt k' k = false) (ordered_keys m)).

(** ** What is tracked per message and per datagram *)

(** The ring of recent transmissions of one message. *)
Record TransmissionLog := mkLog { tl_items : list Z; tl_count : Z; tl_next : Z }.

Definition tl_capacity : Z := 16.

Definition TransmissionLog_default : TransmissionLog := mkLog (repeat 0 16) 0 0.

Definition TransmissionLog_Add (seq : Z) (l : TransmissionLog) : TransmissionLog :=
  mkLog (<[Z.to_nat (tl_next l) := seq]> (tl_items l))
    (if tl_count l <? tl_capacity then tl_count l + 1 else tl_count l)
    (u8 ((tl_next l + 1) mod tl_capacity)).

(** [begin()] to [end()]. *)
Definition tl_entries (l : TransmissionLog) : list Z := take (Z.to_nat (tl_count l)) (tl_items l).

Definition MakeLog (seq : Z) : TransmissionLog := TransmissionLog_Add seq TransmissionLog_default.

(** The keys a datagram carries; the array's capacity is 64 and the list is its
    used part. *)
Record SentInfo := mkSent { send_time : Z; si_keys : list MsgKey }.

Definition kMaxKeys : Z := 64.

Definition key_count (i : SentInfo) : Z := zlen (si_keys i).

Definition SentInfo_Add (key : MsgKey) (i : SentInfo) : SentInfo :=
  if key_count i <? kMaxKeys then mkSent (send_time i) (si_keys i ++ [key]) else i.

Record OutReliable := mkOut {
  o_message : Buffer;
  o_offset : Z;
  o_length : Z;
  o_channel : Z;
  o_message_seq : Z;
  o_frag_index : Z;
  o_frag_count : Z;
  o_data_flags : Z;
  o_last_send : Z;
  o_send_count : Z;
  o_packets : TransmissionLog
}.

Definition set_o_message (v : Buffer) (s : OutReliable) : OutReliable :=
  mkOut v (o_offset s) (o_length s) (o_channel s) (o_message_seq s) (o_frag_index s) (o_frag_count s) (o_data_flags s) (o_last_send s) (o_send_count s) (o_packets s).
Definition set_o_offset (v : Z) (s : OutReliable) : OutReliable :=
  mkOut (o_message s) v (o_length s) (o_channel s) (o_message_seq s) (o_frag_index s) (o_frag_count s) (o_data_flags s) (o_last_send s) (o_send_count s) (o_packets s).
Definition set_o_length (v : Z) (s : OutReliable) : OutReliable :=
  mkOut (o_message s) (o_offset s) v (o_channel s) (o_message_seq s) (o_frag_index s) (o_frag_count s) (o_data_flags s) (o_last_send s) (o_send_count s) (o_packets s).
Definition set_o_channel (v : Z) (s : OutReliable) : OutReliable :=
  mkOut (o_message s) (o_offset s) (o_length s) v (o_message_seq s) (o_frag_index s) (o_frag_count s) (o_data_flags s) (o_last_send s) (o_send_count s) (o_packets s).
Definition set_o_message_seq (v : Z) (s : OutReliable) : OutReliable :=
  mkOut (o_message s) (o_offset s) (o_length s) (o_channel s) v (o_frag_index s) (o_frag_count s) (o_data_flags s) (o_last_send s) (o_send_count s) (o_packets s).
Definition set_o_frag_index (v : Z) (s : OutReliable) : OutReliable :=
  mkOut (o_message s) (o_offset s) (o_length s) (o_channel s) (o_message_seq s) v (o_frag_count s) (o_data_flags s) (o_last_send s) (o_send_count s) (o_packets s).
Definition set_o_frag_count (v : Z) (s : OutReliable) : OutReliable :=
  mkOut (o_message s) (o_offset s) (o_length s) (o_channel s) (o_message_seq s) (o_frag_index s) v (o_data_flags s) (o_last_send s) (o_send_count s) (o_packets s).
Definition set_o_data_flags (v : Z) (s : OutReliable) : OutReliable :=
  mkOut (o_message s) (o_offset s) (o_length s) (o_channel s) (o_message_seq s) (o_frag_index s) (o_frag_count s) v (o_last_send s) (o_send_count s) (o_packets s).
Definition set_o_last_send (v : Z) (s : OutReliable) : OutReliable :=
  mkOut (o_message s) (o_offset s) (o_length s) (o_channel s) (o_message_seq s) (o_frag_index s) (o_frag_count s) (o_data_flags s) v (o_send_count s) (o_packets s).
Definition set_o_send_count (v : Z) (s : OutReliable) : OutReliable :=
  mkOut (o_message s) (o_offset s) (o_length s) (o_channel s) (o_message_seq s) (o_frag_index s) (o_frag_count s) (o_data_flags s) (o_last_send s) v (o_packets s).
Definition set_o_packets (v : TransmissionLog) (s : OutReliable) : OutReliable :=
  mkOut (o_message s) (o_offset s) (o_length s) (o_channel s) (o_message_seq s) (o_frag_index s) (o_frag_count s) (o_data_flags s) (o_last_send s) (o_send_count s) v.

(** One message queued for the datagram being packed.  [payload] points at
    [p_offset] of the owner's bytes. *)
Record PendingRecord := mkPending {
  p_record : ZDTRecord;
  p_owner : Buffer;
  p_offset : Z;
  p_payload_len : Z;
  p_reliable : bool;
  p_key : MsgKey
}.

Record Reassembly := mkReassembly {
  ra_frag_count : Z;
  ra_fragments : gmap Z (list Z);
  ra_first_seen : Z
}.

Record ChannelState := mkChannel {
  rel_send : Z;
  unrel_send : Z;
  rel_expected : Z;
  rel_reorder : gmap Z Buffer;
  rel_delivered_ahead : gset Z;
  unrel_last : Z;
  unrel_started : bool
}.

Definition set_rel_send (v : Z) (s : ChannelState) : ChannelState :=
  mkChannel v (unrel_send s) (rel_expected s) (rel_reorder s) (rel_delivered_ahead s) (unrel_last s) (unrel_started s).
Definition set_unrel_send (v : Z) (s : ChannelState) : ChannelState :=
  mkChannel (rel_send s) v (rel_expected s) (rel_reorder s) (rel_delivered_ahead s) (unrel_last s) (unrel_started s).
Definition set_rel_expected (v : Z) (s : ChannelState) : ChannelState :=
  mkChannel (rel_send s) (unrel_send s) v (rel_reorder s) (rel_delivered_ahead s) (unrel_last s) (unrel_started s).
Definition set_rel_reorder (v : gmap Z Buffer) (s : ChannelState) : ChannelState :=
  mkChannel (rel_send s) (unrel_send s) (rel_expected s) v (rel_delivered_ahead s) (unrel_last s) (unrel_started s).
Definition set_rel_delivered_ahead (v : gset Z) (s : ChannelState) : ChannelState :=
  mkChannel (rel_send s) (unrel_send s) (rel_expected s) (rel_reorder s) v (unrel_last s) (unrel_started s).
Definition set_unrel_last (v : Z) (s : ChannelState) : ChannelState :=
  mkChannel (rel_send s) (unrel_send s) (rel_expected s) (rel_reorder s) (rel_delivered_ahead s) v (unrel_started s).
Definition set_unrel_started (v : bool) (s : ChannelState) : ChannelState :=
  mkChannel (rel_send s) (unrel_send s) (rel_expected s) (rel_reorder s) (rel_delivered_ahead s) (unrel_last s) v.

Definition ChannelState_default : ChannelState := mkChannel 0 0 0 ∅ ∅ 0 false.

Record QueuedOut := mkQueued { q_payload : Buffer; q_options : SendOptions }.

Record StagedLane := mkLane { lane_channel : Z; lane_messages : list QueuedOut }.

Record ZDTInbound := mkInbound { datagram : Buffer; arrival : Z }.

(** ** The components of the state *)

(** Fixed at construction. *)
Record Setup := mkSetup {
  config_ : ZDTOptions;
  drains_own_socket_ : bool;
  connection_ : ZDTConnection;
  keepalive_interval_ : Z;
  idle_timeout_ : Z
}.

(** A socket is known by its identity; the peer by its address. *)
Abbreviation UDPSocket := Z (only parsing).

(** The path: where datagrams go, what went out on it so far (oldest first) and
    which sockets were shut down.  [ticks] counts the readings of the clock. *)
Record Path := mkPath {
  socket_ : option UDPSocket;
  peer_ : option InetAddress;
  pending_peer_ : option InetAddress;
  pending_socket_ : option UDPSocket;
  is_closed_ : bool;
  wire_ : list (UDPSocket * InetAddress * list Z);
  shutdowns_ : list UDPSocket;
  ticks_ : nat
}.

Definition set_socket (v : option UDPSocket) (s : Path) : Path :=
  mkPath v (peer_ s) (pending_peer_ s) (pending_socket_ s) (is_closed_ s) (wire_ s) (shutdowns_ s) (ticks_ s).
Definition set_peer (v : option InetAddress) (s : Path) : Path :=
  mkPath (socket_ s) v (pending_peer_ s) (pending_socket_ s) (is_closed_ s) (wire_ s) (shutdowns_ s) (ticks_ s).
Definition set_pending_peer (v : option InetAddress) (s : Path) : Path :=
  mkPath (socket_ s) (peer_ s) v (pending_socket_ s) (is_closed_ s) (wire_ s) (shutdowns_ s) (ticks_ s).
Definition set_pending_socket (v : option UDPSocket) (s : Path) : Path :=
  mkPath (socket_ s) (peer_ s) (pending_peer_ s) v (is_closed_ s) (wire_ s) (shutdowns_ s) (ticks_ s).
Definition set_is_closed (v : bool) (s : Path) : Path :=
  mkPath (socket_ s) (peer_ s) (pending_peer_ s) (pending_socket_ s) v (wire_ s) (shutdowns_ s) (ticks_ s).
Definition set_wire (v : list (UDPSocket * InetAddress * list Z)) (s : Path) : Path :=
  mkPath (socket_ s) (peer_ s) (pending_peer_ s) (pending_socket_ s) (is_closed_ s) v (shutdowns_ s) (ticks_ s).
Definition set_shutdowns (v : list UDPSocket) (s : Path) : Path :=
  mkPath (socket_ s) (peer_ s) (pending_peer_ s) (pending_socket_ s) (is_closed_ s) (wire_ s) v (ticks_ s).
Definition set_ticks (v : nat) (s : Path) : Path :=
  mkPath (socket_ s) (peer_ s) (pending_peer_ s) (pending_socket_ s) (is_closed_ s) (wire_ s) (shutdowns_ s) v.

Record Sender := mkSender {
  next_packet_seq_ : Z;
  sent_packets_ : gmap Z SentInfo;
  in_flight_datagrams_ : Z;
  unacked_ : gmap MsgKey OutReliable;
  next_retransmit_scan_ : Z;
  tail_probe_at_ : Z;
  tail_probes_fired_ : Z;
  rtt_ : ZDTRttEstimator;
  congestion_ : ZDTCongestionController;
  last_send_ : Z;
  send_scratch_ : Buffer
}.

Definition set_next_packet_seq (v : Z) (s : Sender) : Sender :=
  mkSender v (sent_packets_ s) (in_flight_datagrams_ s) (unacked_ s) (next_retransmit_scan_ s) (tail_probe_at_ s) (tail_probes_fired_ s) (rtt_ s) (congestion_ s) (last_send_ s) (send_scratch_ s).
Definition set_sent_packets (v : gmap Z SentInfo) (s : Sender) : Sender :=
  mkSender (next_packet_seq_ s) v (in_flight_datagrams_ s) (unacked_ s) (next_retransmit_scan_ s) (tail_probe_at_ s) (tail_probes_fired_ s) (rtt_ s) (congestion_ s) (last_send_ s) (send_scratch_ s).
Definition set_in_flight_datagrams (v : Z) (s : Sender) : Sender :=
  mkSender (next_packet_seq_ s) (sent_packets_ s) v (unacked_ s) (next_retransmit_scan_ s) (tail_probe_at_ s) (tail_probes_fired_ s) (rtt_ s) (congestion_ s) (last_send_ s) (send_scratch_ s).
Definition set_unacked (v : gmap MsgKey OutReliable) (s : Sender) : Sender :=
  mkSender (next_packet_seq_ s) (sent_packets_ s) (in_flight_datagrams_ s) v (next_retransmit_scan_ s) (tail_probe_at_ s) (tail_probes_fired_ s) (rtt_ s) (congestion_ s) (last_send_ s) (send_scratch_ s).
Definition set_next_retransmit_scan (v : Z) (s : Sender) : Sender :=
  mkSender (next_packet_seq_ s) (sent_packets_ s) (in_flight_datagrams_ s) (unacked_ s) v (tail_probe_at_ s) (tail_probes_fired_ s) (rtt_ s) (congestion_ s) (last_send_ s) (send_scratch_ s).
Definition set_tail_probe_at (v : Z) (s : Sender) : Sender :=
  mkSender (next_packet_seq_ s) (sent_packets_ s) (in_flight_datagrams_ s) (unacked_ s) (next_retransmit_scan_ s) v (tail_probes_fired_ s) (rtt_ s) (congestion_ s) (last_send_ s) (send_scratch_ s).
Definition set_tail_probes_fired (v : Z) (s : Sender) : Sender :=
  mkSender (next_packet_seq_ s) (sent_packets_ s) (in_flight_datagrams_ s) (unacked_ s) (next_retransmit_scan_ s) (tail_probe_at_ s) v (rtt_ s) (congestion_ s) (last_send_ s) (send_scratch_ s).
Definition set_rtt (v : ZDTRttEstimator) (s : Sender) : Sender :=
  mkSender (next_packet_seq_ s) (sent_packets_ s) (in_flight_datagrams_ s) (unacked_ s) (next_retransmit_scan_ s) (tail_probe_at_ s) (tail_probes_fired_ s) v (congestion_ s) (last_send_ s) (send_scratch_ s).
Definition set_congestion (v : ZDTCongestionController) (s : Sender) : Sender :=
  mkSender (next_packet_seq_ s) (sent_packets_ s) (in_flight_datagrams_ s) (unacked_ s) (next_retransmit_scan_ s) (tail_probe_at_ s) (tail_probes_fired_ s) (rtt_ s) v (last_send_ s) (send_scratch_ s).
Definition set_last_send (v : Z) (s : Sender) : Sender :=
  mkSender (next_packet_seq_ s) (sent_packets_ s) (in_flight_datagrams_ s) (unacked_ s) (next_retransmit_scan_ s) (tail_probe_at_ s) (tail_probes_fired_ s) (rtt_ s) (congestion_ s) v (send_scratch_ s).
Definition set_send_scratch (v : Buffer) (s : Sender) : Sender :=
  mkSender (next_packet_seq_ s) (sent_packets_ s) (in_flight_datagrams_ s) (unacked_ s) (next_retransmit_scan_ s) (tail_probe_at_ s) (tail_probes_fired_ s) (rtt_ s) (congestion_ s) (last_send_ s) v.

Record Receiver := mkReceiver {
  ack_history_ : ZDTAckHistory;
  needs_ack_ : bool;
  channels_ : gmap Z ChannelState;
  reassembly_ : gmap MsgKey Reassembly;
  reassembly_bytes_ : Z;
  ready_ : list Buffer;
  last_recv_ : Z
}.

Definition set_ack_history (v : ZDTAckHistory) (s : Receiver) : Receiver :=
  mkReceiver v (needs_ack_ s) (channels_ s) (reassembly_ s) (reassembly_bytes_ s) (ready_ s) (last_recv_ s).
Definition set_needs_ack (v : bool) (s : Receiver) : Receiver :=
  mkReceiver (ack_history_ s) v (channels_ s) (reassembly_ s) (reassembly_bytes_ s) (ready_ s) (last_recv_ s).
Definition set_channels (v : gmap Z ChannelState) (s : Receiver) : Receiver :=
  mkReceiver (ack_history_ s) (needs_ack_ s) v (reassembly_ s) (reassembly_bytes_ s) (ready_ s) (last_recv_ s).
Definition set_reassembly (v : gmap MsgKey Reassembly) (s : Receiver) : Receiver :=
  mkReceiver (ack_history_ s) (needs_ack_ s) (channels_ s) v (reassembly_bytes_ s) (ready_ s) (last_recv_ s).
Definition set_reassembly_bytes (v : Z) (s : Receiver) : Receiver :=
  mkReceiver (ack_history_ s) (needs_ack_ s) (channels_ s) (reassembly_ s) v (ready_ s) (last_recv_ s).
Definition set_ready (v : list Buffer) (s : Receiver) : Receiver :=
  mkReceiver (ack_history_ s) (needs_ack_ s) (channels_ s) (reassembly_ s) (reassembly_bytes_ s) v (last_recv_ s).
Definition set_last_recv (v : Z) (s : Receiver) : Receiver :=
  mkReceiver (ack_history_ s) (needs_ack_ s) (channels_ s) (reassembly_ s) (reassembly_bytes_ s) (ready_ s) v.

Record Queues := mkQueues {
  inbox_ : list ZDTInbound;
  inbox_dropped_ : Z;
  outbound_ : list QueuedOut;
  staged_ : list StagedLane;
  staged_count_ : Z;
  staged_cursor_ : Z;
  recv_scratch_ : Buffer
}.

Definition set_inbox (v : list ZDTInbound) (s : Queues) : Queues :=
  mkQueues v (inbox_dropped_ s) (outbound_ s) (staged_ s) (staged_count_ s) (staged_cursor_ s) (recv_scratch_ s).
Definition set_inbox_dropped (v : Z) (s : Queues) : Queues :=
  mkQueues (inbox_ s) v (outbound_ s) (staged_ s) (staged_count_ s) (staged_cursor_ s) (recv_scratch_ s).
Definition set_outbound (v : list QueuedOut) (s : Queues) : Queues :=
  mkQueues (inbox_ s) (inbox_dropped_ s) v (staged_ s) (staged_count_ s) (staged_cursor_ s) (recv_scratch_ s).
Definition set_staged (v : list StagedLane) (s : Queues) : Queues :=
  mkQueues (inbox_ s) (inbox_dropped_ s) (outbound_ s) v (staged_count_ s) (staged_cursor_ s) (recv_scratch_ s).
Definition set_staged_count (v : Z) (s : Queues) : Queues :=
  mkQueues (inbox_ s) (inbox_dropped_ s) (outbound_ s) (staged_ s) v (staged_cursor_ s) (recv_scratch_ s).
Definition set_staged_cursor (v : Z) (s : Queues) : Queues :=
  mkQueues (inbox_ s) (inbox_dropped_ s) (outbound_ s) (staged_ s) (staged_count_ s) v (recv_scratch_ s).
Definition set_recv_scratch (v : Buffer) (s : Queues) : Queues :=
  mkQueues (inbox_ s) (inbox_dropped_ s) (outbound_ s) (staged_ s) (staged_count_ s) (staged_cursor_ s) v.

Record Transport := mkTransport {
  setup_ : Setup;
  path_ : Path;
  tx_ : Sender;
  rx_ : Receiver;
  qs_ : Queues
}.

Definition set_setup (v : Setup) (s : Transport) : Transport :=
  mkTransport v (path_ s) (tx_ s) (rx_ s) (qs_ s).
Definition set_path (v : Path) (s : Transport) : Transport :=
  mkTransport (setup_ s) v (tx_ s) (rx_ s) (qs_ s).
Definition set_tx (v : Sender) (s : Transport) : Transport :=
  mkTransport (setup_ s) (path_ s) v (rx_ s) (qs_ s).
Definition set_rx (v : Receiver) (s : Transport) : Transport :=
  mkTransport (setup_ s) (path_ s) (tx_ s) v (qs_ s).
Definition set_qs (v : Queues) (s : Transport) : Transport :=
  mkTransport (setup_ s) (path_ s) (tx_ s) (rx_ s) v.

Definition upd_path (f : Path -> Path) (t : Transport) : Transport := set_path (f (path_ t)) t.
Definition upd_tx (f : Sender -> Sender) (t : Transport) : Transport := set_tx (f (tx_ t)) t.
Definition upd_rx (f : Receiver -> Receiver) (t : Transport) : Transport := set_rx (f (rx_ t)) t.
Definition upd_qs (f : Queues -> Queues) (t : Transport) : Transport := set_qs (f (qs_ t)) t.

Definition config (t : Transport) : ZDTOptions := config_ (setup_ t).
Definition connection (t : Transport) : ZDTConnection := connection_ (setup_ t).

(** [channels_\[c\]], which creates the entry on first use. *)
Definition channel_at (t : Transport) (c : Z) : ChannelState :=
  default ChannelState_default (channels_ (rx_ t) !! c).

Definition put_channel (c : Z) (ch : ChannelState) (t : Transport) : Transport :=
  upd_rx (fun r => set_channels (<[c := ch]> (channels_ r)) r) t.

Definition push_ready (b : Buffer) (t : Transport) : Transport :=
  upd_rx (fun r => set_ready (ready_ r ++ [b]) r) t.

(** ** The clock *)

(** [TimePoint::min()] and [TimePoint::max()]. *)
Definition TimePoint_min : Z := - 2 ^ 63.
Definition TimePoint_max : Z := 2 ^ 63 - 1.

(** [steady_clock::now()]: the next reading of the clock [clk]. *)
Definition now_ (clk : nat -> Z) (t : Transport) : Z * Transport :=
  (clk (ticks_ (path_ t)), upd_path (fun p => set_ticks (S (ticks_ p)) p) t).

Definition ms (n : Z) : Z := n * ns_per_ms.
