(* ===== verification/ZdtSend.v ===== *)
(** * The transport's send path (zdt_transport.cc)

    Building one datagram and the bookkeeping that goes with it: the header with
    the piggybacked acknowledgment, the records, the entry that lets an
    acknowledgment retire what the datagram carried. *)

From S2P Require Import Prelude Buffer Binary64 ZdtWire InetAddr ZdtAckHistory ZdtCongestion ZdtOptions ZdtState.
From Stdlib Require Import QArith.

#[local] Open Scope Z_scope.

Definition peer_ipv (t : Transport) : InetProtocolVersion :=
  match peer_ (path_ t) with Some a => ipv a | None => IPv4 end.

Definition DatagramMTU (t : Transport) : Z :=
  let c := connection t in
  let mtu := if negb (conn_mtu c =? 0) then conn_mtu c
             else ZDTPayloadForLinkMTU (MTULadder_back (mtu_ladder (config t))) (peer_ipv t) in
  let overhead := (if negb (relay_channel c =? 0) then kZDTRelayHeaderSize else 0)
                  + (if migration_enabled c then kZDTCidSize else 0) in
  if overhead <? mtu then u16 (mtu - overhead) else mtu.

Definition SendWindowCap (t : Transport) : Z :=
  let cap := max_datagrams_in_flight (config t) in
  let cap := if kZDTMaxDatagramsInFlight <? cap then kZDTMaxDatagramsInFlight else cap in
  if cap <? 2 then 2 else cap.

Definition SendWindow (t : Transport) : Z := Window (congestion_ (tx_ t)) (SendWindowCap t).

(** ** Records *)

Definition MakeRecord (owner : Buffer) (offset length flags channel message_seq frag_index frag_count : Z)
    (reliable : bool) : PendingRecord :=
  mkPending (mkRecord flags channel (u16 message_seq) frag_index frag_count (u16 length))
    owner offset length reliable (mkKey channel reliable frag_index message_seq).

(** The bytes [payload] points at. *)
Definition payload_bytes (p : PendingRecord) : list Z := (load (p_offset p) (p_payload_len p) (p_owner p)).1.

Definition payload_null (p : PendingRecord) : bool :=
  match data_ (p_owner p) with None => p_offset p =? 0 | Some _ => false end.

(** ** Retiring a datagram *)

Definition RetireSentPacket (packet_seq : Z) (s : Sender) : Sender :=
  match sent_packets_ s !! packet_seq with
  | None => s
  | Some info =>
      let s := if (0 <? key_count info) && (0 <? in_flight_datagrams_ s)
               then set_in_flight_datagrams (in_flight_datagrams_ s - 1) s else s in
      set_sent_packets (delete packet_seq (sent_packets_ s)) s
  end.

(** ** The tail probe *)

Definition TailProbeDelay (t : Transport) : Z :=
  let delay := to_int (fmul (fmul 2 (srtt_ms_ (rtt_ (tx_ t)))) (of_int ns_per_ms)) in
  let floor := ms kZDTTailProbeFloorMs in
  let delay := if delay <? floor then floor else delay in
  let fired := tail_probes_fired_ (tx_ t) in
  let delay := delay * Z.shiftl 1 (if fired <? 6 then fired else 6) in
  let ceiling := ms (rto_max (config t)) in
  if ceiling <? delay then ceiling else delay.

Definition RearmTailProbe (now : Z) (t : Transport) : Transport :=
  let t := upd_tx (set_tail_probes_fired 0) t in
  upd_tx (set_tail_probe_at (if decide (unacked_ (tx_ t) = ∅) then TimePoint_max else now + TailProbeDelay t)) t.

Definition TrackReliable (pending : PendingRecord) (offset now : Z) (log : TransmissionLog) (t : Transport) : Transport :=
  let t := upd_tx (fun s => set_next_retransmit_scan
    (Z.min (next_retransmit_scan_ s) (now + ms (rto_ (rtt_ s)))) s) t in
  let r := p_record pending in
  let out := mkOut (p_owner pending) offset (p_payload_len pending) (r_channel r) (r_message_seq r)
    (r_frag_index r) (r_frag_count r) (r_flags r) now 1 log in
  let t := upd_tx (fun s => set_unacked (<[p_key pending := out]> (unacked_ s)) s) t in
  RearmTailProbe now t.

Section Send.
Context `{P : Platform} (clk : nat -> Z).

Definition BeginDatagram (t : Transport) (b : Buffer) : Buffer :=
  if negb (relay_channel (connection t) =? 0) then WriteRelayHeader b (relay_channel (connection t)) else b.

(** The bytes a datagram's buffer hands to [SendTo]. *)
Definition datagram_bytes (b : Buffer) : list Z := (load 0 (write_cursor_ b) b).1.

(** [SendTo] on [socket_] towards [peer_]. *)
Definition SendTo (b : Buffer) (t : Transport) : Transport :=
  match socket_ (path_ t), peer_ (path_ t) with
  | Some s, Some a => upd_path (fun p => set_wire (wire_ p ++ [(s, a, datagram_bytes b)]) p) t
  | _, _ => t
  end.

(** One iteration of the loop that writes the batch. *)
Definition write_record (b : Buffer) (p : PendingRecord) : Buffer :=
  let b := WriteZDTRecord b (p_record p) in
  if negb (payload_null p) && (0 <? p_payload_len p) then Write (payload_bytes p) b else b.

Definition record_bytes (batch : list PendingRecord) : Z :=
  foldr (fun p n => ZDTRecordSize (has_flag (r_flags (p_record p)) kRecFragment) (p_payload_len p) + n) 0 batch.

(** The header [SendBatch] writes for packet [seq]. *)
Definition batch_header (extra_flags : Z) (batch : list PendingRecord) (t : Transport) : ZDTHeader :=
  let c := connection t in
  let flags := u8 (Z.lor kFlagOnline extra_flags) in
  let flags := if migration_enabled c then Z.lor flags kFlagHasCid else flags in
  let cid := if migration_enabled c then local_guid c else 0 in
  let header := mkHeader flags cid (next_packet_seq_ (tx_ t)) (h_ack ZDTHeader_default)
    (h_blocks ZDTHeader_default) (h_block_count ZDTHeader_default) in
  let mtu := DatagramMTU t in
  let used := kZDTHeaderSize + (if migration_enabled c then kZDTCidSize else 0) + record_bytes batch in
  let reportable := SendWindowCap t + 64 in
  Fill (ack_history_ (rx_ t)) header (if used <? mtu then (mtu - used) / kZDTAckBlockSize else 0) reportable.

Definition advance_seq (seq : Z) : Z :=
  let next := u16 (seq + 1) in
  if next =? 0 then 1 else next.

(** The datagram, written into the scratch buffer. *)
Definition batch_datagram (extra_flags : Z) (batch : list PendingRecord) (t : Transport) : Buffer :=
  let d := BeginDatagram t (Reset false (send_scratch_ (tx_ t))) in
  foldl write_record (WriteZDTHeader d (batch_header extra_flags batch t)) batch.

(** The reliable messages of the batch: what an acknowledgment of it retires. *)
Definition batch_keys (batch : list PendingRecord) : list MsgKey :=
  si_keys (foldl (fun i p => if p_reliable p then SentInfo_Add (p_key p) i else i) (mkSent 0 []) batch).

Definition file_packet (seq : Z) (info : SentInfo) (s : Sender) : Sender :=
  let s := set_sent_packets (<[seq := info]> (sent_packets_ s)) s in
  if 0 <? key_count info then set_in_flight_datagrams (in_flight_datagrams_ s + 1) s else s.

Definition SendBatch (extra_flags : Z) (batch : list PendingRecord) (t : Transport) : Z * Transport :=
  match socket_ (path_ t), peer_ (path_ t) with
  | Some _, Some _ =>
      let seq := next_packet_seq_ (tx_ t) in
      let d := batch_datagram extra_flags batch t in
      let t := upd_tx (set_next_packet_seq (advance_seq seq)) t in
      let t := upd_tx (RetireSentPacket seq) t in
      let t := SendTo d (upd_tx (set_send_scratch d) t) in
      let '(now, t) := now_ clk t in
      let t := upd_tx (set_last_send now) t in
      let t := upd_rx (set_needs_ack false) t in
      (seq, upd_tx (file_packet seq (mkSent now (batch_keys batch))) t)
  | _, _ => (next_packet_seq_ (tx_ t), t)
  end.

Definition SendControl (flags : Z) (t : Transport) : Transport := (SendBatch flags [] t).2.

(** One more transmission of the message [msg] filed under [key]; its log picks up
    the new packet. *)
Definition ResendReliable (key : MsgKey) (msg : OutReliable) (t : Transport) : OutReliable * Transport :=
  let pending := MakeRecord (o_message msg) (o_offset msg) (o_length msg) (o_data_flags msg) (o_channel msg)
    (k_message_seq key) (o_frag_index msg) (o_frag_count msg) true in
  let '(packet, t) := SendBatch 0 [pending] t in
  (set_o_packets (TransmissionLog_Add packet (o_packets msg)) msg, t).

(** ** Closing *)

Inductive Result := Success | AlreadyDisconnected.

Definition Shutdown (t : Transport) : Transport :=
  match socket_ (path_ t) with
  | Some s => if drains_own_socket_ (setup_ t)
              then upd_path (fun p => set_shutdowns (shutdowns_ p ++ [s]) p) t else t
  | None => t
  end.

Definition fin_header (t : Transport) : ZDTHeader :=
  let c := connection t in
  let flags := u8 (Z.lor kFlagOnline kFlagFin) in
  mkHeader (if migration_enabled c then Z.lor flags kFlagHasCid else flags)
    (if migration_enabled c then local_guid c else 0) 0
    (h_ack ZDTHeader_default) (h_blocks ZDTHeader_default) (h_block_count ZDTHeader_default).

Definition Close (t : Transport) : Result * Transport :=
  if is_closed_ (path_ t) then (AlreadyDisconnected, t)
  else
    let t := upd_path (set_is_closed true) t in
    let t := match socket_ (path_ t), peer_ (path_ t) with
             | Some _, Some _ =>
                 SendTo (WriteZDTHeader (BeginDatagram t (Buffer_new BigEndian)) (fin_header t)) t
             | _, _ => t
             end in
    (Success, Shutdown t).

End Send.
