(* ===== verification/ZdtAcks.v ===== *)
(** * Acknowledgments, retransmission and probes (zdt_transport.cc)

    What the sender does with the peer's ack blocks, and the timers that resend
    what was not acknowledged. *)

From S2P Require Import Prelude Buffer ZdtWire ZdtCongestion ZdtOptions ZdtState ZdtSend.

(** ** Consuming ack blocks *)

(** The loop of [OnNak] over the keys of the datagram reported missing. *)
Definition nak_key (s : Sender) (key : MsgKey) : Sender :=
  match unacked_ s !! key with
  | None => s
  | Some msg =>
      set_next_retransmit_scan TimePoint_min
        (set_unacked (<[key := set_o_last_send 0 msg]> (unacked_ s)) s)
  end.

Definition OnNak (packet_seq : Z) (t : Transport) : Transport :=
  match sent_packets_ (tx_ t) !! packet_seq with
  | None => t
  | Some info => upd_tx (fun s => RetireSentPacket packet_seq (foldl nak_key s (si_keys info))) t
  end.

(** The loop of [AckPacket] over the keys of the datagram acknowledged. *)
Definition ack_key (packet_seq : Z) (s : Sender) (key : MsgKey) : Sender :=
  match unacked_ s !! key with
  | None => s
  | Some msg =>
      let s := foldl (fun s seq => if negb (seq =? packet_seq) then RetireSentPacket seq s else s)
                 s (tl_entries (o_packets msg)) in
      set_unacked (delete key (unacked_ s)) s
  end.

Definition AckPacket (packet_seq arrival : Z) (t : Transport) : bool * Transport :=
  if packet_seq =? 0 then (false, t)
  else match sent_packets_ (tx_ t) !! packet_seq with
       | None => (false, t)
       | Some info =>
           let t := upd_tx (fun s => set_rtt (OnSample (rtt_ s) (arrival - send_time info) arrival
                                              (rto_min (config t)) (rto_max (config t))) s) t in
           (true, upd_tx (fun s => RetireSentPacket packet_seq (foldl (ack_key packet_seq) s (si_keys info))) t)
       end.

(** The two inner loops of [ProcessAcks], [n] positions from [offset] on. *)
Fixpoint ack_run (n : nat) (ack offset arrival : Z) (acked : Z) (t : Transport) : Z * Transport :=
  match n with
  | O => (acked, t)
  | S n =>
      let '(fresh, t) := AckPacket (u16 (ack - offset)) arrival t in
      ack_run n ack (offset + 1) arrival (if fresh then acked + 1 else acked) t
  end.

Fixpoint nak_run (n : nat) (ack offset : Z) (t : Transport) : Transport :=
  match n with
  | O => t
  | S n => nak_run n ack (offset + 1) (OnNak (u16 (ack - offset)) t)
  end.

(** The outer loop, over the blocks left. *)
Fixpoint ack_blocks (blocks : list ZDTAckBlock) (ack offset arrival acked : Z) (t : Transport) : Z * Transport :=
  match blocks with
  | [] => (acked, t)
  | k :: blocks =>
      if offset <? kZDTAckHistoryBits then
        let '(acked, t) := ack_run (Z.to_nat (num_ack k)) ack offset arrival acked t in
        let offset := offset + num_ack k in
        let t := nak_run (Z.to_nat (num_nack k)) ack offset t in
        ack_blocks blocks ack (offset + num_nack k) arrival acked t
      else (acked, t)
  end.

Section Acks.
Context `{P : Platform} (clk : nat -> Z).

Definition ProcessAcks (header : ZDTHeader) (arrival : Z) (t : Transport) : Transport :=
  let t := upd_tx (fun s => set_congestion (OnAckArrived (congestion_ s) (h_ack header)) s) t in
  let blocks := map (block_at header) (seq 0 (Z.to_nat (h_block_count header))) in
  let '(newly_acked, t) := ack_blocks blocks (h_ack header) 0 arrival 0 t in
  if 0 <? newly_acked then
    let t := upd_tx (fun s => set_congestion
      (OnAcked (congestion_ s) newly_acked (rtt_ s) (next_packet_seq_ s) (SendWindowCap t)) s) t in
    let '(now, t) := now_ clk t in
    RearmTailProbe now t
  else t.

(** ** Retransmission *)

(** [std::min(rtt_.rto() * (1 << backoff), config_.rto_max)], in milliseconds. *)
Definition retransmit_threshold (t : Transport) (msg : OutReliable) : Z :=
  let backoff := Z.min (o_send_count msg - 1) 6 in
  Z.min (rto_ (rtt_ (tx_ t)) * Z.shiftl 1 backoff) (rto_max (config t)).

Record Scan := mkScan { sc_earliest : Z; sc_timed_out : bool; sc_gave_up : bool }.

(** One iteration of the scan; nothing more happens once it has given up. *)
Definition scan_message (now : Z) (acc : Scan * Transport) (key : MsgKey) : Scan * Transport :=
  let '(sc, t) := acc in
  if sc_gave_up sc then (sc, t)
  else match unacked_ (tx_ t) !! key with
  | None => (sc, t)
  | Some msg =>
      let nak_forced := o_last_send msg =? 0 in
      let threshold := retransmit_threshold t msg in
      if now - o_last_send msg <? ms threshold
      then (mkScan (Z.min (sc_earliest sc) (o_last_send msg + ms threshold)) (sc_timed_out sc) false, t)
      else if max_retries (config t) <=? o_send_count msg
      then (mkScan (sc_earliest sc) (sc_timed_out sc) true, (Close t).2)
      else
        let '(msg, t) := ResendReliable clk key msg t in
        let msg := set_o_send_count (o_send_count msg + 1) (set_o_last_send now msg) in
        let t := upd_tx (fun s => set_unacked (<[key := msg]> (unacked_ s)) s) t in
        let t := upd_tx (set_tail_probe_at (now + TailProbeDelay t)) t in
        (mkScan (Z.min (sc_earliest sc) (now + ms threshold)) (sc_timed_out sc || negb nak_forced) false, t)
  end.

Definition RetransmitUnacked (t : Transport) : Transport :=
  let '(now, t) := now_ clk t in
  if now <? next_retransmit_scan_ (tx_ t) then t
  else
    let '(sc, t) := foldl (scan_message now) (mkScan TimePoint_max false false, t) (ordered_keys (unacked_ (tx_ t))) in
    if sc_gave_up sc then t
    else
      let t := if sc_timed_out sc
               then upd_tx (fun s => set_congestion
                      (OnRetransmitTimeout (congestion_ s) (rtt_ s) (next_packet_seq_ s)) s) t
               else t in
      upd_tx (set_next_retransmit_scan (sc_earliest sc)) t.

(** ** The tail probe *)

(** The last of the keys whose message was sent no earlier than all before it. *)
Definition newest_sent (m : gmap MsgKey OutReliable) (best : option (MsgKey * OutReliable)) (key : MsgKey) :
    option (MsgKey * OutReliable) :=
  match m !! key, best with
  | None, _ => best
  | Some msg, None => Some (key, msg)
  | Some msg, Some (_, b) => if o_last_send b <=? o_last_send msg then Some (key, msg) else best
  end.

Definition MaybeTailProbe (now : Z) (t : Transport) : Transport :=
  if (now <? tail_probe_at_ (tx_ t)) || bool_decide (unacked_ (tx_ t) = ∅) then t
  else
    match foldl (newest_sent (unacked_ (tx_ t))) None (ordered_keys (unacked_ (tx_ t))) with
    | None => t
    | Some (key, msg) =>
        let '(msg, t) := ResendReliable clk key msg t in
        let t := upd_tx (fun s => set_unacked (<[key := msg]> (unacked_ s)) s) t in
        let t := upd_tx (fun s => set_tail_probes_fired (tail_probes_fired_ s + 1) s) t in
        upd_tx (set_tail_probe_at (now + TailProbeDelay t)) t
    end.

(** ** Ageing out *)

Definition PruneSentPackets (t : Transport) : Transport :=
  let '(now, t) := now_ clk t in
  let max_age := ms (rto_max (config t) * 4) in
  upd_tx (fun s => foldl (fun s e => if max_age <? now - send_time e.2 then RetireSentPacket e.1 s else s)
                     s (map_to_list (sent_packets_ s))) t.

End Acks.
