(* ===== verification/ZdtReceive.v ===== *)
(** * Receiving: sequencing, delivery and reassembly (zdt_transport.cc) *)

From S2P Require Import Prelude Buffer ZdtWire ZdtOptions ZdtState.

(** ** Delivery *)

(** The full sequence number of a record, from the position of its substream. *)
Definition reconstruct_on (ch : ChannelState) (record : ZDTRecord) : Z :=
  if has_flag (r_flags record) kRecReliable then ReconstructSeq (r_message_seq record) (rel_expected ch)
  else ReconstructSeq (r_message_seq record) (if unrel_started ch then u64 (unrel_last ch + 1) else 0).

Definition ReconstructSeqFor (record : ZDTRecord) (t : Transport) : Z :=
  reconstruct_on (channel_at t (r_channel record)) record.

(** The two loops of [DeliverMessage]: what has become contiguous.  Every
    iteration takes an entry out, so as many as there are entries are enough. *)
Fixpoint advance_watermark (fuel : nat) (ch : ChannelState) : ChannelState :=
  match fuel with
  | O => ch
  | S fuel =>
      if decide (rel_expected ch ∈ rel_delivered_ahead ch)
      then advance_watermark fuel
             (set_rel_expected (u64 (rel_expected ch + 1))
                (set_rel_delivered_ahead (rel_delivered_ahead ch ∖ {[rel_expected ch]}) ch))
      else ch
  end.

Fixpoint release_run (fuel : nat) (ch : ChannelState) (ready : list Buffer) : ChannelState * list Buffer :=
  match fuel with
  | O => (ch, ready)
  | S fuel =>
      match rel_reorder ch !! rel_expected ch with
      | None => (ch, ready)
      | Some b =>
          release_run fuel
            (set_rel_expected (u64 (rel_expected ch + 1))
               (set_rel_reorder (delete (rel_expected ch) (rel_reorder ch)) ch))
            (ready ++ [b])
      end
  end.

(** [DeliverMessage] on one channel: its new state and the messages it makes
    ready, oldest first. *)
Definition deliver_on (ch : ChannelState) (record : ZDTRecord) (payload : Buffer) : ChannelState * list Buffer :=
  let reliable := has_flag (r_flags record) kRecReliable in
  let ordered := has_flag (r_flags record) kRecOrdered in
  let seq := reconstruct_on ch record in
  if negb reliable && negb ordered then (ch, [payload])
  else if negb reliable && ordered then
    if negb (unrel_started ch) || (unrel_last ch <? seq)
    then (set_unrel_last seq (set_unrel_started true ch), [payload])
    else (ch, [])
  else if reliable && negb ordered then
    if (seq <? rel_expected ch) || bool_decide (seq ∈ rel_delivered_ahead ch) then (ch, [])
    else
      let ch := set_rel_delivered_ahead ({[seq]} ∪ rel_delivered_ahead ch) ch in
      (advance_watermark (size (rel_delivered_ahead ch)) ch, [payload])
  else if seq <? rel_expected ch then (ch, [])
  else if seq =? rel_expected ch then
    let ch := set_rel_expected (u64 (rel_expected ch + 1)) ch in
    release_run (size (rel_reorder ch)) ch [payload]
  else
    (match rel_reorder ch !! seq with
     | Some _ => ch   (* [emplace] keeps what is there *)
     | None => set_rel_reorder (<[seq := payload]> (rel_reorder ch)) ch
     end, []).

Definition DeliverMessage (record : ZDTRecord) (payload : Buffer) (t : Transport) : Transport :=
  let '(ch, msgs) := deliver_on (channel_at t (r_channel record)) record payload in
  upd_rx (fun r => set_ready (ready_ r ++ msgs) r) (put_channel (r_channel record) ch t).

(** ** Reassembly *)

(** The fragments in ascending order of their index, as [std::map] holds them. *)
Definition ordered_fragments (m : gmap Z (list Z)) : list (list Z) :=
  omap (fun i => m !! i) (merge_sort Z.le (map_to_list m).*1).

Section Receive.
Context `{P : Platform} (clk : nat -> Z).

(** The reassembled message. *)
Definition join_fragments (m : gmap Z (list Z)) : Buffer :=
  foldl (fun b bytes => if bool_decide (bytes = []) then b else Write bytes b)
    (Buffer_new LittleEndian) (ordered_fragments m).

(** The tail of [OnDataFragment]: file the fragment in [assembly] and deliver the
    message once it is complete. *)
Definition file_fragment (record : ZDTRecord) (data : list Z) (key : MsgKey) (assembly : Reassembly) (t : Transport) :
    Transport :=
  let slot := default [] (ra_fragments assembly !! r_frag_index record) in
  let t := upd_rx (fun r => set_reassembly_bytes (u64 (reassembly_bytes_ r - zlen slot + zlen data)) r) t in
  let assembly := mkReassembly (ra_frag_count assembly) (<[r_frag_index record := data]> (ra_fragments assembly))
                    (ra_first_seen assembly) in
  if negb (Z.of_nat (size (ra_fragments assembly)) =? ra_frag_count assembly)
  then upd_rx (fun r => set_reassembly (<[key := assembly]> (reassembly_ r)) r) t
  else
    let full := join_fragments (ra_fragments assembly) in
    let t := upd_rx (fun r => set_reassembly_bytes
      (foldl (fun n bytes => u64 (n - zlen bytes)) (reassembly_bytes_ r) (ordered_fragments (ra_fragments assembly))) r) t in
    let t := upd_rx (fun r => set_reassembly (delete key (reassembly_ r)) r) t in
    let whole := mkRecord (Z.land (r_flags record) (Z.lnot kRecFragment)) (r_channel record) (r_message_seq record)
                   0 1 (r_length record) in
    DeliverMessage whole full t.

Definition OnDataFragment (record : ZDTRecord) (data : list Z) (t : Transport) : bool * Transport :=
  if (r_frag_count record =? 0) || (r_frag_count record <=? r_frag_index record) then (true, t)
  else
    let reliable := has_flag (r_flags record) kRecReliable in
    let key := mkKey (r_channel record) reliable 0 (ReconstructSeqFor record t) in
    match reassembly_ (rx_ t) !! key with
    | None =>
        if (max_reassemblies (config t) <=? Z.of_nat (size (reassembly_ (rx_ t))))
           || (max_reassembly_bytes (config t) <=? reassembly_bytes_ (rx_ t))
        then (negb reliable, t)
        else
          let '(now, t) := now_ clk t in
          let assembly := mkReassembly (r_frag_count record) ∅ now in
          let t := upd_rx (fun r => set_reassembly (<[key := assembly]> (reassembly_ r)) r) t in
          (true, file_fragment record data key assembly t)
    | Some assembly =>
        if negb (ra_frag_count assembly =? r_frag_count record)
        then (true, t)
        else (true, file_fragment record data key assembly t)
    end.

Definition OnRecord (record : ZDTRecord) (data : list Z) (t : Transport) : bool * Transport :=
  if has_flag (r_flags record) kRecFragment then OnDataFragment record data t
  else (true, DeliverMessage record (Buffer_from data LittleEndian) t).

(** One iteration of [PruneReassembly]. *)
Definition prune_assembly (now timeout : Z) (r : Receiver) (e : MsgKey * Reassembly) : Receiver :=
  if timeout <? now - ra_first_seen e.2
  then set_reassembly (delete e.1 (reassembly_ r))
         (set_reassembly_bytes (foldl (fun n bytes => u64 (n - zlen bytes)) (reassembly_bytes_ r)
            (map_to_list (ra_fragments e.2)).*2) r)
  else r.

Definition PruneReassembly (t : Transport) : Transport :=
  let '(now, t) := now_ clk t in
  upd_rx (fun r => foldl (prune_assembly now (ms (reassembly_timeout (config t)))) r (map_to_list (reassembly_ r))) t.

End Receive.
