(* ===== verification/ZdtFlush.v ===== *)
(** * Packing queued messages into datagrams (zdt_transport.cc)

    [StageOutbound] moves the producers' queue into one lane per channel;
    [FlushOutbound] takes one message per lane per pass, within the windows, and
    packs it into the datagram being filled or splits it into fragments. *)

From S2P Require Import Prelude Buffer ZdtWire ZdtCongestion ZdtOptions ZdtState ZdtSend.

(** ** Staging *)

(** Appends [q] to the first lane of its channel, or to a new lane at the end. *)
Fixpoint lane_push (channel : Z) (q : QueuedOut) (lanes : list StagedLane) : list StagedLane :=
  match lanes with
  | [] => [mkLane channel [q]]
  | l :: lanes => if lane_channel l =? channel then mkLane (lane_channel l) (lane_messages l ++ [q]) :: lanes
                  else l :: lane_push channel q lanes
  end.

Definition StageOutbound (q : Queues) : Z * Queues :=
  let count := zlen (outbound_ q) in
  (count,
   set_staged_count (staged_count_ q + count)
     (set_staged (foldl (fun lanes m => lane_push (GetOr ChannelKey 0 (q_options m)) m lanes) (staged_ q) (outbound_ q))
        (set_outbound [] q))).

(** ** Packing *)

(** The datagram being filled. *)
Record Packing := mkPacking { pk_batch : list PendingRecord; pk_bytes : Z }.

Definition Packing_empty : Packing := mkPacking [] kZDTHeaderReserve.

Section Flush.
Context `{P : Platform} (clk : nat -> Z).

Definition log_packet (packet : Z) (t : Transport) (p : PendingRecord) : Transport :=
  if negb (p_reliable p) then t
  else match unacked_ (tx_ t) !! p_key p with
       | None => t
       | Some msg => upd_tx (fun s => set_unacked
           (<[p_key p := set_o_packets (TransmissionLog_Add packet (o_packets msg)) msg]> (unacked_ s)) s) t
       end.

Definition flush_batch (acc : Packing * Transport) : Packing * Transport :=
  let '(pk, t) := acc in
  match pk_batch pk with
  | [] => (pk, t)
  | batch =>
      let '(packet, t) := SendBatch clk 0 batch t in
      (Packing_empty, foldl (log_packet packet) t batch)
  end.

(** The capacities [FlushOutbound] works with. *)
Definition flush_mtu (t : Transport) : Z :=
  let floor := kZDTHeaderReserve + kZDTFragRecordHeaderSize + 1 in
  let mtu := DatagramMTU t in
  if mtu <? floor then u16 floor else mtu.

Definition unfrag_capacity (mtu : Z) : Z := mtu - kZDTHeaderReserve - kZDTRecordHeaderSize.
Definition frag_capacity (mtu : Z) : Z := mtu - kZDTHeaderReserve - kZDTFragRecordHeaderSize.

(** Takes the next sequence number of the substream. *)
Definition take_seq (reliable : bool) (channel : Z) (t : Transport) : Z * Transport :=
  let ch := channel_at t channel in
  if reliable then (rel_send ch, put_channel channel (set_rel_send (u64 (rel_send ch + 1)) ch) t)
  else (unrel_send ch, put_channel channel (set_unrel_send (u64 (unrel_send ch + 1)) ch) t).

(** One fragment: its own datagram and its own reliable unit. *)
Definition send_fragment (mtu now : Z) (payload : Buffer) (flags channel message_seq total frag_count : Z) (reliable : bool)
    (t : Transport) (i : nat) : Transport :=
  let read_base := read_cursor_ payload in
  let rel_offset := Z.of_nat i * frag_capacity mtu in
  let length := Z.min (frag_capacity mtu) (total - rel_offset) in
  let pending := MakeRecord payload (read_base + rel_offset) length flags channel message_seq (Z.of_nat i) frag_count reliable in
  let '(packet, t) := SendBatch clk 0 [pending] t in
  if reliable then TrackReliable pending (read_base + rel_offset) now (MakeLog packet) t else t.

Definition pack_message (mtu now : Z) (acc : Packing * Transport) (queued : QueuedOut) (channel : Z) : Packing * Transport :=
  let '(pk, t) := acc in
  let reliable := GetOr ReliableKey true (q_options queued) in
  let ordered := GetOr OrderedKey true (q_options queued) in
  let data_flags := Z.lor (if reliable then kRecReliable else 0) (if ordered then kRecOrdered else 0) in
  let '(message_seq, t) := take_seq reliable channel t in
  let payload := q_payload queued in
  let read_base := read_cursor_ payload in
  let total := readable_bytes payload in
  if total <=? unfrag_capacity mtu then
    let need := ZDTRecordSize false total in
    let '(pk, t) := if (mtu <? pk_bytes pk + need) || (kMaxKeys <=? zlen (pk_batch pk))
                    then flush_batch (pk, t) else (pk, t) in
    let pending := MakeRecord payload read_base total data_flags channel message_seq 0 1 reliable in
    let t := if reliable then TrackReliable pending read_base now TransmissionLog_default t else t in
    (mkPacking (pk_batch pk ++ [pending]) (pk_bytes pk + need), t)
  else
    let '(pk, t) := flush_batch (pk, t) in
    let fragment_count := (total + frag_capacity mtu - 1) / frag_capacity mtu in
    if 255 <? fragment_count then (pk, t)
    else
      (pk, foldl (send_fragment mtu now payload (u8 (Z.lor data_flags kRecFragment)) channel message_seq total
                    (u8 fragment_count) reliable) t (seq 0 (Z.to_nat fragment_count))).

(** ** The lanes *)

Definition kMaxSeqGap : Z := 2 ^ 16 / 2.

(** Whether the windows hold back a reliable message of [channel]. *)
Definition window_refuses (t : Transport) (channel : Z) : bool :=
  let unacked := unacked_ (tx_ t) in
  (u64 (max_messages_in_flight (config t)) <=? Z.of_nat (size unacked))
  || (u64 (SendWindow t) <=? in_flight_datagrams_ (tx_ t))
  || match lower_bound (mkKey channel true 0 0) unacked with
     | None => false
     | Some oldest =>
         (k_channel oldest =? channel) && k_reliable oldest
         && (kMaxSeqGap <=? u64 (rel_send (channel_at t channel) - k_message_seq oldest))
     end.

Definition pop_lane (i : nat) (q : Queues) : Queues :=
  match staged_ q !! i with
  | Some l => set_staged_count (staged_count_ q - 1)
                (set_staged (<[i := mkLane (lane_channel l) (tail (lane_messages l))]> (staged_ q)) q)
  | None => q
  end.

(** One step of the pass over the lanes. *)
Definition lane_step (mtu now : Z) (acc : bool * (Packing * Transport)) (step : nat) : bool * (Packing * Transport) :=
  let '(sent_any, (pk, t)) := acc in
  let lanes := length (staged_ (qs_ t)) in
  let i := Z.to_nat ((staged_cursor_ (qs_ t) + Z.of_nat step) mod Z.of_nat lanes) in
  match staged_ (qs_ t) !! i with
  | None => acc
  | Some lane =>
      match lane_messages lane with
      | [] => acc
      | queued :: _ =>
          if GetOr ReliableKey true (q_options queued) && window_refuses t (lane_channel lane) then acc
          else (true, pack_message mtu now (pk, upd_qs (pop_lane i) t) queued (lane_channel lane))
      end
  end.

(** One pass: a message per lane. *)
Definition lane_pass (mtu now : Z) (acc : Packing * Transport) : bool * (Packing * Transport) :=
  foldl (lane_step mtu now) (false, acc) (seq 0 (length (staged_ (qs_ acc.2)))).

Fixpoint flush_loop (fuel : nat) (mtu now : Z) (acc : Packing * Transport) : Packing * Transport :=
  match fuel with
  | O => acc
  | S fuel =>
      let '(pk, t) := acc in
      let '(stop, t) :=
        if staged_count_ (qs_ t) =? 0 then
          let '(n, q) := StageOutbound (qs_ t) in (n =? 0, set_qs q t)
        else (false, t) in
      if stop then (pk, t)
      else
        let '(sent_any, (pk, t)) := lane_pass mtu now (pk, t) in
        if negb sent_any then (pk, t)
        else
          let lanes := zlen (staged_ (qs_ t)) in
          flush_loop fuel mtu now
            (pk, upd_qs (fun q => set_staged_cursor ((staged_cursor_ q + 1) mod lanes) q) t)
  end.

(** The messages waiting, in the producers' queue and in the lanes. *)
Definition queued_total (q : Queues) : nat :=
  (length (outbound_ q) + sum_list ((fun l => length (lane_messages l)) <$> staged_ q))%nat.

(** Every pass but the last sends a message, so one more pass than there are
    messages is enough. *)
Definition FlushOutbound (t : Transport) : Transport :=
  let mtu := flush_mtu t in
  let '(now, t) := now_ clk t in
  let t := if staged_count_ (qs_ t) <? outbound_queue_capacity (config t)
           then set_qs (StageOutbound (qs_ t)).2 t else t in
  (flush_batch (flush_loop (S (queued_total (qs_ t))) mtu now (Packing_empty, t))).2.

End Flush.
