(* ===== verification/MpscTheorems.v ===== *)
(** * The bounded queue under concurrency: order, loss and refusal

    Producers and the consumer interleave at every atomic access of
    [MpscQueue.v].  [claimed] is a history variable, the values in the order
    their positions were claimed; [taken] are the values popped. *)

From S2P Require Import Prelude MpscQueue.

Import Mpsc.

(** ** Threads *)

Section System.
Context {T : Type} (dflt : T).

Record Sys := mkSys {
  queue : @MpscQueue T;
  producers : gmap nat (@Producer T);
  consumer : @Consumer T;
  claimed : list T;
  taken : list T
}.

(** A call of [Push] by thread [i] or of [Pop], or the next atomic access of
    one that is under way. *)
Inductive Event :=
  | EPushCall (i : nat) (v : T)
  | EPush (i : nat) (spurious : bool)
  | EPopCall
  | EPop.

Definition claim_of (p p' : @Producer T) : list T :=
  match p, p' with PClaiming _ v, PClaimed _ _ => [v] | _, _ => [] end.

Definition taken_of (c c' : @Consumer T) : list T :=
  match c, c' with CReleased _, CPopped (Some v) => [v] | _, _ => [] end.

Definition push_idle (p : option (@Producer T)) : bool :=
  match p with None | Some (PDone _ _) => true | _ => false end.

Definition sys_step (s : Sys) (e : Event) : Sys :=
  match e with
  | EPushCall i v =>
      if push_idle (producers s !! i)
      then mkSys (queue s) (<[i := push_start (queue s) v]> (producers s)) (consumer s) (claimed s) (taken s)
      else s
  | EPush i spurious =>
      match producers s !! i with
      | Some p =>
          let (q, p') := push_step dflt spurious (queue s) p in
          mkSys q (<[i := p']> (producers s)) (consumer s) (claimed s ++ claim_of p p') (taken s)
      | None => s
      end
  | EPopCall =>
      match consumer s with
      | CPopped _ => mkSys (queue s) (producers s) CIdle (claimed s) (taken s)
      | _ => s
      end
  | EPop =>
      let (q, c) := pop_step dflt (queue s) (consumer s) in
      mkSys q (producers s) c (claimed s) (taken s ++ taken_of (consumer s) c)
  end.

Definition sys_init (cap : Z) : Sys := mkSys (MpscQueue_new dflt cap) ∅ (CPopped None) [] [].

Definition sys_run (cap : Z) (es : list Event) : Sys := foldl sys_step (sys_init cap) es.

End System.

(** ** Positions and cells *)

Section Ring.
Context {T : Type} (dflt : T).

Abbreviation cell := (cell_at dflt).

Definition ring (q : @MpscQueue T) : Prop :=
  exists k, 1 <= k <= 62 /\ mask_ q = 2 ^ k - 1 /\ zlen (cells_ q) = 2 ^ k.

Lemma ring_capacity q : ring q -> 2 <= capacity q <= 2 ^ 62 /\ zlen (cells_ q) = capacity q.
Proof.
  intros (k & Hk & Hm & Hl). unfold capacity. rewrite Hm, Hl.
  pose proof (Z.pow_le_mono_r 2 1 k). pose proof (Z.pow_le_mono_r 2 k 62). lia.
Qed.

Lemma slot_mod q p : ring q -> slot q p = Z.to_nat (p mod capacity q).
Proof.
  intros (k & Hk & Hm & Hl). unfold slot, capacity. rewrite Hm.
  replace (2 ^ k - 1) with (Z.ones k) by (rewrite Z.ones_equiv; lia).
  rewrite Z.land_ones by lia. rewrite Z.ones_equiv. do 2 f_equal. lia.
Qed.

Lemma mod_window n b p p' : 0 < n -> b <= p < b + n -> b <= p' < b + n -> p mod n = p' mod n -> p = p'.
Proof.
  intros Hn H1 H2 E. rewrite (Z.div_mod p n), (Z.div_mod p' n), E by lia.
  pose proof (Z.div_mod p n ltac:(lia)). pose proof (Z.div_mod p' n ltac:(lia)).
  assert (p / n = p' / n) by nia. congruence.
Qed.

Lemma cell_set q p c p' : ring q ->
  cell (set_cell p c q) p' = if decide (p mod capacity q = p' mod capacity q) then c else cell q p'.
Proof.
  intros Hr. destruct (ring_capacity q Hr) as [Hn Hl].
  assert (Hr' : ring (set_cell p c q)).
  { destruct Hr as (k & ? & ? & ?). exists k. cbn [set_cell cells_ mask_]. by rewrite length_insert. }
  unfold cell_at. rewrite slot_mod by done. cbn [set_cell cells_].
  change (capacity (set_cell p c q)) with (capacity q). rewrite slot_mod by done.
  pose proof (Z.mod_pos_bound p (capacity q)). pose proof (Z.mod_pos_bound p' (capacity q)).
  case_decide as E.
  - rewrite E, list_lookup_insert_eq by lia. done.
  - rewrite list_lookup_insert_ne by lia. rewrite slot_mod by done. done.
Qed.

(** Positions a multiple of the capacity apart share their cell. *)
Lemma cell_mod q p p' : ring q -> p mod capacity q = p' mod capacity q -> cell q p = cell q p'.
Proof. intros Hr E. unfold cell_at. by rewrite !slot_mod, E. Qed.

Lemma cell_set_eq q p c : ring q -> cell (set_cell p c q) p = c.
Proof. intros. rewrite cell_set by done. by rewrite decide_True. Qed.

Lemma cell_set_ne q b p c p' : ring q -> b <= p < b + capacity q -> b <= p' < b + capacity q -> p <> p' ->
  cell (set_cell p c q) p' = cell q p'.
Proof.
  intros Hr H1 H2 Hne. rewrite cell_set by done. rewrite decide_False; [done|].
  intros E. apply Hne. apply (mod_window (capacity q) b); [|done..]. destruct (ring_capacity q Hr); lia.
Qed.

Lemma cell_next_lap q p : ring q -> cell q (p + capacity q) = cell q p.
Proof.
  intros Hr. apply cell_mod; [done|]. destruct (ring_capacity q Hr).
  rewrite <- (Z.mul_1_l (capacity q)) at 1. apply Z_mod_plus_full.
Qed.

Lemma ring_set p c q : ring q -> ring (set_cell p c q).
Proof. intros (k & ? & ? & ?). exists k. cbn [set_cell cells_ mask_]. by rewrite length_insert. Qed.

End Ring.

(** ** The invariant *)

Section Invariant.
Context {T : Type} (dflt : T).

Abbreviation cell := (cell_at dflt).

(** The oldest position not yet handed back to the producers. *)
Definition base (s : @Sys T) : Z :=
  dequeue_ (queue s) + match consumer s with CReleased _ => 1 | _ => 0 end.

(** The position a producer owns: claimed and not yet published. *)
Definition owned (p : @Producer T) : option Z :=
  match p with PClaimed pos _ | PCounted pos _ _ | PStored pos _ => Some pos | _ => None end.

Definition nth_claimed (s : @Sys T) (p : Z) : option T := claimed s !! Z.to_nat p.

Definition producer_ok (s : @Sys T) (p : @Producer T) : Prop :=
  match p with
  | PLoaded pos _ => 0 <= pos <= enqueue_ (queue s)
  | PClaiming pos _ => 0 <= pos <= enqueue_ (queue s) /\ pos < base s + capacity (queue s)
  | PClaimed pos v | PCounted pos v _ =>
      base s <= pos < enqueue_ (queue s) /\ sequence (cell (queue s) pos) = pos /\ nth_claimed s pos = Some v
  | PStored pos _ =>
      base s <= pos < enqueue_ (queue s) /\ sequence (cell (queue s) pos) = pos /\
      nth_claimed s pos = Some (value (cell (queue s) pos))
  | PDone _ _ => True
  end.

Definition consumer_ok (s : @Sys T) : Prop :=
  let h := dequeue_ (queue s) in
  match consumer s with
  | CIdle | CPopped _ => True
  | CReadable => h < enqueue_ (queue s) /\ sequence (cell (queue s) h) = h + 1
  | CTaken v => h < enqueue_ (queue s) /\ sequence (cell (queue s) h) = h + 1 /\ nth_claimed s h = Some v
  | CReleased v => h < enqueue_ (queue s) /\ nth_claimed s h = Some v
  end.

(** A claimed position is either published with its value or still owned. *)
Definition slot_ok (s : @Sys T) (p : Z) : Prop :=
  (sequence (cell (queue s) p) = p + 1 /\ nth_claimed s p = Some (value (cell (queue s) p))) \/
  (sequence (cell (queue s) p) = p /\ exists i pr, producers s !! i = Some pr /\ owned pr = Some p).

Record sys_ok (s : @Sys T) : Prop := {
  so_ring : ring (queue s);
  so_head : 0 <= dequeue_ (queue s);
  so_count : enqueue_ (queue s) = zlen (claimed s);
  so_taken : taken s = take (Z.to_nat (dequeue_ (queue s))) (claimed s);
  so_window : base s <= enqueue_ (queue s) <= base s + capacity (queue s);
  so_free : forall p, enqueue_ (queue s) <= p < base s + capacity (queue s) -> sequence (cell (queue s) p) = p;
  so_slots : forall p, base s <= p < enqueue_ (queue s) -> slot_ok s p;
  so_producers : forall i p, producers s !! i = Some p -> producer_ok s p;
  so_owner : forall i j p p' pos, producers s !! i = Some p -> producers s !! j = Some p' ->
    owned p = Some pos -> owned p' = Some pos -> i = j;
  so_consumer : consumer_ok s
}.

(** ** Every step keeps it *)

(** A move that changes nothing but the producer's own progress. *)
Lemma ok_set_producer s i p' :
  sys_ok s -> producer_ok s p' -> (producers s !! i ≫= owned) = owned p' ->
  sys_ok (mkSys (queue s) (<[i := p']> (producers s)) (consumer s) (claimed s) (taken s)).
Proof.
  intros [] Hp' Ho. split; try done.
  - intros p Hp. destruct (so_slots0 p Hp) as [?|(Hs & j & pr & Hj & Hown)]; [by left|right]. split; [done|].
    destruct (decide (i = j)) as [<-|Hne].
    + exists i, p'. cbn [producers]. rewrite lookup_insert_eq. split; [done|]. rewrite <- Ho, Hj. done.
    + exists j, pr. cbn [producers]. by rewrite lookup_insert_ne.
  - intros j p. cbn [producers]. rewrite lookup_insert_Some. intros [ [<- <-]|[Hne Hj]]; [done|]. by apply (so_producers0 j).
  - assert (Hback : forall j p pos, <[i := p']> (producers s) !! j = Some p -> owned p = Some pos ->
      exists p0, producers s !! j = Some p0 /\ owned p0 = Some pos).
    { intros j p pos. rewrite lookup_insert_Some. intros [ [<- <-]|[Hne Hj]] Hown; [|by exists p].
      rewrite <- Ho in Hown. destruct (producers s !! i) as [p0|]; [|done]. by exists p0. }
    intros j1 j2 p1 p2 pos H1 H2 O1 O2.
    destruct (Hback _ _ _ H1 O1) as (? & ? & ?), (Hback _ _ _ H2 O2) as (? & ? & ?). by eapply so_owner0.
Qed.

(** The free cell at the tail is not what a producer that owns a position or
    the consumer looks at. *)
Lemma ok_claim s i v : sys_ok s -> zlen (claimed s) < 2 ^ 62 ->
  producers s !! i = Some (PClaiming (enqueue_ (queue s)) v) ->
  sys_ok (mkSys (mkQueue (cells_ (queue s)) (mask_ (queue s)) (u64 (enqueue_ (queue s) + 1)) (dequeue_ (queue s)))
    (<[i := PClaimed (enqueue_ (queue s)) v]> (producers s)) (consumer s) (claimed s ++ [v]) (taken s)).
Proof.
  intros Hs Hb Hi. pose proof (so_producers _ Hs i _ Hi) as [Hpos Hroom]. destruct Hs.
  set (t := enqueue_ (queue s)) in *. unfold size_max in *.
  rewrite u64_small by (unfold size_max; lia).
  assert (Hold : forall p x, nth_claimed s p = Some x -> (claimed s ++ [v]) !! Z.to_nat p = Some x)
    by (intros p x Hx; by apply lookup_app_l_Some).
  assert (Hnew : (claimed s ++ [v]) !! Z.to_nat t = Some v) by (rewrite so_count0, Nat2Z.id; by apply list_lookup_middle).
  assert (Hprod : forall j p, producers s !! j = Some p -> j <> i -> producer_ok (mkSys
    (mkQueue (cells_ (queue s)) (mask_ (queue s)) (t + 1) (dequeue_ (queue s)))
    (<[i := PClaimed t v]> (producers s)) (consumer s) (claimed s ++ [v]) (taken s)) p).
  { intros j p Hj _. specialize (so_producers0 j p Hj).
    destruct p; unfold producer_ok, base, nth_claimed in *; cbn [queue enqueue_ dequeue_ consumer claimed] in *;
      change (capacity (mkQueue _ _ _ _)) with (capacity (queue s)); fold t in so_producers0;
      destruct_and?; split_and?; try done; try lia; by apply Hold. }
  split; cbn [queue enqueue_ dequeue_ claimed taken]; try done.
  - rewrite length_app. simpl. lia.
  - rewrite so_taken0. rewrite take_app_le; [done|]. unfold base in *. destruct (consumer s); lia.
  - unfold base in *. cbn [queue dequeue_ consumer]. change (capacity (mkQueue _ _ _ _)) with (capacity (queue s)). lia.
  - intros p Hp. apply (so_free0 p). unfold base in *. cbn [queue dequeue_ consumer enqueue_] in Hp.
    change (capacity (mkQueue _ _ _ _)) with (capacity (queue s)) in Hp. lia.
  - intros p Hp. unfold base in Hp. cbn [queue dequeue_ consumer enqueue_] in Hp.
    destruct (decide (p = t)) as [->|Hne].
    + right. split; [apply (so_free0 t); lia|]. exists i, (PClaimed t v). cbn [producers]. by rewrite lookup_insert_eq.
    + destruct (so_slots0 p) as [ [H1 H2]|(H1 & j & pr & Hj & Ho)]; [unfold base; lia|left|right].
      * split; [done|]. by apply Hold.
      * split; [done|]. exists j, pr. cbn [producers]. rewrite lookup_insert_ne; [done|]. intros <-. by simplify_map_eq.
  - intros j p. cbn [producers]. rewrite lookup_insert_Some. intros [ [<- <-]|[Hne Hj]]; [|by apply (Hprod j)].
    unfold producer_ok, base, nth_claimed. cbn [queue enqueue_ dequeue_ consumer claimed].
    split; [unfold base in *; lia|]. split; [apply (so_free0 t); lia|done].
  - assert (Hlt : forall j p pos, producers s !! j = Some p -> owned p = Some pos -> pos < t).
    { intros j p pos Hj Ho. specialize (so_producers0 j p Hj). destruct p; simplify_eq/=; destruct_and!; lia. }
    intros j1 j2 p1 p2 pos. cbn [producers]. rewrite !lookup_insert_Some.
    intros [ [<- <-]|[? H1]] [ [<- <-]|[? H2]] O1 O2; [done|..]; simplify_eq/=.
    + specialize (Hlt _ _ _ H2 O2). lia.
    + specialize (Hlt _ _ _ H1 O1). lia.
    + by eapply so_owner0.
  - unfold consumer_ok, nth_claimed in *. cbn [queue enqueue_ dequeue_ consumer claimed].
    destruct (consumer s); destruct_and?; split_and?; try done; try lia; by apply Hold.
Qed.

(** A producer writes the cell of the position it owns: the value first, then
    the sequence number that publishes it. *)
Lemma ok_write s i pr pos c p' : sys_ok s ->
  producers s !! i = Some pr -> owned pr = Some pos -> base s <= pos < enqueue_ (queue s) ->
  nth_claimed s pos = Some (value c) ->
  (sequence c = pos /\ (exists n, p' = PStored pos n)) \/ (sequence c = pos + 1 /\ owned p' = None /\ exists b n, p' = PDone b n) ->
  sys_ok (mkSys (set_cell pos c (queue s)) (<[i := p']> (producers s)) (consumer s) (claimed s) (taken s)).
Proof.
  intros [] Hi Hown Hpos Hval Hcase.
  set (s' := mkSys _ _ _ _ _). set (b := base s) in *. set (q := queue s) in *.
  assert (Hcell : forall p, b <= p < b + capacity q -> p <> pos -> cell (set_cell pos c q) p = cell q p).
  { intros p Hp Hne. apply (cell_set_ne dflt q b); try done. lia. }
  assert (Heq : cell (set_cell pos c q) pos = c) by (by apply cell_set_eq).
  assert (Hsq : sequence (cell q pos) = pos)
    by (specialize (so_producers0 i pr Hi); destruct pr; simplify_eq/=; by destruct_and!).
  split; try done.
  - by apply ring_set.
  - intros p Hp. change (b <= p < enqueue_ q) in Hp || change (enqueue_ q <= p < b + capacity q) in Hp.
    change (sequence (cell (set_cell pos c q) p) = p). rewrite Hcell by lia. by apply so_free0.
  - intros p Hp. change (b <= p < enqueue_ q) in Hp. unfold slot_ok. change (queue s') with (set_cell pos c q).
    destruct (decide (p = pos)) as [->|Hne].
    + rewrite Heq. destruct Hcase as [ [Hs [n ->]]|(Hs & _)]; [right|by left]. split; [done|].
      exists i, (PStored pos n). cbn [producers s']. by rewrite lookup_insert_eq.
    + rewrite Hcell by lia. destruct (so_slots0 p Hp) as [?|(? & j & pj & Hj & Ho)]; [by left|right].
      split; [done|]. exists j, pj. cbn [producers s']. rewrite lookup_insert_ne; [done|]. intros <-. by simplify_map_eq.
  - intros j p. cbn [producers s']. rewrite lookup_insert_Some. intros [ [<- <-]|[Hne Hj]].
    + destruct Hcase as [ [Hs [n ->]]|(_ & _ & ? & ? & ->)]; [|done].
      unfold producer_ok. change (queue s') with (set_cell pos c q). rewrite Heq. done.
    + assert (Hdiff : forall x, owned p = Some x -> x <> pos) by (intros x Hx ->; apply Hne; by eapply so_owner0).
      specialize (so_producers0 j p Hj). destruct p; unfold producer_ok in *; fold b q in so_producers0; try done;
        change (queue s') with (set_cell pos c q); destruct_and!; rewrite Hcell; try done;
        try (apply Hdiff; done); lia.
  - intros j1 j2 p1 p2 x. cbn [producers s']. rewrite !lookup_insert_Some.
    assert (Hx : owned p' = Some x -> owned pr = Some x).
    { destruct Hcase as [ [_ [n ->]]|(_ & -> & _)]; [|done]. simpl. intros [= <-]. done. }
    intros [ [<- <-]|[? H1]] [ [<- <-]|[? H2]] O1 O2; [done|..]; eauto.
  - unfold consumer_ok in *. change (queue s') with (set_cell pos c q). change (consumer s') with (consumer s).
    cbn [set_cell dequeue_ enqueue_]. fold q in so_consumer0.
    assert (Hh : b = dequeue_ q -> sequence (cell q (dequeue_ q)) = dequeue_ q + 1 ->
      cell (set_cell pos c q) (dequeue_ q) = cell q (dequeue_ q)).
    { intros Eb Hq. destruct (ring_capacity q so_ring0) as [? _]. apply Hcell; [lia|]. intros <-. lia. }
    unfold base in b. destruct (consumer s); try done; destruct_and!; (rewrite Hh; [done|apply Z.add_0_r|done]).
Qed.

(** The consumer hands the oldest cell back for the next lap. *)
Lemma ok_release s v : sys_ok s -> zlen (claimed s) < 2 ^ 62 -> consumer s = CTaken v ->
  sys_ok (mkSys (pop_step dflt (queue s) (CTaken v)).1 (producers s) (CReleased v) (claimed s) (taken s)).
Proof.
  intros [] Hb Hc. set (q := queue s) in *. set (h := dequeue_ q) in *.
  destruct (ring_capacity q so_ring0) as [Hn _].
  assert (Hbase : base s = h) by (unfold base; rewrite Hc; apply Z.add_0_r).
  unfold consumer_ok in so_consumer0. rewrite Hc in so_consumer0. fold q h in so_consumer0. destruct so_consumer0 as (Hht & Hseq & Hv).
  rewrite Hbase in so_window0, so_free0, so_slots0. fold q in so_window0, so_count0, so_free0, so_slots0.
  cbn [pop_step fst]. fold h.
  replace (u64 (h + mask_ q + 1)) with (h + capacity q) by (unfold capacity in *; rewrite u64_small; unfold size_max; lia).
  set (c := mkCell _ _). set (s' := mkSys _ _ _ _ _).
  assert (Hcell : forall p, h < p < h + capacity q -> cell (set_cell h c q) p = cell q p).
  { intros p Hp. apply (cell_set_ne dflt q h); try done; lia. }
  assert (Hlast : cell (set_cell h c q) (h + capacity q) = c).
  { change (capacity q) with (capacity (set_cell h c q)). rewrite cell_next_lap by (by apply ring_set). by apply cell_set_eq. }
  assert (Hb' : base s' = h + 1) by done.
  assert (Hmine : forall i pr pos, producers s !! i = Some pr -> owned pr = Some pos -> h < pos).
  { intros i pr pos Hi Ho. specialize (so_producers0 i pr Hi). unfold producer_ok in so_producers0. rewrite Hbase in so_producers0.
    fold q in so_producers0. assert (pos <> h -> h <= pos -> h < pos) by lia.
    destruct pr; try discriminate; injection Ho as ->; destruct_and!; (destruct (decide (pos = h)) as [->|]; lia). }
  split; try rewrite Hb'; try done.
  - by apply ring_set.
  - cbn [queue s' set_cell enqueue_]. change (capacity (set_cell h c q)) with (capacity q). lia.
  - intros p Hp. change (enqueue_ q <= p < h + 1 + capacity q) in Hp.
    change (sequence (cell (set_cell h c q) p) = p).
    destruct (decide (p = h + capacity q)) as [->|]; [by rewrite Hlast|]. rewrite Hcell by lia. apply so_free0. lia.
  - intros p Hp. change (h + 1 <= p < enqueue_ q) in Hp. unfold slot_ok. change (queue s') with (set_cell h c q).
    rewrite Hcell by lia. apply so_slots0. fold q. lia.
  - intros i p Hi. change (producers s !! i = Some p) in Hi. pose proof (so_producers0 i p Hi) as Hp. specialize (Hmine i p).
    destruct p; unfold producer_ok in *; try rewrite Hb'; try rewrite Hbase in Hp; change (queue s') with (set_cell h c q);
      change (capacity (set_cell h c q)) with (capacity q); change (enqueue_ (set_cell h c q)) with (enqueue_ q); fold q in Hp;
      destruct_and?; try done; try lia; specialize (Hmine _ Hi eq_refl); rewrite Hcell by lia; split_and!; try done; lia.
Qed.

Lemma ok_advance s v : sys_ok s -> zlen (claimed s) < 2 ^ 62 -> consumer s = CReleased v ->
  sys_ok (mkSys (pop_step dflt (queue s) (CReleased v)).1 (producers s) (CPopped (Some v)) (claimed s) (taken s ++ [v])).
Proof.
  intros [] Hb Hc. unfold consumer_ok in so_consumer0. rewrite Hc in so_consumer0. destruct so_consumer0 as [Hht Hv].
  cbn [pop_step fst]. rewrite u64_small by (unfold size_max; lia). set (s' := mkSys _ _ _ _ _).
  assert (Hbase : base s' = base s) by (unfold base, s'; cbn [queue dequeue_ consumer]; rewrite Hc; lia).
  split; try rewrite Hbase; try done.
  - cbn [s' queue dequeue_]. lia.
  - cbn [s' queue dequeue_ taken claimed]. rewrite Z2Nat.inj_add by lia. change (Z.to_nat 1) with 1%nat. rewrite Nat.add_1_r.
    rewrite (take_S_r _ _ v) by done. by rewrite so_taken0.
  - intros i p Hi. specialize (so_producers0 i p Hi). destruct p; unfold producer_ok in *; try rewrite Hbase; done.
Qed.

Lemma sequence_window s p : sys_ok s -> base s <= p < base s + capacity (queue s) ->
  sequence (cell (queue s) p) = p \/ p < enqueue_ (queue s) /\ sequence (cell (queue s) p) = p + 1.
Proof.
  intros [] Hp. destruct (decide (p < enqueue_ (queue s))).
  - destruct (so_slots0 p) as [ [? _]|[? _]]; [lia|by right|by left].
  - left. apply so_free0. lia.
Qed.

(** Every position has a representative in the current lap. *)
Lemma representative q b p : ring q -> 
  exists p' k, b <= p' < b + capacity q /\ cell q p' = cell q p /\ p' = p + k * capacity q.
Proof.
  intros Hr. destruct (ring_capacity q Hr) as [Hn _]. exists (b + (p - b) mod capacity q), (- ((p - b) / capacity q)).
  pose proof (Z.mod_pos_bound (p - b) (capacity q)). pose proof (Z.div_mod (p - b) (capacity q)).
  split; [lia|]. split; [|lia]. apply cell_mod; [done|]. rewrite Zplus_mod_idemp_r. f_equal. lia.
Qed.

(** What a producer learns from the distance: zero means the position is in
    the current lap, a wrapped one means the ring is full. *)
Lemma distance_spec s pos : sys_ok s -> zlen (claimed s) < 2 ^ 62 -> 0 <= pos <= enqueue_ (queue s) ->
  let d := u64 (sequence (cell (queue s) pos) - pos) in
  (d = 0 -> pos < base s + capacity (queue s)) /\
  (kBehind < d -> pos = enqueue_ (queue s) /\ enqueue_ (queue s) = base s + capacity (queue s)).
Proof.
  intros Hs Hb Hpos d. set (q := queue s) in *.
  destruct (ring_capacity q (so_ring _ Hs)) as [Hn _]. pose proof (so_window _ Hs) as Hw. pose proof (so_count _ Hs) as Hc. fold q in Hw, Hc.
  assert (Hk : kBehind = 2 ^ 63 - 1) by done.
  destruct (decide (pos < base s)) as [Hlt|Hge].
  - destruct (representative q (base s) pos (so_ring _ Hs)) as (p' & k & Hp' & E & _). subst d. rewrite <- E.
    pose proof (sequence_window s p' Hs Hp') as Hq. fold q in Hq. destruct Hq as [->|[? ->]]; rewrite u64_small by (unfold size_max; lia); lia.
  - destruct (decide (pos < base s + capacity q)) as [Hin|Hout].
    + subst d. pose proof (sequence_window s pos Hs) as Hq. fold q in Hq. destruct Hq as [->|[? ->]]; [lia|..]; rewrite u64_small by (unfold size_max; lia); lia.
    + assert (E : pos = base s + capacity q) by lia. split; [|lia]. intros Hd. exfalso. subst d.
      rewrite E, cell_next_lap in Hd by apply Hs.
      assert (Hwrap : forall z, - 2 ^ 62 <= z < 0 -> u64 z <> 0).
      { intros z Hz. unfold u64. rewrite <- (Z_mod_plus_full z 1), Z.mod_small by lia. lia. }
      pose proof (sequence_window s (base s) Hs) as Hq. fold q in Hq. destruct Hq as [H|[? H]]; [lia|..]; rewrite H in Hd; revert Hd; apply Hwrap; lia.
Qed.

Lemma push_step_ok s i p sp : sys_ok s -> producers s !! i = Some p ->
  let r := push_step dflt sp (queue s) p in
  let s' := mkSys r.1 (<[i := r.2]> (producers s)) (consumer s) (claimed s ++ claim_of p r.2) (taken s) in
  zlen (claimed s') < 2 ^ 62 -> sys_ok s'.
Proof.
  intros Hs Hi r s' Hb. pose proof (so_producers _ Hs i p Hi) as Hp.
  assert (Hb' : zlen (claimed s) < 2 ^ 62) by (subst s'; cbn [claimed] in Hb; rewrite length_app in Hb; lia).
  assert (Hload : forall v, producer_ok s (PLoaded (enqueue_ (queue s)) v)) by (intros; simpl; pose proof (so_count _ Hs); lia).
  assert (Hset : forall p', claim_of p p' = [] -> producer_ok s p' -> owned p = owned p' ->
    sys_ok (mkSys (queue s) (<[i := p']> (producers s)) (consumer s) (claimed s ++ claim_of p p') (taken s))).
  { intros p' -> Hp' Ho. rewrite app_nil_r. apply ok_set_producer; [done..|]. by rewrite Hi. }
  subst s' r. destruct p as [pos v|pos v|pos v|pos v n|pos n|b n]; cbn [push_step].
  - destruct (distance_spec s pos Hs Hb' Hp) as [Hz _].
    destruct (Z.eqb_spec (u64 (sequence (cell (queue s) pos) - pos)) 0); [|destruct (_ <? _)];
      (apply Hset; [done| |done]); [split; auto|done|apply Hload].
  - destruct (Z.eqb_spec (enqueue_ (queue s)) pos) as [<-|]; cbn [andb]; [destruct sp; cbn [negb]|];
      try (apply Hset; [done|apply Hload|done]). by apply ok_claim.
  - by apply Hset.
  - rewrite app_nil_r. destruct Hp as (? & ? & ?). eapply ok_write; try done. left. eauto.
  - rewrite app_nil_r. destruct Hp as (? & ? & ?). eapply ok_write; try done. right. cbn [sequence]. rewrite u64_small; [eauto|].
    pose proof (so_count _ Hs). pose proof (so_window _ Hs). pose proof (so_head _ Hs). unfold size_max, base in *. destruct (consumer s); lia.
  - by apply Hset.
Qed.

Definition not_released (c : @Consumer T) : Prop := match c with CReleased _ => False | _ => True end.

(** A move of the consumer that neither writes a cell nor a cursor. *)
Lemma ok_set_consumer s c : sys_ok s ->
  not_released (consumer s) -> not_released c ->
  consumer_ok (mkSys (queue s) (producers s) c (claimed s) (taken s)) ->
  sys_ok (mkSys (queue s) (producers s) c (claimed s) (taken s)).
Proof.
  intros [] H1 H2 Hok. set (s' := mkSys _ _ _ _ _) in *.
  assert (Hb : base s' = base s) by (unfold base, s'; cbn [consumer queue]; by destruct (consumer s), c).
  split; try rewrite Hb; try done.
  intros i p Hi. specialize (so_producers0 i p Hi). destruct p; unfold producer_ok in *; try rewrite Hb; done.
Qed.

Lemma readable_spec s : sys_ok s -> zlen (claimed s) < 2 ^ 62 -> not_released (consumer s) ->
  NextReadable dflt (queue s) = true ->
  dequeue_ (queue s) < enqueue_ (queue s) /\ sequence (cell (queue s) (dequeue_ (queue s))) = dequeue_ (queue s) + 1.
Proof.
  intros Hs Hb Hc. unfold NextReadable. rewrite Z.eqb_eq. pose proof (so_window _ Hs). pose proof (so_head _ Hs).
  pose proof (so_count _ Hs). destruct (ring_capacity _ (so_ring _ Hs)) as [? _].
  assert (E : base s = dequeue_ (queue s)) by (unfold base; destruct (consumer s); [lia..|done|lia]).
  rewrite u64_small by (unfold size_max; lia). intros Hq.
  destruct (sequence_window s (dequeue_ (queue s)) Hs); lia.
Qed.

Lemma pop_step_ok s : sys_ok s -> zlen (claimed s) < 2 ^ 62 ->
  let r := pop_step dflt (queue s) (consumer s) in
  sys_ok (mkSys r.1 (producers s) r.2 (claimed s) (taken s ++ taken_of (consumer s) r.2)).
Proof.
  intros Hs Hb. pose proof (so_consumer _ Hs) as Hok. unfold consumer_ok in Hok.
  destruct (consumer s) as [| |v|v|r] eqn:Hc; cbv zeta; cbn [pop_step fst snd taken_of not_released];
    rewrite ?app_nil_r.
  - destruct (NextReadable dflt (queue s)) eqn:Hr; cbn [fst snd taken_of]; rewrite ?app_nil_r;
      (apply ok_set_consumer; [done|by rewrite Hc|done|]); [|done].
    apply (readable_spec s); [done|done|by rewrite Hc|done].
  - apply ok_set_consumer; [done|by rewrite Hc|done|]. unfold consumer_ok. cbn [consumer queue]. split_and!; [tauto..|].
    pose proof (so_slots _ Hs (dequeue_ (queue s))) as Hsl. unfold base in Hsl. rewrite Hc in Hsl.
    destruct Hsl as [ [_ E]|[E _]]; [lia|exact E|lia].
  - by apply ok_release.
  - by apply ok_advance.
  - apply ok_set_consumer; [done|by rewrite Hc|done|done].
Qed.

Lemma sys_step_claimed s e : exists l, claimed (sys_step dflt s e) = claimed s ++ l.
Proof.
  destruct e; cbn [sys_step]; repeat case_match; cbn [claimed]; eauto using app_nil_r; exists []; by rewrite app_nil_r.
Qed.

Lemma sys_step_ok s e : sys_ok s -> zlen (claimed (sys_step dflt s e)) < 2 ^ 62 -> sys_ok (sys_step dflt s e).
Proof.
  intros Hs Hb. assert (Hb0 : zlen (claimed s) < 2 ^ 62).
  { destruct (sys_step_claimed s e) as [l E]. rewrite E, length_app in Hb. lia. }
  destruct e as [i v|i sp| |]; cbn [sys_step] in *.
  - destruct (push_idle (producers s !! i)) eqn:Hi; [|done]. apply ok_set_producer; [done|..].
    + simpl. pose proof (so_count _ Hs). lia.
    + by destruct (producers s !! i) as [[]|].
  - destruct (producers s !! i) as [p|] eqn:Hi; [|done].
    pose proof (push_step_ok s i p sp Hs Hi) as H. destruct (push_step dflt sp (queue s) p). by apply H.
  - destruct (consumer s) eqn:Hc; try done. apply ok_set_consumer; [done|by rewrite Hc|done|done].
  - pose proof (pop_step_ok s Hs Hb0) as H. cbv zeta in H. by destruct (pop_step dflt (queue s) (consumer s)).
Qed.

Lemma round_up_pow2 fuel v k : 0 <= k -> (k + Z.of_nat fuel <= 63) ->
  exists k', k <= k' <= k + Z.of_nat fuel /\ round_up fuel v (2 ^ k) = 2 ^ k' /\ (k = k' \/ 2 ^ (k' - 1) < v).
Proof.
  revert k. induction fuel as [|fuel IH]; intros k Hk Hf; cbn [round_up]; [exists k; lia|].
  destruct (Z.ltb_spec (2 ^ k) v); cbn [andb]; [|exists k; lia].
  destruct (Z.ltb_spec (2 ^ k) (2 ^ 63)); [|exists k; lia].
  rewrite <- Z.pow_succ_r by done. destruct (IH (Z.succ k)) as (k' & H1 & H2 & H3); [lia..|].
  exists k'. split_and!; [lia..|done|]. right. destruct H3 as [<-|]; [|done]. by replace (Z.succ k - 1) with k by lia.
Qed.

Lemma new_ring cap : cap <= 2 ^ 62 -> ring (MpscQueue_new dflt cap) /\ capacity (MpscQueue_new dflt cap) = RoundUpPowerOfTwo cap.
Proof.
  intros Hcap. unfold capacity, MpscQueue_new. cbn [mask_]. split; [|lia].
  destruct (round_up_pow2 62 cap 1) as (k & Hk & E & Hv); [lia..|]. change (2 ^ 1) with 2 in E. fold (RoundUpPowerOfTwo cap) in E.
  exists k. cbn [mask_ cells_]. rewrite E, length_fmap, length_seq.
  assert (2 ^ k > 0) by (pose proof (Z.pow_pos_nonneg 2 k); lia). split; [|lia]. split; [lia|].
  destruct Hv as [<-|Hv]; [lia|]. assert (2 ^ (k - 1) < 2 ^ 62) by lia. apply Z.pow_lt_mono_r_iff in H0; lia.
Qed.

Lemma init_ok cap : cap <= 2 ^ 62 -> sys_ok (sys_init dflt cap).
Proof.
  intros Hcap. destruct (new_ring cap Hcap) as [Hr Hc]. destruct (ring_capacity _ Hr) as [Hn Hl].
  unfold sys_init. split; cbn [queue claimed producers consumer taken]; try done.
  - unfold base. cbn [queue consumer MpscQueue_new dequeue_ enqueue_]. lia.
  - intros p Hp. unfold base in Hp. cbn [queue consumer] in Hp. change (0 <= p < 0 + 0 + capacity (MpscQueue_new dflt cap)) in Hp.
    unfold cell_at. rewrite slot_mod, Z.mod_small by (done || lia). unfold MpscQueue_new at 1. cbn [cells_].
    rewrite list_lookup_fmap, lookup_seq_lt by (change (RoundUpPowerOfTwo cap) with (RoundUpPowerOfTwo cap); rewrite <- Hc; lia).
    cbn [fmap option_fmap option_map default sequence]. simpl. lia.
  - intros p Hp. unfold base in Hp. cbn [queue consumer MpscQueue_new dequeue_ enqueue_] in Hp. lia.
Qed.

Lemma sys_run_ok cap es : cap <= 2 ^ 62 -> zlen (claimed (sys_run dflt cap es)) < 2 ^ 62 -> sys_ok (sys_run dflt cap es).
Proof.
  intros Hcap. unfold sys_run. induction es as [|e es IH] using rev_ind; [intros _; by apply init_ok|].
  rewrite foldl_snoc. intros Hb. apply sys_step_ok; [|done]. apply IH.
  destruct (sys_step_claimed (foldl (sys_step dflt) (sys_init dflt cap) es) e) as [l E]. rewrite E, length_app in Hb. lia.
Qed.

End Invariant.

(** ** Interleaved producers and a consumer *)

Section Theorems.
Context {T : Type} (dflt : T).

(** No [Push] owns a position it has not published, no [Pop] is half way. *)
Definition quiet (s : @Sys T) : Prop :=
  map_Forall (fun _ p => owned p = None) (producers s) /\ (consumer s = CIdle \/ exists r, consumer s = CPopped r).

Lemma quiet_base s : quiet s -> base s = dequeue_ (queue s).
Proof. intros [_ [E|[r E]]]; unfold base; rewrite E; lia. Qed.

Lemma quiet_published s p : sys_ok dflt s -> quiet s -> dequeue_ (queue s) <= p < enqueue_ (queue s) ->
  sequence (cell_at dflt (queue s) p) = p + 1 /\ nth_claimed s p = Some (value (cell_at dflt (queue s) p)).
Proof.
  intros Hs Hq Hp. destruct (so_slots _ _ Hs p) as [?|(_ & i & pr & Hi & Ho)]; [by rewrite quiet_base|done|].
  rewrite (proj1 Hq i pr Hi) in Ho. done.
Qed.

(** [C38] No value is lost, repeated, invented or reordered, whatever the
    interleaving of any number of producers with the consumer: what was popped
    is a prefix of what was claimed, in the order of the claims, and what is
    still queued never exceeds the capacity by more than the one cell the
    consumer is handing back. *)
Theorem interleaved_pushes_fifo (cap : Z) (es : list (@Event T))
  (Hcap : cap <= 2 ^ 62) (Hes : zlen (claimed (sys_run dflt cap es)) < 2 ^ 62) :
  let s := sys_run dflt cap es in
  exists waiting, claimed s = taken s ++ waiting /\
    0 <= zlen waiting <= capacity (queue s) + (base s - dequeue_ (queue s)) /\
    enqueue_ (queue s) - dequeue_ (queue s) = zlen waiting.
Proof.
  intros s. assert (Hs : sys_ok dflt s) by (by apply sys_run_ok). destruct Hs.
  exists (drop (Z.to_nat (dequeue_ (queue s))) (claimed s)). rewrite so_taken0, take_drop, length_drop.
  unfold base in *. split; [done|]. destruct (consumer s); lia.
Qed.

(** [Push] refuses only a full ring: at the access that makes it return
    false, every one of the [capacity] cells is claimed and not handed back. *)
Theorem push_refused_only_when_full (cap : Z) (es : list (@Event T)) (i : nat) (sp : bool) (p : @Producer T) (n : Z)
  (Hcap : cap <= 2 ^ 62) (Hes : zlen (claimed (sys_run dflt cap es)) < 2 ^ 62)
  (Hp : producers (sys_run dflt cap es) !! i = Some p) (Hrun : push_idle (Some p) = false)
  (Hfalse : producers (sys_step dflt (sys_run dflt cap es) (EPush i sp)) !! i = Some (PDone false n)) :
  let s := sys_run dflt cap es in zlen (claimed s) - base s = capacity (queue s).
Proof.
  intros s. assert (Hs : sys_ok dflt s) by (by apply sys_run_ok). fold s in Hp, Hfalse, Hes.
  cbn [sys_step] in Hfalse. rewrite Hp in Hfalse. pose proof (so_producers _ _ Hs i p Hp) as Hok.
  destruct p as [pos v|pos v|pos v|pos v m|pos m|b m]; cbn [push_step] in Hfalse; try done;
    repeat case_match; cbn [producers] in Hfalse; rewrite lookup_insert_eq in Hfalse; simplify_eq.
  destruct (distance_spec dflt s pos Hs Hes Hok) as [_ Hd]. rewrite (so_count _ _ Hs) in Hd.
  destruct Hd; [by apply Z.ltb_lt|lia].
Qed.

End Theorems.

(** ** Uninterrupted operations are those of a bounded list *)

Section Sequential.
Context {T : Type} (dflt : T).

(** The ring holds [l], and [n] values were pushed since it was made. *)
Definition represents (q : @MpscQueue T) (n : Z) (l : list T) : Prop :=
  exists cl tk, sys_ok dflt (mkSys q ∅ (CPopped None) cl tk) /\ zlen cl = n /\ l = drop (Z.to_nat (dequeue_ q)) cl.

Lemma ok_forget s : sys_ok dflt s -> quiet s -> sys_ok dflt (mkSys (queue s) ∅ (CPopped None) (claimed s) (taken s)).
Proof.
  intros Hs Hq. pose proof (quiet_base s Hq) as E. destruct (Hs).
  split; try done; unfold base in *; cbn [queue consumer claimed] in *; rewrite ?Z.add_0_r; rewrite ?E in *; try done.
  intros p Hp. left. by apply (quiet_published dflt s).
Qed.

Lemma represents_forget s : sys_ok dflt s -> quiet s ->
  represents (queue s) (zlen (claimed s)) (drop (Z.to_nat (dequeue_ (queue s))) (claimed s)).
Proof. intros. exists (claimed s), (taken s). split; [by apply ok_forget|done]. Qed.

Lemma run_ok es s : sys_ok dflt s -> zlen (claimed (foldl (sys_step dflt) s es)) < 2 ^ 62 ->
  sys_ok dflt (foldl (sys_step dflt) s es).
Proof.
  intros Hs. induction es as [|e es IH] using rev_ind; [done|]. rewrite foldl_snoc. intros Hb.
  apply sys_step_ok; [|done]. apply IH. destruct (sys_step_claimed dflt (foldl (sys_step dflt) s es) e) as [l E].
  rewrite E, length_app in Hb. lia.
Qed.

Definition push_events (v : T) : list (@Event T) := EPushCall 0 v :: replicate 5 (EPush 0 false).

(** A push into a ring with room goes through without a retry. *)
Lemma push_room q v cl tk : u64 (sequence (cell_at dflt q (enqueue_ q)) - enqueue_ q) = 0 ->
  exists q' n p, push_run dflt q v = (q', PDone true n) /\ dequeue_ q' = dequeue_ q /\ capacity q' = capacity q /\ owned p = None /\
    foldl (sys_step dflt) (mkSys q ∅ (CPopped None) cl tk) (push_events v)
    = mkSys q' {[0%nat := p]} (CPopped None) (cl ++ [v]) tk.
Proof.
  intros Hd. unfold push_run, push_start, push_events. cbn [Nat.iter nat_rect replicate foldl].
  do 3 eexists. cbn [push_step fst snd]. rewrite Hd, Z.eqb_refl. cbn [push_step fst snd].
  rewrite Z.eqb_refl. cbn [andb negb push_step fst snd]. split; [done|]. split; [done|]. split; [done|].
  cbn [sys_step producers push_idle queue]. rewrite lookup_empty. cbn [sys_step producers push_idle queue push_start claimed taken consumer].
  repeat (cbn [sys_step producers queue push_start claimed taken consumer push_step claim_of];
    rewrite ?lookup_insert_eq, ?insert_insert_eq, ?Hd, ?Z.eqb_refl, ?app_nil_r; cbn [andb negb push_step claim_of]).
  split; [|done]. done.
Qed.

Lemma represents_bounds q n l : represents q n l ->
  ring q /\ 0 <= zlen l <= capacity q /\ dequeue_ q + zlen l = n /\ enqueue_ q = n /\ 0 <= dequeue_ q.
Proof.
  intros (cl & tk & [] & <- & ->). unfold base in *. cbn [queue consumer claimed] in *. rewrite length_drop. split; [done|]. lia.
Qed.

Lemma Push_spec q n l v : represents q n l -> n + 1 < 2 ^ 62 ->
  if decide (zlen l < capacity q)
  then exists q', Push dflt q v = (true, q') /\ represents q' (n + 1) (l ++ [v]) /\ capacity q' = capacity q
  else Push dflt q v = (false, q).
Proof.
  intros Hr Hn. pose proof (represents_bounds q n l Hr) as (Hring & Hl & Hc & He & Hh).
  destruct Hr as (cl & tk & Hs & Hcl & ->). destruct (ring_capacity q Hring) as [Hcap _].
  unfold Push. case_decide as Hroom.
  - assert (Hd : u64 (sequence (cell_at dflt q (enqueue_ q)) - enqueue_ q) = 0).
    { pose proof (so_free _ _ Hs (enqueue_ q)) as Hf. cbn [queue] in Hf. unfold base in Hf. cbn [queue consumer] in Hf.
      rewrite Hf by lia. by rewrite Z.sub_diag. }
    destruct (push_room q v cl tk Hd) as (q' & m & p & -> & Hdq & Hcq & Ho & Hrun). exists q'. split; [done|]. split; [|done].
    assert (Hs' : sys_ok dflt (mkSys q' {[0%nat := p]} (CPopped None) (cl ++ [v]) tk)).
    { rewrite <- Hrun. apply run_ok; [done|]. rewrite Hrun. cbn [claimed]. rewrite length_app. simpl. lia. }
    apply represents_forget in Hs'; [|split; [|by right; eauto]; by apply map_Forall_singleton].
    cbn [queue claimed] in Hs'. rewrite length_app, Hdq in Hs'. rewrite <- drop_app_le by lia.
    by replace (n + 1) with (Z.of_nat (length cl + length [v])) by (simpl; lia).
  - set (s := mkSys q ∅ (CPopped None) cl tk) in *.
    assert (Hb : base s = dequeue_ q) by (unfold base; cbn; lia).
    assert (Hseq := sequence_window dflt s (base s) Hs). rewrite Hb in Hseq. cbn [queue s] in Hseq.
    assert (Hlap : enqueue_ q = dequeue_ q + capacity q) by lia.
    assert (Hcell : cell_at dflt q (enqueue_ q) = cell_at dflt q (dequeue_ q)) by (rewrite Hlap; by apply cell_next_lap).
    unfold push_run, push_start. cbn [Nat.iter nat_rect fst snd push_step]. rewrite Hcell.
    set (d := u64 _). assert (Hk : d <> 0 /\ kBehind < d).
    { assert (Hw : forall z, - 2 ^ 62 <= z < 0 -> u64 z = z + 2 ^ 64).
      { intros z Hz. unfold u64. rewrite <- (Z_mod_plus_full z 1), Z.mod_small by lia. lia. }
      change kBehind with (2 ^ 63 - 1). subst d. destruct Hseq as [E|[_ E]]; [lia|..]; rewrite E, Hw by lia; lia. }
    destruct (Z.eqb_spec d 0); [lia|]. destruct (Z.ltb_spec kBehind d); [|lia]. done.
Qed.

Definition pop_events : list (@Event T) := EPopCall :: replicate 4 EPop.

Lemma pop_readable q cl tk : NextReadable dflt q = true ->
  exists q', Pop dflt q = (Some (value (cell_at dflt q (dequeue_ q))), q') /\
    dequeue_ q' = u64 (dequeue_ q + 1) /\ capacity q' = capacity q /\
    foldl (sys_step dflt) (mkSys q ∅ (CPopped None) cl tk) pop_events
    = mkSys q' ∅ (CPopped (Some (value (cell_at dflt q (dequeue_ q))))) cl (tk ++ [value (cell_at dflt q (dequeue_ q))]).
Proof.
  intros Hr. unfold Pop, pop_events. cbn [Nat.iter nat_rect fst snd pop_step replicate foldl]. rewrite Hr.
  cbn [fst snd pop_step]. eexists. split; [done|]. split; [done|]. split; [done|].
  cbn [sys_step pop_step consumer queue producers claimed taken]. rewrite Hr.
  cbn [pop_step taken_of taken consumer queue producers claimed]. by rewrite ?app_nil_r.
Qed.

Lemma Pop_spec q n l : represents q n l -> n < 2 ^ 62 ->
  match l with
  | [] => Pop dflt q = (None, q)
  | v :: l => exists q', Pop dflt q = (Some v, q') /\ represents q' n l /\ capacity q' = capacity q
  end.
Proof.
  intros Hr Hn. pose proof (represents_bounds q n l Hr) as (Hring & Hl & Hc & He & Hh).
  destruct Hr as (cl & tk & Hs & Hcl & Hdrop). set (s := mkSys q ∅ (CPopped None) cl tk) in *.
  destruct (ring_capacity q Hring) as [Hcap _].
  assert (Hq : quiet s) by (split; [apply map_Forall_empty|right; by exists None]).
  assert (HN : NextReadable dflt q = (sequence (cell_at dflt q (dequeue_ q)) =? dequeue_ q + 1))
    by (unfold NextReadable; rewrite u64_small by (unfold size_max; lia); done).
  destruct l as [|v l]; cbn [length] in *.
  - unfold Pop. cbn [Nat.iter nat_rect fst snd pop_step]. rewrite HN.
    destruct (sequence_window dflt s (dequeue_ q) Hs) as [E|[Hlt _]].
    + unfold base. cbn [queue s consumer]. lia.
    + cbn [queue s] in E. rewrite E. destruct (Z.eqb_spec (dequeue_ q) (dequeue_ q + 1)); [lia|]. done.
    + cbn [queue s] in Hlt. lia.
  - destruct (quiet_published dflt s (dequeue_ q) Hs Hq) as [E Hv]; [cbn [queue s]; lia|].
    cbn [queue s] in E, Hv. rewrite E, Z.eqb_refl in HN.
    destruct (pop_readable q cl tk HN) as (q' & HP & Hd & Hcq & Hrun). rewrite u64_small in Hd by (unfold size_max; lia).
    set (x := value (cell_at dflt q (dequeue_ q))) in *. unfold nth_claimed in Hv. cbn [claimed s] in Hv.
    rewrite (drop_S cl x) in Hdrop by done. injection Hdrop as -> ->. exists q'. split; [done|]. split; [|done].
    assert (Hs' : sys_ok dflt (mkSys q' ∅ (CPopped (Some x)) cl (tk ++ [x]))).
    { rewrite <- Hrun. apply run_ok; [done|]. rewrite Hrun. cbn [claimed]. lia. }
    apply represents_forget in Hs'; [|split; [apply map_Forall_empty|by right; eauto]]. cbn [queue claimed] in Hs'.
    rewrite Hcl, Hd in Hs'. replace (Z.to_nat (dequeue_ q + 1)) with (S (Z.to_nat (dequeue_ q))) in Hs' by lia. done.
Qed.

Lemma drain_spec fuel q n l out : represents q n l -> n < 2 ^ 62 -> (length l <= fuel)%nat ->
  exists q', drain dflt fuel q out = (out ++ l, q') /\ represents q' n [] /\ capacity q' = capacity q.
Proof.
  revert q l out. induction fuel as [|fuel IH]; intros q l out Hr Hn Hl.
  - destruct l; [|simpl in Hl; lia]. exists q. by rewrite app_nil_r.
  - cbn [drain]. pose proof (Pop_spec q n l Hr Hn) as Hp. destruct l as [|v l]; [rewrite Hp, app_nil_r; eauto|].
    destruct Hp as (q' & -> & Hr' & Hc). destruct (IH q' l (out ++ [v]) Hr' Hn) as (q'' & -> & Hr'' & Hc''); [simpl in Hl; lia|].
    exists q''. rewrite <- app_assoc. split; [done|]. split; [done|congruence].
Qed.

Lemma DrainTo_spec q n l out : represents q n l -> n < 2 ^ 62 ->
  exists q', DrainTo dflt q out = (out ++ l, q') /\ represents q' n [] /\ capacity q' = capacity q.
Proof.
  intros Hr Hn. pose proof (represents_bounds q n l Hr) as (_ & Hl & _). apply drain_spec; [done..|]. lia.
Qed.

Lemma new_represents cap : cap <= 2 ^ 62 -> represents (MpscQueue_new dflt cap) 0 [].
Proof. intros Hc. exists [], []. by split; [apply init_ok|]. Qed.

(** The operations of one thread that uses the queue alone, on the ring and on
    a list bounded by [n]. *)
Inductive Op := OPush (v : T) | OPop | ODrain.

Inductive Answer := APushed (b : bool) | APopped (v : option T) | ADrained (l : list T).

Definition ring_op (q : @MpscQueue T) (o : Op) : Answer * @MpscQueue T :=
  match o with
  | OPush v => let (b, q) := Push dflt q v in (APushed b, q)
  | OPop => let (r, q) := Pop dflt q in (APopped r, q)
  | ODrain => let (l, q) := DrainTo dflt q [] in (ADrained l, q)
  end.

Definition list_op (n : Z) (l : list T) (o : Op) : Answer * list T :=
  match o with
  | OPush v => if decide (zlen l < n) then (APushed true, l ++ [v]) else (APushed false, l)
  | OPop => match l with [] => (APopped None, []) | v :: l => (APopped (Some v), l) end
  | ODrain => (ADrained l, [])
  end.

Fixpoint answers {S} (step : S -> Op -> Answer * S) (s : S) (os : list Op) : list Answer :=
  match os with [] => [] | o :: os => (step s o).1 :: answers step (step s o).2 os end.

Lemma op_simulates q n l o : represents q n l -> n + 1 < 2 ^ 62 ->
  exists n', n <= n' <= n + 1 /\ (ring_op q o).1 = (list_op (capacity q) l o).1 /\
    represents (ring_op q o).2 n' (list_op (capacity q) l o).2 /\ capacity (ring_op q o).2 = capacity q.
Proof.
  intros Hr Hn. destruct o as [v| |]; cbn [ring_op list_op].
  - pose proof (Push_spec q n l v Hr Hn) as H. case_decide.
    + destruct H as (q' & -> & ? & ?). exists (n + 1). split; [lia|done].
    + rewrite H. exists n. split; [lia|done].
  - pose proof (Pop_spec q n l Hr ltac:(lia)) as H. exists n. split; [lia|].
    destruct l; [by rewrite H|]. by destruct H as (q' & -> & ? & ?).
  - destruct (DrainTo_spec q n l [] Hr) as (q' & -> & ? & ?); [lia|]. exists n. split; [lia|done].
Qed.

(** Used by one thread at a time, the ring is a list bounded by the
    capacity rounded up to a power of two: pushes, pops and drains answer as
    those of the list do.  The transport's outbound queue is modelled by the
    latter. *)
Theorem ring_refines_bounded_list (cap : Z) (os : list Op) (Hcap : cap <= 2 ^ 62) (Hos : zlen os < 2 ^ 62 - 1) :
  answers ring_op (MpscQueue_new dflt cap) os = answers (list_op (RoundUpPowerOfTwo cap)) [] os.
Proof.
  assert (H : forall q n l, represents q n l -> n + zlen os < 2 ^ 62 - 1 ->
    answers ring_op q os = answers (list_op (capacity q)) l os).
  { clear Hos. induction os as [|o os IH]; intros q n l Hr Hn; [done|]. cbn [answers length] in *.
    destruct (op_simulates q n l o Hr) as (n' & Hn' & Ea & Hr' & Hc); [lia|]. rewrite Ea. f_equal.
    rewrite (IH _ n' _ Hr') by lia. by rewrite Hc. }
  rewrite (H _ 0 []); [|by apply new_represents|lia]. by destruct (new_ring dflt cap Hcap) as [_ ->].
Qed.

End Sequential.

(** ** Example runs *)

(** Two producers race for the first position; the loser retries and the
    consumer finds the values in the order of the claims. *)
Definition race : list (@Event Z) :=
  [EPushCall 0 10; EPushCall 1 20; EPush 0 false; EPush 1 false; EPush 1 false; EPush 0 false; EPush 0 false; EPush 0 true]
  ++ replicate 5 (EPush 0 false) ++ replicate 3 (EPush 1 false) ++ pop_events.

Lemma interleaved_pushes_fifo_witness :
  let s := sys_run 0 2 race in
  claimed s = [20; 10] /\ taken s = [20] /\
  exists waiting, claimed s = taken s ++ waiting /\
    0 <= zlen waiting <= capacity (queue s) + (base s - dequeue_ (queue s)) /\
    enqueue_ (queue s) - dequeue_ (queue s) = zlen waiting.
Proof.
  intros s. split; [vm_compute; reflexivity|]. split; [vm_compute; reflexivity|].
  exact (interleaved_pushes_fifo 0 2 race ltac:(lia) ltac:(vm_compute; reflexivity)).
Defined.

Definition filled : list (@Event Z) := push_events 1 ++ push_events 2 ++ [EPushCall 0 3].

Lemma push_refused_only_when_full_witness :
  let s := sys_run 0 2 filled in zlen (claimed s) - base s = capacity (queue s).
Proof.
  apply (push_refused_only_when_full 0 2 filled 0 false (PLoaded 2 3) 0);
    [lia|vm_compute; reflexivity|vm_compute; reflexivity|reflexivity|vm_compute; reflexivity].
Defined.

Lemma ring_refines_bounded_list_witness :
  answers (ring_op 0) (MpscQueue_new 0 3) [OPush 1; OPush 2; OPop; OPush 3; ODrain; OPop]
  = [APushed true; APushed true; APopped (Some 1); APushed true; ADrained [2; 3]; APopped None].
Proof.
  rewrite (ring_refines_bounded_list 0 3 [OPush 1; OPush 2; OPop; OPush 3; ODrain; OPop] ltac:(lia) ltac:(cbn; lia)).
  vm_compute. reflexivity.
Defined.
