(* ===== verification/OutboundQueue.v ===== *)
(** * Packets waiting to be encoded, and who encodes them
    (outbound_queue.h, session_encoder.cc, worker_signal.h)

    A session's outbound queue is drained by its worker and, on a client, also
    by a dedicated encoder thread; [encoding_] arbitrates.  Application threads
    push.  The model interleaves all of them at every atomic access, on top of
    the ring of [MpscTheorems.v]; memory is sequentially consistent. *)

From S2P Require Import Prelude MpscQueue MpscTheorems.

Import Mpsc.

Module Outbound.

(** ** Data *)

Inductive Thread := App (i : nat) | Worker | Encoder.

#[export] Instance Thread_eq_dec : EqDecision Thread.
Proof. solve_decision. Defined.

(** Where a draining thread is: not in [Drain], asleep or busy elsewhere; past
    the end of its tick sleep, which cleared its [woken] flag, and not yet at the
    drain (the worker only); before the exchange of [encoding_]; in the [Pop] loop; before the release; and the three accesses
    of [Empty], which loads the read cursor, stores it back and compares it with
    the other one. *)
Inductive DrainPhase :=
  | DOut
  | DAwake
  | DEntering
  | DPopping
  | DReleasing
  | DEmptyLoad
  | DEmptyStore (head : Z)
  | DEmptyCheck (head : Z).

(** The [woken] flags of the two threads' [WorkerSignal]s. *)
Record Signals := mkSignals { worker_woken : bool; encoder_woken : bool }.

Section Queue.
Context {T : Type} (dflt : T).

Record OutboundQueue := mkOutbound {
  ring_ : @Sys T;
  encoding_ : bool;
  has_encoder_ : bool;
  worker_phase : DrainPhase;
  encoder_phase : DrainPhase;
  signals : Signals;
  self_nudged : bool   (* history: the last drain to win the claim ended by calling [wake_] itself *)
}.

Definition set_ring r s :=
  mkOutbound r (encoding_ s) (has_encoder_ s) (worker_phase s) (encoder_phase s) (signals s) (self_nudged s).
Definition set_encoding e s :=
  mkOutbound (ring_ s) e (has_encoder_ s) (worker_phase s) (encoder_phase s) (signals s) (self_nudged s).
Definition set_signals g s :=
  mkOutbound (ring_ s) (encoding_ s) (has_encoder_ s) (worker_phase s) (encoder_phase s) g (self_nudged s).
Definition set_nudged b s :=
  mkOutbound (ring_ s) (encoding_ s) (has_encoder_ s) (worker_phase s) (encoder_phase s) (signals s) b.

Definition phase (th : Thread) (s : OutboundQueue) : DrainPhase :=
  match th with Worker => worker_phase s | Encoder => encoder_phase s | App _ => DOut end.

Definition set_phase (th : Thread) (p : DrainPhase) (s : OutboundQueue) : OutboundQueue :=
  match th with
  | Worker => mkOutbound (ring_ s) (encoding_ s) (has_encoder_ s) p (encoder_phase s) (signals s) (self_nudged s)
  | Encoder => mkOutbound (ring_ s) (encoding_ s) (has_encoder_ s) (worker_phase s) p (signals s) (self_nudged s)
  | App _ => s
  end.

(** ** Waking *)

(** [WorkerSignal::Raise] does nothing on the thread that owns the signal. *)
Definition Raise_worker (by_ : Thread) (g : Signals) : Signals :=
  if decide (by_ = Worker) then g else mkSignals true (encoder_woken g).

Definition Raise_encoder (by_ : Thread) (g : Signals) : Signals :=
  if decide (by_ = Encoder) then g else mkSignals (worker_woken g) true.

(** The callback a session has: the encoder's once there is one, which also
    nudges the worker, and the worker's alone otherwise. *)
Definition wake_ (by_ : Thread) (s : OutboundQueue) : OutboundQueue :=
  let g := if has_encoder_ s then Raise_worker by_ (Raise_encoder by_ (signals s)) else Raise_worker by_ (signals s) in
  set_signals g s.

(** ** [Push] *)

(** The return of a [Push] whose ring access is over: the wake on the idle
    edge. *)
Definition push_return (i : nat) (s : OutboundQueue) : OutboundQueue :=
  match producers (ring_ s) !! i with
  | Some (PDone pushed queued) =>
      let r := ring_ s in
      let s' := set_ring (mkSys (queue r) (delete i (producers r)) (consumer r) (claimed r) (taken r)) s in
      if pushed && (queued =? 0) then wake_ (App i) s' else s'
  | _ => s
  end.

(** ** [Drain] *)

Definition with_consumer (c : @Consumer T) (r : @Sys T) : @Sys T :=
  mkSys (queue r) (producers r) c (claimed r) (taken r).

Definition store_dequeue (h : Z) (r : @Sys T) : @Sys T :=
  mkSys (mkQueue (cells_ (queue r)) (mask_ (queue r)) (enqueue_ (queue r)) h)
    (producers r) (consumer r) (claimed r) (taken r).

(** The next atomic access of the drain thread [th] is in.  The claim's holder
    is the only one to pop, so the ring's consumer state is its own. *)
Definition drain_step (th : Thread) (s : OutboundQueue) : OutboundQueue :=
  match phase th s with
  | DOut | DAwake => s
  | DEntering =>
      if encoding_ s then set_phase th DOut s
      else set_phase th DPopping (set_encoding true (set_nudged false (set_ring (with_consumer CIdle (ring_ s)) s)))
  | DPopping =>
      match consumer (ring_ s) with
      | CPopped None => set_phase th DReleasing s
      | CPopped (Some _) => set_ring (with_consumer CIdle (ring_ s)) s  (* encoded; [Pop] again *)
      | _ => set_ring (sys_step dflt (ring_ s) EPop) s
      end
  | DReleasing => set_phase th DEmptyLoad (set_encoding false s)
  | DEmptyLoad => set_phase th (DEmptyStore (dequeue_ (queue (ring_ s)))) s
  | DEmptyStore h => set_phase th (DEmptyCheck h) (set_ring (store_dequeue h (ring_ s)) s)
  | DEmptyCheck h =>
      let s' := set_phase th DOut s in
      if enqueue_ (queue (ring_ s)) =? h then s' else wake_ th (set_nudged true s')
  end.

Definition kInlineEncodeDepth : Z := 1.

Definition ShouldEncodeInline (s : OutboundQueue) : bool :=
  negb (has_encoder_ s) || (size (queue (ring_ s)) <=? kInlineEncodeDepth).

(** ** Threads *)

Inductive OEvent :=
  | OPushCall (i : nat) (v : T)         (* an application thread calls [Push] *)
  | OPush (i : nat) (spurious : bool)   (* its next atomic access *)
  | OPushReturn (i : nat)
  | OSleepEnds                          (* the worker's tick sleep ends, by a wake or by time *)
  | OTick                               (* its [PeerSession::Process] reaches the drain *)
  | OEncoderWakes                       (* the encoder's wait ends *)
  | ODrain (th : Thread).               (* the next access of a thread's drain *)

Definition is_out (p : DrainPhase) : bool := match p with DOut | DAwake => true | _ => false end.

Definition is_asleep (p : DrainPhase) : bool := match p with DOut => true | _ => false end.

Definition step (s : OutboundQueue) (e : OEvent) : OutboundQueue :=
  match e with
  | OPushCall i v =>
      match producers (ring_ s) !! i with
      | None => set_ring (sys_step dflt (ring_ s) (EPushCall i v)) s
      | Some _ => s
      end
  | OPush i sp => set_ring (sys_step dflt (ring_ s) (EPush i sp)) s
  | OPushReturn i => push_return i s
  | OSleepEnds =>
      if is_asleep (worker_phase s)
      then set_phase Worker DAwake (set_signals (mkSignals false (encoder_woken (signals s))) s)
      else s
  | OTick =>  (* straight from [DOut] when the tick overran and there was no sleep *)
      if is_out (worker_phase s)
      then set_phase Worker (if ShouldEncodeInline s then DEntering else DOut) s
      else s
  | OEncoderWakes =>
      if has_encoder_ s && is_out (encoder_phase s) && encoder_woken (signals s)
      then set_phase Encoder DEntering (set_signals (mkSignals (worker_woken (signals s)) false) s)
      else s
  | ODrain th => drain_step th s
  end.

Definition init (cap : Z) (has_encoder : bool) : OutboundQueue :=
  mkOutbound (sys_init dflt cap) false has_encoder DOut DOut (mkSignals false false) false.

Definition run (s : OutboundQueue) (es : list OEvent) : OutboundQueue := foldl step s es.

End Queue.

Abbreviation q_ s := (queue (ring_ s)).

(** ** One drainer: every queued packet goes out *)

Section OneDrainer.
Context {T : Type} (dflt : T).

(** A producer that will call [wake_] when it returns. *)
Definition will_wake (d : Z) (p : @Producer T) : Prop :=
  match p with
  | PClaimed pos _ => pos = d
  | PCounted _ _ n | PStored _ n => n = 0
  | PDone b n => b = true /\ n = 0
  | _ => False
  end.

(** A sleeping worker has nothing to do, or its sleep is cut short already or
    about to be, or it left the queue to itself at the end of its drain. *)
Definition attended (s : @OutboundQueue T) : Prop :=
  enqueue_ (q_ s) = dequeue_ (q_ s) \/ worker_woken (signals s) = true \/ self_nudged s = true \/
  exists i p, producers (ring_ s) !! i = Some p /\ will_wake (dequeue_ (q_ s)) p.

Definition holds_claim (p : DrainPhase) : bool := match p with DPopping | DReleasing => true | _ => false end.

(** Without an encoder only the worker drains. *)
Record alone (s : @OutboundQueue T) : Prop := {
  al_none : has_encoder_ s = false;
  al_encoder : encoder_phase s = DOut;
  al_claim : encoding_ s = holds_claim (worker_phase s);
  al_pop : worker_phase s <> DPopping -> exists r, consumer (ring_ s) = CPopped r;
  al_head : match worker_phase s with DEmptyStore h | DEmptyCheck h => h = dequeue_ (q_ s) | _ => True end;
  al_attended : worker_phase s = DOut -> attended s
}.

(** A producer's step never ends its obligation to wake, and one that starts
    the queue takes it on. *)
Lemma push_attended (s : @OutboundQueue T) i sp : attended s ->
  attended (set_ring (sys_step dflt (ring_ s) (EPush i sp)) s).
Proof.
  intros H. cbn [sys_step]. destruct (producers (ring_ s) !! i) as [p|] eqn:Hi; [|by destruct s].
  assert (Hkeep : forall q p', dequeue_ q = dequeue_ (q_ s) ->
    (will_wake (dequeue_ (q_ s)) p -> will_wake (dequeue_ (q_ s)) p') ->
    (enqueue_ (q_ s) = dequeue_ (q_ s) -> enqueue_ q = enqueue_ (q_ s) \/ will_wake (dequeue_ (q_ s)) p') ->
    forall cl, attended (set_ring (mkSys q (<[i := p']> (producers (ring_ s))) (consumer (ring_ s)) cl (taken (ring_ s))) s)).
  { intros q p' Hd Hw He cl. unfold attended. cbn [set_ring ring_ queue self_nudged signals producers]. rewrite Hd.
    assert (Hmine : will_wake (dequeue_ (q_ s)) p' -> exists j pj, <[i := p']> (producers (ring_ s)) !! j = Some pj /\ will_wake (dequeue_ (q_ s)) pj)
      by (intros; exists i, p'; by rewrite lookup_insert_eq).
    destruct H as [H|[H|[H|(j & pj & Hj & Hwj)] ] ]; [|by auto|by auto|].
    - destruct He as [E|E]; [done|left; congruence|do 3 right; by apply Hmine].
    - do 3 right. destruct (decide (i = j)) as [<-|Hne]; [apply Hmine, Hw; by simplify_eq|].
      exists j, pj. by rewrite lookup_insert_ne. }
  destruct p as [pos v|pos v|pos v|pos v n|pos n|b n]; cbn [push_step]; repeat case_match; simplify_eq; apply Hkeep; try done; auto.
  - intros E. right. simpl. rewrite andb_true_iff, Z.eqb_eq in *. destruct_and!. congruence.
  - simpl. intros ->. by rewrite Z.sub_diag.
Qed.

Lemma push_return_attended (s : @OutboundQueue T) i : has_encoder_ s = false -> attended s -> attended (push_return i s).
Proof.
  unfold push_return. intros He H. destruct (producers (ring_ s) !! i) as [[ | | | | |b n]|] eqn:Hi; try done.
  destruct (b && (n =? 0)) eqn:E.
  { right; left. unfold wake_. cbn [set_ring has_encoder_]. rewrite He. cbn. unfold Raise_worker. by rewrite decide_False. }
  destruct H as [H|[H|[H|(j & pj & Hj & Hw)] ] ]; [by left|by right; left|by right; right; left|do 3 right].
  exists j, pj. split; [|done]. cbn [set_ring ring_ producers]. rewrite lookup_delete_ne; [done|].
  intros <-. simplify_eq/=. destruct Hw as [-> ->]. done.
Qed.

Lemma sys_step_dequeue (s : @Sys T) i sp : dequeue_ (queue (sys_step dflt s (EPush i sp))) = dequeue_ (queue s).
Proof.
  cbn [sys_step]. destruct (producers s !! i) as [p|]; [|done].
  destruct p; cbn [push_step]; repeat case_match; simplify_eq; done.
Qed.

Lemma sys_step_consumer (s : @Sys T) i sp : consumer (sys_step dflt s (EPush i sp)) = consumer s.
Proof. cbn [sys_step]. destruct (producers s !! i); [|done]. by destruct (push_step dflt sp (queue s) p). Qed.

Lemma push_return_frame (s : @OutboundQueue T) i :
  q_ (push_return i s) = q_ s /\ has_encoder_ (push_return i s) = has_encoder_ s /\
  worker_phase (push_return i s) = worker_phase s /\ encoder_phase (push_return i s) = encoder_phase s /\
  encoding_ (push_return i s) = encoding_ s /\ consumer (ring_ (push_return i s)) = consumer (ring_ s) /\
  claimed (ring_ (push_return i s)) = claimed (ring_ s) /\ taken (ring_ (push_return i s)) = taken (ring_ s).
Proof. unfold push_return, wake_. repeat case_match; done. Qed.

Lemma call_attended (s : @OutboundQueue T) i v : producers (ring_ s) !! i = None -> attended s ->
  attended (set_ring (sys_step dflt (ring_ s) (EPushCall i v)) s).
Proof.
  intros Hi H. cbn [sys_step]. rewrite Hi. cbn [push_idle].
  destruct H as [H|[H|[H|(j & p & Hj & Hw)] ] ]; [by left|by right; left|by right; right; left|do 3 right].
  exists j, p. split; [|done]. cbn [set_ring ring_ producers]. rewrite lookup_insert_ne; [done|]. intros <-. congruence.
Qed.

Lemma drain_alone (s : @OutboundQueue T) : alone s -> alone (drain_step dflt Worker s).
Proof.
  intros Hs. pose proof Hs as [H1 H2 Hc Hp H3 H4]. unfold drain_step. cbn [phase].
  destruct (worker_phase s) as [| | | | | |h|h] eqn:Hph; cbn [holds_claim] in Hc; try done.
  - rewrite Hc. split; done || by intros [].
  - destruct (consumer (ring_ s)) as [| | | |[]] eqn:Ec; split; cbn [set_ring set_phase worker_phase ring_ encoding_]; rewrite ?Hph; try done; try (by intros []); eauto.
  - split; try done. intros _. by apply Hp.
  - split; try done. intros _. by apply Hp.
  - split; try done. intros _. by apply Hp.
  - cbv zeta. rewrite H3. destruct (Z.eqb_spec (enqueue_ (q_ s)) (dequeue_ (q_ s))) as [E|E]; split; try done; try (intros _; by apply Hp); intros _.
    + by left.
    + by right; right; left.
Qed.

Lemma alone_ring (s : @OutboundQueue T) r : alone s -> dequeue_ (queue r) = dequeue_ (q_ s) -> consumer r = consumer (ring_ s) ->
  (attended s -> attended (set_ring r s)) -> alone (set_ring r s).
Proof.
  intros [H1 H2 Hc Hp H3 H4] Hd Hco Ha. split; cbn [set_ring worker_phase ring_ queue encoding_]; try done.
  - by rewrite Hco.
  - by rewrite Hd.
  - auto.
Qed.

Lemma alone_step (s : @OutboundQueue T) e : alone s -> alone (step dflt s e).
Proof.
  intros Hs. destruct e as [i v|i sp|i| | | |th]; cbn [step].
  - destruct (producers (ring_ s) !! i) eqn:Hi; [done|]. apply alone_ring; [done| | |by apply call_attended];
      cbn [sys_step]; by rewrite Hi.
  - apply alone_ring; [done|apply sys_step_dequeue|apply sys_step_consumer|apply push_attended].
  - destruct Hs as [H1 H2 Hc Hp H3 H4]. destruct (push_return_frame s i) as (Eq & Eh & Ew & Ee & En & Eco & _).
    split; rewrite ?Eh, ?Ee, ?Ew, ?Eq, ?En, ?Eco; auto using push_return_attended.
  - destruct Hs as [H1 H2 Hc Hp H3 H4]. destruct (worker_phase s) eqn:Hph; cbn [is_asleep]; split; rewrite ?Hph; try done.
    intros _. by apply Hp.
  - pose proof Hs as [H1 H2 Hc Hp H3 H4]. unfold ShouldEncodeInline. rewrite H1.
    destruct (worker_phase s) eqn:Hph; cbn [is_out negb orb]; try done; split; try done; intros _; by apply Hp.
  - by rewrite (al_none _ Hs).
  - destruct th; [done|by apply drain_alone|]. unfold drain_step. cbn [phase]. by rewrite (al_encoder _ Hs).
Qed.

Lemma alone_run cap es : alone (run dflt (init dflt cap false) es).
Proof.
  unfold run. induction es as [|e es IH] using rev_ind; [|rewrite foldl_snoc; by apply alone_step].
  split; try done; [by exists None|]. intros _. by left.
Qed.

(** *** The ring under the threads *)

(** A [Push] that is over leaves the ring's invariant when it returns. *)
Lemma ok_return (r : @Sys T) i b n : sys_ok dflt r -> producers r !! i = Some (PDone b n) ->
  sys_ok dflt (mkSys (queue r) (delete i (producers r)) (consumer r) (claimed r) (taken r)).
Proof.
  intros [] Hi. split; try done.
  - intros p Hp. destruct (so_slots p Hp) as [?|(? & j & pr & Hj & Ho)]; [by left|right]. split; [done|].
    exists j, pr. cbn [producers]. rewrite lookup_delete_ne; [done|]. intros <-. by simplify_eq.
  - intros j p. cbn [producers]. rewrite lookup_delete_Some. intros [_ Hj]. by apply (so_producers j).
  - intros j1 j2 p1 p2 pos. cbn [producers]. rewrite !lookup_delete_Some. intros [_ H1] [_ H2]. by apply so_owner.
Qed.

Lemma step_claimed (s : @OutboundQueue T) e : exists l, claimed (ring_ (step dflt s e)) = claimed (ring_ s) ++ l.
Proof.
  assert (Hsame : forall s' : @OutboundQueue T, claimed (ring_ s') = claimed (ring_ s) -> exists l, claimed (ring_ s') = claimed (ring_ s) ++ l)
    by (intros s' E; exists []; by rewrite E, app_nil_r).
  destruct e as [i v|i sp|i| | | |th]; cbn [step].
  - destruct (producers (ring_ s) !! i); [by apply Hsame|]. apply (sys_step_claimed dflt).
  - apply (sys_step_claimed dflt).
  - apply Hsame. unfold push_return, wake_. by repeat case_match.
  - apply Hsame. by case_match.
  - apply Hsame. by case_match.
  - apply Hsame. by case_match.
  - unfold drain_step. destruct th; cbn [phase]; [by apply Hsame|..];
      (destruct (worker_phase s) || destruct (encoder_phase s)); repeat case_match; try (by apply Hsame); apply (sys_step_claimed dflt (ring_ s) EPop).
Qed.

Lemma run_claimed (s : @OutboundQueue T) es : exists l, claimed (ring_ (run dflt s es)) = claimed (ring_ s) ++ l.
Proof.
  unfold run. induction es as [|e es [l IH]] using rev_ind; [exists []; by rewrite app_nil_r|]. rewrite foldl_snoc.
  destruct (step_claimed (foldl (step dflt) s es) e) as [l' E]. exists (l ++ l'). by rewrite E, IH, app_assoc.
Qed.

(** The worker restarts [Pop] and stores the cursor it loaded back; neither
    moves the ring while nobody else drains. *)
Lemma ring_drain (s : @OutboundQueue T) : alone s -> sys_ok dflt (ring_ s) -> zlen (claimed (ring_ s)) < 2 ^ 62 ->
  sys_ok dflt (ring_ (drain_step dflt Worker s)).
Proof.
  intros Hs Hr Hb. pose proof Hs as [H1 H2 Hc Hp H3 H4]. unfold drain_step. cbn [phase].
  destruct (worker_phase s) as [| | | | | |h|h] eqn:Hph; try done.
  - destruct (encoding_ s); [done|]. destruct Hp as [r Hp]; [done|]. apply ok_set_consumer; [done|by rewrite Hp|done..].
  - assert (Hstep : sys_ok dflt (sys_step dflt (ring_ s) EPop)).
    { apply sys_step_ok; [done|]. cbn [sys_step]. by destruct (pop_step _ _ _). }
    destruct (consumer (ring_ s)) as [| | | |[]] eqn:Ec; try done. apply ok_set_consumer; [done|by rewrite Ec|done..].
  - subst h. cbn [set_phase set_ring ring_ store_dequeue]. by destruct (ring_ s) as [ [] ].
  - cbv zeta. by destruct (_ =? _).
Qed.

Lemma ring_step (s : @OutboundQueue T) e : alone s -> sys_ok dflt (ring_ s) -> zlen (claimed (ring_ (step dflt s e))) < 2 ^ 62 ->
  sys_ok dflt (ring_ (step dflt s e)).
Proof.
  intros Hs Hr Hb. destruct (step_claimed s e) as [l E]. rewrite E, length_app in Hb. destruct e as [i v|i sp|i| | | |th]; cbn [step] in *.
  - destruct (producers (ring_ s) !! i); [done|]. apply sys_step_ok; [done|]. cbn [set_ring ring_] in E. rewrite E, length_app. lia.
  - apply sys_step_ok; [done|]. cbn [set_ring ring_] in E. rewrite E, length_app. lia.
  - unfold push_return. destruct (producers (ring_ s) !! i) as [[ | | | | |b n]|] eqn:Hi; try done.
    pose proof (ok_return _ i b n Hr Hi). by destruct (_ && _).
  - by destruct (is_asleep _).
  - by destruct (is_out _).
  - by destruct (_ && _).
  - destruct th; [done|apply ring_drain; [done..|lia]|]. unfold drain_step. cbn [phase]. by rewrite (al_encoder _ Hs).
Qed.

Lemma ring_run cap es : cap <= 2 ^ 62 -> zlen (claimed (ring_ (run dflt (init dflt cap false) es))) < 2 ^ 62 ->
  sys_ok dflt (ring_ (run dflt (init dflt cap false) es)).
Proof.
  intros Hcap. unfold run. induction es as [|e es IH] using rev_ind; [intros _; by apply init_ok|]. rewrite foldl_snoc.
  intros Hb. apply ring_step; [apply alone_run| |done]. apply IH.
  destruct (step_claimed (foldl (step dflt) (init dflt cap false) es) e) as [l E]. rewrite E, length_app in Hb. lia.
Qed.

(** *** What was published before a drain goes out in it *)

Definition takes_step (e : @OEvent T) : bool := match e with ODrain Worker => true | _ => false end.

(** How many accesses of the worker's drain [es] holds. *)
Definition worker_steps (es : list (@OEvent T)) : nat := length (filter (fun e => takes_step e = true) es).

(** The accesses [Pop] still makes before the cursor moves. *)
Definition pop_left (c : @Consumer T) : Z :=
  match c with CReleased _ => 1 | CTaken _ => 2 | CReadable => 3 | CIdle => 4 | CPopped _ => 5 end.

(** The drain is at the positions below [n], all published, with [k] accesses
    left before the cursor reaches [n]. *)
Record draining (n k : Z) (s : @OutboundQueue T) : Prop := {
  dr_alone : alone s;
  dr_ring : sys_ok dflt (ring_ s);
  dr_old : n <= enqueue_ (q_ s);
  dr_published : forall i p pos, producers (ring_ s) !! i = Some p -> owned p = Some pos -> n <= pos;
  dr_left : n <= dequeue_ (q_ s) \/
    (worker_phase s = DEntering /\ 5 * (n - dequeue_ (q_ s)) + 1 <= k) \/
    (worker_phase s = DPopping /\ consumer (ring_ s) <> CPopped None /\
     5 * (n - dequeue_ (q_ s) - 1) + pop_left (consumer (ring_ s)) <= k)
}.

Lemma draining_readable n k s : draining n k s -> zlen (claimed (ring_ s)) < 2 ^ 62 -> consumer (ring_ s) = CIdle ->
  dequeue_ (q_ s) < n -> NextReadable dflt (q_ s) = true.
Proof.
  intros [] Hb Hc Hn. unfold NextReadable. pose proof (so_head _ _ dr_ring0). pose proof (so_count _ _ dr_ring0).
  rewrite u64_small by (unfold size_max; lia). apply Z.eqb_eq.
  destruct (so_slots _ _ dr_ring0 (dequeue_ (q_ s))) as [ [E _]|(_ & i & p & Hi & Ho)]; [|done|].
  - unfold base. rewrite Hc. lia.
  - pose proof (dr_published0 i p _ Hi Ho). lia.
Qed.

(** A step that leaves the cursor, the phase and the consumer alone. *)
Lemma draining_frame n k s s' : draining n k s -> alone s' -> sys_ok dflt (ring_ s') ->
  n <= enqueue_ (q_ s') -> (forall i p pos, producers (ring_ s') !! i = Some p -> owned p = Some pos -> n <= pos) ->
  dequeue_ (q_ s') = dequeue_ (q_ s) -> worker_phase s' = worker_phase s -> consumer (ring_ s') = consumer (ring_ s) ->
  draining n k s'.
Proof. intros [] Ha Hr Ho Hp Hd Hw Hc. split; try done. by rewrite Hd, Hw, Hc. Qed.

Lemma draining_push n k s i sp : draining n k s -> zlen (claimed (sys_step dflt (ring_ s) (EPush i sp))) < 2 ^ 62 ->
  draining n k (set_ring (sys_step dflt (ring_ s) (EPush i sp)) s).
Proof.
  intros Hs Hb. pose proof Hs as [].
  pose proof (sys_step_ok dflt _ (EPush i sp) dr_ring0 Hb) as Hok.
  apply (draining_frame n k s); [done|by apply (alone_step s (OPush i sp))|done| | |apply sys_step_dequeue|done|apply sys_step_consumer].
  - cbn [set_ring ring_]. rewrite (so_count _ _ Hok). destruct (sys_step_claimed dflt (ring_ s) (EPush i sp)) as [l ->].
    rewrite length_app. pose proof (so_count _ _ dr_ring0). lia.
  - intros j p pos. cbn [set_ring ring_ sys_step]. destruct (producers (ring_ s) !! i) as [p0|] eqn:Hi; [|by apply dr_published0].
    destruct (push_step dflt sp (q_ s) p0) as [q p'] eqn:Est. cbn [producers].
    rewrite lookup_insert_Some. intros [ [<- <-]|[_ Hj]] Ho; [|by apply (dr_published0 j p)].
    pose proof (dr_published0 i p0 pos Hi) as Hold.
    destruct p0 as [x v|x v|x v|x v m|x m|b m]; cbn [push_step] in Est; repeat case_match; simplify_eq/=; auto.
    rewrite andb_true_iff, Z.eqb_eq in *. destruct_and!. lia.
Qed.

(** Every access of the worker brings the cursor nearer. *)
Lemma draining_drain n k s : draining n k s -> zlen (claimed (ring_ s)) < 2 ^ 62 ->
  draining n (Z.max 0 (k - 1)) (drain_step dflt Worker s).
Proof.
  intros Hs Hb. pose proof Hs as []. pose proof (drain_alone s dr_alone0) as Ha. pose proof (ring_drain s dr_alone0 dr_ring0 Hb) as Hr.
  assert (Hq : enqueue_ (q_ (drain_step dflt Worker s)) = enqueue_ (q_ s) /\
    producers (ring_ (drain_step dflt Worker s)) = producers (ring_ s)).
  { unfold drain_step. cbn [phase]. destruct (worker_phase s); try done; cbn [sys_step]; cbv zeta; repeat case_match; try done;
      unfold pop_step in *; simplify_eq; done. }
  destruct Hq as [He Hp]. split; [done|done|lia|by rewrite Hp|].
  pose proof (draining_readable n k s Hs Hb) as Hread. pose proof (so_head _ _ dr_ring0) as H0. pose proof (so_count _ _ dr_ring0) as H1.
  pose proof (so_consumer _ _ dr_ring0) as Hcon.
  destruct (decide (n <= dequeue_ (q_ s))) as [Hdone|Hmore].
  { left. clear dr_left0. unfold drain_step. cbn [phase]. pose proof (al_head _ dr_alone0) as Hh.
    destruct (worker_phase s) as [| | | | | |h|h]; try done.
    - by destruct (encoding_ s).
    - unfold consumer_ok in Hcon. destruct (consumer (ring_ s)) as [| | | |[]] eqn:Ec; try done; cbn [sys_step]; rewrite Ec; cbn [pop_step]; try done.
      cbn [set_ring ring_ queue dequeue_]. rewrite u64_small by (unfold size_max; lia). lia.
    - subst h. done.
    - cbv zeta. by destruct (_ =? _). }
  destruct dr_left0 as [?|[ [Hph Hk]|(Hph & Hc & Hk)]]; [done|right; right|].
  - unfold drain_step. cbn [phase]. rewrite Hph. rewrite (al_claim _ dr_alone0), Hph. cbn [holds_claim].
    split; [done|]. split; [done|]. cbn. lia.
  - unfold drain_step. cbn [phase]. rewrite Hph. unfold consumer_ok in Hcon.
    destruct (consumer (ring_ s)) as [| |v|v|[v|] ] eqn:Ec; try done; cbn [sys_step]; rewrite ?Ec; cbn [pop_step pop_left] in *;
      rewrite ?Hread by (done || lia);
      cbn [set_ring ring_ queue dequeue_ worker_phase consumer pop_left with_consumer set_cell];
      try (right; right; split; [done|]; split; [done|lia]).
    rewrite u64_small by (unfold size_max; lia). destruct (decide (n <= dequeue_ (q_ s) + 1)); [by left|].
    right; right. split; [done|]. split; [done|lia].
Qed.

Lemma draining_step n k s e : draining n k s -> zlen (claimed (ring_ (step dflt s e))) < 2 ^ 62 ->
  draining n (if takes_step e then Z.max 0 (k - 1) else k) (step dflt s e).
Proof.
  intros Hs Hb. pose proof Hs as []. pose proof (alone_step s e dr_alone0) as Ha. pose proof (ring_step s e dr_alone0 dr_ring0 Hb) as Hr.
  assert (Hb0 : zlen (claimed (ring_ s)) < 2 ^ 62) by (destruct (step_claimed s e) as [l E]; rewrite E, length_app in Hb; lia).
  destruct e as [i v|i sp|i| | | |th]; cbn [step takes_step] in *.
  - destruct (producers (ring_ s) !! i) eqn:Hi; [done|]. cbn [sys_step] in *. rewrite Hi in *. cbn [push_idle] in *.
    apply (draining_frame n k s); try done. intros j p pos. cbn [set_ring ring_ producers].
    rewrite lookup_insert_Some. intros [ [<- <-]|[_ Hj]] Ho; [done|by apply (dr_published0 j p)].
  - by apply draining_push.
  - destruct (push_return_frame s i) as (Eq & _ & Ew & _ & _ & Ec & _).
    apply (draining_frame n k s); rewrite ?Eq; try done. intros j p pos.
    unfold push_return, wake_. repeat case_match; cbn [set_signals set_ring ring_ producers]; try apply dr_published0;
      rewrite lookup_delete_Some; intros [_ Hj]; by apply (dr_published0 j p).
  - destruct (is_asleep _) eqn:Hph; [|done]. split; try done. left. destruct (worker_phase s); try done.
    by destruct dr_left0 as [?|[ [? _]|[? _]]].
  - destruct (is_out _) eqn:Hph; [|done]. split; try done. left. destruct (worker_phase s); try done;
      by destruct dr_left0 as [?|[ [? _]|[? _]]].
  - by rewrite (al_none _ dr_alone0).
  - destruct th; [done|by apply draining_drain|]. unfold drain_step. cbn [phase]. by rewrite (al_encoder _ dr_alone0).
Qed.

Lemma draining_run n es s : draining n (Z.of_nat (worker_steps es)) s -> zlen (claimed (ring_ (run dflt s es))) < 2 ^ 62 ->
  draining n 0 (run dflt s es).
Proof.
  unfold run. revert s. induction es as [|e es IH]; intros s Hs Hb; [done|]. cbn [foldl] in *. apply IH; [|done].
  assert (Hb1 : zlen (claimed (ring_ (step dflt s e))) < 2 ^ 62).
  { destruct (run_claimed (step dflt s e) es) as [l E]. unfold run in E. rewrite E, length_app in Hb. lia. }
  pose proof (draining_step n _ s e Hs Hb1) as H. unfold worker_steps in *. rewrite filter_cons in H.
  destruct (takes_step e) eqn:E; [rewrite decide_True in H by done|rewrite decide_False in H by done]; [|done].
  cbn [length] in H. by replace (Z.max 0 (Z.of_nat (S (length (filter (fun e0 => takes_step e0 = true) es))) - 1))
    with (Z.of_nat (length (filter (fun e0 => takes_step e0 = true) es))) in H by lia.
Qed.

Lemma draining_done n s : draining n 0 s -> n <= dequeue_ (q_ s).
Proof. intros []. destruct dr_left0 as [?|[ [_ ?]|(_ & Hc & ?)]]; [done|lia|]. destruct (consumer (ring_ s)) as [| | | |[]]; cbn in *; lia. Qed.

(** A tick of the worker, when nothing is being pushed, starts such a drain. *)
Lemma tick_draining s : alone s -> sys_ok dflt (ring_ s) -> producers (ring_ s) = ∅ -> is_out (worker_phase s) = true ->
  draining (enqueue_ (q_ s)) (5 * size (q_ s) + 1) (step dflt s OTick).
Proof.
  intros Ha Hr Hp Ho. pose proof (alone_step s OTick Ha) as Ha'. cbn [step] in *. rewrite Ho in *.
  unfold ShouldEncodeInline in *. rewrite (al_none _ Ha) in *. cbn [negb orb] in *. split; try done.
  - cbn [set_phase ring_]. rewrite Hp. intros i p pos. by rewrite lookup_empty.
  - right; left. split; [done|]. cbn [set_phase ring_]. unfold size. destruct (Z.ltb_spec (dequeue_ (q_ s)) (enqueue_ (q_ s))); lia.
Qed.


End OneDrainer.

(** A drain that a push overtakes: the packet is claimed before the drain's
    [Empty] and published after it. *)
Definition overtaken : list (@OEvent Z) :=
  [OPushCall 0 10] ++ replicate 5 (OPush 0 false) ++ [OPushReturn 0; OSleepEnds; OTick] ++ replicate 2 (ODrain Worker)
  ++ [OPushCall 1 20] ++ replicate 3 (OPush 1 false) ++ replicate 12 (ODrain Worker) ++ replicate 2 (OPush 1 false) ++ [OPushReturn 1].

(** The next tick takes the packet, and the one pushed meanwhile. *)
Definition next_tick : list (@OEvent Z) :=
  replicate 2 (ODrain Worker) ++ [OPushCall 0 30] ++ replicate 5 (OPush 0 false) ++ replicate 12 (ODrain Worker).


(** The nudge at the end of a drain does not reach the worker that makes it:
    in the run [overtaken] packet 20 is published, every [Push] has returned, the
    worker called [wake_] on leaving its drain, and its flag is down, so the packet
    does wait out the tick. *)
Theorem own_nudge_is_dropped :
  let s := run 0 (init 0 8 false) overtaken in
  producers (ring_ s) = ∅ /\ worker_phase s = DOut /\ taken (ring_ s) = [10] /\ claimed (ring_ s) = [10; 20] /\
  NextReadable 0 (q_ s) = true /\ self_nudged s = true /\ worker_woken (signals s) = false.
Proof. repeat split; vm_compute; reflexivity. Qed.

(** ** Two drainers: the encoder sleeps on a queue it should drain *)

Section LostWake.
Context {T : Type} (dflt : T).

(** No producer on its way will find the queue empty behind it. *)
Definition sees_queue (d : Z) (p : @Producer T) : Prop :=
  match p with
  | PClaimed pos _ => d < pos
  | PCounted _ _ n | PStored _ n => n <> 0
  | PDone b n => b = true -> n <> 0
  | _ => True
  end.

Record asleep (d : Z) (s : @OutboundQueue T) : Prop := {
  as_ring : sys_ok dflt (ring_ s);
  as_encoder : has_encoder_ s = true;
  as_out : is_out (worker_phase s) = true /\ encoder_phase s = DOut;
  as_signal : encoder_woken (signals s) = false;
  as_head : dequeue_ (q_ s) = d;
  as_depth : d + kInlineEncodeDepth < enqueue_ (q_ s);
  as_producers : map_Forall (fun _ p => sees_queue d p) (producers (ring_ s))
}.

Lemma sys_step_taken (r : @Sys T) i sp : taken (sys_step dflt r (EPush i sp)) = taken r.
Proof. cbn [sys_step]. destruct (producers r !! i); [|done]. by destruct (push_step dflt sp (queue r) p). Qed.

Lemma asleep_push d s i sp : asleep d s -> zlen (claimed (sys_step dflt (ring_ s) (EPush i sp))) < 2 ^ 62 ->
  asleep d (set_ring (sys_step dflt (ring_ s) (EPush i sp)) s).
Proof.
  intros [] Hb. pose proof (sys_step_ok dflt _ (EPush i sp) as_ring0 Hb) as Hok.
  pose proof (so_head _ _ as_ring0) as Hh. pose proof (so_count _ _ as_ring0) as Hc. pose proof (so_count _ _ Hok) as Hc'.
  destruct (sys_step_claimed dflt (ring_ s) (EPush i sp)) as [l Hl].
  split; cbn [set_ring ring_]; try done.
  - by rewrite sys_step_dequeue.
  - rewrite Hc', Hl, length_app. rewrite Hc in as_depth0. lia.
  - cbn [sys_step]. destruct (producers (ring_ s) !! i) as [p|] eqn:Hi; [|done].
    pose proof (as_producers0 i p Hi) as Hp. pose proof (so_producers _ _ as_ring0 i p Hi) as Hpo. cbv beta in Hp.
    assert (Hins : forall p', sees_queue d p' -> map_Forall (fun _ p => sees_queue d p) (<[i := p']> (producers (ring_ s))))
      by (intros; by apply map_Forall_insert_2).
    rewrite Hl, length_app in Hb. unfold kInlineEncodeDepth in as_depth0.
    destruct p as [pos v|pos v|pos v|pos v n|pos n|b n]; cbn [push_step]; repeat case_match; simplify_eq;
      cbn [producers]; apply Hins; try done.
    + rewrite andb_true_iff, Z.eqb_eq in *. destruct_and!. simpl. lia.
    + simpl in Hp |- *. destruct Hpo as [Hpo _]. rewrite u64_small by (unfold size_max; lia). lia.
    + by intros _.
Qed.

Lemma asleep_step d s e : asleep d s -> zlen (claimed (ring_ (step dflt s e))) < 2 ^ 62 ->
  asleep d (step dflt s e) /\ taken (ring_ (step dflt s e)) = taken (ring_ s).
Proof.
  intros Hs Hb. pose proof Hs as [Hr He [Hw Hen] Hg Hh Hd Hp].
  assert (Hb0 : zlen (claimed (ring_ s)) < 2 ^ 62)
    by (destruct (step_claimed dflt s e) as [l E]; rewrite E, length_app in Hb; lia).
  destruct e as [i v|i sp|i| | | |th]; cbn [step] in *.
  - destruct (producers (ring_ s) !! i) eqn:Hi; [done|].
    pose proof (sys_step_ok dflt _ (EPushCall i v) Hr) as Hok. cbn [sys_step] in *. rewrite Hi in *. cbn [push_idle] in *.
    split; [|done]. split; cbn [set_ring ring_ queue producers signals has_encoder_ worker_phase encoder_phase]; try done; [by apply Hok|].
    by apply map_Forall_insert_2.
  - split; [by apply asleep_push|]. apply sys_step_taken.
  - unfold push_return in *. destruct (producers (ring_ s) !! i) as [[ | | | | |b n]|] eqn:Hi; try done.
    pose proof (Hp i _ Hi) as Hn. simpl in Hn.
    replace (b && (n =? 0)) with false by (destruct b; [|done]; symmetry; cbn [andb]; apply Z.eqb_neq; auto).
    split; [|done]. split; cbn [set_ring ring_ queue producers signals has_encoder_ worker_phase encoder_phase]; try done.
    + by eapply ok_return.
    + by apply map_Forall_delete.
  - destruct (is_asleep _); [|done]. split; [|done]. split; done.
  - rewrite Hw. unfold ShouldEncodeInline. rewrite He. cbn [negb orb].
    replace (size (q_ s) <=? kInlineEncodeDepth) with false; [split; [|done]; split; done|].
    symmetry. apply Z.leb_gt. unfold size, kInlineEncodeDepth in *. destruct (Z.ltb_spec (dequeue_ (q_ s)) (enqueue_ (q_ s))); lia.
  - by rewrite Hg, andb_false_r.
  - unfold drain_step. destruct th; cbn [phase]; rewrite ?Hen; [done| |done]. by destruct (worker_phase s).
Qed.

Lemma asleep_run d es s : asleep d s -> zlen (claimed (ring_ (run dflt s es))) < 2 ^ 62 ->
  asleep d (run dflt s es) /\ taken (ring_ (run dflt s es)) = taken (ring_ s).
Proof.
  intros Hs. unfold run. induction es as [|e es IH] using rev_ind; [done|]. rewrite foldl_snoc. intros Hb.
  destruct IH as [H1 H2].
  { destruct (step_claimed dflt (foldl (step dflt) s es) e) as [l E]. rewrite E, length_app in Hb. lia. }
  destruct (asleep_step d _ e H1 Hb) as [H3 H4]. split; [done|congruence].
Qed.

End LostWake.

(** Application thread 1 claims its position while packet 10 is still queued, so
    it leaves the wake to the drain; the encoder finishes its drain before the
    packet is published; thread 2 then queues a third packet. *)
Definition unlucky_pushes : list (@OEvent Z) :=
  [OPushCall 0 10] ++ replicate 5 (OPush 0 false) ++ [OPushReturn 0; OEncoderWakes; ODrain Encoder]
  ++ [OPushCall 1 20] ++ replicate 3 (OPush 1 false) ++ replicate 12 (ODrain Encoder)
  ++ replicate 2 (OPush 1 false) ++ [OPushReturn 1]
  ++ [OPushCall 2 30] ++ replicate 5 (OPush 2 false) ++ [OPushReturn 2].

Lemma unlucky_asleep : asleep 0 1 (run 0 (init 0 8 true) unlucky_pushes).
Proof.
  assert (Hok := sys_run_ok 0 8 (push_events 10 ++ push_events 20 ++ push_events 30 ++ pop_events)).
  apply ok_forget in Hok; [|lia|vm_compute; reflexivity|split; [|right; by exists (Some 10)]].
  - split; try (vm_compute; reflexivity); [|split; vm_compute; reflexivity|].
    + replace (ring_ (run 0 (init 0 8 true) unlucky_pushes)) with (mkSys
        (queue (sys_run 0 8 (push_events 10 ++ push_events 20 ++ push_events 30 ++ pop_events))) ∅ (CPopped None)
        (claimed (sys_run 0 8 (push_events 10 ++ push_events 20 ++ push_events 30 ++ pop_events)))
        (taken (sys_run 0 8 (push_events 10 ++ push_events 20 ++ push_events 30 ++ pop_events)))); [exact Hok|].
      vm_compute. reflexivity.
    + replace (producers _) with (∅ : gmap nat (@Producer Z)) by (vm_compute; reflexivity). apply map_Forall_empty.
  - replace (producers _) with ({[0%nat := PDone true 2]} : gmap nat (@Producer Z)) by (vm_compute; reflexivity).
    by apply map_Forall_singleton.
Qed.

(** With a dedicated encoder the handshake does lose a wake.  The
    encoder's own nudge after a drain does not reach its own signal, and the
    worker it does reach leaves a queue deeper than one to the encoder: in the
    run [unlucky_pushes] two packets are queued, every [Push] has returned, both
    threads are out of [Drain], and whatever is pushed and however often the
    worker ticks from then on, nothing is taken from the queue again. *)
Theorem encoder_sleeps_on_queue :
  let s := run 0 (init 0 8 true) unlucky_pushes in
  producers (ring_ s) = ∅ /\ worker_phase s = DOut /\ encoder_phase s = DOut /\
  taken (ring_ s) = [10] /\ claimed (ring_ s) = [10; 20; 30] /\
  forall es, zlen (claimed (ring_ (run 0 s es))) < 2 ^ 62 -> taken (ring_ (run 0 s es)) = [10].
Proof.
  intros s. do 5 (split; [vm_compute; reflexivity|]). intros es Hb.
  destruct (asleep_run 0 1 es s unlucky_asleep Hb) as [_ ->]. vm_compute. reflexivity.
Qed.

(** ** Two drainers: the read cursor moves backwards *)

Section Rewound.
Context {T : Type} (dflt : T).

(** The ring as it would be with the cursor at [r]. *)
Definition forwarded (r : Z) (s : @Sys T) : @Sys T := store_dequeue r (with_consumer (CPopped None) s).

Definition head_is (d : Z) (p : DrainPhase) : Prop :=
  match p with DEmptyStore h | DEmptyCheck h => h = d | _ => True end.

Record rewound (d r : Z) (s : @OutboundQueue T) : Prop := {
  rw_ring : sys_ok dflt (forwarded r (ring_ s));
  rw_back : 0 <= d < r;
  rw_head : dequeue_ (q_ s) = d;
  rw_consumer : consumer (ring_ s) = CIdle \/ consumer (ring_ s) = CPopped None;
  rw_worker : head_is d (worker_phase s);
  rw_encoder : head_is d (encoder_phase s)
}.

(** The cell behind the cursor belongs to a later lap for ever. *)
Lemma rewound_unreadable d r s : rewound d r s -> zlen (claimed (ring_ s)) < 2 ^ 62 -> NextReadable dflt (q_ s) = false.
Proof.
  intros [] Hb. unfold NextReadable. rewrite rw_head0. set (f := forwarded r (ring_ s)) in *.
  change (cell_at dflt (q_ s) d) with (cell_at dflt (queue f) d).
  pose proof (so_ring _ _ rw_ring0) as Hr. destruct (ring_capacity _ Hr) as [Hn _].
  pose proof (so_window _ _ rw_ring0) as Hw. rewrite (so_count _ _ rw_ring0) in Hw.
  change (base f) with (r + 0) in Hw. change (claimed f) with (claimed (ring_ s)) in Hw.
  destruct (representative dflt (queue f) r d Hr) as (p & k & Hp & E & Hk). apply Z.eqb_neq. rewrite <- E.
  rewrite u64_small by (unfold size_max; lia).
  assert (Hseq := sequence_window dflt f p rw_ring0). change (base f) with (r + 0) in Hseq.
  assert (0 < k) by nia. assert (d + 2 <= p) by nia. destruct Hseq; lia.
Qed.

Lemma forwarded_push r (s : @Sys T) i sp : sys_ok dflt (forwarded r s) ->
  zlen (claimed (sys_step dflt s (EPush i sp))) < 2 ^ 62 -> sys_ok dflt (forwarded r (sys_step dflt s (EPush i sp))).
Proof.
  intros Hs Hb. pose proof (sys_step_ok dflt _ (EPush i sp) Hs) as Hok. cbn [sys_step] in *.
  change (producers (forwarded r s)) with (producers s) in Hok. destruct (producers s !! i) as [p|] eqn:Hi; [|done].
  pose proof (so_producers _ _ Hs i p Hi) as Hp.
  destruct p as [pos v|pos v|pos v|pos v n|pos n|b n]; cbn [push_step] in *;
    try change (cell_at dflt (queue (forwarded r s)) pos) with (cell_at dflt (queue s) pos) in *;
    change (enqueue_ (queue (forwarded r s))) with (enqueue_ (queue s)) in *;
    repeat (match goal with |- context [if ?c then _ else _] => destruct c end); try (by apply Hok).
  cbn [claim_of] in *. rewrite app_nil_r in *.
  apply (ok_set_producer dflt (forwarded r s) i (PCounted pos v (u64 (pos - dequeue_ (queue s))))); [done|done|]. cbn [producers forwarded store_dequeue with_consumer]. by rewrite Hi.
Qed.

Lemma rewound_drain d r s th : rewound d r s -> zlen (claimed (ring_ s)) < 2 ^ 62 ->
  rewound d r (drain_step dflt th s) /\ taken (ring_ (drain_step dflt th s)) = taken (ring_ s).
Proof.
  intros Hs Hb. pose proof (rewound_unreadable d r s Hs Hb) as Hun. destruct (Hs).
  assert (Hh : head_is d (phase th s)) by (by destruct th).
  assert (Hset : forall p s', head_is d p -> rewound d r s' -> rewound d r (set_phase th p s')).
  { intros p s' Hp []. destruct th; [done|..]; split; done. }
  unfold drain_step. destruct (phase th s) as [| | | | | |h|h] eqn:Hph.
  - done.
  - done.
  - destruct (encoding_ s); (split; [|by destruct th]); apply Hset; try done.
    split; try done. by left.
  - destruct rw_consumer0 as [E|E]; rewrite E; cbn [sys_step]; [rewrite E; cbn [pop_step]; rewrite Hun; cbn [taken_of]|].
    + split; [|by cbn; rewrite app_nil_r]. split; try done; [|by right].
      unfold forwarded, store_dequeue, with_consumer in *. cbn [set_ring ring_ queue producers claimed taken]. by rewrite app_nil_r.
    + split; [|by destruct th]. by apply Hset.
  - split; [|by destruct th]. apply Hset; done.
  - split; [|by destruct th]. apply Hset; done.
  - split; [|by destruct th]. apply Hset; [done|]. simpl in Hh. subst h. split; done.
  - assert (rewound d r (set_phase th DOut s)) by (by apply Hset).
    destruct (_ =? _); (split; [|by destruct th]); [done|]. destruct H. split; done.
Qed.

Lemma rewound_step d r s e : rewound d r s -> zlen (claimed (ring_ (step dflt s e))) < 2 ^ 62 ->
  rewound d r (step dflt s e) /\ taken (ring_ (step dflt s e)) = taken (ring_ s).
Proof.
  intros Hs Hb. assert (Hb0 : zlen (claimed (ring_ s)) < 2 ^ 62)
    by (destruct (step_claimed dflt s e) as [l E]; rewrite E, length_app in Hb; lia).
  pose proof Hs as [H1 H2 H3 H4 H5 H6]. destruct e as [i v|i sp|i| | | |th]; cbn [step] in *.
  - destruct (producers (ring_ s) !! i) eqn:Hi; [done|].
    pose proof (sys_step_ok dflt _ (EPushCall i v) H1) as Hok. cbn [sys_step] in *.
    change (producers (forwarded r (ring_ s))) with (producers (ring_ s)) in Hok. rewrite Hi in *. cbn [push_idle] in *.
    split; [|done]. split; try done. by apply Hok.
  - split; [|apply sys_step_taken]. split; cbn [set_ring ring_ worker_phase encoder_phase]; try done.
    + by apply forwarded_push.
    + by rewrite sys_step_dequeue.
    + cbn [sys_step]. destruct (producers (ring_ s) !! i); [|done]. by destruct (push_step dflt sp (q_ s) p).
  - unfold push_return in *. destruct (producers (ring_ s) !! i) as [[ | | | | |b n]|] eqn:Hi; try done.
    pose proof (ok_return dflt _ i b n H1 Hi) as Hok. destruct (b && (n =? 0)); (split; [|done]); split; try done; exact Hok.
  - destruct (is_asleep _); [|done]. split; [|done]. split; done.
  - destruct (is_out _); [|done]. split; [|done]. destruct (ShouldEncodeInline s); split; done.
  - destruct (_ && _); [|done]. split; [|done]. split; done.
  - by apply rewound_drain.
Qed.

Lemma rewound_run d r es s : rewound d r s -> zlen (claimed (ring_ (run dflt s es))) < 2 ^ 62 ->
  rewound d r (run dflt s es) /\ taken (ring_ (run dflt s es)) = taken (ring_ s).
Proof.
  intros Hs. unfold run. induction es as [|e es IH] using rev_ind; [done|]. rewrite foldl_snoc. intros Hb.
  destruct IH as [H1 H2].
  { destruct (step_claimed dflt (foldl (step dflt) s es) e) as [l E]. rewrite E, length_app in Hb. lia. }
  destruct (rewound_step d r _ e H1 Hb) as [H3 H4]. split; [done|congruence].
Qed.

End Rewound.

(** The worker has released the claim and loaded the cursor in [Empty]; before
    it stores it back, the encoder takes the claim and pops packet 20. *)
Definition stale_store : list (@OEvent Z) :=
  [OPushCall 0 10] ++ replicate 5 (OPush 0 false) ++ [OPushReturn 0; OTick] ++ replicate 10 (ODrain Worker)
  ++ [OPushCall 0 20] ++ replicate 5 (OPush 0 false) ++ [OPushReturn 0; OEncoderWakes] ++ replicate 12 (ODrain Encoder)
  ++ replicate 2 (ODrain Worker)
  ++ [OPushCall 0 30] ++ replicate 5 (OPush 0 false) ++ [OPushReturn 0].

Lemma stale_rewound : rewound 0 1 2 (run 0 (init 0 8 true) stale_store).
Proof.
  set (es := push_events 10 ++ pop_events ++ push_events 20 ++ pop_events ++ push_events 30).
  assert (Hok := sys_run_ok 0 8 es).
  apply ok_forget in Hok; [|lia|vm_compute; reflexivity|split; [|right; exists (Some 20); vm_compute; reflexivity]].
  - split; [|lia|vm_compute; reflexivity|right; vm_compute; reflexivity|vm_compute; exact I|vm_compute; exact I].
    replace (forwarded 2 (ring_ (run 0 (init 0 8 true) stale_store)))
      with (mkSys (queue (sys_run 0 8 es)) ∅ (CPopped None) (claimed (sys_run 0 8 es)) (taken (sys_run 0 8 es))); [exact Hok|].
    vm_compute. reflexivity.
  - replace (producers _) with ({[0%nat := PDone true 0]} : gmap nat (@Producer Z)) by (vm_compute; reflexivity).
    by apply map_Forall_singleton.
Qed.

(** [Drain] calls [Empty] after it gave up the claim, and [Empty] stores
    back the read cursor it loaded.  When another thread's drain pops in
    between, the store moves the cursor backwards, onto a cell of an earlier lap:
    in the run [stale_store] packet 30 is published and both threads are out of
    [Drain], yet from then on no sequence of pushes, ticks, wakes and drains of
    either thread takes anything from the queue. *)
Theorem stale_cursor_stalls_queue :
  let s := run 0 (init 0 8 true) stale_store in
  producers (ring_ s) = ∅ /\ worker_phase s = DOut /\ encoder_phase s = DOut /\ encoding_ s = false /\
  taken (ring_ s) = [10; 20] /\ claimed (ring_ s) = [10; 20; 30] /\
  forall es, zlen (claimed (ring_ (run 0 s es))) < 2 ^ 62 -> taken (ring_ (run 0 s es)) = [10; 20].
Proof.
  intros s. do 6 (split; [vm_compute; reflexivity|]). intros es Hb.
  destruct (rewound_run 0 1 2 es s stale_rewound Hb) as [_ ->]. vm_compute. reflexivity.
Qed.

End Outbound.
