(* ===== verification/ZdtTransport.v ===== *)
(** * The per-peer transport (zdt_transport.cc)

    The entry points of [ZDTTransportLayer], composed from the send path, the
    acknowledgments, the receive path and the flush.  Each is one atomic
    operation on the state.  [Update], [Flush] and [Receive] belong to the
    session's worker; [Send], [OnDatagram], [Close] and the migrations may come
    from other threads and touch only the queues, the closed flag and the pending
    path.  Metrics, which the build may compile out, are not modelled. *)

From S2P Require Import Prelude Buffer BufferSpec Binary64 ZdtWire ZdtAckHistory ZdtCongestion.
From S2P Require Import ZdtOptions ZdtState ZdtSend ZdtAcks ZdtReceive ZdtFlush MpscQueue.

Definition ZNET_MAX_BUFFER_SIZE : Z := 4096.

Section Transport.
Context `{P : Platform} (clk : nat -> Z).

(** The constructor; it reads the clock twice. *)
Definition ZDTTransportLayer_new (socket : option Z) (peer : option InetAddress) (cfg : ZDTOptions) (drains : bool)
    (conn : ZDTConnection) (common : CommonOptions) : Transport :=
  mkTransport
    (mkSetup cfg drains conn (keepalive_interval common) (idle_timeout common))
    (mkPath socket peer None None false [] [] 2)
    (mkSender 1 ∅ 0 ∅ TimePoint_min TimePoint_max 0
       (Rtt_Reset ZDTRttEstimator_default (Clamp 200 (rto_min cfg) (rto_max cfg)))
       ZDTCongestionController_default (clk 1) (Buffer_new BigEndian))
    (mkReceiver ZDTAckHistory_default false ∅ ∅ 0 [] (clk 0))
    (mkQueues [] 0 [] [] 0 0 (ReserveExact ZNET_MAX_BUFFER_SIZE (Buffer_new BigEndian)).2).

Definition Receive (t : Transport) : option Buffer * Transport :=
  match ready_ (rx_ t) with
  | [] => (None, t)
  | b :: rest => (Some b, upd_rx (set_ready rest) t)
  end.

(** The ring refuses once it holds its capacity. *)
Definition Send (buffer : Buffer) (options : SendOptions) (t : Transport) : bool * Transport :=
  if is_closed_ (path_ t) then (false, t)
  else if zlen (outbound_ (qs_ t)) <? Mpsc.RoundUpPowerOfTwo (outbound_queue_capacity (config t))
  then (true, upd_qs (fun q => set_outbound (outbound_ q ++ [mkQueued buffer options]) q) t)
  else (false, t).

Definition OrderingDomain (options : SendOptions) : Z := GetOr ChannelKey 0 options.

(** ** The inbox *)

Definition Inbox_Push (datagram : Buffer) (limit : Z) (t : Transport) : bool * Transport :=
  if limit <=? zlen (inbox_ (qs_ t))
  then (false, upd_qs (fun q => set_inbox_dropped (inbox_dropped_ q + 1) q) t)
  else
    let '(now, t) := now_ clk t in
    (true, upd_qs (fun q => set_inbox (inbox_ q ++ [mkInbound datagram now]) q) t).

Definition OnDatagram (data : list Z) (t : Transport) : Transport :=
  (Inbox_Push (Buffer_from data BigEndian) (max_inbox_datagrams (config t)) t).2.

(** One datagram read into the scratch buffer and copied into the inbox.
    [RecvFrom] writes at most the space there is. *)
Definition drain_one (t : Transport) (bytes : list Z) : Transport :=
  let scratch := Reset false (recv_scratch_ (qs_ t)) in
  let got := take (Z.to_nat (writable_bytes scratch)) bytes in
  let scratch := CommitWrite (zlen got) (store (write_cursor_ scratch) got scratch) in
  let t := upd_qs (set_recv_scratch scratch) t in
  (Inbox_Push (Buffer_from (datagram_bytes scratch) BigEndian) (max_inbox_datagrams (config t)) t).2.

(** [incoming]: what the socket yields before it would block. *)
Definition DrainSocket (incoming : list (list Z)) (t : Transport) : Transport :=
  let t := foldl drain_one t incoming in
  upd_qs (fun q => set_recv_scratch (Reset false (recv_scratch_ q)) q) t.

(** ** Inbound datagrams *)

(** The loop over the records of one datagram.  A record takes at least its
    header out of the buffer, so the bytes it holds bound the iterations. *)
Fixpoint process_records (fuel : nat) (buffer : Buffer) (accepted_all : bool) (t : Transport) : bool * Transport :=
  match fuel with
  | O => (accepted_all, t)
  | S fuel =>
      if 0 <? readable_bytes buffer then
        let '(ok, record, buffer) := ReadZDTRecord buffer ZDTRecord_default in
        if negb ok then (accepted_all, t)
        else
          let t := upd_rx (set_needs_ack true) t in
          let '(payload, buffer) := load (read_cursor_ buffer) (r_length record) buffer in
          let buffer := SkipRead (r_length record) buffer in
          let '(taken, t) := OnRecord clk record payload t in
          let accepted_all := accepted_all && taken in
          if is_closed_ (path_ t) then (accepted_all, t)
          else process_records fuel buffer accepted_all t
      else (accepted_all, t)
  end.

(** One datagram; the second component says whether the loop over the inbox goes on. *)
Definition process_datagram (inbound : ZDTInbound) (t : Transport) : bool * Transport :=
  let '(ok, header, buffer) := ReadZDTHeader (datagram inbound) ZDTHeader_default in
  if negb ok then (true, t)
  else
    let t := upd_rx (set_last_recv (arrival inbound)) t in
    let t := if negb (h_packet_seq header =? 0) then ProcessAcks clk header (arrival inbound) t else t in
    if has_flag (h_flags header) kFlagFin then
      (false, Shutdown (upd_path (set_is_closed true) t))
    else if has_flag (h_flags header) kFlagPing then (true, SendControl clk kFlagPong t)
    else
      let '(accepted_all, t) := process_records (Z.to_nat (readable_bytes buffer)) buffer true t in
      (true, if negb (h_packet_seq header =? 0) && accepted_all
             then upd_rx (fun r => set_ack_history (Record_ (ack_history_ r) (h_packet_seq header)) r) t
             else t).

Fixpoint process_all (inbounds : list ZDTInbound) (t : Transport) : Transport :=
  match inbounds with
  | [] => t
  | i :: rest => let '(go_on, t) := process_datagram i t in if go_on then process_all rest t else t
  end.

Definition ProcessInbound (t : Transport) : Transport :=
  let inbounds := inbox_ (qs_ t) in
  process_all inbounds (upd_qs (set_inbox []) t).

(** ** Timers *)

Definition CheckTimers (t : Transport) : Transport :=
  let '(now, t) := now_ clk t in
  let s := setup_ t in
  if (0 <? idle_timeout_ s) && (ms (idle_timeout_ s) <? now - last_recv_ (rx_ t)) then (Close t).2
  else if (0 <? keepalive_interval_ s) && (ms (keepalive_interval_ s) <? now - last_send_ (tx_ t))
  then SendControl clk kFlagPing t
  else t.

(** ** Migration *)

Definition MigratePeer (new_peer : option InetAddress) (t : Transport) : Transport :=
  match new_peer with None => t | Some _ => upd_path (set_pending_peer new_peer) t end.

Definition MigrateSocket (new_socket : option Z) (t : Transport) : Transport :=
  match new_socket with None => t | Some _ => upd_path (set_pending_socket new_socket) t end.

Definition ApplyPendingMigration (t : Transport) : Transport :=
  let next_peer := pending_peer_ (path_ t) in
  let next_socket := pending_socket_ (path_ t) in
  let t := upd_path (fun p => set_pending_socket None (set_pending_peer None p)) t in
  let t := match next_peer with Some _ => upd_path (set_peer next_peer) t | None => t end in
  match next_socket with Some _ => upd_path (set_socket next_socket) t | None => t end.

(** ** The worker's tick *)

Definition Flush (t : Transport) : Transport :=
  if is_closed_ (path_ t) then t
  else
    let t := FlushOutbound clk t in
    if needs_ack_ (rx_ t) then SendControl clk 0 t else t.

(** [incoming] is what the transport's own socket yields, if it drains one. *)
Definition Update (incoming : list (list Z)) (t : Transport) : Transport :=
  if is_closed_ (path_ t) then t
  else
    let t := ApplyPendingMigration t in
    let t := if drains_own_socket_ (setup_ t) then DrainSocket incoming t else t in
    let t := ProcessInbound t in
    if is_closed_ (path_ t) then t
    else
      let t := RetransmitUnacked clk t in
      if is_closed_ (path_ t) then t
      else
        let '(now, t) := now_ clk t in
        let t := MaybeTailProbe clk now t in
        let t := CheckTimers t in
        if is_closed_ (path_ t) then t
        else
          let t := Flush t in
          let t := PruneSentPackets clk t in
          PruneReassembly clk t.

End Transport.


(** ** Two ends of a connection, for the examples

    A machine whose clock advances by a millisecond per reading. *)

Module Loopback.

Definition machine : Platform := host LittleEndian.
Definition clock (n : nat) : Z := ms (1000 + Z.of_nat n).
Definition address (port : Z) : InetAddress := InetAddressIPv4 [127; 0; 0; 1] port.

Definition endpoint_with (cfg : ZDTOptions) (socket port : Z) : Transport :=
  @ZDTTransportLayer_new machine clock (Some socket) (Some (address port)) cfg false ZDTConnection_default
    CommonOptions_default.

Definition endpoint : Z -> Z -> Transport := endpoint_with ZDTOptions_default.

Definition message (bytes : list Z) : Buffer := @Buffer_from machine bytes LittleEndian.

(** The datagrams an end has sent. *)
Definition sent_by (t : Transport) : list (list Z) := (fun d => d.2) <$> wire_ (path_ t).

(** Feeds datagrams to an end. *)
Definition feed (ds : list (list Z)) (t : Transport) : Transport :=
  foldl (fun t d => @OnDatagram machine clock d t) t ds.

Definition update (t : Transport) : Transport := @Update machine clock [] t.

End Loopback.

(** A message crosses, is delivered and acknowledged, and leaves nothing in
    flight. *)
Example loopback_message :
  let client := Loopback.update (Send (Loopback.message [104; 105]) SendOptions_default (Loopback.endpoint 1 7001)).2 in
  let server := Loopback.update (Loopback.feed (Loopback.sent_by client) (Loopback.endpoint 2 7002)) in
  let client' := Loopback.update (Loopback.feed (Loopback.sent_by server) client) in
  (avail <$> ready_ (rx_ server)) = [ [104; 105] ] /\ in_flight_datagrams_ (tx_ client) = 1 /\
  in_flight_datagrams_ (tx_ client') = 0 /\ unacked_ (tx_ client') = ∅.
Proof. vm_compute. repeat split. Qed.

(** A message of three fragments whose datagrams arrive in reverse order. *)
Example loopback_fragments :
  let client := Loopback.update
    (Send (Loopback.message (repeat 7 3000)) SendOptions_default (Loopback.endpoint 1 7001)).2 in
  let server := Loopback.update (Loopback.feed (rev (Loopback.sent_by client)) (Loopback.endpoint 2 7002)) in
  length (Loopback.sent_by client) = 3%nat /\ (avail <$> ready_ (rx_ server)) = [repeat 7 3000].
Proof. vm_compute. repeat split. Qed.
