(* ===== verification/ZdtServer.v ===== *)
(** * The ZDT server backend (zdt_backends.h, zdt_backends.cc)

    The receive thread's routing, the stateless handshake, connection migration,
    and the operations of the accepting thread.  Every operation runs under
    [state_mutex_], so the state is passed explicitly and an interleaving of the
    threads is a sequence of whole operations.

    A session is known by its allocation number: [sessions_] is the heap of the
    sessions alive, each with its transport (which owns the inbox), and a
    [weak_ptr] has expired when its number is no longer there.  What the socket
    was asked to send is recorded in [sent_].  The unspecified iteration order of
    the route table is a parameter, as are the readings of the clock.  Metrics
    and logging are left out. *)

From S2P Require Import Prelude Buffer BufferSpec BufferCodecs ZdtWire InetAddr Admission ZdtCookie ZdtOptions ZdtState ZdtSend ZdtTransport.

Inductive Result :=
  | Success | Failure | AlreadyStopped | AlreadyClosed | AlreadyDisconnected | CannotBind | NotBound | InvalidAddress
  | InvalidRemoteAddress | CannotCreateSocket | CannotListen | AlreadyConnected | AlreadyListening | NotInitialized
  | AlreadyBound | InvalidBackend | InvalidTransport | Timeout | CannotConnect | NotConnected | IncompatibleVersion
  | ConnectionRefused | ServerFull | PeerNotFound | NotReady | QueueFull | InvalidArgument.

#[export] Instance Result_eq_dec : EqDecision Result.
Proof. solve_decision. Defined.

(** [session], [inbox] and [transport] are one object here. *)
Record Route := mkRoute { r_session : nat; r_peer : InetAddress; r_remote_guid : Z }.

Record ServerBackend := mkServer {
  bind_address_ : option InetAddress;
  srv_socket_ : option Z;
  srv_config_ : ZDTOptions;
  child_common_ : CommonOptions;
  admission_ : AdmissionControl;
  is_bind_ : bool;
  is_listening_ : bool;
  routes_ : gmap (list Z) Route;
  pending_accept_ : list nat;
  source_rate_ : gmap (list Z) SourceWindow;
  cookie_secret_ : CookieSecret;
  server_guid_ : Z;
  sessions_ : gmap nat Transport;
  next_session_ : nat;
  sent_ : list (InetAddress * list Z);
  srv_ticks_ : nat
}.

Definition set_admission (v : AdmissionControl) (s : ServerBackend) : ServerBackend :=
  mkServer (bind_address_ s) (srv_socket_ s) (srv_config_ s) (child_common_ s) v (is_bind_ s) (is_listening_ s) (routes_ s) (pending_accept_ s) (source_rate_ s) (cookie_secret_ s) (server_guid_ s) (sessions_ s) (next_session_ s) (sent_ s) (srv_ticks_ s).
Definition set_routes (v : gmap (list Z) Route) (s : ServerBackend) : ServerBackend :=
  mkServer (bind_address_ s) (srv_socket_ s) (srv_config_ s) (child_common_ s) (admission_ s) (is_bind_ s) (is_listening_ s) v (pending_accept_ s) (source_rate_ s) (cookie_secret_ s) (server_guid_ s) (sessions_ s) (next_session_ s) (sent_ s) (srv_ticks_ s).
Definition set_pending (v : list nat) (s : ServerBackend) : ServerBackend :=
  mkServer (bind_address_ s) (srv_socket_ s) (srv_config_ s) (child_common_ s) (admission_ s) (is_bind_ s) (is_listening_ s) (routes_ s) v (source_rate_ s) (cookie_secret_ s) (server_guid_ s) (sessions_ s) (next_session_ s) (sent_ s) (srv_ticks_ s).
Definition set_rate (v : gmap (list Z) SourceWindow) (s : ServerBackend) : ServerBackend :=
  mkServer (bind_address_ s) (srv_socket_ s) (srv_config_ s) (child_common_ s) (admission_ s) (is_bind_ s) (is_listening_ s) (routes_ s) (pending_accept_ s) v (cookie_secret_ s) (server_guid_ s) (sessions_ s) (next_session_ s) (sent_ s) (srv_ticks_ s).
Definition set_secret (v : CookieSecret) (s : ServerBackend) : ServerBackend :=
  mkServer (bind_address_ s) (srv_socket_ s) (srv_config_ s) (child_common_ s) (admission_ s) (is_bind_ s) (is_listening_ s) (routes_ s) (pending_accept_ s) (source_rate_ s) v (server_guid_ s) (sessions_ s) (next_session_ s) (sent_ s) (srv_ticks_ s).
Definition set_sessions (v : gmap nat Transport) (s : ServerBackend) : ServerBackend :=
  mkServer (bind_address_ s) (srv_socket_ s) (srv_config_ s) (child_common_ s) (admission_ s) (is_bind_ s) (is_listening_ s) (routes_ s) (pending_accept_ s) (source_rate_ s) (cookie_secret_ s) (server_guid_ s) v (next_session_ s) (sent_ s) (srv_ticks_ s).
Definition set_next_session (v : nat) (s : ServerBackend) : ServerBackend :=
  mkServer (bind_address_ s) (srv_socket_ s) (srv_config_ s) (child_common_ s) (admission_ s) (is_bind_ s) (is_listening_ s) (routes_ s) (pending_accept_ s) (source_rate_ s) (cookie_secret_ s) (server_guid_ s) (sessions_ s) v (sent_ s) (srv_ticks_ s).
Definition set_sent (v : list (InetAddress * list Z)) (s : ServerBackend) : ServerBackend :=
  mkServer (bind_address_ s) (srv_socket_ s) (srv_config_ s) (child_common_ s) (admission_ s) (is_bind_ s) (is_listening_ s) (routes_ s) (pending_accept_ s) (source_rate_ s) (cookie_secret_ s) (server_guid_ s) (sessions_ s) (next_session_ s) v (srv_ticks_ s).
Definition set_srv_ticks (v : nat) (s : ServerBackend) : ServerBackend :=
  mkServer (bind_address_ s) (srv_socket_ s) (srv_config_ s) (child_common_ s) (admission_ s) (is_bind_ s) (is_listening_ s) (routes_ s) (pending_accept_ s) (source_rate_ s) (cookie_secret_ s) (server_guid_ s) (sessions_ s) (next_session_ s) (sent_ s) v.
Definition set_bound (address : option InetAddress) (guid : Z) (s : ServerBackend) : ServerBackend :=
  mkServer address (srv_socket_ s) (srv_config_ s) (child_common_ s) (admission_ s) true (is_listening_ s) (routes_ s) (pending_accept_ s) (source_rate_ s) (cookie_secret_ s) guid (sessions_ s) (next_session_ s) (sent_ s) (srv_ticks_ s).
Definition set_server_socket (v : option Z) (s : ServerBackend) : ServerBackend :=
  mkServer (bind_address_ s) v (srv_config_ s) (child_common_ s) (admission_ s) (is_bind_ s) (is_listening_ s) (routes_ s) (pending_accept_ s) (source_rate_ s) (cookie_secret_ s) (server_guid_ s) (sessions_ s) (next_session_ s) (sent_ s) (srv_ticks_ s).
Definition set_running (bound listening : bool) (s : ServerBackend) : ServerBackend :=
  mkServer (bind_address_ s) (srv_socket_ s) (srv_config_ s) (child_common_ s) (admission_ s) bound listening (routes_ s) (pending_accept_ s) (source_rate_ s) (cookie_secret_ s) (server_guid_ s) (sessions_ s) (next_session_ s) (sent_ s) (srv_ticks_ s).

(** [MTULadder::front()] *)
Definition MTULadder_front (l : MTULadder) : Z := default 0 (rungs l !! 0%nat).

Definition second : Z := 1000000000.

Section Server.
Context `{P : Platform} `{I : Inet} `{C : CookieCrypto}.
(** The server's clock, the clock a session's transport reads, and the order in
    which the route table is walked. *)
Context (clk : nat -> Z) (tclk : nat -> nat -> Z) (walk : gmap (list Z) Route -> list (list Z * Route)).

Definition ZDTServerBackend_new (address : option InetAddress) (cfg : ZDTOptions) (common : CommonOptions)
    (options : ServerOptions) : ServerBackend :=
  mkServer address None cfg common (AdmissionControl_new options) false false ∅ [] ∅ (CookieSecret_new (clk 0)) 0
    ∅ 0 [] 1.

Definition srv_now (s : ServerBackend) : Z * ServerBackend :=
  (clk (srv_ticks_ s), set_srv_ticks (S (srv_ticks_ s)) s).

Definition expired (id : nat) (s : ServerBackend) : bool := bool_decide (sessions_ s !! id = None).

Definition SendTo (to : InetAddress) (out : Buffer) (s : ServerBackend) : ServerBackend :=
  set_sent (sent_ s ++ [(to, datagram_bytes out)]) s.

(** ** Replies *)

Definition IncompatibleVersion_reply (s : ServerBackend) : Buffer :=
  let out := WriteOfflineHeader (Buffer_new BigEndian) (offline_id IncompatibleProtocolVersion) in
  let out := WriteInt 1 kZDTProtocolVersion out in
  WriteInt 8 (server_guid_ s) out.

Definition cap_of (cfg : ZDTOptions) : Z := if enable_connection_migration cfg then kZDTCapMigration else 0.

Definition Reply1 (mtu : Z) (cookie : list Z) (s : ServerBackend) : Buffer :=
  let out := WriteOfflineHeader (Buffer_new BigEndian) (offline_id OpenConnectionReply1) in
  let out := WriteInt 8 (server_guid_ s) out in
  let out := WriteInt 2 mtu out in
  let out := WriteInt 1 (u8 (zlen cookie)) out in
  let out := Write cookie out in
  let out := WriteInt 4 (epoch_ (cookie_secret_ s)) out in
  WriteInt 1 (cap_of (srv_config_ s)) out.

Definition Reply2 (from : InetAddress) (mtu : Z) (s : ServerBackend) : Buffer :=
  let out := WriteOfflineHeader (Buffer_new BigEndian) (offline_id OpenConnectionReply2) in
  let out := WriteInt 8 (server_guid_ s) out in
  let out := WriteInetAddress from out in
  WriteInt 2 mtu out.

Definition NoFreeConnections_reply (s : ServerBackend) : Buffer :=
  let out := WriteOfflineHeader (Buffer_new BigEndian) (offline_id NoFreeConnections) in
  WriteInt 8 (server_guid_ s) out.

(** ** Handshake *)

Definition AllowHandshake (peer_readable : list Z) (s : ServerBackend) : bool * ServerBackend :=
  let '(now, s) := srv_now s in
  let prune_at := if 0 <? max_connections (srv_config_ s) then max_connections (srv_config_ s) * 2 else 8192 in
  let table := if prune_at <? map_size (source_rate_ s) then prune now second (source_rate_ s) else source_rate_ s in
  let entry := default (mkWindow 0 0) (table !! peer_readable) in
  let entry := if (count entry =? 0) || (second <? now - window_start entry) then mkWindow now 0 else entry in
  let entry := mkWindow (window_start entry) (count entry + 1) in
  (count entry <=? per_source_handshake_rate (srv_config_ s), set_rate (<[peer_readable := entry]> table) s).

Definition HandleRequest1 (buffer : Buffer) (from : InetAddress) (datagram_size : Z) (s : ServerBackend)
  : ServerBackend :=
  let '(now, s) := srv_now s in
  let '(verdict, adm) := Admit now from (admission_ s) in
  let s := set_admission adm s in
  if negb (bool_decide (verdict = Allow)) then s
  else
    let '(version, buffer) := ReadInt 1 buffer in
    if negb (version =? kZDTProtocolVersion) then SendTo from (IncompatibleVersion_reply s) s
    else
      let mtu := u16 (Z.min datagram_size
                        (ZDTPayloadForLinkMTU (MTULadder_front (mtu_ladder (srv_config_ s))) (ipv from))) in
      let cookie := Compute (readable from) (epoch_ (cookie_secret_ s)) (cookie_secret_ s) in
      SendTo from (Reply1 mtu cookie s) s.

(** The fields of a Request2 behind the cookie's length. *)
Record Request2 := mkRequest2 {
  q_cookie : list Z;
  q_epoch : Z;
  q_target : option InetAddress;
  q_mtu : Z;
  q_client_guid : Z;
  q_client_cap : Z
}.

Definition ReadRequest2 (buffer : Buffer) : Request2 :=
  let '(cookie, buffer) := Read 1 kZDTCookieLen (repeat 0 16) buffer in
  let '(epoch, buffer) := ReadInt 4 buffer in
  let '(target, buffer) := ReadInetAddress buffer in
  let '(mtu, buffer) := ReadInt 2 buffer in
  let '(client_guid, buffer) := ReadInt 8 buffer in
  let '(client_cap, buffer) := ReadInt 1 buffer in
  mkRequest2 cookie epoch target mtu client_guid client_cap.

Definition accepted_connection (from : InetAddress) (q : Request2) (s : ServerBackend) : ZDTConnection :=
  mkConnection
    (if negb (q_mtu q =? 0) then q_mtu q
     else ZDTPayloadForLinkMTU (MTULadder_back (mtu_ladder (srv_config_ s))) (ipv from))
    (server_guid_ s) (q_client_guid q)
    (enable_connection_migration (srv_config_ s) && has_flag (q_client_cap q) kZDTCapMigration) 0.

(** Allocates the session, its transport and its route. *)
Definition accept_session (from : InetAddress) (q : Request2) (s : ServerBackend) : ServerBackend :=
  let id := next_session_ s in
  let transport := ZDTTransportLayer_new (tclk id) (srv_socket_ s) (Some from) (srv_config_ s) false
                     (accepted_connection from q s) (child_common_ s) in
  let s := set_next_session (S id) (set_sessions (<[id := transport]> (sessions_ s)) s) in
  let s := set_routes (<[readable from := mkRoute id from (q_client_guid q)]> (routes_ s)) s in
  set_pending (pending_accept_ s ++ [id]) s.

Definition HandleRequest2 (buffer : Buffer) (from : InetAddress) (s : ServerBackend) : ServerBackend :=
  let '(cookie_len, buffer) := ReadInt 1 buffer in
  if negb (cookie_len =? kZDTCookieLen) then s
  else
    let q := ReadRequest2 buffer in
    if negb (ConstTimeEqual CRYPTO_memcmp (q_cookie q) (Compute (readable from) (q_epoch q) (cookie_secret_ s))) then s
    else
      let reply2 := SendTo from (Reply2 from (q_mtu q) s) in
      let live := match routes_ s !! readable from with
                  | Some existing => negb (expired (r_session existing) s)
                  | None => false
                  end in
      if live then reply2 s
      else if (0 <? max_connections (srv_config_ s)) &&
              (max_connections (srv_config_ s) <=? map_size (routes_ s))
      then SendTo from (NoFreeConnections_reply s) s
      else reply2 (accept_session from q s).

(** ** Migration *)

Definition ChallengeNewPath (cid : Z) (from : InetAddress) (s : ServerBackend) : ServerBackend :=
  let known := existsb (fun e => (r_remote_guid e.2 =? cid) && negb (expired (r_session e.2) s)) (walk (routes_ s)) in
  if negb known then s
  else SendTo from (WritePathMessage (offline_id PathChallenge)
                      (MakePathChallenge (cookie_secret_ s) (readable from) cid)) s.

(** The first route walked with this connection id decides. *)
Fixpoint migrate_first (entries : list (list Z * Route)) (cid : Z) (from : InetAddress) (s : ServerBackend)
  : ServerBackend :=
  match entries with
  | [] => s
  | (key, route) :: rest =>
      if negb (r_remote_guid route =? cid) then migrate_first rest cid from s
      else match sessions_ s !! r_session route with
           | None => s
           | Some transport =>
               if bool_decide (key = readable from) then s
               else
                 let s := set_routes (delete key (routes_ s)) s in
                 let s := set_sessions (<[r_session route := MigratePeer (Some from) transport]> (sessions_ s)) s in
                 set_routes (<[readable from := mkRoute (r_session route) from (r_remote_guid route)]> (routes_ s)) s
           end
  end.

Definition CompletePathMigration (from : InetAddress) (response : ZDTPathMessage) (s : ServerBackend)
  : ServerBackend :=
  if negb (VerifyPathResponse (cookie_secret_ s) (readable from) response) then s
  else migrate_first (walk (routes_ s)) (pm_cid response) from s.

(** ** Routing *)

Definition HandleOffline (buffer : Buffer) (from : InetAddress) (datagram_size : Z) (s : ServerBackend)
  : ServerBackend :=
  match ReadOfflineHeader buffer with
  | (None, _) => s
  | (Some id, buffer) =>
      if negb (bool_decide (Screen from (admission_ s) = Allow)) then s
      else
        let '(allowed, s) := AllowHandshake (readable from) s in
        if negb allowed then s
        else if id =? offline_id PathResponse then
          if enable_connection_migration (srv_config_ s) then
            match ReadPathMessage buffer (ZdtWire.mkPath 0 0 (repeat 0 16)) with
            | (true, response, _) => CompletePathMigration from response s
            | (false, _, _) => s
            end
          else s
        else if id =? offline_id OpenConnectionRequest1 then HandleRequest1 buffer from datagram_size s
        else if id =? offline_id OpenConnectionRequest2 then HandleRequest2 buffer from s
        else s
  end.

Definition RouteDatagram (datagram : Buffer) (from : InetAddress) (s : ServerBackend) : ServerBackend :=
  let '(now, s) := srv_now s in
  let s := set_secret (MaybeRotate (cookie_secret_rotation (srv_config_ s) * 1000000) now (cookie_secret_ s)) s in
  let bytes := datagram_bytes datagram in
  if has_flag (byte_at bytes 0) kFlagOnline then
    match routes_ s !! readable from with
    | Some route =>
        set_sessions (alter (fun t => (Inbox_Push (tclk (r_session route)) (Buffer_from bytes BigEndian)
                                         (max_inbox_datagrams (srv_config_ s)) t).2)
                        (r_session route) (sessions_ s)) s
    | None =>
        if enable_connection_migration (srv_config_ s) then
          match PeekCid bytes with
          | Some cid => ChallengeNewPath cid from s
          | None => s
          end
        else s
    end
  else HandleOffline datagram from (zlen bytes) s.

(** ** The receive thread *)

Inductive RecvResult :=
  | WouldBlock
  | RecvError
  | Received (data : list Z) (from : option InetAddress).

(** What one read leaves in the scratch buffer: at most what it has room for. *)
Definition recv_into (scratch : Buffer) (data : list Z) : Buffer :=
  let scratch := Reset false scratch in
  let got := take (Z.to_nat (writable_bytes scratch)) data in
  CommitWrite (zlen got) (store (write_cursor_ scratch) got scratch).

(** [ReceiveDatagrams] over what the socket yields until the thread is stopped. *)
Fixpoint ReceiveDatagrams {S} (deliver : Buffer -> InetAddress -> S -> S) (incoming : list RecvResult)
    (scratch : Buffer) (s : S) : S :=
  match incoming with
  | [] => s
  | WouldBlock :: rest => ReceiveDatagrams deliver rest (Reset false scratch) s
  | RecvError :: _ => s
  | Received data from :: rest =>
      match data, from with
      | _ :: _, Some from =>
          let scratch := recv_into scratch data in
          ReceiveDatagrams deliver rest scratch (deliver scratch from s)
      | _, _ => ReceiveDatagrams deliver rest (Reset false scratch) s
      end
  end.

Definition recv_scratch : Buffer := (ReserveExact ZNET_MAX_BUFFER_SIZE (Buffer_new BigEndian)).2.

Definition ReceiveLoop (incoming : list RecvResult) (s : ServerBackend) : ServerBackend :=
  ReceiveDatagrams RouteDatagram incoming recv_scratch s.

(** ** The accepting thread *)

(** [opened]: the socket that was opened, if it could be; [bound]: whether the
    system bound it; [local]: what it reports as its address; [guid]: drawn. *)
Definition Bind (opened : option Z) (bound : bool) (local : option InetAddress) (guid : Z) (s : ServerBackend)
  : Result * ServerBackend :=
  if is_bind_ s then (AlreadyBound, s)
  else match bind_address_ s with
       | None => (InvalidAddress, s)
       | Some a =>
           if negb (is_valid a) then (InvalidAddress, s)
           else match opened with
                | None => (CannotCreateSocket, s)
                | Some _ =>
                    let s := set_server_socket opened s in
                    if negb bound then (CannotBind, s)
                    else (Success, set_bound (match local with Some l => Some l | None => Some a end) guid s)
                end
       end.

Definition Listen (s : ServerBackend) : Result * ServerBackend :=
  if is_listening_ s then (AlreadyListening, s)
  else if negb (is_bind_ s) then (NotBound, s)
  else (Success, set_running (is_bind_ s) true s).

Definition Close (s : ServerBackend) : Result * ServerBackend :=
  if negb (is_listening_ s) && negb (is_bind_ s) then (AlreadyStopped, s)
  else
    let s := set_running false false s in
    (Success, set_rate ∅ (set_pending [] (set_routes ∅ s))).

(** Drops routes whose sessions are gone, then hands out the oldest session. *)
Definition Accept (s : ServerBackend) : option nat * ServerBackend :=
  if negb (is_listening_ s) then (None, s)
  else
    let s := set_routes (filter (fun e => negb (expired (r_session e.2) s)) (routes_ s)) s in
    match pending_accept_ s with
    | [] => (None, s)
    | session :: rest => (Some session, set_pending rest s)
    end.

End Server.
