(* ===== verification/ZdtClient.v ===== *)
(** * The ZDT client backend (zdt_backends.h, zdt_backends.cc)

    The two-phase handshake over an abstract network, and the client's receive
    thread, rebind and shutdown.  The class [Network] is the socket and the clock
    as the handshake uses them; a wait polls until its deadline, so its loop takes
    the number of polls to allow as an argument and returns [None] when that runs
    out. *)

From S2P Require Import Prelude Buffer BufferSpec BufferCodecs ZdtWire InetAddr ZdtOptions ZdtState ZdtSend ZdtTransport ZdtServer.

Class Network (W : Type) := {
  net_now : W -> Z * W;
  net_send : InetAddress -> list Z -> W -> bool * W;
  net_recv : W -> RecvResult * W;
  net_sleep : W -> W
}.

(** What the handshake has learned so far, and the buffer replies land in. *)
Record Progress := mkProgress {
  hp_cookie : list Z;
  hp_epoch : Z;
  hp_mtu : Z;
  hp_server_guid : Z;
  hp_server_cap : Z;
  hp_got_reply1 : bool;
  hp_reply : Buffer
}.

Definition set_reply (v : Buffer) (p : Progress) : Progress :=
  mkProgress (hp_cookie p) (hp_epoch p) (hp_mtu p) (hp_server_guid p) (hp_server_cap p) (hp_got_reply1 p) v.

Section Client.
Context `{P : Platform}.
Context (server_address_ : InetAddress) (config_ : ZDTOptions) (guid_ : Z).

(** ** Messages *)

Definition Request1 (rung : Z) : Buffer :=
  let probe := ZDTPayloadForLinkMTU rung (ipv server_address_) in
  let request := WriteOfflineHeader (Buffer_new BigEndian) (offline_id OpenConnectionRequest1) in
  let request := WriteInt 1 kZDTProtocolVersion request in
  let size := write_cursor_ request in
  if size <? probe then Write (repeat 0 (Z.to_nat (probe - size))) request else request.

Definition Request2_message (p : Progress) : Buffer :=
  let request := WriteOfflineHeader (Buffer_new BigEndian) (offline_id OpenConnectionRequest2) in
  let request := WriteInt 1 (u8 (zlen (hp_cookie p))) request in
  let request := Write (hp_cookie p) request in
  let request := WriteInt 4 (hp_epoch p) request in
  let request := WriteInetAddress server_address_ request in
  let request := WriteInt 2 (hp_mtu p) request in
  let request := WriteInt 8 guid_ request in
  WriteInt 1 (cap_of config_) request.

(** One datagram of phase 1: an answer that ends the handshake, or what it adds. *)
Definition on_reply1 (data : list Z) (p : Progress) : option Result * Progress :=
  let reply := recv_into (hp_reply p) data in
  let p := set_reply reply p in
  if bool_decide (data = []) || has_flag (byte_at (datagram_bytes reply) 0) kFlagOnline then (None, p)
  else match ReadOfflineHeader reply with
       | (None, reply) => (None, set_reply reply p)
       | (Some id, reply) =>
           if id =? offline_id OpenConnectionReply1 then
             let '(server_guid, reply) := ReadInt 8 reply in
             let '(negotiated_mtu, reply) := ReadInt 2 reply in
             let '(cookie_len, reply) := ReadInt 1 reply in
             if negb (cookie_len =? kZDTCookieLen)
             then (None, mkProgress (hp_cookie p) (hp_epoch p) negotiated_mtu server_guid (hp_server_cap p)
                           (hp_got_reply1 p) reply)
             else
               let '(cookie, reply) := Read 1 kZDTCookieLen (hp_cookie p) reply in
               let '(epoch, reply) := ReadInt 4 reply in
               let '(server_cap, reply) := ReadInt 1 reply in
               (None, mkProgress cookie epoch negotiated_mtu server_guid server_cap true reply)
           else if id =? offline_id IncompatibleProtocolVersion then (Some IncompatibleVersion, set_reply reply p)
           else if id =? offline_id NoFreeConnections then (Some ServerFull, set_reply reply p)
           else (None, set_reply reply p)
       end.

(** One datagram of phase 2. *)
Definition on_reply2 (data : list Z) (p : Progress) : option (Result * ZDTConnection) * Progress :=
  let reply := recv_into (hp_reply p) data in
  let p := set_reply reply p in
  if bool_decide (data = []) || has_flag (byte_at (datagram_bytes reply) 0) kFlagOnline then (None, p)
  else match ReadOfflineHeader reply with
       | (None, reply) => (None, set_reply reply p)
       | (Some id, reply) =>
           if id =? offline_id OpenConnectionReply2 then
             let '(reply_server_guid, reply) := ReadInt 8 reply in
             let '(external, reply) := ReadInetAddress reply in
             let '(mtu, reply) := ReadInt 2 reply in
             (Some (Success,
                mkConnection (if negb (mtu =? 0) then mtu else hp_mtu p) guid_
                  (if negb (reply_server_guid =? 0) then reply_server_guid else hp_server_guid p)
                  (enable_connection_migration config_ && has_flag (hp_server_cap p) kZDTCapMigration) 0),
              set_reply reply p)
           else if id =? offline_id IncompatibleProtocolVersion
           then (Some (IncompatibleVersion, ZDTConnection_default), set_reply reply p)
           else if id =? offline_id NoFreeConnections
           then (Some (ServerFull, ZDTConnection_default), set_reply reply p)
           else (None, set_reply reply p)
       end.

(** ** The handshake *)

Section Handshake.
Context `{N : Network W}.

(** One wait: datagrams go to [on] until it answers, [stop] holds, the deadline
    passes or the socket fails. *)
Fixpoint wait {A} (on : list Z -> Progress -> option A * Progress) (stop : Progress -> bool) (polls : nat)
    (deadline : Z) (p : Progress) (w : W) : option (option A * Progress * W) :=
  match polls with
  | O => None
  | S polls =>
      let '(now, w) := net_now w in
      if (now <? deadline) && negb (stop p) then
        let p := set_reply (Reset false (hp_reply p)) p in
        match net_recv w with
        | (WouldBlock, w) => wait on stop polls deadline p (net_sleep w)
        | (RecvError, w) => Some (None, p, w)
        | (Received data _, w) =>
            match on data p with
            | (Some answer, p) => Some (Some answer, p, w)
            | (None, p) => wait on stop polls deadline p w
            end
        end
      else Some (None, p, w)
  end.

(** The attempts at one rung of the ladder. *)
Fixpoint phase1_rung (polls attempts : nat) (rung : Z) (p : Progress) (w : W) : option (option Result * Progress * W) :=
  match attempts with
  | O => Some (None, p, w)
  | S attempts =>
      if hp_got_reply1 p then Some (None, p, w)
      else
        let '(ok, w) := net_send server_address_ (datagram_bytes (Request1 rung)) w in
        if negb ok then Some (None, p, w)
        else
          let '(now, w) := net_now w in
          match wait on_reply1 hp_got_reply1 polls (now + handshake_retransmit config_ * 1000000) p w with
          | None => None
          | Some (Some r, p, w) => Some (Some r, p, w)
          | Some (None, p, w) => phase1_rung polls attempts rung p w
          end
  end.

Fixpoint phase1 (polls : nat) (ladder : list Z) (p : Progress) (w : W) : option (option Result * Progress * W) :=
  match ladder with
  | [] => Some (None, p, w)
  | rung :: ladder =>
      match phase1_rung polls (Z.to_nat (handshake_retries_per_rung config_)) rung p w with
      | None => None
      | Some (Some r, p, w) => Some (Some r, p, w)
      | Some (None, p, w) => if hp_got_reply1 p then Some (None, p, w) else phase1 polls ladder p w
      end
  end.

Fixpoint phase2 (polls attempts : nat) (p : Progress) (w : W)
  : option (Result * ZDTConnection * W) :=
  match attempts with
  | O => Some (Timeout, ZDTConnection_default, w)
  | S attempts =>
      let '(_, w) := net_send server_address_ (datagram_bytes (Request2_message p)) w in
      let '(now, w) := net_now w in
      match wait on_reply2 (fun _ => false) polls (now + handshake_retransmit config_ * 1000000) p w with
      | None => None
      | Some (Some (r, conn), _, w) => Some (r, conn, w)
      | Some (None, p, w) => phase2 polls attempts p w
      end
  end.

Definition ladder_rungs (l : MTULadder) : list Z := take (Z.to_nat (ladder_count l)) (rungs l).

Definition Handshake (polls : nat) (w : W) : option (Result * ZDTConnection * W) :=
  let p := mkProgress (repeat 0 16) 0 0 0 0 false recv_scratch in
  match phase1 polls (ladder_rungs (mtu_ladder config_)) p w with
  | None => None
  | Some (Some r, _, w) => Some (r, ZDTConnection_default, w)
  | Some (None, p, w) =>
      if negb (hp_got_reply1 p) then Some (Timeout, ZDTConnection_default, w)
      else phase2 polls (Z.to_nat (max_retries config_)) p w
  end.

End Handshake.

(** ** The receive thread *)

Definition AnswerPathChallenge (datagram : Buffer) : option (list Z) :=
  match ReadOfflineHeader datagram with
  | (None, _) => None
  | (Some _, datagram) =>
      match ReadPathMessage datagram (ZdtWire.mkPath 0 0 (repeat 0 16)) with
      | (true, challenge, _) =>
          if pm_cid challenge =? guid_
          then Some (datagram_bytes (WritePathMessage (offline_id PathResponse) challenge)) else None
      | (false, _, _) => None
      end
  end.

(** One datagram off the client's socket: the answers sent and the transport,
    which owns the inbox. *)
Definition on_datagram (clk : nat -> Z) `{Inet} (datagram : Buffer) (from : InetAddress) (s : list (list Z) * Transport)
  : list (list Z) * Transport :=
  if negb (InetAddress_eq from server_address_) then s
  else
    let bytes := datagram_bytes datagram in
    if enable_connection_migration config_ &&
       bool_decide (PeekOfflineHeader bytes = Some (offline_id PathChallenge))
    then (s.1 ++ match AnswerPathChallenge datagram with Some out => [out] | None => [] end, s.2)
    else (s.1, (Inbox_Push clk (Buffer_from bytes BigEndian) (max_inbox_datagrams config_) s.2).2).

Definition Client_ReceiveLoop (clk : nat -> Z) `{Inet} (incoming : list RecvResult) (s : list (list Z) * Transport)
  : list (list Z) * Transport :=
  ReceiveDatagrams (on_datagram clk) incoming recv_scratch s.

End Client.

(** ** Connecting and moving *)

(** [cb_receiving]: a receive thread was started and not joined since. *)
Record ClientBackend := mkClient {
  cb_server_address : option InetAddress;
  cb_config : ZDTOptions;
  cb_common : CommonOptions;
  cb_is_bind : bool;
  cb_socket : option Z;
  cb_local_address : option InetAddress;
  cb_guid : Z;
  cb_session : option Transport;
  cb_receiving : bool
}.

(** Assigning a thread to one that was not joined terminates the process. *)
Inductive Outcome :=
  | Returned (r : Result) (c : ClientBackend)
  | Terminated.

Section Backend.
Context `{P : Platform} `{I : Inet} `{N : Network W} (clk : nat -> Z).

Definition ZDTClientBackend_new (server_address : option InetAddress) (cfg : ZDTOptions) (common : CommonOptions)
  : ClientBackend :=
  mkClient server_address cfg common false None None 0 None false.

(** [session_alive]: [client_session_ && client_session_->IsAlive()]. *)
Definition session_alive (c : ClientBackend) : bool :=
  match cb_session c with Some t => negb (is_closed_ (path_ t)) | None => false end.

(** [opened], [bound], [local] as for the server. *)
Definition BindTo (opened : option Z) (bound : bool) (local : option InetAddress) (c : ClientBackend)
  : Result * ClientBackend :=
  match opened with
  | None => (CannotCreateSocket, c)
  | Some _ =>
      let c := mkClient (cb_server_address c) (cb_config c) (cb_common c) (cb_is_bind c) opened (cb_local_address c)
                 (cb_guid c) (cb_session c) (cb_receiving c) in
      if negb bound then (CannotBind, c)
      else (Success, mkClient (cb_server_address c) (cb_config c) (cb_common c) true opened local
                       (cb_guid c) (cb_session c) (cb_receiving c))
  end.

(** [Bind(ip, port)]; [resolve] is [ResolveHostnameToIP]. *)
Definition Bind_to (resolve : list Z -> list Z) (ip : list Z) (port : Z) (opened : option Z) (bound : bool)
    (local : option InetAddress) (c : ClientBackend) : Result * ClientBackend :=
  match from_host resolve ip port with
  | None => (InvalidAddress, c)
  | Some address => if negb (is_valid address) then (InvalidAddress, c) else BindTo opened bound local c
  end.

(** Starts the receive thread of a connected client. *)
Definition start_receiving (c : ClientBackend) : Outcome :=
  if cb_receiving c then Terminated
  else Returned Success (mkClient (cb_server_address c) (cb_config c) (cb_common c) (cb_is_bind c) (cb_socket c)
                           (cb_local_address c) (cb_guid c) (cb_session c) true).

Definition StopReceiving (c : ClientBackend) : ClientBackend :=
  mkClient (cb_server_address c) (cb_config c) (cb_common c) (cb_is_bind c) (cb_socket c) (cb_local_address c)
    (cb_guid c) (cb_session c) false.

Definition ReleaseSession (c : ClientBackend) : ClientBackend :=
  if bool_decide (is_Some (cb_session c)) && negb (session_alive c)
  then mkClient (cb_server_address c) (cb_config c) (cb_common c) (cb_is_bind c) (cb_socket c) (cb_local_address c)
         (cb_guid c) None (cb_receiving c)
  else c.

Definition Connect (guid : Z) (polls : nat) (c : ClientBackend) (w : W) : option (Outcome * W) :=
  if session_alive c then Some (Returned AlreadyConnected c, w)
  else match cb_server_address c with
       | None => Some (Returned InvalidRemoteAddress c, w)
       | Some server =>
           if negb (is_valid server) then Some (Returned InvalidRemoteAddress c, w)
           else if negb (cb_is_bind c) then Some (Returned CannotBind c, w)
           else
             let c := mkClient (cb_server_address c) (cb_config c) (cb_common c) (cb_is_bind c) (cb_socket c)
                        (cb_local_address c) guid (cb_session c) (cb_receiving c) in
             match Handshake server (cb_config c) guid polls w with
             | None => None
             | Some (Success, connection, w) =>
                 let transport := ZDTTransportLayer_new clk (cb_socket c) (Some server) (cb_config c) false
                                    connection (cb_common c) in
                 Some (start_receiving (mkClient (cb_server_address c) (cb_config c) (cb_common c) (cb_is_bind c)
                                          (cb_socket c) (cb_local_address c) guid (Some transport) (cb_receiving c)), w)
             | Some (r, _, w) => Some (Returned r c, w)
             end
       end.

(** [address]: what [InetAddress::from] made of the arguments. *)
Definition Rebind (address : option InetAddress) (opened : option Z) (bound : bool) (local : option InetAddress)
    (c : ClientBackend) : Outcome :=
  if negb (session_alive c) then Returned NotConnected c
  else match address with
       | None => Returned InvalidAddress c
       | Some a =>
           if negb (is_valid a) then Returned InvalidAddress c
           else match opened with
                | None => Returned CannotCreateSocket c
                | Some _ =>
                    if negb bound then Returned CannotBind c
                    else
                      let c := StopReceiving c in
                      start_receiving (mkClient (cb_server_address c) (cb_config c) (cb_common c) (cb_is_bind c) opened
                                         local (cb_guid c) (MigrateSocket opened <$> cb_session c) (cb_receiving c))
                end
       end.

End Backend.
