(* ===== verification/ZdtMessages.v ===== *)
(** * The handshake's messages on the wire

    The bytes of every offline message of the handshake, written by the server or
    the client, and that the other side's readers return the fields written. *)

From S2P Require Import Prelude Buffer BufferSpec BufferCodecs ZdtWire ZdtWireSpec ZdtOffline InetAddr Admission ZdtCookie ZdtOptions ZdtState ZdtSend ZdtTransport ZdtServer ZdtClient.

(** ** The scratch buffer *)

Record scratch_ok (b : Buffer) : Prop := {
  sc_wf : wf b;
  sc_limit : read_limit_ b = size_max;
  sc_endian : endianness_ b = BigEndian;
  sc_data : is_Some (data_ b);
  sc_alloc : allocated_size_ b = ZNET_MAX_BUFFER_SIZE
}.

(** A scratch buffer with the bytes left to read. *)
Record holds (b : Buffer) (bs : list Z) : Prop := {
  hold_scratch : scratch_ok b;
  hold_avail : avail b = bs
}.

Section Messages.
Context `{P : Platform} `{!AmplePlatform P}.

Lemma recv_scratch_ok : scratch_ok recv_scratch.
Proof.
  unfold recv_scratch, ReserveExact, Reserve. cbn.
  destruct (alloc_ample ZNET_MAX_BUFFER_SIZE) as [d Hd]; [unfold ZNET_MAX_BUFFER_SIZE; lia|].
  change (0 <? ZNET_MAX_BUFFER_SIZE) with true. cbn. rewrite Hd. cbn.
  pose proof (alloc_length _ _ Hd) as Hl. pose proof (alloc_bytes _ _ Hd) as Hb.
  split; cbn; try done; split; cbn; try done; unfold size_max, ZNET_MAX_BUFFER_SIZE; lia.
Qed.

Lemma Reset_scratch b : scratch_ok b -> scratch_ok (Reset false b).
Proof.
  intros [Hwf Hl He [d Hd] Ha]. split; cbn; try done.
  destruct Hwf as [? ? ? ? ? Hs]. split; cbn; try done; try lia.
  unfold store_ok in *. cbn. rewrite Hd in *. destruct Hs as (? & ? & ?). split; [done|]. split; [lia|done].
Qed.

Lemma recv_into_ok b data :
  scratch_ok b -> bytes_ok data -> zlen data <= ZNET_MAX_BUFFER_SIZE ->
  holds (recv_into b data) data /\ datagram_bytes (recv_into b data) = data.
Proof.
  intros Hb Hok HL. apply Reset_scratch in Hb. unfold recv_into. set (b0 := Reset false b) in *.
  assert (Hw0 : write_cursor_ b0 = 0) by done. assert (Hr0 : read_cursor_ b0 = 0) by done.
  clearbody b0. destruct Hb as [Hwf Hl He [d Hd] Ha].
  destruct Hwf as [Hub Hal Hwc Hrc Hrl Hs]. unfold store_ok in Hs. rewrite Hd in Hs. destruct Hs as (Hz & _ & Hdok).
  assert (Hcap : ZNET_MAX_BUFFER_SIZE < 2 ^ 63) by (unfold ZNET_MAX_BUFFER_SIZE; lia).
  unfold writable_bytes. rewrite Hw0, Z.sub_0_r, Ha, u64_small by (unfold size_max, ZNET_MAX_BUFFER_SIZE; lia).
  rewrite take_ge by lia. unfold store. rewrite Hd, Hz, Ha. cbn [Z.leb Z.compare andb].
  replace (0 + zlen data <=? ZNET_MAX_BUFFER_SIZE) with true by (symmetry; apply Z.leb_le; lia).
  unfold CommitWrite. cbn. rewrite Hw0, Z.add_0_l, u64_small by (unfold size_max; lia).
  assert (HL2 : length (splice 0 data d) = length d) by (apply length_splice; lia).
  assert (Hwf' : wf (set_write_cursor (zlen data) (set_data (Some (splice 0 data d)) b0))).
  { split; cbn; try done; try lia. unfold store_ok. cbn. rewrite HL2. split; [lia|]. split; [lia|].
    by apply splice_bytes_ok. }
  split; [split; [by split; cbn; eauto|]|].
  - unfold avail, readable_bytes. cbn. rewrite Hr0, Hl. unfold size_max. rewrite Z.min_l by lia.
    destruct (Z.ltb_spec (zlen data) 0); [lia|]. rewrite Z.sub_0_r, slice_splice_front by lia. apply slice_all.
  - unfold datagram_bytes, load. cbn. rewrite HL2.
    replace (0 + zlen data <=? zlen d) with true by (symmetry; apply Z.leb_le; lia).
    rewrite orb_true_r. cbn. rewrite slice_splice_front by lia. apply slice_all.
Qed.

(** ** Reading *)

(** Reads move the read cursor only. *)
Record same_store (b b' : Buffer) : Prop := {
  ss_data : data_ b' = data_ b;
  ss_alloc : allocated_size_ b' = allocated_size_ b
}.

Lemma same_store_trans a b c : same_store a b -> same_store b c -> same_store a c.
Proof. intros [] []. split; congruence. Qed.

Lemma ReadInt_store n b : same_store b (ReadInt n b).2.
Proof.
  unfold ReadInt, ReadNumber, load. destruct (CheckReadableBytes n b); cbn [negb]; [|done].
  destruct (data_ b) as [d|] eqn:Hd; repeat case_match; simplify_eq; cbn; rewrite ?Hd; done.
Qed.

Lemma Read_store k n dst b : same_store b (Read k n dst b).2.
Proof.
  unfold Read, load. repeat case_match; simplify_eq; cbn; try done; split; cbn; congruence.
Qed.

Lemma ReadInetAddress_store b : same_store b (ReadInetAddress b).2.
Proof.
  unfold ReadInetAddress. pose proof (ReadInt_store 1 b) as H1. destruct (ReadInt 1 b) as [v b1]. cbn [snd] in H1.
  destruct (v =? 4); [|destruct (v =? 6); [|by destruct H1; split]].
  - pose proof (Read_store 4 1 (repeat 0 4) b1) as H2. destruct (Read 4 1 (repeat 0 4) b1) as [x b2]. cbn [snd] in H2.
    pose proof (Read_store 2 1 (repeat 0 2) b2) as H3. destruct (Read 2 1 (repeat 0 2) b2) as [y b3]. cbn [snd] in *.
    by eapply same_store_trans, same_store_trans.
  - pose proof (Read_store 1 16 (repeat 0 16) b1) as H2. destruct (Read 1 16 (repeat 0 16) b1) as [x b2]. cbn [snd] in H2.
    pose proof (Read_store 2 1 (repeat 0 2) b2) as H3. destruct (Read 2 1 (repeat 0 2) b2) as [y b3]. cbn [snd] in *.
    by eapply same_store_trans, same_store_trans.
Qed.

(** A big-endian buffer with the bytes left to read. *)
Record reads (b : Buffer) (bs : list Z) : Prop := {
  rd_wf : wf b;
  rd_endian : endianness_ b = BigEndian;
  rd_avail : avail b = bs
}.

Lemma reads_from bs : bytes_ok bs -> zlen bs <= 2 ^ 31 -> reads (Buffer_from bs BigEndian) bs.
Proof. intros Hok HL. destruct (Buffer_from_spec BigEndian bs Hok HL) as (? & ? & ? & _). by split. Qed.

Lemma reads_consumes p r b b' : reads b (p ++ r) -> consumes b p r b' -> reads b' r.
Proof. intros [] []. split; congruence. Qed.

Lemma reads_int n v r b :
  reads b (enc BigEndian n v ++ r) -> 1 <= n < 2 ^ 31 -> 0 <= v < 256 ^ n ->
  exists b', ReadInt n b = (v, b') /\ reads b' r.
Proof.
  intros [Hw He Ha] Hn Hv. destruct (ReadInt_enc BigEndian n v b r Hw He Hn Hv Ha) as (b' & E & C).
  exists b'. split; [done|]. by eapply reads_consumes.
Qed.

Lemma reads_bytes k p r dst b :
  reads b (p ++ r) -> zlen p = k -> 1 <= k < 2 ^ 31 -> exists b', Read 1 k dst b = (p, b') /\ reads b' r.
Proof.
  intros [Hw He Ha] HL Hk. destruct (Read_parses BigEndian 1 k p dst ltac:(lia) ltac:(lia) ltac:(lia) ltac:(lia) b r
    Hw He Ha) as (b' & E & C). exists b'. split; [done|]. by eapply reads_consumes.
Qed.

Lemma reads_address a r b :
  reads b (address_image a ++ r) -> address_ok a -> exists b', ReadInetAddress b = (Some a, b') /\ reads b' r.
Proof.
  intros [Hw He Ha] Hok. destruct (image_read (BufferCodec := address_codec BigEndian) (Some a) Hok b r Hw He Ha)
    as (b' & E & C). exists b'. split; [done|]. eapply reads_consumes; [by split|exact C].
Qed.

Lemma reads_header id r b :
  reads b (offline_image id ++ r) -> 0 <= id < 128 ->
  exists b', ReadOfflineHeader b = (Some id, b') /\ reads b' r /\ read_limit_ b' = read_limit_ b /\ same_store b b'.
Proof.
  intros Hb Hid. unfold offline_image in Hb. rewrite <- app_assoc in Hb.
  destruct (ReadInt_enc BigEndian 1 id b _ (rd_wf _ _ Hb) (rd_endian _ _ Hb) ltac:(lia) ltac:(lia) (rd_avail _ _ Hb))
    as (b1 & E1 & C1). pose proof (reads_consumes _ _ _ _ Hb C1) as H1.
  destruct (Read_parses BigEndian 1 8 kZDTMagic (repeat 0 8) ltac:(lia) ltac:(lia) eq_refl ltac:(lia) b1 r (rd_wf _ _ H1)
    (rd_endian _ _ H1) (rd_avail _ _ H1)) as (b2 & E2 & C2). pose proof (reads_consumes _ _ _ _ H1 C2) as H2.
  exists b2. split; [|split; [done|split] ].
  2: { by rewrite (con_rl _ _ _ _ C2), (con_rl _ _ _ _ C1). }
  2: { pose proof (ReadInt_store 1 b) as S1. pose proof (Read_store 1 8 (repeat 0 8) b1) as S2. rewrite E1 in S1. rewrite E2 in S2.
       by eapply same_store_trans. } unfold ReadOfflineHeader. change (1 + zlen kZDTMagic) with 9.
  replace (readable_bytes b <? 9) with false.
  2: { symmetry. apply Z.ltb_ge. destruct Hb as [Hwf _ Ha]. rewrite readable_avail, Ha by done.
       rewrite !length_app, !Nat2Z.inj_add, zlen_enc by lia. change (zlen kZDTMagic) with 8. lia. }
  rewrite E1.
  pose proof (byte_ind (fun x => implb (x <? 128) (negb (has_flag x kFlagOnline))) eq_refl id ltac:(unfold is_byte; lia)) as HQ.
  cbv beta in HQ. replace (id <? 128) with true in HQ by (symmetry; apply Z.ltb_lt; lia). simpl in HQ.
  destruct (has_flag id kFlagOnline); [done|]. change (zlen kZDTMagic) with 8. rewrite E2. done.
Qed.

(** The same of a scratch buffer, which stays one. *)
Lemma holds_reads b bs : holds b bs -> reads b bs.
Proof. by intros [ [] ]. Qed.

Lemma holds_consumes p r b b' : holds b (p ++ r) -> consumes b p r b' -> same_store b b' -> holds b' r.
Proof. intros [ [] Ha] [] []. split; [|done]. split; congruence. Qed.

Lemma holds_int n v r b :
  holds b (enc BigEndian n v ++ r) -> 1 <= n < 2 ^ 31 -> 0 <= v < 256 ^ n ->
  exists b', ReadInt n b = (v, b') /\ holds b' r.
Proof.
  intros Hb Hn Hv. destruct (ReadInt_enc BigEndian n v b r (sc_wf _ (hold_scratch _ _ Hb))
    (sc_endian _ (hold_scratch _ _ Hb)) Hn Hv (hold_avail _ _ Hb)) as (b' & E & C).
  exists b'. split; [done|]. eapply holds_consumes; [done..|]. pose proof (ReadInt_store n b) as H. by rewrite E in H.
Qed.

Lemma holds_bytes k p r dst b :
  holds b (p ++ r) -> zlen p = k -> 1 <= k < 2 ^ 31 -> exists b', Read 1 k dst b = (p, b') /\ holds b' r.
Proof.
  intros Hb HL Hk. destruct (Read_parses BigEndian 1 k p dst ltac:(lia) ltac:(lia) ltac:(lia) ltac:(lia) b r
    (sc_wf _ (hold_scratch _ _ Hb)) (sc_endian _ (hold_scratch _ _ Hb)) (hold_avail _ _ Hb)) as (b' & E & C).
  exists b'. split; [done|]. eapply holds_consumes; [done..|]. pose proof (Read_store 1 k dst b) as H. by rewrite E in H.
Qed.

Lemma holds_address a r b :
  holds b (address_image a ++ r) -> address_ok a -> exists b', ReadInetAddress b = (Some a, b') /\ holds b' r.
Proof.
  intros Hb Hok. destruct (image_read (BufferCodec := address_codec BigEndian) (Some a) Hok b r
    (sc_wf _ (hold_scratch _ _ Hb)) (sc_endian _ (hold_scratch _ _ Hb)) (hold_avail _ _ Hb)) as (b' & E & C).
  exists b'. split; [done|]. eapply holds_consumes; [done|exact C|].
  pose proof (ReadInetAddress_store b) as H. by rewrite E in H.
Qed.

Lemma holds_header id r b :
  holds b (offline_image id ++ r) -> 0 <= id < 128 -> exists b', ReadOfflineHeader b = (Some id, b') /\ holds b' r.
Proof.
  intros Hb Hid. destruct (reads_header id r b (holds_reads _ _ Hb) Hid) as (b' & E & [] & Hl & []).
  exists b'. split; [done|]. destruct Hb as [ [] ]. split; [split|]; congruence.
Qed.

(** ** Writing *)

(** The bytes of a message built in a fresh buffer. *)
Lemma appended_bytes img b :
  appends (Buffer_new BigEndian) img b -> zlen img <= 2 ^ 31 -> datagram_bytes b = img /\ bytes_ok img.
Proof.
  intros [Hwf _ Hrc Hrl Hwc Hav] HL. cbn in Hrc, Hrl, Hwc. unfold avail in Hav at 2. cbn in Hav.
  split; [|rewrite <- Hav; by apply avail_bytes_ok].
  unfold datagram_bytes, load. unfold avail, readable_bytes in Hav. rewrite Hrc, Hrl, Hwc in Hav.
  pose proof (wf_store _ Hwf) as Hs. unfold store_ok in Hs. rewrite Hwc.
  destruct (data_ b) as [d|].
  - destruct Hs as (Hz & Hle & _). rewrite Hwc in Hle. rewrite !Z.add_0_l in *.
    replace (zlen img <=? zlen d) with true by (symmetry; apply Z.leb_le; lia).
    rewrite orb_true_r. cbn [fst]. unfold size_max in Hav. rewrite Z.min_l in Hav by lia.
    destruct (Z.ltb_spec (zlen img) 0); [lia|]. by rewrite Z.sub_0_r in Hav.
  - by rewrite <- Hav.
Qed.

Lemma message_bytes img f :
  writes BigEndian img f -> zlen img <= 2 ^ 31 -> datagram_bytes (f (Buffer_new BigEndian)) = img /\ bytes_ok img.
Proof. intros Hw HL. apply appended_bytes; [|done]. apply Hw; [done|]. apply Buffer_new_ready. lia. Qed.

Lemma writes_address a : address_ok a -> writes BigEndian (address_image a) (WriteInetAddress a).
Proof. intros Ha b He Hr. exact (image_written (BufferCodec := address_codec BigEndian) (Some a) b Ha He Hr). Qed.

Lemma zlen_address_image a : address_ok a -> 7 <= zlen (address_image a) <= 19.
Proof.
  destruct a as [x p|x p|]; intros H; [| |done]; destruct H as (_ & Lx & _); cbn [address_image];
    rewrite !length_app, !Nat2Z.inj_add, Lx, zlen_enc by lia; simpl (zlen [_]); lia.
Qed.

End Messages.

(** ** The messages *)

Definition request1_image (padding : nat) : list Z :=
  offline_image (offline_id OpenConnectionRequest1) ++ enc BigEndian 1 kZDTProtocolVersion ++ repeat 0 padding.

Definition reply1_image (guid mtu : Z) (cookie : list Z) (epoch cap : Z) : list Z :=
  offline_image (offline_id OpenConnectionReply1) ++ enc BigEndian 8 guid ++ enc BigEndian 2 mtu ++
  enc BigEndian 1 kZDTCookieLen ++ cookie ++ enc BigEndian 4 epoch ++ enc BigEndian 1 cap.

Definition request2_image (cookie : list Z) (epoch : Z) (target : InetAddress) (mtu guid cap : Z) : list Z :=
  offline_image (offline_id OpenConnectionRequest2) ++ enc BigEndian 1 kZDTCookieLen ++ cookie ++
  enc BigEndian 4 epoch ++ address_image target ++ enc BigEndian 2 mtu ++ enc BigEndian 8 guid ++ enc BigEndian 1 cap.

Definition reply2_image (guid : Z) (external : InetAddress) (mtu : Z) : list Z :=
  offline_image (offline_id OpenConnectionReply2) ++ enc BigEndian 8 guid ++ address_image external ++ enc BigEndian 2 mtu.

Lemma zlen_offline_image id : zlen (offline_image id) = 9.
Proof. unfold offline_image. rewrite length_app, Nat2Z.inj_add, zlen_enc by lia. done. Qed.

(** Sizes of images, field by field. *)
Ltac zlen_tac :=
  repeat first [rewrite length_app | rewrite Nat2Z.inj_add | rewrite zlen_offline_image
               | rewrite zlen_enc by lia | rewrite repeat_length ].

(** No offline message has the online bit. *)
Lemma offline_first id r : 0 <= id < 128 -> has_flag (byte_at (offline_image id ++ r) 0) kFlagOnline = false.
Proof.
  intros Hid. unfold offline_image. rewrite enc_byte by (unfold is_byte; lia). cbn [app].
  change (byte_at (id :: kZDTMagic ++ r) 0) with id.
  pose proof (byte_ind (fun x => implb (x <? 128) (negb (has_flag x kFlagOnline))) eq_refl id ltac:(unfold is_byte; lia)) as HQ.
  cbv beta in HQ. replace (id <? 128) with true in HQ by (symmetry; apply Z.ltb_lt; lia). simpl in HQ.
  by apply negb_true_iff.
Qed.

Section Images.
Context `{P : Platform} `{!AmplePlatform P}.

Lemma Reply1_bytes mtu cookie s :
  bytes_ok cookie -> length cookie = 16%nat ->
  datagram_bytes (Reply1 mtu cookie s) =
    reply1_image (server_guid_ s) mtu cookie (epoch_ (cookie_secret_ s)) (cap_of (srv_config_ s)) /\
  bytes_ok (reply1_image (server_guid_ s) mtu cookie (epoch_ (cookie_secret_ s)) (cap_of (srv_config_ s))) /\
  zlen (reply1_image (server_guid_ s) mtu cookie (epoch_ (cookie_secret_ s)) (cap_of (srv_config_ s))) = 41.
Proof.
  intros Hc HL. set (img := reply1_image _ _ _ _ _).
  assert (Hz : zlen img = 41) by (unfold img, reply1_image; zlen_tac; rewrite HL; lia).
  destruct (message_bytes img (fun b => WriteInt 1 (cap_of (srv_config_ s)) (WriteInt 4 (epoch_ (cookie_secret_ s))
    (Write cookie (WriteInt 1 (u8 (zlen cookie)) (WriteInt 2 mtu (WriteInt 8 (server_guid_ s)
      (WriteOfflineHeader b (offline_id OpenConnectionReply1))))))))) as [E Hok]; [|lia|done].
  unfold img, reply1_image. change kZDTCookieLen with 16. rewrite HL. change (u8 (Z.of_nat 16)) with 16.
  exact (writes_comp _ _ _ _ _ (WriteOfflineHeader_writes _)
    (writes_comp _ _ _ _ _ (writes_WriteInt _ 8 _ ltac:(lia))
    (writes_comp _ _ _ _ _ (writes_WriteInt _ 2 _ ltac:(lia))
    (writes_comp _ _ _ _ _ (writes_WriteInt _ 1 _ ltac:(lia))
    (writes_comp _ _ _ _ _ (writes_Write _ _ Hc)
    (writes_comp _ _ _ _ _ (writes_WriteInt _ 4 _ ltac:(lia)) (writes_WriteInt _ 1 _ ltac:(lia)))))))).
Qed.

Lemma Reply2_bytes from mtu s :
  address_ok from ->
  datagram_bytes (Reply2 from mtu s) = reply2_image (server_guid_ s) from mtu /\
  bytes_ok (reply2_image (server_guid_ s) from mtu) /\ 26 <= zlen (reply2_image (server_guid_ s) from mtu) <= 38.
Proof.
  intros Ha. set (img := reply2_image _ _ _). pose proof (zlen_address_image from Ha) as Hza.
  assert (Hz : 26 <= zlen img <= 38) by (unfold img, reply2_image; zlen_tac; lia).
  destruct (message_bytes img (fun b => WriteInt 2 mtu (WriteInetAddress from (WriteInt 8 (server_guid_ s)
      (WriteOfflineHeader b (offline_id OpenConnectionReply2)))))) as [E Hok]; [|lia|done].
  exact (writes_comp _ _ _ _ _ (WriteOfflineHeader_writes _)
    (writes_comp _ _ _ _ _ (writes_WriteInt _ 8 _ ltac:(lia))
    (writes_comp _ _ _ _ _ (writes_address _ Ha) (writes_WriteInt _ 2 _ ltac:(lia))))).
Qed.

Lemma refusal_bytes s :
  zlen (datagram_bytes (NoFreeConnections_reply s)) = 17 /\ zlen (datagram_bytes (IncompatibleVersion_reply s)) = 18.
Proof.
  split.
  - destruct (message_bytes (offline_image (offline_id NoFreeConnections) ++ enc BigEndian 8 (server_guid_ s))
      (fun b => WriteInt 8 (server_guid_ s) (WriteOfflineHeader b (offline_id NoFreeConnections)))) as [E _].
    + exact (writes_comp _ _ _ _ _ (WriteOfflineHeader_writes _) (writes_WriteInt _ 8 _ ltac:(lia))).
    + zlen_tac. lia.
    + unfold NoFreeConnections_reply. rewrite E. zlen_tac. lia.
  - destruct (message_bytes (offline_image (offline_id IncompatibleProtocolVersion) ++ enc BigEndian 1 kZDTProtocolVersion ++
      enc BigEndian 8 (server_guid_ s))
      (fun b => WriteInt 8 (server_guid_ s) (WriteInt 1 kZDTProtocolVersion
         (WriteOfflineHeader b (offline_id IncompatibleProtocolVersion))))) as [E _].
    + exact (writes_comp _ _ _ _ _ (WriteOfflineHeader_writes _)
        (writes_comp _ _ _ _ _ (writes_WriteInt _ 1 _ ltac:(lia)) (writes_WriteInt _ 8 _ ltac:(lia)))).
    + zlen_tac. lia.
    + unfold IncompatibleVersion_reply. rewrite E. zlen_tac. lia.
Qed.

Lemma challenge_bytes id msg :
  bytes_ok (pm_cookie msg) -> length (pm_cookie msg) = 16%nat -> zlen (datagram_bytes (WritePathMessage id msg)) = 37.
Proof.
  intros Hc HL.
  destruct (message_bytes (offline_image id ++ enc BigEndian 8 (pm_cid msg) ++ enc BigEndian 4 (pm_epoch msg) ++ pm_cookie msg)
    (fun b => Write (pm_cookie msg) (WriteInt 4 (pm_epoch msg) (WriteInt 8 (pm_cid msg) (WriteOfflineHeader b id))))) as [E _].
  - exact (writes_comp _ _ _ _ _ (WriteOfflineHeader_writes _)
      (writes_comp _ _ _ _ _ (writes_WriteInt _ 8 _ ltac:(lia))
      (writes_comp _ _ _ _ _ (writes_WriteInt _ 4 _ ltac:(lia)) (writes_Write _ _ Hc)))).
  - zlen_tac. rewrite HL. lia.
  - unfold WritePathMessage. rewrite E. zlen_tac. rewrite HL. lia.
Qed.

(** A probe is padded up to the payload its rung allows. *)
Lemma Request1_bytes server rung :
  0 <= rung < 65536 ->
  let probe := ZDTPayloadForLinkMTU rung (ipv server) in
  datagram_bytes (Request1 server rung) = request1_image (Z.to_nat (probe - 10)) /\
  bytes_ok (request1_image (Z.to_nat (probe - 10))) /\ zlen (request1_image (Z.to_nat (probe - 10))) = Z.max 10 probe.
Proof.
  intros Hr probe. assert (Hp : 0 <= probe < 65536).
  { unfold probe, ZDTPayloadForLinkMTU. destruct (_ <? _); [apply u16_range|lia]. }
  assert (Hz : forall n, zlen (request1_image n) = 10 + Z.of_nat n) by (intros n; unfold request1_image; zlen_tac; lia).
  assert (Hw : forall n, writes BigEndian (request1_image n) (fun b => if (0 <? Z.of_nat n)
     then Write (repeat 0 n) (WriteInt 1 kZDTProtocolVersion (WriteOfflineHeader b (offline_id OpenConnectionRequest1)))
     else WriteInt 1 kZDTProtocolVersion (WriteOfflineHeader b (offline_id OpenConnectionRequest1)))).
  { intros n. assert (Hh := writes_comp _ _ _ _ _ (WriteOfflineHeader_writes (offline_id OpenConnectionRequest1))
      (writes_WriteInt BigEndian 1 kZDTProtocolVersion ltac:(lia))).
    unfold request1_image. rewrite app_assoc. destruct (Z.ltb_spec 0 (Z.of_nat n)).
    - exact (writes_comp _ _ _ _ _ Hh (writes_Write _ _ (bytes_ok_repeat n 0 ltac:(unfold is_byte; lia)))).
    - replace n with 0%nat by lia. cbn [repeat]. rewrite app_nil_r. exact Hh. }
  destruct (message_bytes _ _ (Hw (Z.to_nat (probe - 10)))) as [E Hok]; [rewrite Hz; lia|].
  rewrite Hz. split; [|split; [done|lia]]. rewrite <- E. unfold Request1. fold probe.
  assert (Hsize : write_cursor_ (WriteInt 1 kZDTProtocolVersion (WriteOfflineHeader (Buffer_new BigEndian)
    (offline_id OpenConnectionRequest1))) = 10).
  { assert (Ha := writes_comp _ _ _ _ _ (WriteOfflineHeader_writes (offline_id OpenConnectionRequest1))
      (writes_WriteInt BigEndian 1 kZDTProtocolVersion ltac:(lia)) (Buffer_new BigEndian) eq_refl).
    rewrite (app_wc _ _ _ (Ha ltac:(apply Buffer_new_ready; zlen_tac; lia))). zlen_tac. cbn. lia. }
  rewrite Hsize. destruct (Z.ltb_spec 10 probe), (Z.ltb_spec 0 (Z.of_nat (Z.to_nat (probe - 10)))); try lia; done.
Qed.

Lemma Request2_bytes server cfg guid p :
  address_ok server -> bytes_ok (hp_cookie p) -> length (hp_cookie p) = 16%nat ->
  let img := request2_image (hp_cookie p) (hp_epoch p) server (hp_mtu p) guid (cap_of cfg) in
  datagram_bytes (Request2_message server cfg guid p) = img /\ bytes_ok img /\ zlen img <= 60.
Proof.
  intros Ha Hc HL img. pose proof (zlen_address_image server Ha) as Hza.
  assert (Hz : zlen img <= 60) by (unfold img, request2_image; zlen_tac; rewrite HL; lia).
  destruct (message_bytes img (fun b => WriteInt 1 (cap_of cfg) (WriteInt 8 guid (WriteInt 2 (hp_mtu p)
    (WriteInetAddress server (WriteInt 4 (hp_epoch p) (Write (hp_cookie p) (WriteInt 1 (u8 (zlen (hp_cookie p)))
      (WriteOfflineHeader b (offline_id OpenConnectionRequest2)))))))))) as [E Hok]; [|lia|done].
  unfold img, request2_image. change kZDTCookieLen with 16. rewrite HL. change (u8 (Z.of_nat 16)) with 16.
  exact (writes_comp _ _ _ _ _ (WriteOfflineHeader_writes _)
    (writes_comp _ _ _ _ _ (writes_WriteInt _ 1 _ ltac:(lia))
    (writes_comp _ _ _ _ _ (writes_Write _ _ Hc)
    (writes_comp _ _ _ _ _ (writes_WriteInt _ 4 _ ltac:(lia))
    (writes_comp _ _ _ _ _ (writes_address _ Ha)
    (writes_comp _ _ _ _ _ (writes_WriteInt _ 2 _ ltac:(lia))
    (writes_comp _ _ _ _ _ (writes_WriteInt _ 8 _ ltac:(lia)) (writes_WriteInt _ 1 _ ltac:(lia))))))))).
Qed.

(** ** What the other side reads *)

Lemma ReadRequest2_image b cookie epoch target mtu guid cap r :
  holds b (cookie ++ enc BigEndian 4 epoch ++ address_image target ++ enc BigEndian 2 mtu ++ enc BigEndian 8 guid ++
           enc BigEndian 1 cap ++ r) ->
  length cookie = 16%nat -> 0 <= epoch < 2 ^ 32 -> address_ok target -> 0 <= mtu < 65536 -> 0 <= guid < 2 ^ 64 ->
  0 <= cap < 256 ->
  ReadRequest2 b = mkRequest2 cookie epoch (Some target) mtu guid cap.
Proof.
  intros Hb HL He Ha Hm Hg Hc. unfold ReadRequest2.
  destruct (holds_bytes kZDTCookieLen _ _ (repeat 0 16) b Hb) as (b1 & -> & H1); [unfold kZDTCookieLen; lia..|].
  destruct (holds_int 4 _ _ b1 H1) as (b2 & -> & H2); [lia..|].
  destruct (holds_address _ _ b2 H2 Ha) as (b3 & -> & H3).
  destruct (holds_int 2 _ _ b3 H3) as (b4 & -> & H4); [lia..|].
  destruct (holds_int 8 _ _ b4 H4) as (b5 & -> & H5); [lia..|].
  destruct (holds_int 1 _ _ b5 H5) as (b6 & -> & H6); [lia..|]. done.
Qed.

Lemma on_reply1_image p guid mtu cookie epoch cap :
  scratch_ok (hp_reply p) -> bytes_ok (reply1_image guid mtu cookie epoch cap) -> length cookie = 16%nat ->
  0 <= guid < 2 ^ 64 -> 0 <= mtu < 65536 -> 0 <= epoch < 2 ^ 32 -> 0 <= cap < 256 ->
  exists b, on_reply1 (reply1_image guid mtu cookie epoch cap) p = (None, mkProgress cookie epoch mtu guid cap true b) /\
    scratch_ok b.
Proof.
  intros Hs Hok HL Hg Hm He Hc. assert (Hz : zlen (reply1_image guid mtu cookie epoch cap) = 41).
  { unfold reply1_image. zlen_tac. rewrite HL. lia. }
  destruct (recv_into_ok _ _ Hs Hok) as [Hh Hb]; [rewrite Hz; unfold ZNET_MAX_BUFFER_SIZE; lia|].
  unfold on_reply1. rewrite Hb.
  replace (bool_decide (reply1_image guid mtu cookie epoch cap = [])) with false.
  2: { symmetry. apply bool_decide_eq_false. intros E. rewrite E in Hz. done. }
  unfold reply1_image in Hh |- *. rewrite offline_first by (cbn; lia). cbn [orb].
  destruct (holds_header _ _ _ Hh ltac:(cbn; lia)) as (b1 & -> & H1). cbn [hp_cookie set_reply].
  rewrite Z.eqb_refl.
  destruct (holds_int 8 _ _ b1 H1) as (b2 & -> & H2); [lia..|].
  destruct (holds_int 2 _ _ b2 H2) as (b3 & -> & H3); [lia..|].
  destruct (holds_int 1 _ _ b3 H3) as (b4 & -> & H4); [lia|unfold kZDTCookieLen; lia|].
  rewrite Z.eqb_refl. cbn [negb].
  destruct (holds_bytes kZDTCookieLen _ _ (hp_cookie p) b4 H4) as (b5 & -> & H5); [unfold kZDTCookieLen; lia..|].
  destruct (holds_int 4 _ _ b5 H5) as (b6 & -> & H6); [lia..|].
  rewrite <- (app_nil_r (enc BigEndian 1 cap)) in H6.
  destruct (holds_int 1 _ _ b6 H6) as (b7 & -> & H7); [lia..|].
  exists b7. split; [done|]. by destruct H7.
Qed.

Lemma on_reply2_image cfg my_guid p guid external mtu :
  scratch_ok (hp_reply p) -> bytes_ok (reply2_image guid external mtu) -> address_ok external ->
  0 <= guid < 2 ^ 64 -> 0 <= mtu < 65536 ->
  exists p', on_reply2 cfg my_guid (reply2_image guid external mtu) p =
    (Some (Success, mkConnection (if negb (mtu =? 0) then mtu else hp_mtu p) my_guid
       (if negb (guid =? 0) then guid else hp_server_guid p)
       (enable_connection_migration cfg && has_flag (hp_server_cap p) kZDTCapMigration) 0), p').
Proof.
  intros Hs Hok Ha Hg Hm. pose proof (zlen_address_image external Ha) as Hza.
  assert (Hz : 1 <= zlen (reply2_image guid external mtu) <= 38) by (unfold reply2_image; zlen_tac; lia).
  destruct (recv_into_ok _ _ Hs Hok) as [Hh Hb]; [unfold ZNET_MAX_BUFFER_SIZE; lia|].
  unfold on_reply2. rewrite Hb.
  replace (bool_decide (reply2_image guid external mtu = [])) with false.
  2: { symmetry. apply bool_decide_eq_false. intros E. rewrite E in Hz. cbn in Hz. lia. }
  unfold reply2_image in Hh |- *. rewrite offline_first by (cbn; lia). cbn [orb].
  destruct (holds_header _ _ _ Hh ltac:(cbn; lia)) as (b1 & -> & H1). rewrite Z.eqb_refl.
  destruct (holds_int 8 _ _ b1 H1) as (b2 & -> & H2); [lia..|].
  destruct (holds_address _ _ b2 H2 Ha) as (b3 & -> & H3).
  rewrite <- (app_nil_r (enc BigEndian 2 mtu)) in H3.
  destruct (holds_int 2 _ _ b3 H3) as (b4 & -> & H4); [lia..|]. by eexists.
Qed.

End Images.
