(* ===== verification/ZdtDelivery.v ===== *)
(** * Delivery guarantees of a channel

    What [DeliverMessage] promises for each delivery mode, whatever order and
    multiplicity the network gives the records: exactly once and in order,
    exactly once, or strictly newer only.  A stream is a function from full
    sequence numbers to payloads; records carry 16 bits of the number, so the
    theorems take every arrival to be within half a period of the receiver's
    position ([within_reach]).  The sender's [kMaxSeqGap] keeps new messages
    within it; nothing keeps a late copy within it, and the last section shows
    what such a copy does. *)

From S2P Require Import Prelude Buffer BufferSpec ZdtWire ZdtWireTheorems ZdtOptions ZdtState ZdtReceive ZdtTransport.

(** The record that carries message [s] of a stream with delivery mode [flags]. *)
Definition stream_record (flags c s : Z) : ZDTRecord := mkRecord flags c (u16 s) 0 1 0.

Definition ordered_flags : Z := Z.lor kRecReliable kRecOrdered.
Definition unordered_flags : Z := kRecReliable.
Definition sequenced_flags : Z := kRecOrdered.

(** Delivering the arrivals [l], oldest first. *)
Definition deliver_stream (flags c : Z) (pay : Z -> Buffer) (acc : ChannelState * list Buffer) (s : Z) :
    ChannelState * list Buffer :=
  let '(ch, out) := deliver_on acc.1 (stream_record flags c s) (pay s) in (ch, acc.2 ++ out).

Definition deliver_all (flags c : Z) (pay : Z -> Buffer) (l : list Z) : ChannelState * list Buffer :=
  foldl (deliver_stream flags c pay) (ChannelState_default, []) l.

(** ** The first message missing *)

Fixpoint first_missing (fuel : nat) (l : list Z) (n : Z) : Z :=
  match fuel with
  | O => n
  | S fuel => if decide (n ∈ l) then first_missing fuel l (n + 1) else n
  end.

(** The least number from [n] on that is not in [l]. *)
Definition missing_from (l : list Z) (n : Z) : Z := first_missing (S (length l)) l n.

(** The least message not received among the arrivals [l]. *)
Definition mex (l : list Z) : Z := missing_from l 0.

(** [k] numbers from [n] on. *)
Definition zseq (n : Z) (k : nat) : list Z := (fun i => n + Z.of_nat i) <$> seq 0 k.

Lemma zseq_S n k : zseq n (S k) = n :: zseq (n + 1) k.
Proof.
  unfold zseq. cbn [seq]. rewrite fmap_cons, <- seq_shift. f_equal; [lia|].
  change (map S (seq 0 k)) with (S <$> seq 0 k). rewrite <- list_fmap_compose. apply list_fmap_ext.
  intros i x _. simpl. lia.
Qed.

Lemma zseq_app n j k : zseq n (j + k) = zseq n j ++ zseq (n + Z.of_nat j) k.
Proof.
  revert n. induction j as [|j IH]; intros n.
  - by replace (n + Z.of_nat 0) with n by lia.
  - cbn [Nat.add]. rewrite !zseq_S, IH. cbn [app]. do 3 f_equal. lia.
Qed.

Lemma elem_of_zseq n k x : x ∈ zseq n k <-> n <= x < n + Z.of_nat k.
Proof.
  unfold zseq. rewrite list_elem_of_fmap. setoid_rewrite elem_of_seq. split.
  - intros (i & -> & Hi). lia.
  - intros H. exists (Z.to_nat (x - n)). lia.
Qed.

(** A run of [k] members of [l] from [n] on leaves at most [length l - k] beyond. *)
Lemma run_bound l n k : (forall x, n <= x < n + Z.of_nat k -> x ∈ l) -> (k <= length l)%nat.
Proof.
  intros H. rewrite <- (length_seq k 0), <- (length_fmap (fun i => n + Z.of_nat i)). apply submseteq_length.
  apply NoDup_submseteq.
  - apply NoDup_fmap_2; [intros i j E; lia|apply NoDup_seq].
  - intros x Hx. apply H. by apply elem_of_zseq.
Qed.

Lemma first_missing_spec fuel l n :
  let m := first_missing fuel l n in
  n <= m <= n + Z.of_nat fuel /\ (forall x, n <= x < m -> x ∈ l) /\ (m < n + Z.of_nat fuel -> m ∉ l).
Proof.
  revert n. induction fuel as [|fuel IH]; intros n; cbn [first_missing]; [split_and!; lia|].
  destruct (decide (n ∈ l)) as [Hn|Hn].
  - destruct (IH (n + 1)) as (H1 & H2 & H3). split_and!; [lia|lia| |intros; apply H3; lia].
    intros x Hx. destruct (decide (x = n)) as [->|]; [done|]. apply H2. lia.
  - split_and!; [lia|lia|intros; lia|done].
Qed.

Lemma missing_from_spec l n :
  n <= missing_from l n <= n + zlen l /\ (forall x, n <= x < missing_from l n -> x ∈ l) /\ missing_from l n ∉ l.
Proof.
  destruct (first_missing_spec (S (length l)) l n) as (H1 & H2 & H3). fold (missing_from l n) in *.
  assert (Hk : (Z.to_nat (missing_from l n - n) <= length l)%nat) by (apply (run_bound l n); intros; apply H2; lia).
  split_and!; [lia|lia|done|apply H3; lia].
Qed.

Lemma missing_from_unique l n m :
  n <= m -> (forall x, n <= x < m -> x ∈ l) -> m ∉ l -> missing_from l n = m.
Proof.
  intros Hle Hall Hout. destruct (missing_from_spec l n) as (H1 & H2 & H3).
  destruct (Z.lt_trichotomy (missing_from l n) m) as [H|[H|H]]; [|done|].
  - destruct H3. apply Hall. lia.
  - destruct Hout. apply H2. lia.
Qed.

Lemma mex_spec l : 0 <= mex l <= zlen l /\ (forall x, 0 <= x < mex l -> x ∈ l) /\ mex l ∉ l.
Proof. apply (missing_from_spec l 0). Qed.

(** Once everything below [e] is there, the first missing from [e] is the first
    missing. *)
Lemma mex_from l e : 0 <= e -> (forall x, 0 <= x < e -> x ∈ l) -> mex l = missing_from l e.
Proof.
  intros He Hall. destruct (missing_from_spec l e) as (H1 & H2 & H3).
  apply missing_from_unique; [lia| |done]. intros x Hx.
  destruct (Z.lt_ge_cases x e); [apply Hall|apply H2]; lia.
Qed.

(** ** Arrivals the 16-bit numbers can tell apart *)

(** Every arrival is within 2^15 of the first message missing before it.  This
    is a condition on the network and the sender, not something the receiver
    checks. *)
Inductive within_reach : list Z -> Prop :=
  | reach_nil : within_reach []
  | reach_snoc l s : within_reach l -> 0 <= s < 2 ^ 62 -> mex l - 2 ^ 15 <= s < mex l + 2 ^ 15 ->
      within_reach (l ++ [s]).

Lemma reconstruct_reliable flags c s ch :
  has_flag flags kRecReliable = true -> 0 <= s < 2 ^ 62 -> 0 <= rel_expected ch < 2 ^ 62 ->
  rel_expected ch - 2 ^ 15 <= s < rel_expected ch + 2 ^ 15 ->
  reconstruct_on ch (stream_record flags c s) = s.
Proof.
  intros Hf Hs He Hw. unfold reconstruct_on, stream_record. cbn [r_flags r_message_seq]. rewrite Hf.
  apply ReconstructSeq_exact; lia.
Qed.

(** ** Reliable and ordered *)

(** The channel after the arrivals [l]: everything below the first missing
    message delivered, everything above it that arrived held back. *)
Record holds_run (pay : Z -> Buffer) (l : list Z) (ch : ChannelState) (out : list Buffer) : Prop := {
  hr_expected : rel_expected ch = mex l;
  hr_reorder s b : rel_reorder ch !! s = Some b <-> s ∈ l /\ mex l < s /\ b = pay s;
  hr_out : out = pay <$> zseq 0 (Z.to_nat (mex l))
}.

(** The run loop delivers exactly the contiguous entries from [rel_expected] on. *)
Lemma release_run_spec fuel (pay : Z -> Buffer) l ch out :
  (size (rel_reorder ch) <= fuel)%nat -> 0 <= rel_expected ch -> missing_from l (rel_expected ch) < 2 ^ 63 ->
  (forall s b, rel_reorder ch !! s = Some b <-> s ∈ l /\ rel_expected ch <= s /\ b = pay s) ->
  let m := missing_from l (rel_expected ch) in
  let '(ch', out') := release_run fuel ch out in
  rel_expected ch' = m /\
  (forall s b, rel_reorder ch' !! s = Some b <-> s ∈ l /\ m < s /\ b = pay s) /\
  out' = out ++ (pay <$> zseq (rel_expected ch) (Z.to_nat (m - rel_expected ch))).
Proof.
  revert ch out. induction fuel as [|fuel IH]; intros ch out Hsz He Hb Hm m.
  - assert (Hempty : rel_reorder ch = ∅) by (apply map_size_empty_inv; lia).
    assert (Hn : forall s, s ∈ l -> rel_expected ch <= s -> False).
    { intros s H1 H2. assert (E : rel_reorder ch !! s = Some (pay s)) by (by apply Hm).
      by rewrite Hempty, lookup_empty in E. }
    assert (E : m = rel_expected ch) by (apply missing_from_unique; [lia|intros; lia|intros HI; apply (Hn _ HI); lia]).
    cbn [release_run]. rewrite E. split_and!; [done| |].
    + intros s b. rewrite Hempty, lookup_empty. split; [done|]. intros (H1 & H2 & _). by destruct (Hn s H1 ltac:(lia)).
    + rewrite Z.sub_diag. simpl. by rewrite app_nil_r.
  - cbn [release_run]. destruct (rel_reorder ch !! rel_expected ch) as [b|] eqn:Eb.
    + apply Hm in Eb as Hb'. destruct Hb' as (HI & _ & ->).
      set (ch1 := set_rel_expected _ _). destruct (missing_from_spec l (rel_expected ch)) as (M1 & M2 & M3). fold m in M1, M2, M3.
      assert (Hgt : rel_expected ch < m) by (destruct (decide (m = rel_expected ch)) as [Eq|]; [by rewrite Eq in M3|lia]).
      assert (E1 : rel_expected ch1 = rel_expected ch + 1)
        by (cbn; unfold u64; rewrite Z.mod_small; unfold m in *; lia).
      assert (Em : missing_from l (rel_expected ch1) = m)
        by (rewrite E1; apply missing_from_unique; [lia|intros; apply M2; lia|done]).
      specialize (IH ch1 (out ++ [pay (rel_expected ch)])). rewrite Em in IH.
      destruct (release_run fuel ch1 _) as [ch' out'] eqn:Er.
      destruct IH as (I1 & I2 & I3).
      * cbn [ch1 set_rel_expected set_rel_reorder rel_reorder]. rewrite map_size_delete, Eb. lia.
      * lia.
      * done.
      * intros s b. cbn [ch1 set_rel_expected set_rel_reorder rel_reorder]. rewrite lookup_delete_Some, Hm, E1.
        split; [intros (? & ? & ? & ->); split_and!; try done; lia|intros (? & ? & ->); split_and!; try done; lia].
      * split_and!; [done|done|]. rewrite I3, E1, <- app_assoc. f_equal.
        replace (Z.to_nat (m - rel_expected ch)) with (S (Z.to_nat (m - (rel_expected ch + 1)))) by lia.
        by rewrite zseq_S.
    + assert (Hn : rel_expected ch ∉ l).
      { intros HI. assert (E : rel_reorder ch !! rel_expected ch = Some (pay (rel_expected ch))) by (apply Hm; split_and!; [done|lia|done]).
        by rewrite Eb in E. }
      assert (E : m = rel_expected ch) by (apply missing_from_unique; [lia|intros; lia|done]).
      rewrite E. split_and!; [done| |rewrite Z.sub_diag; simpl; by rewrite app_nil_r].
      intros s b. rewrite Hm. split; intros (H1 & H2 & H3); split_and!; try done; [|lia].
      destruct (decide (s = rel_expected ch)) as [->|]; [done|lia].
Qed.

Lemma mex_snoc_member l s : s ∈ l -> mex (l ++ [s]) = mex l.
Proof.
  intros HI. destruct (mex_spec l) as (M1 & M2 & M3). apply missing_from_unique; [lia| |].
  - intros x Hx. apply elem_of_app. left. by apply M2.
  - rewrite elem_of_app, list_elem_of_singleton. intros [|E]; [done|]. by rewrite E in M3.
Qed.

Lemma mex_snoc_ahead l s : mex l < s -> mex (l ++ [s]) = mex l.
Proof.
  intros Hs. destruct (mex_spec l) as (M1 & M2 & M3). apply missing_from_unique; [lia| |].
  - intros x Hx. apply elem_of_app. left. by apply M2.
  - rewrite elem_of_app, list_elem_of_singleton. intros [|E]; [done|lia].
Qed.

(** The next message advances the mark to the first missing after it. *)
Lemma mex_snoc_next l : mex (l ++ [mex l]) = missing_from (l ++ [mex l]) (mex l + 1) /\ mex l < mex (l ++ [mex l]).
Proof.
  destruct (mex_spec l) as (M1 & M2 & M3).
  assert (E : mex (l ++ [mex l]) = missing_from (l ++ [mex l]) (mex l + 1)).
  { apply mex_from; [lia|]. intros x Hx. apply elem_of_app.
    destruct (decide (x = mex l)) as [->|]; [right; by apply list_elem_of_singleton|left; apply M2; lia]. }
  split; [done|]. rewrite E. destruct (missing_from_spec (l ++ [mex l]) (mex l + 1)) as (H & _). lia.
Qed.

Lemma deliver_ordered_step pay c l s ch out :
  holds_run pay l ch out -> 0 <= s < 2 ^ 62 -> mex l - 2 ^ 15 <= s < mex l + 2 ^ 15 -> zlen (l ++ [s]) < 2 ^ 62 ->
  let '(ch', msgs) := deliver_on ch (stream_record ordered_flags c s) (pay s) in
  holds_run pay (l ++ [s]) ch' (out ++ msgs).
Proof.
  intros [He Hm Ho] Hs Hw Hlen. destruct (mex_spec l) as (M1 & M2 & M3). rewrite length_app in Hlen. simpl in Hlen.
  unfold deliver_on. rewrite reconstruct_reliable by (done || lia).
  cbn [stream_record r_flags]. change (has_flag ordered_flags kRecReliable) with true.
  change (has_flag ordered_flags kRecOrdered) with true. cbn [negb andb]. rewrite He.
  destruct (Z.ltb_spec s (mex l)) as [Hlt|Hge].
  { assert (E : mex (l ++ [s]) = mex l) by (apply mex_snoc_member, M2; lia).
    split; rewrite E, ?app_nil_r; [done| |done]. intros s' b. rewrite Hm, elem_of_app, list_elem_of_singleton.
    split; [intros (? & ? & ?); auto|]. intros ([| ->] & ? & ?); [done|lia]. }
  destruct (Z.eqb_spec s (mex l)) as [->|Hne].
  - destruct (mex_snoc_next l) as [En Hgt]. set (l' := l ++ [mex l]) in *.
    assert (Hb : mex l' <= zlen l') by (destruct (mex_spec l') as ((? & ?) & _); done).
    unfold l' in Hb at 2. rewrite length_app in Hb. simpl in Hb.
    set (ch1 := set_rel_expected _ ch).
    assert (E1 : rel_expected ch1 = mex l + 1) by (unfold ch1; cbn [set_rel_expected rel_expected]; unfold u64; rewrite Z.mod_small; lia).
    pose proof (release_run_spec (size (rel_reorder ch1)) pay l' ch1 [pay (mex l)]) as R. rewrite E1, <- En in R.
    destruct (release_run _ ch1 _) as [ch' out'].
    destruct R as (R1 & R2 & R3); [lia|lia|lia| |].
    { intros s b. cbn [ch1 set_rel_expected rel_reorder]. rewrite Hm. unfold l'. rewrite elem_of_app, list_elem_of_singleton.
      split; [intros (? & ? & ?); split_and!; auto; lia|]. intros ([|] & ? & ?); [split_and!; try done|]; lia. }
    split; [done|done|]. rewrite R3, Ho.
    replace (Z.to_nat (mex l')) with (Z.to_nat (mex l) + S (Z.to_nat (mex l' - (mex l + 1))))%nat by lia.
    rewrite zseq_app, fmap_app, zseq_S. do 2 f_equal. rewrite Z.add_0_l, Z2Nat.id by lia. done.
  - assert (E : mex (l ++ [s]) = mex l) by (apply mex_snoc_ahead; lia).
    split; rewrite ?E, ?app_nil_r; [by destruct (rel_reorder ch !! s)| |done].
    intros s' b. rewrite elem_of_app, list_elem_of_singleton.
    destruct (rel_reorder ch !! s) as [b0|] eqn:Es.
    + rewrite Hm. split; [intros (? & ? & ?); auto|]. intros ([| ->] & ? & ->); [done|]. apply Hm in Es as (? & ? & ?). done.
    + cbn [set_rel_reorder rel_reorder]. rewrite lookup_insert_Some, Hm.
      split; [intros [ [-> <-] | (? & ? & ? & ?) ]; split_and!; auto; lia|]. intros ([HI| ->] & ? & ->); [|by left].
      right. split; [|done]. intros ->.
      assert (Hc : rel_reorder ch !! s' = Some (pay s')) by (by apply Hm). by rewrite Es in Hc.
Qed.

(** ** Reliable and unordered *)

(** Arrivals without their repetitions, in order of first arrival. *)
Definition add_new (acc : list Z) (s : Z) : list Z := if decide (s ∈ acc) then acc else acc ++ [s].
Definition firsts (l : list Z) : list Z := foldl add_new [] l.

Lemma firsts_snoc l s : firsts (l ++ [s]) = add_new (firsts l) s.
Proof. unfold firsts. by rewrite foldl_app. Qed.

Lemma elem_of_firsts l s : s ∈ firsts l <-> s ∈ l.
Proof.
  revert s. induction l as [|a l IH] using rev_ind; intros s; [done|]. rewrite firsts_snoc. unfold add_new.
  destruct (decide (a ∈ firsts l)) as [Ha|Ha]; rewrite ?elem_of_app, ?list_elem_of_singleton, ?IH; [|done].
  apply IH in Ha. split; [by left|]. by intros [| ->].
Qed.

Lemma NoDup_firsts l : NoDup (firsts l).
Proof.
  induction l as [|a l IH] using rev_ind; [constructor|]. rewrite firsts_snoc. unfold add_new.
  destruct (decide (a ∈ firsts l)); [done|]. apply NoDup_app. split_and!; [done| |apply NoDup_singleton].
  intros x Hx Hx'. apply list_elem_of_singleton in Hx' as ->. done.
Qed.

Record holds_set (pay : Z -> Buffer) (l : list Z) (ch : ChannelState) (out : list Buffer) : Prop := {
  hs_expected : rel_expected ch = mex l;
  hs_ahead s : s ∈ rel_delivered_ahead ch <-> s ∈ l /\ mex l < s;
  hs_out : out = pay <$> firsts l
}.

Lemma advance_watermark_spec fuel l ch :
  (size (rel_delivered_ahead ch) <= fuel)%nat -> 0 <= rel_expected ch -> missing_from l (rel_expected ch) < 2 ^ 63 ->
  (forall s, s ∈ rel_delivered_ahead ch <-> s ∈ l /\ rel_expected ch <= s) ->
  let m := missing_from l (rel_expected ch) in
  let ch' := advance_watermark fuel ch in
  rel_expected ch' = m /\ (forall s, s ∈ rel_delivered_ahead ch' <-> s ∈ l /\ m < s).
Proof.
  revert ch. induction fuel as [|fuel IH]; intros ch Hsz He Hb Hm m; cbn [advance_watermark].
  - assert (Hempty : rel_delivered_ahead ch ≡ ∅) by (apply size_empty_iff; lia).
    assert (Hn : forall s, s ∈ l -> rel_expected ch <= s -> False).
    { intros s H1 H2. apply (not_elem_of_empty (C := gset Z) s), Hempty, Hm. done. }
    assert (E : m = rel_expected ch) by (apply missing_from_unique; [lia|intros; lia|intros HI; apply (Hn _ HI); lia]).
    rewrite E. split; [done|]. intros s. rewrite Hm. split; intros [H1 H2]; destruct (Hn s H1); lia.
  - destruct (missing_from_spec l (rel_expected ch)) as (M1 & M2 & M3). fold m in M1, M2, M3.
    destruct (decide (rel_expected ch ∈ rel_delivered_ahead ch)) as [HI|HI].
    + set (ch1 := set_rel_expected _ _). apply Hm in HI as HI'. destruct HI' as [HI' _].
      assert (Hgt : rel_expected ch < m) by (destruct (decide (m = rel_expected ch)) as [Eq|]; [by rewrite Eq in M3|lia]).
      assert (E1 : rel_expected ch1 = rel_expected ch + 1)
        by (cbn; unfold u64; rewrite Z.mod_small; unfold m in *; lia).
      assert (Em : missing_from l (rel_expected ch1) = m)
        by (rewrite E1; apply missing_from_unique; [lia|intros; apply M2; lia|done]).
      specialize (IH ch1). rewrite Em in IH. apply IH; [|lia|done|].
      * cbn [ch1 set_rel_expected set_rel_delivered_ahead rel_delivered_ahead].
        rewrite size_difference by (intros x Hx; apply elem_of_singleton in Hx as ->; done). rewrite size_singleton. lia.
      * intros s. cbn [ch1 set_rel_expected set_rel_delivered_ahead rel_delivered_ahead rel_expected] in E1 |- *.
        rewrite E1, elem_of_difference, elem_of_singleton, Hm.
        split; [intros ((? & ?) & ?)|intros (? & ?)]; repeat split; try done; lia.
    + assert (Hn : rel_expected ch ∉ l) by (intros H; apply HI, Hm; split; [done|lia]).
      assert (E : m = rel_expected ch) by (apply missing_from_unique; [lia|intros; lia|done]).
      rewrite E. split; [done|]. intros s. rewrite Hm. split; intros [H1 H2]; split; try done; [|lia].
      destruct (decide (s = rel_expected ch)) as [->|]; [done|lia].
Qed.

Lemma deliver_unordered_step pay c l s ch out :
  holds_set pay l ch out -> 0 <= s < 2 ^ 62 -> mex l - 2 ^ 15 <= s < mex l + 2 ^ 15 -> zlen (l ++ [s]) < 2 ^ 62 ->
  let '(ch', msgs) := deliver_on ch (stream_record unordered_flags c s) (pay s) in
  holds_set pay (l ++ [s]) ch' (out ++ msgs).
Proof.
  intros [He Hm Ho] Hs Hw Hlen. destruct (mex_spec l) as (M1 & M2 & M3). rewrite length_app in Hlen. simpl in Hlen.
  unfold deliver_on. rewrite reconstruct_reliable by (done || lia).
  cbn [stream_record r_flags]. change (has_flag unordered_flags kRecReliable) with true.
  change (has_flag unordered_flags kRecOrdered) with false. cbn [negb andb]. rewrite He.
  assert (Hdup : (s <? mex l) || bool_decide (s ∈ rel_delivered_ahead ch) = bool_decide (s ∈ l)).
  { apply eq_true_iff_eq. rewrite orb_true_iff, !bool_decide_eq_true, Z.ltb_lt, Hm.
    split; [intros [H|[H _]]; [apply M2; lia|done]|]. intros HI.
    destruct (Z.lt_trichotomy s (mex l)) as [|[->|]]; [by left|done|by right]. }
  rewrite Hdup. destruct (decide (s ∈ l)) as [HI|HI].
  - rewrite bool_decide_eq_true_2 by done.
    split; rewrite ?app_nil_r, ?mex_snoc_member by done; [done| |].
    + intros s'. rewrite Hm, elem_of_app, list_elem_of_singleton.
      split; [intros [? ?]; auto|]. intros [ [?| ->] ?]; auto.
    + rewrite firsts_snoc. unfold add_new. rewrite decide_True by (by apply elem_of_firsts). done.
  - rewrite bool_decide_eq_false_2 by done. set (ch1 := set_rel_delivered_ahead _ ch). set (l' := l ++ [s]).
    assert (Emex : mex l' = missing_from l' (mex l)).
    { apply mex_from; [lia|]. intros x Hx. apply elem_of_app. left. by apply M2. }
    assert (Hb : mex l' <= zlen l') by (destruct (mex_spec l') as ((? & ?) & _); done).
    unfold l' in Hb at 2. rewrite length_app in Hb. simpl in Hb.
    destruct (advance_watermark_spec (size (rel_delivered_ahead ch1)) l' ch1) as [R1 R2].
    + lia.
    + cbn. lia.
    + cbn [ch1 set_rel_delivered_ahead rel_expected]. rewrite He, <- Emex. lia.
    + intros s'. cbn [ch1 set_rel_delivered_ahead rel_expected rel_delivered_ahead].
      rewrite elem_of_union, elem_of_singleton, Hm, He. unfold l'. rewrite elem_of_app, list_elem_of_singleton.
      destruct (decide (s = mex l)) as [Es|Es].
      * split; [intros [->|[? ?]]; split; auto; lia|]. intros [ [Hl| ->] Hge]; [|by left].
        right. split; [done|]. destruct (decide (s' = mex l)) as [->|]; [done|lia].
      * assert (mex l < s) by (destruct (Z.lt_trichotomy s (mex l)) as [H|[|]]; [destruct HI; apply M2; lia|done|done]).
        split; [intros [->|[? ?]]; split; auto; lia|]. intros [ [Hl| ->] Hge]; [|by left].
        right. split; [done|]. destruct (decide (s' = mex l)) as [->|]; [done|lia].
    + cbn [ch1 set_rel_delivered_ahead rel_expected] in R1, R2. rewrite He, <- Emex in R1, R2.
      split; [done|done|]. unfold l'. rewrite Ho, firsts_snoc. unfold add_new.
      rewrite decide_False by (by rewrite elem_of_firsts). by rewrite fmap_app.
Qed.

(** ** Unreliable and ordered: sequenced *)

(** The arrivals newer than all before them. *)
Definition add_newer (acc : list Z) (s : Z) : list Z :=
  match last acc with None => [s] | Some m => if m <? s then acc ++ [s] else acc end.
Definition maxima (l : list Z) : list Z := foldl add_newer [] l.

Inductive within_reach_seq : list Z -> Prop :=
  | reach_seq_nil : within_reach_seq []
  | reach_seq_first s : 0 <= s < 2 ^ 15 -> within_reach_seq [s]
  | reach_seq_snoc l s m : within_reach_seq l -> last (maxima l) = Some m -> 0 <= s < 2 ^ 62 ->
      m + 1 - 2 ^ 15 <= s < m + 1 + 2 ^ 15 -> within_reach_seq (l ++ [s]).

Lemma maxima_snoc l s : maxima (l ++ [s]) = add_newer (maxima l) s.
Proof. unfold maxima. by rewrite foldl_app. Qed.

Lemma maxima_sorted l : StronglySorted Z.lt (maxima l).
Proof.
  assert (H : StronglySorted Z.lt (maxima l) /\ forall m, last (maxima l) = Some m -> Forall (fun x => x <= m) (maxima l)).
  { induction l as [|s l [IH1 IH2]] using rev_ind; [split; [constructor|done]|].
    rewrite maxima_snoc. unfold add_newer. destruct (last (maxima l)) as [m|] eqn:E.
    - specialize (IH2 m eq_refl). destruct (Z.ltb_spec m s); [|by rewrite E; split; [|intros ? [= <-]]].
      split.
      + clear -IH1 IH2 H. induction IH1 as [|x k Hk IH Hx]; [repeat constructor|]. inversion IH2; subst.
        cbn [app]. constructor; [by apply IH|]. apply Forall_app. split; [done|]. repeat constructor. lia.
      + intros m'. rewrite last_snoc. intros [= <-]. apply Forall_app. split; [|repeat constructor; lia].
        eapply Forall_impl; [done|]. simpl. intros. lia.
    - split; [repeat constructor|]. intros m [= <-]. repeat constructor. lia. }
  apply H.
Qed.

Record holds_latest (pay : Z -> Buffer) (l : list Z) (ch : ChannelState) (out : list Buffer) : Prop := {
  hl_state : last (maxima l) = (if unrel_started ch then Some (unrel_last ch) else None);
  hl_range : 0 <= unrel_last ch < 2 ^ 62;
  hl_out : out = pay <$> maxima l
}.

Lemma deliver_sequenced_step pay c l s ch out :
  holds_latest pay l ch out -> within_reach_seq (l ++ [s]) ->
  let '(ch', msgs) := deliver_on ch (stream_record sequenced_flags c s) (pay s) in
  holds_latest pay (l ++ [s]) ch' (out ++ msgs).
Proof.
  intros [Hst Hr Ho] Hreach.
  assert (Hcase : (unrel_started ch = false /\ l = [] /\ 0 <= s < 2 ^ 15) \/
    (unrel_started ch = true /\ 0 <= s < 2 ^ 62 /\ unrel_last ch + 1 - 2 ^ 15 <= s < unrel_last ch + 1 + 2 ^ 15)).
  { inversion Hreach as [E|s' Hs' E|l' s' m Hl' Hm Hs' Hw' E].
    - by destruct l.
    - left. destruct l as [|x l]; [|by destruct l]. injection E as <-. split_and!; try done; try lia.
      by destruct (unrel_started ch).
    - right. apply app_inj_2 in E as [-> [= <-]]; [|done]. rewrite Hm in Hst.
      destruct (unrel_started ch); [|done]. injection Hst as ->. split_and!; done || lia. }
  unfold deliver_on, reconstruct_on. cbn [stream_record r_flags r_message_seq].
  change (has_flag sequenced_flags kRecReliable) with false.
  change (has_flag sequenced_flags kRecOrdered) with true. cbn [negb andb].
  destruct Hcase as [(Eu & -> & Hs)|(Eu & Hs & Hw)]; rewrite Eu in *; cbn [negb orb].
  - rewrite ReconstructSeq_exact by lia. split; cbn; [done|lia|]. by rewrite Ho.
  - unfold u64. rewrite Z.mod_small by lia. rewrite ReconstructSeq_exact by lia.
    destruct (Z.ltb_spec (unrel_last ch) s); split; rewrite ?maxima_snoc, ?app_nil_r; unfold add_newer; rewrite ?Hst;
      cbn [unrel_started unrel_last set_unrel_last set_unrel_started]; try lia.
    + destruct (Z.ltb_spec (unrel_last ch) s); [|lia]. by rewrite last_snoc.
    + destruct (Z.ltb_spec (unrel_last ch) s); [|lia]. by rewrite Ho, fmap_app.
    + destruct (Z.ltb_spec (unrel_last ch) s); [lia|]. by rewrite Hst, Eu.
    + destruct (Z.ltb_spec (unrel_last ch) s); [lia|]. done.
Qed.

(** ** Whole runs *)

Lemma deliver_all_snoc flags c pay l s :
  deliver_all flags c pay (l ++ [s]) = deliver_stream flags c pay (deliver_all flags c pay l) s.
Proof. unfold deliver_all. by rewrite foldl_app. Qed.

Lemma within_reach_range l : within_reach l -> Forall (fun s => 0 <= s) l.
Proof. induction 1; [constructor|]. apply Forall_app. split; [done|]. repeat constructor. lia. Qed.

Lemma ordered_run pay c l :
  within_reach l -> zlen l < 2 ^ 62 ->
  holds_run pay l (deliver_all ordered_flags c pay l).1 (deliver_all ordered_flags c pay l).2.
Proof.
  induction 1 as [|l s Hl IH Hs Hw]; intros Hlen.
  - split; [done| |done]. intros s b. cbn [deliver_all foldl fst ChannelState_default rel_reorder].
    rewrite lookup_empty. split; [done|]. by intros (?%not_elem_of_nil & _).
  - rewrite deliver_all_snoc. unfold deliver_stream.
    pose proof (deliver_ordered_step pay c l s (deliver_all ordered_flags c pay l).1
      (deliver_all ordered_flags c pay l).2) as Hstep.
    destruct (deliver_on _ _ _) as [ch' msgs]. apply Hstep; [|done..].
    apply IH. rewrite length_app in Hlen. simpl in Hlen. lia.
Qed.

Lemma unordered_run pay c l :
  within_reach l -> zlen l < 2 ^ 62 ->
  holds_set pay l (deliver_all unordered_flags c pay l).1 (deliver_all unordered_flags c pay l).2.
Proof.
  induction 1 as [|l s Hl IH Hs Hw]; intros Hlen.
  - split; [done| |done]. intros s. split; [|by intros (?%not_elem_of_nil & _)].
    intros Hin. by apply (not_elem_of_empty (C := gset Z)) in Hin.
  - rewrite deliver_all_snoc. unfold deliver_stream.
    pose proof (deliver_unordered_step pay c l s (deliver_all unordered_flags c pay l).1
      (deliver_all unordered_flags c pay l).2) as Hstep.
    destruct (deliver_on _ _ _) as [ch' msgs]. apply Hstep; [|done..].
    apply IH. rewrite length_app in Hlen. simpl in Hlen. lia.
Qed.

Lemma within_reach_seq_prefix l s : within_reach_seq (l ++ [s]) -> within_reach_seq l.
Proof.
  inversion 1 as [E|s' Hs' E|l' s' m Hl' Hm Hs' Hw' E]; [by destruct l|..].
  - destruct l as [|x l]; [constructor|]. by destruct l.
  - by apply app_inj_2 in E as [-> _].
Qed.

Lemma sequenced_run pay c l :
  within_reach_seq l ->
  holds_latest pay l (deliver_all sequenced_flags c pay l).1 (deliver_all sequenced_flags c pay l).2.
Proof.
  induction l as [|s l IH] using rev_ind; intros Hl; [split; [done|simpl; lia|done]|].
  rewrite deliver_all_snoc. unfold deliver_stream.
  pose proof (deliver_sequenced_step pay c l s (deliver_all sequenced_flags c pay l).1
    (deliver_all sequenced_flags c pay l).2) as Hstep.
  destruct (deliver_on _ _ _) as [ch' msgs]. apply Hstep; [|done].
  apply IH. by apply within_reach_seq_prefix in Hl.
Qed.

(** ** The transport *)

(** A run of records, of any channels and modes, handed to the transport. *)
Definition deliver_records (rs : list (ZDTRecord * Buffer)) (t : Transport) : Transport :=
  foldl (fun t r => DeliverMessage r.1 r.2 t) t rs.

Definition stream_records (flags c : Z) (pay : Z -> Buffer) (l : list Z) : list (ZDTRecord * Buffer) :=
  (fun s => (stream_record flags c s, pay s)) <$> l.

Lemma DeliverMessage_channel record payload t c :
  channel_at (DeliverMessage record payload t) c
  = if decide (c = r_channel record) then (deliver_on (channel_at t c) record payload).1 else channel_at t c.
Proof.
  unfold DeliverMessage. destruct (decide (c = r_channel record)) as [->|Hne].
  - destruct (deliver_on _ _ _) as [ch msgs]. unfold channel_at. cbn. by rewrite lookup_insert_eq.
  - destruct (deliver_on _ _ _) as [ch msgs]. unfold channel_at. cbn. by rewrite lookup_insert_ne.
Qed.

Lemma DeliverMessage_ready record payload t :
  ready_ (rx_ (DeliverMessage record payload t))
  = ready_ (rx_ t) ++ (deliver_on (channel_at t (r_channel record)) record payload).2.
Proof. unfold DeliverMessage. by destruct (deliver_on _ _ _). Qed.

Lemma deliver_records_stream flags c pay l t :
  channel_at t c = ChannelState_default ->
  channel_at (deliver_records (stream_records flags c pay l) t) c = (deliver_all flags c pay l).1 /\
  ready_ (rx_ (deliver_records (stream_records flags c pay l) t)) = ready_ (rx_ t) ++ (deliver_all flags c pay l).2.
Proof.
  intros Hc. induction l as [|s l [IH1 IH2]] using rev_ind; [split; [done|by rewrite app_nil_r]|].
  unfold stream_records, deliver_records in *. rewrite fmap_app, foldl_app. cbn [fmap list_fmap foldl fst snd].
  rewrite deliver_all_snoc, DeliverMessage_channel, DeliverMessage_ready. cbn [stream_record r_channel].
  rewrite decide_True by done. rewrite IH1, IH2. unfold deliver_stream.
  destruct (deliver_on _ _ _) as [ch msgs]. cbn [fst snd]. by rewrite app_assoc.
Qed.

(** ** Theorems *)

(** [C2] Reliable ordered delivery is exactly once and in order.  The network
    may reorder and repeat the records of a channel, as long as each arrives
    within 2^15 of the first message missing at the time ([within_reach]; a
    record carries 16 bits of its number, and the code does not refuse older
    copies, see [stale_duplicate_takes_slot]).  What the transport then makes
    ready is the messages 0, 1, 2, ... up to the first one that has not arrived:
    nothing is delivered twice, early or out of order, and nothing that arrived
    below the first gap is withheld.  Sequence numbers may wrap. *)
Theorem reliable_ordered_exactly_once (c : Z) (pay : Z -> Buffer) (l : list Z) (t : Transport)
  (Hfresh : channel_at t c = ChannelState_default) (Hl : within_reach l) (Hlen : zlen l < 2 ^ 62) :
  ready_ (rx_ (deliver_records (stream_records ordered_flags c pay l) t))
  = ready_ (rx_ t) ++ (pay <$> zseq 0 (Z.to_nat (mex l))).
Proof.
  destruct (deliver_records_stream ordered_flags c pay l t Hfresh) as [_ ->].
  by destruct (ordered_run pay c l Hl Hlen) as [_ _ <-].
Qed.

(** Message 2 arrives early, message 0 twice. *)
Lemma reach_example : within_reach [2; 0; 0; 1].
Proof.
  change (within_reach (((([] ++ [2]) ++ [0]) ++ [0]) ++ [1])).
  repeat (apply reach_snoc; [|lia|vm_compute; split; [discriminate|reflexivity]]). constructor.
Qed.

Lemma reliable_ordered_exactly_once_witness :
  let pay := fun s => Loopback.message [s] in
  ready_ (rx_ (deliver_records (stream_records ordered_flags 3 pay [2; 0; 0; 1]) (Loopback.endpoint 1 7001)))
  = [] ++ (pay <$> zseq 0 3).
Proof.
  apply (reliable_ordered_exactly_once 3 (fun s => Loopback.message [s]) [2; 0; 0; 1] (Loopback.endpoint 1 7001));
    [reflexivity|apply reach_example|simpl; lia].
Defined.

(** Reliable unordered delivery is exactly once: every message that arrives is
    made ready on its first arrival and never again. *)
Theorem reliable_unordered_exactly_once (c : Z) (pay : Z -> Buffer) (l : list Z) (t : Transport)
  (Hfresh : channel_at t c = ChannelState_default) (Hl : within_reach l) (Hlen : zlen l < 2 ^ 62) :
  exists d, ready_ (rx_ (deliver_records (stream_records unordered_flags c pay l) t)) = ready_ (rx_ t) ++ (pay <$> d) /\
    NoDup d /\ (forall s, s ∈ d <-> s ∈ l).
Proof.
  exists (firsts l). destruct (deliver_records_stream unordered_flags c pay l t Hfresh) as [_ ->].
  destruct (unordered_run pay c l Hl Hlen) as [_ _ ->].
  split_and!; [done|apply NoDup_firsts|apply elem_of_firsts].
Qed.

Lemma reliable_unordered_exactly_once_witness :
  let pay := fun s => Loopback.message [s] in
  exists d, ready_ (rx_ (deliver_records (stream_records unordered_flags 3 pay [2; 0; 0; 1]) (Loopback.endpoint 1 7001)))
    = [] ++ (pay <$> d) /\ NoDup d /\ (forall s, s ∈ d <-> s ∈ [2; 0; 0; 1]).
Proof.
  apply (reliable_unordered_exactly_once 3 (fun s => Loopback.message [s]) [2; 0; 0; 1] (Loopback.endpoint 1 7001));
    [reflexivity|apply reach_example|simpl; lia].
Defined.

(** Sequenced (unreliable ordered) delivery only moves forward: what is made
    ready is exactly the arrivals newer than everything before them, so their
    sequence numbers strictly increase. *)
Theorem sequenced_strictly_newer (c : Z) (pay : Z -> Buffer) (l : list Z) (t : Transport)
  (Hfresh : channel_at t c = ChannelState_default) (Hl : within_reach_seq l) :
  ready_ (rx_ (deliver_records (stream_records sequenced_flags c pay l) t)) = ready_ (rx_ t) ++ (pay <$> maxima l) /\
  StronglySorted Z.lt (maxima l).
Proof.
  destruct (deliver_records_stream sequenced_flags c pay l t Hfresh) as [_ ->].
  destruct (sequenced_run pay c l Hl) as [_ _ ->]. split; [done|apply maxima_sorted].
Qed.

Lemma reach_seq_example : within_reach_seq [4; 2; 9].
Proof.
  change (within_reach_seq (([4] ++ [2]) ++ [9])).
  apply (reach_seq_snoc _ _ 4); [|reflexivity|lia|lia]. apply (reach_seq_snoc _ _ 4); [|reflexivity|lia|lia].
  constructor. lia.
Qed.

Lemma sequenced_strictly_newer_witness :
  let pay := fun s => Loopback.message [s] in
  ready_ (rx_ (deliver_records (stream_records sequenced_flags 3 pay [4; 2; 9]) (Loopback.endpoint 1 7001)))
    = [] ++ (pay <$> [4; 9]) /\ StronglySorted Z.lt [4; 9].
Proof.
  apply (sequenced_strictly_newer 3 (fun s => Loopback.message [s]) [4; 2; 9] (Loopback.endpoint 1 7001));
    [reflexivity|apply reach_seq_example].
Defined.

(** Channels do not interfere: after any mixture of records, the state of a
    channel is what its own records alone would have made it, so a gap on one
    channel never holds back another. *)
Theorem channels_isolated (rs : list (ZDTRecord * Buffer)) (c : Z) (t : Transport) :
  channel_at (deliver_records rs t) c
  = channel_at (deliver_records (filter (fun r => r_channel r.1 = c) rs) t) c.
Proof.
  assert (H : forall t', channel_at t' c = channel_at t c ->
    channel_at (deliver_records rs t') c = channel_at (deliver_records (filter (fun r => r_channel r.1 = c) rs) t) c).
  { revert t. induction rs as [|r rs IH]; intros t t' E; [done|]. cbn [deliver_records foldl].
    fold (deliver_records rs (DeliverMessage r.1 r.2 t')).
    destruct (decide (r_channel r.1 = c)) as [Hc|Hc].
    - rewrite filter_cons_True by done. cbn [foldl].
      apply IH. rewrite !DeliverMessage_channel, E. done.
    - rewrite filter_cons_False by done. apply IH.
      rewrite DeliverMessage_channel, decide_False by congruence. done. }
  by apply H.
Qed.

(** ** Mixed modes *)

(** A channel whose next expected message was already delivered out of order:
    the ordered loop looks for it only among the buffered ones. *)
Record stalled (e : Z) (ch : ChannelState) : Prop := {
  sl_expected : rel_expected ch = e;
  sl_reorder : rel_reorder ch !! e = None
}.

Lemma stalled_step e ch c s b :
  stalled e ch -> 0 <= e < 2 ^ 61 -> e < s < e + 2 ^ 15 ->
  let '(ch', msgs) := deliver_on ch (stream_record ordered_flags c s) b in
  stalled e ch' /\ msgs = [].
Proof.
  intros [He Hr] He2 Hs. unfold deliver_on. rewrite reconstruct_reliable by (done || lia).
  cbn [stream_record r_flags]. change (has_flag ordered_flags kRecReliable) with true.
  change (has_flag ordered_flags kRecOrdered) with true. cbn [negb andb]. rewrite He.
  destruct (Z.ltb_spec s e); [lia|]. destruct (Z.eqb_spec s e); [lia|].
  destruct (rel_reorder ch !! s) eqn:Es; [done|]. split; [|done].
  split; cbn [set_rel_reorder rel_expected rel_reorder]; [done|]. by rewrite lookup_insert_ne by lia.
Qed.

Lemma stalled_run e ch c pay l out :
  stalled e ch -> 0 <= e < 2 ^ 61 -> Forall (fun s => e < s < e + 2 ^ 15) l ->
  (foldl (deliver_stream ordered_flags c pay) (ch, out) l).2 = out.
Proof.
  intros Hst He Hl. revert ch Hst. induction Hl as [|s l Hs _ IH]; intros ch Hst; [done|].
  cbn [foldl]. unfold deliver_stream at 2. cbn [fst snd].
  pose proof (stalled_step e ch c s (pay s) Hst He Hs) as H.
  destruct (deliver_on _ _ _) as [ch' msgs]. destruct H as [H ->]. rewrite app_nil_r. by apply IH.
Qed.

(** Reliable ordered and reliable unordered messages share one sequence space
    but not one state: when unordered message 1 overtakes ordered message 0 on a
    channel, both are delivered and then every later ordered message of the
    channel is held back for ever. *)
Theorem mixed_reliable_modes_stall (c : Z) (pay : Z -> Buffer) (l : list Z)
  (Hl : Forall (fun s => 1 < s < 1 + 2 ^ 15) l) :
  let start := deliver_stream unordered_flags c pay (ChannelState_default, []) 1 in
  let start := deliver_stream ordered_flags c pay start 0 in
  (foldl (deliver_stream ordered_flags c pay) start l).2 = [pay 1; pay 0].
Proof.
  intros start0 start. assert (E : start = (start.1, [pay 1; pay 0])) by reflexivity. rewrite E.
  apply (stalled_run 1); [|lia|done]. split; reflexivity.
Qed.

Lemma mixed_reliable_modes_stall_witness :
  let pay := fun s => Loopback.message [s] in
  let start := deliver_stream unordered_flags 0 pay (ChannelState_default, []) 1 in
  let start := deliver_stream ordered_flags 0 pay start 0 in
  (foldl (deliver_stream ordered_flags 0 pay) start [2; 3; 4]).2 = [pay 1; pay 0].
Proof.
  apply (mixed_reliable_modes_stall 0 (fun s => Loopback.message [s]) [2; 3; 4]). repeat constructor; lia.
Defined.

(** ** Beyond half a period *)

(** The next message of a stream, with nothing held back behind it. *)
Lemma in_order_step pay c ch e : rel_expected ch = e -> 0 <= e < 2 ^ 61 -> rel_reorder ch !! (e + 1) = None ->
  deliver_on ch (stream_record ordered_flags c e) (pay e) = (set_rel_expected (e + 1) ch, [pay e]).
Proof.
  intros He Hb Hn. unfold deliver_on. rewrite reconstruct_reliable by (done || lia).
  cbn [stream_record r_flags]. change (has_flag ordered_flags kRecReliable) with true.
  change (has_flag ordered_flags kRecOrdered) with true. cbn [negb andb]. rewrite He.
  destruct (Z.ltb_spec e e); [lia|]. rewrite Z.eqb_refl. replace (u64 (e + 1)) with (e + 1) by (unfold u64; rewrite Z.mod_small; lia).
  destruct (size _); cbn [release_run set_rel_expected rel_reorder rel_expected]; [done|]. by rewrite Hn.
Qed.

Lemma in_order_run pay c k ch e out : rel_expected ch = e -> 0 <= e -> e + Z.of_nat k < 2 ^ 61 ->
  (forall j, e < j <= e + Z.of_nat k -> rel_reorder ch !! j = None) ->
  foldl (deliver_stream ordered_flags c pay) (ch, out) (zseq e k) = (set_rel_expected (e + Z.of_nat k) ch, out ++ (pay <$> zseq e k)).
Proof.
  revert ch e out. induction k as [|k IH]; intros ch e out He H0 Hb Hn.
  - cbn. rewrite app_nil_r, Z.add_0_r, <- He. by destruct ch.
  - rewrite zseq_S. cbn [foldl fmap list_fmap]. unfold deliver_stream at 2. cbn [fst snd].
    rewrite (in_order_step pay c ch e He) by (lia || (apply Hn; lia)).
    rewrite (IH (set_rel_expected (e + 1) ch)); [|done|lia|lia|intros j Hj; apply Hn; lia].
    rewrite <- app_assoc. replace (e + 1 + Z.of_nat k) with (e + Z.of_nat (S k)) by lia. done.
Qed.

(** A copy of message [s] that comes in after more than 2^15 later ones is
    taken for message [s + 2^16] and held back in its place. *)
Lemma stale_step pay c ch s n out : rel_expected ch = n -> 0 <= s < 2 ^ 60 -> s + 2 ^ 15 < n < s + 2 ^ 16 -> rel_reorder ch = ∅ ->
  foldl (deliver_stream ordered_flags c pay) (ch, out) [s] = (set_rel_reorder {[s + 2 ^ 16 := pay s]} ch, out).
Proof.
  intros He Hs Hn Hr. cbn [foldl]. unfold deliver_stream. cbn [fst snd].
  replace (stream_record ordered_flags c s) with (stream_record ordered_flags c (s + 2 ^ 16)).
  2:{ unfold stream_record, u16. by rewrite <- (Z.mul_1_l (2 ^ 16)) at 1; rewrite Z_mod_plus_full. }
  unfold deliver_on. rewrite reconstruct_reliable by (done || lia).
  cbn [stream_record r_flags]. change (has_flag ordered_flags kRecReliable) with true.
  change (has_flag ordered_flags kRecOrdered) with true. cbn [negb andb]. rewrite He.
  destruct (Z.ltb_spec (s + 2 ^ 16) n); [lia|]. destruct (Z.eqb_spec (s + 2 ^ 16) n); [lia|].
  by rewrite Hr, lookup_empty, insert_empty, app_nil_r.
Qed.

Lemma poisoned_end pay c ch m b out : rel_expected ch = m - 1 -> 1 <= m < 2 ^ 61 -> rel_reorder ch = {[m := b]} ->
  (foldl (deliver_stream ordered_flags c pay) (ch, out) [m - 1; m]).2 = out ++ [pay (m - 1); b].
Proof.
  intros He Hm Hr. cbn [foldl]. unfold deliver_stream at 2. cbn [fst snd].
  assert (E : deliver_on ch (stream_record ordered_flags c (m - 1)) (pay (m - 1))
    = (set_rel_expected (m + 1) (set_rel_reorder ∅ ch), [pay (m - 1); b])).
  { unfold deliver_on. rewrite reconstruct_reliable by (done || lia).
    cbn [stream_record r_flags]. change (has_flag ordered_flags kRecReliable) with true.
    change (has_flag ordered_flags kRecOrdered) with true. cbn [negb andb]. rewrite He.
    destruct (Z.ltb_spec (m - 1) (m - 1)); [lia|]. rewrite Z.eqb_refl.
    replace (u64 (m - 1 + 1)) with m by (unfold u64; rewrite Z.mod_small; lia).
    cbn [set_rel_expected rel_reorder]. rewrite Hr, map_size_singleton.
    cbn [release_run set_rel_expected set_rel_reorder rel_reorder rel_expected].
    rewrite Hr, lookup_singleton_eq, delete_singleton_eq. replace (u64 (m + 1)) with (m + 1) by (unfold u64; rewrite Z.mod_small; lia). done. }
  rewrite E. unfold deliver_stream. cbn [fst snd]. unfold deliver_on. rewrite reconstruct_reliable by (done || cbn; lia).
  cbn [stream_record r_flags]. change (has_flag ordered_flags kRecReliable) with true.
  change (has_flag ordered_flags kRecOrdered) with true. cbn [negb andb set_rel_expected rel_expected].
  destruct (Z.ltb_spec m (m + 1)); [|lia]. cbn [snd]. by rewrite app_nil_r.
Qed.

(** Nothing enforces [within_reach] against late copies.  A copy of message [s]
    that comes in when more than 2^15 later messages were delivered, all of them
    once and in order, is taken for message [s + 2^16]: it is held back, made
    ready in that message's place, and the genuine message is dropped as a
    repetition. *)
Theorem stale_duplicate_takes_slot (c : Z) (pay : Z -> Buffer) (s n : Z) (t : Transport)
  (Hfresh : channel_at t c = ChannelState_default) (Hs : 0 <= s < 2 ^ 60) (Hn : s + 2 ^ 15 < n < s + 2 ^ 16) :
  ready_ (rx_ (deliver_records (stream_records ordered_flags c pay
    (zseq 0 (Z.to_nat n) ++ [s] ++ zseq n (Z.to_nat (s + 2 ^ 16 - n)) ++ [s + 2 ^ 16])) t))
  = ready_ (rx_ t) ++ (pay <$> zseq 0 (Z.to_nat (s + 2 ^ 16))) ++ [pay s].
Proof.
  rewrite (proj2 (deliver_records_stream ordered_flags c pay _ t Hfresh)). f_equal. unfold deliver_all.
  set (m := s + 2 ^ 16) in *.
  replace (zseq n (Z.to_nat (m - n)) ++ [m]) with (zseq n (Z.to_nat (m - 1 - n)) ++ [m - 1; m]).
  2:{ replace (Z.to_nat (m - n)) with (Z.to_nat (m - 1 - n) + 1)%nat by lia. rewrite zseq_app, <- app_assoc. f_equal.
      cbn. f_equal. lia. }
  rewrite !foldl_app. rewrite in_order_run by (done || lia || intros; apply lookup_empty).
  rewrite Z2Nat.id, Z.add_0_l by lia. rewrite (stale_step pay c _ s n) by (done || lia). fold m.
  rewrite in_order_run; [|done|lia|lia|]. 2:{ intros j Hj. cbn [set_rel_reorder rel_reorder]. rewrite lookup_singleton_ne by lia. done. }
  rewrite poisoned_end with (b := pay s); [|cbn; lia|lia|done].
  replace (Z.to_nat m) with (Z.to_nat n + (Z.to_nat (m - 1 - n) + 1))%nat by lia.
  rewrite !zseq_app, !fmap_app, <- !app_assoc, !Z2Nat.id, Z.add_0_l by lia. cbn [app].
  replace (n + (m - 1 - n)) with (m - 1) by lia. do 2 f_equal. cbn. by rewrite Z.add_0_r.
Qed.

Lemma stale_duplicate_takes_slot_witness :
  let pay := fun s => Loopback.message [s] in
  ready_ (rx_ (deliver_records (stream_records ordered_flags 3 pay
    (zseq 0 (Z.to_nat 40001) ++ [0] ++ zseq 40001 (Z.to_nat (0 + 2 ^ 16 - 40001)) ++ [0 + 2 ^ 16])) (Loopback.endpoint 1 7001)))
  = [] ++ (pay <$> zseq 0 (Z.to_nat (0 + 2 ^ 16))) ++ [pay 0].
Proof.
  exact (stale_duplicate_takes_slot 3 (fun s => Loopback.message [s]) 0 40001 (Loopback.endpoint 1 7001)
    ltac:(reflexivity) ltac:(lia) ltac:(lia)).
Defined.
