(* ===== verification/ZdtInvariant.v ===== *)
(** * The transport's invariant

    What holds of every transport between any two of its operations, whatever
    arrives from the network and whoever calls it: the counters agree with what
    they count, sequence numbers avoid the sentinel, the window stays usable. *)

From S2P Require Import Prelude Buffer BufferSpec Binary64 ZdtWire ZdtAckHistory ZdtCongestion.
From S2P Require Import ZdtOptions ZdtState ZdtSend ZdtAcks ZdtReceive ZdtFlush MpscQueue ZdtTransport.

(** ** Sender *)

(** The datagrams that wait for an acknowledgment. *)
Definition awaiting (m : gmap Z SentInfo) : gmap Z SentInfo := filter (fun e => si_keys e.2 <> []) m.

Record log_ok (l : TransmissionLog) : Prop := {
  lo_items : length (tl_items l) = 16%nat;
  lo_count : 0 <= tl_count l <= 16;
  lo_next : 0 <= tl_next l < 16
}.

(** What is filed under a key is a transmission of that message. *)
Record out_ok (k : MsgKey) (o : OutReliable) : Prop := {
  oo_channel : o_channel o = k_channel k;
  oo_seq : o_message_seq o = u16 (k_message_seq k);
  oo_frag : o_frag_index o = k_frag_index k;
  oo_reliable : k_reliable k = true;
  oo_sends : 1 <= o_send_count o;
  oo_log : log_ok (o_packets o)
}.

Record sender_ok (s : Sender) : Prop := {
  so_in_flight : in_flight_datagrams_ s = Z.of_nat (size (awaiting (sent_packets_ s)));
  so_next : 1 <= next_packet_seq_ s < 65536;
  so_sent : map_Forall (fun seq info => 1 <= seq < 65536 /\ key_count info <= kMaxKeys) (sent_packets_ s);
  so_unacked : map_Forall out_ok (unacked_ s);
  so_window : window_ok (congestion_ s)
}.

Lemma awaiting_delete m seq : awaiting (delete seq m) = delete seq (awaiting m).
Proof. apply map_filter_delete. Qed.

Lemma awaiting_lookup m seq info : m !! seq = Some info -> awaiting m !! seq = if decide (si_keys info <> []) then Some info else None.
Proof.
  intros E. unfold awaiting. destruct (decide _) as [H|H].
  - apply map_lookup_filter_Some_2; done.
  - apply map_lookup_filter_None. right. intros x Ex. rewrite E in Ex. injection Ex as <-. done.
Qed.

Lemma key_count_pos info : (0 <? key_count info) = bool_decide (si_keys info <> []).
Proof.
  unfold key_count. destruct (si_keys info) as [|k l]; [done|]. rewrite bool_decide_eq_true_2 by done.
  apply Z.ltb_lt. simpl. lia.
Qed.

Lemma RetireSentPacket_ok seq s : sender_ok s -> sender_ok (RetireSentPacket seq s).
Proof.
  intros [Hf Hn Hs Hu Hw]. unfold RetireSentPacket. destruct (sent_packets_ s !! seq) as [info|] eqn:E; [|done].
  rewrite key_count_pos. pose proof (awaiting_lookup _ _ _ E) as Ea.
  assert (Hd : map_Forall (fun seq info => 1 <= seq < 65536 /\ key_count info <= kMaxKeys) (delete seq (sent_packets_ s)))
    by (by apply map_Forall_delete).
  destruct (decide (si_keys info <> [])) as [Hk|Hk].
  - rewrite bool_decide_eq_true_2 by done. cbn [andb].
    assert (Hsz : size (delete seq (awaiting (sent_packets_ s))) = pred (size (awaiting (sent_packets_ s))))
      by (rewrite map_size_delete, Ea; done).
    assert (Hpos : (0 < size (awaiting (sent_packets_ s)))%nat).
    { destruct (size (awaiting (sent_packets_ s))) eqn:Ez; [|lia]. apply map_size_empty_inv in Ez.
      by rewrite Ez, lookup_empty in Ea. }
    destruct (Z.ltb_spec 0 (in_flight_datagrams_ s)); [|lia].
    split; cbn; rewrite ?awaiting_delete; try done. rewrite Hf, Hsz. lia.
  - rewrite bool_decide_eq_false_2 by done. cbn [andb].
    split; cbn; rewrite ?awaiting_delete; try done. by rewrite delete_id.
Qed.

Lemma RetireSentPacket_unacked seq s : unacked_ (RetireSentPacket seq s) = unacked_ s.
Proof. unfold RetireSentPacket. destruct (_ !! seq); [|done]. by destruct (_ && _). Qed.

Lemma RetireSentPacket_gone seq s : sent_packets_ (RetireSentPacket seq s) = delete seq (sent_packets_ s).
Proof.
  unfold RetireSentPacket. destruct (sent_packets_ s !! seq) eqn:E; [by destruct (_ && _)|]. by rewrite delete_id.
Qed.

Lemma TransmissionLog_Add_ok seq l : log_ok l -> log_ok (TransmissionLog_Add seq l).
Proof.
  intros [H1 H2 H3]. split; cbn [TransmissionLog_Add tl_items tl_count tl_next].
  - by rewrite length_insert.
  - unfold tl_capacity. destruct (Z.ltb_spec (tl_count l) 16); lia.
  - unfold tl_capacity. pose proof (Z.mod_pos_bound (tl_next l + 1) 16). rewrite u8_small by lia. lia.
Qed.

Lemma TransmissionLog_default_ok : log_ok TransmissionLog_default.
Proof. split; simpl; lia. Qed.

#[export] Hint Resolve RetireSentPacket_ok TransmissionLog_Add_ok TransmissionLog_default_ok : znet.

(** Changing one message's bookkeeping. *)
Lemma put_unacked_ok k o s : sender_ok s -> out_ok k o -> sender_ok (set_unacked (<[k := o]> (unacked_ s)) s).
Proof. intros [Hf Hn Hs Hu Hw] Ho. split; cbn; try done. by apply map_Forall_insert_2. Qed.

Lemma drop_unacked_ok k s : sender_ok s -> sender_ok (set_unacked (delete k (unacked_ s)) s).
Proof. intros [Hf Hn Hs Hu Hw]. split; cbn; try done. by apply map_Forall_delete. Qed.

(** The fields that carry no invariant. *)
Lemma sender_ok_scan v s : sender_ok s -> sender_ok (set_next_retransmit_scan v s).
Proof. by intros []. Qed.
Lemma sender_ok_probe v s : sender_ok s -> sender_ok (set_tail_probe_at v s).
Proof. by intros []. Qed.
Lemma sender_ok_fired v s : sender_ok s -> sender_ok (set_tail_probes_fired v s).
Proof. by intros []. Qed.
Lemma sender_ok_rtt v s : sender_ok s -> sender_ok (set_rtt v s).
Proof. by intros []. Qed.
Lemma sender_ok_last_send v s : sender_ok s -> sender_ok (set_last_send v s).
Proof. by intros []. Qed.
Lemma sender_ok_scratch v s : sender_ok s -> sender_ok (set_send_scratch v s).
Proof. by intros []. Qed.
Lemma sender_ok_congestion v s : sender_ok s -> window_ok v -> sender_ok (set_congestion v s).
Proof. by intros [] ?. Qed.

#[export] Hint Resolve put_unacked_ok drop_unacked_ok sender_ok_scan sender_ok_probe sender_ok_fired sender_ok_rtt
  sender_ok_last_send sender_ok_scratch sender_ok_congestion : znet.

(** A fold of steps that each keep a property keeps it. *)
Lemma foldl_keeps {A B} (I : A -> Prop) (f : A -> B -> A) l a :
  I a -> (forall a b, I a -> I (f a b)) -> I (foldl f a l).
Proof. intros Ha Hf. revert a Ha. induction l as [|b l IH]; intros; simpl; auto. Qed.

Lemma nak_key_ok s k : sender_ok s -> sender_ok (nak_key s k).
Proof.
  intros H. unfold nak_key. destruct (unacked_ s !! k) as [o|] eqn:E; [|done].
  apply sender_ok_scan, put_unacked_ok; [done|].
  destruct (so_unacked s H k o E). by split.
Qed.

Lemma ack_key_ok seq s k : sender_ok s -> sender_ok (ack_key seq s k).
Proof.
  intros H. unfold ack_key. destruct (unacked_ s !! k) as [o|]; [|done].
  apply drop_unacked_ok. apply foldl_keeps; [done|]. intros a b Ha. destruct (negb _); auto with znet.
Qed.

(** ** Receiver and queues *)

(** The sum of a measure over the values of a map. *)
Definition msum {K A} `{Countable K} (f : A -> Z) (m : gmap K A) : Z := map_fold (fun _ a n => f a + n) 0 m.

Definition bytes_len (l : list Z) : Z := zlen l.

(** The bytes one assembly holds, and all of them. *)
Definition held_bytes (a : Reassembly) : Z := msum bytes_len (ra_fragments a).
Definition held (m : gmap MsgKey Reassembly) : Z := msum held_bytes m.

Definition receiver_ok (r : Receiver) : Prop := reassembly_bytes_ r = u64 (held (reassembly_ r)).

Definition lane_total (lanes : list StagedLane) : nat := sum_list ((fun l => length (lane_messages l)) <$> lanes).

Record queues_ok (cfg : ZDTOptions) (q : Queues) : Prop := {
  qo_count : staged_count_ q = Z.of_nat (lane_total (staged_ q));
  qo_cursor : 0 <= staged_cursor_ q;
  qo_lanes : NoDup (lane_channel <$> staged_ q);
  qo_channel : Forall (fun l => Forall (fun m => GetOr ChannelKey 0 (q_options m) = lane_channel l) (lane_messages l)) (staged_ q);
  qo_inbox : zlen (inbox_ q) <= Z.max 0 (max_inbox_datagrams cfg);
  qo_outbound : zlen (outbound_ q) <= Mpsc.RoundUpPowerOfTwo (outbound_queue_capacity cfg)
}.

Record transport_ok (t : Transport) : Prop := {
  ok_tx : sender_ok (tx_ t);
  ok_rx : receiver_ok (rx_ t);
  ok_qs : queues_ok (config t) (qs_ t)
}.

(** Changing one part keeps the invariant if it keeps the part's. *)
Lemma ok_upd_path f t : transport_ok t -> transport_ok (upd_path f t).
Proof. by intros []. Qed.
Lemma ok_upd_tx f t : transport_ok t -> (sender_ok (tx_ t) -> sender_ok (f (tx_ t))) -> transport_ok (upd_tx f t).
Proof. intros [] Hf. split; [by apply Hf|done|done]. Qed.
Lemma ok_upd_rx f t : transport_ok t -> (receiver_ok (rx_ t) -> receiver_ok (f (rx_ t))) -> transport_ok (upd_rx f t).
Proof. intros [] Hf. split; [done|by apply Hf|done]. Qed.
Lemma ok_upd_qs f t :
  transport_ok t -> (queues_ok (config t) (qs_ t) -> queues_ok (config t) (f (qs_ t))) -> transport_ok (upd_qs f t).
Proof. intros [] Hf. split; [done|done|by apply Hf]. Qed.

Lemma ok_now clk t : transport_ok t -> transport_ok (now_ clk t).2.
Proof. apply ok_upd_path. Qed.

(** [upd_tx] with a step the hint database knows. *)
Ltac tx_step := apply ok_upd_tx; [|intros; auto with znet].

#[export] Hint Resolve ok_upd_path ok_now : znet.

(** ** The send path keeps it *)

Lemma advance_seq_range seq : 1 <= advance_seq seq < 65536.
Proof. unfold advance_seq. pose proof (u16_range (seq + 1)). destruct (Z.eqb_spec (u16 (seq + 1)) 0); lia. Qed.

Lemma batch_keys_bound now batch : key_count (mkSent now (batch_keys batch)) <= kMaxKeys.
Proof.
  unfold batch_keys, key_count at 1. cbn [si_keys]. fold (key_count (foldl
    (fun i p => if p_reliable p then SentInfo_Add (p_key p) i else i) (mkSent 0 []) batch)).
  apply (foldl_keeps (fun i => key_count i <= kMaxKeys)); [done|]. intros i p Hi. destruct (p_reliable p); [|done].
  unfold SentInfo_Add. destruct (Z.ltb_spec (key_count i) kMaxKeys); [|done].
  unfold key_count in *. cbn [si_keys]. rewrite length_app. simpl. lia.
Qed.

(** Filing a fresh datagram under a sequence number that has no entry. *)
Lemma file_packet_ok seq info s :
  sender_ok s -> 1 <= seq < 65536 -> key_count info <= kMaxKeys -> sent_packets_ s !! seq = None ->
  sender_ok (file_packet seq info s).
Proof.
  intros [Hf Hn Hs Hu Hw] Hseq Hk E. unfold file_packet. rewrite key_count_pos.
  assert (Hins : map_Forall (fun seq info => 1 <= seq < 65536 /\ key_count info <= kMaxKeys) (<[seq := info]> (sent_packets_ s)))
    by (by apply map_Forall_insert_2).
  assert (Ea : awaiting (sent_packets_ s) !! seq = None) by (apply map_lookup_filter_None; by left).
  destruct (decide (si_keys info <> [])) as [H|H].
  - rewrite bool_decide_eq_true_2 by done. split; cbn; try done. unfold awaiting. rewrite map_filter_insert_True by done.
    rewrite map_size_insert_None by done. unfold awaiting in Hf. lia.
  - rewrite bool_decide_eq_false_2 by done. split; cbn; try done. unfold awaiting.
    rewrite map_filter_insert_False, delete_id by done. done.
Qed.

Lemma sender_ok_next v s : sender_ok s -> 1 <= v < 65536 -> sender_ok (set_next_packet_seq v s).
Proof. by intros [] ?. Qed.

(** The parts of the state a transmission leaves alone. *)
Record sends_only (t t' : Transport) : Prop := {
  sn_setup : setup_ t' = setup_ t;
  sn_qs : qs_ t' = qs_ t;
  sn_unacked : unacked_ (tx_ t') = unacked_ (tx_ t);
  sn_channels : channels_ (rx_ t') = channels_ (rx_ t);
  sn_closed : is_closed_ (path_ t') = is_closed_ (path_ t);
  sn_rx : rx_ t' = set_needs_ack (needs_ack_ (rx_ t')) (rx_ t)
}.

Section SendOk.
Context `{P : Platform} (clk : nat -> Z).

Lemma Fill_seq hist h m r : h_packet_seq (Fill hist h m r) = h_packet_seq h.
Proof.
  unfold Fill. destruct (_ || _); [done|].
  assert (Hdrop : forall n h, h_packet_seq (drop_nack_tail n h) = h_packet_seq h).
  { induction n as [|n IH]; intros h'; cbn [drop_nack_tail]; [done|]. destruct (_ =? _); [by rewrite IH|done]. }
  rewrite Hdrop.
  assert (Hfill : forall fuel bits limit mb b h, h_packet_seq (fill_loop fuel bits limit mb b h) = h_packet_seq h).
  { induction fuel as [|fuel IH]; intros; cbn [fill_loop]; [done|]. destruct (_ && _); [|done].
    destruct (_ && _); [done|]. by rewrite IH. }
  by rewrite Hfill.
Qed.

Lemma SendTo_frame b t :
  tx_ (SendTo b t) = tx_ t /\ rx_ (SendTo b t) = rx_ t /\ qs_ (SendTo b t) = qs_ t /\ setup_ (SendTo b t) = setup_ t /\
  is_closed_ (path_ (SendTo b t)) = is_closed_ (path_ t).
Proof. unfold SendTo. by destruct (socket_ (path_ t)), (peer_ (path_ t)). Qed.

Lemma SendBatch_frame flags batch t : sends_only t (SendBatch clk flags batch t).2.
Proof.
  assert (Hid : sends_only t t) by (split; try done; by destruct (rx_ t)).
  unfold SendBatch. destruct (socket_ (path_ t)) as [sock|]; [|done].
  destruct (peer_ (path_ t)) as [a|]; [|done].
  generalize (batch_datagram flags batch t) (next_packet_seq_ (tx_ t)) (batch_keys batch). intros d seq keys.
  set (t0 := upd_tx (set_send_scratch d) _). destruct (SendTo_frame d t0) as (E1 & E2 & E3 & E4 & E5).
  unfold now_, file_packet. destruct (0 <? _) eqn:Ek; split; cbn; rewrite ?Ek, ?E1, ?E2, ?E3, ?E4, ?E5; cbn;
    rewrite ?RetireSentPacket_unacked; done.
Qed.

Lemma receiver_ok_needs_ack v r : receiver_ok r -> receiver_ok (set_needs_ack v r).
Proof. done. Qed.

Lemma SendBatch_ok flags batch t : transport_ok t -> transport_ok (SendBatch clk flags batch t).2.
Proof.
  intros Ht. destruct (SendBatch_frame flags batch t) as [Fs Fq _ _ _ Fr]. destruct Ht as [Htx Hrx Hqs].
  split; [|rewrite Fr; by apply receiver_ok_needs_ack|unfold config; by rewrite Fs, Fq].
  unfold SendBatch. destruct (socket_ (path_ t)); [|done]. destruct (peer_ (path_ t)); [|done].
  generalize (batch_datagram flags batch t). intros d. set (seq := next_packet_seq_ (tx_ t)).
  set (t0 := upd_tx (set_send_scratch d) _). destruct (SendTo_frame d t0) as (E1 & _). unfold now_. cbn. rewrite E1.
  apply file_packet_ok.
  - apply sender_ok_last_send. unfold t0. cbn. apply sender_ok_scratch, RetireSentPacket_ok, sender_ok_next; [done|].
    apply advance_seq_range.
  - apply Htx.
  - apply batch_keys_bound.
  - unfold t0. cbn. rewrite RetireSentPacket_gone. apply lookup_delete_eq.
Qed.

Lemma SendControl_ok flags t : transport_ok t -> transport_ok (SendControl clk flags t).
Proof. apply SendBatch_ok. Qed.

Lemma ResendReliable_ok k o t :
  transport_ok t -> out_ok k o ->
  transport_ok (ResendReliable clk k o t).2 /\ out_ok k (ResendReliable clk k o t).1 /\
  sends_only t (ResendReliable clk k o t).2.
Proof.
  intros Ht [H1 H2 H3 H4 H5 H6]. unfold ResendReliable. set (p := MakeRecord _ _ _ _ _ _ _ _ _).
  pose proof (SendBatch_ok 0 [p] t Ht) as Hok. pose proof (SendBatch_frame 0 [p] t) as Hfr.
  destruct (SendBatch clk 0 [p] t) as [packet t']. split_and!; [done| |done].
  split; cbn; try done. by apply TransmissionLog_Add_ok.
Qed.

Lemma Close_ok t : transport_ok t -> transport_ok (Close t).2.
Proof.
  intros Ht. unfold Close. destruct (is_closed_ (path_ t)); [done|]. cbn [snd].
  assert (Hsd : forall t, transport_ok t -> transport_ok (Shutdown t)).
  { intros t' H'. unfold Shutdown. destruct (socket_ (path_ t')); [|done]. destruct (drains_own_socket_ _); auto with znet. }
  apply Hsd. set (t1 := upd_path _ t). assert (H1 : transport_ok t1) by (by apply ok_upd_path).
  unfold SendTo. destruct (socket_ (path_ t1)), (peer_ (path_ t1)); auto with znet.
Qed.

(** What a record says of itself agrees with the key it is filed under. *)
Record tracked (p : PendingRecord) : Prop := {
  tk_channel : r_channel (p_record p) = k_channel (p_key p);
  tk_seq : r_message_seq (p_record p) = u16 (k_message_seq (p_key p));
  tk_frag : r_frag_index (p_record p) = k_frag_index (p_key p);
  tk_reliable : k_reliable (p_key p) = true
}.

Lemma MakeRecord_tracked owner offset len flags c seq i n : tracked (MakeRecord owner offset len flags c seq i n true).
Proof. by split. Qed.

Lemma RearmTailProbe_ok now t : transport_ok t -> transport_ok (RearmTailProbe now t).
Proof. intros Ht. unfold RearmTailProbe. tx_step. tx_step. done. Qed.

Lemma TrackReliable_ok p offset now log t :
  transport_ok t -> tracked p -> log_ok log -> transport_ok (TrackReliable p offset now log t).
Proof.
  intros Ht [H1 H2 H3 H4] Hl. unfold TrackReliable. apply RearmTailProbe_ok.
  apply ok_upd_tx; [tx_step; done|]. intros Hs. apply put_unacked_ok; [done|]. by split; cbn.
Qed.

(** ** Acknowledgments and timers keep it *)

Lemma OnNak_ok seq t : transport_ok t -> transport_ok (OnNak seq t).
Proof.
  intros Ht. unfold OnNak. destruct (_ !! seq); [|done]. apply ok_upd_tx; [done|]. intros Hs.
  apply RetireSentPacket_ok. apply foldl_keeps; [done|]. intros. by apply nak_key_ok.
Qed.

Lemma AckPacket_ok seq arrival t : transport_ok t -> transport_ok (AckPacket seq arrival t).2.
Proof.
  intros Ht. unfold AckPacket. destruct (seq =? 0); [done|]. destruct (_ !! seq); [|done]. cbn [snd].
  apply ok_upd_tx; [tx_step; done|]. intros Hs.
  apply RetireSentPacket_ok. apply foldl_keeps; [done|]. intros. by apply ack_key_ok.
Qed.

Lemma ack_run_ok n ack offset arrival acked t : transport_ok t -> transport_ok (ack_run n ack offset arrival acked t).2.
Proof.
  revert offset acked t. induction n as [|n IH]; intros offset acked t Ht; cbn [ack_run]; [done|].
  pose proof (AckPacket_ok (u16 (ack - offset)) arrival t Ht). destruct (AckPacket _ _ _). by apply IH.
Qed.

Lemma nak_run_ok n ack offset t : transport_ok t -> transport_ok (nak_run n ack offset t).
Proof.
  revert offset t. induction n as [|n IH]; intros offset t Ht; cbn [nak_run]; [done|]. by apply IH, OnNak_ok.
Qed.

Lemma ack_blocks_ok blocks ack offset arrival acked t :
  transport_ok t -> transport_ok (ack_blocks blocks ack offset arrival acked t).2.
Proof.
  revert offset acked t. induction blocks as [|k blocks IH]; intros offset acked t Ht; cbn [ack_blocks]; [done|].
  destruct (_ <? _); [|done].
  pose proof (ack_run_ok (Z.to_nat (num_ack k)) ack offset arrival acked t Ht).
  destruct (ack_run _ _ _ _ _ _). by apply IH, nak_run_ok.
Qed.

Lemma SendWindowCap_range t : 2 <= SendWindowCap t <= 1024.
Proof.
  unfold SendWindowCap, kZDTMaxDatagramsInFlight, kZDTAckHistoryBits.
  destruct (Z.ltb_spec 1024 (max_datagrams_in_flight (config t)));
  [|destruct (Z.ltb_spec (max_datagrams_in_flight (config t)) 2)]; cbn; lia.
Qed.

Lemma OnAckArrived_ok c a : window_ok c -> window_ok (OnAckArrived c a).
Proof. intros [H1 H2]. unfold OnAckArrived. by destruct (_ && _). Qed.

Lemma ProcessAcks_ok h arrival t : transport_ok t -> transport_ok (ProcessAcks clk h arrival t).
Proof.
  intros Ht. unfold ProcessAcks. set (t1 := upd_tx _ t).
  assert (H1 : transport_ok t1).
  { apply ok_upd_tx; [done|]. intros Hs. apply sender_ok_congestion; [done|]. apply OnAckArrived_ok, Hs. }
  pose proof (ack_blocks_ok (map (block_at h) (seq 0 (Z.to_nat (h_block_count h)))) (h_ack h) 0 arrival 0 t1 H1) as H2.
  destruct (ack_blocks _ _ _ _ _ _) as [n t2]. cbn [snd] in H2. destruct (0 <? n); [|done]. unfold now_.
  apply RearmTailProbe_ok, ok_upd_path, ok_upd_tx; [done|]. intros Hs. apply sender_ok_congestion; [done|].
  apply OnAcked_ok; [|apply Hs]. pose proof (SendWindowCap_range t2). lia.
Qed.

Lemma scan_message_ok now acc k : transport_ok acc.2 -> transport_ok (scan_message clk now acc k).2.
Proof.
  destruct acc as [sc t]. cbn [snd]. intros Ht. unfold scan_message. destruct (sc_gave_up sc); [done|].
  destruct (unacked_ (tx_ t) !! k) as [o|] eqn:E; [|done]. destruct (_ <? _); [done|].
  destruct (_ <=? _); [by apply Close_ok|].
  destruct (ResendReliable_ok k o t Ht (so_unacked _ (ok_tx _ Ht) k o E)) as (H1 & H2 & _).
  destruct (ResendReliable clk k o t) as [o' t']. cbn [fst snd] in *.
  apply ok_upd_tx; [apply ok_upd_tx; [done|]|auto with znet]. intros Hs. apply put_unacked_ok; [done|].
  destruct H2. split; cbn; try done. lia.
Qed.

Lemma RetransmitUnacked_ok t : transport_ok t -> transport_ok (RetransmitUnacked clk t).
Proof.
  intros Ht. unfold RetransmitUnacked, now_. cbn zeta. set (t1 := upd_path _ t).
  assert (H1 : transport_ok t1) by (by apply ok_upd_path). destruct (_ <? _); [done|].
  assert (H2 : transport_ok (foldl (scan_message clk (clk (ticks_ (path_ t)))) (mkScan TimePoint_max false false, t1)
    (ordered_keys (unacked_ (tx_ t1)))).2).
  { apply (foldl_keeps (fun acc => transport_ok acc.2)); [done|]. intros. by apply scan_message_ok. }
  destruct (foldl _ _ _) as [sc t2]. cbn [snd] in H2. destruct (sc_gave_up sc); [done|].
  apply ok_upd_tx; [|auto with znet]. destruct (sc_timed_out sc); [|done]. apply ok_upd_tx; [done|]. intros Hs.
  apply sender_ok_congestion; [done|]. apply (congestion_step_ok 2 _ (EvTimeout _ _)); [lia|apply Hs].
Qed.

Lemma newest_sent_in m l k o :
  foldl (newest_sent m) None l = Some (k, o) -> m !! k = Some o.
Proof.
  assert (H : forall best, (forall k o, best = Some (k, o) -> m !! k = Some o) ->
    forall k o, foldl (newest_sent m) best l = Some (k, o) -> m !! k = Some o).
  { induction l as [|x l IH]; intros best Hb; [done|]. cbn [foldl]. apply IH. intros k' o'. unfold newest_sent.
    destruct (m !! x) as [ox|] eqn:E; [|apply Hb]. destruct best as [ [kb ob] |]; [|by intros [= <- <-]].
    destruct (_ <=? _); [by intros [= <- <-]|apply Hb]. }
  by apply H.
Qed.

Lemma MaybeTailProbe_ok now t : transport_ok t -> transport_ok (MaybeTailProbe clk now t).
Proof.
  intros Ht. unfold MaybeTailProbe. destruct (_ || _); [done|].
  destruct (foldl _ None _) as [ [k o] |] eqn:E; [|done]. apply newest_sent_in in E.
  destruct (ResendReliable_ok k o t Ht (so_unacked _ (ok_tx _ Ht) k o E)) as (H1 & H2 & _).
  destruct (ResendReliable clk k o t) as [o' t']. cbn [fst snd] in *.
  apply ok_upd_tx; [|auto with znet]. apply ok_upd_tx; [|auto with znet]. apply ok_upd_tx; [done|auto with znet].
Qed.

Lemma PruneSentPackets_ok t : transport_ok t -> transport_ok (PruneSentPackets clk t).
Proof.
  intros Ht. unfold PruneSentPackets, now_. apply ok_upd_tx; [by apply ok_upd_path|]. intros Hs.
  apply foldl_keeps; [done|]. intros a b Ha. destruct (_ <? _); auto with znet.
Qed.

End SendOk.

(** ** Sums over maps *)

Section Sums.
Context {K A : Type} `{Countable K} (f : A -> Z).

Lemma msum_empty : msum f (∅ : gmap K A) = 0.
Proof. apply map_fold_empty. Qed.

Lemma msum_insert_new (m : gmap K A) k a : m !! k = None -> msum f (<[k := a]> m) = f a + msum f m.
Proof. intros E. unfold msum. rewrite map_fold_insert_L; [done|intros; lia|done]. Qed.

Lemma msum_delete (m : gmap K A) k : msum f (delete k m) = msum f m - from_option f 0 (m !! k).
Proof.
  destruct (m !! k) as [a|] eqn:E; [|by rewrite delete_id by done; simpl; lia].
  rewrite <- (insert_delete_id m k a E) at 2. rewrite msum_insert_new by apply lookup_delete_eq. simpl. lia.
Qed.

Lemma msum_insert (m : gmap K A) k a : msum f (<[k := a]> m) = msum f m - from_option f 0 (m !! k) + f a.
Proof. rewrite <- insert_delete_eq, msum_insert_new by apply lookup_delete_eq. rewrite msum_delete. lia. Qed.

Lemma msum_list (m : gmap K A) : msum f m = foldr (fun a n => f a + n) 0 (map_to_list m).*2.
Proof.
  unfold msum. rewrite map_fold_foldr. induction (map_to_list m) as [|[k a] l IH]; [done|]. simpl. by rewrite IH.
Qed.

End Sums.

Lemma subtract_all n x l :
  n = u64 x -> foldl (fun n bytes => u64 (n - zlen bytes)) n l = u64 (x - foldr (fun a s => bytes_len a + s) 0 l).
Proof.
  revert n x. induction l as [|b l IH]; intros n x ->; cbn [foldl foldr]; [f_equal; lia|].
  rewrite (IH _ (x - zlen b)); [f_equal; unfold bytes_len; lia|]. unfold u64. by rewrite Zminus_mod_idemp_l.
Qed.

Lemma lookup_keys {A} (m : gmap Z A) (l : list (Z * A)) :
  (forall e, e ∈ l -> m !! e.1 = Some e.2) -> omap (fun i => m !! i) l.*1 = l.*2.
Proof.
  induction l as [|[k a] l IH]; intros H; [done|]. cbn [fmap list_fmap]. simpl.
  pose proof (H (k, a) ltac:(left)) as Hk. cbn [fst snd] in Hk. rewrite Hk. f_equal. apply IH. intros e He. apply H. by right.
Qed.

Lemma ordered_fragments_perm m : ordered_fragments m ≡ₚ (map_to_list m).*2.
Proof.
  unfold ordered_fragments. rewrite merge_sort_Permutation. rewrite lookup_keys; [done|].
  intros [k a] He. by apply elem_of_map_to_list in He.
Qed.

Lemma sum_ordered_fragments m : foldr (fun a s => bytes_len a + s) 0 (ordered_fragments m) = msum bytes_len m.
Proof.
  rewrite msum_list. induction (ordered_fragments_perm m); simpl; lia.
Qed.

(** ** The receive path keeps it *)

Lemma DeliverMessage_rx record payload t :
  reassembly_ (rx_ (DeliverMessage record payload t)) = reassembly_ (rx_ t) /\
  reassembly_bytes_ (rx_ (DeliverMessage record payload t)) = reassembly_bytes_ (rx_ t) /\
  tx_ (DeliverMessage record payload t) = tx_ t /\ qs_ (DeliverMessage record payload t) = qs_ t /\
  setup_ (DeliverMessage record payload t) = setup_ t /\ path_ (DeliverMessage record payload t) = path_ t.
Proof. unfold DeliverMessage. by destruct (deliver_on _ _ _). Qed.

Lemma DeliverMessage_ok record payload t : transport_ok t -> transport_ok (DeliverMessage record payload t).
Proof.
  intros [H1 H2 H3]. destruct (DeliverMessage_rx record payload t) as (E1 & E2 & E3 & E4 & E5 & _).
  split; [by rewrite E3|unfold receiver_ok; by rewrite E1, E2|unfold config; by rewrite E4, E5].
Qed.

Section ReceiveOk.
Context `{P : Platform} (clk : nat -> Z).

Lemma file_fragment_ok record data key a t :
  transport_ok t -> reassembly_ (rx_ t) !! key = Some a -> transport_ok (file_fragment record data key a t).
Proof.
  intros Ht E. unfold file_fragment. set (t1 := upd_rx _ t). set (a1 := mkReassembly _ _ _).
  assert (Ha : held_bytes a1 = held_bytes a - bytes_len (default [] (ra_fragments a !! r_frag_index record)) + bytes_len data).
  { unfold held_bytes, a1. cbn [ra_fragments]. rewrite msum_insert. by destruct (ra_fragments a !! _). }
  assert (Hb : reassembly_bytes_ (rx_ t1) = u64 (held (reassembly_ (rx_ t)) - held_bytes a + held_bytes a1)).
  { unfold t1. cbn. rewrite (ok_rx t Ht), Ha. unfold bytes_len.
    replace (held (reassembly_ (rx_ t)) - held_bytes a +
      (held_bytes a - zlen (default [] (ra_fragments a !! r_frag_index record)) + zlen data))
      with (held (reassembly_ (rx_ t)) + (zlen data - zlen (default [] (ra_fragments a !! r_frag_index record)))) by lia.
    symmetry. unfold u64. rewrite <- Zplus_mod_idemp_l. f_equal. lia. }
  destruct Ht as [H1 H2 H3]. destruct (negb _).
  - split; [done| |done].
    change (reassembly_bytes_ (rx_ t1) = u64 (held (<[key := a1]> (reassembly_ (rx_ t))))).
    rewrite Hb. unfold held. by rewrite msum_insert, E.
  - apply DeliverMessage_ok. split; [done| |done].
    change (foldl (fun n bytes => u64 (n - zlen bytes)) (reassembly_bytes_ (rx_ t1)) (ordered_fragments (ra_fragments a1))
      = u64 (held (delete key (reassembly_ (rx_ t))))).
    rewrite (subtract_all _ _ _ Hb), sum_ordered_fragments. unfold held. rewrite msum_delete, E. cbn [from_option].
    change (msum bytes_len (ra_fragments a1)) with (held_bytes a1). f_equal. lia.
Qed.

Lemma OnDataFragment_ok record data t : transport_ok t -> transport_ok (OnDataFragment clk record data t).2.
Proof.
  intros Ht. unfold OnDataFragment. destruct (_ || _); [done|]. cbn zeta. set (key := mkKey _ _ _ _).
  destruct (reassembly_ (rx_ t) !! key) as [a|] eqn:E.
  - destruct (negb _); [done|]. by apply file_fragment_ok.
  - destruct (_ || _); [done|]. unfold now_. cbn [snd]. apply file_fragment_ok; [|cbn; apply lookup_insert_eq].
    apply ok_upd_rx; [by apply ok_upd_path|]. intros Hr. unfold receiver_ok in *. cbn in *. rewrite Hr. unfold held.
    rewrite msum_insert, E. cbn. f_equal. unfold held_bytes. cbn. rewrite msum_empty. lia.
Qed.

Lemma OnRecord_ok record data t : transport_ok t -> transport_ok (OnRecord clk record data t).2.
Proof.
  intros Ht. unfold OnRecord. destruct (has_flag _ _); [by apply OnDataFragment_ok|by apply DeliverMessage_ok].
Qed.

(** Pruning walks the entries the map held when it started. *)
Lemma prune_ok now timeout l r :
  receiver_ok r -> NoDup l.*1 -> (forall e, e ∈ l -> reassembly_ r !! e.1 = Some e.2) ->
  receiver_ok (foldl (prune_assembly now timeout) r l).
Proof.
  revert r. induction l as [|[k a] l IH]; intros r Hr Hnd Hl; [done|]. cbn [foldl].
  apply NoDup_cons in Hnd as [Hk Hnd]. specialize (Hl (k, a)) as Hka. cbn in Hka. specialize (Hka ltac:(left)).
  apply IH; [|done|].
  - unfold prune_assembly. destruct (_ <? _); [|done]. unfold receiver_ok in *. cbn.
    rewrite (subtract_all _ _ _ Hr), <- msum_list. unfold held. by rewrite msum_delete, Hka.
  - intros [k' a'] He. unfold prune_assembly. cbn. destruct (_ <? _); [|by apply (Hl (k', a')); right].
    cbn. rewrite lookup_delete_ne; [by apply (Hl (k', a')); right|]. intros <-. apply Hk.
    apply list_elem_of_fmap. by exists (k, a').
Qed.

Lemma PruneReassembly_ok t : transport_ok t -> transport_ok (PruneReassembly clk t).
Proof.
  intros Ht. unfold PruneReassembly, now_. apply ok_upd_rx; [by apply ok_upd_path|]. intros Hr.
  apply prune_ok; [done|apply NoDup_fst_map_to_list|]. intros [k a] He. by apply elem_of_map_to_list in He.
Qed.

Lemma process_records_ok fuel b acc t : transport_ok t -> transport_ok (process_records clk fuel b acc t).2.
Proof.
  revert b acc t. induction fuel as [|fuel IH]; intros b acc t Ht; cbn [process_records]; [done|].
  destruct (0 <? _); [|done]. destruct (ReadZDTRecord b _) as [ [ok record] b1]. destruct (negb ok); [done|].
  destruct (load _ _ b1) as [payload b2].
  pose proof (OnRecord_ok record payload (upd_rx (set_needs_ack true) t)
    ltac:(apply ok_upd_rx; [done|by intros; apply receiver_ok_needs_ack])) as H.
  destruct (OnRecord _ _ _ _) as [taken t1]. cbn [snd] in H. destruct (is_closed_ _); [done|]. by apply IH.
Qed.

Lemma Shutdown_ok t : transport_ok t -> transport_ok (Shutdown t).
Proof. intros Ht. unfold Shutdown. destruct (socket_ _); [|done]. destruct (drains_own_socket_ _); auto with znet. Qed.

Lemma process_datagram_ok i t : transport_ok t -> transport_ok (process_datagram clk i t).2.
Proof.
  intros Ht. unfold process_datagram. destruct (ReadZDTHeader _ _) as [ [ok h] b]. destruct (negb ok); [done|].
  set (t1 := upd_rx _ t). assert (H1 : transport_ok t1) by (apply ok_upd_rx; done).
  set (t2 := if negb (h_packet_seq h =? 0) then _ else _).
  assert (H2 : transport_ok t2) by (unfold t2; destruct (negb _); [by apply ProcessAcks_ok|done]).
  destruct (has_flag _ kFlagFin); [by apply Shutdown_ok, ok_upd_path|].
  destruct (has_flag _ kFlagPing); [by apply SendControl_ok|].
  pose proof (process_records_ok (Z.to_nat (readable_bytes b)) b true t2 H2) as H3.
  destruct (process_records _ _ _ _ _) as [acc t3]. cbn [snd] in *. destruct (_ && _); [|done].
  apply ok_upd_rx; done.
Qed.

Lemma process_all_ok l t : transport_ok t -> transport_ok (process_all clk l t).
Proof.
  revert t. induction l as [|i l IH]; intros t Ht; cbn [process_all]; [done|].
  pose proof (process_datagram_ok i t Ht) as H. destruct (process_datagram _ _ _) as [go t1].
  destruct go; [by apply IH|done].
Qed.

Lemma ProcessInbound_ok t : transport_ok t -> transport_ok (ProcessInbound clk t).
Proof.
  intros Ht. apply process_all_ok. apply ok_upd_qs; [done|]. intros []. split; try done. simpl. lia.
Qed.

End ReceiveOk.

(** ** The queues *)

Lemma lane_total_cons x lanes : lane_total (x :: lanes) = (length (lane_messages x) + lane_total lanes)%nat.
Proof. done. Qed.

Lemma lane_push_total c m lanes : lane_total (lane_push c m lanes) = S (lane_total lanes).
Proof.
  induction lanes as [|l lanes IH]; [done|]. cbn [lane_push].
  destruct (lane_channel l =? c); rewrite !lane_total_cons, ?IH; [|lia]. cbn. rewrite length_app. simpl. lia.
Qed.

Lemma lane_push_channels c m lanes :
  lane_channel <$> lane_push c m lanes
  = (lane_channel <$> lanes) ++ (if decide (c ∈ lane_channel <$> lanes) then [] else [c]).
Proof.
  induction lanes as [|l lanes IH]; [done|]. cbn [lane_push]. rewrite fmap_cons.
  destruct (Z.eqb_spec (lane_channel l) c) as [->|Hne].
  - rewrite decide_True by left. by rewrite app_nil_r.
  - rewrite fmap_cons, IH. cbn [app]. f_equal. f_equal.
    destruct (decide (c ∈ lane_channel <$> lanes)) as [HI|HI].
    + by rewrite decide_True by (by right).
    + rewrite decide_False; [done|]. rewrite elem_of_cons. intros [->|?]; done.
Qed.

Lemma lane_push_NoDup c m lanes : NoDup (lane_channel <$> lanes) -> NoDup (lane_channel <$> lane_push c m lanes).
Proof.
  intros H. rewrite lane_push_channels. destruct (decide _) as [|Hn]; [by rewrite app_nil_r|].
  apply NoDup_app. split_and!; [done| |apply NoDup_singleton]. by intros x Hx ->%list_elem_of_singleton.
Qed.

Definition lanes_sorted_by_channel (lanes : list StagedLane) : Prop :=
  Forall (fun l => Forall (fun m => GetOr ChannelKey 0 (q_options m) = lane_channel l) (lane_messages l)) lanes.

Lemma lane_push_sorted m lanes :
  lanes_sorted_by_channel lanes -> lanes_sorted_by_channel (lane_push (GetOr ChannelKey 0 (q_options m)) m lanes).
Proof.
  unfold lanes_sorted_by_channel. induction 1 as [|l lanes Hl Hls IH]; [repeat constructor|]. cbn [lane_push].
  destruct (Z.eqb_spec (lane_channel l) (GetOr ChannelKey 0 (q_options m))); constructor; try done.
  cbn. apply Forall_app. split; [done|]. by repeat constructor.
Qed.

Lemma stage_all_ok msgs lanes :
  NoDup (lane_channel <$> lanes) -> lanes_sorted_by_channel lanes ->
  let lanes' := foldl (fun lanes m => lane_push (GetOr ChannelKey 0 (q_options m)) m lanes) lanes msgs in
  lane_total lanes' = (lane_total lanes + length msgs)%nat /\
  NoDup (lane_channel <$> lanes') /\ lanes_sorted_by_channel lanes'.
Proof.
  revert lanes. induction msgs as [|m msgs IH]; intros lanes Hn Hs; cbn [foldl length]; [split_and!; try done; lia|].
  destruct (IH (lane_push (GetOr ChannelKey 0 (q_options m)) m lanes)) as (H1 & H2 & H3);
    [by apply lane_push_NoDup|by apply lane_push_sorted|].
  split_and!; [|done|done]. rewrite H1, lane_push_total. lia.
Qed.

Lemma RoundUpPowerOfTwo_pos n : 0 < Mpsc.RoundUpPowerOfTwo n.
Proof.
  assert (H : forall fuel v s, 0 < s -> 0 < Mpsc.round_up fuel v s).
  { induction fuel as [|fuel IH]; intros v s Hs; cbn [Mpsc.round_up]; [done|]. destruct (_ && _); [apply IH; lia|done]. }
  apply H. lia.
Qed.

Lemma StageOutbound_ok cfg q : queues_ok cfg q -> queues_ok cfg (StageOutbound q).2.
Proof.
  intros [H1 H2 H3 H4 H5 H6]. destruct (stage_all_ok (outbound_ q) (staged_ q) H3 H4) as (E1 & E2 & E3).
  pose proof (RoundUpPowerOfTwo_pos (outbound_queue_capacity cfg)).
  split; cbn [StageOutbound snd set_staged_count set_staged set_outbound staged_count_ staged_ staged_cursor_ inbox_ outbound_ length]; try done.
  - rewrite E1, H1. lia.
  - lia.
Qed.

Lemma lane_total_ge lanes i l : lanes !! i = Some l -> (length (lane_messages l) <= lane_total lanes)%nat.
Proof.
  revert i. induction lanes as [|x lanes IH]; intros [|i] E; [done..| |]; rewrite lane_total_cons.
  - injection E as ->. lia.
  - specialize (IH i E). lia.
Qed.

Lemma lane_total_insert lanes i l l' :
  lanes !! i = Some l -> lane_total (<[i := l']> lanes) = (lane_total lanes + length (lane_messages l') - length (lane_messages l))%nat.
Proof.
  revert i. induction lanes as [|x lanes IH]; intros [|i] E; [done..| |].
  - injection E as ->. change (<[0%nat := l']> (l :: lanes)) with (l' :: lanes). rewrite !lane_total_cons. lia.
  - change (<[S i := l']> (x :: lanes)) with (x :: <[i := l']> lanes). rewrite !lane_total_cons, (IH i E).
    pose proof (lane_total_ge lanes i l E). lia.
Qed.

Lemma pop_lane_ok cfg i q l m rest :
  queues_ok cfg q -> staged_ q !! i = Some l -> lane_messages l = m :: rest ->
  queues_ok cfg (pop_lane i q) /\ lane_total (staged_ (pop_lane i q)) = (lane_total (staged_ q) - 1)%nat /\
  (1 <= lane_total (staged_ q))%nat.
Proof.
  intros [H1 H2 H3 H4 H5 H6] E Em. unfold pop_lane. rewrite E. set (l' := mkLane _ _).
  assert (Et : lane_total (<[i := l']> (staged_ q)) = (lane_total (staged_ q) - 1)%nat)
    by (rewrite (lane_total_insert _ _ l l' E); unfold l'; cbn; rewrite Em; simpl; lia).
  assert (Hpos : (1 <= lane_total (staged_ q))%nat)
    by (pose proof (lane_total_ge _ _ _ E) as Hge; rewrite Em in Hge; simpl in Hge; lia).
  split_and!; [|done|done]. split; cbn [set_staged_count set_staged staged_count_ staged_ staged_cursor_ inbox_ outbound_]; try done.
  - rewrite Et, H1. lia.
  - assert (Ech : lane_channel <$> <[i := l']> (staged_ q) = lane_channel <$> staged_ q).
    { rewrite list_fmap_insert. apply list_insert_id. rewrite list_lookup_fmap, E. done. }
    by rewrite Ech.
  - apply Forall_insert; [done|]. rewrite Forall_lookup in H4. specialize (H4 i l E). rewrite Em in H4. cbn. rewrite Em.
    by inversion H4.
Qed.

(** ** The flush keeps it *)

Section FlushOk.
Context `{P : Platform} (clk : nat -> Z).

Lemma log_packet_ok packet t p : transport_ok t -> transport_ok (log_packet packet t p).
Proof.
  intros Ht. unfold log_packet. destruct (negb _); [done|]. destruct (_ !! p_key p) as [o|] eqn:E; [|done].
  apply ok_upd_tx; [done|]. intros Hs. apply put_unacked_ok; [done|]. destruct (so_unacked _ Hs _ _ E).
  split; cbn; try done. by apply TransmissionLog_Add_ok.
Qed.

Lemma flush_batch_ok acc : transport_ok acc.2 -> transport_ok (flush_batch clk acc).2.
Proof.
  destruct acc as [pk t]. cbn [snd]. intros Ht. unfold flush_batch. destruct (pk_batch pk) as [|p batch] eqn:E; [done|].
  pose proof (SendBatch_ok clk 0 (p :: batch) t Ht) as H. destruct (SendBatch _ _ _ _) as [packet t1].
  apply foldl_keeps; [done|]. intros. by apply log_packet_ok.
Qed.

Lemma take_seq_ok reliable c t : transport_ok t -> transport_ok (take_seq reliable c t).2.
Proof. intros Ht. unfold take_seq. destruct reliable; by apply ok_upd_rx. Qed.

Lemma send_fragment_ok mtu now payload flags c seq total n reliable t i :
  transport_ok t -> transport_ok (send_fragment clk mtu now payload flags c seq total n reliable t i).
Proof.
  intros Ht. unfold send_fragment. set (p := MakeRecord _ _ _ _ _ _ _ _ _).
  pose proof (SendBatch_ok clk 0 [p] t Ht) as H. destruct (SendBatch _ _ _ _) as [packet t1]. cbn [snd] in H.
  destruct reliable; [|done]. apply TrackReliable_ok; [done|apply MakeRecord_tracked|]. unfold MakeLog. auto with znet.
Qed.

Lemma pack_message_ok mtu now acc q c : transport_ok acc.2 -> transport_ok (pack_message clk mtu now acc q c).2.
Proof.
  destruct acc as [pk t]. cbn [snd]. intros Ht. unfold pack_message.
  pose proof (take_seq_ok (GetOr ReliableKey true (q_options q)) c t Ht) as H1.
  destruct (take_seq _ c t) as [seq t1]. cbn [snd] in H1. pose proof (flush_batch_ok (pk, t1) H1) as H2.
  destruct (_ <=? unfrag_capacity mtu).
  - assert (H3 : transport_ok (if (mtu <? pk_bytes pk + ZDTRecordSize false (readable_bytes (q_payload q))) || (kMaxKeys <=? zlen (pk_batch pk))
      then flush_batch clk (pk, t1) else (pk, t1)).2) by (by destruct (_ || _)).
    destruct (if _ || _ then _ else _) as [pk2 t2]. cbn [snd] in *.
    destruct (GetOr ReliableKey true (q_options q)); [|done].
    apply TrackReliable_ok; [done|apply MakeRecord_tracked|auto with znet].
  - destruct (flush_batch clk (pk, t1)) as [pk2 t2]. cbn [snd] in *. destruct (255 <? _); [done|]. cbn [snd].
    apply foldl_keeps; [done|]. intros. by apply send_fragment_ok.
Qed.

Lemma lane_step_ok mtu now acc i : transport_ok acc.2.2 -> transport_ok (lane_step clk mtu now acc i).2.2.
Proof.
  destruct acc as [any [pk t]]. cbn [snd]. intros Ht. unfold lane_step.
  destruct (staged_ (qs_ t) !! _) as [l|] eqn:E; [|done]. destruct (lane_messages l) as [|m rest] eqn:Em; [done|].
  destruct (_ && _); [done|]. cbn [snd]. apply pack_message_ok. cbn [snd]. apply ok_upd_qs; [done|]. intros Hq.
  by destruct (pop_lane_ok _ _ _ _ _ _ Hq E Em).
Qed.

Lemma lane_pass_ok mtu now acc : transport_ok acc.2 -> transport_ok (lane_pass clk mtu now acc).2.2.
Proof.
  intros Ht. unfold lane_pass. apply (foldl_keeps (fun a => transport_ok a.2.2)); [done|]. intros. by apply lane_step_ok.
Qed.

Lemma flush_loop_ok fuel mtu now acc : transport_ok acc.2 -> transport_ok (flush_loop clk fuel mtu now acc).2.
Proof.
  revert acc. induction fuel as [|fuel IH]; intros [pk t] Ht; cbn [flush_loop]; [done|]. cbn [snd] in Ht.
  set (st := if staged_count_ (qs_ t) =? 0 then _ else _).
  assert (Hst : transport_ok st.2).
  { unfold st. destruct (_ =? 0); [|done]. pose proof (StageOutbound_ok (config t) (qs_ t) (ok_qs t Ht)) as Hq.
    destruct (StageOutbound (qs_ t)) as [n q]. destruct Ht. by split. }
  destruct st as [stop t1]. cbn [snd] in Hst. destruct stop; [done|].
  pose proof (lane_pass_ok mtu now (pk, t1) Hst) as Hp. destruct (lane_pass _ _ _ _) as [any [pk2 t2]]. cbn [snd] in Hp.
  destruct (negb any); [done|]. apply IH. cbn [snd]. apply ok_upd_qs; [done|]. intros []. split; try done. cbn.
  destruct (decide (zlen (staged_ (qs_ t2)) = 0)) as [E0|]; [rewrite E0, Z.mod_0_r; lia|].
  apply Z.mod_pos_bound. lia.
Qed.

Lemma FlushOutbound_ok t : transport_ok t -> transport_ok (FlushOutbound clk t).
Proof.
  intros Ht. unfold FlushOutbound, now_. apply flush_batch_ok, flush_loop_ok. cbn [snd].
  set (t1 := upd_path _ t). assert (H1 : transport_ok t1) by (by apply ok_upd_path).
  destruct (_ <? _); [|done]. pose proof (StageOutbound_ok (config t1) (qs_ t1) (ok_qs _ H1)). destruct H1. by split.
Qed.

(** ** The entry points keep it *)

Lemma Flush_ok t : transport_ok t -> transport_ok (Flush clk t).
Proof.
  intros Ht. unfold Flush. destruct (is_closed_ _); [done|]. pose proof (FlushOutbound_ok t Ht).
  destruct (needs_ack_ _); [by apply SendControl_ok|done].
Qed.

Lemma CheckTimers_ok t : transport_ok t -> transport_ok (CheckTimers clk t).
Proof.
  intros Ht. unfold CheckTimers, now_. cbn zeta. set (t1 := upd_path _ t). assert (H1 : transport_ok t1) by (by apply ok_upd_path).
  destruct (_ && _); [by apply Close_ok|]. destruct (_ && _); [by apply SendControl_ok|done].
Qed.

Lemma Inbox_Push_ok d t : transport_ok t -> transport_ok (Inbox_Push clk d (max_inbox_datagrams (config t)) t).2.
Proof.
  intros Ht. unfold Inbox_Push. destruct (Z.leb_spec (max_inbox_datagrams (config t)) (zlen (inbox_ (qs_ t)))).
  - apply ok_upd_qs; [done|]. by intros [].
  - unfold now_. cbn [snd]. apply ok_upd_qs; [by apply ok_upd_path|]. intros []. split; try done. cbn in *.
    rewrite length_app. simpl. unfold config in *. cbn in *. lia.
Qed.

Lemma DrainSocket_ok incoming t : transport_ok t -> transport_ok (DrainSocket clk incoming t).
Proof.
  intros Ht. unfold DrainSocket. apply ok_upd_qs; [|by intros []].
  apply foldl_keeps; [done|]. intros a b Ha. unfold drain_one.
  apply Inbox_Push_ok. apply ok_upd_qs; [done|]. by intros [].
Qed.

Lemma ApplyPendingMigration_ok t : transport_ok t -> transport_ok (ApplyPendingMigration t).
Proof.
  intros Ht. unfold ApplyPendingMigration. destruct (pending_peer_ _), (pending_socket_ _); auto 6 with znet.
Qed.

Lemma Update_ok incoming t : transport_ok t -> transport_ok (Update clk incoming t).
Proof.
  intros Ht. unfold Update. destruct (is_closed_ (path_ t)); [done|].
  set (t1 := ApplyPendingMigration t). assert (H1 : transport_ok t1) by (by apply ApplyPendingMigration_ok).
  set (t2 := if drains_own_socket_ (setup_ t1) then _ else _).
  assert (H2 : transport_ok t2) by (unfold t2; destruct (drains_own_socket_ _); [by apply DrainSocket_ok|done]).
  pose proof (ProcessInbound_ok clk t2 H2) as H3. set (t3 := ProcessInbound clk t2) in *. destruct (is_closed_ (path_ t3)); [done|].
  pose proof (RetransmitUnacked_ok clk t3 H3) as H4. set (t4 := RetransmitUnacked clk t3) in *. destruct (is_closed_ (path_ t4)); [done|].
  unfold now_. cbn zeta. set (t5 := MaybeTailProbe _ _ _).
  assert (H5 : transport_ok t5) by (by apply MaybeTailProbe_ok, ok_upd_path).
  pose proof (CheckTimers_ok t5 H5) as H6. destruct (is_closed_ _); [done|].
  by apply PruneReassembly_ok, PruneSentPackets_ok, Flush_ok.
Qed.

Lemma Send_ok b o t : transport_ok t -> transport_ok (Send b o t).2.
Proof.
  intros Ht. unfold Send. destruct (is_closed_ _); [done|]. destruct (Z.ltb_spec (zlen (outbound_ (qs_ t)))
    (Mpsc.RoundUpPowerOfTwo (outbound_queue_capacity (config t)))); [|done].
  apply ok_upd_qs; [done|]. intros []. split; try done. cbn [set_outbound outbound_]. rewrite length_app. simpl. lia.
Qed.

Lemma Receive_ok t : transport_ok t -> transport_ok (Receive t).2.
Proof. intros Ht. unfold Receive. destruct (ready_ _); [done|]. by apply ok_upd_rx. Qed.

Lemma new_ok socket peer cfg drains conn common :
  transport_ok (ZDTTransportLayer_new clk socket peer cfg drains conn common).
Proof.
  pose proof (RoundUpPowerOfTwo_pos (outbound_queue_capacity cfg)).
  split; [split| |split]; cbn -[Mpsc.RoundUpPowerOfTwo]; try done; try lia; try apply initial_window_ok; try constructor.
Qed.

End FlushOk.

(** ** Reachable states *)

Section Reachable.
Context `{P : Platform} (clk : nat -> Z).

(** Any operation of the transport, by whichever thread. *)
Inductive transport_step : Transport -> Transport -> Prop :=
  | step_send b o t : transport_step t (Send b o t).2
  | step_datagram data t : transport_step t (OnDatagram clk data t)
  | step_receive t : transport_step t (Receive t).2
  | step_update incoming t : transport_step t (Update clk incoming t)
  | step_flush t : transport_step t (Flush clk t)
  | step_close t : transport_step t (Close t).2
  | step_migrate_peer a t : transport_step t (MigratePeer a t)
  | step_migrate_socket s t : transport_step t (MigrateSocket s t).

Inductive reachable : Transport -> Prop :=
  | reach_new socket peer cfg drains conn common :
      reachable (ZDTTransportLayer_new clk socket peer cfg drains conn common)
  | reach_step t t' : reachable t -> transport_step t t' -> reachable t'.

Lemma transport_step_ok t t' : transport_step t t' -> transport_ok t -> transport_ok t'.
Proof.
  intros Hs Ht. destruct Hs.
  - by apply Send_ok.
  - by apply Inbox_Push_ok.
  - by apply Receive_ok.
  - by apply Update_ok.
  - by apply Flush_ok.
  - by apply Close_ok.
  - unfold MigratePeer. destruct a; auto with znet.
  - unfold MigrateSocket. destruct s; auto with znet.
Qed.

Lemma reachable_ok t : reachable t -> transport_ok t.
Proof. induction 1; [apply new_ok|by eapply transport_step_ok]. Qed.

(** ** Closed transports *)

Lemma closed_step t t' :
  transport_step t t' -> is_closed_ (path_ t) = true ->
  is_closed_ (path_ t') = true /\ wire_ (path_ t') = wire_ (path_ t).
Proof.
  intros Hs Hc. destruct Hs.
  - unfold Send. by rewrite Hc.
  - unfold OnDatagram, Inbox_Push, now_. by destruct (_ <=? _).
  - unfold Receive. by destruct (ready_ _).
  - unfold Update. by rewrite Hc.
  - unfold Flush. by rewrite Hc.
  - unfold Close. by rewrite Hc.
  - unfold MigratePeer. by destruct a.
  - unfold MigrateSocket. by destruct s.
Qed.

(** [C3] The transport's invariant holds in every reachable state, whatever
    datagrams arrive: the count of datagrams in flight is exactly the number of
    sent packets that carry reliable messages, packet sequence 0 is never used,
    every entry of the retransmit table matches its key, the congestion window
    is at least two, the bytes held in reassembly are those accounted for, the
    staging count is the number of staged messages, each in the one lane of its
    channel, and the inbox and the send queue respect their limits. *)
Theorem transport_invariant (t : Transport) (Hr : reachable t) : transport_ok t.
Proof. by apply reachable_ok. Qed.

(** Closing is final: once a transport is closed, by either side, no sequence
    of operations reopens it or puts another datagram on the wire. *)
Theorem closed_is_final (t t' : Transport) (Hc : is_closed_ (path_ t) = true) (Hs : rtc transport_step t t') :
  is_closed_ (path_ t') = true /\ wire_ (path_ t') = wire_ (path_ t).
Proof.
  induction Hs as [|t t1 t2 H1 _ IH]; [done|]. destruct (closed_step t t1 H1 Hc) as [Hc1 Hw1].
  destruct (IH Hc1) as [Hc2 Hw2]. split; [done|by rewrite Hw2].
Qed.

End Reachable.

Lemma transport_invariant_witness :
  transport_ok (Loopback.update (Send (Loopback.message [1; 2; 3]) SendOptions_default (Loopback.endpoint 1 7001)).2).
Proof.
  unfold Loopback.update, Loopback.endpoint, Loopback.endpoint_with. set (t0 := ZDTTransportLayer_new _ _ _ _ _ _ _).
  set (t1 := (Send _ _ t0).2). apply (@transport_invariant Loopback.machine Loopback.clock).
  apply (reach_step _ t1).
  - apply (reach_step _ t0); [apply reach_new|apply step_send].
  - apply (step_update _ [] t1).
Defined.

Lemma closed_is_final_witness :
  let t := (@Close Loopback.machine (Loopback.endpoint 1 7001)).2 in
  let t1 := (Send (Loopback.message [1]) SendOptions_default t).2 in
  let t' := @Update Loopback.machine Loopback.clock [] t1 in
  is_closed_ (path_ t') = true /\ wire_ (path_ t') = wire_ (path_ t).
Proof.
  intros t t1 t'. apply (@closed_is_final Loopback.machine Loopback.clock).
  - reflexivity.
  - apply (rtc_l _ _ t1); [apply step_send|]. apply (rtc_l _ _ t'); [apply (step_update _ [] t1)|]. apply rtc_refl.
Defined.
