(* ===== verification/ZdtSetup.v ===== *)
(** * What a transport never changes

    The options, the negotiated connection and the timeouts a transport was
    built with are those it has after any sequence of operations. *)

From S2P Require Import Prelude Buffer ZdtWire ZdtOptions ZdtState ZdtSend ZdtAcks ZdtReceive ZdtFlush ZdtTransport ZdtInvariant.

Create Rewrite HintDb setup.

(** Splits the branches of an operation and rewrites with what its calls keep. *)
Ltac kept :=
  repeat first
    [ progress cbn [fst snd setup_ upd_path upd_tx upd_rx upd_qs set_path set_tx set_rx set_qs put_channel push_ready] in *
    | progress autorewrite with setup in *
    | match goal with
      | H : ?f = (_, ?t) |- context [setup_ ?t] => apply (f_equal (fun x => setup_ (snd x))) in H; cbn [snd] in H; rewrite <- H; clear H
      end
    | case_match ]; try done.

Section Setup.
Context `{P : Platform} (clk : nat -> Z).

Lemma now_setup t : setup_ (now_ clk t).2 = setup_ t.
Proof. done. Qed.
Hint Rewrite now_setup : setup.

Lemma SendTo_setup b t : setup_ (SendTo b t) = setup_ t.
Proof. unfold SendTo. kept. Qed.
Hint Rewrite SendTo_setup : setup.

Lemma SendBatch_setup flags batch t : setup_ (SendBatch clk flags batch t).2 = setup_ t.
Proof. unfold SendBatch, now_. kept. Qed.
Hint Rewrite SendBatch_setup : setup.

Lemma ResendReliable_setup key msg t : setup_ (ResendReliable clk key msg t).2 = setup_ t.
Proof. unfold ResendReliable. kept. Qed.
Hint Rewrite ResendReliable_setup : setup.

Lemma Shutdown_setup t : setup_ (Shutdown t) = setup_ t.
Proof. unfold Shutdown. kept. Qed.
Hint Rewrite Shutdown_setup : setup.

Lemma Close_setup t : setup_ (Close t).2 = setup_ t.
Proof. unfold Close. kept. Qed.
Hint Rewrite Close_setup : setup.

Lemma foldl_setup {A} (f : Transport -> A -> Transport) l t :
  (forall t x, setup_ (f t x) = setup_ t) -> setup_ (foldl f t l) = setup_ t.
Proof. intros H. revert t. induction l as [|x l IH]; intros t; [done|]. cbn [foldl]. by rewrite IH, H. Qed.

Lemma OnNak_setup q t : setup_ (OnNak q t) = setup_ t.
Proof. unfold OnNak. kept. Qed.
Hint Rewrite OnNak_setup : setup.

Lemma AckPacket_setup q a t : setup_ (AckPacket q a t).2 = setup_ t.
Proof. unfold AckPacket. kept. Qed.
Hint Rewrite AckPacket_setup : setup.

Lemma ack_run_setup n ack o a k t : setup_ (ack_run n ack o a k t).2 = setup_ t.
Proof. revert o k t. induction n as [|n IH]; intros; cbn [ack_run]; [done|]. case_match. rewrite IH. kept. Qed.
Hint Rewrite ack_run_setup : setup.

Lemma nak_run_setup n ack o t : setup_ (nak_run n ack o t) = setup_ t.
Proof. revert o t. induction n as [|n IH]; intros; cbn [nak_run]; [done|]. rewrite IH. kept. Qed.
Hint Rewrite nak_run_setup : setup.

Lemma ack_blocks_setup bs ack o a k t : setup_ (ack_blocks bs ack o a k t).2 = setup_ t.
Proof.
  revert o k t. induction bs as [|b bs IH]; intros; cbn [ack_blocks]; [done|]. destruct (_ <? _); [|done].
  case_match. rewrite IH. kept.
Qed.
Hint Rewrite ack_blocks_setup : setup.

Lemma RearmTailProbe_setup now t : setup_ (RearmTailProbe now t) = setup_ t.
Proof. done. Qed.
Hint Rewrite RearmTailProbe_setup : setup.

Lemma ProcessAcks_setup h a t : setup_ (ProcessAcks clk h a t) = setup_ t.
Proof. unfold ProcessAcks, now_. kept. Qed.
Hint Rewrite ProcessAcks_setup : setup.

Lemma scan_setup_kept now acc k : setup_ (scan_message clk now acc k).2 = setup_ acc.2.
Proof. unfold scan_message. destruct acc. kept. Qed.

Lemma RetransmitUnacked_setup t : setup_ (RetransmitUnacked clk t) = setup_ t.
Proof.
  assert (H : forall now l acc, setup_ (foldl (scan_message clk now) acc l).2 = setup_ acc.2).
  { intros now l. induction l as [|k l IH]; intros acc; [done|]. cbn [foldl]. by rewrite IH, scan_setup_kept. }
  unfold RetransmitUnacked, now_. set (t1 := upd_path _ t). change (setup_ t) with (setup_ t1).
  destruct (_ <? _); [done|]. specialize (H (clk (ticks_ (path_ t))) (ordered_keys (unacked_ (tx_ t1))) (mkScan TimePoint_max false false, t1)).
  destruct (foldl _ _ _) as [sc t2]. cbn [snd] in H. rewrite <- H. kept.
Qed.
Hint Rewrite RetransmitUnacked_setup : setup.

Lemma MaybeTailProbe_setup now t : setup_ (MaybeTailProbe clk now t) = setup_ t.
Proof. unfold MaybeTailProbe. kept. Qed.
Hint Rewrite MaybeTailProbe_setup : setup.

Lemma PruneSentPackets_setup t : setup_ (PruneSentPackets clk t) = setup_ t.
Proof. done. Qed.
Hint Rewrite PruneSentPackets_setup : setup.

Lemma DeliverMessage_setup r b t : setup_ (DeliverMessage r b t) = setup_ t.
Proof. unfold DeliverMessage. kept. Qed.
Hint Rewrite DeliverMessage_setup : setup.

Lemma file_fragment_setup r d k a t : setup_ (file_fragment r d k a t) = setup_ t.
Proof. unfold file_fragment. kept. Qed.
Hint Rewrite file_fragment_setup : setup.

Lemma OnRecord_setup r d t : setup_ (OnRecord clk r d t).2 = setup_ t.
Proof. unfold OnRecord, OnDataFragment, now_. kept. Qed.
Hint Rewrite OnRecord_setup : setup.

Lemma PruneReassembly_setup t : setup_ (PruneReassembly clk t) = setup_ t.
Proof. done. Qed.
Hint Rewrite PruneReassembly_setup : setup.

Lemma log_packet_setup q t p : setup_ (log_packet q t p) = setup_ t.
Proof. unfold log_packet. kept. Qed.

Lemma flush_batch_setup acc : setup_ (flush_batch clk acc).2 = setup_ acc.2.
Proof.
  unfold flush_batch. destruct acc as [pk t]. destruct (pk_batch pk); [done|]. case_match. cbn [snd].
  rewrite foldl_setup by (intros; apply log_packet_setup). kept.
Qed.
Hint Rewrite flush_batch_setup : setup.

Lemma take_seq_setup r c t : setup_ (take_seq r c t).2 = setup_ t.
Proof. unfold take_seq. kept. Qed.
Hint Rewrite take_seq_setup : setup.

Lemma send_fragment_setup mtu now p f c m tot fc r t i : setup_ (send_fragment clk mtu now p f c m tot fc r t i) = setup_ t.
Proof. unfold send_fragment, TrackReliable. kept. Qed.

Lemma pack_message_setup mtu now acc q c : setup_ (pack_message clk mtu now acc q c).2 = setup_ acc.2.
Proof.
  unfold pack_message, TrackReliable. destruct acc as [pk t].
  pose proof (take_seq_setup (GetOr ReliableKey true (q_options q)) c t) as H. destruct (take_seq _ c t) as [m t1]. cbn [snd] in H |- *.
  rewrite <- H. destruct (_ <=? _).
  - destruct (_ || _).
    + pose proof (flush_batch_setup (pk, t1)) as Hf. destruct (flush_batch clk (pk, t1)) as [pk2 t2].
      cbn [snd] in *. rewrite <- Hf. kept.
    + kept.
  - pose proof (flush_batch_setup (pk, t1)) as Hf. destruct (flush_batch clk (pk, t1)) as [pk2 t2]. cbn [snd] in Hf.
    rewrite <- Hf. destruct (255 <? _); [done|]. cbn [snd]. apply foldl_setup. intros. apply send_fragment_setup.
Qed.

Lemma lane_pass_setup mtu now acc : setup_ (lane_pass clk mtu now acc).2.2 = setup_ acc.2.
Proof.
  unfold lane_pass. generalize (seq 0 (length (staged_ (qs_ acc.2)))) as l. generalize false as b.
  assert (Hs : forall a i, setup_ (lane_step clk mtu now a i).2.2 = setup_ a.2.2).
  { intros [b [pk t] ] i. unfold lane_step. repeat case_match; try done. cbn [snd]. by rewrite pack_message_setup. }
  intros b l. change (setup_ acc.2) with (setup_ (b, acc).2.2). generalize (b, acc) as a.
  induction l as [|i l IH]; intros a; [done|]. cbn [foldl]. by rewrite IH, Hs.
Qed.

Lemma flush_loop_setup fuel mtu now acc : setup_ (flush_loop clk fuel mtu now acc).2 = setup_ acc.2.
Proof.
  revert acc. induction fuel as [|fuel IH]; intros [pk t]; cbn [flush_loop]; [done|].
  match goal with |- context [let '(stop, t) := ?x in _] => set (st := x) end.
  assert (Hst : setup_ st.2 = setup_ t) by (unfold st; kept). destruct st as [stop t1]. cbn [snd] in *. destruct stop; [done|].
  pose proof (lane_pass_setup mtu now (pk, t1)) as H. destruct (lane_pass clk mtu now (pk, t1)) as [any [pk2 t2] ].
  cbn [snd] in H. destruct any; cbn [negb snd]; [rewrite IH; cbn [snd]; kept; congruence|congruence].
Qed.

Lemma FlushOutbound_setup t : setup_ (FlushOutbound clk t) = setup_ t.
Proof. unfold FlushOutbound, now_. cbv zeta. rewrite flush_batch_setup, flush_loop_setup. cbn [snd]. kept. Qed.
Hint Rewrite FlushOutbound_setup : setup.

Lemma SendControl_setup f t : setup_ (SendControl clk f t) = setup_ t.
Proof. unfold SendControl. kept. Qed.
Hint Rewrite SendControl_setup : setup.

Lemma Inbox_Push_setup d l t : setup_ (Inbox_Push clk d l t).2 = setup_ t.
Proof. unfold Inbox_Push, now_. kept. Qed.
Hint Rewrite Inbox_Push_setup : setup.

Lemma DrainSocket_setup inc t : setup_ (DrainSocket clk inc t) = setup_ t.
Proof.
  unfold DrainSocket. cbn [setup_ upd_qs set_qs]. apply foldl_setup. intros. unfold drain_one. kept.
Qed.
Hint Rewrite DrainSocket_setup : setup.

Lemma process_records_setup fuel b acc t : setup_ (process_records clk fuel b acc t).2 = setup_ t.
Proof.
  revert b acc t. induction fuel as [|fuel IH]; intros; cbn [process_records]; [done|].
  destruct (_ <? _); [|done]. destruct (ReadZDTRecord _ _) as [ [ok record] b1]. destruct ok; cbn [negb]; [|done].
  destruct (load _ _ _) as [payload b2]. pose proof (OnRecord_setup record payload (upd_rx (set_needs_ack true) t)) as H.
  destruct (OnRecord _ _ _ _) as [taken t2]. cbn [snd] in H. destruct (is_closed_ _); [done|]. by rewrite IH.
Qed.

Lemma process_datagram_setup i t : setup_ (process_datagram clk i t).2 = setup_ t.
Proof.
  unfold process_datagram. destruct (ReadZDTHeader _ _) as [ [ok h] b]. destruct ok; cbn [negb]; [|done].
  set (t1 := if negb (h_packet_seq h =? 0) then ProcessAcks clk h (arrival i) (upd_rx (set_last_recv (arrival i)) t)
             else upd_rx (set_last_recv (arrival i)) t). assert (H1 : setup_ t1 = setup_ t) by (unfold t1; kept).
  destruct (has_flag _ _); [kept; congruence|]. destruct (has_flag _ _); [kept; congruence|].
  pose proof (process_records_setup (Z.to_nat (readable_bytes b)) b true t1) as H.
  destruct (process_records _ _ _ _ _) as [acc t2]. cbn [snd] in *. kept; congruence.
Qed.

Lemma ProcessInbound_setup t : setup_ (ProcessInbound clk t) = setup_ t.
Proof.
  unfold ProcessInbound. change (setup_ t) with (setup_ (upd_qs (set_inbox []) t)). generalize (upd_qs (set_inbox []) t) as t1.
  induction (inbox_ (qs_ t)) as [|i l IH]; intros t1; cbn [process_all]; [done|].
  pose proof (process_datagram_setup i t1) as H. destruct (process_datagram clk i t1) as [go t2]. cbn [snd] in H.
  destruct go; [by rewrite IH|done].
Qed.
Hint Rewrite ProcessInbound_setup : setup.

Lemma CheckTimers_setup t : setup_ (CheckTimers clk t) = setup_ t.
Proof. unfold CheckTimers, now_. kept. Qed.
Hint Rewrite CheckTimers_setup : setup.

Lemma Flush_setup t : setup_ (Flush clk t) = setup_ t.
Proof. unfold Flush. kept. Qed.
Hint Rewrite Flush_setup : setup.

Lemma ApplyPendingMigration_setup t : setup_ (ApplyPendingMigration t) = setup_ t.
Proof. unfold ApplyPendingMigration. kept. Qed.
Hint Rewrite ApplyPendingMigration_setup : setup.

Lemma Update_setup inc t : setup_ (Update clk inc t) = setup_ t.
Proof.
  unfold Update, now_. destruct (is_closed_ _); [done|].
  set (t1 := if drains_own_socket_ (setup_ (ApplyPendingMigration t)) then DrainSocket clk inc (ApplyPendingMigration t)
             else ApplyPendingMigration t). assert (H1 : setup_ t1 = setup_ t) by (unfold t1; kept).
  rewrite <- H1. clearbody t1. kept.
Qed.

(** No operation of the transport changes what it was built with. *)
Lemma transport_step_setup t t' : transport_step clk t t' -> setup_ t' = setup_ t.
Proof.
  destruct 1.
  - unfold Send. kept.
  - apply Inbox_Push_setup.
  - unfold Receive. kept.
  - apply Update_setup.
  - apply Flush_setup.
  - apply Close_setup.
  - unfold MigratePeer. kept.
  - unfold MigrateSocket. kept.
Qed.

End Setup.
