(* ===== verification/ZdtServerTheorems.v ===== *)
(** * What the ZDT server promises

    The invariant of the server's tables over any interleaving of its receive
    thread, its accepting thread and the sessions it has handed out; that state is
    allocated only for a source that proved its address; that what the server
    sends to an unproven source is bounded; and that a route moves only to a
    proven path. *)

From S2P Require Import Prelude Buffer BufferSpec BufferCodecs ZdtWire ZdtWireSpec ZdtOffline InetAddr InetAddrTheorems Admission ZdtCookie ZdtOptions ZdtState ZdtSend ZdtTransport ZdtInvariant ZdtSetup ZdtServer ZdtClient ZdtMessages.

(** Everything but the tables of the handshake: the admission and rate tables,
    the secret, the clock and the datagrams sent. *)
Definition core (s : ServerBackend) :=
  (bind_address_ s, srv_socket_ s, srv_config_ s, child_common_ s, is_bind_ s, is_listening_ s, routes_ s,
   pending_accept_ s, server_guid_ s, sessions_ s, next_session_ s).

Lemma length_load off n b : 0 <= n -> length (load off n b).1 = Z.to_nat n.
Proof.
  intros Hn. unfold load. destruct (data_ b) as [d|].
  - destruct (Z.eqb_spec n 0) as [->|]; cbn [orb]; [done|].
    destruct (Z.leb_spec 0 off); cbn [andb]; [|apply repeat_length].
    destruct (Z.leb_spec (off + n) (zlen d)); [|apply repeat_length].
    pose proof (length_slice off n d). cbn [fst]. lia.
  - destruct (Z.eqb_spec n 0) as [->|]; [done|apply repeat_length].
Qed.

Section Server.
Context `{P : Platform} `{!AmplePlatform P} `{I : Inet} `{C : CookieCrypto} `{!CookieCryptoLaws C}.
Context (clk : nat -> Z) (tclk : nat -> nat -> Z) (walk : gmap (list Z) Route -> list (list Z * Route)).
Hypothesis walk_perm : forall m, walk m ≡ₚ map_to_list m.

(** ** What one datagram can do *)

Lemma length_ReadRequest2 b : length (q_cookie (ReadRequest2 b)) = 16%nat.
Proof.
  unfold ReadRequest2. assert (H : length (Read 1 kZDTCookieLen (repeat 0 16) b).1 = 16%nat).
  { unfold Read. destruct (_ <? _); [done|]. destruct (negb _); [done|].
    change (u64 (1 * kZDTCookieLen)) with 16. pose proof (length_load (read_cursor_ b) 16 b ltac:(lia)) as H.
    destruct (load (read_cursor_ b) 16 b). done. }
  destruct (Read 1 kZDTCookieLen (repeat 0 16) b) as [ck b1]. cbn [fst] in H.
  destruct (ReadInt 4 b1) as [e b2], (ReadInetAddress b2) as [a b3], (ReadInt 2 b3) as [m b4], (ReadInt 8 b4) as [g b5],
    (ReadInt 1 b5) as [c b6]. done.
Qed.

(** A source has a live session. *)
Definition live_route (from : InetAddress) (s : ServerBackend) : Prop :=
  exists r, routes_ s !! readable from = Some r /\ is_Some (sessions_ s !! r_session r).

Definition has_room (s : ServerBackend) : Prop :=
  0 < max_connections (srv_config_ s) -> map_size (routes_ s) < max_connections (srv_config_ s).

(** The three things a datagram that is not routed can do to the tables; [q] is
    what it holds when read as a Request2. *)
Inductive offline_effect (q : Request2) (from : InetAddress) (s s' : ServerBackend) : Prop :=
  | effect_none : core s' = core s -> offline_effect q from s s'
  | effect_accept s0 :
      core s0 = core s -> Screen from (admission_ s) = Allow ->
      q_cookie q = Compute (readable from) (q_epoch q) (cookie_secret_ s) ->
      ~ live_route from s -> has_room s ->
      core s' = core (accept_session tclk from q s0) -> offline_effect q from s s'
  | effect_migrate response s0 :
      core s0 = core s -> Screen from (admission_ s) = Allow ->
      VerifyPathResponse (cookie_secret_ s) (readable from) response = true ->
      s' = migrate_first (walk (routes_ s)) (pm_cid response) from s0 -> offline_effect q from s s'.

(** The Request2 a whole datagram holds, behind its header and the length byte. *)
Definition request2_of (d : Buffer) : Request2 := ReadRequest2 (ReadInt 1 (ReadOfflineHeader d).2).2.

(** What is sent in answer: at most one datagram, to its source, of 41 bytes at most. *)
Definition small_answer (from : InetAddress) (s s' : ServerBackend) : Prop :=
  exists l, sent_ s' = sent_ s ++ l /\ (length l <= 1)%nat /\ Forall (fun x => x.1 = from /\ zlen x.2 <= 41) l.

Lemma no_answer from s s' : sent_ s' = sent_ s -> small_answer from s s'.
Proof. intros E. exists []. rewrite app_nil_r. split; [done|]. split; [simpl; lia|constructor]. Qed.

Lemma one_answer from s s' out : sent_ s' = sent_ s ++ [(from, out)] -> zlen out <= 41 -> small_answer from s s'.
Proof. intros E Hz. exists [(from, out)]. split; [done|]. split; [simpl; lia|]. by repeat constructor. Qed.

Lemma AllowHandshake_frame key s :
  core (AllowHandshake clk key s).2 = core s /\ cookie_secret_ (AllowHandshake clk key s).2 = cookie_secret_ s /\
  admission_ (AllowHandshake clk key s).2 = admission_ s /\ sent_ (AllowHandshake clk key s).2 = sent_ s.
Proof. done. Qed.

Lemma Compute_bytes key epoch s : bytes_ok (Compute key epoch s).
Proof.
  assert (H : forall secret, bytes_ok (ComputeCookie HMAC secret key epoch)).
  { intros secret. unfold ComputeCookie. apply bytes_ok_app. split; [apply Forall_take, HMAC_bytes|].
    apply bytes_ok_repeat. unfold is_byte. lia. }
  unfold Compute. destruct (_ && _); apply H.
Qed.

Lemma HandleRequest1_effect b from n s :
  core (HandleRequest1 clk b from n s) = core s /\ cookie_secret_ (HandleRequest1 clk b from n s) = cookie_secret_ s /\
  small_answer from s (HandleRequest1 clk b from n s).
Proof.
  unfold HandleRequest1, srv_now. cbn [srv_ticks_ set_srv_ticks]. cbv zeta beta iota.
  destruct (Admit _ _ _) as [v adm]. destruct (bool_decide _); cbn [negb].
  2: { split; [done|]. split; [done|]. by apply no_answer. }
  destruct (ReadInt 1 b) as [version b1]. destruct (negb _).
  - split; [done|]. split; [done|]. eapply one_answer; [done|].
    pose proof (proj2 (refusal_bytes (set_admission adm (set_srv_ticks (S (srv_ticks_ s)) s)))). lia.
  - split; [done|]. split; [done|]. eapply one_answer; [done|].
    match goal with |- zlen (datagram_bytes (Reply1 ?m ?c ?s0)) <= _ =>
      destruct (Reply1_bytes m c s0) as (-> & _ & ->) end; [apply Compute_bytes|apply length_Compute|lia].
Qed.

Lemma HandleRequest2_effect b from s :
  address_ok from -> Screen from (admission_ s) = Allow ->
  offline_effect (ReadRequest2 (ReadInt 1 b).2) from s (HandleRequest2 tclk b from s) /\ small_answer from s (HandleRequest2 tclk b from s) /\
  cookie_secret_ (HandleRequest2 tclk b from s) = cookie_secret_ s.
Proof.
  intros Ha Hs. unfold HandleRequest2. destruct (ReadInt 1 b) as [cookie_len b1]. cbn [snd].
  destruct (negb _); [split; [by apply effect_none|split; [by apply no_answer|done]]|].
  rewrite ConstTimeEqual_Compute by apply length_ReadRequest2.
  destruct (bool_decide_reflect (q_cookie (ReadRequest2 b1) = Compute (readable from) (q_epoch (ReadRequest2 b1)) (cookie_secret_ s)))
    as [Hc|_]; cbn [negb].
  2: { split; [by apply effect_none|split; [by apply no_answer|done]]. }
  set (live := match routes_ s !! readable from with Some _ => _ | None => _ end).
  assert (Hlive : live = true <-> live_route from s).
  { unfold live, live_route, expired. destruct (routes_ s !! readable from) as [r|].
    - rewrite negb_true_iff, bool_decide_eq_false. split.
      + intros Hn. exists r. split; [done|]. by apply not_eq_None_Some.
      + intros (r' & [= <-] & Hn). by apply not_eq_None_Some.
    - split; [done|]. by intros (r & ? & _). }
  pose proof (Reply2_bytes from (q_mtu (ReadRequest2 b1)) s Ha) as (Eb & _ & Hz).
  destruct live.
  { split; [by apply effect_none|]. split; [|done]. eapply one_answer; [done|]. rewrite Eb. lia. }
  destruct ((0 <? _) && _) eqn:Efull.
  { split; [by apply effect_none|]. split; [|done]. eapply one_answer; [done|].
    pose proof (proj1 (refusal_bytes s)). lia. }
  split; [|split; [eapply one_answer; [done|rewrite Eb; lia]|done]].
  apply (effect_accept _ from s _ s); try done.
  - intros Hl. by apply Hlive in Hl.
  - intros Hm. apply andb_false_iff in Efull as [E|E]; bsplit; lia.
Qed.

Lemma migrate_first_frame entries cid from s :
  cookie_secret_ (migrate_first entries cid from s) = cookie_secret_ s /\ sent_ (migrate_first entries cid from s) = sent_ s.
Proof.
  induction entries as [|[key route] rest IH]; cbn [migrate_first]; [done|].
  destruct (negb _); [done|]. destruct (sessions_ s !! _); [|done]. by destruct (bool_decide _).
Qed.

Lemma HandleOffline_effect b from n s :
  address_ok from ->
  offline_effect (request2_of b) from s (HandleOffline clk tclk walk b from n s) /\
  small_answer from s (HandleOffline clk tclk walk b from n s) /\
  cookie_secret_ (HandleOffline clk tclk walk b from n s) = cookie_secret_ s.
Proof.
  intros Ha. unfold HandleOffline.
  assert (Hquiet : forall s', core s' = core s -> sent_ s' = sent_ s -> cookie_secret_ s' = cookie_secret_ s ->
    offline_effect (request2_of b) from s s' /\ small_answer from s s' /\ cookie_secret_ s' = cookie_secret_ s).
  { intros s' H1 H2 H3. split; [by apply effect_none|]. split; [by apply no_answer|done]. }
  unfold request2_of in *. destruct (ReadOfflineHeader b) as [ [id|] b1]; [|by apply Hquiet]. cbn [snd] in *.
  destruct (bool_decide_reflect (Screen from (admission_ s) = Allow)) as [Hs|_]; cbn [negb]; [|by apply Hquiet].
  destruct (AllowHandshake_frame (readable from) s) as (Hcore & Hsec & Hadm & Hsent).
  destruct (AllowHandshake clk (readable from) s) as [allowed s1]. cbn [snd] in *.
  destruct allowed; cbn [negb]; [|by apply Hquiet].
  assert (Hlift : forall q s', offline_effect q from s1 s' -> offline_effect q from s s').
  { intros q s' [E|s0 E1 E2 E3 E4 E5 E6|resp s0 E1 E2 E3 E4].
    - apply effect_none. congruence.
    - apply (effect_accept q from s s' s0); try congruence.
      + unfold live_route in *. unfold core in Hcore. injection Hcore as ? ? ? ? ? ? Hr ? ? Hse ?. by rewrite Hr, Hse in E4.
      + unfold has_room in *. unfold core in Hcore. injection Hcore as ? ? Hcf ? ? ? Hr ? ? ? ?. by rewrite Hr, Hcf in E5.
    - apply (effect_migrate q from s s' resp s0); try congruence.
      unfold core in Hcore. injection Hcore as ? ? ? ? ? ? Hr ? ? ? ?. by rewrite <- Hr. }
  assert (Hsmall : forall s', small_answer from s1 s' -> small_answer from s s').
  { intros s' (l & E & Hl). exists l. by rewrite <- Hsent. }
  destruct (id =? _).
  { destruct (enable_connection_migration _); [|by apply Hquiet].
    destruct (ReadPathMessage b1 _) as [ [ [|] response] b2]; [|by apply Hquiet].
    unfold CompletePathMigration. destruct (VerifyPathResponse _ _ _) eqn:Ev; cbn [negb]; [|by apply Hquiet].
    destruct (migrate_first_frame (walk (routes_ s1)) (pm_cid response) from s1) as [F1 F2].
    split; [|split; [apply no_answer; congruence|congruence]]. apply Hlift.
    apply (effect_migrate _ from s1 _ response s1); try done. congruence. }
  destruct (id =? _).
  { destruct (HandleRequest1_effect b1 from n s1) as (F1 & F2 & F3).
    split; [apply effect_none; congruence|]. split; [by apply Hsmall|congruence]. }
  destruct (id =? _); [|by apply Hquiet].
  destruct (HandleRequest2_effect b1 from s1 Ha) as (F1 & F2 & F3); [congruence|].
  split; [by apply Hlift|]. split; [by apply Hsmall|congruence].
Qed.

(** The state once the secret had its chance to rotate. *)
Definition rotated_state (s : ServerBackend) : ServerBackend :=
  set_secret (MaybeRotate (cookie_secret_rotation (srv_config_ s) * 1000000) (clk (srv_ticks_ s)) (cookie_secret_ s))
    (set_srv_ticks (S (srv_ticks_ s)) s).

Lemma challenge_answer cid from s :
  core (ChallengeNewPath walk cid from s) = core s /\
  cookie_secret_ (ChallengeNewPath walk cid from s) = cookie_secret_ s /\
  small_answer from s (ChallengeNewPath walk cid from s).
Proof.
  unfold ChallengeNewPath. destruct (negb _); [split; [done|split; [done|by apply no_answer]]|].
  split; [done|]. split; [done|]. eapply one_answer; [done|].
  rewrite challenge_bytes; [lia|apply Compute_bytes|apply length_Compute].
Qed.

Lemma RouteDatagram_effect d from s :
  address_ok from ->
  (exists r, routes_ s !! readable from = Some r /\
     RouteDatagram clk tclk walk d from s =
     set_sessions (alter (fun t => (Inbox_Push (tclk (r_session r)) (Buffer_from (datagram_bytes d) BigEndian)
                                      (max_inbox_datagrams (srv_config_ s)) t).2) (r_session r) (sessions_ s))
       (rotated_state s)) \/
  offline_effect (request2_of d) from (rotated_state s) (RouteDatagram clk tclk walk d from s) /\
  small_answer from s (RouteDatagram clk tclk walk d from s) /\
  cookie_secret_ (RouteDatagram clk tclk walk d from s) = cookie_secret_ (rotated_state s).
Proof.
  intros Ha. unfold RouteDatagram, srv_now. cbv beta iota zeta. fold (rotated_state s).
  change (srv_config_ (set_srv_ticks (S (srv_ticks_ s)) s)) with (srv_config_ s).
  change (cookie_secret_ (set_srv_ticks (S (srv_ticks_ s)) s)) with (cookie_secret_ s). fold (rotated_state s).
  change (routes_ (rotated_state s)) with (routes_ s). change (sessions_ (rotated_state s)) with (sessions_ s).
  change (srv_config_ (rotated_state s)) with (srv_config_ s).
  destruct (has_flag _ _).
  - destruct (routes_ s !! readable from) as [r|]; [left; by exists r|]. right.
    assert (Hq : offline_effect (request2_of d) from (rotated_state s) (rotated_state s) /\ small_answer from s (rotated_state s)).
    { split; [by apply effect_none|by apply no_answer]. }
    destruct (enable_connection_migration _); [|by destruct Hq].
    destruct (PeekCid _) as [cid|]; [|by destruct Hq].
    destruct (challenge_answer cid from (rotated_state s)) as (E1 & E2 & E3).
    split; [by apply effect_none|]. by split.
  - right. destruct (HandleOffline_effect d from (zlen (datagram_bytes d)) (rotated_state s) Ha) as (E1 & E2 & E3). done.
Qed.

(** ** The invariant *)

Record server_ok (s : ServerBackend) : Prop := {
  sv_secret : secret_ok (cookie_secret_ s);
  sv_keys : forall k r, routes_ s !! k = Some r -> k = readable (r_peer r);
  sv_fresh : forall id, is_Some (sessions_ s !! id) -> (id < next_session_ s)%nat;
  sv_route_fresh : forall k r, routes_ s !! k = Some r -> (r_session r < next_session_ s)%nat;
  sv_inj : forall k1 k2 r1 r2, routes_ s !! k1 = Some r1 -> routes_ s !! k2 = Some r2 ->
    r_session r1 = r_session r2 -> k1 = k2;
  sv_pending : Forall (fun id => is_Some (sessions_ s !! id)) (pending_accept_ s);
  sv_full : 0 < max_connections (srv_config_ s) -> map_size (routes_ s) <= max_connections (srv_config_ s);
  sv_sessions : forall id t, sessions_ s !! id = Some t -> reachable (tclk id) t /\ config t = srv_config_ s;
  sv_conn : forall k r t, routes_ s !! k = Some r -> sessions_ s !! r_session r = Some t ->
    local_guid (connection t) = server_guid_ s /\ remote_guid (connection t) = r_remote_guid r;
  sv_idle : is_bind_ s = false -> routes_ s = ∅ /\ is_listening_ s = false
}.

(** The operations of the server's threads, and what happens to its sessions:
    they run their transports, and one that nobody holds any more is destroyed. *)
Inductive server_step : ServerBackend -> ServerBackend -> Prop :=
  | step_route d from s : is_listening_ s = true -> address_ok from ->
      server_step s (RouteDatagram clk tclk walk d from s)
  | step_accept s : server_step s (Accept s).2
  | step_bind opened bound local guid s : server_step s (Bind opened bound local guid s).2
  | step_listen s : server_step s (Listen s).2
  | step_close s : server_step s (Close s).2
  | step_session id t t' s : sessions_ s !! id = Some t -> transport_step (tclk id) t t' ->
      server_step s (set_sessions (<[id := t']> (sessions_ s)) s)
  | step_destroy id s : id ∉ pending_accept_ s -> server_step s (set_sessions (delete id (sessions_ s)) s).

Inductive server_reachable (address : option InetAddress) (cfg : ZDTOptions) (common : CommonOptions)
    (options : ServerOptions) : ServerBackend -> Prop :=
  | server_new : server_reachable address cfg common options (ZDTServerBackend_new clk address cfg common options)
  | server_reach s s' : server_reachable address cfg common options s -> server_step s s' ->
      server_reachable address cfg common options s'.

Lemma core_inj s s' : core s' = core s ->
  srv_config_ s' = srv_config_ s /\ is_bind_ s' = is_bind_ s /\ is_listening_ s' = is_listening_ s /\
  routes_ s' = routes_ s /\ pending_accept_ s' = pending_accept_ s /\ server_guid_ s' = server_guid_ s /\
  sessions_ s' = sessions_ s /\ next_session_ s' = next_session_ s.
Proof. unfold core. intros E. injection E. intros. repeat split; done. Qed.

Lemma server_ok_core s s' :
  core s' = core s -> secret_ok (cookie_secret_ s') -> server_ok s -> server_ok s'.
Proof.
  intros (E1 & E2 & E3 & E4 & E5 & E6 & E7 & E8)%core_inj Hs []. split; rewrite ?E1, ?E2, ?E3, ?E4, ?E5, ?E6, ?E7, ?E8; done.
Qed.

Lemma rotated_ok s : server_ok s -> server_ok (rotated_state s).
Proof. intros H. apply (server_ok_core s); [done|apply MaybeRotate_ok, H|done]. Qed.

(** A session's transport takes a step. *)
Lemma server_ok_session id t t' s :
  sessions_ s !! id = Some t -> transport_step (tclk id) t t' -> server_ok s ->
  server_ok (set_sessions (<[id := t']> (sessions_ s)) s).
Proof.
  intros Ht Hst H. assert (Hset := transport_step_setup _ _ _ Hst).
  assert (Hlook : forall j u, <[id := t']> (sessions_ s) !! j = Some u -> exists u0, sessions_ s !! j = Some u0 /\
    setup_ u = setup_ u0 /\ (j = id /\ u = t' \/ u = u0)).
  { intros j u. rewrite lookup_insert_Some. intros [ [<- <-]|[_ Hu] ]; [|by exists u; auto].
    exists t. auto. }
  destruct H. split; cbn; try done.
  - intros j [u Hu]. destruct (Hlook j u Hu) as (u0 & Hu0 & _). by apply sv_fresh0.
  - eapply Forall_impl; [exact sv_pending0|]. intros j Hj. rewrite lookup_insert_is_Some. destruct (decide (id = j)); auto.
  - intros j u Hu. destruct (Hlook j u Hu) as (u0 & Hu0 & Es & [ [-> ->] | ->]); [|by apply sv_sessions0].
    destruct (sv_sessions0 id t Ht) as [Hr Hc]. split; [by eapply reach_step|]. unfold config in *. congruence.
  - intros k r u Hr Hu. destruct (Hlook _ u Hu) as (u0 & Hu0 & Es & _).
    unfold connection in *. rewrite Es. by apply (sv_conn0 k r u0).
Qed.

Lemma server_ok_accept from q s s0 s' :
  core s0 = core s -> has_room s -> core s' = core (accept_session tclk from q s0) -> cookie_secret_ s' = cookie_secret_ s ->
  is_bind_ s = true -> server_ok s -> server_ok s'.
Proof.
  intros E0 Hroom E' Esec Hbind H. assert (H0 : core s' = core (accept_session tclk from q s)).
  { rewrite E'. unfold core, accept_session, accepted_connection in *. cbn. injection E0 as -> -> -> -> -> -> -> -> -> -> ->. done. }
  apply (server_ok_core (accept_session tclk from q s)); [done|rewrite Esec; apply H|].
  clear E0 E' H0 Esec s0 s'. unfold accept_session.
  destruct H as [H1 H2 H3 H4 H5 H6 H7 H8 H9 H10]. set (id := next_session_ s).
  assert (Hid : sessions_ s !! id = None).
  { destruct (sessions_ s !! id) as [t|] eqn:E; [|done]. exfalso. specialize (H3 id). rewrite E in H3.
    specialize (H3 ltac:(by eexists)). unfold id in H3. lia. }
  split; cbn; try done.
  - intros k r. rewrite lookup_insert_Some. intros [ [<- <-]|[_ Hr] ]; [done|by apply H2].
  - intros j. rewrite lookup_insert_is_Some. intros [<-|[_ Hj] ]; [lia|]. specialize (H3 j Hj). lia.
  - intros k r. rewrite lookup_insert_Some. intros [ [_ <-]|[_ Hr] ]; cbn; [lia|]. specialize (H4 k r Hr). lia.
  - intros k1 k2 r1 r2. rewrite !lookup_insert_Some. intros [ [<- <-]|[N1 R1] ] [ [<- <-]|[N2 R2] ]; cbn; try done.
    + intros E. specialize (H4 _ _ R2). unfold id in E. lia.
    + intros E. specialize (H4 _ _ R1). unfold id in E. lia.
    + by apply H5.
  - apply Forall_app. split; [|repeat constructor; by rewrite lookup_insert_eq].
    eapply Forall_impl; [exact H6|]. intros j Hj. rewrite lookup_insert_is_Some. destruct (decide (id = j)); auto.
  - intros Hm. specialize (Hroom Hm). unfold map_size in *. rewrite map_size_insert. case_match; unfold Datatypes.id; lia.
  - intros j t. rewrite lookup_insert_Some. intros [ [<- <-]|[_ Ht] ]; [|by apply H8]. split; [constructor|done].
  - intros k r t. rewrite lookup_insert_Some. intros [ [<- <-]|[N Hr] ]; cbn.
    + rewrite lookup_insert_eq. by intros [= <-].
    + rewrite lookup_insert_ne by (specialize (H4 _ _ Hr); unfold id; lia). by apply (H9 k).
  - intros E. congruence.
Qed.

(** What a completed migration did: nothing, or one route moved to [from]. *)
Lemma migrate_first_effect entries cid from s :
  (forall e, e ∈ entries -> routes_ s !! e.1 = Some e.2) ->
  let s' := migrate_first entries cid from s in
  s' = s \/
  exists k r t, routes_ s !! k = Some r /\ r_remote_guid r = cid /\ sessions_ s !! r_session r = Some t /\ k <> readable from /\
    s' = set_routes (<[readable from := mkRoute (r_session r) from (r_remote_guid r)]> (delete k (routes_ s)))
           (set_sessions (<[r_session r := MigratePeer (Some from) t]> (sessions_ s)) s).
Proof.
  induction entries as [|[k r] rest IH]; intros He; cbn [migrate_first]; [by left|].
  destruct (Z.eqb_spec (r_remote_guid r) cid) as [Ec|]; cbn [negb].
  2: { apply IH. intros e Hin. apply He. by right. }
  destruct (sessions_ s !! r_session r) as [t|] eqn:Et; [|by left].
  destruct (bool_decide_reflect (k = readable from)) as [|Hk]; [by left|]. right. exists k, r, t.
  split; [apply (He (k, r)); by left|]. done.
Qed.

Lemma walk_elem e s : e ∈ walk (routes_ s) -> routes_ s !! e.1 = Some e.2.
Proof. rewrite walk_perm. destruct e as [k r]. by rewrite elem_of_map_to_list. Qed.

Lemma server_ok_migrate k r t from s :
  routes_ s !! k = Some r -> sessions_ s !! r_session r = Some t -> server_ok s ->
  server_ok (set_routes (<[readable from := mkRoute (r_session r) from (r_remote_guid r)]> (delete k (routes_ s)))
               (set_sessions (<[r_session r := MigratePeer (Some from) t]> (sessions_ s)) s)).
Proof.
  intros Hr Ht H. apply (server_ok_session (r_session r) t (MigratePeer (Some from) t)) in H; [|done|constructor].
  set (s1 := set_sessions _ s) in *. assert (Hr1 : routes_ s1 !! k = Some r) by done.
  change (delete k (routes_ s)) with (delete k (routes_ s1)). clearbody s1. clear Ht Hr.
  destruct H as [H1 H2 H3 H4 H5 H6 H7 H8 H9 H10]. split; cbn; try done.
  - intros k' r'. rewrite lookup_insert_Some, lookup_delete_Some. intros [ [<- <-]|[_ [_ E] ] ]; [done|by apply H2].
  - intros k' r'. rewrite lookup_insert_Some, lookup_delete_Some. intros [ [_ <-]|[_ [_ E] ] ]; [by apply (H4 k r)|by apply (H4 k' r')].
  - intros k1 k2 r1 r2. rewrite !lookup_insert_Some, !lookup_delete_Some.
    intros [ [<- <-]|[N1 [D1 R1] ] ] [ [<- <-]|[N2 [D2 R2] ] ]; cbn; try done.
    + intros E. destruct D2. by apply (H5 k k2 r r2).
    + intros E. destruct D1. by apply (H5 k k1 r r1).
    + by apply H5.
  - intros Hm. specialize (H7 Hm). unfold map_size in *.
    assert (Hd : size (delete k (routes_ s1)) = (size (routes_ s1) - 1)%nat) by (rewrite map_size_delete, Hr1; cbn; lia).
    assert (0 < size (routes_ s1))%nat. { apply Nat.neq_0_lt_0. intros E. apply map_size_empty_inv in E. rewrite E in Hr1. by rewrite lookup_empty in Hr1. }
    rewrite map_size_insert. case_match; unfold Datatypes.id; lia.
  - intros k' r' t'. rewrite lookup_insert_Some, lookup_delete_Some. intros [ [<- <-]|[_ [_ E] ] ]; cbn; [by apply (H9 k r t')|by apply (H9 k')].
  - intros E. destruct (H10 E) as [E1 _]. rewrite E1, lookup_empty in Hr1. done.
Qed.

Lemma RouteDatagram_ok d from s :
  address_ok from -> is_listening_ s = true -> server_ok s -> server_ok (RouteDatagram clk tclk walk d from s).
Proof.
  intros Ha Hl H. assert (Hb : is_bind_ s = true).
  { destruct (is_bind_ s) eqn:E; [done|]. destruct (sv_idle s H E). congruence. }
  pose proof (rotated_ok s H) as Hr.
  destruct (RouteDatagram_effect d from s Ha) as [(r & Er & ->)|(He & _ & Hsec)].
  - destruct (sessions_ s !! r_session r) as [t|] eqn:Et.
    + rewrite (alter_insert_Some _ _ _ _ Et) || rewrite (alter_insert _ _ _ _ Et) || idtac.
      replace (alter _ (r_session r) (sessions_ s)) with
        (<[r_session r := OnDatagram (tclk (r_session r)) (datagram_bytes d) t]> (sessions_ (rotated_state s))).
      { apply (server_ok_session _ t); [done|constructor|done]. }
      apply map_eq. intros j. destruct (decide (j = r_session r)) as [->|Hne].
      * rewrite lookup_insert_eq, lookup_alter_eq, Et. cbn. unfold OnDatagram.
        by rewrite (proj2 (sv_sessions s H _ _ Et)).
      * by rewrite lookup_insert_ne, lookup_alter_ne.
    + replace (alter _ (r_session r) (sessions_ s)) with (sessions_ s); [done|].
      apply map_eq. intros j. destruct (decide (j = r_session r)) as [->|Hne].
      * by rewrite lookup_alter_eq, Et.
      * by rewrite lookup_alter_ne.
  - destruct He as [E|s0 E1 _ E3 E4 E5 E6|resp s0 E1 _ E3 E4].
    + apply (server_ok_core (rotated_state s)); [done|rewrite Hsec; apply Hr|done].
    + by apply (server_ok_accept from (request2_of d) (rotated_state s) s0).
    + assert (Hs0 : server_ok s0).
      { apply (server_ok_core (rotated_state s)); [done| |done].
        destruct (migrate_first_frame (walk (routes_ (rotated_state s))) (pm_cid resp) from s0) as [F _].
        rewrite <- F, <- E4, Hsec. apply Hr. }
      assert (Hw : forall e, e ∈ walk (routes_ (rotated_state s)) -> routes_ s0 !! e.1 = Some e.2).
      { intros e He. apply core_inj in E1 as (_ & _ & _ & -> & _). by apply walk_elem. }
      rewrite E4. destruct (migrate_first_effect _ (pm_cid resp) from s0 Hw) as [->|(k & r & t & F1 & _ & F2 & _ & ->)]; [done|].
      by apply server_ok_migrate.
Qed.

Lemma server_step_ok s s' : server_step s s' -> server_ok s -> server_ok s'.
Proof.
  intros Hst H. destruct Hst as [d from s Hl Ha|s|opened bound local guid s|s|s|id t t' s Ht Hs|id s Hp].
  - by apply RouteDatagram_ok.
  - unfold Accept. destruct (negb _); [done|].
    set (s1 := set_routes _ s).
    assert (H1 : server_ok s1).
    { destruct H as [H1 H2 H3 H4 H5 H6 H7 H8 H9 H10]. split; cbn; try done.
      - intros k r. rewrite map_lookup_filter_Some. intros [E _]. by apply H2.
      - intros k r. rewrite map_lookup_filter_Some. intros [E _]. by apply (H4 k).
      - intros k1 k2 r1 r2. rewrite !map_lookup_filter_Some. intros [E1 _] [E2 _]. by apply H5.
      - intros Hm. specialize (H7 Hm). unfold map_size in *.
        pose proof (map_filter_subseteq (fun e => negb (expired (r_session e.2) s)) (routes_ s)) as Hsub.
        apply map_subseteq_size in Hsub. lia.
      - intros k r t. rewrite map_lookup_filter_Some. intros [E _]. by apply (H9 k).
      - intros E. destruct (H10 E) as [-> ?]. split; [|done]. apply map_filter_empty. }
    destruct (pending_accept_ s1) as [|id rest] eqn:Ep; [done|]. cbn [snd]. clearbody s1.
    destruct H1. split; cbn; try done. rewrite Ep in *. by inversion sv_pending0.
  - unfold Bind. destruct (is_bind_ s) eqn:Eb; [done|]. destruct (bind_address_ s) as [a|]; [|done].
    destruct (negb _); [done|]. destruct opened; [|done]. destruct bound; cbn [negb snd].
    2: { destruct H. split; cbn; try done. }
    destruct H as [H1 H2 H3 H4 H5 H6 H7 H8 H9 H10]. destruct (H10 Eb) as [Er _]. split; cbn; try done.
    intros k r t. rewrite Er, lookup_empty. done.
  - unfold Listen. destruct (is_listening_ s); [done|]. destruct (is_bind_ s) eqn:Eb; [|done]. cbn [negb snd].
    destruct H. split; cbn; try done; congruence.
  - unfold Close. destruct (_ && _); [done|]. cbn [snd].
    destruct H as [H1 H2 H3 H4 H5 H6 H7 H8 H9 H10]. split; cbn; try done; try (intros; by simplify_map_eq).
    intros Hm. unfold map_size. rewrite map_size_empty. lia.
  - by apply (server_ok_session id t t').
  - destruct H as [H1 H2 H3 H4 H5 H6 H7 H8 H9 H10]. split; cbn; try done.
    + intros j [u Hu]. apply lookup_delete_Some in Hu as [_ Hu]. apply H3. by eexists.
    + apply Forall_forall. intros j Hj. rewrite lookup_delete_ne by (intros ->; done). by apply (proj1 (Forall_forall _ _) H6).
    + intros j u Hu. apply lookup_delete_Some in Hu as [_ Hu]. by apply H8.
    + intros k r t Hr Hu. apply lookup_delete_Some in Hu as [_ Hu]. by apply (H9 k).
Qed.

Lemma server_reachable_ok address cfg common options s :
  server_reachable address cfg common options s -> server_ok s /\ srv_config_ s = cfg.
Proof.
  assert (Hcfg : forall s s', server_step s s' -> srv_config_ s' = srv_config_ s).
  { destruct 1 as [d from s1 Hl Ha|s1|opened bound local guid s1|s1|s1|id t t' s1 Ht Hs|id s1 Hp]; try done.
    - destruct (RouteDatagram_effect d from s1 Ha) as [(r & Er & ->)|(He & _ & Hsec)]; [done|].
      destruct He as [E|s0 E1 _ E3 E4 E5 E6|resp s0 E1 _ E3 E4].
      + by apply core_inj in E as (-> & _).
      + apply core_inj in E6 as (-> & _). by apply core_inj in E1 as (E1 & _).
      + apply core_inj in E1 as (E1 & _). rewrite E4. clear -E1. change (srv_config_ s1) with (srv_config_ (rotated_state s1)).
        rewrite <- E1. induction (walk _) as [|[k r] l IH]; cbn [migrate_first]; [done|]. destruct (negb _); [done|].
        destruct (_ !! _); [|done]. by destruct (bool_decide _).
    - unfold Accept. destruct (negb _); [done|]. by destruct (pending_accept_ _).
    - unfold Bind. repeat case_match; done.
    - unfold Listen. repeat case_match; done.
    - unfold Close. repeat case_match; done. }
  intros Hreach. induction Hreach as [|s1 s2 _ [IH1 IH2] Hst].
  - split; [|done]. split; cbn; try done; try (intros; by simplify_map_eq).
    + apply CookieSecret_new_ok.
    + intros Hm. unfold map_size. rewrite map_size_empty. lia.
  - split; [by eapply server_step_ok|]. rewrite (Hcfg s1 s2 Hst). done.
Qed.

(** ** The claims *)

(** [C5] The server's tables stay consistent under any interleaving of its
    receive thread, its accepting thread and its sessions, whatever datagrams
    arrive: never more routes than the configured connections, every route filed
    under the text of its peer's address, no two routes to one session, every
    session waiting to be accepted alive, every routed live session holding the two
    guids of its route, and every session's transport within its own invariant. *)
Theorem server_invariant (address : option InetAddress) (cfg : ZDTOptions) (common : CommonOptions)
  (options : ServerOptions) (s : ServerBackend)
  (Hreach : server_reachable address cfg common options s) :
  (0 < max_connections cfg -> map_size (routes_ s) <= max_connections cfg) /\
  (forall k r, routes_ s !! k = Some r -> k = readable (r_peer r)) /\
  (forall k1 k2 r1 r2, routes_ s !! k1 = Some r1 -> routes_ s !! k2 = Some r2 ->
     r_session r1 = r_session r2 -> k1 = k2) /\
  Forall (fun id => is_Some (sessions_ s !! id)) (pending_accept_ s) /\
  (forall k r t, routes_ s !! k = Some r -> sessions_ s !! r_session r = Some t ->
     local_guid (connection t) = server_guid_ s /\ remote_guid (connection t) = r_remote_guid r) /\
  (forall id t, sessions_ s !! id = Some t -> transport_ok t /\ config t = cfg).
Proof.
  destruct (server_reachable_ok _ _ _ _ _ Hreach) as [ [] Hcfg]. rewrite Hcfg in *.
  do 5 (split; [done|]). intros id t Ht. destruct (sv_sessions0 id t Ht) as [Hr Hc].
  split; [by eapply reachable_ok|done].
Qed.

(** [C26] The server allocates nothing for a source that has not proved its
    address: when a datagram brings a session into being, the sixteen bytes it
    carries as its cookie are the MAC of its own source address under the secret of
    the epoch it names (the current one or the one before), the source passes the
    allow and deny lists, it had no live session, and there was room; the new
    session is the only one, is routed to that address, waits to be accepted and
    has the connection the request asked for. *)
Theorem session_needs_proof (d : Buffer) (from : InetAddress) (s : ServerBackend) (id : nat) (t : Transport)
  (Hok : server_ok s) (Ha : address_ok from) (Hold : sessions_ s !! id = None)
  (Hnew : sessions_ (RouteDatagram clk tclk walk d from s) !! id = Some t) :
  let s' := RouteDatagram clk tclk walk d from s in
  let q := request2_of d in
  q_cookie q = Compute (readable from) (q_epoch q)
    (MaybeRotate (cookie_secret_rotation (srv_config_ s) * 1000000) (clk (srv_ticks_ s)) (cookie_secret_ s)) /\
  Screen from (admission_ s) = Allow /\ ~ live_route from s /\ has_room s /\
  sessions_ s' = <[id := t]> (sessions_ s) /\
  routes_ s' = <[readable from := mkRoute id from (q_client_guid q)]> (routes_ s) /\
  pending_accept_ s' = pending_accept_ s ++ [id] /\ connection t = accepted_connection from q s.
Proof.
  cbv zeta. destruct (RouteDatagram_effect d from s Ha) as [(r & Er & E)|(He & _ & _)].
  - exfalso. rewrite E in Hnew. cbn in Hnew. destruct (decide (id = r_session r)) as [->|Hne].
    + by rewrite lookup_alter_eq, Hold in Hnew.
    + by rewrite lookup_alter_ne, Hold in Hnew.
  - destruct He as [E|s0 E1 E2 E3 E4 E5 E6|resp s0 E1 _ E3 E4].
    + apply core_inj in E as (_ & _ & _ & _ & _ & _ & E & _). rewrite E in Hnew. cbn in Hnew. congruence.
    + assert (E6' : core (RouteDatagram clk tclk walk d from s) = core (accept_session tclk from (request2_of d) (rotated_state s))).
      { rewrite E6. unfold core, accept_session, accepted_connection in *. cbn in *.
        injection E1 as -> -> -> -> -> -> -> -> -> -> ->. done. }
      apply core_inj in E6' as (_ & _ & _ & Er & Ep & _ & Es & _). rewrite Es in Hnew. cbn in Hnew.
      apply lookup_insert_Some in Hnew as [ [<- <-]|[_ Hx] ]; [|congruence].
      do 4 (split; [done|]). by rewrite Er, Ep, Es.
    + exfalso. apply core_inj in E1 as (_ & _ & _ & Er & _ & _ & Es & _).
      assert (Hw : forall e, e ∈ walk (routes_ (rotated_state s)) -> routes_ s0 !! e.1 = Some e.2).
      { intros e He. rewrite Er. by apply walk_elem. }
      rewrite E4 in Hnew. destruct (migrate_first_effect _ (pm_cid resp) from s0 Hw) as [F|(k & r & u & F1 & _ & F2 & _ & F3)].
      * rewrite F, Es in Hnew. cbn in Hnew. congruence.
      * rewrite F3 in Hnew. cbn in Hnew. apply lookup_insert_Some in Hnew as [ [<- _]|[_ Hx] ]; rewrite Es in *; cbn in *; congruence.
Qed.

(** An unproven source cannot use the server against another: every
    datagram is answered with at most one datagram, sent to the address it came
    from, of at most 41 bytes. *)
Theorem answers_bounded (d : Buffer) (from : InetAddress) (s : ServerBackend) (Ha : address_ok from) :
  exists l, sent_ (RouteDatagram clk tclk walk d from s) = sent_ s ++ l /\ (length l <= 1)%nat /\
    Forall (fun x => x.1 = from /\ zlen x.2 <= 41) l.
Proof.
  destruct (RouteDatagram_effect d from s Ha) as [(r & Er & ->)|(_ & H & _)]; [|exact H].
  by apply (no_answer from).
Qed.

(** A live session is never cut off and moves only to a proven path: after
    any datagram, a route at an address other than the datagram's source is where
    it was, or the datagram is a path response whose cookie the server would issue
    for that source and the route's connection id, and then the route leads to the
    source, the session is the same and its transport has been told the new peer. *)
Theorem route_moves_only_when_proven (d : Buffer) (from : InetAddress) (s : ServerBackend) (k : list Z) (r : Route)
  (Hok : server_ok s) (Ha : address_ok from) (Hr : routes_ s !! k = Some r)
  (Hlive : is_Some (sessions_ s !! r_session r)) (Hk : k <> readable from) :
  let s' := RouteDatagram clk tclk walk d from s in
  routes_ s' !! k = Some r \/
  exists response t,
    VerifyPathResponse (cookie_secret_ (rotated_state s)) (readable from) response = true /\
    pm_cid response = r_remote_guid r /\ routes_ s' !! k = None /\
    routes_ s' !! readable from = Some (mkRoute (r_session r) from (r_remote_guid r)) /\
    sessions_ s !! r_session r = Some t /\ sessions_ s' !! r_session r = Some (MigratePeer (Some from) t).
Proof.
  cbv zeta. destruct (RouteDatagram_effect d from s Ha) as [(r' & Er & ->)|(He & _ & _)]; [by left|].
  destruct He as [E|s0 E1 E2 E3 E4 E5 E6|resp s0 E1 _ E3 E4].
  - left. by apply core_inj in E as (_ & _ & _ & -> & _).
  - left. apply core_inj in E6 as (_ & _ & _ & -> & _). cbn. apply core_inj in E1 as (_ & _ & _ & -> & _).
    by rewrite lookup_insert_ne.
  - apply core_inj in E1 as (_ & _ & _ & Er & _ & _ & Es & _).
    assert (Hw : forall e, e ∈ walk (routes_ (rotated_state s)) -> routes_ s0 !! e.1 = Some e.2).
    { intros e He. rewrite Er. by apply walk_elem. }
    rewrite E4. destruct (migrate_first_effect _ (pm_cid resp) from s0 Hw) as [->|(k' & r' & u & F1 & F2 & F3 & F4 & ->)].
    { left. by rewrite Er. }
    cbn. rewrite Er, Es in *. cbn in *. destruct (decide (k' = k)) as [->|Hne].
    + right. exists resp, u. assert (r' = r) as -> by congruence.
      rewrite lookup_insert_ne, lookup_delete_eq, !lookup_insert_eq by done. done.
    + left. by rewrite lookup_insert_ne, lookup_delete_ne.
Qed.

End Server.
