(* ===== verification/ZdtRate.v ===== *)
(** * The per-source handshake rate

    The limiter [AllowHandshake] keeps in front of every offline message: how much
    it lets through, and how large its table gets. *)

From S2P Require Import Prelude Buffer BufferCodecs InetAddr Admission ZdtCookie ZdtOptions ZdtServer.

Section Rate.
Context (clk : nat -> Z).

(** Offline messages from these sources, one after the other. *)
Fixpoint allow_all (keys : list (list Z)) (s : ServerBackend) : list bool * ServerBackend :=
  match keys with
  | [] => ([], s)
  | k :: keys =>
      let '(b, s) := AllowHandshake clk k s in
      let '(bs, s) := allow_all keys s in
      (b :: bs, s)
  end.

(** How many of one source's messages were let through. *)
Fixpoint let_through (key : list Z) (keys : list (list Z)) (bs : list bool) : Z :=
  match keys, bs with
  | k :: keys, b :: bs => (if bool_decide (k = key) && b then 1 else 0) + let_through key keys bs
  | _, _ => 0
  end.

Definition counts_ok (s : ServerBackend) : Prop := forall k w, source_rate_ s !! k = Some w -> 0 <= count w.

Definition prune_limit (s : ServerBackend) : Z :=
  if 0 <? max_connections (srv_config_ s) then max_connections (srv_config_ s) * 2 else 8192.

(** The table a message is counted in. *)
Definition pruned (s : ServerBackend) : gmap (list Z) SourceWindow :=
  if prune_limit s <? map_size (source_rate_ s) then prune (clk (srv_ticks_ s)) second (source_rate_ s)
  else source_rate_ s.

Lemma pruned_lookup k s :
  pruned s !! k = source_rate_ s !! k \/
  pruned s !! k = None /\ exists w, source_rate_ s !! k = Some w /\ second < clk (srv_ticks_ s) - window_start w.
Proof.
  unfold pruned. destruct (_ <? _); [|by left]. unfold prune.
  destruct (source_rate_ s !! k) as [w|] eqn:E.
  - destruct (second <? clk (srv_ticks_ s) - window_start w) eqn:Ew.
    + right. split; [|exists w; split; [done|by apply Z.ltb_lt]]. apply map_lookup_filter_None. right.
      intros w' Hw'. rewrite E in Hw'. injection Hw' as <-. cbn [snd]. rewrite Ew. by intros [].
    + left. apply map_lookup_filter_Some. split; [done|]. cbn [snd]. by rewrite Ew.
  - left. apply map_lookup_filter_None. by left.
Qed.

(** One message: its source's entry is hit, the others stay or were elapsed. *)
Lemma AllowHandshake_hit key s :
  let now := clk (srv_ticks_ s) in
  let e := hit second now (pruned s !! key) in
  AllowHandshake clk key s =
    (count e <=? per_source_handshake_rate (srv_config_ s),
     set_rate (<[key := e]> (pruned s)) (set_srv_ticks (S (srv_ticks_ s)) s)).
Proof.
  cbv zeta. unfold AllowHandshake, srv_now. cbv beta iota zeta.
  change (srv_config_ (set_srv_ticks (S (srv_ticks_ s)) s)) with (srv_config_ s).
  change (source_rate_ (set_srv_ticks (S (srv_ticks_ s)) s)) with (source_rate_ s).
  change (if _ <? map_size (source_rate_ s) then _ else _) with (pruned s).
  destruct (pruned s !! key) as [ [st c] |]; cbn [default from_option id hit count window_start]; [|done].
  by destruct (_ || _).
Qed.

Lemma allow_all_covered from key keys : forall s allowed,
  0 <= per_source_handshake_rate (srv_config_ s) -> counts_ok s ->
  (forall i, (i < length keys)%nat -> from <= clk (srv_ticks_ s + i) <= from + second) ->
  covers from (per_source_handshake_rate (srv_config_ s)) (source_rate_ s !! key) allowed ->
  let '(bs, s') := allow_all keys s in
  covers from (per_source_handshake_rate (srv_config_ s)) (source_rate_ s' !! key) (allowed + let_through key keys bs).
Proof.
  induction keys as [|k keys IH]; intros s allowed Hr Hc Ht Hcov; cbn [allow_all].
  { by rewrite Z.add_0_r. }
  rewrite AllowHandshake_hit. set (now := clk (srv_ticks_ s)) in *.
  assert (Hnow : from <= now <= from + second).
  { specialize (Ht 0%nat ltac:(simpl; lia)). by rewrite Nat.add_0_r in Ht. }
  assert (Hp : forall j, covers from (per_source_handshake_rate (srv_config_ s)) (source_rate_ s !! j) allowed ->
    covers from (per_source_handshake_rate (srv_config_ s)) (pruned s !! j) allowed).
  { intros j Hj. destruct (pruned_lookup j s) as [->|(-> & w & Ew & Hw)]; [done|].
    rewrite Ew in Hj. by eapply drop_covers. }
  set (e := hit second now (pruned s !! k)).
  set (s1 := set_rate (<[k := e]> (pruned s)) (set_srv_ticks (S (srv_ticks_ s)) s)).
  assert (Hpc : forall j w, pruned s !! j = Some w -> 0 <= count w).
  { intros j w Hw. destruct (pruned_lookup j s) as [E|(E & _)]; rewrite E in Hw; [by apply (Hc j)|done]. }
  assert (Hc1 : counts_ok s1).
  { intros j w. unfold s1. cbn. rewrite lookup_insert_Some. intros [ [_ <-] | [_ Hw] ]; [|by apply (Hpc j)].
    unfold e. destruct (pruned s !! k) as [ [st c] |] eqn:Ek; cbn [hit]; [|cbn; lia].
    specialize (Hpc k _ Ek). cbn in Hpc. destruct (_ || _); cbn; lia. }
  assert (Hcov1 : covers from (per_source_handshake_rate (srv_config_ s1)) (source_rate_ s1 !! key)
    (allowed + if bool_decide (k = key) && (count e <=? per_source_handshake_rate (srv_config_ s)) then 1 else 0)).
  { unfold s1. cbn. destruct (bool_decide_reflect (k = key)) as [->|Hne].
    - rewrite lookup_insert_eq. cbn [andb]. by apply hit_covers; [| |apply Hp].
    - rewrite lookup_insert_ne by done. cbn [andb]. rewrite Z.add_0_r. by apply Hp. }
  assert (Ht1 : forall i, (i < length keys)%nat -> from <= clk (srv_ticks_ s1 + i) <= from + second).
  { intros i Hi. specialize (Ht (S i) ltac:(simpl; lia)). unfold s1. cbn. by rewrite Nat.add_succ_r in Ht. }
  specialize (IH s1 _ Hr Hc1 Ht1 Hcov1). destruct (allow_all keys s1) as [bs s2]. cbn [let_through].
  by rewrite Z.add_assoc.
Qed.

(** The handshake rate is enforced per source: whatever messages from
    whatever sources arrive within one second, at most twice the configured number
    of one source's messages get past the limiter, also while the table is being
    pruned. *)
Theorem handshake_rate_enforced (keys : list (list Z)) (key : list Z) (from : Z) (s : ServerBackend)
  (Hr : 0 <= per_source_handshake_rate (srv_config_ s)) (Hc : counts_ok s)
  (Ht : forall i, (i < length keys)%nat -> from <= clk (srv_ticks_ s + i) <= from + second) :
  let_through key keys (allow_all keys s).1 <= 2 * per_source_handshake_rate (srv_config_ s).
Proof.
  pose proof (allow_all_covered from key keys s 0 Hr Hc Ht) as H.
  destruct (allow_all keys s) as [bs s']. cbn [fst].
  apply (covers_bound from _ (source_rate_ s' !! key)); [done|]. apply H, covers_start; [done|].
  intros w Hw. by apply (Hc key).
Qed.

(** ** The size of the table *)

(** Pruning drops nothing that is still in its window. *)
Lemma pruned_live s :
  (forall k w, source_rate_ s !! k = Some w -> clk (srv_ticks_ s) - window_start w <= second) -> pruned s = source_rate_ s.
Proof.
  intros H. apply map_eq. intros k. destruct (pruned_lookup k s) as [->|(E & w & Ew & Hw)]; [done|].
  specialize (H k w Ew). lia.
Qed.

(** The table is not bounded by the connections the server may hold, nor by
    anything else: messages from new sources within one second all stay in it,
    although the comment in [AllowHandshake] calls it capped. *)
Theorem rate_table_uncapped (keys : list (list Z)) (s : ServerBackend) (from : Z)
  (Hempty : source_rate_ s = ∅) (Hnd : NoDup keys)
  (Ht : forall i, (i < length keys)%nat -> from <= clk (srv_ticks_ s + i) <= from + second) :
  map_size (source_rate_ (allow_all keys s).2) = zlen keys.
Proof.
  assert (Hgen : forall s, dom (source_rate_ s) ## list_to_set keys ->
    (forall k w, source_rate_ s !! k = Some w -> from <= window_start w) ->
    (forall i, (i < length keys)%nat -> from <= clk (srv_ticks_ s + i) <= from + second) ->
    map_size (source_rate_ (allow_all keys s).2) = map_size (source_rate_ s) + zlen keys).
  2: { rewrite Hgen; [by rewrite Hempty|rewrite Hempty, dom_empty_L; set_solver| |done].
       intros k w. by rewrite Hempty, lookup_empty. }
  clear Hempty Ht s. induction Hnd as [|k keys Hk Hnd IH]; intros s Hd Hw Ht; cbn [allow_all length]; [cbn; lia|].
  assert (Hnow : from <= clk (srv_ticks_ s) <= from + second).
  { specialize (Ht 0%nat ltac:(simpl; lia)). by rewrite Nat.add_0_r in Ht. }
  rewrite AllowHandshake_hit, pruned_live.
  2: { intros j w Hj. specialize (Hw j w Hj). lia. }
  assert (Hnone : source_rate_ s !! k = None) by (apply not_elem_of_dom; set_solver).
  rewrite Hnone. cbn [hit]. set (s1 := set_rate _ _).
  specialize (IH s1). destruct (allow_all keys s1) as [bs s2]. cbn [snd] in *. rewrite IH.
  - unfold s1. cbn. unfold map_size. rewrite map_size_insert_None by done. lia.
  - unfold s1. cbn. rewrite dom_insert_L. set_solver.
  - intros j w. unfold s1. cbn. rewrite lookup_insert_Some. intros [ [_ <-] | [_ Hj] ]; [cbn; lia|by apply (Hw j)].
  - intros i Hi. specialize (Ht (S i) ltac:(simpl; lia)). unfold s1. cbn. by rewrite Nat.add_succ_r in Ht.
Qed.

End Rate.

Import ToyCrypto.

Module RateExample.

Definition options : ServerOptions := mkServerOptions [] [] 0 10000.
Definition clock (n : nat) : Z := Z.of_nat n * 1000.
Definition server : ServerBackend :=
  ZDTServerBackend_new clock (Some (InetAddressIPv4 [127; 0; 0; 1] 9000)) ZDTOptions_default CommonOptions_default options.

End RateExample.

(** Thirty messages of one source: the default rate lets twenty through. *)
Lemma handshake_rate_enforced_witness :
  let_through [1] (repeat [1] 30) (allow_all RateExample.clock (repeat [1] 30) RateExample.server).1 = 20 /\
  let_through [1] (repeat [1] 30) (allow_all RateExample.clock (repeat [1] 30) RateExample.server).1 <= 2 * 20.
Proof.
  split; [vm_compute; reflexivity|].
  apply (handshake_rate_enforced RateExample.clock (repeat [1] 30) [1] 0 RateExample.server).
  - vm_compute. discriminate.
  - intros k w H. vm_compute in H. discriminate.
  - intros i Hi. rewrite repeat_length in Hi. unfold RateExample.clock, second. cbn [RateExample.server srv_ticks_ ZDTServerBackend_new]. lia.
Defined.
