(* ===== verification/ZdtConnect.v ===== *)
(** * Client and server together

    The client's handshake always returns, and over a network that carries
    datagrams to the server and its answers back it connects the two ends: both
    hold a connection with the same MTU, each other's guids and the same verdict on
    migration. *)

From S2P Require Import Prelude Buffer BufferSpec BufferCodecs ZdtWire ZdtWireSpec ZdtOffline InetAddr InetAddrTheorems Admission ZdtCookie ZdtOptions ZdtState ZdtSend ZdtReceive ZdtTransport ZdtDelivery ZdtInvariant ZdtSetup ZdtServer ZdtClient ZdtMessages ZdtServerTheorems ZdtRate.

(** ** Termination *)

Section Termination.
Context `{P : Platform} `{N : Network W} (server : InetAddress) (cfg : ZDTOptions) (guid : Z).

(** A bound on the polls a network allows before its clock passes a deadline:
    every poll uses one up, and a wait starts with at most [patience] of them. *)
Class Progresses (polls_left : Z -> W -> nat) (patience : nat) : Prop := {
  poll_uses w d :
    (net_now w).1 < d ->
    match net_recv (net_now w).2 with
    | (WouldBlock, w') => (polls_left d (net_sleep w') < polls_left d w)%nat
    | (RecvError, _) => True
    | (Received _ _, w') => (polls_left d w' < polls_left d w)%nat
    end;
  wait_starts w :
    (polls_left ((net_now w).1 + handshake_retransmit cfg * 1000000)%Z (net_now w).2 <= patience)%nat
}.

Context (polls_left : Z -> W -> nat) (patience : nat) `{!Progresses polls_left patience}.

Lemma wait_returns {A} (on : list Z -> Progress -> option A * Progress) stop polls : forall d p w,
  (polls_left d w < polls)%nat -> exists r, wait on stop polls d p w = Some r.
Proof.
  induction polls as [|polls IH]; intros d p w Hl; [lia|]. cbn [wait].
  pose proof (poll_uses w d) as Hu. destruct (net_now w) as [now w1]. cbn [fst snd] in Hu.
  destruct (Z.ltb_spec now d) as [Hlt|]; cbn [andb]; [|by eexists]. specialize (Hu Hlt).
  destruct (negb (stop p)); [|by eexists].
  destruct (net_recv w1) as [ [| |data from] w2]; [apply IH; lia|by eexists|].
  destruct (on data _) as [ [a|] p']; [by eexists|apply IH; lia].
Qed.

Lemma phase1_rung_returns attempts rung : forall p w,
  exists r, phase1_rung server cfg (S patience) attempts rung p w = Some r.
Proof.
  induction attempts as [|n IH]; intros p w; cbn [phase1_rung]; [by eexists|].
  destruct (hp_got_reply1 p); [by eexists|]. destruct (net_send _ _ w) as [ok w1]. destruct (negb ok); [by eexists|].
  pose proof (wait_starts w1) as Hs. destruct (net_now w1) as [now w2]. cbn [fst snd] in Hs.
  destruct (wait_returns on_reply1 hp_got_reply1 (S patience) (now + handshake_retransmit cfg * 1000000) p w2) as [r ->]; [lia|].
  destruct r as [ [ [r|] p'] w3]; [by eexists|apply IH].
Qed.

Lemma phase1_returns ladder : forall p w, exists r, phase1 server cfg (S patience) ladder p w = Some r.
Proof.
  induction ladder as [|rung ladder IH]; intros p w; cbn [phase1]; [by eexists|].
  destruct (phase1_rung_returns (Z.to_nat (handshake_retries_per_rung cfg)) rung p w) as [ [ [ [r|] p'] w'] ->]; [by eexists|].
  destruct (hp_got_reply1 p'); [by eexists|apply IH].
Qed.

Lemma phase2_returns attempts : forall p w, exists r, phase2 server cfg guid (S patience) attempts p w = Some r.
Proof.
  induction attempts as [|n IH]; intros p w; cbn [phase2]; [by eexists|].
  destruct (net_send _ _ w) as [ok w1]. pose proof (wait_starts w1) as Hs.
  destruct (net_now w1) as [now w2]. cbn [fst snd] in Hs.
  destruct (wait_returns (on_reply2 cfg guid) (fun _ => false) (S patience) (now + handshake_retransmit cfg * 1000000) p w2)
    as [r ->]; [lia|].
  destruct r as [ [ [ [r c]|] p'] w3]; [by eexists|apply IH].
Qed.

(** [C36] The client's handshake returns: whatever the network delivers, drops or
    refuses, if its clock passes a deadline within [patience] polls then every wait
    ends, and the whole handshake returns a result after the configured number of
    attempts. *)
Theorem handshake_returns (w : W) :
  exists r conn w', Handshake server cfg guid (S patience) w = Some (r, conn, w').
Proof.
  unfold Handshake. destruct (phase1_returns (ladder_rungs (mtu_ladder cfg))
    (mkProgress (repeat 0 16) 0 0 0 0 false recv_scratch) w) as [ [ [ [r|] p] w1] ->]; [by repeat eexists|].
  destruct (negb _); [by repeat eexists|].
  destruct (phase2_returns (Z.to_nat (max_retries cfg)) p w1) as [ [ [r c] w2] ->]. by repeat eexists.
Qed.

End Termination.

(** ** A network with one server on it *)

Record Lan := mkLan { lan_server : ServerBackend; lan_queue : list RecvResult; lan_ticks : nat }.

Section Lan.
Context `{P : Platform} `{!AmplePlatform P} `{I : Inet} `{!InetLaws I} `{C : CookieCrypto} `{!CookieCryptoLaws C}.
Context (clk : nat -> Z) (tclk : nat -> nat -> Z) (walk : gmap (list Z) Route -> list (list Z * Route)).
(** The client's clock, its address as the server sees it, and the server's. *)
Context (cclk : nat -> Z) (me there : InetAddress).

Definition to_client (x : InetAddress * list Z) : option RecvResult :=
  if decide (x.1 = me) then Some (Received x.2 (Some there)) else None.

(** A datagram sent to the server is routed at once and the answers to the
    client queue up at its socket; any other is lost. *)
#[export] Instance lan : Network Lan := {|
  net_now w := (cclk (lan_ticks w), mkLan (lan_server w) (lan_queue w) (S (lan_ticks w)));
  net_send to bytes w :=
    if decide (to = there) then
      let s := lan_server w in
      let s' := RouteDatagram clk tclk walk (recv_into recv_scratch bytes) me s in
      (true, mkLan s' (lan_queue w ++ omap to_client (drop (length (sent_ s)) (sent_ s'))) (lan_ticks w))
    else (true, w);
  net_recv w := match lan_queue w with
                | [] => (WouldBlock, w)
                | r :: q => (r, mkLan (lan_server w) q (lan_ticks w))
                end;
  net_sleep w := mkLan (lan_server w) (lan_queue w) (S (lan_ticks w))
|}.

(** ** The server's answers *)

(** Anything the screen lets in reaches the handler of its kind. *)
Lemma route_offline id r s :
  0 <= id < 128 -> bytes_ok (offline_image id ++ r) -> zlen (offline_image id ++ r) <= ZNET_MAX_BUFFER_SIZE ->
  exists b, holds b r /\
    RouteDatagram clk tclk walk (recv_into recv_scratch (offline_image id ++ r)) me s =
    (let s1 := rotated_state clk s in
     if negb (bool_decide (Screen me (admission_ s) = Allow)) then s1
     else
       let '(allowed, s2) := AllowHandshake clk (readable me) s1 in
       if negb allowed then s2
       else if id =? offline_id PathResponse then
         if enable_connection_migration (srv_config_ s2) then
           match ReadPathMessage b (ZdtWire.mkPath 0 0 (repeat 0 16)) with
           | (true, response, _) => CompletePathMigration walk me response s2
           | (false, _, _) => s2
           end
         else s2
       else if id =? offline_id OpenConnectionRequest1
       then HandleRequest1 clk b me (zlen (offline_image id ++ r)) s2
       else if id =? offline_id OpenConnectionRequest2 then HandleRequest2 tclk b me s2 else s2).
Proof.
  intros Hid Hok Hz. destruct (recv_into_ok _ _ recv_scratch_ok Hok Hz) as [Hh Hb].
  destruct (holds_header id r _ Hh Hid) as (b & E & Hb').
  exists b. split; [done|]. unfold RouteDatagram, srv_now. cbv beta iota zeta. rewrite Hb, offline_first by done.
  unfold HandleOffline. rewrite E. done.
Qed.

(** What the limiter has counted of the client's attempts. *)
Definition tries (s : ServerBackend) : Z := count (default (mkWindow 0 0) (source_rate_ s !! readable me)).

(** The limiter lets a message through while its count is below the rate. *)
Lemma allows s : 0 <= tries s < per_source_handshake_rate (srv_config_ s) ->
  exists s', AllowHandshake clk (readable me) s = (true, s') /\ core s' = core s /\ admission_ s' = admission_ s /\
    cookie_secret_ s' = cookie_secret_ s /\ sent_ s' = sent_ s /\ 0 <= tries s' <= tries s + 1.
Proof.
  unfold tries. intros Hr. rewrite AllowHandshake_hit. set (w := hit _ _ _).
  assert (Hw : 0 <= count w <= count (default (mkWindow 0 0) (source_rate_ s !! readable me)) + 1).
  { subst w. destruct (pruned_lookup clk (readable me) s) as [->|[-> _] ]; [|cbn; lia].
    destruct (source_rate_ s !! readable me) as [v|]; cbn [hit default from_option id] in *; [|cbn; lia].
    destruct (_ || _); cbn [count]; lia. }
  replace (count w <=? per_source_handshake_rate (srv_config_ s)) with true by (symmetry; apply Z.leb_le; lia).
  eexists. split; [done|]. cbn. rewrite lookup_insert_eq. done.
Qed.

(** What the server offers: the size that arrived, capped to its top rung. *)
Definition offered_mtu (size : Z) (s : ServerBackend) : Z :=
  u16 (Z.min size (ZDTPayloadForLinkMTU (MTULadder_front (mtu_ladder (srv_config_ s))) (ipv me))).

(** A Request1 is answered and leaves no more than a rate entry behind. *)
Lemma server_request1 n s :
  zlen (request1_image n) <= ZNET_MAX_BUFFER_SIZE ->
  (forall t, (Admit t me (admission_ s)).1 = Allow) ->
  0 <= tries s < per_source_handshake_rate (srv_config_ s) ->
  exists s',
    RouteDatagram clk tclk walk (recv_into recv_scratch (request1_image n)) me s = s' /\
    core s' = core s /\ cookie_secret_ s' = cookie_secret_ (rotated_state clk s) /\
    Screen me (admission_ s') = Allow /\
    0 <= tries s' <= tries s + 1 /\
    sent_ s' = sent_ s ++ [(me, reply1_image (server_guid_ s) (offered_mtu (zlen (request1_image n)) s)
      (Compute (readable me) (epoch_ (cookie_secret_ s')) (cookie_secret_ s')) (epoch_ (cookie_secret_ s')) (cap_of (srv_config_ s)))].
Proof.
  intros Hz Hadm Hrate. assert (Hok : bytes_ok (request1_image n)).
  { unfold request1_image, offline_image. rewrite !bytes_ok_app. repeat split; try apply enc_bytes_ok.
    - by repeat constructor.
    - apply bytes_ok_repeat. unfold is_byte. lia. }
  unfold request1_image in Hok, Hz |- *.
  destruct (route_offline (offline_id OpenConnectionRequest1) _ s ltac:(cbn; lia) Hok Hz) as (b & Hb & ->).
  rewrite (bool_decide_true (Screen me (admission_ s) = Allow)) by (by apply (Admit_screened 0)). cbn [negb]. cbv zeta.
  destruct (allows (rotated_state clk s) Hrate) as (s2 & -> & E2 & Eadm & Esec & Esent & Htries). cbn [negb].
  change (offline_id OpenConnectionRequest1 =? offline_id PathResponse) with false. rewrite Z.eqb_refl.
  unfold HandleRequest1, srv_now. cbv beta iota zeta.
  change (admission_ (set_srv_ticks (S (srv_ticks_ s2)) s2)) with (admission_ s2). rewrite Eadm.
  change (admission_ (rotated_state clk s)) with (admission_ s).
  pose proof (Hadm (clk (srv_ticks_ s2))) as Hv. destruct (Admit_rules (clk (srv_ticks_ s2)) me (admission_ s)) as (La & Ld & _).
  destruct (Admit (clk (srv_ticks_ s2)) me (admission_ s)) as [v adm]. cbn [fst snd] in *. subst v.
  rewrite bool_decide_true by done. cbn [negb].
  destruct (holds_int 1 kZDTProtocolVersion _ b Hb ltac:(lia) ltac:(unfold kZDTProtocolVersion; lia)) as (b1 & -> & _).
  rewrite Z.eqb_refl. cbn [negb]. eexists _. split; [reflexivity|]. split; [exact E2|]. split; [exact Esec|].
  split; [cbn; rewrite (Screen_rules me adm (admission_ s)) by done; by apply (Admit_screened 0)|].
  split; [exact Htries|]. cbn [sent_ SendTo set_sent set_admission set_srv_ticks cookie_secret_]. rewrite Esent.
  apply core_inj in E2 as (Ecfg & _ & _ & _ & _ & Eg & _).
  match goal with |- context [datagram_bytes (Reply1 ?m ?c ?s0)] =>
    destruct (Reply1_bytes m c s0) as (-> & _) end; [apply Compute_bytes|apply length_Compute|].
  change (srv_config_ (set_admission adm _)) with (srv_config_ s2). change (server_guid_ (set_admission adm _)) with (server_guid_ s2).
  by rewrite Ecfg, Eg.
Qed.

(** What a valid Request2 makes of the tables: nothing where its source has a
    live session, a new session otherwise. *)
Definition taken_in (q : Request2) (s after : ServerBackend) : Prop :=
  live_route me s /\ after = s \/ ~ live_route me s /\ has_room s /\ after = accept_session tclk me q s.

(** A Request2 that echoes the cookie is answered, from the session there is
    or from the one it is given. *)
Lemma server_request2 s q sec after :
  Screen me (admission_ s) = Allow -> 0 <= tries s < per_source_handshake_rate (srv_config_ s) -> address_ok me -> address_ok there ->
  secret_ok sec -> cookie_secret_ s = sec -> q_cookie q = Compute (readable me) (epoch_ sec) sec -> q_epoch q = epoch_ sec ->
  q_target q = Some there -> 0 <= q_mtu q < 65536 -> 0 <= q_client_guid q < 2 ^ 64 -> 0 <= q_client_cap q < 256 ->
  taken_in q s after ->
  bytes_ok (request2_image (q_cookie q) (q_epoch q) there (q_mtu q) (q_client_guid q) (q_client_cap q)) ->
  zlen (request2_image (q_cookie q) (q_epoch q) there (q_mtu q) (q_client_guid q) (q_client_cap q)) <= ZNET_MAX_BUFFER_SIZE ->
  exists s', RouteDatagram clk tclk walk (recv_into recv_scratch
      (request2_image (q_cookie q) (q_epoch q) there (q_mtu q) (q_client_guid q) (q_client_cap q))) me s = s' /\
    core s' = core after /\
    sent_ s' = sent_ s ++ [(me, reply2_image (server_guid_ s) me (q_mtu q))].
Proof.
  intros Hscr Hr Hme Hthere Hsec Es Hck Hep Htg Hm Hg Hcap Htaken Hok Hz.
  unfold request2_image in Hok, Hz |- *.
  destruct (route_offline (offline_id OpenConnectionRequest2) _ s ltac:(cbn; lia) Hok Hz) as (b & Hb & ->).
  rewrite bool_decide_true by done. cbn [negb]. cbv zeta.
  destruct (allows (rotated_state clk s) Hr) as (s2 & -> & E2 & _ & Esec & Esent & _). cbn [negb].
  change (offline_id OpenConnectionRequest2 =? offline_id PathResponse) with false.
  change (offline_id OpenConnectionRequest2 =? offline_id OpenConnectionRequest1) with false. rewrite Z.eqb_refl.
  unfold HandleRequest2.
  destruct (holds_int 1 kZDTCookieLen _ b Hb ltac:(lia) ltac:(unfold kZDTCookieLen; lia)) as (b1 & -> & Hb1).
  rewrite Z.eqb_refl. cbn [negb].
  rewrite <- (app_nil_r (enc BigEndian 1 (q_client_cap q))) in Hb1.
  assert (Hep' : 0 <= q_epoch q < 2 ^ 32) by (rewrite Hep; apply Hsec).
  rewrite (ReadRequest2_image b1 (q_cookie q) (q_epoch q) there (q_mtu q) (q_client_guid q) (q_client_cap q) []); try done.
  2: { rewrite Hck. apply length_Compute. }
  replace (mkRequest2 _ _ _ _ _ _) with q by (destruct q; cbn in *; congruence).
  rewrite ConstTimeEqual_Compute by (rewrite Hck; apply length_Compute).
  assert (Hver : Compute (readable me) (q_epoch q) (cookie_secret_ s2) = q_cookie q).
  { rewrite Esec, Hck, Hep. cbn. rewrite Es.
    set (iv := cookie_secret_rotation (srv_config_ s) * 1000000). set (t := clk (srv_ticks_ s)).
    apply Compute_one_rotation; [done|by apply (rotate_all_rotated [(iv, t)])|].
    unfold rotations, MaybeRotate. destruct (_ <? _); cbn; lia. }
  rewrite bool_decide_true by done. cbn [negb].
  assert (Ecore : core s2 = core s) by done. apply core_inj in Ecore as (Ecfg & _ & _ & Er & _ & Eg & Ess & _).
  assert (Elive : match routes_ s2 !! readable me with
                  | Some existing => negb (expired (r_session existing) s2) | None => false end = true <-> live_route me s).
  { unfold expired, live_route. rewrite Er, Ess. destruct (routes_ s !! readable me) as [r|].
    - rewrite negb_true_iff, bool_decide_eq_false, not_eq_None_Some. split; [by exists r|]. by intros (r' & [= <-] & ?).
    - split; [done|]. by intros (r & ? & _). }
  set (live := match routes_ s2 !! readable me with Some _ => _ | None => _ end) in *.
  assert (Esent' : forall s0, sent_ s0 = sent_ s2 -> sent_ (SendTo me (Reply2 me (q_mtu q) s2) s0) = sent_ s ++ [(me, reply2_image (server_guid_ s) me (q_mtu q))]).
  { intros s0 E0. cbn. rewrite E0, Esent. cbn. destruct (Reply2_bytes me (q_mtu q) s2 Hme) as (-> & _). by rewrite Eg. }
  destruct Htaken as [ [Hl ->]|(Hl & Hroom & ->)].
  - rewrite (proj2 Elive Hl). eexists. split; [reflexivity|]. split; [exact E2|]. by apply Esent'.
  - replace live with false by (symmetry; apply not_true_is_false; by rewrite Elive).
    rewrite Ecfg, Er.
    replace ((0 <? max_connections (srv_config_ s)) && (max_connections (srv_config_ s) <=? map_size (routes_ s))) with false.
    2: { symmetry. apply andb_false_iff. destruct (Z.ltb_spec 0 (max_connections (srv_config_ s))) as [Hpos|]; [right|by left].
         apply Z.leb_gt. by apply Hroom. }
    eexists. split; [reflexivity|]. split; [|by apply Esent'].
    unfold core in E2 |- *. cbn in E2 |- *. unfold accepted_connection. injection E2 as -> -> -> -> -> -> -> -> -> -> ->. done.
Qed.

(** ** The client against it *)

(** The queue after a datagram answered with one other. *)
Lemma one_queued (s s' : ServerBackend) bs :
  sent_ s' = sent_ s ++ [(me, bs)] ->
  omap to_client (drop (length (sent_ s)) (sent_ s')) = [Received bs (Some there)].
Proof.
  intros ->. rewrite drop_app_length. cbn. unfold to_client. cbn. by rewrite decide_True.
Qed.

(** A wait whose first poll finds a datagram that decides nothing but sets [stop]. *)
Lemma wait_one {A} (on : list Z -> Progress -> option A * Progress) stop polls d p p' srv data from n :
  cclk n < d -> stop p = false -> on data (set_reply (Reset false (hp_reply p)) p) = (None, p') -> stop p' = true ->
  wait on stop (S (S polls)) d p (mkLan srv [Received data from] n) = Some (None, p', mkLan srv [] (S (S n))).
Proof.
  intros Hn Hs Hon Hs'. cbn [wait net_now net_recv lan lan_ticks lan_server lan_queue].
  replace (cclk n <? d) with true by (symmetry; by apply Z.ltb_lt). rewrite Hs. cbn [andb negb].
  rewrite Hon, Hs'. cbn [negb]. by rewrite andb_false_r.
Qed.

Lemma wait_answer {A} (on : list Z -> Progress -> option A * Progress) polls d p p' a srv data from n :
  cclk n < d -> on data (set_reply (Reset false (hp_reply p)) p) = (Some a, p') ->
  wait on (fun _ => false) (S polls) d p (mkLan srv [Received data from] n) = Some (Some a, p', mkLan srv [] (S n)).
Proof.
  intros Hn Hon. cbn [wait net_now net_recv lan lan_ticks lan_server lan_queue].
  replace (cclk n <? d) with true by (symmetry; by apply Z.ltb_lt). cbn [andb negb]. by rewrite Hon.
Qed.

Lemma payload_range link v : 0 <= ZDTPayloadForLinkMTU link v < 65536.
Proof. unfold ZDTPayloadForLinkMTU. destruct (_ <? _); [apply u16_range|lia]. Qed.

Lemma cap_range cfg : 0 <= cap_of cfg < 256 /\ has_flag (cap_of cfg) kZDTCapMigration = enable_connection_migration cfg.
Proof. unfold cap_of. by destruct (enable_connection_migration cfg). Qed.

(** A reliable message under a number already delivered is dropped. *)
Lemma old_number_dropped t ch flags k payload : has_flag flags kRecReliable = true ->
  0 <= k < rel_expected (channel_at t ch) -> rel_expected (channel_at t ch) < 2 ^ 62 ->
  rel_expected (channel_at t ch) <= k + 2 ^ 15 ->
  ready_ (rx_ (DeliverMessage (stream_record flags ch k) payload t)) = ready_ (rx_ t).
Proof.
  intros Hf Hk He Hw. rewrite DeliverMessage_ready. cbn [stream_record r_channel]. unfold deliver_on.
  rewrite reconstruct_reliable by (done || lia). cbn [stream_record r_flags]. rewrite Hf. cbn [negb andb].
  destruct (Z.ltb_spec k (rel_expected (channel_at t ch))); [|lia]. destruct (negb _); cbn [orb snd]; by rewrite app_nil_r.
Qed.

(** What the two sides end up with. *)
Definition negotiated (cfg : ZDTOptions) (rung : Z) (s : ServerBackend) : Z :=
  Z.min (Z.max 10 (ZDTPayloadForLinkMTU rung (ipv there)))
    (ZDTPayloadForLinkMTU (MTULadder_front (mtu_ladder (srv_config_ s))) (ipv me)).

(** The handshake against a server that takes the client in or has a session of
    its address. *)
Lemma handshake_over_lan (cfg : ZDTOptions) (guid rung : Z) (rest : list Z) (s : ServerBackend) (polls n : nat)
  (Hok : server_ok tclk s) (Hme : address_ok me) (Hthere : address_ok there)
  (Hguid : 0 <= guid < 2 ^ 64) (Hsguid : 0 <= server_guid_ s < 2 ^ 64)
  (Hladder : ladder_rungs (mtu_ladder cfg) = rung :: rest) (Hrung : 0 <= rung < 65536)
  (Hfits : ZDTPayloadForLinkMTU rung (ipv there) <= ZNET_MAX_BUFFER_SIZE)
  (Hfront : 0 < ZDTPayloadForLinkMTU (MTULadder_front (mtu_ladder (srv_config_ s))) (ipv me))
  (Htries : 1 <= handshake_retries_per_rung cfg) (Hretries : 1 <= max_retries cfg)
  (Hclock : forall n, cclk (S n) < cclk n + handshake_retransmit cfg * 1000000)
  (Hadm : forall t, (Admit t me (admission_ s)).1 = Allow)
  (Hrate : 0 <= tries s <= per_source_handshake_rate (srv_config_ s) - 2)
  (Hlive : live_route me s \/ ~ live_route me s /\ has_room s) :
  let mtu := negotiated cfg rung s in
  let migration := enable_connection_migration cfg && enable_connection_migration (srv_config_ s) in
  exists w q s1 after, Handshake there cfg guid (S (S polls)) (mkLan s [] n) =
      Some (Success, mkConnection mtu guid (server_guid_ s) migration 0, w) /\
    core s1 = core s /\ q_mtu q = mtu /\ q_client_guid q = guid /\ q_client_cap q = cap_of cfg /\
    taken_in q s1 after /\ core (lan_server w) = core after.
Proof.
  cbv zeta. set (mtu := negotiated cfg rung s).
  pose proof (payload_range rung (ipv there)) as Hp1.
  pose proof (payload_range (MTULadder_front (mtu_ladder (srv_config_ s))) (ipv me)) as Hp2.
  assert (Hmtu : 0 < mtu < 65536) by (unfold mtu, negotiated; lia).
  destruct (Request1_bytes there rung Hrung) as (Eb1 & Hok1 & Hz1).
  destruct (server_request1 (Z.to_nat (ZDTPayloadForLinkMTU rung (ipv there) - 10)) s) as
    (s1 & E1 & Ecore1 & Esec1 & Hscr1 & Htries1 & Hsent1); try done; [rewrite Hz1; unfold ZNET_MAX_BUFFER_SIZE in *; lia|lia|].
  apply core_inj in Ecore1 as Einj. destruct Einj as (Ecfg & _ & _ & Er & Ep & Eg & Ess & En).
  assert (Hsec : secret_ok (cookie_secret_ s1)) by (rewrite Esec1; apply MaybeRotate_ok, Hok).
  assert (Emtu : offered_mtu (zlen (request1_image (Z.to_nat (ZDTPayloadForLinkMTU rung (ipv there) - 10)))) s = mtu).
  { unfold offered_mtu, mtu, negotiated. rewrite Hz1. apply u16_small. lia. }
  rewrite Emtu in Hsent1. set (ck := Compute (readable me) (epoch_ (cookie_secret_ s1)) (cookie_secret_ s1)) in *.
  destruct (cap_range (srv_config_ s)) as [Hcap1 Hflag1]. destruct (cap_range cfg) as [Hcap2 Hflag2].
  assert (Hck : length ck = 16%nat) by apply length_Compute.
  assert (Hep : 0 <= epoch_ (cookie_secret_ s1) < 2 ^ 32) by apply Hsec.
  assert (Hrb : bytes_ok (reply1_image (server_guid_ s) mtu ck (epoch_ (cookie_secret_ s1)) (cap_of (srv_config_ s)))).
  { unfold reply1_image, offline_image. rewrite !bytes_ok_app.
    repeat split; try apply enc_bytes_ok; [by repeat constructor|apply Compute_bytes]. }
  set (p0 := mkProgress (repeat 0 16) 0 0 0 0 false recv_scratch).
  destruct (on_reply1_image (set_reply (Reset false (hp_reply p0)) p0) (server_guid_ s) mtu ck (epoch_ (cookie_secret_ s1))
    (cap_of (srv_config_ s))) as (rb & Eon1 & Hrb1); try done; [apply Reset_scratch, recv_scratch_ok|lia|].
  set (p1 := mkProgress ck (epoch_ (cookie_secret_ s1)) mtu (server_guid_ s) (cap_of (srv_config_ s)) true rb) in *.
  (* phase 1 *)
  assert (Ephase1 : phase1 there cfg (S (S polls)) (rung :: rest) p0 (mkLan s [] n) =
    Some (None, p1, mkLan s1 [] (S (S (S n))))).
  { cbn [phase1]. destruct (Z.to_nat (handshake_retries_per_rung cfg)) as [|attempts] eqn:Ea; [lia|].
    assert (Erung : phase1_rung there cfg (S (S polls)) (S attempts) rung p0 (mkLan s [] n) =
      Some (None, p1, mkLan s1 [] (S (S (S n))))).
    { cbn [phase1_rung]. change (hp_got_reply1 p0) with false. cbv iota. rewrite Eb1. cbn [net_send lan]. rewrite decide_True by done.
      cbn [lan_server lan_queue lan_ticks]. rewrite E1, (one_queued s s1 _ Hsent1). cbn [app negb net_now lan lan_ticks lan_server lan_queue].
      rewrite (wait_one on_reply1 hp_got_reply1 polls _ p0 p1 s1 _ _ (S n)); [|apply Hclock|done|exact Eon1|done].
      by destruct attempts. }
    by rewrite Erung. }
  (* phase 2 *)
  set (q := mkRequest2 ck (epoch_ (cookie_secret_ s1)) (Some there) mtu guid (cap_of cfg)).
  destruct (Request2_bytes there cfg guid p1 Hthere) as (Eb2 & Hok2 & Hz2); [apply Compute_bytes|done|]. cbn [hp_cookie hp_epoch hp_mtu p1] in Eb2, Hok2, Hz2.
  assert (Htaken : exists after, taken_in q s1 after).
  { unfold taken_in, live_route, has_room. rewrite Er, Ess, Ecfg. destruct Hlive as [?|[? ?] ]; eexists; [by left|right; by split_and!]. }
  destruct Htaken as [after Htaken].
  destruct (server_request2 s1 q (cookie_secret_ s1) after) as (s2 & E2 & Ecore2 & Hsent2); try done; try (cbn; lia).
  { rewrite Ecfg. lia. }
  { cbn [q q_cookie q_epoch q_mtu q_client_guid q_client_cap]. unfold ZNET_MAX_BUFFER_SIZE. lia. }
  cbn [q q_cookie q_epoch q_mtu q_client_guid q_client_cap] in E2, Hsent2. rewrite Eg in Hsent2.
  assert (Hrb2 : bytes_ok (reply2_image (server_guid_ s) me mtu)) by apply (Reply2_bytes me mtu s Hme).
  destruct (on_reply2_image cfg guid (set_reply (Reset false (hp_reply p1)) p1) (server_guid_ s) me mtu) as (p2 & Eon2);
    try done; [by apply Reset_scratch|lia|].
  assert (Econn : mkConnection (if negb (mtu =? 0) then mtu else hp_mtu (set_reply (Reset false (hp_reply p1)) p1)) guid
       (if negb (server_guid_ s =? 0) then server_guid_ s else hp_server_guid (set_reply (Reset false (hp_reply p1)) p1))
       (enable_connection_migration cfg && has_flag (hp_server_cap (set_reply (Reset false (hp_reply p1)) p1)) kZDTCapMigration) 0
    = mkConnection mtu guid (server_guid_ s) (enable_connection_migration cfg && enable_connection_migration (srv_config_ s)) 0).
  { cbn [hp_mtu hp_server_guid hp_server_cap set_reply p1]. rewrite Hflag1. by destruct (mtu =? 0), (server_guid_ s =? 0). }
  rewrite Econn in Eon2.
  unfold Handshake. rewrite Hladder. fold p0. rewrite Ephase1. cbn [hp_got_reply1 p1 negb].
  destruct (Z.to_nat (max_retries cfg)) as [|attempts] eqn:Ea; [lia|]. cbn [phase2].
  fold p1. rewrite Eb2. cbn [net_send lan]. rewrite decide_True by done.
  cbn [lan_server lan_queue lan_ticks]. rewrite E2, (one_queued s1 s2 _ Hsent2). cbn [app net_now lan lan_ticks lan_server lan_queue].
  rewrite (wait_answer (on_reply2 cfg guid) (S polls) _ p1 p2 _ s2 _ _ _ (Hclock _) Eon2).
  eexists _, q, s1, after. split; [reflexivity|]. cbn [lan_server]. by split_and!.
Qed.

(** A handshake that succeeds makes the client's session. *)
Lemma Connect_succeeds (c : ClientBackend) guid polls (w0 w : Lan) conn :
  cb_server_address c = Some there -> cb_is_bind c = true -> session_alive c = false -> cb_receiving c = false ->
  address_ok there -> Handshake there (cb_config c) guid polls w0 = Some (Success, conn, w) ->
  exists c' mine, Connect clk guid polls c w0 = Some (Returned Success c', w) /\ cb_session c' = Some mine /\ connection mine = conn.
Proof.
  intros Hto Hbound Hidle Hthread Hthere E. unfold Connect. rewrite Hidle, Hto.
  replace (is_valid there) with true by (destruct there; [done|done|by destruct Hthere]).
  rewrite Hbound. cbn [negb]. cbn [cb_config]. rewrite E. unfold start_receiving. cbn [cb_receiving]. rewrite Hthread.
  eexists _, _. by split_and!.
Qed.

(** [C4] A client and a server connect: over a network that carries their
    datagrams, with the client bound and the server willing to take it in (its lists
    and limits pass the client, it has room and no live session of that address),
    [Connect] succeeds at the first rung of the client's ladder.  The server then
    has exactly one new session, routed to the client and waiting to be accepted,
    the client has its session, and the two connections mirror each other: one MTU,
    within what the probe carried and what the server's top rung allows, each
    side's guid as the other's peer, and migration on exactly when both enabled it. *)
Theorem zdt_connects (c : ClientBackend) (guid rung : Z) (rest : list Z) (s : ServerBackend) (polls n : nat)
  (Hto : cb_server_address c = Some there) (Hbound : cb_is_bind c = true)
  (Hidle : session_alive c = false) (Hthread : cb_receiving c = false)
  (Hok : server_ok tclk s) (Hme : address_ok me) (Hthere : address_ok there)
  (Hguid : 0 <= guid < 2 ^ 64) (Hsguid : 0 <= server_guid_ s < 2 ^ 64)
  (Hladder : ladder_rungs (mtu_ladder (cb_config c)) = rung :: rest) (Hrung : 0 <= rung < 65536)
  (Hfits : ZDTPayloadForLinkMTU rung (ipv there) <= ZNET_MAX_BUFFER_SIZE)
  (Hfront : 0 < ZDTPayloadForLinkMTU (MTULadder_front (mtu_ladder (srv_config_ s))) (ipv me))
  (Htries : 1 <= handshake_retries_per_rung (cb_config c)) (Hretries : 1 <= max_retries (cb_config c))
  (Hclock : forall n, cclk (S n) < cclk n + handshake_retransmit (cb_config c) * 1000000)
  (Hadm : forall t, (Admit t me (admission_ s)).1 = Allow)
  (Hnew : source_rate_ s !! readable me = None) (Hrate : 2 <= per_source_handshake_rate (srv_config_ s))
  (Hlive : ~ live_route me s) (Hroom : has_room s) :
  let mtu := negotiated (cb_config c) rung s in
  let migration := enable_connection_migration (cb_config c) && enable_connection_migration (srv_config_ s) in
  let id := next_session_ s in
  exists c' w mine theirs, Connect clk guid (S (S polls)) c (mkLan s [] n) = Some (Returned Success c', w) /\
    cb_session c' = Some mine /\ connection mine = mkConnection mtu guid (server_guid_ s) migration 0 /\
    sessions_ (lan_server w) = <[id := theirs]> (sessions_ s) /\
    routes_ (lan_server w) = <[readable me := mkRoute id me guid]> (routes_ s) /\
    pending_accept_ (lan_server w) = pending_accept_ s ++ [id] /\
    connection theirs = mkConnection mtu (server_guid_ s) guid migration 0.
Proof.
  cbv zeta. assert (Htries0 : tries s = 0) by (unfold tries; by rewrite Hnew).
  destruct (handshake_over_lan (cb_config c) guid rung rest s polls n) as (w & q & s1 & after & E & Ecore1 & Em & Eg & Ecap & Htaken & Ecore); try done; [lia|by right|].
  apply core_inj in Ecore1 as Einj. destruct Einj as (Ecfg & _ & _ & Er & Ep & Esg & Ess & En).
  destruct Htaken as [ [Hl _]|(_ & _ & ->)]; [exfalso; apply Hlive; unfold live_route in *; by rewrite <- Er, <- Ess|].
  destruct (Connect_succeeds c guid (S (S polls)) (mkLan s [] n) w _ Hto Hbound Hidle Hthread Hthere E) as (c' & mine & E1 & E2 & E3).
  eexists c', w, mine, _. split; [exact E1|]. split; [exact E2|]. split; [exact E3|].
  apply core_inj in Ecore as (_ & _ & _ & -> & -> & _ & -> & _). unfold accept_session.
  cbn [sessions_ routes_ pending_accept_ set_pending set_routes set_next_session set_sessions].
  rewrite Er, Ep, Ess, En, Eg. do 3 (split; [reflexivity|]).
  unfold connection, ZDTTransportLayer_new, accepted_connection. cbn [setup_ connection_].
  rewrite Em, Eg, Ecap, Ecfg, Esg, (proj2 (cap_range (cb_config c))), andb_comm.
  pose proof (payload_range rung (ipv there)). destruct (Z.eqb_spec (negotiated (cb_config c) rung s) 0); [unfold negotiated in *; lia|done].
Qed.

(** [C40] A client that starts again from the address of a session the server
    still holds (the same port after a crash, or an address a NAT handed on) is told
    that it is connected, but it is joined to the old peer's session.  Whatever the
    new client's guid, over a network that carries the datagrams and with the
    limits passing it, [Connect] succeeds, while the server does not compare the
    request's guid with the route's: it accepts nothing and its routes and sessions
    are as before, with the old peer's connection.  And every reliable message the
    new client sends under a number the old session has already delivered on the
    channel, up to half a period back, is dropped as a repetition. *)
Theorem reconnect_joins_stale_session (c : ClientBackend) (guid rung : Z) (rest : list Z) (s : ServerBackend) (polls n : nat)
  (route : Route) (old : Transport)
  (Hto : cb_server_address c = Some there) (Hbound : cb_is_bind c = true)
  (Hidle : session_alive c = false) (Hthread : cb_receiving c = false)
  (Hok : server_ok tclk s) (Hme : address_ok me) (Hthere : address_ok there)
  (Hguid : 0 <= guid < 2 ^ 64) (Hsguid : 0 <= server_guid_ s < 2 ^ 64)
  (Hladder : ladder_rungs (mtu_ladder (cb_config c)) = rung :: rest) (Hrung : 0 <= rung < 65536)
  (Hfits : ZDTPayloadForLinkMTU rung (ipv there) <= ZNET_MAX_BUFFER_SIZE)
  (Hfront : 0 < ZDTPayloadForLinkMTU (MTULadder_front (mtu_ladder (srv_config_ s))) (ipv me))
  (Htries : 1 <= handshake_retries_per_rung (cb_config c)) (Hretries : 1 <= max_retries (cb_config c))
  (Hclock : forall n, cclk (S n) < cclk n + handshake_retransmit (cb_config c) * 1000000)
  (Hadm : forall t, (Admit t me (admission_ s)).1 = Allow)
  (Hrate : 0 <= tries s <= per_source_handshake_rate (srv_config_ s) - 2)
  (Hroute : routes_ s !! readable me = Some route) (Hold : sessions_ s !! r_session route = Some old) :
  exists c' w mine, Connect clk guid (S (S polls)) c (mkLan s [] n) = Some (Returned Success c', w) /\
    cb_session c' = Some mine /\ local_guid (connection mine) = guid /\
    routes_ (lan_server w) = routes_ s /\ sessions_ (lan_server w) = sessions_ s /\
    pending_accept_ (lan_server w) = pending_accept_ s /\
    forall ch flags k payload, has_flag flags kRecReliable = true ->
      0 <= k < rel_expected (channel_at old ch) -> rel_expected (channel_at old ch) < 2 ^ 62 ->
      rel_expected (channel_at old ch) <= k + 2 ^ 15 ->
      ready_ (rx_ (DeliverMessage (stream_record flags ch k) payload old)) = ready_ (rx_ old).
Proof.
  assert (Hlive : live_route me s) by (exists route; split; [done|by rewrite Hold]).
  destruct (handshake_over_lan (cb_config c) guid rung rest s polls n) as (w & q & s1 & after & E & Ecore1 & _ & _ & _ & Htaken & Ecore); try done; [by left|].
  destruct Htaken as [ [_ ->]|(Hn & _)].
  2: { destruct Hn. apply core_inj in Ecore1 as (_ & _ & _ & Er & _ & _ & Ess & _). unfold live_route. by rewrite Er, Ess. }
  rewrite Ecore1 in Ecore. apply core_inj in Ecore as (_ & _ & _ & Er & Ep & _ & Es & _).
  destruct (Connect_succeeds c guid (S (S polls)) (mkLan s [] n) w _ Hto Hbound Hidle Hthread Hthere E) as (c' & mine & E1 & E2 & E3).
  exists c', w, mine. rewrite E3. split_and!; try done. intros. by apply old_number_dropped.
Qed.

End Lan.

(** A client backend connects once: after a session has ended, [Connect] runs
    the handshake again, and when it succeeds assigns the new receive thread over
    the old one, which nothing has joined; that terminates the process. *)
Theorem reconnect_terminates `{Platform} `{Inet} `{Network W} (clk : nat -> Z) (guid1 guid2 : Z) (polls : nat)
  (server : InetAddress) (c c1 c2 : ClientBackend) (w w1 w2 w3 : W) (conn : ZDTConnection)
  (Hfirst : Connect clk guid1 polls c w = Some (Returned Success c1, w1))
  (Hended : cb_session c2 = None \/ (exists t, cb_session c2 = Some t /\ is_closed_ (path_ t) = true))
  (Hsame : cb_receiving c2 = cb_receiving c1 /\ cb_is_bind c2 = true /\ cb_server_address c2 = Some server /\
           is_valid server = true)
  (Hanswer : Handshake server (cb_config c2) guid2 polls w2 = Some (Success, conn, w3)) :
  Connect clk guid2 polls c2 w2 = Some (Terminated, w3).
Proof.
  destruct Hsame as (E1 & E2 & E3 & E4).
  assert (Hrun : cb_receiving c1 = true).
  { revert Hfirst. unfold Connect. destruct (session_alive c); [by intros [= ]|].
    destruct (cb_server_address c) as [a|]; [|by intros [= ]]. destruct (is_valid a); cbn [negb]; [|by intros [= ]].
    destruct (cb_is_bind c); cbn [negb]; [|by intros [= ]]. cbn [cb_config].
    destruct (Handshake a (cb_config c) guid1 polls w) as [ [ [r k] w']|]; [|done].
    unfold start_receiving. destruct r; intros E; try discriminate E. cbn [cb_receiving] in E.
    destruct (cb_receiving c); [discriminate E|]. injection E as <- _. reflexivity. }
  assert (Hdead : session_alive c2 = false).
  { unfold session_alive. destruct Hended as [->|(t & -> & ->)]; done. }
  unfold Connect. rewrite Hdead, E3, E4, E2. cbn [negb cb_config]. rewrite Hanswer.
  unfold start_receiving. cbn [cb_receiving]. by rewrite E1, Hrun.
Qed.
