(* ===== verification/ZdtServerExamples.v ===== *)
(** * The claims about the server and the handshake at work

    A server of the default configuration with migration enabled, a client that
    connects to it and moves, on a machine with a toy MAC and a concrete text form
    of addresses.  The states are built by the operations themselves, so they are
    reachable by construction. *)

From S2P Require Import Prelude Buffer BufferSpec BufferCodecs ZdtWire ZdtWireSpec ZdtOffline InetAddr InetAddrTheorems Admission ZdtCookie ZdtOptions ZdtState ZdtSend ZdtTransport ZdtInvariant ZdtSetup ZdtServer ZdtClient ZdtMessages ZdtServerTheorems ZdtRate ZdtConnect.

Module ServerExamples.

#[local] Existing Instance TextInet.text.
#[local] Existing Instance TextInet.text_laws.
#[local] Existing Instance ToyCrypto.toy.
#[local] Existing Instance ToyCrypto.toy_laws.

#[local] Instance machine : Platform := host LittleEndian.
#[local] Instance machine_ample : AmplePlatform machine := host_ample LittleEndian.

Definition clk (n : nat) : Z := Z.of_nat n * 1000.
Definition tclk (id n : nat) : Z := Z.of_nat n * 1000.
Definition walk (m : gmap (list Z) Route) : list (list Z * Route) := map_to_list m.

Lemma walk_ok m : walk m ≡ₚ map_to_list m.
Proof. done. Qed.

Definition server_at : InetAddress := InetAddressIPv4 [10; 0; 0; 1] 9000.
Definition client_at : InetAddress := InetAddressIPv4 [10; 0; 0; 7] 4000.
Definition moved_to : InetAddress := InetAddressIPv4 [10; 0; 1; 7] 4100.

Lemma server_at_ok : address_ok server_at.
Proof. repeat split; try lia; repeat constructor; done. Qed.
Lemma client_at_ok : address_ok client_at.
Proof. repeat split; try lia; repeat constructor; done. Qed.
Lemma moved_to_ok : address_ok moved_to.
Proof. repeat split; try lia; repeat constructor; done. Qed.

(** The defaults but for migration. *)
Definition cfg : ZDTOptions :=
  mkZDTOptions MTULadder_default 100 2000 10 512 4096 250 4 120000 4096 20 true 5000 (16 * 1024 * 1024) 4096 4096 256.
Definition options : ServerOptions := mkServerOptions [] [] 0 10000.

Definition fresh : ServerBackend := ZDTServerBackend_new clk (Some server_at) cfg CommonOptions_default options.
Definition bound : ServerBackend := (Bind (Some 3) true None 77 fresh).2.
Definition listening : ServerBackend := (Listen bound).2.

Abbreviation arrives bytes from s := (RouteDatagram clk tclk walk (recv_into recv_scratch bytes) from s).

Definition reached : ServerBackend -> Prop :=
  server_reachable clk tclk walk (Some server_at) cfg CommonOptions_default options.

Lemma listening_reached : reached listening.
Proof. eapply server_reach; [eapply server_reach; [apply server_new|apply step_bind]|apply step_listen]. Qed.

(** The cookie the server hands the client, and the request that echoes it. *)
Definition cookie : list Z := Compute (readable client_at) 0 (cookie_secret_ listening).
Definition request2 : list Z := request2_image cookie 0 server_at 1400 55 kZDTCapMigration.
Abbreviation connected := (arrives request2 client_at listening).

Lemma connected_reached : reached connected.
Proof. eapply server_reach; [apply listening_reached|]. apply step_route; [done|apply client_at_ok]. Qed.

Lemma reached_ok s : reached s -> server_ok tclk s.
Proof. intros H. by destruct (server_reachable_ok clk tclk walk walk_ok _ _ _ _ _ H). Qed.

Example one_session :
  map_size (routes_ connected) = 1 /\ pending_accept_ connected = [0%nat] /\
  (conn_mtu ∘ connection <$> sessions_ connected !! 0%nat) = Some 1400.
Proof. vm_compute. repeat split. Qed.

Lemma server_invariant_witness :
  map_size (routes_ connected) <= 4096 /\ Forall (fun id => is_Some (sessions_ connected !! id)) (pending_accept_ connected).
Proof.
  destruct (server_invariant clk tclk walk walk_ok _ _ _ _ connected connected_reached) as (H1 & _ & _ & H4 & _).
  split; [apply H1; vm_compute; reflexivity|exact H4].
Defined.

Lemma connected_session : exists t, sessions_ connected !! 0%nat = Some t.
Proof.
  assert (H : match sessions_ connected !! 0%nat with Some _ => true | None => false end = true)
    by (vm_compute; reflexivity).
  destruct (sessions_ connected !! 0%nat) as [t|]; [by exists t|discriminate H].
Qed.

Lemma session_needs_proof_witness :
  exists t, sessions_ connected !! 0%nat = Some t /\
    routes_ connected !! readable client_at = Some (mkRoute 0 client_at 55) /\
    migration_enabled (connection t) = true.
Proof.
  destruct connected_session as [t E].
  destruct (session_needs_proof clk tclk walk walk_ok (recv_into recv_scratch request2) client_at listening 0 t
    (reached_ok _ listening_reached) client_at_ok eq_refl E) as (_ & _ & _ & _ & _ & H6 & _ & H8).
  exists t. split; [exact E|]. split.
  - rewrite H6, lookup_insert_eq. vm_compute. reflexivity.
  - rewrite H8. vm_compute. reflexivity.
Defined.

Lemma answers_bounded_witness :
  exists l, sent_ (arrives (request1_image 1000) client_at listening) = l /\ (length l <= 1)%nat /\
    Forall (fun x => x.1 = client_at /\ zlen x.2 <= 41) l.
Proof.
  destruct (answers_bounded clk tclk walk (recv_into recv_scratch (request1_image 1000)) client_at listening client_at_ok)
    as (l & -> & H). exists l. by split.
Defined.

(** A request without padding is answered with four times its bytes. *)
Example unpadded_request1_amplified :
  zlen (request1_image 0) = 10 /\
  (fun x => zlen x.2) <$> sent_ (arrives (request1_image 0) client_at listening) = [41].
Proof. vm_compute. split; reflexivity. Qed.

(** The client answers a path challenge from another address. *)
Definition path_response : list Z :=
  datagram_bytes (WritePathMessage (offline_id PathResponse)
    (MakePathChallenge (cookie_secret_ connected) (readable moved_to) 55)).
Abbreviation moved := (arrives path_response moved_to connected).

Lemma connected_route : routes_ connected !! readable client_at = Some (mkRoute 0 client_at 55).
Proof. vm_compute. reflexivity. Qed.

Lemma other_key : readable client_at <> readable moved_to.
Proof. vm_compute. discriminate. Qed.

Lemma route_left : routes_ moved !! readable client_at = None.
Proof. vm_compute. reflexivity. Qed.

Lemma route_moves_only_when_proven_witness :
  exists response t, VerifyPathResponse (cookie_secret_ (rotated_state clk connected)) (readable moved_to) response = true /\
    routes_ moved !! readable moved_to = Some (mkRoute 0 moved_to 55) /\
    sessions_ moved !! 0%nat = Some (MigratePeer (Some moved_to) t).
Proof.
  destruct (route_moves_only_when_proven clk tclk walk walk_ok (recv_into recv_scratch path_response) moved_to connected
    (readable client_at) (mkRoute 0 client_at 55) (reached_ok _ connected_reached) moved_to_ok connected_route
    connected_session other_key) as [H|(response & t & H1 & _ & _ & H4 & _ & H6)].
  - exfalso. rewrite route_left in H. discriminate H.
  - exists response, t. split; [exact H1|]. split; [exact H4|exact H6].
Defined.

(** Nobody answers. *)
#[local] Instance silence : Network nat := {|
  net_now w := (Z.of_nat w * 1000000, w); net_send to bytes w := (true, w);
  net_recv w := (WouldBlock, w); net_sleep w := S w |}.

Definition milliseconds_left (d : Z) (w : nat) : nat := Z.to_nat ((d + 999999) / 1000000 - Z.of_nat w).

#[local] Instance silence_progresses : Progresses cfg milliseconds_left 250.
Proof.
  unfold milliseconds_left. split; cbn [net_now net_recv net_sleep silence fst snd handshake_retransmit cfg]; intros.
  - pose proof (Z.div_le_mono (Z.of_nat w * 1000000 + 1 + 999999) (d + 999999) 1000000 ltac:(lia) ltac:(lia)) as Hd.
    replace (Z.of_nat w * 1000000 + 1 + 999999) with ((Z.of_nat w + 1) * 1000000) in Hd by lia.
    rewrite Z.div_mul in Hd by lia. lia.
  - replace (Z.of_nat w * 1000000 + 250 * 1000000 + 999999) with (999999 + (Z.of_nat w + 250) * 1000000) by lia.
    rewrite Z.div_add by lia. change (999999 / 1000000) with 0. lia.
Qed.

(** Three rungs, four attempts of a quarter of a second each. *)
Example silent_handshake : Handshake server_at cfg 55 251 0%nat = Some (Timeout, ZDTConnection_default, 3000%nat).
Proof. vm_compute. reflexivity. Qed.

Lemma handshake_returns_witness :
  exists r conn w', Handshake server_at cfg 55 251 0%nat = Some (r, conn, w') /\ r = Timeout.
Proof.
  destruct (handshake_returns server_at cfg 55 milliseconds_left 250 0%nat) as (r & conn & w' & E).
  exists r, conn, w'. split; [exact E|]. rewrite silent_handshake in E. by injection E.
Defined.

(** ** Connecting *)

Definition cclk (n : nat) : Z := Z.of_nat n * 1000000.

Lemma no_live_route : ~ live_route client_at listening.
Proof. intros (r & Hr & _). by vm_compute in Hr. Qed.

Lemma admits_anyone t : (Admit t client_at (admission_ listening)).1 = Allow.
Proof. reflexivity. Qed.

Definition dialing : ClientBackend := (BindTo (Some 4) true (Some client_at) (ZDTClientBackend_new (Some server_at) cfg CommonOptions_default)).2.

#[local] Instance net : Network Lan := lan clk tclk walk cclk client_at server_at.

Lemma zdt_connects_witness :
  exists c' w mine theirs, Connect clk 55 2 dialing (mkLan listening [] 0) = Some (Returned Success c', w) /\
    cb_session c' = Some mine /\ connection mine = mkConnection 1464 55 77 true 0 /\
    routes_ (lan_server w) !! readable client_at = Some (mkRoute 0 client_at 55) /\
    connection theirs = mkConnection 1464 77 55 true 0.
Proof.
  destruct (zdt_connects clk tclk walk cclk client_at server_at dialing 55 1492 [1200; 576] listening 0 0)
    as (c' & w & mine & theirs & H1 & H2 & H3 & _ & H5 & _ & H7).
  - reflexivity.
  - reflexivity.
  - reflexivity.
  - reflexivity.
  - apply reached_ok, listening_reached.
  - apply client_at_ok.
  - apply server_at_ok.
  - lia.
  - vm_compute. split; [discriminate|reflexivity].
  - vm_compute. reflexivity.
  - lia.
  - vm_compute. discriminate.
  - vm_compute. reflexivity.
  - vm_compute. discriminate.
  - vm_compute. discriminate.
  - intros n. unfold cclk. change (handshake_retransmit (cb_config dialing)) with 250. lia.
  - apply admits_anyone.
  - vm_compute. reflexivity.
  - vm_compute. discriminate.
  - apply no_live_route.
  - intros _. vm_compute. reflexivity.
  - exists c', w, mine, theirs. split; [exact H1|]. split; [exact H2|]. split; [exact H3|].
    split; [rewrite H5, lookup_insert_eq; vm_compute; reflexivity|exact H7].
Defined.

(** The session of the first connection ends and the backend lets go of it. *)
Definition first : option (Outcome * Lan) := Connect clk 55 2 dialing (mkLan listening [] 0).
Definition first_client : ClientBackend := match first with Some (Returned _ c, _) => c | _ => dialing end.
Definition first_lan : Lan := match first with Some (_, w) => w | None => mkLan listening [] 0 end.
Definition hung_up : ClientBackend :=
  mkClient (cb_server_address first_client) (cb_config first_client) (cb_common first_client) (cb_is_bind first_client)
    (cb_socket first_client) (cb_local_address first_client) (cb_guid first_client) None (cb_receiving first_client).
Definition again : option (Result * ZDTConnection * Lan) := Handshake server_at (cb_config hung_up) 56 2 first_lan.
Definition again_lan : Lan := match again with Some (_, _, w) => w | None => first_lan end.

Lemma first_returned : Connect clk 55 2 dialing (mkLan listening [] 0) = Some (Returned Success first_client, first_lan).
Proof. vm_compute. reflexivity. Qed.

Lemma again_answered :
  Handshake server_at (cb_config hung_up) 56 2 first_lan = Some (Success, mkConnection 1464 56 77 true 0, again_lan).
Proof. vm_compute. reflexivity. Qed.

Lemma reconnect_terminates_witness : Connect clk 56 2 hung_up first_lan = Some (Terminated, again_lan).
Proof.
  apply (reconnect_terminates clk 55 56 2 server_at dialing first_client hung_up (mkLan listening [] 0) first_lan first_lan
    again_lan (mkConnection 1464 56 77 true 0)).
  - exact first_returned.
  - left. reflexivity.
  - split; [reflexivity|]. vm_compute. repeat split.
  - exact again_answered.
Defined.

(** ** Reconnecting from the same address *)

(** The transport a client drives after its handshake, and what a message of it
    puts on the wire. *)
Definition client (conn : ZDTConnection) : Transport :=
  ZDTTransportLayer_new (tclk 0) (Some 4) (Some server_at) cfg true conn CommonOptions_default.
Definition datagrams (bytes : list Z) (conn : ZDTConnection) : list (list Z) :=
  (fun d => d.2) <$> wire_ (path_ (Update (tclk 0) [] (Send (Buffer_from bytes LittleEndian) SendOptions_default (client conn)).2)).

(** The datagrams arrive and the session takes them in. *)
Definition served (ds : list (list Z)) (s : ServerBackend) : ServerBackend :=
  let s := foldl (fun s d => arrives d client_at s) s ds in
  set_sessions (alter (Update (tclk 0) []) 0%nat (sessions_ s)) s.

Definition delivered (s : ServerBackend) : option (list (list Z)) :=
  (fun t => avail <$> ready_ (rx_ t)) <$> sessions_ s !! 0%nat.

(** What the first client had sent when it went away. *)
Definition used : ServerBackend := served (datagrams [1] (mkConnection 1400 55 77 true 0)) connected.

(** The new client connects over the network of the server that holds the old
    session, and the session still has the old client's guid. *)
Lemma reconnect_joins_stale_session_witness :
  exists c' w mine, Connect clk 56 2 dialing (mkLan connected [] 0) = Some (Returned Success c', w) /\
    cb_session c' = Some mine /\ local_guid (connection mine) = 56 /\
    routes_ (lan_server w) !! readable client_at = Some (mkRoute 0 client_at 55) /\
    (remote_guid ∘ connection <$> sessions_ (lan_server w) !! 0%nat) = Some 55.
Proof.
  destruct connected_session as [old Hold].
  destruct (reconnect_joins_stale_session clk tclk walk cclk client_at server_at dialing 56 1492 [1200; 576] connected 0 0
    (mkRoute 0 client_at 55) old) as (c' & w & mine & H1 & H2 & H3 & H4 & H5 & _ & _).
  - reflexivity.
  - reflexivity.
  - reflexivity.
  - reflexivity.
  - apply reached_ok, connected_reached.
  - apply client_at_ok.
  - apply server_at_ok.
  - lia.
  - vm_compute. split; [discriminate|reflexivity].
  - vm_compute. reflexivity.
  - lia.
  - vm_compute. discriminate.
  - vm_compute. reflexivity.
  - vm_compute. discriminate.
  - vm_compute. discriminate.
  - intros n. unfold cclk. change (handshake_retransmit (cb_config dialing)) with 250. lia.
  - intros t. vm_compute. reflexivity.
  - vm_compute. split; discriminate.
  - apply connected_route.
  - exact Hold.
  - exists c', w, mine. split; [exact H1|]. split; [exact H2|]. split; [exact H3|].
    rewrite H4, H5. split; [apply connected_route|vm_compute; reflexivity].
Defined.

(** The same end to end: the first client's message was delivered; the second
    client connects and its first message never comes up. *)
Example restarted_client_is_not_heard :
  let conn := mkConnection 1464 56 77 true 0 in
  delivered used = Some [ [1] ] /\
  exists s', (match Handshake (N := lan clk tclk walk cclk client_at server_at) server_at cfg 56 2 (mkLan used [] 0) with
              | Some (r, c, w) => Some (r, c, lan_server w)
              | None => None
              end) = Some (Success, conn, s') /\
    routes_ s' = routes_ used /\ pending_accept_ s' = pending_accept_ used /\
    delivered (served (datagrams [2] conn) s') = Some [ [1] ].
Proof.
  cbv zeta. split; [vm_compute; reflexivity|]. eexists. split; [vm_compute; reflexivity|].
  split; [vm_compute; reflexivity|]. split; vm_compute; reflexivity.
Qed.

End ServerExamples.
