(* ===== verification/ZdtReliability.v ===== *)
(** * What acknowledgments do to the sender

    An acknowledgment retires only messages the peer received, a reported gap is
    resent at the next scan, and where batching and retransmission meet an
    acknowledged message can be resent for nothing. *)

From S2P Require Import Prelude Buffer BufferSpec ZdtWire ZdtAckHistory ZdtCongestion ZdtOptions.
From S2P Require Import ZdtState ZdtSend ZdtAcks ZdtReceive ZdtFlush MpscQueue ZdtTransport ZdtInvariant.

(** ** Retiring *)

(** From [s] to [s'] the sender forgot only messages carried by a packet in [acked]. *)
Record retires (acked : Z -> Prop) (s s' : Sender) : Prop := {
  rt_sent : sent_packets_ s' ⊆ sent_packets_ s;
  rt_unacked k : is_Some (unacked_ s !! k) -> unacked_ s' !! k = None ->
    exists q info, acked q /\ sent_packets_ s !! q = Some info /\ k ∈ si_keys info
}.

Lemma retires_refl acked s : retires acked s s.
Proof. split; [done|]. intros k [o E] E'. by rewrite E in E'. Qed.

Lemma retires_weaken (A B : Z -> Prop) s s' : (forall q, A q -> B q) -> retires A s s' -> retires B s s'.
Proof.
  intros H [H1 H2]. split; [done|]. intros k Hk Hn. destruct (H2 k Hk Hn) as (q & info & ? & ? & ?).
  exists q, info. auto.
Qed.

Lemma retires_trans acked s1 s2 s3 : retires acked s1 s2 -> retires acked s2 s3 -> retires acked s1 s3.
Proof.
  intros [A1 A2] [B1 B2]. split; [by transitivity (sent_packets_ s2)|]. intros k Hk Hn.
  destruct (unacked_ s2 !! k) as [o|] eqn:E; [|by apply A2].
  destruct (B2 k (ex_intro _ o E) Hn) as (q & info & ? & Hq & ?). exists q, info. split_and!; [done| |done].
  by apply (lookup_weaken _ _ _ _ Hq).
Qed.

Lemma RetireSentPacket_retires acked q s : retires acked s (RetireSentPacket q s).
Proof.
  split; [rewrite RetireSentPacket_gone; apply delete_subseteq|]. intros k [o E]. rewrite RetireSentPacket_unacked.
  intros E'. by rewrite E in E'.
Qed.

Lemma foldl_retires {B} acked (f : Sender -> B -> Sender) l s :
  (forall s b, retires acked s (f s b)) -> retires acked s (foldl f s l).
Proof.
  intros Hf. revert s. induction l as [|b l IH]; intros s; [apply retires_refl|].
  eapply retires_trans; [apply Hf|apply IH].
Qed.

Lemma nak_key_retires acked s k : retires acked s (nak_key s k).
Proof.
  unfold nak_key. destruct (unacked_ s !! k) as [o|] eqn:E; [|apply retires_refl]. split; [done|].
  intros k' Hk'. cbn. rewrite lookup_insert_None. intros [E' _]. by destruct Hk' as [o' Ho']; rewrite Ho' in E'.
Qed.

(** Retiring the keys of one packet. *)
Lemma ack_keys_retires q keys s info :
  sent_packets_ s !! q = Some info -> keys ⊆ si_keys info ->
  retires (eq q) s (foldl (ack_key q) s keys).
Proof.
  intros Hq Hk. assert (H : forall s', retires (eq q) s s' -> retires (eq q) s (foldl (ack_key q) s' keys)).
  { induction keys as [|k keys IH]; intros s' Hs'; [done|]. cbn [foldl].
    apply IH; [intros x Hx; apply Hk; by right|]. unfold ack_key.
    destruct (unacked_ s' !! k) as [o|] eqn:E; [|done]. set (s1 := foldl _ s' _).
    assert (H1 : retires (eq q) s s1).
    { eapply retires_trans; [exact Hs'|]. apply foldl_retires. intros s0 b.
      destruct (negb _); [apply RetireSentPacket_retires|apply retires_refl]. }
    destruct H1 as [A1 A2]. split; [done|]. intros k' Hk' Hn. cbn in Hn. apply lookup_delete_None in Hn as [<-|Hn].
    - exists q, info. split_and!; [done|done|]. apply Hk. by left.
    - by apply A2. }
  apply H, retires_refl.
Qed.

Lemma AckPacket_retires q arrival t : retires (fun x => x = q /\ q <> 0) (tx_ t) (tx_ (AckPacket q arrival t).2).
Proof.
  unfold AckPacket. destruct (Z.eqb_spec q 0); [apply retires_refl|].
  destruct (sent_packets_ (tx_ t) !! q) as [info|] eqn:E; [|apply retires_refl]. cbn [snd upd_tx set_tx tx_].
  set (s := set_rtt _ (tx_ t)). apply (retires_weaken (eq q)); [intros ? <-; done|].
  assert (H0 : retires (eq q) s (RetireSentPacket q (foldl (ack_key q) s (si_keys info)))).
  { eapply retires_trans; [|apply RetireSentPacket_retires]. by apply (ack_keys_retires q _ s info). }
  by destruct H0.
Qed.

Lemma OnNak_retires q t : retires (fun _ => False) (tx_ t) (tx_ (OnNak q t)).
Proof.
  unfold OnNak. destruct (_ !! q) as [info|]; [|apply retires_refl]. cbn [upd_tx set_tx tx_].
  eapply retires_trans; [|apply RetireSentPacket_retires]. apply foldl_retires. intros. apply nak_key_retires.
Qed.

(** The packets named by the ack runs of [blocks], from position [offset] on. *)
Definition acked_by (blocks : list ZDTAckBlock) (ack offset : Z) (q : Z) : Prop :=
  exists i, runs blocks !! i = Some true /\ q = u16 (ack - (offset + Z.of_nat i)) /\ q <> 0.

Lemma ack_run_retires n ack offset arrival acked t :
  retires (fun q => exists i, (i < n)%nat /\ q = u16 (ack - (offset + Z.of_nat i)) /\ q <> 0)
    (tx_ t) (tx_ (ack_run n ack offset arrival acked t).2).
Proof.
  revert offset acked t. induction n as [|n IH]; intros offset acked t; cbn [ack_run]; [apply retires_refl|].
  pose proof (AckPacket_retires (u16 (ack - offset)) arrival t) as H.
  destruct (AckPacket _ _ _) as [fresh t1]. cbn [snd] in H. eapply retires_trans.
  - eapply retires_weaken; [|exact H]. intros q [-> Hq]. exists 0%nat. split_and!; [lia|f_equal; lia|done].
  - eapply retires_weaken; [|apply IH]. intros q (i & Hi & -> & Hq). exists (S i). split_and!; [lia|f_equal; lia|done].
Qed.

Lemma nak_run_retires n ack offset t : retires (fun _ => False) (tx_ t) (tx_ (nak_run n ack offset t)).
Proof.
  revert offset t. induction n as [|n IH]; intros offset t; cbn [nak_run]; [apply retires_refl|].
  eapply retires_trans; [apply OnNak_retires|apply IH].
Qed.

Lemma runs_cons k blocks :
  runs (k :: blocks) = repeat true (Z.to_nat (num_ack k)) ++ repeat false (Z.to_nat (num_nack k)) ++ runs blocks.
Proof. unfold runs. rewrite bind_cons_eq. by rewrite app_assoc. Qed.

Lemma ack_blocks_retires blocks ack offset arrival acked t :
  Forall block_ok blocks ->
  retires (acked_by blocks ack offset) (tx_ t) (tx_ (ack_blocks blocks ack offset arrival acked t).2).
Proof.
  intros Hb. revert offset acked t. induction Hb as [|k blocks [Ha Hn] _ IH]; intros offset acked t; cbn [ack_blocks];
    [apply retires_refl|]. destruct (_ <? _); [|apply retires_refl].
  pose proof (ack_run_retires (Z.to_nat (num_ack k)) ack offset arrival acked t) as H.
  destruct (ack_run _ _ _ _ _ _) as [acked1 t1]. cbn [snd] in H.
  eapply retires_trans; [|eapply retires_trans].
  - eapply retires_weaken; [|exact H]. intros q (i & Hi & Hq). exists i. split; [|done]. rewrite runs_cons.
    rewrite lookup_app_l by (rewrite repeat_length; lia). by apply lookup_repeat.
  - eapply retires_weaken; [|apply (nak_run_retires (Z.to_nat (num_nack k)) ack (offset + num_ack k))]. done.
  - eapply retires_weaken; [|apply IH]. intros q (i & Hi & -> & Hq).
    exists (Z.to_nat (num_ack k) + (Z.to_nat (num_nack k) + i))%nat. split_and!; [|f_equal; lia|done].
    rewrite runs_cons, lookup_app_r by (rewrite repeat_length; lia). rewrite repeat_length.
    rewrite lookup_app_r by (rewrite repeat_length; lia). rewrite repeat_length.
    by replace (Z.to_nat (num_ack k) + (Z.to_nat (num_nack k) + i) - Z.to_nat (num_ack k) - Z.to_nat (num_nack k))%nat with i by lia.
Qed.

(** The blocks the loop reads are the ones reported. *)
Lemma header_blocks h :
  length (h_blocks h) = 24%nat -> 0 <= h_block_count h <= 24 ->
  map (block_at h) (seq 0 (Z.to_nat (h_block_count h))) = reported h.
Proof.
  intros Hl Hc. unfold reported. apply list_eq. intros i.
  change (map (block_at h) ?l) with (block_at h <$> l). rewrite list_lookup_fmap.
  destruct (decide (i < Z.to_nat (h_block_count h))%nat) as [Hi|Hi].
  - rewrite lookup_seq_lt by done. cbn. rewrite lookup_take_lt by done. unfold block_at. cbn.
    destruct (lookup_lt_is_Some_2 (h_blocks h) i ltac:(lia)) as [x ->]. done.
  - rewrite lookup_seq_ge by lia. rewrite lookup_take_ge by lia. done.
Qed.

Lemma upd_rearm_retires `{P : Platform} acked clk h arrival t :
  retires acked (tx_ t) (tx_ (ack_blocks (map (block_at h) (seq 0 (Z.to_nat (h_block_count h)))) (h_ack h) 0 arrival 0
    (upd_tx (fun s => set_congestion (OnAckArrived (congestion_ s) (h_ack h)) s) t)).2) ->
  retires acked (tx_ t) (tx_ (ProcessAcks clk h arrival t)).
Proof.
  intros H. unfold ProcessAcks. destruct (ack_blocks _ _ _ _ _ _) as [n t1]. cbn [snd] in H.
  destruct (0 <? n); [|done]. unfold now_, RearmTailProbe. destruct H. by split.
Qed.

(** ** Resending what was reported missing *)

Section Resend.
Context `{P : Platform} (clk : nat -> Z).

(** The scan touches only the message it looks at. *)
Lemma scan_message_other now acc k k' :
  k' <> k -> unacked_ (tx_ (scan_message clk now acc k).2) !! k' = unacked_ (tx_ acc.2) !! k'.
Proof.
  intros Hne. destruct acc as [sc t]. cbn [snd]. unfold scan_message. destruct (sc_gave_up sc); [done|].
  destruct (unacked_ (tx_ t) !! k) as [o|] eqn:E; [|done]. destruct (_ <? _); [done|].
  destruct (_ <=? _).
  - unfold Close. destruct (is_closed_ _); [done|]. cbn [snd]. unfold Shutdown.
    set (t1 := upd_path (set_is_closed true) t).
    assert (Htx : forall t2, tx_ t2 = tx_ t -> unacked_ (tx_ (match socket_ (path_ t2) with
      | Some s => if drains_own_socket_ (setup_ t2) then upd_path (fun p => set_shutdowns (shutdowns_ p ++ [s]) p) t2 else t2
      | None => t2 end)) !! k' = unacked_ (tx_ t) !! k').
    { intros t2 E2. destruct (socket_ (path_ t2)); [destruct (drains_own_socket_ _)|]; cbn; by rewrite E2. }
    apply Htx. unfold SendTo. by destruct (socket_ (path_ t1)), (peer_ (path_ t1)).
  - unfold ResendReliable. set (p := MakeRecord _ _ _ _ _ _ _ _ _). pose proof (SendBatch_frame clk 0 [p] t) as [_ _ Fu _ _ _].
    destruct (SendBatch clk 0 [p] t) as [packet t1]. cbn [snd] in *. cbn. rewrite lookup_insert_ne by done. by rewrite Fu.
Qed.

(** A message past its threshold is transmitted again, unless its retries are
    used up. *)
Lemma scan_message_due now sc t k o :
  sc_gave_up sc = false -> unacked_ (tx_ t) !! k = Some o ->
  ms (retransmit_threshold t o) <= now - o_last_send o -> o_send_count o < max_retries (config t) ->
  let '(sc', t') := scan_message clk now (sc, t) k in
  sc_gave_up sc' = false /\
  exists o', unacked_ (tx_ t') !! k = Some o' /\ o_send_count o' = o_send_count o + 1 /\ o_last_send o' = now.
Proof.
  intros Hg E Hdue Hret. unfold scan_message. rewrite Hg, E.
  destruct (Z.ltb_spec (now - o_last_send o) (ms (retransmit_threshold t o))); [lia|].
  destruct (Z.leb_spec (max_retries (config t)) (o_send_count o)); [lia|].
  unfold ResendReliable. set (p := MakeRecord _ _ _ _ _ _ _ _ _).
  destruct (SendBatch clk 0 [p] t) as [packet t1]. split; [done|].
  eexists. split; [cbn; apply lookup_insert_eq|]. done.
Qed.

Lemma scan_message_gave_up now acc k : sc_gave_up acc.1 = true -> scan_message clk now acc k = acc.
Proof. destruct acc as [sc t]. cbn. intros H. unfold scan_message. by rewrite H. Qed.

Lemma scan_gave_up now acc l : sc_gave_up acc.1 = true -> foldl (scan_message clk now) acc l = acc.
Proof. revert acc. induction l as [|k l IH]; intros acc H; [done|]. cbn [foldl]. rewrite scan_message_gave_up by done. by apply IH. Qed.

Lemma scan_setup now acc k : setup_ (scan_message clk now acc k).2 = setup_ acc.2 /\ rtt_ (tx_ (scan_message clk now acc k).2) = rtt_ (tx_ acc.2).
Proof.
  destruct acc as [sc t]. cbn [snd]. unfold scan_message. destruct (sc_gave_up sc); [done|].
  destruct (unacked_ (tx_ t) !! k) as [o|]; [|done]. destruct (_ <? _); [done|]. destruct (_ <=? _).
  - unfold Close. destruct (is_closed_ _); [done|]. cbn [snd]. unfold Shutdown, SendTo.
    set (t1 := upd_path (set_is_closed true) t).
    destruct (socket_ (path_ t1)) as [so|] eqn:E1, (peer_ (path_ t1)) as [a|]; cbn [upd_path set_path path_ setup_ tx_ set_wire socket_];
      rewrite ?E1; try destruct (drains_own_socket_ _); done.
  - unfold ResendReliable. set (p := MakeRecord _ _ _ _ _ _ _ _ _).
    assert (Hs : setup_ (SendBatch clk 0 [p] t).2 = setup_ t /\ rtt_ (tx_ (SendBatch clk 0 [p] t).2) = rtt_ (tx_ t)).
    { split; [apply SendBatch_frame|]. unfold SendBatch. destruct (socket_ (path_ t)); [|done]. destruct (peer_ (path_ t)); [|done].
      generalize (batch_datagram 0 [p] t). intros d. set (t0 := upd_tx (set_send_scratch d) _).
      destruct (SendTo_frame d t0) as (E1 & _). unfold now_, file_packet. cbn. destruct (0 <? _); cbn; rewrite E1; unfold t0; cbn;
      unfold RetireSentPacket; destruct (_ !! _); try destruct (_ && _); done. }
    destruct (SendBatch clk 0 [p] t) as [packet t1]. exact Hs.
Qed.

Lemma scan_reaches now l sc t k o :
  k ∈ l -> NoDup l -> unacked_ (tx_ t) !! k = Some o ->
  ms (retransmit_threshold t o) <= now - o_last_send o -> o_send_count o < max_retries (config t) ->
  let '(sc', t') := foldl (scan_message clk now) (sc, t) l in
  sc_gave_up sc' = true \/
  exists o', unacked_ (tx_ t') !! k = Some o' /\ o_send_count o' = o_send_count o + 1 /\ o_last_send o' = now.
Proof.
  intros Hk Hnd. revert sc t. induction Hnd as [|k' l Hnk Hnd IH]; intros sc t E Hdue Hret; [by apply not_elem_of_nil in Hk|].
  destruct (sc_gave_up sc) eqn:Eg; [rewrite scan_gave_up by done; by left|]. cbn [foldl].
  pose proof (scan_setup now (sc, t) k') as [Es Er]. cbn [snd] in Es, Er.
  apply elem_of_cons in Hk as [<-|Hk].
  - pose proof (scan_message_due now sc t k o Eg E Hdue Hret) as H.
    destruct (scan_message clk now (sc, t) k) as [sc1 t1]. destruct H as (_ & o' & E' & H').
    assert (Hstay : forall acc, unacked_ (tx_ (foldl (scan_message clk now) acc l).2) !! k = unacked_ (tx_ acc.2) !! k).
    { clear -Hnk. induction l as [|x l IH]; intros acc; [done|]. cbn [foldl].
      rewrite IH by (intros H; apply Hnk; by right). apply scan_message_other. intros ->. apply Hnk. by left. }
    specialize (Hstay (sc1, t1)). destruct (foldl _ (sc1, t1) l) as [sc2 t2]. cbn [snd] in Hstay. right.
    exists o'. by rewrite Hstay.
  - assert (Hne : k <> k') by (intros ->; done). pose proof (scan_message_other now (sc, t) k' k Hne) as Eo.
    cbn [snd] in Eo. destruct (scan_message clk now (sc, t) k') as [sc1 t1]. cbn [snd] in *.
    apply IH; [done|by rewrite Eo|unfold retransmit_threshold, config in *; by rewrite Es, Er|unfold config in *; by rewrite Es].
Qed.

Lemma ordered_keys_spec {A} (m : gmap MsgKey A) :
  NoDup (ordered_keys m) /\ forall k, k ∈ ordered_keys m <-> is_Some (m !! k).
Proof.
  unfold ordered_keys. split.
  - rewrite merge_sort_Permutation. apply NoDup_fst_map_to_list.
  - intros k. rewrite merge_sort_Permutation, list_elem_of_fmap. split.
    + intros ([k' a] & -> & H). apply elem_of_map_to_list in H. by exists a.
    + intros [a E]. exists (k, a). split; [done|]. by apply elem_of_map_to_list.
Qed.

(** The scan gives up only by closing the transport. *)
Lemma scan_gave_up_closed now acc l :
  (sc_gave_up acc.1 = true -> is_closed_ (path_ acc.2) = true) ->
  sc_gave_up (foldl (scan_message clk now) acc l).1 = true -> is_closed_ (path_ (foldl (scan_message clk now) acc l).2) = true.
Proof.
  revert acc. induction l as [|x l IH]; intros acc Ha; [done|]. cbn [foldl]. apply IH.
  destruct acc as [sc u]. unfold scan_message. destruct (sc_gave_up sc) eqn:Eg; [done|].
  destruct (unacked_ (tx_ u) !! x) as [ox|]; [|cbn; congruence]. destruct (_ <? _); [done|]. destruct (_ <=? _).
  - intros _. cbn [snd]. unfold Close. destruct (is_closed_ (path_ u)) eqn:Ecl; [done|]. cbn [snd]. unfold Shutdown, SendTo.
    set (u1 := upd_path (set_is_closed true) u). destruct (socket_ (path_ u1)) as [so|] eqn:E1, (peer_ (path_ u1)) as [a|];
      cbn [upd_path set_path path_ set_wire socket_]; rewrite ?E1; try destruct (drains_own_socket_ _); done.
  - destruct (ResendReliable clk x ox u). done.
Qed.

End Resend.

(** After [nak_key] over the keys of a packet, each message of it still tracked
    is marked lost and the scan is due. *)
Lemma nak_keys_mark keys s k o :
  k ∈ keys -> unacked_ s !! k = Some o ->
  let s' := foldl nak_key s keys in
  unacked_ s' !! k = Some (set_o_last_send 0 o) /\ next_retransmit_scan_ s' = TimePoint_min.
Proof.
  intros Hk E. cbn zeta.
  assert (Hdone : forall keys s, unacked_ s !! k = Some (set_o_last_send 0 o) -> next_retransmit_scan_ s = TimePoint_min ->
    unacked_ (foldl nak_key s keys) !! k = Some (set_o_last_send 0 o) /\ next_retransmit_scan_ (foldl nak_key s keys) = TimePoint_min).
  { clear. induction keys as [|x keys IH]; intros s H1 H2; [done|]. cbn [foldl]. apply IH.
    - unfold nak_key. destruct (unacked_ s !! x) as [ox|] eqn:Ex; [|done]. cbn.
      destruct (decide (x = k)) as [->|]; [|by rewrite lookup_insert_ne].
      rewrite lookup_insert_eq. rewrite H1 in Ex. by injection Ex as <-.
    - unfold nak_key. by destruct (unacked_ s !! x). }
  revert s E. induction keys as [|x keys IH]; intros s E; [by apply not_elem_of_nil in Hk|]. cbn [foldl].
  destruct (decide (x = k)) as [->|Hne].
  - apply Hdone; unfold nak_key; rewrite E; cbn; [apply lookup_insert_eq|done].
  - apply elem_of_cons in Hk as [->|Hk]; [done|]. apply IH; [done|]. unfold nak_key.
    destruct (unacked_ s !! x); [|done]. cbn. by rewrite lookup_insert_ne.
Qed.

Lemma OnNak_mark q t info k o :
  sent_packets_ (tx_ t) !! q = Some info -> k ∈ si_keys info -> unacked_ (tx_ t) !! k = Some o ->
  unacked_ (tx_ (OnNak q t)) !! k = Some (set_o_last_send 0 o) /\ next_retransmit_scan_ (tx_ (OnNak q t)) = TimePoint_min /\
  rtt_ (tx_ (OnNak q t)) = rtt_ (tx_ t).
Proof.
  intros Hq Hk E. unfold OnNak. rewrite Hq. cbn [upd_tx set_tx tx_].
  destruct (nak_keys_mark _ (tx_ t) k o Hk E) as [H1 H2].
  assert (Hr : forall keys s, rtt_ (foldl nak_key s keys) = rtt_ s).
  { clear. induction keys as [|x keys IH]; intros s; [done|]. cbn [foldl]. rewrite IH. unfold nak_key.
    by destruct (unacked_ s !! x). }
  specialize (Hr (si_keys info) (tx_ t)). rewrite RetireSentPacket_unacked. unfold RetireSentPacket.
  destruct (sent_packets_ (foldl nak_key (tx_ t) (si_keys info)) !! q); [|done]. by destruct (_ && _).
Qed.

(** ** Theorems *)

Section Theorems.
Context `{P : Platform} (clk : nat -> Z).

(** [C7] No false retirement.  Let the header's acknowledgment be one the peer
    built from the packets [l] it took in.  Processing it, a message leaves the
    retransmit table only if some packet the peer really took in carried it, so
    a reliable message is resent until it is received.  Packets are named by their
    number modulo 2^16, as on the wire, and each packet of [l] arrived within half a
    period of the newest before it ([arrivals]). *)
Theorem acks_retire_only_received (l : list Z) (Hl : arrivals l) (base : ZDTHeader) (max_blocks cap : Z)
  (HB : length (h_blocks base) = 24%nat) (Hm : 0 < max_blocks) (Hc : 0 <= cap)
  (arrival : Z) (t : Transport) (k : MsgKey)
  (Hk : is_Some (unacked_ (tx_ t) !! k))
  (Hgone : unacked_ (tx_ (ProcessAcks clk (Fill (record_all l) base max_blocks cap) arrival t)) !! k = None) :
  exists s info, s ∈ l /\ sent_packets_ (tx_ t) !! u16 s = Some info /\ k ∈ si_keys info.
Proof.
  pose proof (record_all_tracks l Hl) as T. pose proof (arrivals_nonempty l Hl) as Hn.
  pose proof (valid_bits_range _ _ Hn T) as Hv. destruct T as [Ha _ Hh Hb Hvb].
  set (h := Fill (record_all l) base max_blocks cap) in *.
  destruct (Fill_spec (record_all l) base max_blocks cap Ha Hm Hc ltac:(lia) HB)
    as (Eack & Hcnt & Hlen & Hok & _ & _ & _ & n & dr & Hle & Hr & _). fold h in Eack, Hcnt, Hlen, Hok, Hr.
  assert (R : retires (acked_by (reported h) (h_ack h) 0) (tx_ t) (tx_ (ProcessAcks clk h arrival t))).
  { apply upd_rearm_retires. rewrite header_blocks by (done || unfold kZDTMaxAckBlocks in *; lia).
    set (t1 := upd_tx _ t). destruct (ack_blocks_retires (reported h) (h_ack h) 0 arrival 0 t1 Hok) as [A B]. by split. }
  destruct (rt_unacked _ _ _ R k Hk Hgone) as (q & info & (i & Hi & -> & _) & Hq & Hin).
  apply (lookup_app_l_Some _ (runs dr)) in Hi. rewrite <- runs_app, Hr, window_lookup in Hi. destruct Hi as [Hlt Hbit].
  unfold fill_limit, kZDTAckHistoryBits in *. rewrite Hb in Hbit by (unfold history_bits; lia).
  symmetry in Hbit. apply bool_decide_eq_true in Hbit.
  exists (newest l - Z.of_nat i), info. split_and!; [done| |done].
  rewrite Eack, Hh, Z.add_0_l, u16_idemp_sub in Hq. done.
Qed.

(** A reported gap is resent at once.  When the peer reports packet [q]
    missing, the next retransmit scan transmits every message [q] carried that is
    still unacknowledged and has retries left, without waiting for its timeout;
    only giving up on another message, which closes the connection, prevents
    it. *)
Theorem nak_forces_resend (q : Z) (t : Transport) (info : SentInfo) (k : MsgKey) (o : OutReliable)
  (Hq : sent_packets_ (tx_ t) !! q = Some info) (Hk : k ∈ si_keys info) (Ho : unacked_ (tx_ t) !! k = Some o)
  (Hret : o_send_count o < max_retries (config t))
  (Hclk : TimePoint_min <= ms (rto_max (config t)) <= clk (ticks_ (path_ t))) :
  let t' := RetransmitUnacked clk (OnNak q t) in
  (is_closed_ (path_ t') = true) \/
  exists o', unacked_ (tx_ t') !! k = Some o' /\ o_send_count o' = o_send_count o + 1 /\
    o_last_send o' = clk (ticks_ (path_ t)).
Proof.
  intros t'. destruct (OnNak_mark q t info k o Hq Hk Ho) as (Eo & Es & Er).
  assert (Ep : path_ (OnNak q t) = path_ t /\ setup_ (OnNak q t) = setup_ t) by (unfold OnNak; by rewrite Hq).
  destruct Ep as [Ep Ec]. set (now := clk (ticks_ (path_ t))) in *.
  unfold t', RetransmitUnacked, now_. cbn zeta. rewrite Ep. fold now.
  set (t1 := upd_path _ (OnNak q t)). cbn [t1 upd_path set_path tx_].
  change (tx_ t1) with (tx_ (OnNak q t)). rewrite Es.
  destruct (Z.ltb_spec now TimePoint_min) as [Hlt|_]; [lia|].
  destruct (ordered_keys_spec (unacked_ (tx_ (OnNak q t)))) as [Hnd Hin].
  pose proof (scan_reaches clk now (ordered_keys (unacked_ (tx_ (OnNak q t)))) (mkScan TimePoint_max false false) t1 k
    (set_o_last_send 0 o)) as H.
  pose proof (scan_gave_up_closed clk now) as Hgave.
  specialize (Hgave (mkScan TimePoint_max false false, t1) (ordered_keys (unacked_ (tx_ (OnNak q t)))) ltac:(done)).
  destruct (foldl _ _ _) as [sc t2]. cbn [fst snd] in Hgave.
  destruct H as [Hg|(o' & E' & H')].
  - apply Hin. by eexists.
  - done.
  - done.
  - cbn [set_o_last_send o_last_send]. rewrite Z.sub_0_r. unfold now in *.
    assert (retransmit_threshold t1 (set_o_last_send 0 o) <= rto_max (config t)).
    { unfold retransmit_threshold. assert (config t1 = config t) as -> by (unfold config, t1; cbn; by rewrite Ec). lia. }
    unfold ms, ns_per_ms in *. lia.
  - cbn [set_o_last_send o_send_count]. assert (config t1 = config t) as -> by (unfold config, t1; cbn; by rewrite Ec). done.
  - rewrite Hg. left. by apply Hgave.
  - destruct (sc_gave_up sc) eqn:Eg; [left; by apply Hgave|]. right. exists o'. by destruct (sc_timed_out sc).
Qed.

(** Acknowledging a resend can hide the acknowledgment of a batch.  Packet [p1]
    carried the messages [ka] and [kb]; [ka] alone was resent as [p2].  When the
    peer acknowledges both packets, newest first as the header lists them, the
    acknowledgment of [p2] drops the record of [p1], so the acknowledgment of
    [p1] is ignored and [kb], which the peer has, stays in the retransmit
    table. *)
Theorem batched_ack_ignored (t : Transport) (p1 p2 arrival : Z) (info1 info2 : SentInfo) (ka kb : MsgKey) (oa ob : OutReliable)
  (Hp : p1 <> p2) (H0 : p2 <> 0)
  (Hs1 : sent_packets_ (tx_ t) !! p1 = Some info1) (Hb1 : kb ∈ si_keys info1)
  (Hs2 : sent_packets_ (tx_ t) !! p2 = Some info2) (Hk2 : si_keys info2 = [ka])
  (Ha : unacked_ (tx_ t) !! ka = Some oa) (Hlog : p1 ∈ tl_entries (o_packets oa))
  (Hb : unacked_ (tx_ t) !! kb = Some ob) (Hab : ka <> kb) :
  let t1 := (AckPacket p2 arrival t).2 in
  AckPacket p1 arrival t1 = (false, t1) /\ unacked_ (tx_ t1) !! kb = Some ob.
Proof.
  assert (Hret : forall l s, (p1 ∈ l \/ sent_packets_ s !! p1 = None) -> sent_packets_
    (foldl (fun s seq => if negb (seq =? p2) then RetireSentPacket seq s else s) s l) !! p1 = None).
  { induction l as [|q l IH]; intros s; [by intros [?%not_elem_of_nil|]|]. intros Hq. cbn [foldl]. apply IH.
    destruct Hq as [Hq|Hq].
    - apply elem_of_cons in Hq as [<-|Hq]; [|by left]. right. destruct (Z.eqb_spec p1 p2); [done|]. cbn [negb].
      rewrite RetireSentPacket_gone. apply lookup_delete_eq.
    - right. destruct (negb _); [|done]. rewrite RetireSentPacket_gone, lookup_delete_None. by right. }
  assert (Hun : forall l s, unacked_ (foldl (fun s seq => if negb (seq =? p2) then RetireSentPacket seq s else s) s l) = unacked_ s).
  { induction l as [|q l IH]; intros s; [done|]. cbn [foldl]. rewrite IH. destruct (negb _); [|done]. apply RetireSentPacket_unacked. }
  intros t1. unfold t1, AckPacket. destruct (Z.eqb_spec p2 0); [done|]. rewrite Hs2, Hk2. cbn [foldl snd upd_tx set_tx tx_].
  unfold ack_key. cbn [set_rtt unacked_]. rewrite Ha. set (s1 := foldl _ _ _). split.
  - destruct (p1 =? 0); [done|]. rewrite RetireSentPacket_gone. cbn [set_unacked sent_packets_].
    rewrite lookup_delete_ne by done. unfold s1. by rewrite Hret by (by left).
  - rewrite RetireSentPacket_unacked. cbn [set_unacked unacked_]. rewrite lookup_delete_ne by done. unfold s1.
    by rewrite Hun.
Qed.

End Theorems.

(** ** Witnesses *)

Module Runs.

(** A clock that reads 300 ms later every time. *)
Definition slow_clock (n : nat) : Z := ms (10000 + 300 * Z.of_nat n).

Definition send (bytes : list Z) (t : Transport) : Transport :=
  (Send (Loopback.message bytes) SendOptions_default t).2.

(** Two messages in one datagram, then both resent on their own. *)
Definition batched : Transport :=
  @FlushOutbound Loopback.machine slow_clock (send [2] (send [1] (Loopback.endpoint 1 7001))).
Definition resent : Transport := @RetransmitUnacked Loopback.machine slow_clock batched.

Definition key (seq : Z) : MsgKey := mkKey 0 true 0 seq.

End Runs.

Lemma acks_retire_only_received_witness :
  exists s info, s ∈ [1] /\ sent_packets_ (tx_ Runs.batched) !! u16 s = Some info /\ Runs.key 0 ∈ si_keys info.
Proof.
  apply (@acks_retire_only_received Loopback.machine Runs.slow_clock [1] (arrivals_first 1) ZDTHeader_default 24 1024 eq_refl
    ltac:(lia) ltac:(lia) (ms 20000) Runs.batched (Runs.key 0)).
  - vm_compute. eexists. reflexivity.
  - vm_compute. reflexivity.
Defined.

Lemma nak_forces_resend_witness :
  exists info o, let t' := @RetransmitUnacked Loopback.machine Runs.slow_clock (OnNak 1 Runs.batched) in
  sent_packets_ (tx_ Runs.batched) !! 1 = Some info /\
  (is_closed_ (path_ t') = true \/
   exists o', unacked_ (tx_ t') !! Runs.key 1 = Some o' /\ o_send_count o' = o_send_count o + 1 /\
     o_last_send o' = Runs.slow_clock (ticks_ (path_ Runs.batched))).
Proof.
  destruct (sent_packets_ (tx_ Runs.batched) !! 1) as [info|] eqn:Ei; [|vm_compute in Ei; discriminate Ei].
  destruct (unacked_ (tx_ Runs.batched) !! Runs.key 1) as [o|] eqn:Eo; [|vm_compute in Eo; discriminate Eo].
  exists info, o. split; [reflexivity|].
  apply (@nak_forces_resend Loopback.machine Runs.slow_clock 1 Runs.batched info (Runs.key 1) o Ei).
  - vm_compute in Ei. injection Ei as <-. vm_compute. right. left.
  - exact Eo.
  - vm_compute in Eo. injection Eo as <-. vm_compute. reflexivity.
  - vm_compute. split; discriminate.
Defined.

Lemma batched_ack_ignored_witness :
  exists ob, let t1 := (AckPacket 2 (ms 20000) Runs.resent).2 in
  AckPacket 1 (ms 20000) t1 = (false, t1) /\ unacked_ (tx_ t1) !! Runs.key 1 = Some ob.
Proof.
  destruct (sent_packets_ (tx_ Runs.resent) !! 1) as [info1|] eqn:E1; [|vm_compute in E1; discriminate E1].
  destruct (sent_packets_ (tx_ Runs.resent) !! 2) as [info2|] eqn:E2; [|vm_compute in E2; discriminate E2].
  destruct (unacked_ (tx_ Runs.resent) !! Runs.key 0) as [oa|] eqn:Ea; [|vm_compute in Ea; discriminate Ea].
  destruct (unacked_ (tx_ Runs.resent) !! Runs.key 1) as [ob|] eqn:Eb; [|vm_compute in Eb; discriminate Eb].
  exists ob. apply (@batched_ack_ignored Runs.resent 1 2 (ms 20000) info1 info2 (Runs.key 0) (Runs.key 1) oa ob).
  - lia.
  - lia.
  - exact E1.
  - vm_compute in E1. injection E1 as <-. vm_compute. right. left.
  - exact E2.
  - vm_compute in E2. injection E2 as <-. reflexivity.
  - exact Ea.
  - vm_compute in Ea. injection Ea as <-. vm_compute. left.
  - exact Eb.
  - discriminate.
Defined.
