(* ===== verification/ZdtEncrypted.v ===== *)
(** * Encrypted messages over ZDT

    A channel of the transport carries the sealed messages of one stream
    (zdt_transport.h, OrderingDomain): reliable ordered delivery and the replay
    window agree; reliable unordered delivery and the replay window do not. *)

From S2P Require Import Prelude Buffer BufferSpec BufferCodecs BufferViews ReplayWindow Encryption EncryptionTheorems.
From S2P Require Import ZdtWire ZdtOptions ZdtState ZdtReceive ZdtDelivery.

Import Replay Encryption.

Section Encrypted.
Context `{P : Platform} `{!AmplePlatform P} `{C : Crypto} `{!GcmLaws C}.

(** A sender whose messages all go to channel [c], and the peer's receiver. *)
Record encrypted_channel (c : Z) (ms : list (Z * Buffer)) (l r : EncryptionLayer) : Prop := {
  ec_channel : 0 <= c < 256;
  ec_messages : Forall (fun m => m.1 = c /\ opened m.2 /\ zlen (avail m.2) <= 2 ^ 30) ms;
  ec_count : zlen ms <= 2 ^ 56 - 1;
  ec_sender : cipher l = Cipher_new /\ enable_encryption_ l = true /\ keys_ok (keys l);
  ec_receiver : cipher r = Cipher_new /\ key_filled_ r = true /\ keys_ok (keys r);
  ec_keys : rx_key_ (keys r) = tx_key_ (keys l) /\ rx_salt_ (keys r) = tx_salt_ (keys l)
}.

Lemma number_const c n i : (i < n)%nat -> number_of (replicate n c) i = Z.of_nat i.
Proof.
  intros Hi. unfold number_of. rewrite lookup_total_replicate_2, take_replicate, Nat.min_l by lia.
  induction i as [|i IH]; [done|]. cbn [replicate]. rewrite filter_cons_True by done. cbn [length]. specialize (IH ltac:(lia)). lia.
Qed.

Lemma streams_const c ms (l r : EncryptionLayer) : encrypted_channel c ms l r -> ms.*1 = replicate (length ms) c.
Proof.
  intros [_ H _ _ _ _]. induction H as [|m ms (Hm & _) _ IH]; [done|]. cbn. by rewrite IH, Hm.
Qed.

(** What the receiving layer makes of the messages [js], in that order. *)
Lemma encrypted_run c ms l r js : encrypted_channel c ms l r -> Forall (fun j => 0 <= j < zlen ms) js ->
  exists ws, (seal_all ms l).1 = Some <$> ws /\
    (open_all ((fun j => received LittleEndian (ws !!! Z.to_nat j)) <$> js) r).1 =
    zip_with (fun j ok => if ok : bool then Some (payload ms (Z.to_nat j)) else None) js
      (arrivals (replicate (length ms) c) (Z.to_nat <$> js) (fun _ => [])).
Proof.
  intros H Hjs. pose proof (streams_const _ _ _ _ H) as Hss. destruct H as [Hc Hms Hn (Hl & He & Hkl) (Hr & Hk & Hkr) [Hkey Hsalt] ].
  destruct (channel_run ms (Z.to_nat <$> js) l r) as (ws & E1 & E2); try done.
  - eapply Forall_impl; [exact Hms|]. intros m (-> & ? & ?). done.
  - apply Forall_fmap. eapply Forall_impl; [exact Hjs|]. cbn. lia.
  - exists ws. split; [done|]. rewrite Hss in E2. rewrite <- list_fmap_compose in E2. unfold compose in E2. rewrite E2, zip_with_fmap_l. done.
Qed.

(** Arrivals on one stream, by message number. *)
Fixpoint accepted_flags (js : list Z) (seen : list Z) : list bool :=
  match js with
  | [] => []
  | j :: js => fresh j seen :: accepted_flags js (if fresh j seen then j :: seen else seen)
  end.

Lemma arrivals_flags c n js seen : Forall (fun j => 0 <= j < Z.of_nat n) js ->
  arrivals (replicate n c) (Z.to_nat <$> js) seen = accepted_flags js (seen c).
Proof.
  intros H. revert seen. induction H as [|j js Hj _ IH]; intros seen; [done|]. cbn [fmap list_fmap arrivals accepted_flags].
  rewrite lookup_total_replicate_2, number_const by lia. rewrite Z2Nat.id by lia. f_equal. rewrite IH. f_equal.
  destruct (fresh j (seen c)); [|done]. unfold see. by rewrite Z.eqb_refl.
Qed.

Lemma flags_in_order k n seen : 0 <= n -> Forall (fun d => 0 <= d < n) seen -> accepted_flags (zseq n k) seen = repeat true k.
Proof.
  revert n seen. induction k as [|k IH]; intros n seen Hn Hs; [done|]. rewrite zseq_S. cbn [accepted_flags repeat].
  rewrite fresh_above by done. f_equal. apply IH; [lia|]. constructor; [lia|]. eapply Forall_impl; [exact Hs|]. cbn. lia.
Qed.

(** [C30] Encrypted reliable ordered delivery, end to end: the messages of a
    channel are sealed in order; the network may reorder and repeat the records
    that carry them, as long as each arrives within 2^15 of the first message
    missing at the time ([within_reach], which the transport does not enforce).
    What the transport makes ready and the receiving layer opens is then the
    payloads 0, 1, 2, ... up to the first message that has not arrived, in order
    and once.  The replay window refuses none of them. *)
Theorem encrypted_ordered_delivery (c : Z) (ms : list (Z * Buffer)) (l r : EncryptionLayer) (js : list Z) (t : Transport)
  (H : encrypted_channel c ms l r) (Hfresh : channel_at t c = ChannelState_default) (Hready : ready_ (rx_ t) = [])
  (Hjs : within_reach js) (Hlen : zlen js < 2 ^ 62) (Hin : Forall (fun j => j < zlen ms) js) :
  exists ws, (seal_all ms l).1 = Some <$> ws /\
    (open_all (ready_ (rx_ (deliver_records (stream_records ordered_flags c (fun j => received LittleEndian (ws !!! Z.to_nat j)) js) t))) r).1
    = (fun j => Some (payload ms (Z.to_nat j))) <$> zseq 0 (Z.to_nat (mex js)).
Proof.
  destruct (mex_spec js) as (Hm & Hall & _).
  assert (Hr : Forall (fun j => 0 <= j < zlen ms) (zseq 0 (Z.to_nat (mex js)))).
  { apply Forall_forall. intros j Hj%elem_of_zseq. pose proof (proj1 (Forall_forall _ _) Hin j (Hall j ltac:(lia))). cbn in *. lia. }
  destruct (encrypted_run c ms l r _ H Hr) as (ws & E1 & E2). exists ws. split; [done|].
  destruct (deliver_records_stream ordered_flags c (fun j => received LittleEndian (ws !!! Z.to_nat j)) js t Hfresh) as [_ ->].
  destruct (ordered_run (fun j => received LittleEndian (ws !!! Z.to_nat j)) c js Hjs Hlen) as [_ _ ->]. rewrite Hready. cbn [app].
  rewrite E2, arrivals_flags by done. rewrite flags_in_order by (done || constructor).
  rewrite <- (zip_with_true (fun j => Some (payload ms (Z.to_nat j))) (fun _ => None)). do 2 f_equal. unfold zseq. by rewrite length_fmap, length_seq.
Qed.

(** Message 0 is overtaken by the 65 messages behind it. *)
Definition overtaken : list Z := zseq 1 65 ++ [0].

Lemma overtaken_reach : within_reach overtaken.
Proof.
  assert (Hmex : forall k, mex (zseq 1 k) = 0).
  { intros k. apply missing_from_unique; [lia|lia|]. rewrite elem_of_zseq. lia. }
  assert (Hrun : forall k, (k <= 65)%nat -> within_reach (zseq 1 k)).
  { induction k as [|k IH]; intros Hk; [constructor|]. replace (S k) with (k + 1)%nat by lia. rewrite zseq_app.
    change (zseq (1 + Z.of_nat k) 1) with [1 + Z.of_nat k + 0]. apply reach_snoc; [apply IH; lia|lia|]. rewrite Hmex. lia. }
  apply reach_snoc; [apply Hrun; lia|lia|]. rewrite Hmex. lia.
Qed.

(** Reliable unordered delivery loses messages on an encrypted session:
    when the message sent first on a channel is retransmitted and arrives after
    the 65 behind it, the transport makes all 66 ready, each once, but the
    receiving layer, whose window is 64 wide, opens the other 65 and drops it,
    although it was never delivered. *)
Theorem encrypted_unordered_loses (c : Z) (ms : list (Z * Buffer)) (l r : EncryptionLayer) (t : Transport)
  (H : encrypted_channel c ms l r) (Hms : 66 <= zlen ms) (Hfresh : channel_at t c = ChannelState_default) (Hready : ready_ (rx_ t) = []) :
  exists ws, (seal_all ms l).1 = Some <$> ws /\
    let pay := fun j => received LittleEndian (ws !!! Z.to_nat j) in
    let up := ready_ (rx_ (deliver_records (stream_records unordered_flags c pay overtaken) t)) in
    up = pay <$> overtaken /\
    (open_all up r).1 = ((fun j => Some (payload ms (Z.to_nat j))) <$> zseq 1 65) ++ [None].
Proof.
  assert (Hr : Forall (fun j => 0 <= j < zlen ms) overtaken).
  { apply Forall_app. split; [|repeat constructor; lia]. apply Forall_forall. intros j Hj%elem_of_zseq. lia. }
  destruct (encrypted_run c ms l r _ H Hr) as (ws & E1 & E2). exists ws. split; [done|]. cbv zeta.
  destruct (deliver_records_stream unordered_flags c (fun j => received LittleEndian (ws !!! Z.to_nat j)) overtaken t Hfresh) as [_ ->].
  destruct (unordered_run (fun j => received LittleEndian (ws !!! Z.to_nat j)) c overtaken overtaken_reach ltac:(by vm_compute)) as [_ _ ->].
  rewrite Hready. cbn [app]. replace (firsts overtaken) with overtaken by (by vm_compute). split; [done|].
  rewrite E2, arrivals_flags by done. replace (accepted_flags overtaken []) with (repeat true 65 ++ [false]) by (by vm_compute).
  unfold overtaken. rewrite zip_with_app by (unfold zseq; by rewrite length_fmap, length_seq, repeat_length).
  rewrite <- (zip_with_true (fun j => Some (payload ms (Z.to_nat j))) (fun _ => None) (zseq 1 65)). done.
Qed.

End Encrypted.
