(* ===== verification/EncryptionExamples.v ===== *)
(** * The encryption theorems at work on the small instance *)

From S2P Require Import Prelude Buffer BufferSpec BufferCodecs BufferViews ReplayWindow Encryption EncryptionTheorems CryptoExample.
From S2P Require Import ZdtWire ZdtOptions ZdtState ZdtReceive ZdtTransport ZdtDelivery ZdtEncrypted.

Import Replay Encryption Toy.

Module EncryptionExamples.

#[local] Existing Instance Loopback.machine.

#[local] Instance machine_ample : AmplePlatform Loopback.machine.
Proof. apply host_ample. Qed.

(** Keys of one direction, and of its mirror image. *)
Definition left_keys : Keys := mkKeys (repeat 11 32) (repeat 22 32) (repeat 3 4) (repeat 4 4) [].
Definition right_keys : Keys := mkKeys (repeat 22 32) (repeat 11 32) (repeat 4 4) (repeat 3 4) [].

Definition layer (k : Keys) : @EncryptionLayer toy :=
  mkLayer (Some (keypair 5)) (Some (keypair 9)) true true true true true None true k Cipher_new.

Lemma keys_ok_left : keys_ok left_keys.
Proof. by vm_compute. Qed.

Lemma keys_ok_right : keys_ok right_keys.
Proof. by vm_compute. Qed.

Definition text (bs : list Z) : Buffer := Loopback.message bs.

Lemma text_opened bs : bytes_ok bs -> zlen bs <= 2 ^ 30 -> opened (text bs) /\ avail (text bs) = bs.
Proof. intros Hok HL. destruct (received_opened bs Hok ltac:(lia)) as (? & ? & _). done. Qed.

Lemma one_byte_ok n : 0 <= n < 256 -> bytes_ok [n].
Proof. intros H. constructor; [done|constructor]. Qed.

Lemma nonces_never_repeat_witness :
  let ms := [mkOutgoing all_ok (text [7]) 0; mkOutgoing (fun e => match e with Final => false | _ => true end) (text [8]) 0; mkOutgoing all_ok (text [8]) 0; mkOutgoing all_ok (text []) 3] in
  let uses := sealed_by (cipher (send_all ms (layer left_keys))) in
  length uses = 4%nat /\ NoDup uses /\ Forall (fun u => u.1 = tx_key_ left_keys) uses.
Proof.
  cbv zeta. split; [vm_compute; reflexivity|].
  apply (nonces_never_repeat _ (layer left_keys)); [repeat constructor; cbn; lia|reflexivity].
Defined.

Lemma sealed_channel_witness :
  let ms := [(0, text [1; 2]); (5, text []); (0, text [3])] in
  exists ws, (seal_all ms (layer left_keys)).1 = Some <$> ws /\
    (open_all ((fun i => received LittleEndian (ws !!! i)) <$> [2; 0; 2; 1]%nat) (layer right_keys)).1 =
      zip_with (fun i ok => if ok : bool then Some (payload ms i) else None) [2; 0; 2; 1]%nat
        (arrivals ms.*1 [2; 0; 2; 1]%nat (fun _ => [])) /\
    NoDup (delivered [2; 0; 2; 1]%nat (arrivals ms.*1 [2; 0; 2; 1]%nat (fun _ => []))).
Proof.
  apply (sealed_channel _ [2; 0; 2; 1]%nat (layer left_keys) (layer right_keys));
    [|vm_compute; discriminate|repeat constructor; cbn; lia|reflexivity|reflexivity|reflexivity|reflexivity|apply keys_ok_left|apply keys_ok_right|reflexivity|reflexivity].
  repeat (apply Forall_cons; split); [| | |constructor]; (split; [cbn; lia|]); cbn [snd].
  - destruct (text_opened [1; 2]) as [? ->]; [constructor; [done|by apply one_byte_ok]|done|done].
  - destruct (text_opened []) as [? ->]; [constructor|done|done].
  - destruct (text_opened [3]) as [? ->]; [by apply one_byte_ok|done|done].
Defined.

(** The bytes of [7] as the left layer seals it, and whether the right one
    accepts them. *)
Definition sealed_seven : Buffer := received LittleEndian (sealed_bytes (tx_key_ left_keys) (tx_salt_ left_keys) 0 0 [7]).

Definition accepts_seven : bool := match HandleDecrypt all_ok sealed_seven (layer right_keys) with (Some _, _) => true | _ => false end.

Lemma only_authentic_delivered_witness :
  accepts_seven = true /\
  match HandleDecrypt all_ok sealed_seven (layer right_keys) with
  | (Some out, l') =>
      exists s n ct tag, avail sealed_seven = [kModeAesGcm] ++ (s :: WriteCounter n) ++ ct ++ tag /\ 0 <= s < 256 /\ 0 <= n < 2 ^ 56 /\ zlen tag = 16 /\
        GCM_open (rx_key_ (keys (layer right_keys))) (BuildNonce (rx_salt_ (keys (layer right_keys))) s n) [kModeAesGcm] ct tag = Some (avail out) /\
        (n ∉ ([] : list Z)) /\ opening (keys (layer right_keys)) (see s n (fun _ => [])) (cipher l') /\ keys l' = keys (layer right_keys)
  | (None, _) => False
  end.
Proof.
  assert (Hacc : accepts_seven = true) by (vm_compute; reflexivity). split; [exact Hacc|]. unfold accepts_seven in Hacc.
  assert (Hok : bytes_ok (sealed_bytes (tx_key_ left_keys) (tx_salt_ left_keys) 0 0 [7])).
  { apply (bool_decide_unpack _). vm_compute. exact I. }
  destruct (received_opened _ Hok ltac:(vm_compute; discriminate)) as (Ho & Ha & _).
  destruct (HandleDecrypt all_ok sealed_seven (layer right_keys)) as [ [out|] l'] eqn:E; [|discriminate].
  apply (only_authentic_delivered all_ok sealed_seven out (layer right_keys) l' (fun _ => [])); [exact Ho| |reflexivity|apply opening_new|exact E].
  unfold sealed_seven. rewrite Ha. vm_compute. discriminate.
Defined.

(** Seventy messages of one byte each on channel 3. *)
Definition seventy : list (Z * Buffer) := (fun n => (3, text [Z.of_nat n])) <$> seq 0 70.

Lemma channel_example : encrypted_channel 3 seventy (layer left_keys) (layer right_keys).
Proof.
  split; [lia| |vm_compute; discriminate|split_and!; [reflexivity|reflexivity|apply keys_ok_left]|split_and!; [reflexivity|reflexivity|apply keys_ok_right]|split; reflexivity].
  unfold seventy. apply Forall_fmap, Forall_forall. intros n Hn%elem_of_seq. cbn. split; [done|].
  destruct (text_opened [Z.of_nat n]) as [Ho Ha]; [apply one_byte_ok; lia|done|]. split; [done|]. by rewrite Ha.
Qed.

Lemma encrypted_ordered_delivery_witness :
  exists ws, (seal_all seventy (layer left_keys)).1 = Some <$> ws /\
    (open_all (ready_ (rx_ (deliver_records (stream_records ordered_flags 3 (fun j => received LittleEndian (ws !!! Z.to_nat j)) [2; 0; 0; 1])
      (Loopback.endpoint 1 7001)))) (layer right_keys)).1
    = (fun j => Some (payload seventy (Z.to_nat j))) <$> zseq 0 (Z.to_nat (mex [2; 0; 0; 1])).
Proof.
  apply (encrypted_ordered_delivery 3 seventy (layer left_keys) (layer right_keys) [2; 0; 0; 1] (Loopback.endpoint 1 7001));
    [apply channel_example|reflexivity|reflexivity|apply reach_example|by vm_compute|].
  repeat constructor; vm_compute; reflexivity.
Defined.

Lemma encrypted_unordered_loses_witness :
  exists ws, (seal_all seventy (layer left_keys)).1 = Some <$> ws /\
    let pay := fun j => received LittleEndian (ws !!! Z.to_nat j) in
    let up := ready_ (rx_ (deliver_records (stream_records unordered_flags 3 pay overtaken) (Loopback.endpoint 1 7001))) in
    up = pay <$> overtaken /\
    (open_all up (layer right_keys)).1 = ((fun j => Some (payload seventy (Z.to_nat j))) <$> zseq 1 65) ++ [None].
Proof.
  apply (encrypted_unordered_loses 3 seventy (layer left_keys) (layer right_keys) (Loopback.endpoint 1 7001));
    [apply channel_example|vm_compute; discriminate|reflexivity|reflexivity].
Defined.

End EncryptionExamples.
