(* ===== verification/P2pPunch.v ===== *)
(** * Hole punching (p2p/punch.h, p2p/internal/zdt_punch.cc, p2p/internal/gather.cc)

    The candidates two peers are offered, the offline datagrams a punch speaks,
    the punch and the reflector probe as the state machines they are: the driver
    calls [Tick] and [OnDatagram], and what they send is part of the result.  Times
    are nanoseconds of the steady clock.  A candidate whose address is null, which
    [Agent::Punch] refuses, matches nothing and is sent nothing. *)

From S2P Require Import Prelude Buffer BufferSpec BufferCodecs ZdtWire InetAddr Admission ZdtCookie ZdtOptions ZdtState ZdtSend ZdtTransport ZdtServer.

(** ** Candidates and offers *)

Inductive CandidateType := Host | Reflexive | Relayed.

#[export] Instance CandidateType_eq_dec : EqDecision CandidateType.
Proof. solve_decision. Defined.

Definition kMaxCandidates : nat := 32.

Inductive NatType := Unknown | EndpointIndependent | AddressDependent.

Record Candidate := mkCandidate {
  c_type : CandidateType;
  c_address : option InetAddress;
  relay_token : Z
}.

Record PunchOffer := mkOffer {
  candidates : list Candidate;
  punch_id : Z;
  is_initiator : bool;
  timeout : Z;
  relay_delay : Z
}.

(** [operator<] of [std::string]. *)
Fixpoint string_lt (a b : list Z) : bool :=
  match a, b with
  | _, [] => false
  | [], _ :: _ => true
  | x :: a, y :: b => if x <? y then true else if y <? x then false else string_lt a b
  end.

Definition IsInitiator (punch_id : Z) (self_id peer_id : list Z) : bool :=
  let use_smaller := Z.land punch_id 1 =? 0 in
  let self_is_smaller := string_lt self_id peer_id in
  eqb use_smaller self_is_smaller.

Section P2p.
Context `{P : Platform} `{I : Inet}.

(** [*candidate.address == address] *)
Definition names (c : Candidate) (a : InetAddress) : bool :=
  match c_address c with Some b => InetAddress_eq b a | None => false end.

Definition ContainsAddress (cs : list Candidate) (a : InetAddress) : bool := existsb (fun c => names c a) cs.

(** ** The datagrams *)

Definition BuildOffline (id : ZDTOfflineMsg) : Buffer := WriteOfflineHeader (Buffer_new BigEndian) (offline_id id).

Definition BuildPunch : Buffer := BuildOffline Punch.

Definition BuildRequest1 (local_guid capabilities : Z) : Buffer :=
  let request := BuildOffline OpenConnectionRequest1 in
  let request := WriteInt 1 kZDTProtocolVersion request in
  let request := WriteInt 8 local_guid request in
  WriteInt 1 capabilities request.

Definition BuildReply2 (local_guid mtu capabilities : Z) : Buffer :=
  let reply := BuildOffline OpenConnectionReply2 in
  let reply := WriteInt 8 local_guid reply in
  let reply := WriteInt 2 mtu reply in
  WriteInt 1 capabilities reply.

Definition BuildIncompatibleVersion (local_guid : Z) : Buffer :=
  let bad := BuildOffline IncompatibleProtocolVersion in
  let bad := WriteInt 1 kZDTProtocolVersion bad in
  WriteInt 8 local_guid bad.

Definition BuildRelayBind (token : Z) : Buffer := WriteInt 8 token (BuildOffline RelayBind).

Definition BuildRelayBound (token channel : Z) : Buffer :=
  let bound := BuildOffline RelayBound in
  let bound := WriteInt 8 token bound in
  WriteInt 4 channel bound.

(** The padding loop; one byte a round, so the size asked for is enough fuel. *)
Fixpoint pad_reflect (fuel : nat) (b : Buffer) : Buffer :=
  match fuel with
  | O => b
  | S fuel => if write_cursor_ b <? kZDTReflectSize then pad_reflect fuel (WriteInt 1 0 b) else b
  end.

Definition BuildReflect (nonce : Z) : Buffer :=
  pad_reflect (Z.to_nat kZDTReflectSize) (WriteInt 8 nonce (BuildOffline Reflect)).

Definition BuildReflected (nonce : Z) (observed : InetAddress) : Buffer :=
  let reflected := BuildOffline Reflected in
  let reflected := WriteInt 8 nonce reflected in
  WriteInetAddress observed reflected.

(** What a send puts on the wire. *)
Definition Sent : Type := InetAddress * list Z.

Definition SendDatagram (address : InetAddress) (channel : Z) (datagram : Buffer) : Sent :=
  if channel =? 0 then (address, datagram_bytes datagram)
  else
    let wrapped := WriteRelayHeader (Buffer_new BigEndian) channel in
    let wrapped := Write (datagram_bytes datagram) wrapped in
    (address, datagram_bytes wrapped).

End P2p.

(** ** The punch *)

Module Punch.

Definition kPunchInterval : Z := ms 50.
Definition kRequestInterval : Z := ms 100.
Definition kBindInterval : Z := ms 100.

Inductive State := Pending | Completed | Failed.

Record PunchOutcome := mkOutcome {
  state : State;
  sent : bool;
  reason : Result;
  from : option InetAddress;
  channel : Z;
  first_datagram : option (list Z)
}.

Definition PunchOutcome_default : PunchOutcome := mkOutcome Pending false Success None 0 None.

Record Relay := mkRelay {
  candidate : Candidate;
  r_channel : Z;
  last_bind : Z
}.

Record ZDTPunch := mkPunch {
  offer_ : PunchOffer;
  local_migration_ : bool;
  direct_ : list Candidate;
  relays_ : list Relay;
  connection_ : ZDTConnection;
  answered_ : bool;
  deadline_ : Z;
  relay_start_ : Z;
  last_punch_ : Z;
  last_request_ : Z
}.

Definition set_relays (v : list Relay) (p : ZDTPunch) : ZDTPunch :=
  mkPunch (offer_ p) (local_migration_ p) (direct_ p) v (connection_ p) (answered_ p) (deadline_ p) (relay_start_ p) (last_punch_ p) (last_request_ p).
Definition set_connection (v : ZDTConnection) (p : ZDTPunch) : ZDTPunch :=
  mkPunch (offer_ p) (local_migration_ p) (direct_ p) (relays_ p) v (answered_ p) (deadline_ p) (relay_start_ p) (last_punch_ p) (last_request_ p).
Definition set_answered (v : bool) (p : ZDTPunch) : ZDTPunch :=
  mkPunch (offer_ p) (local_migration_ p) (direct_ p) (relays_ p) (connection_ p) v (deadline_ p) (relay_start_ p) (last_punch_ p) (last_request_ p).
Definition set_last_punch (v : Z) (p : ZDTPunch) : ZDTPunch :=
  mkPunch (offer_ p) (local_migration_ p) (direct_ p) (relays_ p) (connection_ p) (answered_ p) (deadline_ p) (relay_start_ p) v (last_request_ p).
Definition set_last_request (v : Z) (p : ZDTPunch) : ZDTPunch :=
  mkPunch (offer_ p) (local_migration_ p) (direct_ p) (relays_ p) (connection_ p) (answered_ p) (deadline_ p) (relay_start_ p) (last_punch_ p) v.

Section Machine.
Context `{P : Platform} `{I : Inet}.

(** [guid]: what [GenerateGuid] draws. *)
Definition ZDTPunch_new (offer : PunchOffer) (now : Z) (local_migration : bool) (guid : Z) : ZDTPunch :=
  let is_relay c := bool_decide (c_type c = Relayed) in
  mkPunch offer local_migration
    (List.filter (fun c => negb (is_relay c)) (candidates offer))
    (map (fun c => mkRelay c 0 0) (List.filter is_relay (candidates offer)))
    (mkConnection 1200 guid 0 false 0) false (now + ms (timeout offer)) (now + ms (relay_delay offer)) 0 0.

Definition Owns (from : InetAddress) (channel : Z) (p : ZDTPunch) : bool :=
  ((channel =? 0) && ContainsAddress (direct_ p) from) ||
  existsb (fun r => names (candidate r) from && ((channel =? 0) || (channel =? r_channel r))) (relays_ p).

Definition RelayActive (r : Relay) (now : Z) (p : ZDTPunch) : bool :=
  negb (r_channel r =? 0) && (relay_start_ p <=? now).

Definition SendToActive (datagram : Buffer) (now : Z) (p : ZDTPunch) : list Sent :=
  omap (fun c => (fun a => (a, datagram_bytes datagram)) <$> c_address c) (direct_ p) ++
  omap (fun r => if RelayActive r now p
                 then (fun a => SendDatagram a (r_channel r) datagram) <$> c_address (candidate r) else None) (relays_ p).

(** One relay of the binding loop. *)
Definition bind_relay (now : Z) (r : Relay) : Relay * list Sent :=
  if negb (r_channel r =? 0) || (now - last_bind r <? kBindInterval) then (r, [])
  else
    (mkRelay (candidate r) (r_channel r) now,
     match c_address (candidate r) with
     | Some a => [(a, datagram_bytes (BuildRelayBind (relay_token (candidate r))))]
     | None => []
     end).

Definition bind_due (now : Z) (r : Relay) : bool := (r_channel r =? 0) && (kBindInterval <=? now - last_bind r).

Definition Tick (now : Z) (p : ZDTPunch) : PunchOutcome * list Sent * ZDTPunch :=
  if deadline_ p <=? now then (mkOutcome Failed false Timeout None 0 None, [], p)
  else
    let sent := existsb (bind_due now) (relays_ p) in
    let bound := map (bind_relay now) (relays_ p) in
    let out := concat (map snd bound) in
    let p := set_relays (map fst bound) p in
    let '(sent, out, p) :=
      if kPunchInterval <? now - last_punch_ p
      then (true, out ++ SendToActive BuildPunch now p, set_last_punch now p) else (sent, out, p) in
    let '(sent, out, p) :=
      if is_initiator (offer_ p) && (kRequestInterval <? now - last_request_ p)
      then (true, out ++ SendToActive (BuildRequest1 (local_guid (connection_ p))
                                         (if local_migration_ p then kZDTCapMigration else 0)) now p,
            set_last_request now p)
      else (sent, out, p) in
    (mkOutcome Pending sent Success None 0 None, out, p).

Definition OnRelayBound (from : InetAddress) (b : Buffer) (p : ZDTPunch) : ZDTPunch :=
  if readable_bytes b <? 8 + 4 then p
  else
    let '(token, b) := ReadInt 8 b in
    let '(channel, b) := ReadInt 4 b in
    if (channel =? 0) || (kZDTMaxRelayChannel <? channel) then p
    else set_relays (map (fun r => if (relay_token (candidate r) =? token) && names (candidate r) from
                                   then mkRelay (candidate r) channel (last_bind r) else r) (relays_ p)) p.

Definition OnDatagram (source : InetAddress) (chan : Z) (data : list Z) (p : ZDTPunch)
  : PunchOutcome * list Sent * ZDTPunch :=
  let outcome := PunchOutcome_default in
  if bool_decide (data = []) then (outcome, [], p)
  else if has_flag (byte_at data 0) kFlagOnline then
    if is_initiator (offer_ p) || negb (answered_ p) then (outcome, [], p)
    else (mkOutcome Completed false Success (Some source) chan (Some data), [], p)
  else
    match ReadOfflineHeader (Buffer_from data BigEndian) with
    | (None, _) => (outcome, [], p)
    | (Some id, b) =>
        if id =? offline_id ZdtWire.Punch then (outcome, [], p)
        else if id =? offline_id RelayBound then (outcome, [], OnRelayBound source b p)
        else if negb (is_initiator (offer_ p)) && (id =? offline_id OpenConnectionRequest1) then
          let '(version, b) := ReadInt 1 b in
          if negb (version =? kZDTProtocolVersion)
          then (outcome, [SendDatagram source chan (BuildIncompatibleVersion (local_guid (connection_ p)))], p)
          else
            let '(remote, b) := ReadInt 8 b in
            let '(peer_cap, b) := ReadInt 1 b in
            let c := connection_ p in
            let p := set_connection (mkConnection (conn_mtu c) (local_guid c) remote
                       (local_migration_ p && has_flag peer_cap kZDTCapMigration) (relay_channel c)) p in
            let p := set_answered true p in
            (outcome, [SendDatagram source chan (BuildReply2 (local_guid (connection_ p)) (conn_mtu (connection_ p))
                         (if local_migration_ p then kZDTCapMigration else 0))], p)
        else if is_initiator (offer_ p) && (id =? offline_id OpenConnectionReply2) then
          let '(remote, b) := ReadInt 8 b in
          let '(mtu, b) := ReadInt 2 b in
          let c := connection_ p in
          let mtu := if negb (mtu =? 0) then Z.min (conn_mtu c) mtu else conn_mtu c in
          let '(peer_cap, b) := ReadInt 1 b in
          let p := set_connection (mkConnection mtu (local_guid c) remote
                     (local_migration_ p && has_flag peer_cap kZDTCapMigration) (relay_channel c)) p in
          (mkOutcome Completed false Success (Some source) chan None, [], p)
        else if is_initiator (offer_ p) && (id =? offline_id IncompatibleProtocolVersion)
        then (mkOutcome Failed false IncompatibleVersion None 0 None, [], p)
        else (outcome, [], p)
    end.

End Machine.
End Punch.

(** ** Gathering candidates *)

Module Gather.

Definition kReflectInterval : Z := ms 100.
Definition kMaxPortStride : Z := 64.

(** The loop of [LocalCandidates]: it stops once the list is full. *)
Fixpoint local_candidates `{Inet} (resolve : list Z -> list Z) (addresses : list (list Z)) (port : Z)
    (acc : list Candidate) : list Candidate :=
  match addresses with
  | [] => acc
  | address :: rest =>
      let acc := match from_host resolve address port with
                 | Some a => if is_valid a then acc ++ [mkCandidate Host (Some a) 0] else acc
                 | None => acc
                 end in
      if (kMaxCandidates <=? length acc)%nat then acc else local_candidates resolve rest port acc
  end.

(** [resolve] is [ResolveHostnameToIP], [interfaces] what [getifaddrs] lists. *)
Definition LocalCandidates `{Inet} (resolve : list Z -> list Z) (interfaces : option (list ifaddr)) (port : Z)
  : list Candidate :=
  local_candidates resolve (GetLocalAddresses interfaces IPv4) port [].

(** The ports of the mappings that share the first one's host. *)
Definition mapped_port (acc : option InetAddress * list Z) (c : Candidate) : option InetAddress * list Z :=
  let '(host, ports) := acc in
  match c_type c, c_address c with
  | Reflexive, Some a =>
      match host with
      | None => (Some a, ports ++ [port a])
      | Some h => if bool_decide (host_key h = host_key a) then (host, ports ++ [port a]) else acc
      end
  | _, _ => acc
  end.

Fixpoint predict (count : nat) (host : InetAddress) (next stride : Z) : list Candidate :=
  match count with
  | O => []
  | S count =>
      let next := next + stride in
      if 65535 <? next then []
      else mkCandidate Reflexive (Some (WithPort host next)) 0 :: predict count host next stride
  end.

Definition PredictedPorts (reflexive : list Candidate) (count : nat) : list Candidate :=
  match foldl mapped_port (None, []) reflexive with
  | (None, _) => []
  | (Some host, ports) =>
      if (length ports <? 2)%nat then []
      else
        let ports := merge_sort Z.le ports in
        let back := default 0 (last ports) in
        let stride := back - default 0 (ports !! (length ports - 2)%nat) in
        if (stride <=? 0) || (kMaxPortStride <? stride) then []
        else predict count host back stride
  end.

Record Target := mkTarget {
  reflector : InetAddress;
  nonce : Z;
  answered : bool;
  last_sent : Z;
  observed : option InetAddress
}.

Record ReflectProbe := mkProbe {
  targets_ : list Target;
  reflexive_ : list Candidate;
  probe_deadline_ : Z
}.

Section Probe.
Context `{P : Platform} `{I : Inet}.

(** [guids]: the nonces drawn, in order. *)
Fixpoint make_targets (reflectors : list (option InetAddress)) (guids : nat -> Z) (n : nat) : list Target :=
  match reflectors with
  | [] => []
  | Some r :: rest =>
      if is_valid r then mkTarget r (guids n) false 0 None :: make_targets rest guids (S n)
      else make_targets rest guids n
  | None :: rest => make_targets rest guids n
  end.

Definition ReflectProbe_new (reflectors : list (option InetAddress)) (now timeout : Z) (guids : nat -> Z)
  : ReflectProbe :=
  mkProbe (make_targets reflectors guids 0) [] (now + ms timeout).

Definition Owns (from : InetAddress) (p : ReflectProbe) : bool :=
  existsb (fun t => negb (answered t) && InetAddress_eq (reflector t) from) (targets_ p).

Definition probe_due (now : Z) (t : Target) : bool :=
  negb (answered t) && (kReflectInterval <=? now - last_sent t).

Definition Tick (now : Z) (p : ReflectProbe) : bool * list Sent * ReflectProbe :=
  (existsb (probe_due now) (targets_ p),
   map (fun t => (reflector t, datagram_bytes (BuildReflect (nonce t)))) (List.filter (probe_due now) (targets_ p)),
   mkProbe (map (fun t => if probe_due now t then mkTarget (reflector t) (nonce t) (answered t) now (observed t) else t)
              (targets_ p)) (reflexive_ p) (probe_deadline_ p)).

(** The first target the answer is for takes it. *)
Fixpoint take_answer (from : InetAddress) (n : Z) (seen : InetAddress) (ts : list Target) : option (list Target) :=
  match ts with
  | [] => None
  | t :: ts =>
      if answered t || negb (nonce t =? n) || negb (InetAddress_eq (reflector t) from)
      then cons t <$> take_answer from n seen ts
      else Some (mkTarget (reflector t) (nonce t) true (last_sent t) (Some seen) :: ts)
  end.

Definition OnDatagram (from : InetAddress) (data : list Z) (p : ReflectProbe) : ReflectProbe :=
  match ReadOfflineHeader (Buffer_from data BigEndian) with
  | (None, _) => p
  | (Some id, b) =>
      if negb (id =? offline_id Reflected) || (readable_bytes b <? 8) then p
      else
        let '(n, b) := ReadInt 8 b in
        match ReadInetAddress b with
        | (None, _) => p
        | (Some seen, _) =>
            if negb (is_valid seen) then p
            else match take_answer from n seen (targets_ p) with
                 | None => p
                 | Some ts =>
                     mkProbe ts (if ContainsAddress (reflexive_ p) seen then reflexive_ p
                                 else reflexive_ p ++ [mkCandidate Reflexive (Some seen) 0]) (probe_deadline_ p)
                 end
        end
  end.

Definition Done (now : Z) (p : ReflectProbe) : bool := (probe_deadline_ p <=? now) || forallb answered (targets_ p).

Definition result (p : ReflectProbe) : Result :=
  if bool_decide (targets_ p = []) || negb (bool_decide (reflexive_ p = [])) then Success else Timeout.

(** A reflection: the reflector asked and the mapping it saw. *)
Fixpoint classify (baseline : option (InetAddress * InetAddress)) (rs : list (option InetAddress * option InetAddress))
  : NatType :=
  match rs with
  | [] => Unknown
  | (Some r, Some m) :: rest =>
      match baseline with
      | None => classify (Some (r, m)) rest
      | Some (r0, m0) =>
          if bool_decide (host_key r0 = host_key r) then classify baseline rest
          else if InetAddress_eq m0 m then EndpointIndependent else AddressDependent
      end
  | _ :: rest => classify baseline rest
  end.

Definition ClassifyNat (rs : list (option InetAddress * option InetAddress)) : NatType := classify None rs.

Definition nat_type (p : ReflectProbe) : NatType :=
  ClassifyNat (omap (fun t => if answered t
                              then (fun m => (Some (reflector t), Some m)) <$> observed t else None) (targets_ p)).

End Probe.
End Gather.
