(* ===== verification/Traversal.v ===== *)
(** * The traversal server (p2p/traversal_server.h, p2p/traversal_server.cc)

    One UDP port with two halves: the reflector, which tells a peer the address it
    is seen at, and the relay, which forwards between the two sources bound to a
    pairing.  What an operation sends is part of its result; a source is the
    address its datagram came from.  The counters are left out. *)

From S2P Require Import Prelude Buffer BufferSpec BufferCodecs ZdtWire InetAddr Admission ZdtCookie ZdtOptions ZdtState ZdtSend ZdtTransport ZdtServer P2pPunch.

Definition kRecvTimeout : Z := ms 50.

Record ReflectorConfig := mkReflectorConfig { max_probes_per_source : Z; probe_window : Z }.

Record RelayConfig := mkRelayConfig { bind_timeout : Z; idle_timeout : Z; max_allocations : Z }.

Record TraversalServerConfig := mkTraversalConfig {
  enable_reflector : bool;
  enable_relay : bool;
  reflector_config : ReflectorConfig;
  relay_config : RelayConfig
}.

(** The [RelayBind] token, or 0 when the bytes are not a well-formed bind. *)
Definition BindToken (data : list Z) : Z :=
  if (zlen data <? kZDTOfflineHeaderSize + 8) || negb (bool_decide (PeekOfflineHeader data = Some (offline_id RelayBind)))
  then 0 else ReadBigEndian64 (drop (Z.to_nat kZDTOfflineHeaderSize) data).

(** ** The reflector *)

Section Reflector.
Context `{P : Platform} `{I : Inet}.

Definition Reflector_new (config : ReflectorConfig) : AdmissionControl :=
  AdmissionControl_new (mkServerOptions [] [] (max_probes_per_source config) (probe_window config)).

Definition OnReflect (now : Z) (data : list Z) (from : InetAddress) (throttle : AdmissionControl)
  : list Sent * AdmissionControl :=
  if zlen data <? kZDTReflectSize then ([], throttle)
  else
    let '(verdict, throttle) := Admit now from throttle in
    if negb (bool_decide (verdict = Allow)) then ([], throttle)
    else
      let nonce := ReadBigEndian64 (drop (Z.to_nat kZDTOfflineHeaderSize) data) in
      ([(from, datagram_bytes (BuildReflected nonce from))], throttle).

End Reflector.

(** ** The relay *)

Module Relay.

(** The two slots; [None] until bound. *)
Record Pairing := mkPairing {
  channel : Z;
  token : Z;
  slot0 : option InetAddress;
  slot1 : option InetAddress;
  created : Z;
  last_traffic : Z
}.

Definition Pairing_default : Pairing := mkPairing 0 0 None None 0 0.

Record Relay := mkRelay {
  config_ : RelayConfig;
  running_ : bool;
  pairings_ : gmap Z Pairing;
  channels_by_token_ : gmap Z Z;
  next_channel_ : Z
}.

Definition Relay_new (config : RelayConfig) : Relay := mkRelay config false ∅ ∅ 1.

Definition set_pairings (v : gmap Z Pairing) (r : Relay) : Relay :=
  mkRelay (config_ r) (running_ r) v (channels_by_token_ r) (next_channel_ r).

Definition Start (r : Relay) : Relay :=
  mkRelay (config_ r) true (pairings_ r) (channels_by_token_ r) (next_channel_ r).

Definition Stop (r : Relay) : Relay := mkRelay (config_ r) false ∅ ∅ (next_channel_ r).

Definition after (c : Z) : Z := if c =? kZDTMaxRelayChannel then 1 else c + 1.

(** The walk to the next free channel. *)
Fixpoint free_channel (fuel : nat) (c : Z) (pairings : gmap Z Pairing) : option Z :=
  match fuel with
  | O => None
  | S fuel => if bool_decide (is_Some (pairings !! c)) then free_channel fuel (after c) pairings else Some c
  end.

(** [draws]: what [GenerateGuid] yields, in order; the first usable one is taken. *)
Definition fresh_token (draws : list Z) (tokens : gmap Z Z) : option Z :=
  List.find (fun t => negb ((t =? 0) || bool_decide (is_Some (tokens !! t)))) draws.

(** [None] while one of the two loops is still running. *)
Definition Allocate (fuel : nat) (draws : list Z) (now : Z) (r : Relay) : option (Result * option (Z * Z) * Relay) :=
  if negb (running_ r) then Some (AlreadyStopped, None, r)
  else if max_allocations (config_ r) <=? Z.of_nat (size (pairings_ r)) then Some (ServerFull, None, r)
  else
    c ← free_channel fuel (next_channel_ r) (pairings_ r);
    t ← fresh_token draws (channels_by_token_ r);
    Some (Success, Some (c, t),
      mkRelay (config_ r) (running_ r) (<[c := mkPairing c t None None now now]> (pairings_ r))
        (<[t := c]> (channels_by_token_ r)) (after c)).

Definition Release (c : Z) (r : Relay) : Relay :=
  match pairings_ r !! c with
  | None => r
  | Some p => mkRelay (config_ r) (running_ r) (delete c (pairings_ r)) (delete (token p) (channels_by_token_ r))
                (next_channel_ r)
  end.

Definition Free (c : Z) (r : Relay) : Result * Relay :=
  if bool_decide (pairings_ r !! c = None) then (PeerNotFound, r) else (Success, Release c r).

(** The slot a source is bound to. *)
Definition slot_of (p : Pairing) (from : InetAddress) : option bool :=
  let here s := match s with Some a => SameEndpoint a from | None => false end in
  if here (slot0 p) then Some false else if here (slot1 p) then Some true else None.

Definition touch (now : Z) (p : Pairing) : Pairing :=
  mkPairing (channel p) (token p) (slot0 p) (slot1 p) (created p) now.

Definition OnForward (c : Z) (data : list Z) (from : InetAddress) (now : Z) (r : Relay) : list Sent * Relay :=
  match pairings_ r !! c with
  | None => ([], r)
  | Some p =>
      match slot_of p from with
      | None => ([], r)
      | Some second =>
          match (if second then slot0 p else slot1 p) with
          | None => ([], r)
          | Some other => ([(other, data)], set_pairings (<[c := touch now p]> (pairings_ r)) r)
          end
      end
  end.

Section Bind.
Context `{P : Platform}.

Definition OnBind (data : list Z) (from : InetAddress) (now : Z) (r : Relay) : list Sent * Relay :=
  let t := BindToken data in
  match (if negb (t =? 0) then channels_by_token_ r !! t else None) with
  | None => ([], r)
  | Some c =>
      let p := default Pairing_default (pairings_ r !! c) in
      let bound :=
        match slot_of p from with
        | Some _ => Some p
        | None =>
            match slot0 p, slot1 p with
            | None, _ => Some (mkPairing (channel p) (token p) (Some from) (slot1 p) (created p) (last_traffic p))
            | Some _, None => Some (mkPairing (channel p) (token p) (slot0 p) (Some from) (created p) (last_traffic p))
            | Some _, Some _ => None
            end
        end in
      match bound with
      | None => ([], set_pairings (<[c := p]> (pairings_ r)) r)
      | Some p =>
          let p := touch now p in
          ([(from, datagram_bytes (BuildRelayBound (token p) (channel p)))], set_pairings (<[c := p]> (pairings_ r)) r)
      end
  end.

End Bind.

Definition expired (now : Z) (cfg : RelayConfig) (p : Pairing) : bool :=
  let bound := bool_decide (is_Some (slot0 p)) && bool_decide (is_Some (slot1 p)) in
  if bound then ms (idle_timeout cfg) <? now - last_traffic p else ms (bind_timeout cfg) <? now - created p.

Definition Expire (now : Z) (r : Relay) : Relay :=
  foldl (fun r e => if expired now (config_ r) e.2 then Release e.1 r else r) r (map_to_list (pairings_ r)).

End Relay.

(** ** The server *)

Record TraversalServer := mkTraversal {
  t_config : TraversalServerConfig;
  t_reflector : option AdmissionControl;
  t_relay : option Relay.Relay;
  t_running : bool;
  t_address : option InetAddress;
  last_sweep : Z
}.

Section Server.
Context `{P : Platform} `{I : Inet}.

Definition TraversalServer_new (config : TraversalServerConfig) : TraversalServer :=
  mkTraversal config (if enable_reflector config then Some (Reflector_new (reflector_config config)) else None)
    (if enable_relay config then Some (Relay.Relay_new (relay_config config)) else None) false None 0.

(** [address]: what [InetAddress::from] makes of the configuration; [opened],
    [bound], [local]: what the socket calls answer. *)
Definition Traversal_Start (address : option InetAddress) (opened bound : bool) (local : option InetAddress) (now : Z)
    (s : TraversalServer) : Result * TraversalServer :=
  if t_running s then (AlreadyListening, s)
  else if bool_decide (t_reflector s = None) && bool_decide (t_relay s = None) then (InvalidArgument, s)
  else match address with
       | None => (InvalidAddress, s)
       | Some a =>
           if negb (is_valid a) || bool_decide (ipv a = Unix) then (InvalidAddress, s)
           else if negb opened then (CannotCreateSocket, s)
           else if negb bound then (CannotBind, s)
           else (Success, mkTraversal (t_config s) (t_reflector s) (Relay.Start <$> t_relay s) true local now)
       end.

Definition Traversal_Stop (s : TraversalServer) : TraversalServer :=
  if negb (t_running s) then s
  else mkTraversal (t_config s) (t_reflector s) (Relay.Stop <$> t_relay s) false (t_address s) (last_sweep s).

(** The half a datagram belongs to takes it. *)
Definition classify (data : list Z) (from : InetAddress) (now : Z) (s : TraversalServer) : list Sent * TraversalServer :=
  let relay f := match t_relay s with
                 | Some r => let '(out, r) := f r in
                             (out, mkTraversal (t_config s) (t_reflector s) (Some r) (t_running s) (t_address s) (last_sweep s))
                 | None => ([], s)
                 end in
  match ReadRelayHeader data with
  | Some c => relay (Relay.OnForward c data from now)
  | None =>
      if bool_decide (PeekOfflineHeader data = Some (offline_id RelayBind)) then relay (Relay.OnBind data from now)
      else if bool_decide (PeekOfflineHeader data = Some (offline_id Reflect)) then
        match t_reflector s with
        | Some throttle =>
            let '(out, throttle) := OnReflect now data from throttle in
            (out, mkTraversal (t_config s) (Some throttle) (t_relay s) (t_running s) (t_address s) (last_sweep s))
        | None => ([], s)
        end
      else ([], s)
  end.

(** The sweep at the end of a round. *)
Definition sweep (now : Z) (s : TraversalServer) : TraversalServer :=
  match t_relay s with
  | Some r =>
      if kRecvTimeout <=? now - last_sweep s
      then mkTraversal (t_config s) (t_reflector s) (Some (Relay.Expire now r)) (t_running s) (t_address s) now
      else s
  | None => s
  end.

(** One round of the loop; [now] is read after the receive. *)
Definition Loop (received : RecvResult) (now : Z) (s : TraversalServer) : list Sent * TraversalServer :=
  let '(out, s) := match received with
                   | Received data (Some from) =>
                       let data := take (Z.to_nat ZNET_MAX_BUFFER_SIZE) data in
                       if bool_decide (data = []) then ([], s) else classify data from now s
                   | _ => ([], s)
                   end in
  (out, sweep now s).

End Server.
