(* ===== verification/P2pMessages.v ===== *)
(** * The punch's datagrams on the wire

    The bytes of every datagram a punch, a probe, the relay and the reflector
    build, and what the readers of the raw bytes make of them. *)

From S2P Require Import Prelude Buffer BufferSpec BufferCodecs ZdtWire ZdtWireSpec ZdtOffline InetAddr Admission ZdtCookie ZdtOptions ZdtState ZdtSend ZdtTransport ZdtServer ZdtClient ZdtMessages P2pPunch Traversal.

Definition punch_image : list Z := offline_image (offline_id ZdtWire.Punch).

Definition request_image (guid cap : Z) : list Z :=
  offline_image (offline_id OpenConnectionRequest1) ++ enc BigEndian 1 kZDTProtocolVersion ++ enc BigEndian 8 guid ++
  enc BigEndian 1 cap.

Definition reply_image (guid mtu cap : Z) : list Z :=
  offline_image (offline_id OpenConnectionReply2) ++ enc BigEndian 8 guid ++ enc BigEndian 2 mtu ++ enc BigEndian 1 cap.

Definition bind_image (token : Z) : list Z := offline_image (offline_id RelayBind) ++ enc BigEndian 8 token.

Definition bound_image (token channel : Z) : list Z :=
  offline_image (offline_id RelayBound) ++ enc BigEndian 8 token ++ enc BigEndian 4 channel.

Definition reflect_image (nonce : Z) : list Z :=
  offline_image (offline_id Reflect) ++ enc BigEndian 8 nonce ++ repeat 0 47.

Definition reflected_image (nonce : Z) (observed : InetAddress) : list Z :=
  offline_image (offline_id Reflected) ++ enc BigEndian 8 nonce ++ address_image observed.

Definition wrapped_image (channel : Z) (bs : list Z) : list Z := relay_image channel ++ bs.

Section Images.
Context `{P : Platform} `{!AmplePlatform P}.

Lemma BuildPunch_bytes : datagram_bytes BuildPunch = punch_image /\ bytes_ok punch_image.
Proof. by apply (message_bytes punch_image (fun b => WriteOfflineHeader b (offline_id ZdtWire.Punch))); [apply WriteOfflineHeader_writes|]. Qed.

Lemma BuildRequest1_bytes guid cap :
  datagram_bytes (BuildRequest1 guid cap) = request_image guid cap /\ bytes_ok (request_image guid cap) /\
  zlen (request_image guid cap) = 19.
Proof.
  assert (Hz : zlen (request_image guid cap) = 19) by (unfold request_image; zlen_tac; lia).
  destruct (message_bytes (request_image guid cap) (fun b => WriteInt 1 cap (WriteInt 8 guid (WriteInt 1 kZDTProtocolVersion
      (WriteOfflineHeader b (offline_id OpenConnectionRequest1)))))) as [E Hok]; [|lia|done].
  exact (writes_comp _ _ _ _ _ (WriteOfflineHeader_writes _)
    (writes_comp _ _ _ _ _ (writes_WriteInt _ 1 _ ltac:(lia))
    (writes_comp _ _ _ _ _ (writes_WriteInt _ 8 _ ltac:(lia)) (writes_WriteInt _ 1 _ ltac:(lia))))).
Qed.

Lemma BuildReply2_bytes guid mtu cap :
  datagram_bytes (BuildReply2 guid mtu cap) = reply_image guid mtu cap /\ bytes_ok (reply_image guid mtu cap) /\
  zlen (reply_image guid mtu cap) = 20.
Proof.
  assert (Hz : zlen (reply_image guid mtu cap) = 20) by (unfold reply_image; zlen_tac; lia).
  destruct (message_bytes (reply_image guid mtu cap) (fun b => WriteInt 1 cap (WriteInt 2 mtu (WriteInt 8 guid
      (WriteOfflineHeader b (offline_id OpenConnectionReply2)))))) as [E Hok]; [|lia|done].
  exact (writes_comp _ _ _ _ _ (WriteOfflineHeader_writes _)
    (writes_comp _ _ _ _ _ (writes_WriteInt _ 8 _ ltac:(lia))
    (writes_comp _ _ _ _ _ (writes_WriteInt _ 2 _ ltac:(lia)) (writes_WriteInt _ 1 _ ltac:(lia))))).
Qed.

Lemma BuildRelayBind_bytes token :
  datagram_bytes (BuildRelayBind token) = bind_image token /\ bytes_ok (bind_image token) /\ zlen (bind_image token) = 17.
Proof.
  assert (Hz : zlen (bind_image token) = 17) by (unfold bind_image; zlen_tac; lia).
  destruct (message_bytes (bind_image token) (fun b => WriteInt 8 token (WriteOfflineHeader b (offline_id RelayBind))))
    as [E Hok]; [|lia|done].
  exact (writes_comp _ _ _ _ _ (WriteOfflineHeader_writes _) (writes_WriteInt _ 8 _ ltac:(lia))).
Qed.

Lemma BuildRelayBound_bytes token channel :
  datagram_bytes (BuildRelayBound token channel) = bound_image token channel /\ bytes_ok (bound_image token channel) /\
  zlen (bound_image token channel) = 21.
Proof.
  assert (Hz : zlen (bound_image token channel) = 21) by (unfold bound_image; zlen_tac; lia).
  destruct (message_bytes (bound_image token channel) (fun b => WriteInt 4 channel (WriteInt 8 token
      (WriteOfflineHeader b (offline_id RelayBound))))) as [E Hok]; [|lia|done].
  exact (writes_comp _ _ _ _ _ (WriteOfflineHeader_writes _)
    (writes_comp _ _ _ _ _ (writes_WriteInt _ 8 _ ltac:(lia)) (writes_WriteInt _ 4 _ ltac:(lia)))).
Qed.

Lemma BuildReflected_bytes nonce a :
  address_ok a ->
  datagram_bytes (BuildReflected nonce a) = reflected_image nonce a /\ bytes_ok (reflected_image nonce a) /\
  24 <= zlen (reflected_image nonce a) <= 36.
Proof.
  intros Ha. pose proof (zlen_address_image a Ha) as Hza.
  assert (Hz : 24 <= zlen (reflected_image nonce a) <= 36) by (unfold reflected_image; zlen_tac; lia).
  destruct (message_bytes (reflected_image nonce a) (fun b => WriteInetAddress a (WriteInt 8 nonce
      (WriteOfflineHeader b (offline_id Reflected))))) as [E Hok]; [|lia|done].
  exact (writes_comp _ _ _ _ _ (WriteOfflineHeader_writes _)
    (writes_comp _ _ _ _ _ (writes_WriteInt _ 8 _ ltac:(lia)) (writes_address _ Ha))).
Qed.

(** The padding loop writes what is missing to 64 bytes. *)
Lemma pad_writes n : forall fuel b,
  (n <= fuel)%nat -> endianness_ b = BigEndian -> ready (Z.of_nat n) b -> write_cursor_ b = kZDTReflectSize - Z.of_nat n ->
  appends b (repeat 0 n) (pad_reflect fuel b).
Proof.
  induction n as [|n IH]; intros fuel b Hf He Hr Hw.
  - assert (Hp : pad_reflect fuel b = b).
    { destruct fuel; [done|]. cbn [pad_reflect]. replace (write_cursor_ b <? kZDTReflectSize) with false; [done|].
      symmetry. apply Z.ltb_ge. lia. }
    rewrite Hp. apply appends_nil, Hr.
  - destruct fuel as [|fuel]; [lia|]. cbn [pad_reflect].
    replace (write_cursor_ b <? kZDTReflectSize) with true by (symmetry; apply Z.ltb_lt; lia).
    change (repeat 0 (S n)) with (enc BigEndian 1 0 ++ repeat 0 n).
    assert (H1 : appends b (enc BigEndian 1 0) (WriteInt 1 0 b)).
    { apply writes_WriteInt; [lia|done|]. eapply ready_weaken; [|exact Hr]. rewrite zlen_enc by lia. lia. }
    eapply appends_trans; [exact H1|]. pose proof (app_wc _ _ _ H1) as Ew. rewrite zlen_enc in Ew by lia.
    apply IH; [lia|by rewrite (app_endian _ _ _ H1)| |lia].
    apply (appends_ready _ _ _ _ H1). eapply ready_weaken; [|exact Hr]. rewrite zlen_enc by lia. lia.
Qed.

Lemma BuildReflect_bytes nonce :
  datagram_bytes (BuildReflect nonce) = reflect_image nonce /\ bytes_ok (reflect_image nonce) /\
  zlen (reflect_image nonce) = kZDTReflectSize.
Proof.
  assert (Hz : zlen (reflect_image nonce) = 64) by (unfold reflect_image; zlen_tac; lia).
  set (f := fun b => WriteInt 8 nonce (WriteOfflineHeader b (offline_id Reflect))).
  assert (Hf : appends (Buffer_new BigEndian) (offline_image (offline_id Reflect) ++ enc BigEndian 8 nonce) (f (Buffer_new BigEndian))).
  { apply (writes_comp _ _ _ _ _ (WriteOfflineHeader_writes _) (writes_WriteInt _ 8 _ ltac:(lia))); [done|].
    apply Buffer_new_ready. zlen_tac. lia. }
  pose proof (app_wc _ _ _ Hf) as Ew. revert Ew. zlen_tac. intros Ew. cbn in Ew.
  assert (Ha : appends (Buffer_new BigEndian) (reflect_image nonce) (BuildReflect nonce)).
  { unfold reflect_image. rewrite app_assoc. eapply appends_trans; [exact Hf|].
    change (BuildReflect nonce) with (pad_reflect (Z.to_nat kZDTReflectSize) (f (Buffer_new BigEndian))). apply pad_writes.
    - unfold kZDTReflectSize. lia.
    - rewrite (app_endian _ _ _ Hf). done.
    - destruct Hf as [Hwf _ Hrc Hrl Hwc _]. split; [done|cbn in *; lia|by rewrite Hrl|lia].
    - unfold kZDTReflectSize. lia. }
  destruct (appended_bytes _ _ Ha ltac:(lia)). done.
Qed.

(** What travels to a relay is the header and the datagram. *)
Lemma SendDatagram_bytes a c d bs :
  datagram_bytes d = bs -> bytes_ok bs -> zlen bs < 2 ^ 30 ->
  SendDatagram a c d = (a, if c =? 0 then bs else wrapped_image c bs) /\ bytes_ok (wrapped_image c bs).
Proof.
  intros <- Hok HL. unfold SendDatagram.
  destruct (message_bytes (wrapped_image c (datagram_bytes d)) (fun b => Write (datagram_bytes d) (WriteRelayHeader b c))) as [E Hw].
  - exact (writes_comp _ _ _ _ _ (WriteRelayHeader_writes c) (writes_Write _ _ Hok)).
  - unfold wrapped_image, relay_image. rewrite length_app, Nat2Z.inj_add. cbn [length]. lia.
  - split; [|done]. destruct (c =? 0); [done|]. by rewrite E.
Qed.

End Images.

Lemma BindToken_image token : 0 <= token < 2 ^ 64 -> BindToken (bind_image token) = token.
Proof.
  intros Ht. unfold BindToken, bind_image. destruct (offline_kind RelayBind (enc BigEndian 8 token)) as [_ ->].
  rewrite bool_decide_true by done. cbn [negb]. rewrite orb_false_r.
  replace (_ <? _) with false by (symmetry; apply Z.ltb_ge; zlen_tac; unfold kZDTOfflineHeaderSize; lia).
  rewrite drop_app_length' by (pose proof (zlen_offline_image (offline_id RelayBind)); unfold kZDTOfflineHeaderSize; lia).
  rewrite <- (app_nil_r (enc BigEndian 8 token)), ReadBigEndian64_dec, dec_enc by (lia || apply enc_bytes_ok || (pose proof (zlen_enc BigEndian 8 token); lia)).
  done.
Qed.

Lemma wrapped_kind c bs : 0 < c <= kZDTMaxRelayChannel -> ReadRelayHeader (wrapped_image c bs) = Some c.
Proof. apply ReadRelayHeader_image. Qed.
