(* ===== verification/TraversalTheorems.v ===== *)
(** * What the traversal server promises

    The invariant of the relay under any datagrams and any broker, that it
    forwards only between the two sources that presented one token, that allocating
    returns, and that no answer is larger than its question. *)

From S2P Require Import Prelude Buffer BufferSpec BufferCodecs ZdtWire ZdtWireSpec ZdtOffline InetAddr InetAddrTheorems Admission ZdtCookie ZdtOptions ZdtState ZdtSend ZdtTransport ZdtServer ZdtClient ZdtMessages P2pPunch Traversal P2pMessages.

Import Relay.

Lemma SameEndpoint_spec a b : address_ok a -> address_ok b -> SameEndpoint a b = bool_decide (a = b).
Proof.
  intros Ha Hb. unfold SameEndpoint. destruct a as [x p|x p|], b as [y q|y q|]; try done; cbn;
    (destruct (Z.eqb_spec p q) as [->|]; cbn; [|symmetry; apply bool_decide_eq_false; congruence]);
    apply bool_decide_ext; split; congruence.
Qed.

(** ** The invariant of the relay *)

(** A datagram that presents a token, among those that arrived. *)
Definition presented (seen : list (list Z * InetAddress)) (a : InetAddress) (t : Z) : Prop :=
  exists d, (d, a) ∈ seen /\ BindToken d = t.

Definition slot_in (p : Pairing) (a : InetAddress) : Prop := slot0 p = Some a \/ slot1 p = Some a.

Record pairing_ok (seen : list (list Z * InetAddress)) (c : Z) (p : Pairing) : Prop := {
  pk_channel : channel p = c;
  pk_range : 1 <= c <= kZDTMaxRelayChannel;
  pk_token : token p <> 0;
  pk_bound : forall a, slot_in p a -> address_ok a /\ presented seen a (token p);
  pk_order : slot0 p = None -> slot1 p = None;
  pk_two : forall a, slot0 p = Some a -> slot1 p = Some a -> False
}.

Record relay_ok (seen : list (list Z * InetAddress)) (r : Relay) : Prop := {
  rl_pairing : forall c p, pairings_ r !! c = Some p -> pairing_ok seen c p;
  rl_token : forall c p, pairings_ r !! c = Some p -> channels_by_token_ r !! token p = Some c;
  rl_back : forall t c, channels_by_token_ r !! t = Some c -> exists p, pairings_ r !! c = Some p /\ token p = t;
  rl_size : Z.of_nat (size (pairings_ r)) <= Z.max 0 (max_allocations (config_ r));
  rl_next : 1 <= next_channel_ r <= kZDTMaxRelayChannel
}.

Lemma relay_new_ok seen cfg : relay_ok seen (Relay_new cfg).
Proof.
  split; cbn; try (intros ? ?; by rewrite lookup_empty).
  - rewrite map_size_empty. lia.
  - unfold kZDTMaxRelayChannel. lia.
Qed.

Lemma relay_stop_ok seen r : relay_ok seen r -> relay_ok seen (Stop r).
Proof.
  intros []. split; cbn; try (intros ? ?; by rewrite lookup_empty); try done. rewrite map_size_empty. lia.
Qed.

Lemma relay_start_ok seen r : relay_ok seen r -> relay_ok seen (Start r).
Proof. by intros []. Qed.

Lemma relay_ok_more seen x r : relay_ok seen r -> relay_ok (x :: seen) r.
Proof.
  intros []. split; try done. intros c p Hp. destruct (rl_pairing0 c p Hp). split; try done.
  intros a Ha. destruct (pk_bound0 a Ha) as (Hk & d & Hd & Ht). split; [done|]. exists d. split; [by right|done].
Qed.

Lemma Release_spec c r p : pairings_ r !! c = Some p ->
  Release c r = mkRelay (config_ r) (running_ r) (delete c (pairings_ r)) (delete (token p) (channels_by_token_ r)) (next_channel_ r).
Proof. unfold Release. by intros ->. Qed.

Lemma relay_release_ok seen c r : relay_ok seen r -> relay_ok seen (Release c r).
Proof.
  intros [Hp Ht Hb Hs Hn]. unfold Release. destruct (pairings_ r !! c) as [p|] eqn:E; [|by split].
  split; cbn; try done.
  - intros c' p' [_ H]%lookup_delete_Some. by apply Hp.
  - intros c' p' [Hne H]%lookup_delete_Some. rewrite lookup_delete_ne; [by apply Ht|].
    intros Et. pose proof (Ht c p E) as H1. pose proof (Ht c' p' H) as H2. rewrite Et in H1. congruence.
  - intros t c' [Hne H]%lookup_delete_Some. destruct (Hb t c' H) as (p' & H' & <-). exists p'.
    rewrite lookup_delete_ne; [done|]. intros <-. congruence.
  - rewrite map_size_delete, E. cbn. lia.
Qed.

(** What is expired goes, the rest stays. *)
Lemma Release_lookup c c' r : pairings_ (Release c r) !! c' = if decide (c = c') then None else pairings_ r !! c'.
Proof.
  unfold Release. destruct (pairings_ r !! c) as [p|] eqn:E; cbn.
  - destruct (decide (c = c')) as [->|]; [by rewrite lookup_delete_eq|by rewrite lookup_delete_ne].
  - by destruct (decide (c = c')) as [->|].
Qed.

Lemma Release_config c r : config_ (Release c r) = config_ r.
Proof. unfold Release. by destruct (pairings_ r !! c). Qed.

Lemma expire_fold now l : forall r,
  let r' := foldl (fun r e => if expired now (config_ r) e.2 then Release e.1 r else r) r l in
  forall c, pairings_ r' !! c =
    if existsb (fun e => (e.1 =? c) && expired now (config_ r) e.2) l then None else pairings_ r !! c.
Proof.
  induction l as [|[c0 p0] l IH]; intros r; cbn [foldl existsb]; [done|]. cbn [fst snd]. intros c.
  destruct (expired now (config_ r) p0) eqn:E; rewrite IH.
  - rewrite Release_config, Release_lookup, andb_true_r.
    destruct (Z.eqb_spec c0 c) as [->|Hne]; [rewrite decide_True by done; by destruct (existsb _ _)|].
    by rewrite decide_False by done.
  - by rewrite andb_false_r.
Qed.

Lemma Expire_lookup now r c :
  pairings_ (Expire now r) !! c =
  match pairings_ r !! c with Some p => if expired now (config_ r) p then None else Some p | None => None end.
Proof.
  unfold Expire. rewrite expire_fold. destruct (pairings_ r !! c) as [p|] eqn:E; [|by destruct (existsb _ _)].
  replace (existsb _ _) with (expired now (config_ r) p); [done|]. symmetry. apply eq_bool_prop_intro.
  rewrite !Is_true_true, existsb_exists. split.
  - intros ([c' q] & Hq & Hx). apply andb_true_iff in Hx as [Hc Hx]. apply Z.eqb_eq in Hc. cbn in *. subst c'.
    apply list_elem_of_In, elem_of_map_to_list in Hq. congruence.
  - intros Hx. exists (c, p). split; [by apply list_elem_of_In, elem_of_map_to_list|]. cbn. by rewrite Z.eqb_refl, Hx.
Qed.

Lemma relay_expire_ok seen now r : relay_ok seen r -> relay_ok seen (Expire now r).
Proof.
  unfold Expire. generalize (map_to_list (pairings_ r)). intros l. revert r.
  induction l as [|e l IH]; intros r Hr; cbn [foldl]; [done|]. apply IH.
  destruct (expired _ _ _); [by apply relay_release_ok|done].
Qed.

Lemma relay_set_ok seen c p p' r :
  relay_ok seen r -> pairings_ r !! c = Some p -> pairing_ok seen c p' -> token p' = token p ->
  relay_ok seen (set_pairings (<[c := p']> (pairings_ r)) r).
Proof.
  intros [Hp Ht Hb Hs Hn] E Hp' Et. split; cbn; try done.
  - intros c' q [ [<- <-]|[_ H] ]%lookup_insert_Some; [done|by apply Hp].
  - intros c' q [ [<- <-]|[_ H] ]%lookup_insert_Some; [rewrite Et|]; by apply Ht.
  - intros t c' H. destruct (Hb t c' H) as (q & Hq & <-). destruct (decide (c' = c)) as [->|].
    + exists p'. rewrite lookup_insert_eq. split; [done|congruence].
    + exists q. by rewrite lookup_insert_ne.
  - rewrite map_size_insert, E. cbn. lia.
Qed.

Lemma touch_ok seen c now p : pairing_ok seen c p -> pairing_ok seen c (touch now p).
Proof. by intros []. Qed.

Lemma slot_of_addresses p from :
  address_ok from -> (forall a, slot_in p a -> address_ok a) ->
  slot_of p from = if bool_decide (slot0 p = Some from) then Some false
                   else if bool_decide (slot1 p = Some from) then Some true else None.
Proof.
  intros Hf Ha. unfold slot_of.
  assert (Hs : forall s, (forall a, s = Some a -> slot_in p a) ->
    match s with Some a => SameEndpoint a from | None => false end = bool_decide (s = Some from)).
  { intros [a|] Hi; [|done]. rewrite SameEndpoint_spec by (try done; by apply Ha, Hi). apply bool_decide_ext. split; congruence. }
  by rewrite !Hs by (intros a Hx; by (left + right)).
Qed.

Lemma slot_of_spec seen c p from :
  pairing_ok seen c p -> address_ok from ->
  match slot_of p from with
  | Some false => slot0 p = Some from
  | Some true => slot1 p = Some from
  | None => ~ slot_in p from
  end.
Proof.
  intros Hp Hf. rewrite slot_of_addresses by (try done; intros a Ha; by apply (pk_bound _ _ _ Hp)).
  destruct (bool_decide_reflect (slot0 p = Some from)); [done|].
  destruct (bool_decide_reflect (slot1 p = Some from)); [done|]. by intros [?|?].
Qed.

(** A forwarded datagram goes, as it is, from one bound source to the other. *)
Lemma OnForward_spec seen c data from now r :
  relay_ok seen r -> address_ok from ->
  match OnForward c data from now r with
  | (out, r') => relay_ok seen r' /\
      (out = [] /\ r' = r \/
       exists p other, pairings_ r !! c = Some p /\ slot_in p from /\ slot_in p other /\ from <> other /\
         out = [(other, data)] /\ r' = set_pairings (<[c := touch now p]> (pairings_ r)) r)
  end.
Proof.
  intros Hr Hf. unfold OnForward. destruct (pairings_ r !! c) as [p|] eqn:E; [|by split; [|left] ].
  pose proof (rl_pairing _ _ Hr c p E) as Hp. pose proof (slot_of_spec _ _ p from Hp Hf) as Hs.
  destruct (slot_of p from) as [second|]; [|by split; [|left] ].
  destruct (if second then slot0 p else slot1 p) as [other|] eqn:Eo; [|by split; [|left] ].
  split; [eapply relay_set_ok; [done..|by apply touch_ok|done]|]. right. exists p, other. split; [done|].
  destruct second; (split; [by (left + right)|]); (split; [by (left + right)|]); (split; [|done]);
    intros <-; by eapply (pk_two _ _ _ Hp).
Qed.

(** A bind is answered to its source and binds it, or changes nothing. *)
Lemma OnBind_spec `{Platform} seen data from now r :
  relay_ok seen r -> address_ok from -> (data, from) ∈ seen ->
  match OnBind data from now r with
  | (out, r') => relay_ok seen r' /\
      (out = [] /\ pairings_ r' = pairings_ r /\ (forall c p, channels_by_token_ r !! BindToken data = Some c ->
          BindToken data <> 0 -> pairings_ r !! c = Some p ->
          ~ slot_in p from /\ exists a b, slot0 p = Some a /\ slot1 p = Some b) \/
       exists c p p', BindToken data <> 0 /\ token p = BindToken data /\ pairings_ r !! c = Some p /\
         (slot_in p from /\ p' = p \/
          ~ slot_in p from /\ slot0 p = None /\ slot0 p' = Some from /\ slot1 p' = None \/
          ~ slot_in p from /\ (exists a, slot0 p = Some a /\ slot0 p' = Some a) /\ slot1 p = None /\ slot1 p' = Some from) /\
         channel p' = c /\ token p' = token p /\ created p' = created p /\
         out = [(from, datagram_bytes (BuildRelayBound (BindToken data) c))] /\
         r' = set_pairings (<[c := touch now p']> (pairings_ r)) r)
  end.
Proof.
  intros Hr Hf Hd. unfold OnBind. destruct (Z.eqb_spec (BindToken data) 0) as [E0|Hne]; cbn [negb].
  { split; [done|]. left. split; [done|]. split; [done|]. by intros c p _ ?. }
  destruct (channels_by_token_ r !! BindToken data) as [c|] eqn:Ec; [|split; [done|left; split; [done|split; [done|done] ] ] ].
  destruct (rl_back _ _ Hr _ _ Ec) as (p & E & Et). rewrite E. change (default Pairing_default (Some p)) with p.
  pose proof (rl_pairing _ _ Hr c p E) as Hp. pose proof (slot_of_spec _ _ p from Hp Hf) as Hs.
  assert (Hpres : presented seen from (token p)) by (exists data; by rewrite Et).
  destruct Hp as [Kc Kr Kt Kb Ko K2].
  destruct (slot_of p from) as [second|].
  - cbv beta iota zeta. split; [eapply relay_set_ok; [done..|by split|done]|]. right. exists c, p, p.
    split; [done|]. split; [done|]. split; [done|]. split; [left; split; [destruct second; by (left + right)|done]|].
    do 3 (split; [done|]). split; [|done]. cbn. by rewrite Et, Kc.
  - cbv beta iota zeta. destruct (slot0 p) as [a|] eqn:E0; [destruct (slot1 p) as [b|] eqn:E1|].
    + replace (<[c := p]> (pairings_ r)) with (pairings_ r) by (symmetry; by apply insert_id).
      split; [by destruct Hr|]. left. split; [done|]. split; [done|]. intros c' p' [= <-] _ Hp'.
      assert (p' = p) as -> by congruence. split; [done|]. exists a, b. by rewrite E0, E1.
    + split.
      * eapply relay_set_ok; [done..| |done]. apply touch_ok. split; cbn; try done.
        -- intros x [Hx|Hx]; cbn in Hx; [|injection Hx as <-; done]. apply Kb. left. congruence.
        -- intros x Hx [= <-]. apply Hs. left. congruence.
      * right. exists c, p, (mkPairing (channel p) (token p) (Some a) (Some from) (created p) (last_traffic p)).
        split; [done|]. split; [done|]. split; [done|]. split; [right; right|].
        { split; [done|]. split; [by exists a|]. done. }
        do 3 (split; [done|]). split; [|reflexivity]. cbn. by rewrite Et, Kc.
    + split.
      * eapply relay_set_ok; [done..| |done]. apply touch_ok. split; cbn; try done.
        -- intros x [Hx|Hx]; cbn in Hx; [injection Hx as <-; done|]. by rewrite Ko in Hx.
        -- intros x [= <-] Hx. by rewrite Ko in Hx.
      * right. exists c, p, (mkPairing (channel p) (token p) (Some from) (slot1 p) (created p) (last_traffic p)).
        split; [done|]. split; [done|]. split; [done|]. split; [right; left|].
        { split; [done|]. split; [done|]. cbn. split; [done|]. by apply Ko. }
        do 3 (split; [done|]). split; [|reflexivity]. cbn. by rewrite Et, Kc.
Qed.

(** ** Allocating *)

Lemma after_mod c : 1 <= c <= kZDTMaxRelayChannel -> after c = c mod kZDTMaxRelayChannel + 1.
Proof.
  intros Hc. unfold after. destruct (Z.eqb_spec c kZDTMaxRelayChannel) as [->|Hne]; [by rewrite Z.mod_same|].
  rewrite Z.mod_small by lia. lia.
Qed.

(** The walk ends at a free channel, or has passed distinct used ones only. *)
Lemma free_channel_spec fuel m : forall c, 1 <= c <= kZDTMaxRelayChannel ->
  match free_channel fuel c m with
  | Some c' => m !! c' = None /\ 1 <= c' <= kZDTMaxRelayChannel
  | None => forall i : nat, (i < fuel)%nat -> is_Some (m !! ((c - 1 + Z.of_nat i) mod kZDTMaxRelayChannel + 1))
  end.
Proof.
  induction fuel as [|fuel IH]; intros c Hc; cbn [free_channel]; [lia|].
  destruct (bool_decide_reflect (is_Some (m !! c))) as [Hs|Hn].
  - pose proof (after_mod c Hc) as Ea. pose proof (Z.mod_pos_bound c kZDTMaxRelayChannel ltac:(done)) as Hb.
    specialize (IH (after c) ltac:(lia)). destruct (free_channel fuel (after c) m); [done|].
    intros [|i] Hi.
    + rewrite Z.mod_small by lia. by replace (c - 1 + Z.of_nat 0 + 1) with c by lia.
    + specialize (IH i ltac:(lia)). rewrite Ea in IH.
      replace (c mod kZDTMaxRelayChannel + 1 - 1 + Z.of_nat i) with (c mod kZDTMaxRelayChannel + Z.of_nat i) in IH by lia.
      rewrite Zplus_mod_idemp_l in IH. by replace (c - 1 + Z.of_nat (S i)) with (c + Z.of_nat i) by lia.
  - split; [|done]. by apply eq_None_not_Some.
Qed.

Lemma mod_shift_inj b i j k : 0 < k -> 0 <= i < k -> 0 <= j < k -> (b + i) mod k = (b + j) mod k -> i = j.
Proof.
  intros Hk Hi Hj E. assert (H : (i - j) mod k = 0).
  { replace (i - j) with ((b + i) - (b + j)) by lia. by rewrite Zminus_mod, E, Z.sub_diag. }
  apply Z.mod_divide in H as [q Hq]; [|lia]. assert (q = 0) by nia. lia.
Qed.

Lemma free_channel_returns c (m : gmap Z Pairing) :
  1 <= c <= kZDTMaxRelayChannel -> Z.of_nat (size m) < kZDTMaxRelayChannel ->
  exists c', free_channel (S (size m)) c m = Some c' /\ m !! c' = None /\ 1 <= c' <= kZDTMaxRelayChannel.
Proof.
  intros Hc Hsz. pose proof (free_channel_spec (S (size m)) m c Hc) as H.
  destruct (free_channel (S (size m)) c m) as [c'|]; [by eauto|]. exfalso.
  set (f := fun i : nat => (c - 1 + Z.of_nat i) mod kZDTMaxRelayChannel + 1).
  assert (Hnd : NoDup (f <$> seq 0 (S (size m)))).
  { apply NoDup_fmap_2_strong; [|apply NoDup_seq]. intros i j Hi Hj E. apply elem_of_seq in Hi, Hj.
    apply Nat2Z.inj, (mod_shift_inj (c - 1) _ _ kZDTMaxRelayChannel); unfold f in E; (done || lia). }
  assert (Hsub : (list_to_set (f <$> seq 0 (S (size m))) : gset Z) ⊆ dom m).
  { intros x Hx. apply elem_of_list_to_set, list_elem_of_fmap in Hx as (i & -> & Hi). apply elem_of_seq in Hi.
    apply elem_of_dom, H. lia. }
  apply subseteq_size in Hsub. rewrite size_list_to_set, length_fmap, length_seq, size_dom in Hsub by done. lia.
Qed.

Lemma relay_allocate_ok seen fuel draws now r res alloc r' :
  relay_ok seen r -> Allocate fuel draws now r = Some (res, alloc, r') ->
  relay_ok seen r' /\
  (alloc = None /\ r' = r /\ res <> Success \/
   exists c t, alloc = Some (c, t) /\ res = Success /\ pairings_ r !! c = None /\ channels_by_token_ r !! t = None /\
     1 <= c <= kZDTMaxRelayChannel /\ t <> 0 /\ t ∈ draws /\ running_ r = true /\
     pairings_ r' = <[c := mkPairing c t None None now now]> (pairings_ r)).
Proof.
  intros Hr. unfold Allocate. destruct (running_ r) eqn:Erun; cbn [negb].
  2: { intros [= <- <- <-]. split; [done|]. by left. }
  destruct (Z.leb_spec (max_allocations (config_ r)) (Z.of_nat (size (pairings_ r)))) as [|Hlt].
  { intros [= <- <- <-]. split; [done|]. by left. }
  pose proof (free_channel_spec fuel (pairings_ r) (next_channel_ r) (rl_next _ _ Hr)) as Hc.
  destruct (free_channel fuel _ _) as [c|]; [|done]. cbn. destruct (fresh_token draws (channels_by_token_ r)) as [t|] eqn:Et; [|done].
  cbn. intros [= <- <- <-]. destruct Hc as [Hnone Hrange].
  unfold fresh_token in Et. apply List.find_some in Et as [Hin Ht]. apply list_elem_of_In in Hin.
  apply negb_true_iff, orb_false_iff in Ht as [Ht0 Hfree]. apply Z.eqb_neq in Ht0.
  apply bool_decide_eq_false, eq_None_not_Some in Hfree.
  split; [|right; exists c, t; split_and!; (done || lia)]. destruct Hr as [Hp Hk Hb Hs Hn]. split; cbn.
  - intros c' p [ [<- <-]|[_ H] ]%lookup_insert_Some; [|by apply Hp]. split; cbn; try done. by intros a [?|?].
  - intros c' p [ [<- <-]|[Hne H] ]%lookup_insert_Some; cbn; [by rewrite lookup_insert_eq|].
    rewrite lookup_insert_ne; [by apply Hk|]. intros ->. rewrite (Hk c' p H) in Hfree. done.
  - intros t' c' [ [<- <-]|[Hne H] ]%lookup_insert_Some; [eexists; by rewrite lookup_insert_eq|].
    destruct (Hb t' c' H) as (p & Hp' & <-). exists p. rewrite lookup_insert_ne; [done|]. intros ->. congruence.
  - rewrite map_size_insert, Hnone. cbn. lia.
  - pose proof (after_mod c Hrange). pose proof (Z.mod_pos_bound c kZDTMaxRelayChannel ltac:(done)). lia.
Qed.

(** ** The server *)

Section Server.
Context `{P : Platform} `{!AmplePlatform P} `{I : Inet}.

Definition cut (data : list Z) : list Z := take (Z.to_nat ZNET_MAX_BUFFER_SIZE) data.

Definition with_relay (r : Relay) (s : TraversalServer) : TraversalServer :=
  mkTraversal (t_config s) (t_reflector s) (Some r) (t_running s) (t_address s) (last_sweep s).

(** The rounds of the loop, and what the broker and the owner call meanwhile;
    [seen] are the datagrams that have arrived. *)
Inductive traversal_step : list (list Z * InetAddress) -> TraversalServer ->
                           list (list Z * InetAddress) -> TraversalServer -> Prop :=
  | ts_datagram data from now seen s : address_ok from ->
      traversal_step seen s ((cut data, from) :: seen) (Loop (Received data (Some from)) now s).2
  | ts_quiet received now seen s : (forall data from, received <> Received data (Some from)) ->
      traversal_step seen s seen (Loop received now s).2
  | ts_allocate fuel draws now res alloc r r' seen s :
      t_relay s = Some r -> Allocate fuel draws now r = Some (res, alloc, r') ->
      traversal_step seen s seen (with_relay r' s)
  | ts_free c r seen s : t_relay s = Some r -> traversal_step seen s seen (with_relay (Free c r).2 s)
  | ts_start address opened bound local now seen s :
      traversal_step seen s seen (Traversal_Start address opened bound local now s).2
  | ts_stop seen s : traversal_step seen s seen (Traversal_Stop s).

Inductive traversal_reachable (cfg : TraversalServerConfig) : list (list Z * InetAddress) -> TraversalServer -> Prop :=
  | tr_new : traversal_reachable cfg [] (TraversalServer_new cfg)
  | tr_step seen s seen' s' :
      traversal_reachable cfg seen s -> traversal_step seen s seen' s' -> traversal_reachable cfg seen' s'.

Definition traversal_ok (seen : list (list Z * InetAddress)) (s : TraversalServer) : Prop :=
  forall r, t_relay s = Some r -> relay_ok seen r.

(** The answers a datagram can bring about. *)
Inductive answer (s : TraversalServer) (data : list Z) (from : InetAddress) : list Sent -> Prop :=
  | answer_none : answer s data from []
  | answer_reflect nonce : kZDTReflectSize <= zlen data ->
      answer s data from [(from, reflected_image nonce from)]
  | answer_bound r c p : t_relay s = Some r -> pairings_ r !! c = Some p -> token p = BindToken data -> BindToken data <> 0 ->
      answer s data from [(from, bound_image (BindToken data) c)]
  | answer_forward r c p other : t_relay s = Some r -> ReadRelayHeader data = Some c -> pairings_ r !! c = Some p ->
      slot_in p from -> slot_in p other -> from <> other -> answer s data from [(other, data)].

Lemma classify_spec seen data from now s :
  traversal_ok seen s -> address_ok from ->
  answer s data from (classify data from now s).1 /\ traversal_ok ((data, from) :: seen) (classify data from now s).2.
Proof.
  intros Hs Hf. assert (Hmore : traversal_ok ((data, from) :: seen) s) by (intros r Hr; by apply relay_ok_more, Hs).
  assert (Hnone : answer s data from [] /\ traversal_ok ((data, from) :: seen) s) by (split; [constructor|done]).
  unfold classify. destruct (ReadRelayHeader data) as [c|] eqn:Ec.
  - destruct (t_relay s) as [r|] eqn:Er; [|done].
    pose proof (OnForward_spec _ c data from now r (Hmore r Er) Hf) as H.
    destruct (OnForward c data from now r) as [out r']. destruct H as [Hr' Ho]. split; [|by intros r0 [= <-]].
    destruct Ho as [ [-> _]|(p & other & Hp & H1 & H2 & Hne & -> & _)]; [constructor|by eapply answer_forward].
  - destruct (bool_decide_reflect (PeekOfflineHeader data = Some (offline_id RelayBind))) as [_|_].
    + destruct (t_relay s) as [r|] eqn:Er; [|done].
      pose proof (OnBind_spec _ data from now r (Hmore r Er) Hf ltac:(by left)) as H.
      destruct (OnBind data from now r) as [out r']. destruct H as [Hr' Ho]. split; [|by intros r0 [= <-]].
      destruct Ho as [ [-> _]|(c & p & p' & Ht & Ep & Hp & _ & _ & _ & _ & -> & _)]; [constructor|].
      cbn [fst]. rewrite (proj1 (BuildRelayBound_bytes _ _)). by eapply answer_bound.
    + destruct (bool_decide_reflect (PeekOfflineHeader data = Some (offline_id Reflect))) as [_|_]; [|done].
      destruct (t_reflector s) as [throttle|]; [|done]. unfold OnReflect.
      destruct (Z.ltb_spec (zlen data) kZDTReflectSize) as [|Hz]; [done|].
      destruct (Admit now from throttle) as [v th]. destruct (negb _); [by split; [constructor|]|].
      split; [|done]. cbn [fst]. rewrite (proj1 (BuildReflected_bytes _ _ Hf)). by constructor.
Qed.

Lemma sweep_ok seen now s : traversal_ok seen s -> traversal_ok seen (sweep now s).
Proof.
  intros Hs. unfold sweep. destruct (t_relay s) as [r|] eqn:Er; [|done]. destruct (_ <=? _); [|done].
  intros r0 [= <-]. by apply relay_expire_ok, Hs.
Qed.

Lemma Loop_spec seen data from now s :
  traversal_ok seen s -> address_ok from ->
  answer s (cut data) from (Loop (Received data (Some from)) now s).1 /\
  traversal_ok ((cut data, from) :: seen) (Loop (Received data (Some from)) now s).2.
Proof.
  intros Hs Hf. unfold Loop. fold (cut data).
  destruct (bool_decide (cut data = [])).
  - split; [constructor|]. apply sweep_ok. intros r Hr. by apply relay_ok_more, Hs.
  - destruct (classify_spec seen (cut data) from now s Hs Hf) as [Ha Hok].
    destruct (classify (cut data) from now s) as [out s1]. split; [done|]. by apply sweep_ok.
Qed.

Lemma traversal_reachable_ok cfg seen s : traversal_reachable cfg seen s -> traversal_ok seen s.
Proof.
  induction 1 as [|seen s seen' s' _ IH Hst].
  - intros r. cbn. destruct (enable_relay cfg); [|done]. intros [= <-]. apply relay_new_ok.
  - destruct Hst as [data from now seen s Hf|received now seen s Hq|fuel draws now res alloc r r' seen s Er Ea
                     |c r seen s Er|address opened bound local now seen s|seen s].
    + by apply Loop_spec.
    + unfold Loop. destruct received as [| |data [from|] ]; [| |by edestruct Hq|]; by apply sweep_ok.
    + intros r0 [= <-]. by eapply relay_allocate_ok; [apply IH|].
    + intros r0 [= <-]. unfold Free. destruct (bool_decide _); [by apply IH|]. by apply relay_release_ok, IH.
    + unfold Traversal_Start. repeat case_match; try done. intros r0 Hr0. cbn in Hr0.
      destruct (t_relay s) as [r|] eqn:Er; [|done]. injection Hr0 as <-. by apply relay_start_ok, IH.
    + unfold Traversal_Stop. destruct (negb _); [done|]. intros r0 Hr0. cbn in Hr0.
      destruct (t_relay s) as [r|] eqn:Er; [|done]. injection Hr0 as <-. by apply relay_stop_ok, IH.
Qed.

(** ** The claims *)

(** [C24] The relay keeps strangers apart: whatever datagrams have arrived from
    whomever, and whatever the broker allocated or freed meanwhile, a datagram
    causes at most one other.  It goes back to its own source, or it is the datagram
    itself, forwarded on a live channel to one other address; and then both
    addresses have presented the channel's own token, which is not zero. *)
Theorem relay_isolates (cfg : TraversalServerConfig) (seen : list (list Z * InetAddress)) (s : TraversalServer)
  (data : list Z) (from : InetAddress) (now : Z)
  (Hreach : traversal_reachable cfg seen s) (Hfrom : address_ok from) :
  let out := (Loop (Received data (Some from)) now s).1 in
  (length out <= 1)%nat /\
  forall to bytes, (to, bytes) ∈ out ->
    to = from \/
    exists r c p, t_relay s = Some r /\ pairings_ r !! c = Some p /\ ReadRelayHeader (cut data) = Some c /\
      bytes = cut data /\ to <> from /\ token p <> 0 /\
      presented seen from (token p) /\ presented seen to (token p).
Proof.
  pose proof (traversal_reachable_ok _ _ _ Hreach) as Hok. destruct (Loop_spec seen data from now s Hok Hfrom) as [Ha _].
  cbv zeta. destruct Ha as [|nonce|r c p Er Ep Et Hn|r c p other Er Ec Ep H1 H2 Hne]; (split; [cbn; lia|]); intros to bytes Hin.
  - by apply not_elem_of_nil in Hin.
  - apply list_elem_of_singleton in Hin as [= -> ->]. by left.
  - apply list_elem_of_singleton in Hin as [= -> ->]. by left.
  - apply list_elem_of_singleton in Hin as [= -> ->]. right. exists r, c, p. destruct (rl_pairing _ _ (Hok r Er) c p Ep) as [_ _ Ht Hb _ _].
    destruct (Hb _ H1), (Hb _ H2). by split_and!.
Qed.

(** The traversal port cannot amplify: what a datagram makes the server send
    is no larger than the datagram, but for the 21 bytes that answer a bind
    presenting a live token. *)
Theorem traversal_never_amplifies (cfg : TraversalServerConfig) (seen : list (list Z * InetAddress)) (s : TraversalServer)
  (data : list Z) (from : InetAddress) (now : Z) (to : InetAddress) (bytes : list Z)
  (Hreach : traversal_reachable cfg seen s) (Hfrom : address_ok from)
  (Hsent : (to, bytes) ∈ (Loop (Received data (Some from)) now s).1) :
  zlen bytes <= zlen (cut data) \/
  zlen bytes = 21 /\ to = from /\
  exists r c p, t_relay s = Some r /\ pairings_ r !! c = Some p /\ token p = BindToken (cut data) /\ BindToken (cut data) <> 0.
Proof.
  pose proof (traversal_reachable_ok _ _ _ Hreach) as Hok. destruct (Loop_spec seen data from now s Hok Hfrom) as [Ha _].
  destruct Ha as [|nonce Hz|r c p Er Ep Et Hn|r c p other Er Ec Ep H1 H2 Hne].
  - by apply not_elem_of_nil in Hsent.
  - apply list_elem_of_singleton in Hsent as [= -> ->]. left. destruct (BuildReflected_bytes nonce from Hfrom) as (_ & _ & Hl).
    unfold kZDTReflectSize in Hz. lia.
  - apply list_elem_of_singleton in Hsent as [= -> ->]. right. destruct (BuildRelayBound_bytes (BindToken (cut data)) c) as (_ & _ & ->).
    split; [done|]. split; [done|]. by exists r, c, p.
  - apply list_elem_of_singleton in Hsent as [= -> ->]. by left.
Qed.

(** Allocating returns and never hands out what is in use: while the relay
    runs, holds fewer pairings than its cap and the cap is within the channel space,
    the walk over the channels ends within one step more than there are pairings,
    and the pairing has a channel and a token no live pairing has. *)
Theorem allocate_returns (cfg : TraversalServerConfig) (seen : list (list Z * InetAddress)) (s : TraversalServer)
  (r : Relay) (draws : list Z) (now : Z)
  (Hreach : traversal_reachable cfg seen s) (Hr : t_relay s = Some r) (Hrun : running_ r = true)
  (Hroom : Z.of_nat (size (pairings_ r)) < max_allocations (config_ r))
  (Hcap : max_allocations (config_ r) <= kZDTMaxRelayChannel)
  (Hdraws : is_Some (fresh_token draws (channels_by_token_ r))) :
  exists c t r', Allocate (S (size (pairings_ r))) draws now r = Some (Success, Some (c, t), r') /\
    1 <= c <= kZDTMaxRelayChannel /\ t <> 0 /\
    (forall c' p, pairings_ r !! c' = Some p -> c' <> c /\ token p <> t) /\
    pairings_ r' = <[c := mkPairing c t None None now now]> (pairings_ r) /\
    Z.of_nat (size (pairings_ r')) <= max_allocations (config_ r).
Proof.
  pose proof (traversal_reachable_ok _ _ _ Hreach r Hr) as Hok.
  destruct (free_channel_returns (next_channel_ r) (pairings_ r) (rl_next _ _ Hok) ltac:(lia)) as (c & Ec & Hn & Hc).
  destruct Hdraws as [t Et].
  assert (E : exists r', Allocate (S (size (pairings_ r))) draws now r = Some (Success, Some (c, t), r')).
  { unfold Allocate. rewrite Hrun. cbn [negb]. destruct (Z.leb_spec (max_allocations (config_ r)) (Z.of_nat (size (pairings_ r)))); [lia|].
    rewrite Ec, Et. by eexists. }
  destruct E as [r' E]. exists c, t, r'. split; [done|].
  destruct (relay_allocate_ok seen _ _ _ _ _ _ _ Hok E) as [Hok' [ [? _]|(c0 & t0 & [= <- <-] & _ & _ & Hfree & _ & Ht & _ & _ & Ep)] ]; [done|].
  split_and!; try done; try lia.
  - intros c' p Hp. split; [intros ->; congruence|]. intros <-. by rewrite (rl_token _ _ Hok c' p Hp) in Hfree.
  - rewrite Ep, map_size_insert, Hn. cbn. lia.
Qed.

(** ** A pairing at work *)

Lemma classify_bind r t from now s :
  t_relay s = Some r ->
  classify (bind_image t) from now s = let '(out, r') := OnBind (bind_image t) from now r in (out, with_relay r' s).
Proof.
  intros Er. unfold classify, bind_image. destruct (offline_kind RelayBind (enc BigEndian 8 t)) as [-> ->].
  by rewrite bool_decide_true, Er by done.
Qed.

Lemma classify_wrapped r c data from now s :
  t_relay s = Some r -> 0 < c <= kZDTMaxRelayChannel ->
  classify (wrapped_image c data) from now s =
  let '(out, r') := OnForward c (wrapped_image c data) from now r in (out, with_relay r' s).
Proof. intros Er Hc. unfold classify. by rewrite wrapped_kind, Er by done. Qed.

Lemma OnBind_image t c p from now r :
  0 < t < 2 ^ 64 -> channels_by_token_ r !! t = Some c -> pairings_ r !! c = Some p -> token p = t -> channel p = c ->
  OnBind (bind_image t) from now r =
  match (match slot_of p from with
         | Some _ => Some p
         | None => match slot0 p, slot1 p with
                   | None, _ => Some (mkPairing c t (Some from) (slot1 p) (created p) (last_traffic p))
                   | Some _, None => Some (mkPairing c t (slot0 p) (Some from) (created p) (last_traffic p))
                   | Some _, Some _ => None
                   end
         end) with
  | None => ([], set_pairings (<[c := p]> (pairings_ r)) r)
  | Some p => ([(from, bound_image t c)], set_pairings (<[c := touch now p]> (pairings_ r)) r)
  end.
Proof.
  intros Ht Ec Ep Et Eh. unfold OnBind. rewrite BindToken_image by lia. destruct (Z.eqb_spec t 0); [lia|]. cbn [negb].
  rewrite Ec, Ep. change (default Pairing_default (Some p)) with p. rewrite Et, Eh.
  destruct (slot_of p from); [|destruct (slot0 p), (slot1 p)]; try done; cbn [token channel touch]; rewrite ?Et, ?Eh;
    by rewrite (proj1 (BuildRelayBound_bytes t c)).
Qed.

(** A pairing joins exactly its two peers: on a fresh pairing the first two
    sources to present its token are bound and told its channel; from then on what
    either sends on the channel is forwarded to the other byte for byte, and a third
    source is refused, whether it presents the token or sends on the channel. *)
Theorem relay_joins_two (cfg : TraversalServerConfig) (seen : list (list Z * InetAddress)) (s : TraversalServer) (r : Relay)
  (c : Z) (p : Pairing) (a b x : InetAddress) (t1 t2 t3 : Z) (data : list Z)
  (Hreach : traversal_reachable cfg seen s) (Hr : t_relay s = Some r) (Hp : pairings_ r !! c = Some p)
  (Ht : 0 < token p < 2 ^ 64) (Hfresh : slot0 p = None)
  (Ha : address_ok a) (Hb : address_ok b) (Hx : address_ok x) (Hab : a <> b) (Hxa : x <> a) (Hxb : x <> b) :
  let first := classify (bind_image (token p)) a t1 s in
  let second := classify (bind_image (token p)) b t2 first.2 in
  let joined := second.2 in
  first.1 = [(a, bound_image (token p) c)] /\ second.1 = [(b, bound_image (token p) c)] /\
  (classify (wrapped_image c data) a t3 joined).1 = [(b, wrapped_image c data)] /\
  (classify (wrapped_image c data) b t3 joined).1 = [(a, wrapped_image c data)] /\
  (classify (bind_image (token p)) x t3 joined).1 = [] /\ (classify (wrapped_image c data) x t3 joined).1 = [].
Proof.
  pose proof (traversal_reachable_ok _ _ _ Hreach r Hr) as Hok.
  pose proof (rl_token _ _ Hok c p Hp) as Ek. destruct (rl_pairing _ _ Hok c p Hp) as [Ec Hc _ _ Ho _].
  pose proof (Ho Hfresh) as Hs1. set (t := token p) in *.
  set (p1 := mkPairing c t (Some a) None (created p) t1). set (p2 := mkPairing c t (Some a) (Some b) (created p) t2).
  set (r1 := set_pairings (<[c := p1]> (pairings_ r)) r). set (r2 := set_pairings (<[c := p2]> (pairings_ r1)) r1).
  assert (E1 : classify (bind_image t) a t1 s = ([(a, bound_image t c)], with_relay r1 s)).
  { rewrite (classify_bind r) by done. rewrite (OnBind_image t c p) by done.
    rewrite slot_of_addresses by (try done; intros y [Hy|Hy]; congruence).
    rewrite !bool_decide_false by congruence. rewrite Hfresh, Hs1. done. }
  assert (E2 : classify (bind_image t) b t2 (with_relay r1 s) = ([(b, bound_image t c)], with_relay r2 (with_relay r1 s))).
  { rewrite (classify_bind r1) by done. rewrite (OnBind_image t c p1) by (done || by (cbn; rewrite lookup_insert_eq)).
    rewrite slot_of_addresses by (try done; intros y [Hy|Hy]; cbn in Hy; congruence).
    rewrite !bool_decide_false by (cbn; congruence). done. }
  cbv zeta. rewrite E1. cbn [fst snd]. rewrite E2. cbn [fst snd]. split; [done|]. split; [done|].
  assert (Er2 : t_relay (with_relay r2 (with_relay r1 s)) = Some r2) by done.
  assert (Ep2 : pairings_ r2 !! c = Some p2) by (cbn; by rewrite lookup_insert_eq).
  assert (Hslot : forall y, address_ok y -> slot_of p2 y = if bool_decide (Some a = Some y) then Some false
                   else if bool_decide (Some b = Some y) then Some true else None).
  { intros y Hy. rewrite slot_of_addresses; [done|done|]. intros z [Hz|Hz]; cbn in Hz; congruence. }
  rewrite !(classify_wrapped r2) by (done || lia). unfold OnForward. rewrite Ep2, !Hslot by done.
  rewrite bool_decide_true by done. rewrite (bool_decide_false (Some a = Some b)) by congruence.
  rewrite (bool_decide_true (Some b = Some b)) by done. rewrite !bool_decide_false by congruence.
  rewrite (classify_bind r2) by done. rewrite (OnBind_image t c p2) by done. rewrite Hslot, !bool_decide_false by (done || congruence).
  done.
Qed.

End Server.
