(* ===== verification/PunchTheorems.v ===== *)
(** * What a punch promises

    Exactly one of two peers initiates, two machines that hear each other end with
    mirrored connections whether directly or through a relay, and a reflector tells
    a probe the address it is seen at. *)

From S2P Require Import Prelude Buffer BufferSpec BufferCodecs ZdtWire ZdtWireSpec ZdtOffline InetAddr InetAddrTheorems Admission ZdtCookie ZdtOptions ZdtState ZdtSend ZdtTransport ZdtServer ZdtClient ZdtMessages P2pPunch Traversal P2pMessages.

(** ** The tiebreak *)

Lemma string_lt_total a : forall b, a <> b -> string_lt a b = negb (string_lt b a).
Proof.
  induction a as [|x a IH]; intros [|y b] Hne; try done. cbn [string_lt].
  destruct (Z.ltb_spec x y), (Z.ltb_spec y x); try lia; try done.
  assert (x = y) as -> by lia. apply IH. congruence.
Qed.

Lemma IsInitiator_one id a b : a <> b -> IsInitiator id a b = negb (IsInitiator id b a).
Proof.
  intros Hne. unfold IsInitiator. rewrite (string_lt_total a b Hne). by destruct (_ =? 0), (string_lt b a).
Qed.

Module PunchTheorems.
Import Punch.

Section Machine.
Context `{P : Platform} `{!AmplePlatform P} `{I : Inet}.

(** The states a punch goes through until it concludes. *)
Inductive punch_reachable (offer : PunchOffer) (now : Z) (migration : bool) (guid : Z) : ZDTPunch -> Prop :=
  | pr_new : punch_reachable offer now migration guid (ZDTPunch_new offer now migration guid)
  | pr_tick t p : punch_reachable offer now migration guid p -> state (Tick t p).1.1 = Pending ->
      punch_reachable offer now migration guid (Tick t p).2
  | pr_datagram from chan data p : punch_reachable offer now migration guid p ->
      state (OnDatagram from chan data p).1.1 = Pending ->
      punch_reachable offer now migration guid (OnDatagram from chan data p).2.

Record punch_inv (offer : PunchOffer) (now : Z) (migration : bool) (guid : Z) (p : ZDTPunch) : Prop := {
  pi_offer : offer_ p = offer;
  pi_migration : local_migration_ p = migration;
  pi_direct : direct_ p = direct_ (ZDTPunch_new offer now migration guid);
  pi_mtu : conn_mtu (connection_ p) = 1200;
  pi_guid : local_guid (connection_ p) = guid;
  pi_channel : relay_channel (connection_ p) = 0;
  pi_deadline : deadline_ p = now + ms (timeout offer);
  pi_relay_start : relay_start_ p = now + ms (relay_delay offer)
}.

Lemma Tick_inv offer now migration guid t p :
  punch_inv offer now migration guid p -> punch_inv offer now migration guid (Tick t p).2.
Proof.
  intros []. unfold Tick. destruct (_ <=? _); [by split|].
  destruct (kPunchInterval <? _); destruct (_ && _); by split.
Qed.

Lemma OnRelayBound_inv offer now migration guid from b p :
  punch_inv offer now migration guid p -> punch_inv offer now migration guid (OnRelayBound from b p).
Proof.
  intros []. unfold OnRelayBound. destruct (_ <? _); [by split|]. destruct (ReadInt 8 b) as [token b1].
  destruct (ReadInt 4 b1) as [channel b2]. destruct (_ || _); by split.
Qed.

Lemma OnDatagram_inv offer now migration guid from chan data p :
  punch_inv offer now migration guid p -> state (OnDatagram from chan data p).1.1 = Pending ->
  punch_inv offer now migration guid (OnDatagram from chan data p).2.
Proof.
  intros Hp. unfold OnDatagram. destruct (bool_decide _); [done|].
  destruct (has_flag _ _); [destruct (_ || _); done|].
  destruct (ReadOfflineHeader _) as [ [id|] b]; [|done].
  destruct (id =? offline_id ZdtWire.Punch); [done|].
  destruct (id =? offline_id RelayBound); [intros _; by apply OnRelayBound_inv|].
  destruct (negb _ && _).
  - destruct (ReadInt 1 b) as [version b1]. destruct (negb _); [done|].
    destruct (ReadInt 8 b1) as [remote b2], (ReadInt 1 b2) as [cap b3]. intros _. by destruct Hp.
  - destruct (_ && _).
    + destruct (ReadInt 8 b) as [remote b1], (ReadInt 2 b1) as [mtu b2], (ReadInt 1 b2) as [cap b3]. done.
    + by destruct (_ && _).
Qed.

Lemma punch_reachable_inv offer now migration guid p :
  punch_reachable offer now migration guid p -> punch_inv offer now migration guid p.
Proof. induction 1; [by split|by apply Tick_inv|by apply OnDatagram_inv]. Qed.

(** ** The handshake *)

Definition cap (migration : bool) : Z := if migration then kZDTCapMigration else 0.

Lemma cap_flag b : 0 <= cap b < 256 /\ has_flag (cap b) kZDTCapMigration = b.
Proof. by destruct b. Qed.

(** What the initiator asks is answered. *)
Lemma OnDatagram_request from chan guid migration p :
  is_initiator (offer_ p) = false -> 0 <= guid < 2 ^ 64 ->
  OnDatagram from chan (request_image guid (cap migration)) p =
  (PunchOutcome_default,
   [SendDatagram from chan (BuildReply2 (local_guid (connection_ p)) (conn_mtu (connection_ p)) (cap (local_migration_ p)))],
   set_answered true (set_connection (mkConnection (conn_mtu (connection_ p)) (local_guid (connection_ p)) guid
     (local_migration_ p && migration) (relay_channel (connection_ p))) p)).
Proof.
  intros Hi Hg. destruct (BuildRequest1_bytes guid (cap migration)) as (_ & Hok & Hz).
  destruct (cap_flag migration) as [Hc Hflag]. unfold OnDatagram.
  replace (bool_decide (request_image guid (cap migration) = [])) with false.
  2: { symmetry. apply bool_decide_eq_false. intros E. by rewrite E in Hz. }
  pose proof (reads_from _ Hok ltac:(lia)) as Hr. unfold request_image in Hr |- *. rewrite offline_first by (cbn; lia).
  destruct (reads_header _ _ _ Hr ltac:(cbn; lia)) as (b1 & -> & H1 & _).
  change (offline_id OpenConnectionRequest1 =? offline_id ZdtWire.Punch) with false.
  change (offline_id OpenConnectionRequest1 =? offline_id RelayBound) with false. rewrite Hi, Z.eqb_refl. cbn [negb andb].
  destruct (reads_int 1 _ _ b1 H1) as (b2 & -> & H2); [lia|unfold kZDTProtocolVersion; lia|]. rewrite Z.eqb_refl. cbn [negb].
  destruct (reads_int 8 _ _ b2 H2) as (b3 & -> & H3); [lia..|].
  rewrite <- (app_nil_r (enc BigEndian 1 _)) in H3. destruct (reads_int 1 _ _ b3 H3) as (b4 & -> & _); [lia..|].
  by rewrite Hflag.
Qed.

(** The answer completes the initiator. *)
Lemma OnDatagram_reply from chan guid mtu migration p :
  is_initiator (offer_ p) = true -> 0 <= guid < 2 ^ 64 -> 0 < mtu < 65536 ->
  OnDatagram from chan (reply_image guid mtu (cap migration)) p =
  (mkOutcome Completed false Success (Some from) chan None, [],
   set_connection (mkConnection (Z.min (conn_mtu (connection_ p)) mtu) (local_guid (connection_ p)) guid
     (local_migration_ p && migration) (relay_channel (connection_ p))) p).
Proof.
  intros Hi Hg Hm. destruct (BuildReply2_bytes guid mtu (cap migration)) as (_ & Hok & Hz).
  destruct (cap_flag migration) as [Hc Hflag]. unfold OnDatagram.
  replace (bool_decide (reply_image guid mtu (cap migration) = [])) with false.
  2: { symmetry. apply bool_decide_eq_false. intros E. by rewrite E in Hz. }
  pose proof (reads_from _ Hok ltac:(lia)) as Hr. unfold reply_image in Hr |- *. rewrite offline_first by (cbn; lia).
  destruct (reads_header _ _ _ Hr ltac:(cbn; lia)) as (b1 & -> & H1 & _).
  change (offline_id OpenConnectionReply2 =? offline_id ZdtWire.Punch) with false.
  change (offline_id OpenConnectionReply2 =? offline_id RelayBound) with false. rewrite Hi, Z.eqb_refl. cbn [negb andb].
  destruct (reads_int 8 _ _ b1 H1) as (b2 & -> & H2); [lia..|].
  destruct (reads_int 2 _ _ b2 H2) as (b3 & -> & H3); [lia..|].
  rewrite <- (app_nil_r (enc BigEndian 1 _)) in H3. destruct (reads_int 1 _ _ b3 H3) as (b4 & -> & _); [lia..|].
  rewrite Hflag. destruct (Z.eqb_spec mtu 0); [lia|done].
Qed.

(** An address the punch sends to at [now], directly or on a relay's channel. *)
Definition active (p : ZDTPunch) (now : Z) (a : InetAddress) (chan : Z) : Prop :=
  chan = 0 /\ (exists c, c ∈ direct_ p /\ c_address c = Some a) \/
  chan <> 0 /\ relay_start_ p <= now /\
    exists r, r ∈ relays_ p /\ r_channel r = chan /\ c_address (candidate r) = Some a.

Lemma active_sent p now a chan d bs :
  active p now a chan -> datagram_bytes d = bs -> bytes_ok bs -> zlen bs < 2 ^ 30 ->
  (a, if chan =? 0 then bs else wrapped_image chan bs) ∈ SendToActive d now p.
Proof.
  intros Hact Eb Hok Hz. destruct (SendDatagram_bytes a chan d bs Eb Hok Hz) as [Es _]. unfold SendToActive.
  destruct Hact as [ [-> (c & Hc & Ea)]|(Hn & Hst & r & Hr & Er & Ea)]; apply elem_of_app.
  - left. apply list_elem_of_omap. exists c. split; [done|]. by rewrite Ea, <- Eb.
  - right. apply list_elem_of_omap. exists r. split; [done|]. unfold RelayActive. rewrite Er.
    destruct (Z.eqb_spec chan 0) as [|_]; [done|]. cbn [negb andb].
    replace (relay_start_ p <=? now) with true by (symmetry; by apply Z.leb_le). by rewrite Ea, <- Es.
Qed.

(** Binding leaves the bound relays as they are. *)
Lemma bind_active p now a chan : active p now a chan -> active (set_relays (map fst (map (bind_relay now) (relays_ p))) p) now a chan.
Proof.
  intros [H|(Hn & Hst & r & Hr & Er & Ea)]; [by left|]. right. split; [done|]. split; [done|]. exists r. split; [|done].
  cbn. rewrite map_map. apply list_elem_of_fmap. exists r. split; [|done]. unfold bind_relay. rewrite Er.
  by destruct (Z.eqb_spec chan 0).
Qed.

(** An initiator asks every active address again and again. *)
Lemma Tick_requests p now a chan :
  is_initiator (offer_ p) = true -> now < deadline_ p -> kRequestInterval < now - last_request_ p -> active p now a chan ->
  let request := request_image (local_guid (connection_ p)) (cap (local_migration_ p)) in
  (a, if chan =? 0 then request else wrapped_image chan request) ∈ (Tick now p).1.2 /\ state (Tick now p).1.1 = Pending.
Proof.
  intros Hi Hd Hq Hact. cbv zeta. destruct (BuildRequest1_bytes (local_guid (connection_ p)) (cap (local_migration_ p))) as (Eb & Hok & Hz).
  unfold Tick. destruct (Z.leb_spec (deadline_ p) now); [lia|]. apply bind_active in Hact.
  set (p1 := set_relays _ p) in *. destruct (kPunchInterval <? _); cbn [offer_ set_relays set_last_punch last_request_ p1];
    rewrite Hi; replace (kRequestInterval <? now - last_request_ p) with true by (symmetry; by apply Z.ltb_lt); cbn [andb];
    (split; [|done]); cbn [fst snd]; apply elem_of_app; right.
  - by apply (active_sent (set_last_punch now p1) now a chan (BuildRequest1 _ (cap (local_migration_ p))) _ Hact Eb Hok ltac:(lia)).
  - by apply (active_sent p1 now a chan (BuildRequest1 _ (cap (local_migration_ p))) _ Hact Eb Hok ltac:(lia)).
Qed.

(** [C23] Two punches that hear each other connect.  Whatever the punch id, the names
    the broker gave the two peers make exactly one of them the initiator.  Where that
    is [x] (the other case is the same with the peers exchanged), then while it runs it
    sends its request to every active address, directly or wrapped for the relay
    channel.  The other, in whatever state its own punch is, answers to where the
    request came from; the answer completes the initiator, the first online datagram
    completes the other, and the two connections mirror each other. *)
Theorem punch_connects (id : Z) (name_x name_y : list Z) (ox oy : PunchOffer) (tx ty : Z) (mx my : bool) (gx gy : Z)
  (px py : ZDTPunch) (now : Z) (x y : InetAddress) (chan : Z) (online : list Z)
  (Hnames : name_x <> name_y) (Hrx : is_initiator ox = IsInitiator id name_x name_y)
  (Hry : is_initiator oy = IsInitiator id name_y name_x)
  (Hgx : 0 <= gx < 2 ^ 64) (Hgy : 0 <= gy < 2 ^ 64)
  (Hx : punch_reachable ox tx mx gx px) (Hy : punch_reachable oy ty my gy py)
  (Hnow : now < deadline_ px) (Hdue : kRequestInterval < now - last_request_ px) (Hact : active px now y chan)
  (Honline : has_flag (byte_at online 0) kFlagOnline = true) :
  let wrap bs := if chan =? 0 then bs else wrapped_image chan bs in
  let asked := OnDatagram x chan (request_image gx (cap mx)) py in
  let answered := OnDatagram y chan (reply_image gy 1200 (cap my)) (Tick now px).2 in
  let greeted := OnDatagram x chan online asked.2 in
  (is_initiator ox = true /\ is_initiator oy = false \/ is_initiator ox = false /\ is_initiator oy = true) /\
  (is_initiator ox = true ->
  (y, wrap (request_image gx (cap mx))) ∈ (Tick now px).1.2 /\
  state asked.1.1 = Pending /\ asked.1.2 = [(x, wrap (reply_image gy 1200 (cap my)))] /\
  answered.1.1 = mkOutcome Completed false Success (Some y) chan None /\
  connection_ answered.2 = mkConnection 1200 gx gy (mx && my) 0 /\
  greeted.1.1 = mkOutcome Completed false Success (Some x) chan (Some online) /\
  connection_ greeted.2 = mkConnection 1200 gy gx (mx && my) 0).
Proof.
  cbv zeta. split; [rewrite Hrx, Hry, (IsInitiator_one id name_x name_y) by done; destruct (IsInitiator id name_y name_x); auto|]. intros Hfirst.
  pose proof (punch_reachable_inv _ _ _ _ _ Hx) as Ix. pose proof (punch_reachable_inv _ _ _ _ _ Hy) as Iy.
  assert (Hsecond : is_initiator oy = false).
  { rewrite Hry, IsInitiator_one by done. by rewrite <- Hrx, Hfirst. }
  destruct (Tick_requests px now y chan) as [Hreq Hpend]; [by rewrite (pi_offer _ _ _ _ _ Ix)|done..|].
  pose proof (Tick_inv _ _ _ _ now px Ix) as Ix'.
  destruct Ix as [_ Emx _ _ Egx _ _ _], Ix' as [Eox' Emx' _ Emtux' Egx' Ecx' _ _], Iy as [Eoy Emy _ Emtuy Egy Ecy _ _].
  rewrite Emx, Egx in Hreq. split; [exact Hreq|].
  rewrite (OnDatagram_request x chan gx mx py) by (by rewrite ?Eoy). cbn [fst snd]. rewrite Egy, Emtuy, Emy, Ecy.
  destruct (BuildReply2_bytes gy 1200 (cap my)) as (Eb & Hok & Hz).
  destruct (SendDatagram_bytes x chan _ _ Eb Hok ltac:(lia)) as [-> _].
  rewrite (OnDatagram_reply y chan gy 1200 my) by (by rewrite ?Eox' || lia). cbn [fst snd].
  split; [done|]. split; [done|]. split; [done|]. split; [cbn; by rewrite Emtux', Egx', Emx', Ecx'|].
  unfold OnDatagram. replace (bool_decide (online = [])) with false.
  2: { symmetry. apply bool_decide_eq_false. by intros ->. }
  rewrite Honline. cbn [set_answered set_connection offer_ answered_]. rewrite Eoy, Hsecond. cbn [orb negb fst snd connection_].
  split; [done|]. by rewrite andb_comm.
Qed.

End Machine.
End PunchTheorems.

(** ** Probing a reflector *)

Section Probe.
Context `{P : Platform} `{!AmplePlatform P} `{I : Inet} `{!InetLaws I}.
Import Gather.

Lemma InetAddress_eq_refl a : address_ok a -> InetAddress_eq a a = true.
Proof. intros Ha. rewrite InetAddress_eq_spec by done. by apply bool_decide_true. Qed.

(** The first unanswered target of a reflector with a nonce of its own. *)
Lemma take_answer_found from n seen t ts1 ts2 :
  Forall (fun t => answered t = true \/ nonce t <> n \/ InetAddress_eq (reflector t) from = false) ts1 ->
  answered t = false -> nonce t = n -> InetAddress_eq (reflector t) from = true ->
  take_answer from n seen (ts1 ++ t :: ts2) =
  Some (ts1 ++ mkTarget (reflector t) (nonce t) true (last_sent t) (Some seen) :: ts2).
Proof.
  intros H Ha Hn Hr. induction H as [|u ts1 Hu H IH]; cbn [app take_answer].
  - by rewrite Ha, Hn, Z.eqb_refl, Hr.
  - replace (answered u || negb (nonce u =? n) || negb (InetAddress_eq (reflector u) from)) with true; [by rewrite IH|].
    symmetry. destruct Hu as [->|[Hu| ->] ]; [done| |by rewrite orb_true_r].
    destruct (Z.eqb_spec (nonce u) n); [done|]. by rewrite orb_true_r.
Qed.

(** Gathering learns the mapping the reflector sees: a probe that is due is
    sent as 64 bytes; when it reaches a reflector that admits its source, the answer
    names the source address the reflector saw, and the probe that takes it records
    that address for that reflector and offers it as a reflexive candidate, once. *)
Theorem gather_learns_mapping (p : ReflectProbe) (ts1 ts2 : list Target) (t : Target) (now now' : Z) (mapped : InetAddress)
  (throttle : AdmissionControl)
  (Ht : targets_ p = ts1 ++ t :: ts2) (Hdue : probe_due now t = true)
  (Hfirst : Forall (fun u => nonce u <> nonce t) ts1) (Hnonce : 0 <= nonce t < 2 ^ 64)
  (Hat : address_ok (reflector t)) (Hmap : address_ok mapped)
  (Hadmit : (Admit now' mapped throttle).1 = Allow) :
  let sent := Tick now p in
  let probe := reflect_image (nonce t) in
  let answer := reflected_image (nonce t) mapped in
  let p' := OnDatagram (reflector t) answer sent.2 in
  (reflector t, probe) ∈ sent.1.2 /\ zlen answer <= zlen probe /\
  (OnReflect now' probe mapped throttle).1 = [(mapped, answer)] /\
  mkTarget (reflector t) (nonce t) true now (Some mapped) ∈ targets_ p' /\
  ContainsAddress (reflexive_ p') mapped = true /\
  (ContainsAddress (reflexive_ p) mapped = true -> reflexive_ p' = reflexive_ p).
Proof.
  cbv zeta. destruct (BuildReflect_bytes (nonce t)) as (Ep & Hpok & Hpz).
  destruct (BuildReflected_bytes (nonce t) mapped Hmap) as (Ea & Haok & Haz).
  split.
  { unfold Tick. cbn [fst snd]. apply list_elem_of_fmap. exists t. split; [by rewrite Ep|].
    apply list_elem_of_In, List.filter_In. rewrite Ht. split; [apply in_or_app; right; by left|done]. }
  split; [rewrite Hpz; unfold kZDTReflectSize; lia|]. split.
  { unfold OnReflect. rewrite Hpz, Z.ltb_irrefl. destruct (Admit now' mapped throttle) as [v th]. cbn [fst] in Hadmit. subst v.
    rewrite bool_decide_true by done. cbn [negb fst].
    assert (En : ReadBigEndian64 (drop (Z.to_nat kZDTOfflineHeaderSize) (reflect_image (nonce t))) = nonce t).
    { unfold reflect_image. rewrite drop_app_length' by (pose proof (zlen_offline_image (offline_id Reflect)); unfold kZDTOfflineHeaderSize; lia).
      rewrite ReadBigEndian64_dec, dec_enc by (lia || apply enc_bytes_ok || (pose proof (zlen_enc BigEndian 8 (nonce t)); lia)). done. }
    by rewrite En, Ea. }
  set (upd := fun t => if probe_due now t then mkTarget (reflector t) (nonce t) (answered t) now (observed t) else t).
  assert (Hun : answered t = false) by (unfold probe_due in Hdue; by destruct (answered t)).
  unfold OnDatagram. pose proof (reads_from _ Haok ltac:(lia)) as Hr. unfold reflected_image in Hr |- *.
  destruct (reads_header _ _ _ Hr ltac:(cbn; lia)) as (b1 & -> & H1 & _). rewrite Z.eqb_refl. cbn [negb orb].
  replace (readable_bytes b1 <? 8) with false.
  2: { symmetry. apply Z.ltb_ge. destruct H1 as [Hw _ Ha1]. rewrite readable_avail, Ha1 by done. zlen_tac. lia. }
  destruct (reads_int 8 _ _ b1 H1) as (b2 & -> & H2); [lia..|].
  rewrite <- (app_nil_r (address_image mapped)) in H2. destruct (reads_address _ _ b2 H2 Hmap) as (b3 & -> & _).
  replace (is_valid mapped) with true by (destruct mapped; [done|done|by destruct Hmap]). cbn [negb].
  assert (Etake : take_answer (reflector t) (nonce t) mapped (targets_ (Tick now p).2) =
    Some (map upd ts1 ++ mkTarget (reflector t) (nonce t) true now (Some mapped) :: map upd ts2)).
  { unfold Tick. cbn [targets_ snd]. fold upd. rewrite Ht, map_app. cbn [map].
    assert (Eu : upd t = mkTarget (reflector t) (nonce t) false now (observed t)) by (unfold upd; by rewrite Hdue, Hun).
    rewrite Eu, take_answer_found; cbn; [done| |done|done|by apply InetAddress_eq_refl].
    apply Forall_map. eapply Forall_impl; [exact Hfirst|]. intros u Hu. right. left. unfold upd. by destruct (probe_due now u). }
  rewrite Etake. cbn [targets_ reflexive_]. split; [apply elem_of_app; right; by left|].
  change (reflexive_ (Tick now p).2) with (reflexive_ p).
  destruct (ContainsAddress (reflexive_ p) mapped) eqn:Ec; split; try done.
  unfold ContainsAddress. rewrite existsb_app. cbn [existsb names c_address]. rewrite InetAddress_eq_refl by done. by rewrite orb_true_r.
Qed.

End Probe.
