(* ===== verification/RendezvousWire.v ===== *)
(** * The rendezvous protocol (p2p/rendezvous.h)

    The packets a peer and its broker exchange over the rendezvous link, and the
    codec of them.  An address a packet holds may be null in the code; the writers
    dereference it, so here they write nothing for a null one, which no sender in
    the program has. *)

From Stdlib Require Import String.
From S2P Require Import Prelude Buffer BufferSpec BufferCodecs Codec InetAddr ZdtOptions P2pPunch.
Import Codec.

#[local] Open Scope Z_scope.

Inductive ConnectionType := TCP | ZDT.

#[export] Instance ConnectionType_eq_dec : EqDecision ConnectionType.
Proof. solve_decision. Defined.

Definition kRendezvousProtocolVersion : Z := 2.
Definition kMaxReflectors : nat := 8.

Definition IsUnspecifiedHost (a : InetAddress) : bool :=
  let key := host_key a in
  if bool_decide (key = []) then false else forallb (Z.eqb 0) key.

Record WelcomePacket := mkWelcome {
  protocol_version_ : Z;
  peer_name_ : list Z;
  endpoint_ : option InetAddress;
  reflectors_ : list (option InetAddress);
  welcome_type_ : ConnectionType
}.

Record GatheringPacket := mkGathering { punch_port_ : Z; gathered_ : list Candidate }.

Record PunchOfferPacket := mkPunchOffer {
  offer_peer_ : list Z;
  punch_id_ : Z;
  offer_type_ : ConnectionType;
  offered_ : list Candidate
}.

Inductive RPacket :=
  | PWelcome (p : WelcomePacket)
  | PGathering (p : GatheringPacket)
  | PConnectPeer (target_peer : list Z)
  | PPunchOffer (p : PunchOfferPacket)
  | PPeerNotFound (target_peer : list Z)
  | PRepunchRequest (from_peer : list Z).

Definition kPacketWelcome : Z := 0.
Definition kPacketGathering : Z := 1.
Definition kPacketConnectPeer : Z := 2.
Definition kPacketPunchOffer : Z := 3.
Definition kPacketPeerNotFound : Z := 4.
Definition kPacketRepunchRequest : Z := 5.

Definition packet_id (p : RPacket) : Z :=
  match p with
  | PWelcome _ => kPacketWelcome | PGathering _ => kPacketGathering | PConnectPeer _ => kPacketConnectPeer
  | PPunchOffer _ => kPacketPunchOffer | PPeerNotFound _ => kPacketPeerNotFound
  | PRepunchRequest _ => kPacketRepunchRequest
  end.

Section Wire.
Context `{P : Platform}.

Definition WriteAddress (a : option InetAddress) (b : Buffer) : Buffer :=
  match a with Some a => WriteInetAddress a b | None => b end.

Definition WriteEndpoints (endpoints : list (option InetAddress)) (cap : nat) (b : Buffer) : Buffer :=
  let count := Nat.min (length endpoints) cap in
  let b := WriteInt 1 (u8 (Z.of_nat count)) b in
  foldl (fun b a => WriteAddress a b) b (take count endpoints).

Fixpoint read_endpoints (count : nat) (out : list (option InetAddress)) (b : Buffer)
  : bool * list (option InetAddress) * Buffer :=
  match count with
  | O => (true, out, b)
  | S count =>
      match ReadInetAddress b with
      | (Some a, b) => if port a =? 0 then (false, out, b) else read_endpoints count (out ++ [Some a]) b
      | (None, b) => (false, out, b)
      end
  end.

Definition ReadEndpoints (cap : nat) (b : Buffer) : bool * list (option InetAddress) * Buffer :=
  let '(count, b) := ReadInt 1 b in
  if Z.of_nat cap <? count then (false, [], b) else read_endpoints (Z.to_nat count) [] b.

Definition type_code (t : CandidateType) : Z := match t with Host => 0 | Reflexive => 1 | Relayed => 2 end.

Definition WriteCandidate (c : Candidate) (b : Buffer) : Buffer :=
  let b := WriteInt 1 (type_code (c_type c)) b in
  let b := WriteAddress (c_address c) b in
  if bool_decide (c_type c = Relayed) then WriteInt 8 (relay_token c) b else b.

Definition WriteCandidates (cs : list Candidate) (b : Buffer) : Buffer :=
  let count := Nat.min (length cs) kMaxCandidates in
  let b := WriteInt 1 (u8 (Z.of_nat count)) b in
  foldl (fun b c => WriteCandidate c b) b (take count cs).

(** One round of the loop; [None] refuses the frame. *)
Definition read_candidate (b : Buffer) : option Candidate * Buffer :=
  let '(raw_type, b) := ReadInt 1 b in
  if 2 <? raw_type then (None, b)
  else
    let t := if raw_type =? 0 then Host else if raw_type =? 1 then Reflexive else Relayed in
    let '(address, b) := ReadInetAddress b in
    match address with
    | None => (None, b)
    | Some a =>
        if port a =? 0 then (None, b)
        else
          let '(token, b) := if bool_decide (t = Relayed) then ReadInt 8 b else (0, b) in
          (Some (mkCandidate t (Some a) token), b)
    end.

Fixpoint read_candidates (count : nat) (out : list Candidate) (b : Buffer) : bool * list Candidate * Buffer :=
  match count with
  | O => (true, out, b)
  | S count =>
      match read_candidate b with
      | (None, b) => (false, out, b)
      | (Some c, b) => read_candidates count (out ++ [c]) b
      end
  end.

Definition ReadCandidates (b : Buffer) : bool * list Candidate * Buffer :=
  let '(count, b) := ReadInt 1 b in
  if Z.of_nat kMaxCandidates <? count then (false, [], b) else read_candidates (Z.to_nat count) [] b.

Definition connection_code (t : ConnectionType) : Z := match t with TCP => 0 | ZDT => 1 end.

Definition WriteConnectionType (t : ConnectionType) (b : Buffer) : Buffer := WriteInt 1 (connection_code t) b.

Definition ReadConnectionType (b : Buffer) : option ConnectionType * Buffer :=
  let '(raw_type, b) := ReadInt 1 b in
  if raw_type =? 0 then (Some TCP, b) else if raw_type =? 1 then (Some ZDT, b) else (None, b).

(** ** Serializers *)

Abbreviation Serializer := (PacketSerializer (Packet := RPacket)).

Definition WelcomeSerializer : Serializer :=
  mkSerializer
    (fun p b => match p with
       | PWelcome packet =>
           let b := WriteInt 1 (protocol_version_ packet) b in
           let b := WriteString (peer_name_ packet) b in
           let b := WriteAddress (endpoint_ packet) b in
           let b := WriteEndpoints (reflectors_ packet) kMaxReflectors b in
           SFramed (WriteConnectionType (welcome_type_ packet) b)
       | _ => SNothing
       end)
    (fun b =>
       let '(version, b) := ReadInt 1 b in
       let '(name, b) := ReadString b in
       match ReadInetAddress b with
       | (None, b) => (None, b)
       | (Some endpoint, b) =>
           match ReadEndpoints kMaxReflectors b with
           | (false, _, b) => (None, b)
           | (true, reflectors, b) =>
               match ReadConnectionType b with
               | (None, b) => (None, b)
               | (Some t, b) => (Some (PWelcome (mkWelcome version name (Some endpoint) reflectors t)), b)
               end
           end
       end).

Definition GatheringSerializer : Serializer :=
  mkSerializer
    (fun p b => match p with
       | PGathering packet => SFramed (WriteCandidates (gathered_ packet) (WriteInt 2 (u16 (punch_port_ packet)) b))
       | _ => SNothing
       end)
    (fun b =>
       let '(punch_port, b) := ReadInt 2 b in
       match ReadCandidates b with
       | (false, _, b) => (None, b)
       | (true, cs, b) => (Some (PGathering (mkGathering punch_port cs)), b)
       end).

(** The packets that hold one name. *)
Definition name_serializer (get : RPacket -> option (list Z)) (make : list Z -> RPacket) : Serializer :=
  mkSerializer
    (fun p b => match get p with Some name => SFramed (WriteString name b) | None => SNothing end)
    (fun b => let '(name, b) := ReadString b in (Some (make name), b)).

Definition ConnectPeerSerializer : Serializer :=
  name_serializer (fun p => match p with PConnectPeer t => Some t | _ => None end) PConnectPeer.

Definition PunchOfferSerializer : Serializer :=
  mkSerializer
    (fun p b => match p with
       | PPunchOffer packet =>
           let b := WriteString (offer_peer_ packet) b in
           let b := WriteInt 8 (punch_id_ packet) b in
           let b := WriteConnectionType (offer_type_ packet) b in
           SFramed (WriteCandidates (offered_ packet) b)
       | _ => SNothing
       end)
    (fun b =>
       let '(target, b) := ReadString b in
       let '(punch_id, b) := ReadInt 8 b in
       match ReadConnectionType b with
       | (None, b) => (None, b)
       | (Some t, b) =>
           match ReadCandidates b with
           | (false, _, b) => (None, b)
           | (true, cs, b) => (Some (PPunchOffer (mkPunchOffer target punch_id t cs)), b)
           end
       end).

Definition PeerNotFoundSerializer : Serializer :=
  name_serializer (fun p => match p with PPeerNotFound t => Some t | _ => None end) PPeerNotFound.

Definition RepunchRequestSerializer : Serializer :=
  name_serializer (fun p => match p with PRepunchRequest t => Some t | _ => None end) PRepunchRequest.

Definition BuildRendezvousCodec : Codec (Packet := RPacket) :=
  let codec := ∅ in
  let codec := Add kPacketWelcome WelcomeSerializer codec in
  let codec := Add kPacketGathering GatheringSerializer codec in
  let codec := Add kPacketConnectPeer ConnectPeerSerializer codec in
  let codec := Add kPacketPunchOffer PunchOfferSerializer codec in
  let codec := Add kPacketPeerNotFound PeerNotFoundSerializer codec in
  Add kPacketRepunchRequest RepunchRequestSerializer codec.

End Wire.
