(* ===== verification/RendezvousWireTheorems.v ===== *)
(** * Round trip of the rendezvous packets *)

From S2P Require Import Prelude Buffer BufferSpec BufferCodecs BufferViews Codec CodecTheorems InetAddr ZdtOptions ZdtMessages P2pPunch RendezvousWire.

Import Codec.

(** A name a reader takes. *)
Definition name_ok (s : list Z) : Prop := bytes_ok s /\ zlen s <= 65536.

(** An address the readers take: of a wire family, with a port. *)
Definition endpoint_ok (a : InetAddress) : Prop := address_ok a /\ port a <> 0.

Definition some_endpoint_ok (a : option InetAddress) : Prop := exists x, a = Some x /\ endpoint_ok x.

Definition candidate_ok (c : Candidate) : Prop :=
  some_endpoint_ok (c_address c) /\
  match c_type c with Relayed => 0 <= relay_token c < 2 ^ 64 | _ => relay_token c = 0 end.

Definition candidates_ok (cs : list Candidate) : Prop := Forall candidate_ok cs /\ (length cs <= kMaxCandidates)%nat.

(** The packets the senders build. *)
Definition rpacket_ok (p : RPacket) : Prop :=
  match p with
  | PWelcome w =>
      0 <= protocol_version_ w < 256 /\ name_ok (peer_name_ w) /\
      (exists a, endpoint_ w = Some a /\ address_ok a) /\
      Forall some_endpoint_ok (reflectors_ w) /\ (length (reflectors_ w) <= kMaxReflectors)%nat
  | PGathering g => 0 <= punch_port_ g < 65536 /\ candidates_ok (gathered_ g)
  | PPunchOffer o => name_ok (offer_peer_ o) /\ 0 <= punch_id_ o < 2 ^ 64 /\ candidates_ok (offered_ o)
  | PConnectPeer s | PPeerNotFound s | PRepunchRequest s => name_ok s
  end.

Section RoundTrip.
Context `{P : Platform} `{!AmplePlatform P}.

(** ** Readers that leave the bytes alone *)

Definition takes {A} (f : Buffer -> A * Buffer) (bs : list Z) (x : A) : Prop :=
  forall b r, wf b -> in_range b -> endianness_ b = LittleEndian -> avail b = bs ++ r ->
  exists b', f b = (x, b') /\ reads_only b b' /\ consumes b bs r b'.

Lemma takes_bind {A B} f (g : A -> Buffer -> B * Buffer) p q x y :
  takes f p x -> takes (g x) q y -> takes (fun b => let '(a, b) := f b in g a b) (p ++ q) y.
Proof.
  intros Hf Hg b r Hwf Hin He E. rewrite <- app_assoc in E.
  destruct (Hf b _ Hwf Hin He E) as (b1 & -> & R1 & C1).
  destruct (Hg b1 r (con_wf _ _ _ _ C1) (con_in _ _ _ _ C1)) as (b2 & -> & R2 & C2);
    [by rewrite (con_endian _ _ _ _ C1)|by destruct C1|].
  exists b2. split; [done|]. split; [by eapply reads_only_trans|by eapply consumes_trans].
Qed.

Lemma takes_ret {A} (x : A) : takes (fun b => (x, b)) [] x.
Proof. intros b r Hwf Hin He E. exists b. split; [done|]. split; split; done || (cbn; lia). Qed.

Lemma takes_parses {A} (f : Buffer -> A * Buffer) bs x :
  parses LittleEndian f bs x -> (forall b, data_ (f b).2 = data_ b) -> takes f bs x.
Proof.
  intros Hp Hd b r Hwf Hin He E. destruct (Hp b r Hwf He E) as (b' & E' & C). exists b'. split; [done|]. split; [|done].
  specialize (Hd b). rewrite E' in Hd. by destruct C.
Qed.

Lemma takes_int n v : 1 <= n < 2 ^ 31 -> 0 <= v < 256 ^ n -> takes (ReadInt n) (enc LittleEndian n v) v.
Proof.
  intros Hn Hv. apply takes_parses.
  - intros b r Hwf He E. by apply ReadInt_enc.
  - intros b. by destruct (ReadInt_store n b).
Qed.

Lemma takes_address a : address_ok a -> takes ReadInetAddress (address_image a) (Some a).
Proof.
  intros Ha. apply takes_parses.
  - exact (image_read (BufferCodec := address_codec LittleEndian) (Some a) Ha).
  - intros b. by destruct (ReadInetAddress_store b).
Qed.

Lemma takes_string s : name_ok s -> takes ReadString (string_image LittleEndian s) s.
Proof.
  intros [Hok HL] b r Hwf Hin He E. destruct (ReadString_parses LittleEndian s Hok HL b r Hwf He E) as (b' & E' & C).
  exists b'. split; [done|]. split; [|done].
  unfold ReadString in E'. destruct (ReadVarInt_reads b Hwf) as [R _]. destruct (ReadVarInt 8 b) as [n b1] eqn:E1. cbn [snd] in R.
  assert (Hd : data_ b' = data_ b).
  { revert E'. unfold CheckReadCount, load. destruct R as [_ <- _ _ _].
    repeat case_match; intros; simplify_eq; cbn; congruence. }
  by destruct C.
Qed.

(** [takes] for a deserializer's whole body. *)
Lemma answers_takes (s : @PacketSerializer RPacket) body p : takes (Deserialize_ s) body (Some p) ->
  answers_ s body NoError (Some p).
Proof.
  intros H b Hwf He Ha Hn Hin. destruct (H b [] Hwf Hin He) as (b' & E & R & C); [by rewrite app_nil_r|].
  exists b'. split; [done|]. split; [done|]. rewrite (con_err _ _ _ _ C), (con_rc _ _ _ _ C). split; [done|]. lia.
Qed.

(** ** Writers that need a little room behind what they write *)

Definition puts (bs : list Z) (f : Buffer -> Buffer) : Prop :=
  forall b, endianness_ b = LittleEndian -> ready (zlen bs + 8) b -> appends b bs (f b).

Lemma puts_comp p q f g : puts p f -> puts q g -> puts (p ++ q) (fun b => g (f b)).
Proof.
  intros Hf Hg b He Hr. rewrite length_app, Nat2Z.inj_add in Hr.
  assert (Ha : appends b p (f b)) by (apply Hf; [done|]; eapply ready_weaken; [|exact Hr]; lia).
  eapply appends_trans; [exact Ha|]. apply Hg; [by rewrite (app_endian _ _ _ Ha)|].
  eapply appends_ready; [exact Ha|]. eapply ready_weaken; [|exact Hr]. lia.
Qed.

Lemma puts_writes bs f : writes LittleEndian bs f -> puts bs f.
Proof. intros H b He Hr. apply H; [done|]. eapply ready_weaken; [|exact Hr]. lia. Qed.

Lemma puts_int n v : 0 <= n -> puts (enc LittleEndian n v) (WriteInt n v).
Proof. intros. by apply puts_writes, writes_WriteInt. Qed.

Lemma puts_string s : bytes_ok s -> puts (string_image LittleEndian s) (WriteString s).
Proof. intros Hs b He Hr. by apply WriteString_appends. Qed.

Lemma puts_address a : address_ok a -> puts (address_image a) (WriteInetAddress a).
Proof.
  intros Ha. apply puts_writes. intros b He Hr.
  exact (image_written (BufferCodec := address_codec LittleEndian) (Some a) b Ha He Hr).
Qed.

Lemma puts_foldl {A} (img : A -> list Z) (f : A -> Buffer -> Buffer) (xs : list A) :
  Forall (fun x => puts (img x) (f x)) xs -> puts (xs ≫= img) (fun b => foldl (fun b x => f x b) b xs).
Proof.
  induction 1 as [|x xs Hx _ IH]; csimpl; [apply puts_writes, writes_skip|]. exact (puts_comp _ _ (f x) _ Hx IH).
Qed.

Lemma encodes_puts (s : @PacketSerializer RPacket) p body f :
  Serialize_ s p = (fun b => SFramed (f b)) -> puts body f -> encodes s p body.
Proof. intros E H b Hr He. rewrite E. apply H; [done|]. eapply ready_weaken; [|exact Hr]. lia. Qed.

#[local] Opaque takes puts.

(** ** The lists of a packet *)

Definition opt_image (a : option InetAddress) : list Z := from_option address_image [] a.

Definition endpoints_image (xs : list (option InetAddress)) : list Z :=
  enc LittleEndian 1 (zlen xs) ++ (xs ≫= opt_image).

Definition candidate_image (c : Candidate) : list Z :=
  enc LittleEndian 1 (type_code (c_type c)) ++ opt_image (c_address c) ++
  match c_type c with Relayed => enc LittleEndian 8 (relay_token c) | _ => [] end.

Definition candidates_image (cs : list Candidate) : list Z :=
  enc LittleEndian 1 (zlen cs) ++ (cs ≫= candidate_image).

Lemma puts_endpoints xs : Forall some_endpoint_ok xs -> (length xs <= kMaxReflectors)%nat ->
  puts (endpoints_image xs) (WriteEndpoints xs kMaxReflectors).
Proof.
  intros Hxs HL. unfold WriteEndpoints, kMaxReflectors in *. rewrite Nat.min_l, take_ge by lia.
  unfold u8. rewrite Z.mod_small by (change (2 ^ 8) with 256; lia).
  refine (puts_comp _ _ (WriteInt 1 (zlen xs)) (fun b => foldl (fun b a => WriteAddress a b) b xs) _ _); [apply puts_int; lia|].
  refine (puts_foldl _ _ xs _).
  eapply Forall_impl; [exact Hxs|]. intros a (x & -> & Ha & _). by apply puts_address.
Qed.

Lemma takes_endpoints xs : Forall some_endpoint_ok xs -> (length xs <= kMaxReflectors)%nat ->
  takes (ReadEndpoints kMaxReflectors) (endpoints_image xs) (true, xs).
Proof.
  intros Hxs HL. unfold ReadEndpoints, kMaxReflectors in *.
  refine (takes_bind (ReadInt 1) (fun count b => if 8 <? count then (false, [], b) else read_endpoints (Z.to_nat count) [] b) _ _ (zlen xs) _ _ _);
    [apply takes_int; lia|].
  destruct (Z.ltb_spec 8 (zlen xs)); [lia|]. rewrite Nat2Z.id. change xs with ([] ++ xs) at 3. generalize (@nil (option InetAddress)).
  clear HL H. induction Hxs as [|a xs (x & -> & Ha & Hp) _ IH]; intros out; csimpl.
  { rewrite app_nil_r. apply takes_ret. }
  eapply (takes_bind ReadInetAddress (fun o b => match o with
      | Some a => if port a =? 0 then (false, out, b) else read_endpoints (length xs) (out ++ [Some a]) b
      | None => (false, out, b) end)).
  - by apply takes_address.
  - cbn beta iota. apply Z.eqb_neq in Hp. rewrite Hp.
    replace (out ++ Some x :: xs) with ((out ++ [Some x]) ++ xs) by (by rewrite <- app_assoc). apply IH.
Qed.

Lemma puts_candidates cs : candidates_ok cs -> puts (candidates_image cs) (WriteCandidates cs).
Proof.
  intros [Hcs HL]. unfold WriteCandidates, kMaxCandidates in *. rewrite Nat.min_l, take_ge by lia.
  unfold u8. rewrite Z.mod_small by (change (2 ^ 8) with 256; lia).
  refine (puts_comp _ _ (WriteInt 1 (zlen cs)) (fun b => foldl (fun b c => WriteCandidate c b) b cs) _ _); [apply puts_int; lia|].
  refine (puts_foldl _ _ cs _).
  eapply Forall_impl; [exact Hcs|]. intros [t a tok] [(x & E & Ha & _) _]. cbn in E. subst a. unfold candidate_image, WriteCandidate. cbn [c_type c_address relay_token opt_image from_option].
  refine (puts_comp _ _ (WriteInt 1 (type_code t)) (fun b => let b := WriteAddress (Some x) b in
    if bool_decide (t = Relayed) then WriteInt 8 tok b else b) _ _); [apply puts_int; lia|].
  refine (puts_comp _ _ (WriteInetAddress x) (fun b => if bool_decide (t = Relayed) then WriteInt 8 tok b else b) _ _);
    [by apply puts_address|]. destruct t; cbn; [apply puts_writes, writes_skip..|apply puts_int; lia].
Qed.

Lemma takes_candidate c : candidate_ok c -> takes read_candidate (candidate_image c) (Some c).
Proof.
  destruct c as [t a tok]. intros [(x & E & Ha & Hp) Ht]. cbn in E, Ht. subst a. apply Z.eqb_neq in Hp.
  unfold candidate_image. cbn [c_type c_address relay_token opt_image from_option].
  eapply (takes_bind (ReadInt 1) (fun raw_type b => if 2 <? raw_type then (None, b) else
     let t := if raw_type =? 0 then Host else if raw_type =? 1 then Reflexive else Relayed in
     let '(address, b) := ReadInetAddress b in
     match address with
     | None => (None, b)
     | Some a => if port a =? 0 then (None, b)
                 else let '(token, b) := if bool_decide (t = Relayed) then ReadInt 8 b else (0, b) in
                      (Some (mkCandidate t (Some a) token), b)
     end)); [apply takes_int; [lia|destruct t; cbn; lia]|]. cbn beta zeta.
  replace (2 <? type_code t) with false by (by destruct t).
  replace (if type_code t =? 0 then Host else if type_code t =? 1 then Reflexive else Relayed) with t by (by destruct t).
  eapply (takes_bind ReadInetAddress (fun address b => match address with
     | None => (None, b)
     | Some a => if port a =? 0 then (None, b)
                 else let '(token, b) := if bool_decide (t = Relayed) then ReadInt 8 b else (0, b) in
                      (Some (mkCandidate t (Some a) token), b)
     end)); [by apply takes_address|]. cbn beta iota. rewrite Hp.
  rewrite <- (app_nil_r (match t with Relayed => _ | _ => _ end)).
  eapply (takes_bind (fun b => if bool_decide (t = Relayed) then ReadInt 8 b else (0, b))
    (fun token b => (Some (mkCandidate t (Some x) token), b)) _ _ tok); [|apply takes_ret].
  destruct t; cbn in *; subst; [apply takes_ret..|]. apply takes_int; lia.
Qed.

Lemma takes_candidates cs : candidates_ok cs -> takes ReadCandidates (candidates_image cs) (true, cs).
Proof.
  intros [Hcs HL]. unfold ReadCandidates, kMaxCandidates in *.
  refine (takes_bind (ReadInt 1) (fun count b => if 32 <? count then (false, [], b) else read_candidates (Z.to_nat count) [] b) _ _ (zlen cs) _ _ _);
    [apply takes_int; lia|].
  destruct (Z.ltb_spec 32 (zlen cs)); [lia|]. rewrite Nat2Z.id. change cs with ([] ++ cs) at 3. generalize (@nil Candidate).
  clear HL H. induction Hcs as [|c cs Hc _ IH]; intros out; csimpl.
  { rewrite app_nil_r. apply takes_ret. }
  eapply (takes_bind read_candidate (fun o b => match o with
      | None => (false, out, b) | Some c => read_candidates (length cs) (out ++ [c]) b end) (candidate_image c)); [by apply takes_candidate|].
  replace (out ++ c :: cs) with ((out ++ [c]) ++ cs) by (by rewrite <- app_assoc). apply IH.
Qed.

(** ** The packets *)

Definition type_image (t : ConnectionType) : list Z := enc LittleEndian 1 (connection_code t).

Lemma takes_type t : takes ReadConnectionType (type_image t) (Some t).
Proof.
  unfold type_image. rewrite <- (app_nil_r (enc LittleEndian 1 _)). eapply (takes_bind (ReadInt 1) (fun raw_type b => if raw_type =? 0 then (Some TCP, b)
    else if raw_type =? 1 then (Some ZDT, b) else (None, b)) (enc LittleEndian 1 (connection_code t)));
    [apply takes_int; [lia|destruct t; cbn; lia]|destruct t; apply takes_ret].
Qed.

Definition body (p : RPacket) : list Z :=
  match p with
  | PWelcome w =>
      enc LittleEndian 1 (protocol_version_ w) ++ string_image LittleEndian (peer_name_ w) ++ opt_image (endpoint_ w) ++
      endpoints_image (reflectors_ w) ++ type_image (welcome_type_ w)
  | PGathering g => enc LittleEndian 2 (punch_port_ g) ++ candidates_image (gathered_ g)
  | PPunchOffer o =>
      string_image LittleEndian (offer_peer_ o) ++ enc LittleEndian 8 (punch_id_ o) ++ type_image (offer_type_ o) ++
      candidates_image (offered_ o)
  | PConnectPeer s | PPeerNotFound s | PRepunchRequest s => string_image LittleEndian s
  end.

Definition serializer_of (p : RPacket) : @PacketSerializer RPacket :=
  match p with
  | PWelcome _ => WelcomeSerializer | PGathering _ => GatheringSerializer | PConnectPeer _ => ConnectPeerSerializer
  | PPunchOffer _ => PunchOfferSerializer | PPeerNotFound _ => PeerNotFoundSerializer
  | PRepunchRequest _ => RepunchRequestSerializer
  end.

Lemma codec_lookup p : BuildRendezvousCodec !! packet_id p = Some (serializer_of p).
Proof. by destruct p. Qed.

(** Writes in sequence, the last one outermost. *)
Ltac put := first
  [ by apply puts_int | by apply puts_string | by apply puts_address | by apply puts_endpoints | by apply puts_candidates
  | eapply puts_comp; [put|put] ].

Lemma welcome_encodes w : rpacket_ok (PWelcome w) -> encodes WelcomeSerializer (PWelcome w) (body (PWelcome w)).
Proof.
  intros (Hv & [Hn _] & (a & Ea & Ha) & Hr & HL). eapply encodes_puts; [done|]. cbn [body]. rewrite Ea. cbn [opt_image from_option WriteAddress].
  rewrite !app_assoc. put.
Qed.

Lemma offer_encodes o : rpacket_ok (PPunchOffer o) -> encodes PunchOfferSerializer (PPunchOffer o) (body (PPunchOffer o)).
Proof.
  intros ([Hn _] & Hid & Hcs). eapply encodes_puts; [done|]. cbn [body].
  rewrite !app_assoc. put.
Qed.

Lemma gathering_encodes g : rpacket_ok (PGathering g) -> encodes GatheringSerializer (PGathering g) (body (PGathering g)).
Proof.
  intros (Hp & Hcs). eapply encodes_puts; [done|]. cbn [body].
  unfold u16. rewrite Z.mod_small by done. put.
Qed.

Lemma packet_encodes p : rpacket_ok p -> encodes (serializer_of p) p (body p).
Proof.
  destruct p as [w|g|s|o|s|s]; intros H;
    [by apply welcome_encodes|by apply gathering_encodes| |by apply offer_encodes|..];
    (eapply encodes_puts; [done|]; apply puts_string; apply H).
Qed.

(** The readers of the packets of more than one field. *)
Lemma welcome_takes w : rpacket_ok (PWelcome w) -> takes (Deserialize_ WelcomeSerializer) (body (PWelcome w)) (Some (PWelcome w)).
Proof.
  destruct w as [v n e rs t]. intros (Hv & Hn & (a & Ea & Ha) & Hr & HL). cbn in Ea, Hv, Hn, Hr, HL. subst e.
  cbn [WelcomeSerializer Deserialize_ body protocol_version_ peer_name_ endpoint_ reflectors_ welcome_type_ opt_image from_option].
  eapply takes_bind; [by apply takes_int|]. eapply takes_bind; [by apply takes_string|].
  eapply takes_bind; [by apply takes_address|]. cbn beta iota.
  eapply takes_bind; [by apply takes_endpoints|]. cbn beta iota.
  rewrite <- (app_nil_r (type_image t)). eapply takes_bind; [by apply takes_type|]. apply takes_ret.
Qed.

Lemma gathering_takes g : rpacket_ok (PGathering g) ->
  takes (Deserialize_ GatheringSerializer) (body (PGathering g)) (Some (PGathering g)).
Proof.
  destruct g as [pt cs]. intros (Hp & Hcs). cbn [GatheringSerializer Deserialize_ body punch_port_ gathered_] in *.
  eapply takes_bind; [by apply takes_int|]. cbn beta.
  rewrite <- (app_nil_r (candidates_image cs)). eapply takes_bind; [by apply takes_candidates|]. apply takes_ret.
Qed.

Lemma offer_takes o : rpacket_ok (PPunchOffer o) ->
  takes (Deserialize_ PunchOfferSerializer) (body (PPunchOffer o)) (Some (PPunchOffer o)).
Proof.
  destruct o as [n i t cs]. intros (Hn & Hi & Hcs). cbn [PunchOfferSerializer Deserialize_ body offer_peer_ punch_id_ offer_type_ offered_] in *.
  eapply takes_bind; [by apply takes_string|]. eapply takes_bind; [by apply takes_int|]. eapply takes_bind; [by apply takes_type|]. cbn beta iota.
  rewrite <- (app_nil_r (candidates_image cs)). eapply takes_bind; [by apply takes_candidates|]. apply takes_ret.
Qed.

Lemma packet_answers p : rpacket_ok p -> answers_ (serializer_of p) (body p) NoError (Some p).
Proof.
  intros H. apply answers_takes.
  destruct p as [w|g|s|o|s|s]; [by apply welcome_takes|by apply gathering_takes| |by apply offer_takes|..];
    (cbn [body serializer_of ConnectPeerSerializer PeerNotFoundSerializer RepunchRequestSerializer name_serializer Deserialize_];
     rewrite <- (app_nil_r (string_image _ _)); eapply takes_bind; [by apply takes_string|]; apply takes_ret).
Qed.

(** ** Their bytes *)

(** [bs] is a byte string of at most [n]. *)
Definition short (n : Z) (bs : list Z) : Prop := bytes_ok bs /\ zlen bs <= n.

Lemma short_app n m p q : short n p -> short m q -> short (n + m) (p ++ q).
Proof. intros [Hp ?] [Hq ?]. split; [by apply bytes_ok_app|]. rewrite length_app. lia. Qed.

Lemma short_weaken n m p : n <= m -> short n p -> short m p.
Proof. intros ? [? ?]. split; [done|lia]. Qed.

Lemma short_enc n v : 0 <= n -> short n (enc LittleEndian n v).
Proof. intros. split; [apply enc_bytes_ok|]. rewrite zlen_enc by done. lia. Qed.

Lemma short_string s : name_ok s -> short 65545 (string_image LittleEndian s).
Proof.
  intros [Hok HL]. apply (short_app 9 65536); [|done]. split.
  { apply bytes_ok_app. split; [apply enc_bytes_ok|]. apply reorder_bytes_ok, Forall_take, mem_bytes_ok. }
  rewrite zlen_var_image. pose proof (var_size_range (mem_bytes 8 (zlen s))) as H. rewrite length_mem_bytes in H. lia.
Qed.

Lemma short_address a : address_ok a -> short 19 (address_image a).
Proof.
  destruct a as [ip p|ip p|]; [| |done]; intros (Hip & HL & Hp); cbn [address_image];
    (split; [apply bytes_ok_app; split; [by repeat constructor|]; apply bytes_ok_app; split; [done|apply enc_bytes_ok]|]);
    rewrite !length_app, !Nat2Z.inj_add, zlen_enc, HL by lia; cbn; lia.
Qed.

Lemma short_bind {A} n (f : A -> list Z) (xs : list A) : Forall (fun x => short n (f x)) xs -> short (n * zlen xs) (xs ≫= f).
Proof.
  induction 1 as [|x xs Hx _ IH]; csimpl; [split; [constructor|cbn; lia]|].
  replace (n * Z.of_nat (S (length xs))) with (n + n * zlen xs) by lia. by apply short_app.
Qed.

Lemma short_candidates cs : candidates_ok cs -> short 1000 (candidates_image cs).
Proof.
  intros [Hcs HL]. unfold kMaxCandidates in HL. apply (short_weaken (1 + (1 + (19 + 8)) * zlen cs)); [lia|].
  apply short_app; [apply short_enc; lia|]. apply short_bind. eapply Forall_impl; [exact Hcs|].
  intros [t a tok] [(x & E & Ha & _) _]. cbn in E. subst a. apply short_app; [apply short_enc; lia|]. apply short_app; [by apply short_address|].
  destruct t; cbn [c_type relay_token]; [by split; [constructor|cbn; lia]..|apply short_enc; lia].
Qed.

Lemma short_endpoints xs : Forall some_endpoint_ok xs -> (length xs <= kMaxReflectors)%nat -> short 200 (endpoints_image xs).
Proof.
  intros Hxs HL. unfold kMaxReflectors in HL. apply (short_weaken (1 + 19 * zlen xs)); [lia|].
  apply short_app; [apply short_enc; lia|]. apply short_bind. eapply Forall_impl; [exact Hxs|].
  intros a (x & -> & Ha & _). by apply short_address.
Qed.

Lemma short_body p : rpacket_ok p -> short (2 ^ 30) (body p).
Proof.
  destruct p as [w|g|s|o|s|s]; cbn [body]; intros H; try (apply (short_weaken 65545); [lia|by apply short_string]).
  - destruct H as (_ & Hn & (a & -> & Ha) & Hr & HL). apply (short_weaken (1 + (65545 + (19 + (200 + 1))))); [lia|].
    repeat first [by apply short_string|by apply short_address|by apply short_endpoints|apply short_enc; lia|apply short_app].
  - destruct H as (_ & Hcs). apply (short_weaken (2 + 1000)); [lia|]. apply short_app; [apply short_enc; lia|by apply short_candidates].
  - destruct H as (Hn & _ & Hcs). apply (short_weaken (65545 + (8 + (1 + 1000)))); [lia|].
    repeat first [by apply short_string|by apply short_candidates|apply short_enc; lia|apply short_app].
Qed.

(** [C31] Rendezvous packets survive the link: packets the broker and its peers
    build (names of at most 65536 bytes, every address with a port, at most 32
    candidates and 8 reflectors), each serialized with the codec of the rendezvous
    protocol and the messages put behind one another, are decoded into the same
    packets in the same order and no frame is refused. *)
Theorem rendezvous_roundtrip (ps : list RPacket) (h : Z) (b : Buffer)
  (Hps : Forall rpacket_ok ps) (Hh : 0 <= h <= 2 ^ 20) (Hb : opened b) (Hn : last_error_ b = NoError)
  (Ha : avail b = ps ≫= fun p => default [] (avail <$> Serialize packet_id BuildRendezvousCodec p h)) :
  exists b', Deserialize BuildRendezvousCodec b = mkDecoding (mkStats 0 false) ps b' /\ avail b' = [].
Proof.
  apply (packets_roundtrip packet_id BuildRendezvousCodec ps body h b); try done.
  eapply Forall_impl; [exact Hps|]. intros p Hp. destruct (short_body p Hp) as [Hok HL].
  split; [by destruct p|]. split; [done|]. split; [done|]. exists (serializer_of p). split; [apply codec_lookup|].
  split; [by apply packet_encodes|by apply packet_answers].
Qed.

End RoundTrip.

(** ** A concrete exchange *)

Module WireExamples.

Definition peer_address : InetAddress := InetAddressIPv4 [198; 51; 100; 7] 4000.
Definition packets : list RPacket :=
  [PConnectPeer [98; 111; 98];
   PPunchOffer (mkPunchOffer [98; 111; 98] 77 ZDT
     [mkCandidate Reflexive (Some peer_address) 0; mkCandidate Relayed (Some (InetAddressIPv4 [203; 0; 113; 1] 5000)) 99])].

Abbreviation LE := (host LittleEndian).

Abbreviation link := (packets ≫= fun p => default [] (avail <$> @Serialize LE RPacket packet_id (@BuildRendezvousCodec LE) p 4)).

Lemma ipv4_endpoint a b c d p : is_byte a -> is_byte b -> is_byte c -> is_byte d -> 0 < p < 65536 ->
  some_endpoint_ok (Some (InetAddressIPv4 [a; b; c; d] p)).
Proof.
  intros. eexists. split; [done|]. split; [|cbn; lia]. split; [do 4 (constructor; [done|]); constructor|]. split; [done|lia].
Qed.

Lemma packets_ok : Forall rpacket_ok packets.
Proof.
  assert (Hname : name_ok [98; 111; 98]) by (split; [by repeat constructor|cbn; lia]).
  constructor; [exact Hname|]. constructor; [|constructor]. split; [exact Hname|]. split; [cbn; lia|]. split; [|cbn; unfold kMaxCandidates; lia].
  constructor; [split; [by apply ipv4_endpoint|done]|]. constructor; [split; [by apply ipv4_endpoint|cbn; lia]|constructor].
Qed.

Lemma rendezvous_roundtrip_witness :
  exists b', @Deserialize LE RPacket (@BuildRendezvousCodec LE) (@received LE LittleEndian link)
    = mkDecoding (mkStats 0 false) packets b' /\ avail b' = [].
Proof.
  destruct (@received_opened LE (host_ample _) link) as (Ho & Ha & Hn);
    [vm_compute; repeat constructor; discriminate|vm_compute; discriminate|].
  apply (@rendezvous_roundtrip LE (host_ample _) packets 4); [exact packets_ok|lia|exact Ho|exact Hn|exact Ha].
Defined.

End WireExamples.
