(* ===== verification/Rendezvous.v ===== *)
(** * The rendezvous broker (p2p/rendezvous_server.h, p2p/rendezvous_server.cc)

    Names peers, takes what they gathered, and pairs mutual asks into punch offers.
    Packet handlers and connection events run on the link's threads and the pairing
    loop on its own; every one of them works under [mutex_], so an execution is a
    sequence of the operations below.  The loop takes the lock once per item, which
    is one [PairingStep] here, with the batch it swapped out as part of the state.

    A session is a handle; the [ClientData] behind it lives in [clients_], the heap
    that sessions, queues and the registry point into.  What an operation sends or
    closes is part of its result.  Random draws are arguments. *)

From Stdlib Require Import String.
From S2P Require Import Prelude Buffer ZdtWire InetAddr Admission ZdtOptions ZdtState ZdtServer P2pPunch Traversal RendezvousWire.

#[local] Open Scope Z_scope.

(** ** Names (util.cc) *)

Definition peer_first : list string :=
  ["Skippy"; "Crimson"; "Neon"; "Rusty"; "Silent"; "Quantum"; "Velvet"; "Blaze"; "Echo"; "Frost"; "Solar"; "Pixel";
   "Iron"; "Azure"; "Misty"; "Copper"; "Shadow"; "Polar"; "Turbo"; "Glitch"; "Apex"; "Boulder"; "Cascade"; "Drift";
   "Ember"; "Gale"; "Halo"; "Jolt"; "Kinetic"; "Lunar"; "Monarch"; "Nimbus"; "Obsidian"; "Phoenix"; "Quasar"]%string.

Definition peer_second : list string :=
  ["Toe"; "Fox"; "Bolt"; "Wing"; "Shade"; "Pulse"; "Drift"; "Knight"; "Flare"; "Shard"; "Vector"; "Chaser"; "Spark"; "Raven";
   "Quill"; "Stream"; "Bluff"; "Cipher"; "Warden"; "Orbit"; "Arc"; "Bramble"; "Crest"; "Dusk"; "Edge"; "Flicker"; "Harbor"; "Icicle";
   "Jester"; "Kite"; "Ledger"; "Nexus"; "Omen"; "Rune"; "Spire"]%string.

(** [draw]: the two indices the distributions yield, each within its list. *)
Definition GeneratePeerName (draw : nat * nat) : list Z :=
  chars (nth draw.1 peer_first EmptyString) ++ chars (nth draw.2 peer_second EmptyString).

Module Rendezvous.

(** ** State *)

Definition Name : Type := list Z.
Definition Session : Type := nat.

Record ClientData := mkClient {
  session_remote : InetAddress;
  peer_name : Name;
  pending_targets : gset Name;
  paired_with : gset Name;
  c_candidates : list Candidate;
  c_punch_port : Z;
  request_window_start : Z;
  request_count : Z
}.

Definition ClientData_new (remote : InetAddress) : ClientData := mkClient remote [] ∅ ∅ [] 0 0 0.

Definition set_name (n : Name) (d : ClientData) : ClientData :=
  mkClient (session_remote d) n (pending_targets d) (paired_with d) (c_candidates d) (c_punch_port d)
    (request_window_start d) (request_count d).

Definition set_pending (v : gset Name) (d : ClientData) : ClientData :=
  mkClient (session_remote d) (peer_name d) v (paired_with d) (c_candidates d) (c_punch_port d)
    (request_window_start d) (request_count d).

Definition set_paired (v : gset Name) (d : ClientData) : ClientData :=
  mkClient (session_remote d) (peer_name d) (pending_targets d) v (c_candidates d) (c_punch_port d)
    (request_window_start d) (request_count d).

Definition set_gathered (cs : list Candidate) (punch_port : Z) (d : ClientData) : ClientData :=
  mkClient (session_remote d) (peer_name d) (pending_targets d) (paired_with d) cs punch_port
    (request_window_start d) (request_count d).

Definition set_window (start count : Z) (d : ClientData) : ClientData :=
  mkClient (session_remote d) (peer_name d) (pending_targets d) (paired_with d) (c_candidates d) (c_punch_port d) start count.

Record Config := mkConfig {
  punch_connection_type : ConnectionType;
  max_requests_per_window : Z;
  request_window : Z;
  traversal_enabled : bool;
  traversal_config : TraversalServerConfig;
  extra_reflectors : list (option InetAddress)
}.

(** What the pairing loop swapped out and has not worked through. *)
Record Batch := mkBatch {
  local_clear_q : list Name;
  local_welcome_q : list Session;
  local_connect_q : list (Session * Name)
}.

Definition Batch_empty : Batch := mkBatch [] [] [].

Record Server := mkServer {
  config_ : Config;
  traversal_ : option TraversalServer;
  traversal_host_ : option InetAddress;
  stop_ : bool;
  welcome_queue_ : list Session;
  connect_peer_queue_ : list (Session * Name);
  clear_queue_ : list Name;
  registry_ : gmap Name Session;
  clients_ : gmap Session ClientData;
  batch : Batch;
  exited : bool
}.

Inductive Output := Send (to : Session) (packet : RPacket) | CloseSession (s : Session).

Definition set_clients (v : gmap Session ClientData) (s : Server) : Server :=
  mkServer (config_ s) (traversal_ s) (traversal_host_ s) (stop_ s) (welcome_queue_ s) (connect_peer_queue_ s) (clear_queue_ s)
    (registry_ s) v (batch s) (exited s).

Definition set_registry (v : gmap Name Session) (s : Server) : Server :=
  mkServer (config_ s) (traversal_ s) (traversal_host_ s) (stop_ s) (welcome_queue_ s) (connect_peer_queue_ s) (clear_queue_ s)
    v (clients_ s) (batch s) (exited s).

Definition set_queues (welcome : list Session) (connect : list (Session * Name)) (clear : list Name) (s : Server) : Server :=
  mkServer (config_ s) (traversal_ s) (traversal_host_ s) (stop_ s) welcome connect clear
    (registry_ s) (clients_ s) (batch s) (exited s).

Definition set_batch (v : Batch) (s : Server) : Server :=
  mkServer (config_ s) (traversal_ s) (traversal_host_ s) (stop_ s) (welcome_queue_ s) (connect_peer_queue_ s) (clear_queue_ s)
    (registry_ s) (clients_ s) v (exited s).

Definition set_traversal (v : option TraversalServer) (s : Server) : Server :=
  mkServer (config_ s) v (traversal_host_ s) (stop_ s) (welcome_queue_ s) (connect_peer_queue_ s) (clear_queue_ s)
    (registry_ s) (clients_ s) (batch s) (exited s).

Definition set_exited (s : Server) : Server :=
  mkServer (config_ s) (traversal_ s) (traversal_host_ s) (stop_ s) (welcome_queue_ s) (connect_peer_queue_ s) (clear_queue_ s)
    (registry_ s) (clients_ s) (batch s) true.

Definition RendezvousServer_new (config : Config) : Server :=
  mkServer config None None false [] [] [] ∅ ∅ Batch_empty true.

(** ** Starting and stopping *)

Section Operations.
Context `{P : Platform} `{I : Inet}.

(** What the environment answers a start: the traversal host resolved, the traversal
    server's own start, and the listener's bind and listen. *)
Record StartEnv := mkStartEnv {
  host_resolved : option InetAddress;
  traversal_address : option InetAddress;
  traversal_opened : bool;
  traversal_bound : bool;
  traversal_local : option InetAddress;
  started_at : Z;
  bind_result : Result;
  listen_result : Result
}.

(** The listener, and the pairing thread behind it. *)
Definition start_link (env : StartEnv) (s : Server) : Result * Server :=
  let result := if bool_decide (bind_result env = Success) then listen_result env else bind_result env in
  if bool_decide (result = Success) then
    (Success, mkServer (config_ s) (traversal_ s) (traversal_host_ s) false (welcome_queue_ s) (connect_peer_queue_ s)
       (clear_queue_ s) (registry_ s) (clients_ s) Batch_empty false)
  else (result, set_traversal None s).

Definition RendezvousServer_Start (env : StartEnv) (s : Server) : Result * Server :=
  let with_host h t := mkServer (config_ s) t h (stop_ s) (welcome_queue_ s) (connect_peer_queue_ s) (clear_queue_ s)
                         (registry_ s) (clients_ s) (batch s) (exited s) in
  if traversal_enabled (config_ s) then
    match host_resolved env with
    | None => (InvalidAddress, with_host None (traversal_ s))
    | Some host =>
        if negb (is_valid host) || bool_decide (ipv host = Unix) then (InvalidAddress, with_host None (traversal_ s))
        else
          let '(result, t) := Traversal_Start (traversal_address env) (traversal_opened env) (traversal_bound env)
                                (traversal_local env) (started_at env) (TraversalServer_new (traversal_config (config_ s))) in
          if bool_decide (result = Success) then start_link env (with_host (Some host) (Some t))
          else (result, with_host (Some host) None)
    end
  else start_link env s.

Definition RendezvousServer_Stop (s : Server) : Server :=
  mkServer (config_ s) (Traversal_Stop <$> traversal_ s) (traversal_host_ s) true (welcome_queue_ s) (connect_peer_queue_ s)
    (clear_queue_ s) (registry_ s) (clients_ s) (batch s) (exited s).

(** ** Requests *)

(** Counts one request; a client over the limit is closed. *)
Definition AllowRequest (now : Z) (id : Session) (data : ClientData) (config : Config) : bool * ClientData * list Output :=
  if (max_requests_per_window config =? 0) || (request_window config <=? 0) then (true, data, [])
  else
    let data := if (request_count data =? 0) || (ms (request_window config) <? now - request_window_start data)
                then set_window now 0 data else data in
    let data := set_window (request_window_start data) (u32 (request_count data + 1)) data in
    if request_count data <=? max_requests_per_window config then (true, data, []) else (false, data, [CloseSession id]).

(** The claims of a gathering that are kept. *)
Definition acceptable (c : Candidate) : bool :=
  match c_address c with
  | None => false
  | Some a => is_valid a && negb (bool_decide (ipv a = Unix)) && negb (bool_decide (c_type c = Relayed))
  end.

Definition OnGathering (now : Z) (id : Session) (pk : GatheringPacket) (s : Server) : list Output * Server :=
  match clients_ s !! id with
  | None => ([], s)
  | Some data =>
      let '(allowed, data, out) := AllowRequest now id data (config_ s) in
      let data := if allowed then set_gathered (List.filter acceptable (gathered_ pk)) (punch_port_ pk) data else data in
      (out, set_clients (<[id := data]> (clients_ s)) s)
  end.

Definition OnConnectPeer (now : Z) (id : Session) (target : Name) (s : Server) : list Output * Server :=
  match clients_ s !! id with
  | None => ([], s)
  | Some data =>
      let '(allowed, data, out) := AllowRequest now id data (config_ s) in
      if negb allowed || bool_decide (peer_name data = []) then (out, set_clients (<[id := data]> (clients_ s)) s)
      else
        let data := set_pending ({[target]} ∪ pending_targets data) data in
        (out, set_queues (welcome_queue_ s) ((id, target) :: connect_peer_queue_ s) (clear_queue_ s)
                (set_clients (<[id := data]> (clients_ s)) s))
  end.

(** [id]: the session the link just opened. *)
Definition OnConnectEvent (id : Session) (remote : InetAddress) (s : Server) : Server :=
  set_queues (id :: welcome_queue_ s) (connect_peer_queue_ s) (clear_queue_ s)
    (set_clients (<[id := ClientData_new remote]> (clients_ s)) s).

Definition OnDisconnectEvent (id : Session) (s : Server) : Server :=
  match clients_ s !! id with
  | None => s
  | Some data =>
      if bool_decide (peer_name data = []) then s
      else set_queues (welcome_queue_ s) (connect_peer_queue_ s) (peer_name data :: clear_queue_ s) s
  end.

(** ** Naming *)

(** Names drawn in turn; [more] is how many further draws the loop still looks at. *)
Fixpoint search_name (more : nat) (draws : nat -> Name) (registry : gmap Name Session) : Name :=
  if bool_decide (registry !! draws O = None) then draws O
  else match more with
       | O => []
       | S more => search_name more (fun i => draws (S i)) registry
       end.

Definition GenerateUniqueName (draws : nat -> Name) (s : Server) : Name := search_name 5000 draws (registry_ s).

(** [None]: the traversal server's address is null, which its socket's was. *)
Definition TraversalEndpoint (s : Server) : option InetAddress :=
  t ← traversal_ s; a ← t_address t; h ← traversal_host_ s; Some (WithPort h (port a)).

(** The reflectors of a welcome. *)
Fixpoint add_reflectors (extra : list (option InetAddress)) (out : list (option InetAddress)) : list (option InetAddress) :=
  match extra with
  | [] => out
  | r :: extra =>
      if Nat.leb kMaxReflectors (length out) then out
      else add_reflectors extra (match r with Some a => if is_valid a then out ++ [r] else out | None => out end)
  end.

Definition own_reflector (s : Server) : list (option InetAddress) :=
  match traversal_ s with
  | Some t => if bool_decide (is_Some (t_reflector t)) && bool_decide (is_Some (t_address t)) then [TraversalEndpoint s] else []
  | None => []
  end.

Definition Welcome (draws : nat -> Name) (id : Session) (s : Server) : list Output * Server :=
  match clients_ s !! id with
  | None => ([], s)
  | Some data =>
      if negb (bool_decide (peer_name data = [])) then ([], s)
      else
        let name := GenerateUniqueName draws s in
        let s := set_clients (<[id := set_name name data]> (clients_ s)) s in
        if bool_decide (name = []) then ([CloseSession id], s)
        else
          let reflectors := add_reflectors (extra_reflectors (config_ s)) (own_reflector s) in
          ([Send id (PWelcome (mkWelcome kRendezvousProtocolVersion name (Some (session_remote data)) reflectors
                                (punch_connection_type (config_ s))))],
           set_registry (<[name := id]> (registry_ s)) s)
  end.

(** ** Pairing *)

Definition OfferCandidates (client : ClientData) (relayed : option Candidate) : list Candidate :=
  let out := List.filter (fun c => bool_decide (c_type c = Reflexive)) (c_candidates client) in
  let out := if bool_decide (out = []) then
               let observed := session_remote client in
               [mkCandidate Reflexive (Some (if c_punch_port client =? 0 then observed else WithPort observed (c_punch_port client))) 0]
             else out in
  let out := foldl (fun out c =>
               match c_address c with
               | Some a => if bool_decide (c_type c = Host) && negb (ContainsAddress out a) then out ++ [c] else out
               | None => out
               end) out (c_candidates client) in
  let cap := match relayed with Some _ => (kMaxCandidates - 1)%nat | None => kMaxCandidates end in
  take cap out ++ match relayed with Some r => [r] | None => [] end.

(** What one pairing draws: the punch id, the guids [Allocate] asks for, the time. *)
Record PairEnv := mkPairEnv { drawn_punch_id : Z; guids : list Z; pair_now : Z }.

(** The relayed candidate both sides get, if there is a relay with room for them.
    [None]: [Allocate] wants more guids, or the server's address is null. *)
Definition allocate_relayed (env : PairEnv) (s : Server) : option (option Candidate * Server) :=
  match traversal_ s with
  | None => Some (None, s)
  | Some t =>
      match t_relay t with
      | None => Some (None, s)
      | Some r =>
          if negb (bool_decide (punch_connection_type (config_ s) = ZDT)) then Some (None, s)
          else
            '(result, allocation, r) ← Relay.Allocate (S (size (Relay.pairings_ r))) (guids env) (pair_now env) r;
            let s' := set_traversal (Some (mkTraversal (t_config t) (t_reflector t) (Some r) (t_running t) (t_address t) (last_sweep t))) s in
            match allocation with
            | Some (_, token) => a ← TraversalEndpoint s; Some (Some (mkCandidate Relayed (Some a) token), s')
            | None => Some (None, s')
            end
      end
  end.

Definition TryPair (env : PairEnv) (id : Session) (target : Name) (s : Server) : option (list Output * Server) :=
  data ← clients_ s !! id;
  if bool_decide (target ∉ pending_targets data) then Some ([], s)
  else
    match (if bool_decide (target = peer_name data) then None else registry_ s !! target) with
    | None =>
        Some ([Send id (PPeerNotFound target)],
              set_clients (<[id := set_pending (pending_targets data ∖ {[target]}) data]> (clients_ s)) s)
    | Some other =>
        other_data ← clients_ s !! other;
        if bool_decide (peer_name data ∉ pending_targets other_data) then
          Some (if bool_decide (peer_name data ∈ paired_with other_data) then [Send other (PRepunchRequest (peer_name data))] else [], s)
        else
          let data := set_paired ({[target]} ∪ paired_with data) (set_pending (pending_targets data ∖ {[target]}) data) in
          let other_data := set_paired ({[peer_name data]} ∪ paired_with other_data)
                              (set_pending (pending_targets other_data ∖ {[peer_name data]}) other_data) in
          let s := set_clients (<[other := other_data]> (<[id := data]> (clients_ s))) s in
          '(relayed, s) ← allocate_relayed env s;
          let offer to_peer cs := PPunchOffer (mkPunchOffer to_peer (drawn_punch_id env) (punch_connection_type (config_ s)) cs) in
          Some ([Send id (offer (peer_name other_data) (OfferCandidates other_data relayed));
                 Send other (offer (peer_name data) (OfferCandidates data relayed))], s)
    end.

(** ** The loop *)

(** What one step may draw. *)
Record StepEnv := mkStepEnv { name_draws : nat -> Name; pair_env : PairEnv }.

Definition PairingStep (env : StepEnv) (s : Server) : option (list Output * Server) :=
  if exited s then Some ([], s)
  else
    match batch s with
    | mkBatch (n :: clear) welcome connect =>
        Some ([], set_batch (mkBatch clear welcome connect) (set_registry (delete n (registry_ s)) s))
    | mkBatch [] (id :: welcome) connect => Some (Welcome (name_draws env) id (set_batch (mkBatch [] welcome connect) s))
    | mkBatch [] [] ((id, target) :: connect) => TryPair (pair_env env) id target (set_batch (mkBatch [] [] connect) s)
    | mkBatch [] [] [] =>
        if stop_ s then Some ([], set_exited s)
        else Some ([], set_queues [] [] [] (set_batch (mkBatch (clear_queue_ s) (welcome_queue_ s) (connect_peer_queue_ s)) s))
    end.

End Operations.

End Rendezvous.
