(* ===== verification/RendezvousTheorems.v ===== *)
(** * The broker's guarantees

    Executions of the broker as a step relation over its operations, the invariant
    of its registry, queues and asks, and what follows: an offer goes out only to
    two peers that asked for one another, once per pair of asks, and two peers that
    did ask for one another get theirs. *)

From S2P Require Import Prelude Buffer BufferSpec BufferCodecs ZdtWire InetAddr Admission ZdtOptions ZdtState ZdtServer P2pPunch Traversal TraversalTheorems RendezvousWire Rendezvous.

Import Rendezvous.

(** ** Executions *)

Inductive Event :=
  | EConnect (id : Session) (remote : InetAddress)
  | EDisconnect (id : Session)
  | EGathering (id : Session) (pk : GatheringPacket)
  | EConnectPeer (id : Session) (target : Name)
  | EPairing
  | ETraversal
  | EStop.

(** What has happened, the latest first, each event with what it sent. *)
Definition History : Type := list (Event * list Output).

(** A connect-peer packet of the session for that peer, and the offers sent to it. *)
Definition asks_now (id : Session) (m : Name) (e : Event * list Output) : nat :=
  match e.1 with EConnectPeer i t => if bool_decide (i = id /\ t = m) then 1 else 0 | _ => 0 end.

Definition is_offer (id : Session) (m : Name) (o : Output) : bool :=
  match o with Send i (PPunchOffer p) => bool_decide (i = id /\ offer_peer_ p = m) | _ => false end.

Definition offers_now (id : Session) (m : Name) (e : Event * list Output) : nat :=
  length (List.filter (is_offer id m) e.2).

Definition total (f : Event * list Output -> nat) (h : History) : nat := sum_list_with f h.

Definition asks (h : History) (id : Session) (m : Name) : nat := total (asks_now id m) h.

Definition offers (h : History) (id : Session) (m : Name) : nat := total (offers_now id m) h.

Section Executions.
Context `{P : Platform} `{!AmplePlatform P} `{I : Inet}.

(** A session is connected once; datagrams come from addresses. *)
Inductive rstep (s : Server) : Event -> list Output -> Server -> Prop :=
  | rs_connect id remote : clients_ s !! id = None ->
      rstep s (EConnect id remote) [] (OnConnectEvent id remote s)
  | rs_disconnect id : rstep s (EDisconnect id) [] (OnDisconnectEvent id s)
  | rs_gathering now id pk : rstep s (EGathering id pk) (OnGathering now id pk s).1 (OnGathering now id pk s).2
  | rs_connect_peer now id t : rstep s (EConnectPeer id t) (OnConnectPeer now id t s).1 (OnConnectPeer now id t s).2
  | rs_pairing env out s' : PairingStep env s = Some (out, s') -> rstep s EPairing out s'
  | rs_traversal received now t : traversal_ s = Some t ->
      (forall data from, received = Received data (Some from) -> address_ok from) ->
      rstep s ETraversal [] (set_traversal (Some (Loop received now t).2) s)
  | rs_stop : rstep s EStop [] (RendezvousServer_Stop s).

Inductive rreachable (cfg : Config) : History -> Server -> Prop :=
  | rr_start env s : RendezvousServer_Start env (RendezvousServer_new cfg) = (Success, s) ->
      (traversal_enabled cfg = true -> is_Some (traversal_local env)) -> rreachable cfg [] s
  | rr_step h s e out s' : rreachable cfg h s -> rstep s e out s' -> rreachable cfg ((e, out) :: h) s'.

(** ** The invariant *)

Definition pending (s : Server) (id : Session) (m : Name) : bool :=
  match clients_ s !! id with Some d => bool_decide (m ∈ pending_targets d) | None => false end.

Definition queued (s : Server) : list (Session * Name) := connect_peer_queue_ s ++ local_connect_q (batch s).

(** [id] is registered under [n]. *)
Definition known (s : Server) (n : Name) (id : Session) : Prop :=
  registry_ s !! n = Some id /\ exists d, clients_ s !! id = Some d /\ peer_name d = n.

Definition registry_ok (s : Server) : Prop :=
  forall n id, registry_ s !! n = Some id -> n <> [] /\ exists d, clients_ s !! id = Some d /\ peer_name d = n.

Record rv_ok (s : Server) : Prop := {
  rv_registry : registry_ok s;
  rv_unnamed : forall id d, clients_ s !! id = Some d -> peer_name d = [] -> pending_targets d = ∅;
  rv_queued : forall id m, (id, m) ∈ queued s -> is_Some (clients_ s !! id);
  rv_mutual : forall n1 n2 id1 id2, registry_ s !! n1 = Some id1 -> registry_ s !! n2 = Some id2 -> n1 <> n2 ->
    pending s id1 n2 = true -> pending s id2 n1 = true -> (id1, n2) ∈ queued s \/ (id2, n1) ∈ queued s
}.

(** What a change of one client's data that is not about asks leaves alone. *)
Definition same_asks (d d' : ClientData) : Prop := peer_name d' = peer_name d /\ pending_targets d' = pending_targets d.

Lemma pending_insert s id d m k : pending (set_clients (<[id := d]> (clients_ s)) s) k m =
  if decide (id = k) then bool_decide (m ∈ pending_targets d) else pending s k m.
Proof.
  unfold pending. cbn. case_decide as E; [subst; by rewrite lookup_insert_eq|by rewrite lookup_insert_ne].
Qed.

Lemma AllowRequest_same now id d cfg : same_asks d (AllowRequest now id d cfg).1.2.
Proof. unfold AllowRequest. repeat case_match; done. Qed.

Lemma rv_same_asks s id d d' : rv_ok s -> clients_ s !! id = Some d -> same_asks d d' ->
  rv_ok (set_clients (<[id := d']> (clients_ s)) s).
Proof.
  intros [Hr Hu Hq Hm] Hd [En Ep].
  assert (Hpend : forall k m, pending (set_clients (<[id := d']> (clients_ s)) s) k m = pending s k m).
  { intros k m. rewrite pending_insert. case_decide as E; [|done]. subst. unfold pending. by rewrite Hd, Ep. }
  split; unfold registry_ok; cbn.
  - intros n k H. destruct (Hr n k H) as (Hne & d0 & Hd0 & E0). split; [done|]. destruct (decide (id = k)) as [<-|].
    + exists d'. rewrite lookup_insert_eq. split; [done|]. congruence.
    + exists d0. by rewrite lookup_insert_ne.
  - intros k d0 [ [<- <-]|[_ H] ]%lookup_insert_Some E; [|by apply (Hu k d0)]. rewrite Ep. apply (Hu id); congruence.
  - intros k m H. apply lookup_insert_is_Some'. right. exact (Hq k m H).
  - intros n1 n2 id1 id2 H1 H2 Hne. rewrite !Hpend. by apply Hm.
Qed.

(** The invariant speaks of the registry, the clients and the asks under way. *)
Lemma rv_ext s s' : registry_ s' = registry_ s -> clients_ s' = clients_ s ->
  (forall x, x ∈ queued s <-> x ∈ queued s') -> rv_ok s -> rv_ok s'.
Proof.
  intros Er Ec Eq [Hr Hu Hq Hm]. assert (Ep : forall id m, pending s' id m = pending s id m) by (intros; unfold pending; by rewrite Ec).
  split; unfold registry_ok; rewrite ?Er, ?Ec; try done.
  - intros id m H%Eq. by apply (Hq id m).
  - intros n1 n2 id1 id2 H1 H2 Hne. rewrite !Ep, <- !Eq. by apply Hm.
Qed.

Lemma connect_event_ok id remote s : rv_ok s -> clients_ s !! id = None -> rv_ok (OnConnectEvent id remote s).
Proof.
  intros [Hr Hu Hq Hm] Hid.
  assert (Hpend : forall k m, pending (OnConnectEvent id remote s) k m = pending s k m).
  { intros k m. unfold pending. cbn. destruct (decide (id = k)) as [<-|]; [by rewrite lookup_insert_eq, Hid|by rewrite lookup_insert_ne]. }
  split; unfold registry_ok; cbn [OnConnectEvent set_queues set_clients registry_ clients_].
  - intros n k H. destruct (Hr n k H) as (Hne & d & Hd & E). split; [done|]. exists d. rewrite lookup_insert_ne by congruence. done.
  - intros k d [ [<- <-]|[_ H] ]%lookup_insert_Some E; [done|by apply (Hu k d)].
  - intros k m H. apply lookup_insert_is_Some'. right. exact (Hq k m H).
  - intros n1 n2 id1 id2 H1 H2 Hne. rewrite !Hpend. by apply Hm.
Qed.

Lemma disconnect_event_ok id s : rv_ok s -> rv_ok (OnDisconnectEvent id s).
Proof. intros H. unfold OnDisconnectEvent. repeat case_match; try done. by eapply rv_ext; [..|exact H]. Qed.

Lemma gathering_ok now id pk s : rv_ok s -> rv_ok (OnGathering now id pk s).2.
Proof.
  intros H. unfold OnGathering. destruct (clients_ s !! id) as [d|] eqn:Hd; [|done].
  pose proof (AllowRequest_same now id d (config_ s)) as Ha. destruct (AllowRequest now id d (config_ s)) as [ [allowed d'] out]. cbn in *.
  eapply rv_same_asks; [done|done|]. by destruct allowed.
Qed.

(** What an ask does: nothing to the asks, or one more of them. *)
Lemma OnConnectPeer_cases now id t s :
  (OnConnectPeer now id t s).2 = s \/
  exists d d', clients_ s !! id = Some d /\ same_asks d d' /\
    ((OnConnectPeer now id t s).2 = set_clients (<[id := d']> (clients_ s)) s \/
     peer_name d <> [] /\
     (OnConnectPeer now id t s).2 = set_queues (welcome_queue_ s) ((id, t) :: connect_peer_queue_ s) (clear_queue_ s)
       (set_clients (<[id := set_pending ({[t]} ∪ pending_targets d) d']> (clients_ s)) s)).
Proof.
  unfold OnConnectPeer. destruct (clients_ s !! id) as [d|] eqn:Hd; [|by left]. right.
  pose proof (AllowRequest_same now id d (config_ s)) as Ha. destruct (AllowRequest now id d (config_ s)) as [ [allowed d'] out]. cbn in Ha.
  exists d, d'. split; [done|]. split; [done|]. destruct Ha as [En Ep].
  destruct allowed; cbn [negb orb]; [|by left]. destruct (bool_decide_reflect (peer_name d' = [])); [by left|].
  right. split; [congruence|]. by rewrite Ep.
Qed.

Lemma OnConnectPeer_closes now id t s : forall o, o ∈ (OnConnectPeer now id t s).1 -> o = CloseSession id.
Proof.
  unfold OnConnectPeer, AllowRequest. intros o. repeat case_match; simplify_eq; cbn; rewrite ?list_elem_of_singleton; try done; by intros ?%not_elem_of_nil.
Qed.

Lemma connect_peer_ok now id t s : rv_ok s -> rv_ok (OnConnectPeer now id t s).2.
Proof.
  intros H. destruct (OnConnectPeer_cases now id t s) as [->|(d & d' & Hd & Hs & [->|[Hn ->] ])]; [done|by eapply rv_same_asks|].
  pose proof (rv_same_asks s id d d' H Hd Hs) as [Hr Hu Hq Hm]. destruct Hs as [En Ep]. destruct H as [Hr0 _ Hq0 Hm0].
  set (s1 := set_queues _ _ _ _).
  assert (Hpend : forall k m, pending s1 k m = true -> pending s k m = true \/ (k, m) = (id, t)).
  { intros k m. unfold pending, s1. cbn. destruct (decide (id = k)) as [<-|]; [|rewrite lookup_insert_ne by done; by left].
    rewrite lookup_insert_eq, Hd. cbn. rewrite !bool_decide_eq_true. intros [->%elem_of_singleton|?]%elem_of_union; [by right|by left]. }
  assert (Hin : forall x, x ∈ queued s1 <-> x = (id, t) \/ x ∈ queued s) by (intros x; unfold queued; cbn; by rewrite elem_of_cons).
  split; unfold registry_ok; cbn [s1 set_queues set_clients registry_ clients_].
  - intros n k H0. destruct (Hr0 n k H0) as (Hne & d0 & Hd0 & E0). split; [done|]. destruct (decide (id = k)) as [<-|].
    + eexists. rewrite lookup_insert_eq. split; [done|]. cbn. congruence.
    + exists d0. by rewrite lookup_insert_ne.
  - intros k d0 [ [<- <-]|[Hk H0] ]%lookup_insert_Some E; [cbn in E; congruence|]. apply (Hu k d0); [|done]. cbn. by rewrite lookup_insert_ne.
  - intros k m [ [= -> ->]|H0]%Hin; apply lookup_insert_is_Some'; [by left|right; exact (Hq0 k m H0)].
  - intros n1 n2 id1 id2 H1 H2 Hne [P1|[= -> ->] ]%Hpend; [|intros _; left; apply Hin; by left].
    intros [P2|[= -> ->] ]%Hpend; [|right; apply Hin; by left]. rewrite !Hin. destruct (Hm0 n1 n2 id1 id2); auto.
Qed.

Lemma clear_ok n s : rv_ok s -> rv_ok (set_registry (delete n (registry_ s)) s).
Proof.
  intros [Hr Hu Hq Hm]. split; unfold registry_ok; cbn; try done.
  - intros m k [_ H]%lookup_delete_Some. by apply Hr.
  - intros n1 n2 id1 id2 [_ H1]%lookup_delete_Some [_ H2]%lookup_delete_Some. by apply Hm.
Qed.

Lemma search_name_free more : forall draws registry, search_name more draws registry <> [] ->
  registry !! search_name more draws registry = None.
Proof.
  induction more as [|more IH]; intros draws registry; cbn; destruct (bool_decide_reflect (registry !! draws O = None)); try done. apply IH.
Qed.

Lemma welcome_ok draws id s : rv_ok s -> rv_ok (Welcome draws id s).2.
Proof.
  intros H. unfold Welcome. destruct (clients_ s !! id) as [d|] eqn:Hd; [|done].
  destruct (bool_decide_reflect (peer_name d = [])) as [En|]; cbn [negb]; [|done].
  pose proof (rv_unnamed s H id d Hd En) as Hp. pose proof (search_name_free 5000 draws (registry_ s)) as Hfree.
  fold (GenerateUniqueName draws s) in Hfree. set (n := GenerateUniqueName draws s) in *.
  set (s0 := set_clients (<[id := set_name n d]> (clients_ s)) s).
  assert (Hreg : forall m, registry_ s !! m = Some id -> False).
  { intros m Hm. destruct (rv_registry s H m id Hm) as (Hne & d0 & Hd0 & E0). congruence. }
  assert (Hpend : forall k m, pending s0 k m = pending s k m).
  { intros k m. unfold s0. rewrite pending_insert. case_decide as E; [|done]. subst k. unfold pending. by rewrite Hd. }
  assert (Hnone : forall m, pending s id m = false) by (intros m; unfold pending; rewrite Hd, Hp; by apply bool_decide_eq_false_2).
  destruct H as [Hr Hu Hq Hm].
  destruct (bool_decide_reflect (n = [])) as [E|Hne]; cbn [snd]; split; unfold registry_ok; cbn [s0 set_registry set_clients registry_ clients_].
  1, 5: intros m k Hk; try (apply lookup_insert_Some in Hk as [ [<- <-]|[_ Hk] ]; [split; [done|]; eexists; by rewrite lookup_insert_eq|]);
    destruct (Hr m k Hk) as (? & d0 & ? & ?); split; [done|]; exists d0; rewrite lookup_insert_ne; [done|]; intros <-; by eapply Hreg.
  1, 4: intros k d0 [ [<- <-]|[_ Hk] ]%lookup_insert_Some; [done|by apply (Hu k d0)].
  1, 3: intros k m Hk; apply lookup_insert_is_Some'; right; exact (Hq k m Hk).
  all: intros n1 n2 id1 id2 H1 H2 Hne'.
  - rewrite !Hpend. by apply Hm.
  - change (pending s0 id1 n2 = true -> pending s0 id2 n1 = true -> (id1, n2) ∈ queued s \/ (id2, n1) ∈ queued s). rewrite !Hpend.
    apply lookup_insert_Some in H1 as [ [<- <-]|[_ H1] ]; [by rewrite Hnone|].
    apply lookup_insert_Some in H2 as [ [<- <-]|[_ H2] ]; [by rewrite Hnone|]. by apply Hm.
Qed.

(** ** One ask worked through *)

Lemma set_traversal_id s : set_traversal (traversal_ s) s = s.
Proof. by destruct s. Qed.

(** The relayed candidate of a pairing: the broker's own endpoint. *)
Definition relay_shape (s : Server) (relayed : option Candidate) : Prop :=
  relayed = None \/ exists a token, relayed = Some (mkCandidate Relayed (Some a) token) /\ TraversalEndpoint s = Some a.

Lemma allocate_relayed_spec env s relayed s' : allocate_relayed env s = Some (relayed, s') ->
  (exists t, s' = set_traversal t s) /\ relay_shape s relayed.
Proof.
  unfold allocate_relayed, relay_shape.
  assert (Hs : exists t, s = set_traversal t s) by (exists (traversal_ s); by rewrite set_traversal_id).
  destruct (traversal_ s) as [t|]; [|intros [= <- <-]; split; [done|by left] ].
  destruct (t_relay t) as [r|]; [|intros [= <- <-]; split; [done|by left] ].
  destruct (negb _); [intros [= <- <-]; split; [done|by left]|].
  destruct (Relay.Allocate _ _ _ r) as [ [ [res [ [c tok]|] ] r']|]; cbn; [|intros [= <- <-]; split; [by eexists|by left]|done].
  destruct (TraversalEndpoint s) as [a|]; [|done]. intros [= <- <-]. split; [by eexists|]. right. by exists a, tok.
Qed.

Definition asker (target : Name) (d : ClientData) : ClientData :=
  set_paired ({[target]} ∪ paired_with d) (set_pending (pending_targets d ∖ {[target]}) d).

Definition pair_up (id other : Session) (target : Name) (d od : ClientData) (s : Server) : Server :=
  set_clients (<[other := asker (peer_name d) od]> (<[id := asker target d]> (clients_ s))) s.

Definition offer (env : PairEnv) (s : Server) (peer : ClientData) (relayed : option Candidate) : RPacket :=
  PPunchOffer (mkPunchOffer (peer_name peer) (drawn_punch_id env) (punch_connection_type (config_ s)) (OfferCandidates peer relayed)).

(** Both asks are there. *)
Record mutual (s : Server) (id other : Session) (target : Name) (d od : ClientData) : Prop := {
  mu_asker : clients_ s !! id = Some d;
  mu_asked : target ∈ pending_targets d;
  mu_other : registry_ s !! target = Some other;
  mu_not_self : target <> peer_name d;
  mu_client : clients_ s !! other = Some od;
  mu_back : peer_name d ∈ pending_targets od
}.

Inductive pair_case (env : PairEnv) (id : Session) (target : Name) (s : Server) : list Output -> Server -> Prop :=
  | pc_done d : clients_ s !! id = Some d -> target ∉ pending_targets d -> pair_case env id target s [] s
  | pc_missing d : clients_ s !! id = Some d -> target ∈ pending_targets d ->
      target = peer_name d \/ registry_ s !! target = None ->
      pair_case env id target s [Send id (PPeerNotFound target)]
        (set_clients (<[id := set_pending (pending_targets d ∖ {[target]}) d]> (clients_ s)) s)
  | pc_waiting d other od out : clients_ s !! id = Some d -> target ∈ pending_targets d -> registry_ s !! target = Some other ->
      clients_ s !! other = Some od -> peer_name d ∉ pending_targets od ->
      out = [] \/ out = [Send other (PRepunchRequest (peer_name d))] -> pair_case env id target s out s
  | pc_paired d other od relayed t : mutual s id other target d od -> relay_shape s relayed ->
      pair_case env id target s [Send id (offer env s od relayed); Send other (offer env s d relayed)]
        (set_traversal t (pair_up id other target d od s)).

Lemma TryPair_cases env id target s out s' : TryPair env id target s = Some (out, s') -> pair_case env id target s out s'.
Proof.
  unfold TryPair. destruct (clients_ s !! id) as [d|] eqn:Hd; [|done]. cbn.
  destruct (bool_decide_reflect (target ∉ pending_targets d)) as [Hn|Hin%dec_stable]; [intros [= <- <-]; by eapply pc_done|].
  destruct (bool_decide_reflect (target = peer_name d)) as [Hself|Hself]; cbn.
  { intros [= <- <-]. eapply pc_missing; eauto. }
  destruct (registry_ s !! target) as [other|] eqn:Ho; [|intros [= <- <-]; eapply pc_missing; eauto].
  destruct (clients_ s !! other) as [od|] eqn:Hod; [|done]. cbn.
  destruct (bool_decide_reflect (peer_name d ∉ pending_targets od)) as [Hw|Hb%dec_stable].
  { intros [= <- <-]. eapply pc_waiting; eauto. case_match; auto. }
  destruct (allocate_relayed env _) as [ [relayed s1]|] eqn:Ea; [|done]. cbn. intros [= <- <-].
  apply allocate_relayed_spec in Ea as [ [t ->] Hrs].
  apply (pc_paired env id target s d other od relayed t); [by split|exact Hrs].
Qed.

Lemma pending_pair_up id other target d od s k m t : id <> other -> mutual s id other target d od ->
  pending (set_traversal t (pair_up id other target d od s)) k m =
  pending s k m && negb (bool_decide ((k, m) = (id, target))) && negb (bool_decide ((k, m) = (other, peer_name d))).
Proof.
  intros Hne [Hd Ha Ho Hs Hod Hb]. unfold pending, pair_up. cbn.
  destruct (decide (other = k)) as [<-|Hk]; [rewrite lookup_insert_eq, Hod|rewrite lookup_insert_ne by done; destruct (decide (id = k)) as [<-|Hk'];
    [rewrite lookup_insert_eq, Hd|rewrite lookup_insert_ne by done] ]; cbn.
  - rewrite (bool_decide_eq_false_2 ((other, m) = (id, target))) by congruence. rewrite andb_true_r.
    apply eq_true_iff_eq. rewrite andb_true_iff, negb_true_iff, bool_decide_eq_false, !bool_decide_eq_true. set_solver.
  - rewrite (bool_decide_eq_false_2 ((id, m) = (other, _))) by congruence. rewrite andb_true_r.
    apply eq_true_iff_eq. rewrite andb_true_iff, negb_true_iff, bool_decide_eq_false, !bool_decide_eq_true. set_solver.
  - rewrite !(bool_decide_eq_false_2 ((k, m) = _)) by congruence. by rewrite !andb_true_r.
Qed.

Lemma mutual_distinct s id other target d od : registry_ok s -> mutual s id other target d od -> id <> other /\ peer_name od = target.
Proof.
  intros H [Hd Ha Ho Hs Hod Hb]. destruct (H target other Ho) as (_ & d0 & Hd0 & E). split; [|congruence].
  intros ->. congruence.
Qed.

(** Working through the ask at the front of the batch. *)
Lemma try_pair_ok env id target connect s out s' : rv_ok s -> batch s = mkBatch [] [] ((id, target) :: connect) ->
  pair_case env id target (set_batch (mkBatch [] [] connect) s) out s' -> rv_ok s'.
Proof.
  intros Hs Hb Hcase. pose proof Hs as [Hr Hu Hq Hm]. set (s1 := set_batch _ s) in *.
  assert (Hin : forall x, x ∈ queued s <-> x = (id, target) \/ x ∈ queued s1).
  { intros x. unfold queued. rewrite Hb. cbn. rewrite !elem_of_app, elem_of_cons. tauto. }
  assert (Hq1 : forall k m, (k, m) ∈ queued s1 -> is_Some (clients_ s1 !! k)) by (intros k m H; apply (Hq k m), Hin; by right).
  (* a pair of asks that are both still there did not wait for this one *)
  assert (Hkeep : forall n1 n2 id1 id2, registry_ s !! n1 = Some id1 -> registry_ s !! n2 = Some id2 -> n1 <> n2 ->
    pending s id1 n2 = true -> pending s id2 n1 = true -> (id1, n2) <> (id, target) -> (id2, n1) <> (id, target) ->
    (id1, n2) ∈ queued s1 \/ (id2, n1) ∈ queued s1).
  { intros n1 n2 id1 id2 H1 H2 Hne P1 P2 N1 N2. destruct (Hm n1 n2 id1 id2 H1 H2 Hne P1 P2) as [?%Hin|?%Hin]; tauto. }
  destruct Hcase as [d Hd Hn|d Hd Ha Hnone|d other od out Hd Ha Ho Hod Hn _|d other od relayed t Hmu _].
  - split; try done. intros n1 n2 id1 id2 H1 H2 Hne P1 P2. apply Hkeep; try done; intros [= -> ->];
      unfold pending in P1, P2; cbn in *; rewrite Hd in *; rewrite bool_decide_eq_true in *; done.
  - assert (Hpend : forall k m, pending (set_clients (<[id := set_pending (pending_targets d ∖ {[target]}) d]> (clients_ s1)) s1) k m = true ->
      pending s k m = true /\ (k, m) <> (id, target)).
    { intros k m. rewrite pending_insert. case_decide as E; [subst k|by intros; split; [|congruence] ].
      unfold pending. cbn in *. rewrite Hd, !bool_decide_eq_true. set_solver. }
    split; unfold registry_ok; cbn [set_clients registry_ clients_].
    + intros n k H. destruct (Hr n k H) as (Hne & d0 & Hd0 & E0). split; [done|]. destruct (decide (id = k)) as [<-|].
      * eexists. rewrite lookup_insert_eq. split; [done|]. cbn in *. congruence.
      * exists d0. by rewrite lookup_insert_ne.
    + intros k d0 [ [<- <-]|[_ H] ]%lookup_insert_Some E; [|by apply (Hu k d0)]. cbn in *. rewrite (Hu id d Hd E) in Ha. set_solver.
    + intros k m H. apply lookup_insert_is_Some'. right. exact (Hq1 k m H).
    + intros n1 n2 id1 id2 H1 H2 Hne [P1 N1]%Hpend [P2 N2]%Hpend. by apply Hkeep.
  - split; try done. intros n1 n2 id1 id2 H1 H2 Hne P1 P2.
    assert (Hno : forall n n' k, registry_ s !! n = Some id -> registry_ s !! target = Some k -> pending s k n = true -> n' = n -> False).
    { intros n n' k Hk Hk' Hp _. cbn in *. rewrite Hk' in Ho. injection Ho as ->. destruct (Hr n id Hk) as (_ & d0 & Hd0 & E0).
      assert (d0 = d) as -> by congruence. unfold pending in Hp. rewrite Hod, bool_decide_eq_true in Hp. congruence. }
    apply Hkeep; try done; intros [= -> ->]; by eapply Hno.
  - destruct (mutual_distinct s id other target d od Hr) as [Hdist Ename]; [by destruct Hmu|].
    pose proof (fun k m => pending_pair_up id other target d od s1 k m t Hdist Hmu) as Hpend. destruct Hmu as [Hd Ha Ho Hself Hod Hback].
    split; unfold registry_ok; cbn [set_traversal pair_up set_clients registry_ clients_].
    + intros n k H. destruct (Hr n k H) as (Hne & d0 & Hd0 & E0). split; [done|]. cbn in *.
      destruct (decide (other = k)) as [<-|]; [eexists; rewrite lookup_insert_eq; split; [done|]; cbn; congruence|].
      rewrite lookup_insert_ne by done. destruct (decide (id = k)) as [<-|]; [eexists; rewrite lookup_insert_eq; split; [done|]; cbn; congruence|].
      exists d0. by rewrite lookup_insert_ne.
    + cbn in *. intros k d0 [ [<- <-]|[_ [ [<- <-]|[_ H] ]%lookup_insert_Some] ]%lookup_insert_Some E; cbn in *; [| |by apply (Hu k d0)].
      * rewrite (Hu other od Hod E) in Hback. set_solver.
      * rewrite (Hu id d Hd E) in Ha. set_solver.
    + intros k m H. apply lookup_insert_is_Some'. right. apply lookup_insert_is_Some'. right. exact (Hq1 k m H).
    + intros n1 n2 id1 id2 H1 H2 Hne. rewrite !Hpend, !andb_true_iff, !negb_true_iff, !bool_decide_eq_false. intros [ [P1 N1] _] [ [P2 N2] _]. by apply Hkeep.
Qed.

(** ** Every step *)

Lemma PairingStep_cases env s out s' : PairingStep env s = Some (out, s') ->
  out = [] /\ registry_ s' = registry_ s /\ clients_ s' = clients_ s /\ (forall x, x ∈ queued s <-> x ∈ queued s') \/
  (exists n, out = [] /\ clients_ s' = clients_ s /\ registry_ s' = delete n (registry_ s) /\ queued s' = queued s) \/
  (exists draws id s1, registry_ s1 = registry_ s /\ clients_ s1 = clients_ s /\ queued s1 = queued s /\ (out, s') = Welcome draws id s1) \/
  (exists id target connect, batch s = mkBatch [] [] ((id, target) :: connect) /\
     pair_case (pair_env env) id target (set_batch (mkBatch [] [] connect) s) out s').
Proof.
  unfold PairingStep. destruct (exited s); [intros [= <- <-]; by left|].
  destruct (batch s) as [ [|n clear] [|id welcome] [|[id' target] connect] ] eqn:Eb; try (intros [= <- <-]; right; left; exists n; unfold queued; cbn; by rewrite Eb).
  - destruct (stop_ s); intros [= <- <-]; left; unfold queued; cbn; rewrite Eb; cbn; [done|]. by rewrite app_nil_r.
  - intros H%TryPair_cases. do 3 right. by exists id', target, connect.
  - intros H. right. right. left. eexists _, _, _. split_and!; [..|injection H as H; exact (eq_sym H)]; try done. unfold queued; cbn. by rewrite Eb.
  - intros H. right. right. left. eexists _, _, _. split_and!; [..|injection H as H; exact (eq_sym H)]; try done. unfold queued; cbn. by rewrite Eb.
Qed.

Lemma rv_fields s1 s : registry_ s1 = registry_ s -> clients_ s1 = clients_ s -> queued s1 = queued s -> rv_ok s -> rv_ok s1.
Proof. intros ? ? E. by apply rv_ext; [| |intros; rewrite E]. Qed.

Lemma pairing_ok env s out s' : rv_ok s -> PairingStep env s = Some (out, s') -> rv_ok s'.
Proof.
  intros Hs [(_ & ? & ? & ?)|[(n & _ & Ec & Er & Eq)|[(draws & id & s1 & Er & Ec & Eq & E)|(id & target & connect & Hb & Hc)] ] ]%PairingStep_cases.
  - by eapply rv_ext.
  - eapply (rv_fields s' (set_registry (delete n (registry_ s)) s)); [done..|]. by apply clear_ok.
  - change s' with (out, s').2. rewrite E. by apply welcome_ok, (rv_fields s1 s).
  - by eapply try_pair_ok.
Qed.

Lemma rstep_ok s e out s' : rv_ok s -> rstep s e out s' -> rv_ok s'.
Proof.
  intros Hs. destruct 1; [by apply connect_event_ok|by apply disconnect_event_ok|by apply gathering_ok|by apply connect_peer_ok|
    by eapply pairing_ok|by apply (rv_fields _ s)|by apply (rv_fields _ s)].
Qed.

Lemma start_link_fields env s s' : start_link env s = (Success, s') ->
  registry_ s' = registry_ s /\ clients_ s' = clients_ s /\ connect_peer_queue_ s' = connect_peer_queue_ s /\ batch s' = Batch_empty /\
  traversal_ s' = traversal_ s /\ traversal_host_ s' = traversal_host_ s /\ config_ s' = config_ s.
Proof.
  unfold start_link. case_match eqn:E; [intros [= <-]; by split_and!|]. intros [= H _]. by rewrite H in E.
Qed.

Lemma Start_cases env cfg s : RendezvousServer_Start env (RendezvousServer_new cfg) = (Success, s) ->
  registry_ s = ∅ /\ clients_ s = ∅ /\ connect_peer_queue_ s = [] /\ batch s = Batch_empty /\ config_ s = cfg /\
  (traversal_ s = None \/ traversal_enabled cfg = true /\ is_Some (traversal_host_ s) /\ exists t,
     traversal_ s = Some t /\ Traversal_Start (traversal_address env) (traversal_opened env) (traversal_bound env)
       (traversal_local env) (started_at env) (TraversalServer_new (traversal_config cfg)) = (Success, t)).
Proof.
  unfold RendezvousServer_Start. cbn [RendezvousServer_new config_]. destruct (traversal_enabled cfg).
  - destruct (host_resolved env) as [host|]; [|done]. destruct (negb (is_valid host) || _); [done|].
    destruct (Traversal_Start (traversal_address env) (traversal_opened env) (traversal_bound env)
       (traversal_local env) (started_at env) (TraversalServer_new (traversal_config cfg))) as [res t]. destruct (bool_decide_reflect (res = Success)) as [->|Hres]; [|by intros [=] ].
    intros (-> & -> & -> & -> & -> & -> & ->)%start_link_fields. split_and!; try done. right. split; [done|]. split; [by eexists|]. by exists t.
  - intros (-> & -> & -> & -> & -> & -> & ->)%start_link_fields. split_and!; try done. by left.
Qed.

Lemma start_ok env cfg s : RendezvousServer_Start env (RendezvousServer_new cfg) = (Success, s) -> rv_ok s.
Proof.
  intros (Er & Ec & Eq & Eb & _)%Start_cases. split; unfold registry_ok, queued; rewrite ?Er, ?Ec, ?Eq, ?Eb; try (intros ? ?; by rewrite lookup_empty).
  by intros ? ? ?%not_elem_of_nil.
Qed.

Lemma rreachable_ok cfg h s : rreachable cfg h s -> rv_ok s.
Proof. induction 1; [by eapply start_ok|by eapply rstep_ok]. Qed.

(** ** The ledger of asks and offers *)

(** A step pays an offer with an ask that was pending, or just came. *)
Definition settles (s : Server) (e : Event) (out : list Output) (s' : Server) : Prop :=
  forall id m, (offers_now id m (e, out) + Nat.b2n (pending s' id m) <= Nat.b2n (pending s id m) + asks_now id m (e, out))%nat.

Lemma settles_quiet s e out s' : (forall id m, List.filter (is_offer id m) out = []) -> (forall id m, pending s' id m = pending s id m) ->
  settles s e out s'.
Proof. intros Ho Hp id m. unfold offers_now. cbn. rewrite Ho, Hp. cbn. lia. Qed.

Lemma pending_same_asks s id d d' k m : clients_ s !! id = Some d -> same_asks d d' ->
  pending (set_clients (<[id := d']> (clients_ s)) s) k m = pending s k m.
Proof. intros Hd [_ Ep]. rewrite pending_insert. case_decide as E; [|done]. subst. unfold pending. by rewrite Hd, Ep. Qed.

Lemma gathering_settles now id pk s : settles s (EGathering id pk) (OnGathering now id pk s).1 (OnGathering now id pk s).2.
Proof.
  apply settles_quiet; intros k m; unfold OnGathering; destruct (clients_ s !! id) as [d|] eqn:Hd; try done.
  - unfold AllowRequest. repeat case_match; by simplify_eq.
  - pose proof (AllowRequest_same now id d (config_ s)) as Ha. destruct (AllowRequest now id d (config_ s)) as [ [allowed d'] out]. cbn in *.
    eapply pending_same_asks; [done|]. by destruct allowed.
Qed.

Lemma connect_peer_settles now id t s : settles s (EConnectPeer id t) (OnConnectPeer now id t s).1 (OnConnectPeer now id t s).2.
Proof.
  assert (Ho : forall k m, List.filter (is_offer k m) (OnConnectPeer now id t s).1 = []).
  { intros k m. pose proof (OnConnectPeer_closes now id t s) as H. induction (OnConnectPeer now id t s).1 as [|o out IH]; [done|].
    cbn. rewrite (H o) by left. apply IH. intros o' Ho'. apply H. by right. }
  destruct (OnConnectPeer_cases now id t s) as [E|(d & d' & Hd & Hs & [E|[Hn E] ])].
  - apply settles_quiet; [done|]. by rewrite E.
  - apply settles_quiet; [done|]. intros. rewrite E. by eapply pending_same_asks.
  - intros k m. unfold offers_now, asks_now. cbn [fst snd]. rewrite Ho, E. unfold pending. cbn.
    destruct (decide (id = k)) as [<-|Hk]; [|rewrite lookup_insert_ne by done; lia]. rewrite lookup_insert_eq, Hd. cbn.
    destruct (decide (t = m)) as [<-|Hm]; [rewrite (bool_decide_eq_true_2 (id = id /\ t = t)) by done; case_bool_decide; cbn; lia|].
    rewrite (bool_decide_ext (m ∈ {[t]} ∪ pending_targets d) (m ∈ pending_targets d)) by set_solver. lia.
Qed.

Lemma welcome_settles draws id s : settles s EPairing (Welcome draws id s).1 (Welcome draws id s).2.
Proof.
  unfold Welcome. destruct (clients_ s !! id) as [d|] eqn:Hd; [|by apply settles_quiet]. destruct (negb _); [by apply settles_quiet|].
  generalize (GenerateUniqueName draws s). intros n.
  assert (Hp : forall k m, pending (set_clients (<[id := set_name n d]> (clients_ s)) s) k m = pending s k m).
  { intros k m. rewrite pending_insert. case_decide as E; [|done]. subst. unfold pending. by rewrite Hd. }
  case_match; apply settles_quiet; done.
Qed.

Lemma try_pair_settles env id target s out s' : registry_ok s -> pair_case env id target s out s' -> settles s EPairing out s'.
Proof.
  intros Hs [d Hd Hn|d Hd Ha Hnone|d other od out' Hd Ha Ho Hod Hn Eo|d other od relayed t Hmu _].
  - by apply settles_quiet.
  - intros k m. unfold offers_now. cbn. rewrite pending_insert. case_decide as E; [subst k|lia]. unfold pending. rewrite Hd. cbn.
    repeat case_bool_decide; cbn; try lia. set_solver.
  - apply settles_quiet; [|done]. by destruct Eo as [->| ->].
  - destruct (mutual_distinct s id other target d od Hs Hmu) as [Hdist Ename]. intros k m. rewrite pending_pair_up by done.
    destruct Hmu as [Hd Ha Ho Hself Hod Hb]. unfold offers_now, offer. cbn. rewrite Ename.
    assert (P1 : pending s id target = true) by (unfold pending; rewrite Hd; by apply bool_decide_eq_true).
    assert (P2 : pending s other (peer_name d) = true) by (unfold pending; rewrite Hod; by apply bool_decide_eq_true).
    destruct (decide ((k, m) = (id, target))) as [ [= -> ->]|N1].
    + rewrite P1, (bool_decide_eq_true_2 (id = id /\ _)), (bool_decide_eq_false_2 (other = id /\ _)), (bool_decide_eq_true_2 ((id, target) = (id, target))) by naive_solver. done.
    + rewrite (bool_decide_eq_false_2 (id = k /\ _)), (bool_decide_eq_false_2 ((k, m) = (id, target))) by naive_solver.
      destruct (decide ((k, m) = (other, peer_name d))) as [ [= -> ->]|N2].
      * rewrite P2, (bool_decide_eq_true_2 (other = other /\ _)), (bool_decide_eq_true_2 ((other, _) = _)) by done. done.
      * rewrite (bool_decide_eq_false_2 (other = k /\ _)), (bool_decide_eq_false_2 ((k, m) = _)) by naive_solver. cbn. rewrite !andb_true_r. lia.
Qed.

Lemma rstep_settles s e out s' : rv_ok s -> rstep s e out s' -> settles s e out s'.
Proof.
  intros Hs. destruct 1 as [id remote Hid|id|now id pk|now id t|env out s' E|received now t Ht _|].
  - apply settles_quiet; [done|]. intros k m. unfold pending. cbn. destruct (decide (id = k)) as [<-|]; [|by rewrite lookup_insert_ne].
    rewrite lookup_insert_eq, Hid. cbn. by rewrite bool_decide_eq_false_2.
  - apply settles_quiet; [done|]. intros k m. unfold OnDisconnectEvent. by repeat case_match.
  - apply gathering_settles.
  - apply connect_peer_settles.
  - apply PairingStep_cases in E as [(-> & _ & Ec & _)|[(n & -> & Ec & _)|[(draws & id & s1 & _ & Ec & _ & E)|(id & target & connect & Hb & Hc)] ] ].
    1, 2: apply settles_quiet; [done|]; intros k m; unfold pending; by rewrite Ec.
    + pose proof (welcome_settles draws id s1) as H. rewrite <- E in H. intros k m. specialize (H k m). cbn [fst snd] in H.
      unfold pending in *. by rewrite Ec in H.
    + eapply (try_pair_settles _ id target (set_batch (mkBatch [] [] connect) s)) in Hc; [exact Hc|]. exact (rv_registry s Hs).
  - by apply settles_quiet.
  - by apply settles_quiet.
Qed.

Lemma ledger cfg h s id m : rreachable cfg h s -> (offers h id m + Nat.b2n (pending s id m) <= asks h id m)%nat.
Proof.
  intros Hr. induction Hr as [env s E _|h s e out s' Hr IH Hst].
  - apply Start_cases in E as (_ & Ec & _). unfold pending. by rewrite Ec, lookup_empty.
  - pose proof (rstep_settles s e out s' (rreachable_ok _ _ _ Hr) Hst id m) as H. unfold offers, asks, total in *. cbn [sum_list_with]. lia.
Qed.

(** ** What an offer holds *)

(** The address the link shows, at the port the client says it punches from. *)
Definition observed (d : ClientData) : Candidate :=
  mkCandidate Reflexive (Some (if c_punch_port d =? 0 then session_remote d else WithPort (session_remote d) (c_punch_port d))) 0.

Record offered_of (d : ClientData) (relayed : option Candidate) (cs : list Candidate) : Prop := {
  of_cap : (length cs <= kMaxCandidates)%nat;
  of_direct : exists first direct, cs = (first :: direct) ++ option_list relayed /\ c_type first = Reflexive /\
    Forall (fun c => c_type c <> Relayed /\ (c ∈ c_candidates d \/ c = observed d)) (first :: direct)
}.

Lemma add_hosts_spec (Pr : Candidate -> Prop) cs : forall out, Forall Pr out -> Forall (fun c => c_type c = Host -> Pr c) cs ->
  exists more, foldl (fun out c => match c_address c with
      | Some a => if bool_decide (c_type c = Host) && negb (ContainsAddress out a) then out ++ [c] else out
      | None => out end) out cs = out ++ more /\ Forall Pr more.
Proof.
  induction cs as [|c cs IH]; intros out Ho Hcs; cbn [foldl]; [exists []; by rewrite app_nil_r|].
  inversion Hcs as [|? ? Hc Hcs']; subst. destruct (c_address c) as [a|]; [|by apply IH].
  destruct (bool_decide_reflect (c_type c = Host)) as [Eh|]; cbn [andb]; [|by apply IH]. destruct (negb _); [|by apply IH].
  destruct (IH (out ++ [c])) as (more & E & Hm); [by apply Forall_app; auto|done|].
  exists (c :: more). split; [rewrite E; by rewrite <- app_assoc|]. constructor; auto.
Qed.

Lemma OfferCandidates_ok d relayed : offered_of d relayed (OfferCandidates d relayed).
Proof.
  set (Pr := fun c => c_type c <> Relayed /\ (c ∈ c_candidates d \/ c = observed d)).
  assert (Hfirst : exists first rest, c_type first = Reflexive /\ Forall Pr (first :: rest) /\
    (let out := List.filter (fun c => bool_decide (c_type c = Reflexive)) (c_candidates d) in
     if bool_decide (out = []) then [observed d] else out) = first :: rest).
  { cbn zeta. destruct (List.filter _ (c_candidates d)) as [|c out] eqn:Ef.
    - exists (observed d), []. split; [done|]. split; [constructor; [split; [done|by right]|constructor]|done].
    - exists c, out. assert (Hall : Forall (fun c => c_type c = Reflexive /\ c ∈ c_candidates d) (c :: out)).
      { apply Forall_forall. intros x Hx. rewrite <- Ef in Hx. apply list_elem_of_In, List.filter_In in Hx as [Hx Ht].
        split; [by apply bool_decide_eq_true in Ht|by apply list_elem_of_In]. }
      split; [by inversion Hall as [|? ? [? ?] ?]; subst|]. split; [|done].
      eapply Forall_impl; [exact Hall|]. intros x [Ht Hx]. split; [congruence|by left]. }
  destruct Hfirst as (first & rest & Ht & Hok & E). unfold OfferCandidates. fold (observed d). cbn zeta in E. rewrite E.
  destruct (add_hosts_spec Pr (c_candidates d) (first :: rest) Hok) as (more & -> & Hm).
  { apply Forall_forall. intros x Hx Eh. split; [congruence|by left]. }
  split.
  - rewrite length_app, length_take. unfold kMaxCandidates; destruct relayed; cbn [length]; lia.
  - exists first, (take (match relayed with Some _ => 30 | None => 31 end) (rest ++ more)). split; [by destruct relayed|]. split; [done|].
    apply Forall_cons in Hok as [Hf Hr]. constructor; [done|]. apply Forall_take, Forall_app. auto.
Qed.

(** [C10] An offer pairs two peers that asked for one another: whenever the pairing
    thread sends one, in any execution of the broker, it sends exactly two, one to
    each of two different clients, each of which had the other's name among its
    asks; both asks are consumed.  The two offers name one another, share the punch
    id and the transport, and hold at most 32 candidates: the peer's own (or the
    address the broker sees it at when it reported none), reflexive first, and last
    the relayed one, the same for both and only ever the broker's own. *)
Theorem offers_pair_mutual_asks (cfg : Config) (h : History) (s s' : Server) (env : StepEnv) (out : list Output)
  (to : Session) (o : PunchOfferPacket)
  (Hreach : rreachable cfg h s) (Hstep : PairingStep env s = Some (out, s')) (Hin : Send to (PPunchOffer o) ∈ out) :
  exists a b da db relayed ca cb, a <> b /\
    clients_ s !! a = Some da /\ clients_ s !! b = Some db /\ registry_ s !! peer_name db = Some b /\
    peer_name db ∈ pending_targets da /\ peer_name da ∈ pending_targets db /\
    pending s' a (peer_name db) = false /\ pending s' b (peer_name da) = false /\
    (let id := drawn_punch_id (pair_env env) in let t := punch_connection_type (config_ s) in
     out = [Send a (PPunchOffer (mkPunchOffer (peer_name db) id t ca)); Send b (PPunchOffer (mkPunchOffer (peer_name da) id t cb))]) /\
    offered_of db relayed ca /\ offered_of da relayed cb /\ relay_shape s relayed.
Proof.
  pose proof (rreachable_ok _ _ _ Hreach) as Hs.
  apply PairingStep_cases in Hstep as [(-> & _)|[(n & -> & _)|[(draws & id & s1 & _ & _ & _ & E)|(id & target & connect & Hb & Hc)] ] ];
    try by apply not_elem_of_nil in Hin.
  - exfalso. apply (f_equal fst) in E. cbn [fst] in E. subst out. revert Hin. unfold Welcome.
    generalize (GenerateUniqueName draws s1). intros n. repeat case_match; cbn; rewrite ?list_elem_of_singleton; try done; by intros ?%not_elem_of_nil.
  - destruct Hc as [d Hd Hn|d Hd Ha Hnone|d other od out' Hd Ha Ho Hod Hn Eo|d other od relayed t Hmu Hrs].
    1: by apply not_elem_of_nil in Hin.
    1: by apply list_elem_of_singleton in Hin.
    1: by destruct Eo as [->| ->]; [apply not_elem_of_nil in Hin|apply list_elem_of_singleton in Hin].
    destruct (mutual_distinct _ _ _ _ _ _ (rv_registry s Hs : registry_ok (set_batch (mkBatch [] [] connect) s)) Hmu) as [Hdist Ename].
    pose proof (fun k m => pending_pair_up id other target d od _ k m t Hdist Hmu) as Hp. subst target.
    destruct Hmu as [Hd Ha Ho Hself Hod Hbk]. exists id, other, d, od, relayed, (OfferCandidates od relayed), (OfferCandidates d relayed).
    split_and!; try done; [rewrite Hp|rewrite Hp|apply OfferCandidates_ok|apply OfferCandidates_ok].
    + by rewrite (bool_decide_eq_true_2 ((id, _) = (id, _))), !andb_false_r.
    + by rewrite (bool_decide_eq_true_2 ((other, _) = (other, _))), !andb_false_r.
Qed.

(** No peer is offered what it did not ask for: in every execution of the
    broker a session is sent at most as many offers for a peer name as it sent asks
    for it; an ask still pending has brought no offer. *)
Theorem offers_within_asks (cfg : Config) (h : History) (s : Server) (id : Session) (m : Name)
  (Hreach : rreachable cfg h s) :
  (offers h id m <= asks h id m)%nat /\ (pending s id m = true -> (offers h id m < asks h id m)%nat).
Proof. pose proof (ledger cfg h s id m Hreach) as H. split; [lia|]. intros E. rewrite E in H. cbn in H. lia. Qed.

(** [C25] The broker's state stays well formed: in every execution the registry maps
    non-empty names to clients that have that name, a client without a name has no
    asks, the queued asks belong to clients there are, and two registered clients
    that ask for one another always have an ask of theirs on its way to the pairing
    thread, so none is lost. *)
Theorem broker_invariant (cfg : Config) (h : History) (s : Server) (Hreach : rreachable cfg h s) : rv_ok s.
Proof. by eapply rreachable_ok. Qed.

End Executions.
