(* ===== verification/RendezvousLiveness.v ===== *)
(** * The broker makes progress

    The pairing thread's steps return, work the queues off, and bring two peers that
    asked for one another their offers; and a client that leaves before it is named
    stays registered. *)

From S2P Require Import Prelude Buffer BufferSpec BufferCodecs ZdtWire InetAddr Admission ZdtOptions ZdtState ZdtServer P2pPunch Traversal TraversalTheorems RendezvousWire Rendezvous RendezvousTheorems.

Import Rendezvous.

(** Distinct guids, more than the relay can have tokens in use. *)
Definition supplies (cap : Z) (env : StepEnv) : Prop :=
  NoDup (guids (pair_env env)) /\ ~ (0 ∈ guids (pair_env env)) /\ Z.max 0 cap < zlen (guids (pair_env env)).

(** ** The relay has a token to give *)

Lemma fresh_token_returns seen r draws : relay_ok seen r -> NoDup draws -> ~ (0 ∈ draws) ->
  Z.max 0 (max_allocations (Relay.config_ r)) < zlen draws -> is_Some (Relay.fresh_token draws (Relay.channels_by_token_ r)).
Proof.
  intros Hr Hnd H0 HL. unfold Relay.fresh_token. destruct (List.find _ draws) eqn:E; [by eexists|exfalso].
  assert (Hin : forall t, t ∈ draws -> t ∈ Relay.token <$> (map_to_list (Relay.pairings_ r)).*2).
  { intros t Ht. pose proof (List.find_none _ _ E t) as Hf. rewrite <- list_elem_of_In in Hf. specialize (Hf Ht).
    apply negb_false_iff, orb_true_iff in Hf as [->%Z.eqb_eq|[c Hc]%bool_decide_eq_true]; [done|].
    destruct (rl_back _ _ Hr t c Hc) as (p & Hp & <-). apply list_elem_of_fmap. exists p. split; [done|].
    apply list_elem_of_fmap. exists (c, p). split; [done|]. by apply elem_of_map_to_list. }
  apply (NoDup_submseteq _ _ Hnd), submseteq_length in Hin. rewrite !length_fmap in Hin.
  pose proof (rl_size _ _ Hr) as Hs. rewrite <- length_map_to_list in Hs. lia.
Qed.

Lemma Allocate_returns seen r draws now : relay_ok seen r -> NoDup draws -> ~ (0 ∈ draws) ->
  Z.max 0 (max_allocations (Relay.config_ r)) < zlen draws -> max_allocations (Relay.config_ r) <= kZDTMaxRelayChannel ->
  is_Some (Relay.Allocate (S (size (Relay.pairings_ r))) draws now r).
Proof.
  intros Hr Hnd H0 HL Hcap. unfold Relay.Allocate. destruct (negb _); [by eexists|].
  destruct (Z.leb_spec (max_allocations (Relay.config_ r)) (Z.of_nat (size (Relay.pairings_ r)))); [by eexists|].
  destruct (free_channel_returns (Relay.next_channel_ r) (Relay.pairings_ r) (rl_next _ _ Hr) ltac:(lia)) as (c & -> & _).
  destruct (fresh_token_returns seen r draws Hr Hnd H0 HL) as [t ->]. by eexists.
Qed.

Section Progress.
Context `{P : Platform} `{!AmplePlatform P} `{I : Inet}.

(** A relay keeps the configuration it was made with. *)
Definition configured (cfg : TraversalServerConfig) (t : TraversalServer) : Prop :=
  forall r, t_relay t = Some r -> Relay.config_ r = relay_config cfg.

Lemma OnForward_config c data from now r : Relay.config_ (Relay.OnForward c data from now r).2 = Relay.config_ r.
Proof. unfold Relay.OnForward. by repeat case_match. Qed.

Lemma OnBind_config data from now r : Relay.config_ (Relay.OnBind data from now r).2 = Relay.config_ r.
Proof. unfold Relay.OnBind. by repeat case_match. Qed.

Lemma Expire_config now r : Relay.config_ (Relay.Expire now r) = Relay.config_ r.
Proof.
  unfold Relay.Expire. generalize (map_to_list (Relay.pairings_ r)) as l. intros l. revert r.
  induction l as [|e l IH]; intros r; [done|]. cbn [foldl]. rewrite IH. case_match; [apply Release_config|done].
Qed.

Lemma classify_kept cfg data from now t : configured cfg t ->
  configured cfg (classify data from now t).2 /\ t_address (classify data from now t).2 = t_address t.
Proof.
  intros Hc. unfold classify.
  assert (Hrelay : forall f, (forall r, Relay.config_ (f r).2 = Relay.config_ r) -> let r := match t_relay t with
      | Some r => let '(out, r) := f r in
                  (out, mkTraversal (t_config t) (t_reflector t) (Some r) (t_running t) (t_address t) (last_sweep t))
      | None => ([] : list Sent, t) end in configured cfg r.2 /\ t_address r.2 = t_address t).
  { intros f Hf. cbn zeta. destruct (t_relay t) as [r|] eqn:Er; [|done]. specialize (Hf r). destruct (f r) as [out r']. cbn in *.
    split; [|done]. intros ? [= <-]. rewrite Hf. by apply Hc. }
  destruct (ReadRelayHeader data); [apply (Hrelay (Relay.OnForward _ data from now)); intros; apply OnForward_config|].
  destruct (bool_decide _); [apply (Hrelay (Relay.OnBind data from now)); intros; apply OnBind_config|]. destruct (bool_decide _); [|done].
  destruct (t_reflector t) as [th|]; [|done]. by destruct (OnReflect now data from th).
Qed.

Lemma Loop_kept cfg received now t : configured cfg t ->
  configured cfg (Loop received now t).2 /\ t_address (Loop received now t).2 = t_address t.
Proof.
  intros Hc. unfold Loop.
  assert (H : forall x : list Sent * TraversalServer, configured cfg x.2 -> t_address x.2 = t_address t ->
    configured cfg (let '(out, s) := x in (out, sweep now s)).2 /\ t_address (let '(out, s) := x in (out, sweep now s)).2 = t_address t).
  { intros [out s] Hs Ea. cbn in *. unfold sweep. destruct (t_relay s) as [r|] eqn:Er; [|done]. case_match; [|done]. cbn.
    split; [|done]. intros ? [= <-]. rewrite Expire_config. by apply Hs. }
  destruct received as [| |data [from|] ]; try by apply (H ([], t)). destruct (bool_decide _); [by apply (H ([], t))|].
  destruct (classify_kept cfg (cut data) from now t Hc). by apply (H (classify _ _ _ _)).
Qed.

(** ** What the broker's relay is *)

Record fit (cfg : Config) (s : Server) : Prop := {
  fit_config : config_ s = cfg;
  fit_traversal : forall t, traversal_ s = Some t -> is_Some (t_address t) /\ is_Some (traversal_host_ s) /\
    configured (traversal_config cfg) t /\ exists seen, traversal_reachable (traversal_config cfg) seen t
}.

Lemma fit_ext cfg s s' : config_ s' = config_ s -> traversal_ s' = traversal_ s -> traversal_host_ s' = traversal_host_ s -> fit cfg s -> fit cfg s'.
Proof. intros E1 E2 E3 [H1 H2]. split; [congruence|]. by rewrite E2, E3. Qed.

Lemma allocate_relayed_fit cfg env s relayed s' : fit cfg s -> allocate_relayed env s = Some (relayed, s') -> fit cfg s'.
Proof.
  intros [E H]. unfold allocate_relayed. destruct (traversal_ s) as [t|] eqn:Et; [|intros [= <- <-]; split; [done|by rewrite Et] ].
  destruct (H t eq_refl) as (Ha & Hh & Hc & seen & Hr).
  assert (Hsame : fit cfg s) by (split; [done|]; rewrite Et; intros ? [= <-]; split_and!; eauto).
  destruct (t_relay t) as [r|] eqn:Er; [|by intros [= <- <-] ]. case_match; [by intros [= <- <-]|].
  destruct (Relay.Allocate _ _ _ r) as [ [ [res alloc] r']|] eqn:Ea; [|done]. cbn.
  assert (Hnew : fit cfg (set_traversal (Some (with_relay r' t)) s)).
  { split; [done|]. cbn. intros ? [= <-]. split_and!; try done.
    - intros ? [= <-]. cbn. rewrite <- (Hc r Er). unfold Relay.Allocate in Ea. repeat (case_match; simplify_eq; try done).
      revert Ea. destruct (Relay.free_channel _ _ _); [|done]. cbn. destruct (Relay.fresh_token _ _); [|done]. cbn. by intros [= _ _ <-].
    - exists seen. eapply tr_step; [exact Hr|]. by eapply ts_allocate. }
  destruct alloc as [ [c tok]|]; [destruct (TraversalEndpoint s); [|done]|]; by intros [= <- <-].
Qed.

Lemma TryPair_fit cfg env id target s out s' : fit cfg s -> TryPair env id target s = Some (out, s') -> fit cfg s' /\ stop_ s' = stop_ s.
Proof.
  intros Hf. unfold TryPair. destruct (clients_ s !! id) as [d|]; [|done]. cbn. case_match; [by intros [= <- <-]|].
  destruct (if bool_decide _ then _ else _) as [other|]; [|intros [= <- <-]; split; [by eapply fit_ext; [..|exact Hf]|done] ].
  destruct (clients_ s !! other) as [od|]; [|done]. cbn. case_match; [by intros [= <- <-]|].
  destruct (allocate_relayed env _) as [ [relayed s1]|] eqn:Ea; [|done]. cbn. intros [= <- <-]. split.
  - eapply allocate_relayed_fit; [|exact Ea]. by eapply fit_ext; [..|exact Hf].
  - by apply allocate_relayed_spec in Ea as [ [t ->] _].
Qed.

Lemma Welcome_fields draws id s : let s' := (Welcome draws id s).2 in
  config_ s' = config_ s /\ traversal_ s' = traversal_ s /\ traversal_host_ s' = traversal_host_ s /\ stop_ s' = stop_ s /\
  exited s' = exited s /\ batch s' = batch s /\ welcome_queue_ s' = welcome_queue_ s /\
  connect_peer_queue_ s' = connect_peer_queue_ s /\ clear_queue_ s' = clear_queue_ s.
Proof. cbn zeta. unfold Welcome. generalize (GenerateUniqueName draws s). intros n. by repeat case_match. Qed.

Lemma PairingStep_fit cfg env s out s' : fit cfg s -> PairingStep env s = Some (out, s') -> fit cfg s' /\ stop_ s' = stop_ s.
Proof.
  intros Hf. unfold PairingStep. destruct (exited s); [by intros [= <- <-]|].
  destruct (batch s) as [ [|n clear] [|id welcome] [|[id' target] connect] ];
    try (intros [= <- <-]; split; [by eapply fit_ext; [..|exact Hf]|done]).
  - destruct (stop_ s) eqn:Es; intros [= <- <-]; (split; [by eapply fit_ext; [..|exact Hf]|done]).
  - intros H. eapply (TryPair_fit cfg) in H; [done|]. by eapply fit_ext; [..|exact Hf].
  - intros [= H]. destruct (Welcome_fields (name_draws env) id (set_batch (mkBatch [] welcome []) s)) as (E1 & E2 & E3 & E4 & _). rewrite H in *. cbn in *.
    split; [by eapply fit_ext; [..|exact Hf]|done].
  - intros [= H]. destruct (Welcome_fields (name_draws env) id (set_batch (mkBatch [] welcome ((id', target) :: connect)) s)) as (E1 & E2 & E3 & E4 & _). rewrite H in *. cbn in *.
    split; [by eapply fit_ext; [..|exact Hf]|done].
Qed.

Lemma Traversal_Stop_fit cfg s : fit cfg s -> fit cfg (RendezvousServer_Stop s).
Proof.
  intros [E H]. split; [done|]. cbn. intros t' Ht. apply fmap_Some in Ht as (t & Et & ->).
  destruct (H t Et) as (Ha & Hh & Hc & seen & Hr). split; [unfold Traversal_Stop; by case_match|]. split; [done|]. split.
  - unfold Traversal_Stop. case_match; [done|]. intros r' Hr'. cbn in Hr'. apply fmap_Some in Hr' as (r & Er & ->). exact (Hc r Er).
  - exists seen. eapply tr_step; [exact Hr|]. apply ts_stop.
Qed.

Lemma start_fit env cfg s : RendezvousServer_Start env (RendezvousServer_new cfg) = (Success, s) ->
  (traversal_enabled cfg = true -> is_Some (traversal_local env)) -> fit cfg s.
Proof.
  intros (_ & _ & _ & _ & Ec & [Et|(Hen & Hh & t & Et & E)])%Start_cases Hl; (split; [done|]); rewrite Et; [done|].
  intros ? [= <-]. split_and!; [|done| |].
  - specialize (Hl Hen). unfold Traversal_Start in E. repeat (case_match; simplify_eq; try done).
  - intros r Hr. unfold Traversal_Start in E. repeat (case_match; simplify_eq; try done). cbn in Hr.
    destruct (enable_relay _); cbn in Hr; by simplify_eq.
  - exists []. eapply tr_step; [apply tr_new|]. change t with (Success, t).2. rewrite <- E. apply ts_start.
Qed.

Lemma rstep_fit cfg s e out s' : fit cfg s -> rstep s e out s' -> fit cfg s'.
Proof.
  intros Hf. destruct 1 as [id remote Hid|id|now id pk|now id t|env out s' E|received now t Ht Hfrom|].
  - by eapply fit_ext; [..|exact Hf].
  - unfold OnDisconnectEvent. repeat case_match; try done; by eapply fit_ext; [..|exact Hf].
  - unfold OnGathering. repeat case_match; try done; by eapply fit_ext; [..|exact Hf].
  - unfold OnConnectPeer. repeat case_match; try done; by eapply fit_ext; [..|exact Hf].
  - by eapply PairingStep_fit.
  - destruct Hf as [Ec H]. split; [done|]. cbn. intros ? [= <-]. destruct (H t Ht) as (Ha & Hh & Hc & seen & Hr).
    destruct (Loop_kept _ received now t Hc) as [Hk ->]. split_and!; try done. destruct received as [| |data [from|] ].
    3: { eexists. eapply tr_step; [exact Hr|]. apply ts_datagram. by eapply Hfrom. }
    all: exists seen; eapply tr_step; [exact Hr|]; by apply ts_quiet.
  - by apply Traversal_Stop_fit.
Qed.

Lemma rreachable_fit cfg h s : rreachable cfg h s -> fit cfg s.
Proof. induction 1; [by eapply start_fit|by eapply rstep_fit]. Qed.

(** ** Steps return *)

Definition relay_cap (cfg : Config) : Z := max_allocations (relay_config (traversal_config cfg)).

Lemma allocate_relayed_returns cfg env s : fit cfg s -> relay_cap cfg <= kZDTMaxRelayChannel -> supplies (relay_cap cfg) env ->
  is_Some (allocate_relayed (pair_env env) s).
Proof.
  intros [_ H] Hcap (Hnd & H0 & HL). unfold allocate_relayed. destruct (traversal_ s) as [t|] eqn:Et; [|by eexists].
  destruct (H t eq_refl) as ([a Ha] & [ho Hh] & Hc & seen & Hr). destruct (t_relay t) as [r|] eqn:Er; [|by eexists]. case_match; [by eexists|].
  pose proof (traversal_reachable_ok _ _ _ Hr r Er) as Hok. specialize (Hc r Er).
  destruct (Allocate_returns seen r (guids (pair_env env)) (pair_now (pair_env env)) Hok Hnd H0) as [ [ [res alloc] r'] ->]; [by rewrite Hc|by rewrite Hc|].
  cbn. destruct alloc as [ [c tok]|]; [|by eexists]. unfold TraversalEndpoint. rewrite Et. cbn. rewrite Ha. cbn. rewrite Hh. by eexists.
Qed.

Lemma PairingStep_returns cfg env s : rv_ok s -> fit cfg s -> relay_cap cfg <= kZDTMaxRelayChannel -> supplies (relay_cap cfg) env ->
  is_Some (PairingStep env s).
Proof.
  intros Hs Hf Hcap Hsup. unfold PairingStep. destruct (exited s); [by eexists|].
  destruct (batch s) as [ [|n clear] [|id welcome] [|[id' target] connect] ] eqn:Eb; try by eexists.
  - destruct (stop_ s); by eexists.
  - unfold TryPair. cbn. destruct (rv_queued s Hs id' target) as [d ->]; [unfold queued; rewrite Eb; cbn; apply elem_of_app; right; left|]. cbn.
    case_match; [by eexists|]. case_match eqn:Eo; [|by eexists]. case_match; [done|].
    destruct (rv_registry s Hs target s0 Eo) as (_ & od & -> & _). cbn. case_match; [by eexists|].
    match goal with |- context [allocate_relayed (pair_env env) ?x] => destruct (allocate_relayed_returns cfg env x) as [ [relayed s1] ->] end;
      [by eapply fit_ext; [..|exact Hf]|done|done|]. by eexists.
Qed.

Fixpoint run (envs : list StepEnv) (s : Server) : option (list Output * Server) :=
  match envs with
  | [] => Some ([], s)
  | env :: envs =>
      '(out, s) ← PairingStep env s;
      '(out', s) ← run envs s;
      Some (out ++ out', s)
  end.

Lemma run_returns cfg envs : forall s, rv_ok s -> fit cfg s -> relay_cap cfg <= kZDTMaxRelayChannel ->
  Forall (supplies (relay_cap cfg)) envs -> is_Some (run envs s).
Proof.
  induction envs as [|env envs IH]; intros s Hs Hf Hcap Hsup; [by eexists|]. inversion Hsup as [|? ? He Hes]; subst.
  destruct (PairingStep_returns cfg env s Hs Hf Hcap He) as [ [out s1] E]. cbn [run]. rewrite E. cbn.
  destruct (PairingStep_fit cfg env s out s1 Hf E) as [Hf1 _]. destruct (IH s1 (pairing_ok env s out s1 Hs E) Hf1 Hcap Hes) as [ [out2 s2] ->]. by eexists.
Qed.

(** ** The queues are worked off *)

Definition batch_size (b : Batch) : nat := length (local_clear_q b) + length (local_welcome_q b) + length (local_connect_q b).

Definition work (s : Server) : nat :=
  batch_size (batch s) + 2 * (length (clear_queue_ s) + length (welcome_queue_ s) + length (connect_peer_queue_ s)).

Lemma TryPair_fields env id target s out s' : TryPair env id target s = Some (out, s') ->
  batch s' = batch s /\ welcome_queue_ s' = welcome_queue_ s /\ connect_peer_queue_ s' = connect_peer_queue_ s /\
  clear_queue_ s' = clear_queue_ s /\ registry_ s' = registry_ s /\ exited s' = exited s.
Proof. by intros []%TryPair_cases. Qed.

Lemma PairingStep_work env s out s' : PairingStep env s = Some (out, s') -> exited s = false -> stop_ s = false ->
  exited s' = false /\ (work s' < work s \/ work s = 0)%nat.
Proof.
  unfold PairingStep, work. intros H He Hst. rewrite He, Hst in H.
  destruct (batch s) as [ [|n clear] [|id welcome] [|[id' target] connect] ] eqn:Eb; try (injection H as <- <-; cbn; split; [done|unfold batch_size; cbn; lia]).
  - apply TryPair_fields in H as (-> & -> & -> & -> & _ & ->). cbn. split; [done|]. unfold batch_size. cbn. lia.
  - injection H as H. destruct (Welcome_fields (name_draws env) id (set_batch (mkBatch [] welcome []) s)) as (_ & _ & _ & _ & E5 & E6 & E7 & E8 & E9).
    rewrite H in E5, E6, E7, E8, E9. cbn in *. rewrite E5, E6, E7, E8, E9. split; [done|]. unfold batch_size. cbn. lia.
  - injection H as H. destruct (Welcome_fields (name_draws env) id (set_batch (mkBatch [] welcome ((id', target) :: connect)) s)) as (_ & _ & _ & _ & E5 & E6 & E7 & E8 & E9).
    rewrite H in E5, E6, E7, E8, E9. cbn in *. rewrite E5, E6, E7, E8, E9. split; [done|]. unfold batch_size. cbn. lia.
Qed.

(** ** A name and who holds it *)

(** What losing asks cannot give a client. *)
Definition fading (Q : ClientData -> Prop) : Prop := forall d d', pending_targets d' ⊆ pending_targets d -> Q d' -> Q d.

(** The client has an ask for [m]. *)
Definition asking (m : Name) (d : ClientData) : Prop := m ∈ pending_targets d.

Lemma asking_fading m : fading (asking m).
Proof. unfold fading, asking. set_solver. Qed.

(** [id] is registered under [n] and nobody is about to clear it; of the clients that
    ever had the name, the departed ones among them, no other is [Q]. *)
Record holds_name (Q : ClientData -> Prop) (s : Server) (n : Name) (id : Session) : Prop := {
  hn_known : registry_ s !! n = Some id;
  hn_sole : forall k d, clients_ s !! k = Some d -> peer_name d = n -> Q d -> k = id;
  hn_clear : n ∉ clear_queue_ s ++ local_clear_q (batch s)
}.

Lemma holds_ext Q s s' n id : registry_ s' !! n = registry_ s !! n -> clear_queue_ s' ++ local_clear_q (batch s') ⊆ clear_queue_ s ++ local_clear_q (batch s) ->
  (forall k d, clients_ s' !! k = Some d -> peer_name d = n -> Q d -> exists d0, clients_ s !! k = Some d0 /\ peer_name d0 = n /\ Q d0) ->
  holds_name Q s n id -> holds_name Q s' n id.
Proof.
  intros Er Eq Ec [Hk Hs Hc]. split; [congruence| |by intros ?%Eq]. intros k d Hd En Hq. destruct (Ec k d Hd En Hq) as (d0 & Hd0 & E0 & Hq0). by eapply Hs.
Qed.

Lemma insert_names (Q : ClientData -> Prop) (m : gmap Session ClientData) id d d' n k x : m !! id = Some d -> peer_name d' = peer_name d -> (Q d' -> Q d) ->
  <[id := d']> m !! k = Some x -> peer_name x = n -> Q x -> exists d0, m !! k = Some d0 /\ peer_name d0 = n /\ Q d0.
Proof. intros Hd E Hq [ [<- <-]|[_ H] ]%lookup_insert_Some En Hx; [exists d; split_and!; [congruence|congruence|by apply Hq]|by exists x]. Qed.

Lemma Welcome_holds Q draws i s n id : rv_ok s -> holds_name Q s n id -> holds_name Q (Welcome draws i s).2 n id.
Proof.
  intros Hs Hh. destruct (Welcome_fields draws i s) as (_ & _ & _ & _ & _ & Eb & _ & _ & Ecl).
  assert (Hn : n <> []) by (by apply (rv_registry s Hs n id), (hn_known Q)).
  unfold Welcome in *. destruct (clients_ s !! i) as [d|] eqn:Hd; [|done]. destruct (bool_decide_reflect (peer_name d = [])) as [En|]; cbn [negb] in *; [|done].
  pose proof (search_name_free 5000 draws (registry_ s)) as Hfree. fold (GenerateUniqueName draws s) in Hfree.
  revert Hfree Eb Ecl. generalize (GenerateUniqueName draws s). intros m Hfree Eb Ecl.
  assert (Hm : m <> [] -> m <> n) by (intros Hne ->; specialize (Hfree Hne); destruct Hh; congruence).
  assert (Hc : forall k x, <[i := set_name m d]> (clients_ s) !! k = Some x -> peer_name x = n -> Q x -> exists d0, clients_ s !! k = Some d0 /\ peer_name d0 = n /\ Q d0).
  { intros k x [ [<- <-]|[_ H] ]%lookup_insert_Some Ex Hq; [|by exists x]. cbn in Ex. subst m. destruct (decide (n = [])); [done|]. by apply Hm in n0. }
  destruct (bool_decide_reflect (m = [])) as [->|Hne]; (eapply holds_ext; [| |exact Hc|exact Hh]); cbn [snd set_clients set_registry registry_ clear_queue_ batch]; try done.
  by rewrite lookup_insert_ne by auto.
Qed.

Lemma pair_case_holds Q env i target s out s' n id : fading Q -> pair_case env i target s out s' -> holds_name Q s n id -> holds_name Q s' n id.
Proof.
  intros HQ Hc Hh. destruct Hc as [d Hd Hn|d Hd Ha Hnone|d other od out Hd Ha Ho Hod Hn _|d other od relayed t [Hd Ha Ho Hself Hod Hb] _]; try done.
  - eapply holds_ext; [..|exact Hh]; try done. intros k x Hx Ex Hq. eapply (insert_names Q (clients_ s) i d); [done| | |exact Hx|exact Ex|exact Hq]; [done|].
    apply HQ. cbn. set_solver.
  - eapply holds_ext; [..|exact Hh]; try done. cbn. intros k x [ [<- <-]|[_ Hx] ]%lookup_insert_Some Ex Hq.
    { exists od. split_and!; [done|done|]. revert Hq. apply HQ. cbn. set_solver. }
    eapply (insert_names Q (clients_ s) i d); [done| | |exact Hx|exact Ex|exact Hq]; [done|]. apply HQ. cbn. set_solver.
Qed.

Lemma PairingStep_holds Q env s out s' n id : fading Q -> rv_ok s -> PairingStep env s = Some (out, s') -> holds_name Q s n id -> holds_name Q s' n id.
Proof.
  unfold PairingStep. intros HQ Hs H Hh. destruct (exited s); [by injection H as <- <-|].
  destruct (batch s) as [ [|m clear] [|i welcome] [|[i' target] connect] ] eqn:Eb.
  all: try (injection H as <- <-; assert (m <> n) by (intros ->; destruct Hh as [_ _ Hc]; rewrite Eb in Hc; cbn in Hc; set_solver);
    eapply holds_ext; [..|exact Hh]; cbn; rewrite ?lookup_delete_ne, ?Eb by done; cbn; set_solver).
  - destruct (stop_ s); injection H as <- <-; (eapply holds_ext; [..|exact Hh]); cbn; rewrite ?Eb, ?app_nil_r; cbn; try done; set_solver.
  - apply TryPair_cases in H. eapply pair_case_holds; [exact HQ|exact H|]. eapply holds_ext; [..|exact Hh]; cbn; rewrite ?Eb; set_solver.
  - injection H as H. change s' with (out, s').2. rewrite <- H. apply Welcome_holds; [by apply (rv_fields _ s); [..|unfold queued; cbn; rewrite Eb|]|].
    eapply holds_ext; [..|exact Hh]; cbn; rewrite ?Eb; set_solver.
  - injection H as H. change s' with (out, s').2. rewrite <- H. apply Welcome_holds; [by apply (rv_fields _ s); [..|unfold queued; cbn; rewrite Eb|]|].
    eapply holds_ext; [..|exact Hh]; cbn; rewrite ?Eb; set_solver.
Qed.

(** ** Two peers that asked for one another *)

(** Both are registered, each has the other's name among its asks, and no earlier
    holder of either name still has an ask for the other. *)
Record want (s : Server) (a b : Session) (na nb : Name) : Prop := {
  wa_a : holds_name (asking nb) s na a;
  wa_b : holds_name (asking na) s nb b;
  wa_ne : na <> nb;
  wa_ask : pending s a nb = true;
  wa_back : pending s b na = true
}.

(** The offers of the two, with one punch id. *)
Definition offered (out : list Output) (a b : Session) (na nb : Name) : Prop :=
  exists punch_id t ca cb, Send a (PPunchOffer (mkPunchOffer nb punch_id t ca)) ∈ out /\
    Send b (PPunchOffer (mkPunchOffer na punch_id t cb)) ∈ out.

Lemma pending_data s id d m : clients_ s !! id = Some d -> (pending s id m = true <-> m ∈ pending_targets d).
Proof. intros H. unfold pending. rewrite H. apply bool_decide_eq_true. Qed.

Lemma pending_missing s i target d k m : clients_ s !! i = Some d ->
  pending (set_clients (<[i := set_pending (pending_targets d ∖ {[target]}) d]> (clients_ s)) s) k m =
  pending s k m && negb (bool_decide ((k, m) = (i, target))).
Proof.
  intros Hd. rewrite pending_insert. case_decide as E; [subst k|by rewrite bool_decide_eq_false_2, andb_true_r by congruence].
  unfold pending. rewrite Hd. cbn. apply eq_true_iff_eq. rewrite andb_true_iff, negb_true_iff, bool_decide_eq_false, !bool_decide_eq_true. set_solver.
Qed.

(** An ask other than theirs leaves theirs alone. *)
Lemma pair_case_want env i target s out s' a b na nb : registry_ok s -> pair_case env i target s out s' -> want s a b na nb ->
  want s' a b na nb \/ offered out a b na nb.
Proof.
  intros Hr Hc [Ha Hb Hne Pa Pb]. pose proof (fun m n k => pair_case_holds (asking m) env i target s out s' n k (asking_fading m) Hc) as Hh.
  assert (Hkeep : pending s' a nb = true -> pending s' b na = true -> want s' a b na nb) by (intros; split; auto). clear Hh.
  assert (Hname : forall Q n k x, holds_name Q s n k -> clients_ s !! k = Some x -> peer_name x = n).
  { intros Q n k x [Hk _ _] Hx. destruct (Hr n k Hk) as (_ & d0 & Hd0 & E). congruence. }
  destruct Hc as [d Hd Hn|d Hd Hin Hnone|d other od out Hd Hin Ho Hod Hn _|d other od relayed t Hmu _]; [left; by apply Hkeep| |left; by apply Hkeep|].
  - left. assert (H : forall Q Q' n m k, holds_name Q s n k -> holds_name Q' s m (if decide (k = a) then b else a) -> n <> m -> pending s k m = true -> (k, m) <> (i, target)).
    { intros Q Q' n m k Hk Hm Hnm _ [= -> ->]. destruct Hnone as [->|Hnone]; [|destruct Hm; congruence]. apply Hnm. symmetry. by eapply Hname. }
    assert (Hab : a <> b) by (intros ->; apply Hne; destruct (Hr na b (hn_known _ _ _ _ Ha)) as (_ & x & Hx & <-); by eapply Hname).
    assert (N1 : (a, nb) <> (i, target)) by (apply (H (asking nb) (asking na) na nb a); [done|by rewrite decide_True|done|done]).
    assert (N2 : (b, na) <> (i, target)) by (apply (H (asking na) (asking nb) nb na b); [done|by rewrite decide_False|done|done]).
    apply Hkeep; rewrite (pending_missing s i target d) by done; [rewrite Pa|rewrite Pb]; by rewrite bool_decide_eq_false_2.
  - destruct (mutual_distinct s i other target d od Hr Hmu) as [Hdist Ename]. pose proof (pending_pair_up i other target d od s) as Hp.
    pose proof Hmu as [Hd Hin Ho Hself Hod Hbk].
    destruct (decide ((i, target) = (a, nb))) as [ [= -> ->]|N1].
    { right. assert (other = b) as -> by (destruct Hb; congruence). assert (peer_name d = na) as En by (by eapply Hname).
      exists (drawn_punch_id env), (punch_connection_type (config_ s)), (OfferCandidates od relayed), (OfferCandidates d relayed).
      unfold offer. rewrite En, Ename. split; [left|right; left]. }
    destruct (decide ((i, target) = (b, na))) as [ [= -> ->]|N2].
    { right. assert (other = a) as -> by (destruct Ha; congruence). assert (peer_name d = nb) as En by (by eapply Hname).
      exists (drawn_punch_id env), (punch_connection_type (config_ s)), (OfferCandidates d relayed), (OfferCandidates od relayed).
      unfold offer. rewrite En, Ename. split; [right; left|left]. }
    left. assert (N3 : (other, peer_name d) <> (a, nb)).
    { intros [= -> E]. assert (target = na) as -> by (rewrite <- Ename; by eapply Hname). destruct Hb as [_ Hsole _]. pose proof (Hsole i d Hd E Hin). by subst i. }
    assert (N4 : (other, peer_name d) <> (b, na)).
    { intros [= -> E]. assert (target = nb) as -> by (rewrite <- Ename; by eapply Hname). destruct Ha as [_ Hsole _]. pose proof (Hsole i d Hd E Hin). by subst i. }
    apply Hkeep; rewrite Hp by done; [rewrite Pa|rewrite Pb]; rewrite !bool_decide_eq_false_2 by congruence; done.
Qed.

Lemma want_ext s s' a b na nb : clients_ s' = clients_ s -> (forall m n id, holds_name (asking m) s n id -> holds_name (asking m) s' n id) ->
  want s a b na nb -> want s' a b na nb.
Proof. intros E H []. split; auto; unfold pending in *; by rewrite E. Qed.

Lemma PairingStep_want env s out s' a b na nb : rv_ok s -> PairingStep env s = Some (out, s') -> want s a b na nb ->
  want s' a b na nb \/ offered out a b na nb.
Proof.
  intros Hs H Hw. pose proof (fun m n id => PairingStep_holds (asking m) env s out s' n id (asking_fading m) Hs H) as Hh. pose proof H as Hcase.
  apply PairingStep_cases in Hcase as [(_ & _ & Ec & _)|[(n & _ & Ec & _)|[(draws & id & s1 & _ & Ec & _ & E)|(id & target & connect & Hb & Hc)] ] ].
  - left. by eapply want_ext.
  - left. by eapply want_ext.
  - left. destruct Hw as [Ha Hb Hne Pa Pb].
    assert (Hp : forall k m, pending s' k m = pending s k m).
    { intros k m. apply (f_equal snd) in E. cbn [snd] in E. rewrite E. unfold Welcome. rewrite Ec. destruct (clients_ s !! id) as [d|] eqn:Hd; [|unfold pending; cbn; by rewrite Ec].
      destruct (negb _); [unfold pending; cbn; by rewrite Ec|]. generalize (GenerateUniqueName draws s1). intros x.
      case_match; unfold pending; cbn; (destruct (decide (id = k)) as [<-|]; [by rewrite lookup_insert_eq, Hd|by rewrite lookup_insert_ne]). }
    split; auto; by rewrite Hp.
  - eapply pair_case_want; [|exact Hc|]; [exact (rv_registry s Hs)|]. apply (want_ext s); [done| |exact Hw].
    intros m n k Hk. apply (holds_ext _ s); [done| | |exact Hk]; cbn; rewrite ?Hb; cbn; [set_solver|]. intros j x Hx Ex Hq. by exists x.
Qed.

Lemma run_offers cfg a b na nb envs : forall s, rv_ok s -> fit cfg s -> relay_cap cfg <= kZDTMaxRelayChannel ->
  exited s = false -> stop_ s = false -> Forall (supplies (relay_cap cfg)) envs -> (work s <= length envs)%nat -> want s a b na nb ->
  exists out s', run envs s = Some (out, s') /\ offered out a b na nb.
Proof.
  assert (Hidle : forall s, rv_ok s -> work s = 0%nat -> want s a b na nb -> False).
  { intros s Hs H0 [ [Ha _ _] [Hb _ _] Hne Pa Pb]. destruct (rv_mutual s Hs na nb a b Ha Hb Hne Pa Pb) as [Hin|Hin]; revert Hin;
      unfold queued; unfold work, batch_size in H0; destruct (connect_peer_queue_ s), (local_connect_q (batch s)); cbn in *; try lia; by intros ?%not_elem_of_nil. }
  induction envs as [|env envs IH]; intros s Hs Hf Hcap He Hst Hsup HL Hw; [exfalso; eapply Hidle; [done| |done]; cbn in HL; lia|].
  inversion Hsup as [|? ? Hen Hens]; subst. destruct (PairingStep_returns cfg env s Hs Hf Hcap Hen) as [ [out s1] E]. cbn [run]. rewrite E. cbn.
  destruct (PairingStep_work env s out s1 E He Hst) as [He1 Hwork]. destruct (PairingStep_fit cfg env s out s1 Hf E) as [Hf1 Est].
  pose proof (pairing_ok env s out s1 Hs E) as Hs1. destruct (PairingStep_want env s out s1 a b na nb Hs E Hw) as [Hw1|(i & t & ca & cb & H1 & H2)].
  - destruct (IH s1 Hs1 Hf1 Hcap He1 ltac:(congruence) Hens) as (out' & s2 & -> & i & t & ca & cb & H1 & H2); [|done|].
    { destruct Hwork as [|H0]; [cbn in HL; lia|]. by destruct (Hidle s). }
    exists (out ++ out'), s2. split; [done|]. exists i, t, ca, cb. rewrite !elem_of_app. auto.
  - destruct (run_returns cfg envs s1 Hs1 Hf1 Hcap Hens) as [ [out' s2] ->]. exists (out ++ out'), s2. split; [done|].
    exists i, t, ca, cb. rewrite !elem_of_app. auto.
Qed.

(** [C11] Two peers that ask for one another get their offers: in any state the broker
    can reach, whatever else is queued, if two registered clients each have the
    other's name among their asks, neither is about to be cleared, and no earlier
    holder of either name, departed ones included, still has an ask for the other
    pending, then the pairing thread, left to run for as many steps as there is work,
    returns from every one of them and has sent each of the two an offer for the other,
    with one punch id.  The relay's cap must be within the channel space and the guid
    generator must be able to produce a token that is not in use.  What an earlier
    holder's ask does is [stale_ask_takes_the_offer]. *)
Theorem mutual_asks_get_offers (cfg : Config) (h : History) (s : Server) (envs : list StepEnv) (a b : Session) (na nb : Name)
  (Hreach : rreachable cfg h s) (Hrun : exited s = false) (Hstop : stop_ s = false)
  (Hcap : relay_cap cfg <= kZDTMaxRelayChannel) (Hsup : Forall (supplies (relay_cap cfg)) envs)
  (Hlen : (work s <= length envs)%nat) (Hwant : want s a b na nb) :
  exists out s', run envs s = Some (out, s') /\ offered out a b na nb.
Proof. eapply run_offers; [by eapply rreachable_ok|by eapply rreachable_fit|done..]. Qed.

(** ** An earlier holder's ask *)

(** The ask of a client that has departed still pairs, by its name: where a later
    client has been given the name, the partner's ask goes to the departed one, the
    partner is offered candidates nobody is behind, and the new holder, who asked too,
    is sent nothing. *)
Theorem stale_ask_takes_the_offer (cfg : Config) (h : History) (s s' : Server) (env : StepEnv) (out : list Output) (k a b : Session) (na nb : Name)
  (dk db : ClientData) (connect : list (Session * Name))
  (Hreach : rreachable cfg h s) (Hrun : exited s = false) (Hturn : batch s = mkBatch [] [] ((k, nb) :: connect))
  (Hk : clients_ s !! k = Some dk) (Hname : peer_name dk = na) (Hask : nb ∈ pending_targets dk)
  (Ha : registry_ s !! na = Some a) (Hdeparted : k <> a) (Hb : registry_ s !! nb = Some b) (Hab : a <> b)
  (Hdb : clients_ s !! b = Some db) (Hback : na ∈ pending_targets db)
  (Hstep : PairingStep env s = Some (out, s')) :
  offered out k b na nb /\ pending s' b na = false /\ pending s' a nb = pending s a nb /\ forall pk, Send a pk ∉ out.
Proof.
  pose proof (rreachable_ok _ _ _ Hreach) as Hs. unfold PairingStep in Hstep. rewrite Hrun, Hturn in Hstep. apply TryPair_cases in Hstep.
  set (s0 := set_batch (mkBatch [] [] connect) s) in *.
  assert (registry_ok s0) as Hr by exact (rv_registry s Hs).
  inversion Hstep as [d Hd Hn|d Hd _ Hnone|d other od o Hd _ Ho Hod Hn Hout|d other od relayed t Hmu Hrel]; subst; change (clients_ s0) with (clients_ s) in *; change (registry_ s0) with (registry_ s) in *.
  - by simplify_eq.
  - simplify_eq. destruct Hnone as [->|Hnone]; congruence.
  - by simplify_eq.
  - destruct (mutual_distinct s0 k other nb d od Hr Hmu) as [Hdist Ename]. pose proof (fun i m => pending_pair_up k other nb d od s0 i m t Hdist Hmu) as Hp.
    destruct Hmu as [Hd _ Ho _ Hod _]. change (clients_ s0) with (clients_ s) in *. change (registry_ s0) with (registry_ s) in *. simplify_eq. split_and!.
    + eexists _, _, _, _. unfold offer. split; [left|right; left].
    + rewrite Hp. by rewrite (bool_decide_eq_true_2 ((b, peer_name dk) = (b, peer_name dk))), andb_false_r.
    + rewrite Hp. rewrite !bool_decide_eq_false_2 by congruence. by rewrite !andb_true_r.
    + intros pk. rewrite list_elem_of_In. cbn. intros [E|[E|[] ] ]; congruence.
Qed.

(** ** Leaving early *)

Inductive rsteps (Allowed : Event -> Prop) : Server -> Server -> Prop :=
  | rss_nil s : rsteps Allowed s s
  | rss_step s e out s' s'' : rstep s e out s' -> Allowed e -> rsteps Allowed s' s'' -> rsteps Allowed s s''.

Lemma rstep_holds s e out s' n id : rv_ok s -> rstep s e out s' -> e <> EDisconnect id -> holds_name (fun _ => True) s n id -> holds_name (fun _ => True) s' n id.
Proof.
  intros Hs Hst Hne Hh. assert (Hn : n <> []) by (by apply (rv_registry s Hs n id), (hn_known (fun _ => True))).
  destruct Hst as [k remote Hk|k|now k pk|now k t|env out s' E|received now t Ht _|].
  - eapply holds_ext; [..|exact Hh]; try done. cbn. intros j x [ [<- <-]|[_ Hx] ]%lookup_insert_Some Ex _; [by subst n|by exists x].
  - unfold OnDisconnectEvent. destruct (clients_ s !! k) as [d|] eqn:Hd; [|done]. case_match; [done|].
    assert (peer_name d <> n) by (intros E; apply Hne; f_equal; by eapply hn_sole).
    destruct Hh as [H1 H2 H3]. split; cbn; try done. set_solver.
  - unfold OnGathering. destruct (clients_ s !! k) as [d|] eqn:Hd; [|done].
    pose proof (AllowRequest_same now k d (config_ s)) as [En _]. destruct (AllowRequest now k d (config_ s)) as [ [allowed d'] o]. cbn in *.
    eapply holds_ext; [..|exact Hh]; try done. intros j x Hx Ex _. eapply (insert_names (fun _ => True) (clients_ s) k d); [done| |done|exact Hx|exact Ex|done]. by destruct allowed.
  - destruct (OnConnectPeer_cases now k t s) as [->|(d & d' & Hd & [En _] & [->|[_ ->] ])]; [done|..]; (eapply holds_ext; [..|exact Hh]; try done);
      cbn; intros j x Hx Ex _; by eapply (insert_names (fun _ => True) (clients_ s) k d); [..|exact Hx|exact Ex|done].
  - by apply (PairingStep_holds (fun _ => True) env s out s' n id).
  - apply (holds_ext _ s); [done|done| |done]. intros k x Hx Ex _. by exists x.
  - apply (holds_ext _ s); [done|done| |done]. intros k x Hx Ex _. by exists x.
Qed.

Lemma GenerateUniqueName_batch draws b s : GenerateUniqueName draws (set_batch b s) = GenerateUniqueName draws s.
Proof. done. Qed.

Lemma Welcome_names draws id s d : clients_ s !! id = Some d -> peer_name d = [] -> GenerateUniqueName draws s <> [] ->
  (Welcome draws id s).2 = set_registry (<[GenerateUniqueName draws s := id]> (registry_ s))
    (set_clients (<[id := set_name (GenerateUniqueName draws s) d]> (clients_ s)) s).
Proof.
  intros Hd En. unfold Welcome. rewrite Hd, bool_decide_eq_true_2 by done. cbn [negb]. generalize (GenerateUniqueName draws s). intros n Hn.
  by rewrite bool_decide_eq_false_2.
Qed.

(** A client that leaves before it is named is never cleared: its disconnect
    event changes nothing (the name to clear is still empty), the pairing thread names
    and registers it afterwards, and from then on its entry outlives every execution,
    since only a second disconnect event of that session could clear it.  The name
    is one of 1225. *)
Theorem early_leaver_stays_registered (cfg : Config) (h : History) (s s1 s2 : Server) (id : Session) (d : ClientData)
  (env : StepEnv) (out : list Output) (welcome : list Session) (connect : list (Session * Name))
  (Hreach : rreachable cfg h s) (Hd : clients_ s !! id = Some d) (Hunnamed : peer_name d = [])
  (Hrun : exited s = false) (Hturn : batch s = mkBatch [] (id :: welcome) connect)
  (Hname : GenerateUniqueName (name_draws env) s <> [])
  (Hfresh : forall k x, clients_ s !! k = Some x -> peer_name x <> GenerateUniqueName (name_draws env) s)
  (Hqueue : GenerateUniqueName (name_draws env) s ∉ clear_queue_ s)
  (Hstep : PairingStep env (OnDisconnectEvent id s) = Some (out, s1))
  (Hlater : rsteps (fun e => e <> EDisconnect id) s1 s2) :
  OnDisconnectEvent id s = s /\ registry_ s2 !! GenerateUniqueName (name_draws env) s = Some id.
Proof.
  pose proof (rreachable_ok _ _ _ Hreach) as Hs. set (n := GenerateUniqueName (name_draws env) s) in *.
  assert (E : OnDisconnectEvent id s = s) by (unfold OnDisconnectEvent; rewrite Hd, Hunnamed; done). split; [done|]. rewrite E in Hstep.
  pose proof (pairing_ok env s out s1 Hs Hstep) as Hs1.
  assert (Hh : holds_name (fun _ => True) s1 n id).
  { unfold PairingStep in Hstep. rewrite Hrun, Hturn in Hstep. injection Hstep as Hstep. apply (f_equal snd) in Hstep. cbn [snd] in Hstep.
    rewrite <- Hstep, (Welcome_names _ _ _ d) by done. rewrite GenerateUniqueName_batch. fold n. clearbody n. clear Hstep.
    split; cbn [set_registry set_clients set_batch registry_ clients_ clear_queue_ batch local_clear_q].
    - by rewrite lookup_insert_eq.
    - intros k x [ [<- <-]|[_ Hx] ]%lookup_insert_Some Ex _; [done|]. by destruct (Hfresh k x Hx).
    - by rewrite app_nil_r. }
  clear - Hs1 Hh Hlater AmplePlatform0. induction Hlater as [s1|s1 e o s2 s3 Hst Hne _ IH]; [by destruct Hh|].
  apply IH; [by eapply rstep_ok|by eapply rstep_holds].
Qed.

End Progress.
