(* ===== verification/P2pExamples.v ===== *)
(** * The peer-to-peer claims at work

    A traversal server with one pairing, two peers that bind to it, a punch between
    them, and a broker that pairs them.  The states are built by the operations
    themselves, so they are reachable by construction. *)

From S2P Require Import Prelude Buffer BufferSpec BufferCodecs ZdtWire ZdtWireSpec ZdtOffline InetAddr InetAddrTheorems Admission ZdtOptions ZdtState ZdtServer ZdtMessages P2pPunch Traversal P2pMessages TraversalTheorems PunchTheorems RendezvousWire Rendezvous RendezvousTheorems RendezvousLiveness.

Module P2pExamples.

#[local] Existing Instance TextInet.text.
#[local] Existing Instance TextInet.text_laws.
#[local] Instance machine : Platform := host LittleEndian.
#[local] Instance machine_ample : AmplePlatform machine := host_ample LittleEndian.

Definition peer_a : InetAddress := InetAddressIPv4 [198; 51; 100; 7] 4000.
Definition peer_b : InetAddress := InetAddressIPv4 [198; 51; 100; 8] 4001.
Definition stranger : InetAddress := InetAddressIPv4 [203; 0; 113; 9] 1.
Definition traversal_at : InetAddress := InetAddressIPv4 [192; 0; 2; 1] 5002.

Lemma peer_a_ok : address_ok peer_a.
Proof. repeat split; try lia; repeat constructor; done. Qed.
Lemma peer_b_ok : address_ok peer_b.
Proof. repeat split; try lia; repeat constructor; done. Qed.
Lemma stranger_ok : address_ok stranger.
Proof. repeat split; try lia; repeat constructor; done. Qed.

(** ** The traversal server *)

Definition traversal_cfg : TraversalServerConfig :=
  mkTraversalConfig true true (mkReflectorConfig 64 10000) (mkRelayConfig 10000 60000 2).

Definition up : TraversalServer :=
  (Traversal_Start (Some traversal_at) true true (Some traversal_at) 0 (TraversalServer_new traversal_cfg)).2.

Lemma up_reached : traversal_reachable traversal_cfg [] up.
Proof. eapply tr_step; [apply tr_new|]. apply ts_start. Qed.

Definition up_relay : Relay.Relay := Relay.Start (Relay.Relay_new (mkRelayConfig 10000 60000 2)).

Definition pairing : Relay.Pairing := Relay.mkPairing 1 99 None None 5 5.

Definition paired_relay : Relay.Relay :=
  Relay.mkRelay (mkRelayConfig 10000 60000 2) true {[1 := pairing]} {[99 := 1]} 2.

Definition paired : TraversalServer := with_relay paired_relay up.

Lemma paired_reached : traversal_reachable traversal_cfg [] paired.
Proof.
  eapply tr_step; [exact up_reached|].
  by apply (ts_allocate 1 [0; 99] 5 Success (Some (1, 99)) up_relay).
Qed.

Lemma allocate_returns_witness :
  exists c t r', Relay.Allocate 2 [99; 7] 6 paired_relay = Some (Success, Some (c, t), r') /\
    1 <= c <= kZDTMaxRelayChannel /\ t <> 0 /\
    (forall c' p, Relay.pairings_ paired_relay !! c' = Some p -> c' <> c /\ Relay.token p <> t) /\
    Relay.pairings_ r' = <[c := Relay.mkPairing c t None None 6 6]> (Relay.pairings_ paired_relay) /\
    Z.of_nat (size (Relay.pairings_ r')) <= 2.
Proof.
  apply (allocate_returns traversal_cfg [] paired paired_relay [99; 7] 6 paired_reached);
    [reflexivity|reflexivity|vm_compute; reflexivity|vm_compute; discriminate|by eexists].
Defined.

Lemma relay_joins_two_witness :
  let first := classify (bind_image 99) peer_a 10 paired in
  let second := classify (bind_image 99) peer_b 20 first.2 in
  let joined := second.2 in
  first.1 = [(peer_a, bound_image 99 1)] /\ second.1 = [(peer_b, bound_image 99 1)] /\
  (classify (wrapped_image 1 [1; 2; 3]) peer_a 30 joined).1 = [(peer_b, wrapped_image 1 [1; 2; 3])] /\
  (classify (wrapped_image 1 [1; 2; 3]) peer_b 30 joined).1 = [(peer_a, wrapped_image 1 [1; 2; 3])] /\
  (classify (bind_image 99) stranger 30 joined).1 = [] /\ (classify (wrapped_image 1 [1; 2; 3]) stranger 30 joined).1 = [].
Proof.
  apply (relay_joins_two traversal_cfg [] paired paired_relay 1 pairing peer_a peer_b stranger 10 20 30 [1; 2; 3]);
    [exact paired_reached|reflexivity|reflexivity|cbn; lia|reflexivity|exact peer_a_ok|exact peer_b_ok|exact stranger_ok|discriminate..].
Defined.

(** The two bound, by the datagrams that arrived. *)
Definition seen_both : list (list Z * InetAddress) := [(cut (bind_image 99), peer_b); (cut (bind_image 99), peer_a)].

Definition joined : TraversalServer :=
  (Loop (Received (bind_image 99) (Some peer_b)) 20 (Loop (Received (bind_image 99) (Some peer_a)) 10 paired).2).2.

Lemma joined_reached : traversal_reachable traversal_cfg seen_both joined.
Proof.
  eapply tr_step; [eapply tr_step; [exact paired_reached|]|]; apply ts_datagram; [exact peer_a_ok|exact peer_b_ok].
Qed.

Lemma relay_isolates_witness :
  let out := (Loop (Received (wrapped_image 1 [1; 2; 3]) (Some peer_a)) 30 joined).1 in
  out = [(peer_b, wrapped_image 1 [1; 2; 3])] /\ (length out <= 1)%nat /\
  forall to bytes, (to, bytes) ∈ out ->
    to = peer_a \/
    exists r c p, t_relay joined = Some r /\ Relay.pairings_ r !! c = Some p /\
      ReadRelayHeader (cut (wrapped_image 1 [1; 2; 3])) = Some c /\ bytes = cut (wrapped_image 1 [1; 2; 3]) /\ to <> peer_a /\
      Relay.token p <> 0 /\ presented seen_both peer_a (Relay.token p) /\ presented seen_both to (Relay.token p).
Proof.
  split; [vm_compute; reflexivity|].
  exact (relay_isolates traversal_cfg seen_both joined (wrapped_image 1 [1; 2; 3]) peer_a 30 joined_reached peer_a_ok).
Defined.

Lemma traversal_never_amplifies_witness :
  zlen (bound_image 99 1) <= zlen (cut (bind_image 99)) \/
  zlen (bound_image 99 1) = 21 /\ peer_a = peer_a /\
  exists r c p, t_relay paired = Some r /\ Relay.pairings_ r !! c = Some p /\ Relay.token p = BindToken (cut (bind_image 99)) /\
    BindToken (cut (bind_image 99)) <> 0.
Proof.
  apply (traversal_never_amplifies traversal_cfg [] paired (bind_image 99) peer_a 10 peer_a (bound_image 99 1) paired_reached peer_a_ok).
  replace (Loop _ 10 paired).1 with [(peer_a, bound_image 99 1)] by (vm_compute; reflexivity). left.
Defined.

(** ** The punch *)

Import Punch PunchTheorems.

Definition name_x : list Z := [65].
Definition name_y : list Z := [66].
Definition offer_x : PunchOffer := mkOffer [mkCandidate Reflexive (Some peer_b) 0] 6 true 10000 2000.
Definition offer_y : PunchOffer := mkOffer [mkCandidate Reflexive (Some peer_a) 0] 6 false 10000 2000.
Definition punch_x : ZDTPunch := ZDTPunch_new offer_x 0 true 11.
Definition punch_y : ZDTPunch := ZDTPunch_new offer_y 0 true 22.

Lemma punch_connects_witness :
  let asked := OnDatagram peer_a 0 (request_image 11 (cap true)) punch_y in
  let answered := OnDatagram peer_b 0 (reply_image 22 1200 (cap true)) (Tick 200000000 punch_x).2 in
  let greeted := OnDatagram peer_a 0 [128; 0; 0] asked.2 in
  IsInitiator 6 name_x name_y = true /\ IsInitiator 6 name_y name_x = false /\ IsInitiator 7 name_x name_y = false /\
  (peer_b, request_image 11 (cap true)) ∈ (Tick 200000000 punch_x).1.2 /\
  state asked.1.1 = Pending /\ asked.1.2 = [(peer_a, reply_image 22 1200 (cap true))] /\
  answered.1.1 = mkOutcome Completed false Success (Some peer_b) 0 None /\
  connection_ answered.2 = mkConnection 1200 11 22 true 0 /\
  greeted.1.1 = mkOutcome Completed false Success (Some peer_a) 0 (Some [128; 0; 0]) /\
  connection_ greeted.2 = mkConnection 1200 22 11 true 0.
Proof.
  split; [reflexivity|]. split; [reflexivity|]. split; [reflexivity|].
  apply (punch_connects 6 name_x name_y offer_x offer_y 0 0 true true 11 22 punch_x punch_y 200000000 peer_a peer_b 0 [128; 0; 0]);
    [discriminate|reflexivity|reflexivity|lia|lia|apply pr_new|apply pr_new|reflexivity|reflexivity| |reflexivity|reflexivity].
  left. split; [reflexivity|]. exists (mkCandidate Reflexive (Some peer_b) 0). split; [left|reflexivity].
Defined.

(** ** Gathering *)

Definition probe : Gather.ReflectProbe := Gather.ReflectProbe_new [Some traversal_at] 0 3000 (fun n => 1000 + Z.of_nat n).
Definition target : Gather.Target := Gather.mkTarget traversal_at 1000 false 0 None.
Definition throttle : AdmissionControl := Reflector_new (mkReflectorConfig 64 10000).

Lemma gather_learns_mapping_witness :
  let sent := Gather.Tick 150000000 probe in
  let asks := reflect_image 1000 in
  let answer := reflected_image 1000 peer_a in
  let p' := Gather.OnDatagram traversal_at answer sent.2 in
  (traversal_at, asks) ∈ sent.1.2 /\ zlen answer <= zlen asks /\
  (OnReflect 7 asks peer_a throttle).1 = [(peer_a, answer)] /\
  Gather.mkTarget traversal_at 1000 true 150000000 (Some peer_a) ∈ Gather.targets_ p' /\
  ContainsAddress (Gather.reflexive_ p') peer_a = true /\
  (ContainsAddress (Gather.reflexive_ probe) peer_a = true -> Gather.reflexive_ p' = Gather.reflexive_ probe).
Proof.
  apply (gather_learns_mapping probe [] [] target 150000000 7 peer_a throttle);
    [reflexivity|reflexivity|constructor|cbn; lia|repeat split; try lia; repeat constructor; done|exact peer_a_ok|vm_compute; reflexivity].
Defined.

(** ** The broker *)

Import Rendezvous.

Definition broker_cfg : Config := mkConfig ZDT 30 10000 true traversal_cfg [].

Definition start_env : StartEnv :=
  mkStartEnv (Some (InetAddressIPv4 [192; 0; 2; 1] 0)) (Some traversal_at) true true (Some traversal_at) 0 Success Success.

Definition started : Server := (RendezvousServer_Start start_env (RendezvousServer_new broker_cfg)).2.

Lemma started_reached : rreachable broker_cfg [] started.
Proof. apply (rr_start _ start_env); [reflexivity|by eexists]. Qed.

(** The step of the thread whose names begin at the [n]-th. *)
Definition draws (n : nat) : StepEnv :=
  mkStepEnv (fun i => GeneratePeerName (n, i)) (mkPairEnv 4242 [77; 78; 79] 50).

Definition steps (n : nat) (s : Server) : Server := match PairingStep (draws n) s with Some (_, s) => s | None => s end.

Definition sent_by (n : nat) (s : Server) : list Output := match PairingStep (draws n) s with Some (out, _) => out | None => [] end.

Lemma steps_reached cfg h s n : rreachable cfg h s -> is_Some (PairingStep (draws n) s) ->
  rreachable cfg ((EPairing, sent_by n s) :: h) (steps n s).
Proof.
  intros Hr [ [out s'] E]. eapply rr_step; [exact Hr|]. apply (rs_pairing _ (draws n)). unfold sent_by, steps. by rewrite E.
Qed.

Definition arrived : Server := OnConnectEvent 2%nat peer_b (OnConnectEvent 1%nat peer_a started).
Definition swapped : Server := steps 0 arrived.
Definition named : Server := steps 0 (steps 0 swapped).

Definition first_name : Name := GeneratePeerName (0, 0)%nat.
Definition second_name : Name := GeneratePeerName (0, 1)%nat.
Definition asked : Server := (OnConnectPeer 9 1%nat first_name (OnConnectPeer 8 2%nat second_name named).2).2.
Definition ready : Server := steps 0 asked.
Definition offered_both : Server := steps 0 ready.

(** What has happened, the latest first. *)
Definition so_far : History :=
  [(EPairing, sent_by 0 asked);
   (EConnectPeer 1%nat first_name, (OnConnectPeer 9 1%nat first_name (OnConnectPeer 8 2%nat second_name named).2).1);
   (EConnectPeer 2%nat second_name, (OnConnectPeer 8 2%nat second_name named).1);
   (EPairing, sent_by 0 (steps 0 swapped)); (EPairing, sent_by 0 swapped); (EPairing, sent_by 0 arrived);
   (EConnect 2%nat peer_b, []); (EConnect 1%nat peer_a, [])].

Ltac evaluates := apply (bool_decide_unpack _); vm_compute; exact I.

Lemma asked_reached : rreachable broker_cfg (tl so_far) asked.
Proof.
  eapply rr_step; [|apply rs_connect_peer]. eapply rr_step; [|apply rs_connect_peer].
  apply steps_reached; [|evaluates]. apply steps_reached; [|evaluates]. apply steps_reached; [|evaluates].
  eapply rr_step; [|apply rs_connect; evaluates]. eapply rr_step; [exact started_reached|apply rs_connect; evaluates].
Qed.

Lemma ready_reached : rreachable broker_cfg so_far ready.
Proof. apply steps_reached; [exact asked_reached|evaluates]. Qed.

Lemma broker_invariant_witness : rv_ok ready.
Proof. exact (broker_invariant broker_cfg so_far ready ready_reached). Defined.

Lemma ready_sends : PairingStep (draws 0) ready = Some (sent_by 0 ready, offered_both).
Proof.
  assert (H : is_Some (PairingStep (draws 0) ready)) by evaluates. destruct H as [ [out s'] E]. unfold offered_both, sent_by, steps. by rewrite E.
Qed.

(** What the first of the two is sent. *)
Definition first_offer : PunchOfferPacket :=
  mkPunchOffer first_name 4242 ZDT
    [mkCandidate Reflexive (Some peer_b) 0; mkCandidate Relayed (Some (InetAddressIPv4 [192; 0; 2; 1] 5002)) 77].

Lemma ready_offers : exists rest, sent_by 0 ready = Send 1%nat (PPunchOffer first_offer) :: rest.
Proof. eexists. vm_compute. reflexivity. Qed.

Lemma offers_pair_mutual_asks_witness :
  exists a b da db relayed ca cb, a <> b /\
    clients_ ready !! a = Some da /\ clients_ ready !! b = Some db /\ registry_ ready !! peer_name db = Some b /\
    peer_name db ∈ pending_targets da /\ peer_name da ∈ pending_targets db /\
    pending offered_both a (peer_name db) = false /\ pending offered_both b (peer_name da) = false /\
    (let id := drawn_punch_id (pair_env (draws 0)) in let t := punch_connection_type (Rendezvous.config_ ready) in
     sent_by 0 ready = [Send a (PPunchOffer (mkPunchOffer (peer_name db) id t ca)); Send b (PPunchOffer (mkPunchOffer (peer_name da) id t cb))]) /\
    offered_of db relayed ca /\ offered_of da relayed cb /\ relay_shape ready relayed.
Proof.
  apply (offers_pair_mutual_asks broker_cfg so_far ready offered_both (draws 0) (sent_by 0 ready) 1%nat first_offer ready_reached ready_sends).
  destruct ready_offers as [rest ->]. left.
Defined.

Lemma offers_within_asks_witness :
  let h := (EPairing, sent_by 0 ready) :: so_far in
  offers h 1%nat first_name = 1%nat /\ ((offers h 1%nat first_name <= asks h 1%nat first_name)%nat /\
  (pending offered_both 1%nat first_name = true -> (offers h 1%nat first_name < asks h 1%nat first_name)%nat)).
Proof.
  split; [vm_compute; reflexivity|].
  apply (offers_within_asks broker_cfg _ offered_both 1%nat first_name). apply steps_reached; [exact ready_reached|evaluates].
Defined.

Lemma asked_holds m n id : bool_decide (registry_ asked !! n = Some id /\
    map_Forall (fun k d => peer_name d = n -> m ∈ pending_targets d -> k = id) (clients_ asked) /\ n ∉ clear_queue_ asked ++ local_clear_q (batch asked)) = true ->
  holds_name (asking m) asked n id.
Proof. intros (H1 & H2 & H3)%bool_decide_eq_true. split; [done|exact H2|done]. Qed.

Lemma draws_supply : supplies 2 (draws 0).
Proof. split; [evaluates|]. split; [evaluates|]. reflexivity. Qed.

Lemma mutual_asks_get_offers_witness :
  exists out s', run (replicate 4 (draws 0)) asked = Some (out, s') /\ offered out 1%nat 2%nat second_name first_name.
Proof.
  apply (mutual_asks_get_offers broker_cfg (tl so_far) asked (replicate 4 (draws 0)) 1%nat 2%nat second_name first_name asked_reached);
    [vm_compute; reflexivity|vm_compute; reflexivity|vm_compute; discriminate|repeat (constructor; [exact draws_supply|]); constructor|vm_compute; reflexivity|].
  split; [apply asked_holds; vm_compute; reflexivity|apply asked_holds; vm_compute; reflexivity|vm_compute; discriminate|vm_compute; reflexivity|vm_compute; reflexivity].
Defined.

(** One of the two departs with its ask queued, and a third is given its name and asks
    for the other. *)
Definition departed : Server := OnConnectEvent 3%nat peer_a (OnDisconnectEvent 1%nat asked).
Definition replaced : Server := steps 0 (steps 0 (steps 0 departed)).
Definition rival : Server := (OnConnectPeer 12 3%nat first_name replaced).2.

Definition rival_history : History :=
  [(EConnectPeer 3%nat first_name, (OnConnectPeer 12 3%nat first_name replaced).1);
   (EPairing, sent_by 0 (steps 0 (steps 0 departed))); (EPairing, sent_by 0 (steps 0 departed)); (EPairing, sent_by 0 departed);
   (EConnect 3%nat peer_a, []); (EDisconnect 1%nat, [])] ++ tl so_far.

Lemma rival_reached : rreachable broker_cfg rival_history rival.
Proof.
  eapply rr_step; [|apply rs_connect_peer]. apply steps_reached; [|evaluates]. apply steps_reached; [|evaluates]. apply steps_reached; [|evaluates].
  eapply rr_step; [|apply rs_connect; evaluates]. eapply rr_step; [exact asked_reached|apply rs_disconnect].
Qed.

Lemma rival_sends : PairingStep (draws 0) rival = Some (sent_by 0 rival, steps 0 rival).
Proof. assert (H : is_Some (PairingStep (draws 0) rival)) by evaluates. destruct H as [ [out s'] E]. unfold sent_by, steps. by rewrite E. Qed.

(** What the broker holds of a client. *)
Definition data_of (id : Session) (s : Server) : ClientData := default (ClientData_new peer_a) (clients_ s !! id).

Lemma stale_ask_takes_the_offer_witness :
  pending rival 3%nat first_name = true /\
  offered (sent_by 0 rival) 1%nat 2%nat second_name first_name /\ pending (steps 0 rival) 2%nat second_name = false /\
  pending (steps 0 rival) 3%nat first_name = pending rival 3%nat first_name /\ forall pk, Send 3%nat pk ∉ sent_by 0 rival.
Proof.
  split; [vm_compute; reflexivity|].
  apply (stale_ask_takes_the_offer broker_cfg rival_history rival (steps 0 rival) (draws 0) (sent_by 0 rival) 1%nat 3%nat 2%nat second_name first_name
    (data_of 1%nat rival) (data_of 2%nat rival) [(2%nat, second_name)] rival_reached);
    [vm_compute; reflexivity|vm_compute; reflexivity|vm_compute; reflexivity|vm_compute; reflexivity|evaluates|vm_compute; reflexivity|discriminate|
     vm_compute; reflexivity|discriminate|vm_compute; reflexivity|evaluates|exact rival_sends].
Defined.

(** A client that connects and is gone before the thread gets to it. *)
Definition lone : Server := steps 0 (OnConnectEvent 1%nat peer_a started).
Definition ghost : Server := steps 0 lone.

Lemma lone_reached : rreachable broker_cfg [(EPairing, sent_by 0 (OnConnectEvent 1%nat peer_a started)); (EConnect 1%nat peer_a, [])] lone.
Proof. apply steps_reached; [|evaluates]. eapply rr_step; [exact started_reached|apply rs_connect; evaluates]. Qed.

Lemma early_leaver_stays_registered_witness :
  OnDisconnectEvent 1%nat lone = lone /\ registry_ (OnDisconnectEvent 9%nat ghost) !! GenerateUniqueName (name_draws (draws 0)) lone = Some 1%nat.
Proof.
  apply (early_leaver_stays_registered broker_cfg _ lone ghost (OnDisconnectEvent 9%nat ghost) 1%nat (ClientData_new peer_a) (draws 0)
    (sent_by 0 lone) [] [] lone_reached); [vm_compute; reflexivity|reflexivity|vm_compute; reflexivity|vm_compute; reflexivity|vm_compute; discriminate| | | |].
  - intros k x Hx. assert (H : map_Forall (fun _ x => peer_name x <> GenerateUniqueName (name_draws (draws 0)) lone) (clients_ lone)) by evaluates. exact (H k x Hx).
  - evaluates.
  - assert (H : is_Some (PairingStep (draws 0) (OnDisconnectEvent 1%nat lone))) by evaluates. destruct H as [ [out s'] E]. rewrite E.
    unfold ghost, sent_by, steps. replace lone with (OnDisconnectEvent 1%nat lone) by (vm_compute; reflexivity). by rewrite E.
  - eapply rss_step; [apply (rs_disconnect _ 9%nat)|discriminate|apply rss_nil].
Defined.

End P2pExamples.
