(* ===== verification/Agent.v ===== *)
(** * The agent (p2p/agent.h, p2p/agent.cc)

    One UDP socket that carries the gathers and punches in flight and the sessions
    they become.  The tick thread owns the machines and the routes; [Gather],
    [Punch] and [Rebind] hand over to it under [pending_mutex_], so every operation
    here is atomic and an interleaving of the threads is a sequence of them.  A
    callback the application gave is known by a number, [None] when it gave none;
    what was called, with what, is recorded in [done_], what the socket was asked
    to send in [sent_].  A callback may punch or gather again: that only appends to
    the pending lists, which nothing reads before the next tick, so it is a further
    operation.

    A session is what the interface [Sessions] promises; AgentSessions.v discharges
    it with a [PeerSession] over the ZDT transport.  The order in which
    [unordered_map] is walked is the parameter [walk]; the clock is read in the order
    of the code.  Logging is left out. *)

From S2P Require Import Prelude Buffer BufferSpec BufferCodecs ZdtWire InetAddr Admission ZdtCookie ZdtOptions ZdtState ZdtSend ZdtTransport ZdtServer P2pPunch.

(** The sessions an agent builds and drives: [transport] and [session] of a route
    are one object.  [make_session] is given the number of the session. *)
Class Sessions := {
  Session : Type;
  make_session (n : nat) (socket : option Z) (local : option InetAddress) (peer : InetAddress) (cfg : ZDTOptions)
    (common : CommonOptions) (connection : ZDTConnection) (first_datagram : option (list Z)) (is_initiator : bool) : Session;
  IsAlive : Session -> bool;
  IsReady : Session -> bool;
  Process : Session -> bool * Session;
  Close : Session -> Session;
  ReleaseHandler : Session -> Session;
  OnDatagram : list Z -> Session -> Session;
  MigratePeer : InetAddress -> Session -> Session;
  MigrateSocket : Z -> Session -> Session
}.

(** What closing means to the agent. *)
Class SessionsLaws (Ss : Sessions) : Prop := {
  Close_dead s : IsAlive (Close s) = false;
  ReleaseHandler_alive s : IsAlive (ReleaseHandler s) = IsAlive s
}.

Module Agent.

Definition kPredictedPortCount : nat := 8.

(** [zdt] and [common] of the session options; the rest goes to the sessions. *)
Record AgentConfig := mkConfig {
  bind_address : list Z;
  bind_port : Z;
  zdt : ZDTOptions;
  common : CommonOptions
}.

Record GatherResult := mkGathered {
  g_result : Result;
  g_candidates : list Candidate;
  g_nat_type : NatType
}.

Inductive Resolution :=
  | PunchDone (callback : nat) (result : Result) (session : option nat)
  | GatherDone (callback : nat) (result : GatherResult).

(** An open socket and what it reports as its address. *)
Record UDPSocket := mkSocket { fd : Z; socket_address : option InetAddress }.

Record PunchInFlight := mkInFlight { machine : Punch.ZDTPunch; on_done : option nat }.

Record Gathering := mkGathering { probe : Gather.ReflectProbe; g_on_done : option nat }.

Section Agent.
Context `{P : Platform} `{I : Inet} `{C : CookieCrypto} `{Ss : Sessions}.

Record Route := mkRoute {
  session_id : nat;
  session : Session;
  remote_guid : Z;
  local_guid : Z;
  waiters : list nat;
  ready_deadline : Z
}.

Definition set_session (v : Session) (r : Route) : Route :=
  mkRoute (session_id r) v (remote_guid r) (local_guid r) (waiters r) (ready_deadline r).
Definition set_waiters (v : list nat) (r : Route) : Route :=
  mkRoute (session_id r) (session r) (remote_guid r) (local_guid r) v (ready_deadline r).

(** [task_]: the tick thread runs; [socket_]: the handle of the open socket;
    [gone_]: the sessions the agent let go of, as it left them. *)
Record Agent := mkAgent {
  config_ : AgentConfig;
  socket_ : option Z;
  local_address_ : option InetAddress;
  task_ : bool;
  running_ : bool;
  cookie_secret_ : option CookieSecret;
  pending_ : list PunchInFlight;
  pending_gathers_ : list Gathering;
  pending_rebind_ : option UDPSocket;
  punches_ : list PunchInFlight;
  gathers_ : list Gathering;
  routes_ : gmap (list Z) Route;
  session_count_ : Z;
  next_session_ : nat;
  gone_ : list (nat * Session);
  done_ : list Resolution;
  sent_ : list Sent;
  ticks_ : nat
}.

Definition set_socket (v : option Z) (s : Agent) : Agent :=
  mkAgent (config_ s) v (local_address_ s) (task_ s) (running_ s) (cookie_secret_ s) (pending_ s) (pending_gathers_ s) (pending_rebind_ s) (punches_ s) (gathers_ s) (routes_ s) (session_count_ s) (next_session_ s) (gone_ s) (done_ s) (sent_ s) (ticks_ s).
Definition set_local_address (v : option InetAddress) (s : Agent) : Agent :=
  mkAgent (config_ s) (socket_ s) v (task_ s) (running_ s) (cookie_secret_ s) (pending_ s) (pending_gathers_ s) (pending_rebind_ s) (punches_ s) (gathers_ s) (routes_ s) (session_count_ s) (next_session_ s) (gone_ s) (done_ s) (sent_ s) (ticks_ s).
Definition set_task (v : bool) (s : Agent) : Agent :=
  mkAgent (config_ s) (socket_ s) (local_address_ s) v (running_ s) (cookie_secret_ s) (pending_ s) (pending_gathers_ s) (pending_rebind_ s) (punches_ s) (gathers_ s) (routes_ s) (session_count_ s) (next_session_ s) (gone_ s) (done_ s) (sent_ s) (ticks_ s).
Definition set_running (v : bool) (s : Agent) : Agent :=
  mkAgent (config_ s) (socket_ s) (local_address_ s) (task_ s) v (cookie_secret_ s) (pending_ s) (pending_gathers_ s) (pending_rebind_ s) (punches_ s) (gathers_ s) (routes_ s) (session_count_ s) (next_session_ s) (gone_ s) (done_ s) (sent_ s) (ticks_ s).
Definition set_cookie_secret (v : option CookieSecret) (s : Agent) : Agent :=
  mkAgent (config_ s) (socket_ s) (local_address_ s) (task_ s) (running_ s) v (pending_ s) (pending_gathers_ s) (pending_rebind_ s) (punches_ s) (gathers_ s) (routes_ s) (session_count_ s) (next_session_ s) (gone_ s) (done_ s) (sent_ s) (ticks_ s).
Definition set_pending (v : list PunchInFlight) (s : Agent) : Agent :=
  mkAgent (config_ s) (socket_ s) (local_address_ s) (task_ s) (running_ s) (cookie_secret_ s) v (pending_gathers_ s) (pending_rebind_ s) (punches_ s) (gathers_ s) (routes_ s) (session_count_ s) (next_session_ s) (gone_ s) (done_ s) (sent_ s) (ticks_ s).
Definition set_pending_gathers (v : list Gathering) (s : Agent) : Agent :=
  mkAgent (config_ s) (socket_ s) (local_address_ s) (task_ s) (running_ s) (cookie_secret_ s) (pending_ s) v (pending_rebind_ s) (punches_ s) (gathers_ s) (routes_ s) (session_count_ s) (next_session_ s) (gone_ s) (done_ s) (sent_ s) (ticks_ s).
Definition set_pending_rebind (v : option UDPSocket) (s : Agent) : Agent :=
  mkAgent (config_ s) (socket_ s) (local_address_ s) (task_ s) (running_ s) (cookie_secret_ s) (pending_ s) (pending_gathers_ s) v (punches_ s) (gathers_ s) (routes_ s) (session_count_ s) (next_session_ s) (gone_ s) (done_ s) (sent_ s) (ticks_ s).
Definition set_punches (v : list PunchInFlight) (s : Agent) : Agent :=
  mkAgent (config_ s) (socket_ s) (local_address_ s) (task_ s) (running_ s) (cookie_secret_ s) (pending_ s) (pending_gathers_ s) (pending_rebind_ s) v (gathers_ s) (routes_ s) (session_count_ s) (next_session_ s) (gone_ s) (done_ s) (sent_ s) (ticks_ s).
Definition set_gathers (v : list Gathering) (s : Agent) : Agent :=
  mkAgent (config_ s) (socket_ s) (local_address_ s) (task_ s) (running_ s) (cookie_secret_ s) (pending_ s) (pending_gathers_ s) (pending_rebind_ s) (punches_ s) v (routes_ s) (session_count_ s) (next_session_ s) (gone_ s) (done_ s) (sent_ s) (ticks_ s).
Definition set_routes (v : gmap (list Z) Route) (s : Agent) : Agent :=
  mkAgent (config_ s) (socket_ s) (local_address_ s) (task_ s) (running_ s) (cookie_secret_ s) (pending_ s) (pending_gathers_ s) (pending_rebind_ s) (punches_ s) (gathers_ s) v (session_count_ s) (next_session_ s) (gone_ s) (done_ s) (sent_ s) (ticks_ s).
Definition set_session_count (v : Z) (s : Agent) : Agent :=
  mkAgent (config_ s) (socket_ s) (local_address_ s) (task_ s) (running_ s) (cookie_secret_ s) (pending_ s) (pending_gathers_ s) (pending_rebind_ s) (punches_ s) (gathers_ s) (routes_ s) v (next_session_ s) (gone_ s) (done_ s) (sent_ s) (ticks_ s).
Definition set_next_session (v : nat) (s : Agent) : Agent :=
  mkAgent (config_ s) (socket_ s) (local_address_ s) (task_ s) (running_ s) (cookie_secret_ s) (pending_ s) (pending_gathers_ s) (pending_rebind_ s) (punches_ s) (gathers_ s) (routes_ s) (session_count_ s) v (gone_ s) (done_ s) (sent_ s) (ticks_ s).
Definition set_gone (v : list (nat * Session)) (s : Agent) : Agent :=
  mkAgent (config_ s) (socket_ s) (local_address_ s) (task_ s) (running_ s) (cookie_secret_ s) (pending_ s) (pending_gathers_ s) (pending_rebind_ s) (punches_ s) (gathers_ s) (routes_ s) (session_count_ s) (next_session_ s) v (done_ s) (sent_ s) (ticks_ s).
Definition set_done (v : list Resolution) (s : Agent) : Agent :=
  mkAgent (config_ s) (socket_ s) (local_address_ s) (task_ s) (running_ s) (cookie_secret_ s) (pending_ s) (pending_gathers_ s) (pending_rebind_ s) (punches_ s) (gathers_ s) (routes_ s) (session_count_ s) (next_session_ s) (gone_ s) v (sent_ s) (ticks_ s).
Definition set_sent (v : list Sent) (s : Agent) : Agent :=
  mkAgent (config_ s) (socket_ s) (local_address_ s) (task_ s) (running_ s) (cookie_secret_ s) (pending_ s) (pending_gathers_ s) (pending_rebind_ s) (punches_ s) (gathers_ s) (routes_ s) (session_count_ s) (next_session_ s) (gone_ s) (done_ s) v (ticks_ s).
Definition set_ticks (v : nat) (s : Agent) : Agent :=
  mkAgent (config_ s) (socket_ s) (local_address_ s) (task_ s) (running_ s) (cookie_secret_ s) (pending_ s) (pending_gathers_ s) (pending_rebind_ s) (punches_ s) (gathers_ s) (routes_ s) (session_count_ s) (next_session_ s) (gone_ s) (done_ s) (sent_ s) v.

(** The clock, the order in which the routes are walked, and
    [ResolveHostnameToIP]. *)
Context (clk : nat -> Z) (walk : gmap (list Z) Route -> list (list Z * Route)) (resolve : list Z -> list Z).

Definition Agent_new (config : AgentConfig) : Agent :=
  mkAgent config None None false false None [] [] None [] [] ∅ 0 0 [] [] [] 0.

Definition now_ (s : Agent) : Z * Agent := (clk (ticks_ s), set_ticks (S (ticks_ s)) s).

Definition emit (out : list Sent) (s : Agent) : Agent := set_sent (sent_ s ++ out) s.

Definition report (rs : list Resolution) (s : Agent) : Agent := set_done (done_ s ++ rs) s.

(** A callback that is there is called. *)
Definition punch_done (callback : option nat) (result : Result) (session : option nat) : list Resolution :=
  match callback with Some c => [PunchDone c result session] | None => [] end.

Definition gather_done (callback : option nat) (result : GatherResult) : list Resolution :=
  match callback with Some c => [GatherDone c result] | None => [] end.

Definition stopped_gather : GatherResult := mkGathered AlreadyStopped [] Unknown.

(** ** Starting *)

(** [opened]: the socket the system gives, if it gives one; [bound]: whether it
    binds it; [local]: the address it then reports. *)
Definition Start (opened : option Z) (bound : bool) (local : option InetAddress) (s : Agent) : Result * Agent :=
  if running_ s then (AlreadyListening, s)
  else match from_host resolve (bind_address (config_ s)) (bind_port (config_ s)) with
       | None => (InvalidAddress, s)
       | Some a =>
           if negb (is_valid a) || bool_decide (ipv a = Unix) then (InvalidAddress, s)
           else match opened with
                | None => (CannotCreateSocket, set_socket None s)
                | Some _ =>
                    if negb bound then (CannotBind, set_socket None s)
                    else
                      let s := set_local_address local (set_socket opened s) in
                      let '(now, s) := now_ s in
                      let s := set_cookie_secret (Some (CookieSecret_new now)) s in
                      (Success, set_task true (set_running true s))
                end
       end.

(** ** Asking *)

(** [guids]: the nonces drawn. *)
Definition Gather (reflectors : list (option InetAddress)) (timeout : Z) (guids : nat -> Z) (on_done : option nat) (s : Agent)
  : Agent :=
  let '(now, s) := now_ s in
  let gathering := mkGathering (Gather.ReflectProbe_new reflectors now timeout guids) on_done in
  if negb (running_ s) then report (gather_done on_done stopped_gather) s
  else set_pending_gathers (pending_gathers_ s ++ [gathering]) s.

Definition refuse_candidate (refusal : Result) (c : Candidate) : Result :=
  if negb (match c_address c with Some a => is_valid a | None => false end) then InvalidAddress
  else if bool_decide (c_type c = Relayed) && (relay_token c =? 0) then InvalidArgument
  else refusal.

Definition refusal (offer : PunchOffer) : Result :=
  foldl refuse_candidate (if bool_decide (candidates offer = []) then InvalidAddress else Success) (candidates offer).

(** [guid]: what the punch draws. *)
Definition Punch (offer : PunchOffer) (guid : Z) (on_done : option nat) (s : Agent) : Agent :=
  if negb (bool_decide (refusal offer = Success)) then report (punch_done on_done (refusal offer) None) s
  else
    let '(now, s) := now_ s in
    let punch := mkInFlight (Punch.ZDTPunch_new offer now (enable_connection_migration (zdt (config_ s))) guid) on_done in
    if negb (running_ s) then report (punch_done on_done AlreadyStopped None) s
    else set_pending (pending_ s ++ [punch]) s.

(** ** Routes *)

Definition RouteKey (address : InetAddress) (channel : Z) : list Z :=
  if channel =? 0 then readable address else readable address ++ [35] ++ to_string channel.

(** The route leaves the table; the application may still hold the session. *)
Definition erase (key : list Z) (r : Route) (s : Agent) : Agent :=
  set_gone (gone_ s ++ [(session_id r, session r)]) (set_routes (delete key (routes_ s)) s).

Definition ResolveWaiters (r : Route) (result : Result) : list Resolution * Route :=
  (map (fun w => PunchDone w result (if bool_decide (result = Success) then Some (session_id r) else None)) (waiters r),
   set_waiters [] r).

Definition FailPunch (index : nat) (reason : Result) (s : Agent) : Agent :=
  match punches_ s !! index with
  | None => s
  | Some punch =>
      let s := set_punches (delete index (punches_ s)) s in
      report (punch_done (on_done punch) reason None) s
  end.

Definition CompletePunch (index : nat) (outcome : Punch.PunchOutcome) (s : Agent) : Agent :=
  match punches_ s !! index, Punch.from outcome with
  | Some punch, Some from =>
      let s := set_punches (delete index (punches_ s)) s in
      let offer := Punch.offer_ (machine punch) in
      let c := Punch.connection_ (machine punch) in
      let connection := mkConnection (conn_mtu c) (ZdtOptions.local_guid c) (ZdtOptions.remote_guid c) (migration_enabled c)
                          (Punch.channel outcome) in
      let session := make_session (next_session_ s) (socket_ s) (local_address_ s) from (zdt (config_ s))
                       (common (config_ s)) connection (Punch.first_datagram outcome) (is_initiator offer) in
      let '(now, s) := now_ s in
      let route := mkRoute (next_session_ s) session (ZdtOptions.remote_guid connection) (ZdtOptions.local_guid connection)
                     (match on_done punch with Some w => [w] | None => [] end) (now + ms (timeout offer)) in
      let s := set_next_session (S (next_session_ s)) s in
      let s := set_routes (<[RouteKey from (Punch.channel outcome) := route]> (routes_ s)) s in
      set_session_count (map_size (routes_ s)) s
  | _, _ => s
  end.

Definition HandleOffline (from : InetAddress) (channel : Z) (data : list Z) (s : Agent) : Agent :=
  match (if channel =? 0 then list_find (fun g => Gather.Owns from (probe g) = true) (gathers_ s) else None) with
  | Some (i, g) => set_gathers (<[i := mkGathering (Gather.OnDatagram from data (probe g)) (g_on_done g)]> (gathers_ s)) s
  | None =>
      match list_find (fun p => Punch.Owns from channel (machine p) = true) (punches_ s) with
      | None => s
      | Some (i, p) =>
          let '(outcome, out, m) := Punch.OnDatagram from channel data (machine p) in
          let s := emit out (set_punches (<[i := mkInFlight m (on_done p)]> (punches_ s)) s) in
          match Punch.state outcome with
          | Punch.Completed => CompletePunch i outcome s
          | Punch.Failed => FailPunch i (Punch.reason outcome) s
          | Punch.Pending => s
          end
      end
  end.

(** ** Connection migration *)

Definition ChallengeNewPath (cid : Z) (from : InetAddress) (s : Agent) : bool * Agent :=
  let known := existsb (fun e => (remote_guid e.2 =? cid) && IsAlive (session e.2)) (walk (routes_ s)) in
  match known, cookie_secret_ s with
  | true, Some secret =>
      (true, emit [(from, datagram_bytes (WritePathMessage (offline_id PathChallenge)
                                            (MakePathChallenge secret (readable from) cid)))] s)
  | _, _ => (false, s)
  end.

(** The first route walked with this connection id decides. *)
Fixpoint migrate_first (entries : list (list Z * Route)) (cid : Z) (from : InetAddress) (s : Agent) : Agent :=
  match entries with
  | [] => s
  | (key, route) :: rest =>
      if negb (remote_guid route =? cid) then migrate_first rest cid from s
      else if negb (IsAlive (session route)) || bool_decide (key = RouteKey from 0) then s
      else
        let s := set_routes (delete key (routes_ s)) s in
        let route := set_session (MigratePeer from (session route)) route in
        set_routes (<[RouteKey from 0 := route]> (routes_ s)) s
  end.

(** What a path message carries. *)
Definition path_message (data : list Z) : option ZDTPathMessage :=
  match ReadOfflineHeader (Buffer_from data BigEndian) with
  | (None, _) => None
  | (Some _, b) =>
      match ReadPathMessage b (ZdtWire.mkPath 0 0 (repeat 0 16)) with
      | (true, m, _) => Some m
      | (false, _, _) => None
      end
  end.

Definition CompletePathMigration (from : InetAddress) (data : list Z) (s : Agent) : Agent :=
  match path_message data, cookie_secret_ s with
  | Some response, Some secret =>
      if negb (VerifyPathResponse secret (RouteKey from 0) response) then s
      else migrate_first (walk (routes_ s)) (pm_cid response) from s
  | _, _ => s
  end.

Definition AnswerPathChallenge (from : InetAddress) (data : list Z) (s : Agent) : Agent :=
  match path_message data with
  | None => s
  | Some challenge =>
      let ours := existsb (fun e => (local_guid e.2 =? pm_cid challenge) && IsAlive (session e.2)) (walk (routes_ s)) in
      if negb ours then s
      else emit [(from, datagram_bytes (WritePathMessage (offline_id PathResponse) challenge))] s
  end.

(** ** The socket *)

(** A datagram, the relay's header stripped. *)
Definition route_datagram (from : InetAddress) (channel : Z) (data : list Z) (s : Agent) : Agent :=
  let migratable := (channel =? 0) && enable_connection_migration (zdt (config_ s)) in
  let online := has_flag (byte_at data 0) kFlagOnline in
  let key := RouteKey from channel in
  match routes_ s !! key with
  | Some route =>
      if migratable && negb online && bool_decide (PeekOfflineHeader data = Some (offline_id PathChallenge))
      then AnswerPathChallenge from data s
      else set_routes (<[key := set_session (OnDatagram data (session route)) route]> (routes_ s)) s
  | None =>
      if migratable then
        if negb online then
          if bool_decide (PeekOfflineHeader data = Some (offline_id PathResponse))
          then CompletePathMigration from data s
          else HandleOffline from channel data s
        else
          match PeekCid data with
          | Some cid =>
              let '(challenged, s) := ChallengeNewPath cid from s in
              if challenged then s else HandleOffline from channel data s
          | None => HandleOffline from channel data s
          end
      else HandleOffline from channel data s
  end.

Definition on_datagram (data : list Z) (from : InetAddress) (s : Agent) : Agent :=
  if byte_at data 0 =? kZDTRelayMarker then
    match ReadRelayHeader data with
    | None => s
    | Some channel =>
        let data := drop (Z.to_nat kZDTRelayHeaderSize) data in
        if bool_decide (data = []) then s else route_datagram from channel data s
    end
  else route_datagram from 0 data s.

(** [incoming]: what the reads yield; a read fills at most the buffer. *)
Fixpoint DrainSocket (incoming : list RecvResult) (any : bool) (s : Agent) : bool * Agent :=
  match incoming with
  | Received data (Some from) :: rest =>
      if bool_decide (data = []) then (any, s)
      else DrainSocket rest true (on_datagram (take (Z.to_nat ZNET_MAX_BUFFER_SIZE) data) from s)
  | _ => (any, s)
  end.

(** ** Gathers *)

Definition punch_port (s : Agent) : Z := match local_address_ s with Some a => port a | None => 0 end.

Definition add_new (acc : list Candidate) (c : Candidate) : list Candidate :=
  if (length acc <? kMaxCandidates)%nat && negb (match c_address c with Some a => ContainsAddress acc a | None => false end)
  then acc ++ [c] else acc.

(** [interfaces]: what [getifaddrs] lists. *)
Definition CollectGather (interfaces : option (list ifaddr)) (p : Gather.ReflectProbe) (s : Agent) : GatherResult :=
  let candidates := foldl add_new (Gather.reflexive_ p) (Gather.LocalCandidates resolve interfaces (punch_port s)) in
  let candidates := match Gather.nat_type p with
                    | AddressDependent =>
                        foldl add_new candidates (Gather.PredictedPorts (Gather.reflexive_ p) kPredictedPortCount)
                    | _ => candidates
                    end in
  mkGathered (Gather.result p) candidates (Gather.nat_type p).

(** The loop over the gathers: those that go on, and what it did. *)
Fixpoint tick_gathers (now : Z) (interfaces : option (list ifaddr)) (gs : list Gathering) (any : bool) (kept : list Gathering)
    (s : Agent) : bool * list Gathering * Agent :=
  match gs with
  | [] => (any, kept, s)
  | g :: gs =>
      let '(sent, out, p) := Gather.Tick now (probe g) in
      let s := emit out s in
      let any := sent || any in
      if negb (Gather.Done now p) then tick_gathers now interfaces gs any (kept ++ [mkGathering p (g_on_done g)]) s
      else tick_gathers now interfaces gs true kept (report (gather_done (g_on_done g) (CollectGather interfaces p s)) s)
  end.

Definition TickGathers (interfaces : option (list ifaddr)) (s : Agent) : bool * Agent :=
  let s := set_gathers (gathers_ s ++ pending_gathers_ s) s in
  let s := set_pending_gathers [] s in
  let '(now, s) := now_ s in
  let '(any, kept, s) := tick_gathers now interfaces (gathers_ s) false [] s in
  (any, set_gathers kept s).

(** ** Punches *)

(** The key of the route a punch's public candidates name, if there is one. *)
Definition existing_route (offer : PunchOffer) (s : Agent) : option (list Z) :=
  let key c := match c_address c with Some a => RouteKey a 0 | None => [] end in
  key <$> List.find (fun c => bool_decide (c_type c = Reflexive) && bool_decide (is_Some (routes_ s !! key c))) (candidates offer).

(** The loop that resolves duplicate pairings. *)
Fixpoint match_routes (ps kept : list PunchInFlight) (s : Agent) : list PunchInFlight * Agent :=
  match ps with
  | [] => (kept, s)
  | p :: ps =>
      match existing_route (Punch.offer_ (machine p)) s with
      | None => match_routes ps (kept ++ [p]) s
      | Some key =>
          match on_done p, routes_ s !! key with
          | Some w, Some route =>
              match_routes ps kept
                (if IsReady (session route) then report [PunchDone w Success (Some (session_id route))] s
                 else set_routes (<[key := set_waiters (waiters route ++ [w]) route]> (routes_ s)) s)
          | _, _ => match_routes ps kept s
          end
      end
  end.

(** The loop that ticks the machines. *)
Fixpoint tick_punches (now : Z) (ps : list PunchInFlight) (any : bool) (kept : list PunchInFlight) (s : Agent)
  : bool * list PunchInFlight * Agent :=
  match ps with
  | [] => (any, kept, s)
  | p :: ps =>
      let '(outcome, out, m) := Punch.Tick now (machine p) in
      let s := emit out s in
      match Punch.state outcome with
      | Punch.Failed => tick_punches now ps any kept (report (punch_done (on_done p) (Punch.reason outcome) None) s)
      | _ => tick_punches now ps (any || Punch.sent outcome) (kept ++ [mkInFlight m (on_done p)]) s
      end
  end.

Definition TickPunches (s : Agent) : bool * Agent :=
  let s := set_punches (punches_ s ++ pending_ s) s in
  let s := set_pending [] s in
  let '(kept, s) := match_routes (punches_ s) [] s in
  let s := set_punches kept s in
  let '(now, s) := now_ s in
  let '(any, kept, s) := tick_punches now (punches_ s) false [] s in
  (any, set_punches kept s).

(** ** Sessions *)

(** One entry of the walk. *)
Definition process_route (now : Z) (acc : bool * Agent) (e : list Z * Route) : bool * Agent :=
  let '(any, s) := acc in
  let '(key, route) := e in
  if negb (IsAlive (session route)) then
    let '(rs, route) := ResolveWaiters route CannotConnect in
    (any, erase key (set_session (ReleaseHandler (session route)) route) (report rs s))
  else
    let '(worked, session) := Process (session route) in
    let route := set_session session route in
    let any := worked || any in
    let keep rs route := (any, set_routes (<[key := route]> (routes_ s)) (report rs s)) in
    if bool_decide (waiters route = []) then keep [] route
    else if IsReady session then let '(rs, route) := ResolveWaiters route Success in keep rs route
    else if ready_deadline route <=? now then
      let '(rs, route) := ResolveWaiters route Timeout in
      (any, erase key (set_session (ReleaseHandler (Close session)) route) (report rs s))
    else keep [] route.

Definition ProcessSessions (s : Agent) : bool * Agent :=
  let '(now, s) := now_ s in
  let '(any, s) := foldl (process_route now) (false, s) (walk (routes_ s)) in
  (any, set_session_count (map_size (routes_ s)) s).

(** ** Rebinding *)

Definition Rebind (ip : list Z) (port : Z) (opened : option Z) (bound : bool) (local : option InetAddress) (s : Agent)
  : Result * Agent :=
  if negb (running_ s) then (AlreadyStopped, s)
  else match from_host resolve ip port with
       | None => (InvalidAddress, s)
       | Some a =>
           if negb (is_valid a) || bool_decide (ipv a = Unix) then (InvalidAddress, s)
           else match opened with
                | None => (CannotCreateSocket, s)
                | Some handle =>
                    if negb bound then (CannotBind, s)
                    else (Success, set_pending_rebind (Some (mkSocket handle local)) s)
                end
       end.

Definition ApplyPendingRebind (s : Agent) : Agent :=
  match pending_rebind_ s with
  | None => s
  | Some next =>
      let s := set_pending_rebind None s in
      let s := set_routes ((fun r => set_session (MigrateSocket (fd next) (session r)) r) <$> routes_ s) s in
      set_local_address (socket_address next) (set_socket (Some (fd next)) s)
  end.

(** ** The tick thread *)

Definition rotate_secret (s : Agent) : Agent :=
  let '(now, s) := now_ s in
  set_cookie_secret (MaybeRotate (cookie_secret_rotation (zdt (config_ s)) * 1000000) now <$> cookie_secret_ s) s.

(** One turn of the loop, and whether it dozes after it. *)
Definition TickLoop (incoming : list RecvResult) (interfaces : option (list ifaddr)) (s : Agent) : bool * Agent :=
  let s := ApplyPendingRebind s in
  let s := rotate_secret s in
  let '(worked, s) := DrainSocket incoming false s in
  let '(w, s) := TickGathers interfaces s in
  let worked := w || worked in
  let '(w, s) := TickPunches s in
  let worked := w || worked in
  let '(w, s) := ProcessSessions s in
  let worked := w || worked in
  (negb worked, s).

(** ** Stopping *)

(** [running_.exchange(false)]; the tick thread is still there. *)
Definition StopRequest (s : Agent) : bool * Agent := (running_ s, set_running false s).

(** One route of the loop that closes them. *)
Definition stop_route (s : Agent) (e : list Z * Route) : Agent :=
  let '(rs, route) := ResolveWaiters e.2 AlreadyStopped in
  set_gone (gone_ s ++ [(session_id route, ReleaseHandler (Close (session route)))]) (report rs s).

(** The rest of [Stop], from the join on. *)
Definition StopFinish (s : Agent) : Agent :=
  let s := set_task false s in
  let s := set_pending [] (set_punches (punches_ s ++ pending_ s) s) in
  let s := set_pending_gathers [] (set_gathers (gathers_ s ++ pending_gathers_ s) s) in
  let s := report (concat (map (fun g => gather_done (g_on_done g) stopped_gather) (gathers_ s))) s in
  let s := set_gathers [] s in
  let s := report (concat (map (fun p => punch_done (on_done p) AlreadyStopped None) (punches_ s))) s in
  let s := set_punches [] s in
  let s := foldl stop_route s (walk (routes_ s)) in
  let s := set_routes ∅ s in
  let s := set_session_count 0 s in
  set_socket None s.

Definition Stop (s : Agent) : Agent :=
  let '(was_running, s) := StopRequest s in
  if was_running then StopFinish s else s.

End Agent.

End Agent.
