(* ===== verification/AgentTheorems.v ===== *)
(** * What the agent promises its callers

    Every callback handed to the agent is called exactly once, whatever the order in
    which the tick thread, the callers and [Stop] run; nothing outlives its deadline
    by more than a turn of the loop; success means a ready session.  Proved against
    the interface [Sessions], for every behaviour of the sessions. *)

From S2P Require Import Prelude Buffer BufferSpec BufferCodecs ZdtWire InetAddr Admission ZdtCookie ZdtOptions ZdtState ZdtSend ZdtTransport ZdtServer P2pPunch Agent.

Import Agent.

(** A callback: what it is for, and its number. *)
Inductive Callback := ForPunch (n : nat) | ForGather (n : nat).

#[export] Instance Callback_eq_dec : EqDecision Callback.
Proof. solve_decision. Defined.

(** Permutations by counting: hypotheses and goal become sums. *)
Lemma count_permutation (l l' : list Callback) : (forall c, count_occ Callback_eq_dec l c = count_occ Callback_eq_dec l' c) -> l ≡ₚ l'.
Proof. apply (Permutation_count_occ Callback_eq_dec). Qed.

Lemma permutation_count (l l' : list Callback) c : l ≡ₚ l' -> count_occ Callback_eq_dec l c = count_occ Callback_eq_dec l' c.
Proof. intros H. by apply (Permutation_count_occ Callback_eq_dec). Qed.

Ltac counting :=
  apply count_permutation; let c := fresh "c" in intros c;
  repeat match goal with H : _ ≡ₚ _ |- _ => apply (permutation_count _ _ c) in H end;
  repeat (progress (rewrite ?count_occ_app, ?count_occ_nil, ?map_app, ?bind_app, ?app_nil_r in *; cbn [map app] in * ));
  try lia.

(** Reads the fields of an updated state. *)
Ltac fields := cbn [fst snd now_ emit report done_ pending_ punches_ pending_gathers_ gathers_ routes_ ticks_ task_ running_ cookie_secret_ config_ set_done set_sent set_ticks set_pending set_punches set_pending_gathers set_gathers set_routes set_session_count set_next_session set_gone set_local_address set_socket set_pending_rebind set_cookie_secret set_task set_running] in *.

Section Promises.
Context `{P : Platform} `{I : Inet} `{C : CookieCrypto} `{Ss : Sessions}.
Context (clk : nat -> Z) (walk : gmap (list Z) Route -> list (list Z * Route)) (resolve : list Z -> list Z).
(** [unordered_map] iterates over what it holds. *)
Context (walks : forall m, walk m ≡ₚ map_to_list m).

(** ** The threads *)

(** A step of the system, with the callbacks it hands to the agent.  The tick
    thread's work may interleave with the callers between any two operations; the
    application may do anything to a session it was given. *)
Inductive agent_step (s : Agent) : list Callback -> Agent -> Prop :=
  | as_start opened bound local : task_ s = running_ s -> agent_step s [] (Start clk resolve opened bound local s).2
  | as_gather reflectors timeout guids on_done :
      agent_step s (match on_done with Some n => [ForGather n] | None => [] end) (Gather clk reflectors timeout guids on_done s)
  | as_punch offer guid on_done :
      agent_step s (match on_done with Some n => [ForPunch n] | None => [] end) (Punch clk offer guid on_done s)
  | as_rebind ip port opened bound local : agent_step s [] (Rebind resolve ip port opened bound local s).2
  | as_apply : task_ s = true -> agent_step s [] (ApplyPendingRebind s)
  | as_rotate : task_ s = true -> agent_step s [] (rotate_secret clk s)
  | as_drain incoming : task_ s = true -> agent_step s [] (DrainSocket clk walk incoming false s).2
  | as_gathers interfaces : task_ s = true -> agent_step s [] (TickGathers clk resolve interfaces s).2
  | as_punches : task_ s = true -> agent_step s [] (TickPunches clk s).2
  | as_sessions : task_ s = true -> agent_step s [] (ProcessSessions clk walk s).2
  | as_request : agent_step s [] (StopRequest s).2
  | as_finish : task_ s = true -> running_ s = false -> agent_step s [] (StopFinish walk s)
  | as_app key route f : routes_ s !! key = Some route ->
      agent_step s [] (set_routes (<[key := set_session (f (session route)) route]> (routes_ s)) s).

Inductive agent_reachable (config : AgentConfig) : list Callback -> Agent -> Prop :=
  | ar_new : agent_reachable config [] (Agent_new config)
  | ar_step asked s new s' : agent_reachable config asked s -> agent_step s new s' ->
      agent_reachable config (asked ++ new) s'.

(** ** The ledger *)

Definition called (r : Resolution) : Callback :=
  match r with PunchDone n _ _ => ForPunch n | GatherDone n _ => ForGather n end.

Definition of_punch (p : PunchInFlight) : list Callback := match on_done p with Some n => [ForPunch n] | None => [] end.
Definition of_gather (g : Gathering) : list Callback := match g_on_done g with Some n => [ForGather n] | None => [] end.
Definition of_routes (m : gmap (list Z) Route) : list Callback :=
  map_to_list m ≫= fun e => map ForPunch (waiters e.2).

(** The callbacks the agent still owes a call. *)
Definition held (s : Agent) : list Callback :=
  (pending_ s ≫= of_punch) ++ (punches_ s ≫= of_punch) ++ (pending_gathers_ s ≫= of_gather) ++ (gathers_ s ≫= of_gather) ++
  of_routes (routes_ s).

Definition ledger (s : Agent) : list Callback := map called (done_ s) ++ held s.

Lemma called_punch p result n : map called (punch_done (on_done p) result n) = of_punch p.
Proof. unfold of_punch. by destruct (on_done p). Qed.

Lemma called_gather g result : map called (gather_done (g_on_done g) result) = of_gather g.
Proof. unfold of_gather. by destruct (g_on_done g). Qed.

Lemma waiting_punch p : map ForPunch (match on_done p with Some w => [w] | None => [] end) = of_punch p.
Proof. unfold of_punch. by destruct (on_done p). Qed.

Lemma called_waiters r result : map called (ResolveWaiters r result).1 = map ForPunch (waiters r).
Proof. unfold ResolveWaiters. cbn. rewrite map_map. done. Qed.

(** Two states that owe and have answered the same. *)
Definition settles (s s' : Agent) : Prop := ledger s' ≡ₚ ledger s.

Lemma of_routes_insert_fresh m k r : m !! k = None -> of_routes (<[k := r]> m) ≡ₚ map ForPunch (waiters r) ++ of_routes m.
Proof. intros H. unfold of_routes. by rewrite map_to_list_insert by done. Qed.

Lemma of_routes_delete m k r : m !! k = Some r -> of_routes m ≡ₚ map ForPunch (waiters r) ++ of_routes (delete k m).
Proof. intros H. rewrite <- of_routes_insert_fresh by apply lookup_delete_eq. by rewrite insert_delete_id. Qed.

Lemma of_routes_replace m k r r' : m !! k = Some r ->
  map ForPunch (waiters r) ++ of_routes (<[k := r']> m) ≡ₚ map ForPunch (waiters r') ++ of_routes m.
Proof.
  intros H. rewrite <- insert_delete_eq, of_routes_insert_fresh by apply lookup_delete_eq.
  rewrite (of_routes_delete m k r) by done. rewrite !app_assoc. by rewrite (Permutation_app_comm (map _ (waiters r))).
Qed.

Lemma of_routes_same m k r r' : m !! k = Some r -> waiters r' = waiters r -> of_routes (<[k := r']> m) ≡ₚ of_routes m.
Proof. intros H E. pose proof (of_routes_replace m k r r' H) as Hp. rewrite E in Hp. by apply Permutation_app_inv_l in Hp. Qed.

Lemma of_routes_fmap m f : (forall r, waiters (f r) = waiters r) -> of_routes (f <$> m) ≡ₚ of_routes m.
Proof.
  intros H. induction m as [|k r m Hk IH] using map_ind; [done|].
  rewrite fmap_insert, !of_routes_insert_fresh by (rewrite ?lookup_fmap, ?Hk; done). by rewrite H, IH.
Qed.

Lemma bind_snoc {A} (f : A -> list Callback) (l : list A) x : ((l ++ [x]) ≫= f) = (l ≫= f) ++ f x.
Proof. rewrite bind_app. cbn. by rewrite app_nil_r. Qed.

Lemma bind_cons' {A} (f : A -> list Callback) (l : list A) x : ((x :: l) ≫= f) = f x ++ (l ≫= f).
Proof. done. Qed.

Lemma bind_insert {A} (f : A -> list Callback) (l : list A) i x y : l !! i = Some x -> f y = f x -> (<[i := y]> l ≫= f) = (l ≫= f).
Proof.
  intros Hi E. revert i Hi. induction l as [|a l IH]; intros [|i] Hi; try done; cbn in *.
  - simplify_eq. by rewrite E.
  - by rewrite IH.
Qed.

Lemma bind_delete {A} (f : A -> list Callback) (l : list A) i x : l !! i = Some x -> (l ≫= f) ≡ₚ f x ++ (delete i l ≫= f).
Proof.
  revert i. induction l as [|a l IH]; intros [|i] Hi; try done; cbn in *; [by simplify_eq|].
  rewrite (IH _ Hi), !app_assoc. by rewrite (Permutation_app_comm (f a)).
Qed.

(** A punch completes where its datagram came from, and never fails with success. *)
Lemma completed_here from channel data p outcome out m : Punch.OnDatagram from channel data p = (outcome, out, m) ->
  Punch.state outcome = Punch.Completed ->
  forall from', Punch.from outcome = Some from' -> from' = from /\ Punch.channel outcome = channel.
Proof.
  unfold Punch.OnDatagram. intros E Hs from' Hf.
  repeat (case_match; simplify_eq; cbn in *; simplify_eq; try done).
Qed.

Lemma failed_why from channel data p outcome out m : Punch.OnDatagram from channel data p = (outcome, out, m) ->
  Punch.state outcome = Punch.Failed -> Punch.reason outcome <> Success.
Proof. unfold Punch.OnDatagram. intros E Hs. repeat (case_match; simplify_eq; cbn in *; simplify_eq; try done). Qed.

(** ** Every operation settles *)

Ltac unfold_ledger := unfold settles, ledger, held; fields.

#[local] Instance settles_preorder : PreOrder settles.
Proof.
  split.
  - intros s. unfold settles. reflexivity.
  - intros s1 s2 s3 H1 H2. unfold settles in *. by rewrite H2.
Qed.

(** What a field that is in no ledger changes. *)
Lemma settles_eq s s' : done_ s' = done_ s -> pending_ s' = pending_ s -> punches_ s' = punches_ s ->
  pending_gathers_ s' = pending_gathers_ s -> gathers_ s' = gathers_ s -> routes_ s' = routes_ s -> settles s s'.
Proof. intros E1 E2 E3 E4 E5 E6. unfold settles, ledger, held. by rewrite E1, E2, E3, E4, E5, E6. Qed.

Lemma FailPunch_settles i reason s : settles s (FailPunch i reason s).
Proof.
  unfold FailPunch. destruct (punches_ s !! i) as [p|] eqn:Hp; [|done]. pose proof (bind_delete of_punch _ _ _ Hp) as Hd.
  unfold_ledger. rewrite map_app, called_punch. counting.
Qed.

Lemma CompletePunch_settles i outcome s :
  (forall from, Punch.from outcome = Some from -> routes_ s !! RouteKey from (Punch.channel outcome) = None) ->
  settles s (CompletePunch clk i outcome s).
Proof.
  intros Hf. unfold CompletePunch. destruct (punches_ s !! i) as [p|] eqn:Hp; [|done].
  destruct (Punch.from outcome) as [from|]; [|done]. specialize (Hf _ eq_refl). pose proof (bind_delete of_punch _ _ _ Hp) as Hd.
  unfold_ledger. rewrite of_routes_insert_fresh by done. cbn [waiters]. rewrite waiting_punch. counting.
Qed.

Lemma HandleOffline_settles from channel data s : routes_ s !! RouteKey from channel = None ->
  settles s (HandleOffline clk from channel data s).
Proof.
  intros Hk. unfold HandleOffline.
  destruct (if channel =? 0 then _ else _) as [ [i g]|] eqn:Hg.
  - assert (gathers_ s !! i = Some g) as Hi by (destruct (channel =? 0); [by apply list_find_Some in Hg as [? _]|done]).
    unfold_ledger. by erewrite bind_insert by done.
  - clear Hg. destruct (list_find _ (punches_ s)) as [ [i p]|] eqn:Hp; [|reflexivity]. apply list_find_Some in Hp as (Hi & Ho & _).
    destruct (Punch.OnDatagram from channel data (machine p)) as [ [outcome out] m] eqn:Hd.
    set (s1 := emit out _).
    assert (settles s s1) as H1 by (unfold s1; unfold_ledger; by erewrite bind_insert by done).
    destruct (Punch.state outcome) eqn:Hs; [done| |].
    + etransitivity; [exact H1|]. apply CompletePunch_settles. intros from' Hf.
      enough (from' = from /\ Punch.channel outcome = channel) as [-> ->] by done.
      by apply (completed_here _ _ _ _ _ _ _ Hd).
    + etransitivity; [exact H1|]. apply FailPunch_settles.
Qed.

Lemma walk_lookup m k r : (k, r) ∈ walk m -> m !! k = Some r.
Proof. rewrite (walks m). apply elem_of_map_to_list. Qed.

Lemma walk_keys m : NoDup (walk m).*1.
Proof. rewrite (walks m). apply NoDup_fst_map_to_list. Qed.

Lemma migrate_first_settles entries cid from s : (forall e, e ∈ entries -> routes_ s !! e.1 = Some e.2) ->
  routes_ s !! RouteKey from 0 = None -> settles s (migrate_first entries cid from s).
Proof.
  intros He Hk. induction entries as [|[key route] rest IH]; cbn; [reflexivity|].
  destruct (negb (_ =? _)); [apply IH; intros e Hin; apply He; by right|]. destruct (_ || _) eqn:Hb; [reflexivity|].
  pose proof (He _ (list_elem_of_here _ _)) as Hr. cbn in Hr. pose proof (of_routes_delete _ _ _ Hr) as Hd.
  unfold_ledger. rewrite of_routes_insert_fresh by (apply lookup_delete_None; by right). cbn. counting.
Qed.

Lemma CompletePathMigration_settles from data s : routes_ s !! RouteKey from 0 = None ->
  settles s (CompletePathMigration walk from data s).
Proof.
  intros Hk. unfold CompletePathMigration. destruct (path_message data); [|reflexivity]. destruct (cookie_secret_ s); [|reflexivity].
  destruct (negb _); [reflexivity|]. apply migrate_first_settles; [|done]. intros [k r] H. by apply walk_lookup.
Qed.

Lemma ChallengeNewPath_routes cid from s : routes_ (ChallengeNewPath walk cid from s).2 = routes_ s.
Proof. unfold ChallengeNewPath. repeat case_match; done. Qed.

Lemma ChallengeNewPath_settles cid from s : settles s (ChallengeNewPath walk cid from s).2.
Proof. unfold ChallengeNewPath. repeat case_match; by apply settles_eq. Qed.

Lemma AnswerPathChallenge_settles from data s : settles s (AnswerPathChallenge walk from data s).
Proof. unfold AnswerPathChallenge. repeat case_match; by apply settles_eq. Qed.

Lemma touch_settles key route f s : routes_ s !! key = Some route ->
  settles s (set_routes (<[key := set_session (f (session route)) route]> (routes_ s)) s).
Proof. intros H. unfold_ledger. by rewrite (of_routes_same _ _ route) by done. Qed.

Lemma route_datagram_settles from channel data s : settles s (route_datagram clk walk from channel data s).
Proof.
  unfold route_datagram. destruct (routes_ s !! _) as [route|] eqn:Hk.
  - destruct (_ && _ && _); [apply AnswerPathChallenge_settles|by apply touch_settles].
  - destruct (_ && _) eqn:Hm; [|by apply HandleOffline_settles]. apply andb_true_iff in Hm as [Hc _].
    apply Z.eqb_eq in Hc as ->. destruct (negb _).
    + case_bool_decide; [by apply CompletePathMigration_settles|by apply HandleOffline_settles].
    + destruct (PeekCid data) as [cid|]; [|by apply HandleOffline_settles].
      pose proof (ChallengeNewPath_settles cid from s) as H. pose proof (ChallengeNewPath_routes cid from s) as Hr.
      destruct (ChallengeNewPath walk cid from s) as [ [] s1]; cbn in *; [done|].
      etransitivity; [exact H|]. apply HandleOffline_settles. by rewrite Hr.
Qed.

Lemma on_datagram_settles data from s : settles s (on_datagram clk walk data from s).
Proof. unfold on_datagram. repeat case_match; try reflexivity; apply route_datagram_settles. Qed.

Lemma DrainSocket_settles incoming any s : settles s (DrainSocket clk walk incoming any s).2.
Proof.
  revert any s. induction incoming as [|r rest IH]; intros any s; cbn; [reflexivity|]. repeat case_match; try reflexivity.
  etransitivity; [apply on_datagram_settles|apply IH].
Qed.

Lemma tick_gathers_ledger now interfaces gs any kept s any' kept' s' :
  tick_gathers resolve now interfaces gs any kept s = (any', kept', s') ->
  map called (done_ s') ++ (kept' ≫= of_gather) ≡ₚ map called (done_ s) ++ (kept ≫= of_gather) ++ (gs ≫= of_gather) /\
  pending_ s' = pending_ s /\ punches_ s' = punches_ s /\ pending_gathers_ s' = pending_gathers_ s /\ routes_ s' = routes_ s.
Proof.
  revert any kept s. induction gs as [|g gs IH]; intros any kept s E; cbn [tick_gathers] in E; [simplify_eq; by rewrite app_nil_r|].
  destruct (Gather.Tick now (probe g)) as [ [sent out] p]. destruct (negb _); apply IH in E as (Hl & ? & ? & ? & ?); split_and!; try done; rewrite bind_cons'.
  - rewrite bind_snoc in Hl. change (of_gather (mkGathering p _)) with (of_gather g) in Hl. unfold emit in Hl. cbn [done_ set_sent] in Hl. counting.
  - unfold report, emit in Hl. cbn [done_ set_sent set_done] in Hl. rewrite map_app, called_gather in Hl. counting.
Qed.

Lemma TickGathers_settles interfaces s : settles s (TickGathers clk resolve interfaces s).2.
Proof.
  unfold TickGathers. fields. destruct (tick_gathers _ _ _ _ _ _ _) as [ [any kept] s'] eqn:E.
  apply tick_gathers_ledger in E as (Hl & E1 & E2 & E3 & E4). unfold_ledger. rewrite E1, E2, E3, E4.
  rewrite bind_app in Hl. cbn [mbind list_bind app] in *. counting.
Qed.

Lemma existing_route_Some offer s key : existing_route offer s = Some key -> exists route, routes_ s !! key = Some route.
Proof.
  unfold existing_route. rewrite fmap_Some. intros (c & Hc & ->). apply find_some in Hc as [_ Hc]. apply andb_true_iff in Hc as [_ Hc].
  by apply bool_decide_eq_true in Hc.
Qed.

Lemma match_routes_ledger ps kept s kept' s' : match_routes ps kept s = (kept', s') ->
  map called (done_ s') ++ (kept' ≫= of_punch) ++ of_routes (routes_ s') ≡ₚ
  map called (done_ s) ++ (kept ≫= of_punch) ++ (ps ≫= of_punch) ++ of_routes (routes_ s) /\
  pending_ s' = pending_ s /\ pending_gathers_ s' = pending_gathers_ s /\ gathers_ s' = gathers_ s /\ ticks_ s' = ticks_ s.
Proof.
  revert kept s. induction ps as [|p ps IH]; intros kept s E; cbn [match_routes] in E; [by simplify_eq|].
  rewrite bind_cons'. destruct (existing_route _ s) as [key|] eqn:Hk.
  - apply existing_route_Some in Hk as [route Hr]. rewrite Hr in E. destruct (on_done p) as [w|] eqn:Hw.
    + assert (of_punch p = [ForPunch w]) as -> by (unfold of_punch; by rewrite Hw). apply IH in E as (Hl & E1 & E2 & E3 & E4). destruct (IsReady (session route)); cbn [report set_done set_routes done_ routes_] in *; split_and!; try done.
      * rewrite map_app in Hl. change (map called [PunchDone w Success _]) with [ForPunch w] in Hl. counting.
      * pose proof (of_routes_replace _ _ _ (set_waiters (waiters route ++ [w]) route) Hr) as Hp.
        cbn [waiters set_waiters] in Hp. rewrite map_app in Hp. change (map ForPunch [w]) with [ForPunch w] in Hp. counting.
    + assert (of_punch p = []) as -> by (unfold of_punch; by rewrite Hw). apply IH in E as (Hl & ?). split; [|done]. counting.
  - apply IH in E as (Hl & ?). split; [|done]. rewrite bind_snoc in Hl. counting.
Qed.

Lemma tick_punches_ledger now ps any kept s any' kept' s' : tick_punches now ps any kept s = (any', kept', s') ->
  map called (done_ s') ++ (kept' ≫= of_punch) ≡ₚ map called (done_ s) ++ (kept ≫= of_punch) ++ (ps ≫= of_punch) /\
  pending_ s' = pending_ s /\ pending_gathers_ s' = pending_gathers_ s /\ gathers_ s' = gathers_ s /\ routes_ s' = routes_ s.
Proof.
  revert any kept s. induction ps as [|p ps IH]; intros any kept s E; cbn [tick_punches] in E; [simplify_eq; by rewrite app_nil_r|].
  destruct (Punch.Tick now (machine p)) as [ [outcome out] m]. rewrite bind_cons'.
  destruct (Punch.state outcome); apply IH in E as (Hl & ? & ? & ? & ?); split_and!; try done;
    unfold report, emit in Hl; cbn [done_ set_sent set_done] in Hl.
  1,2: rewrite bind_snoc in Hl; change (of_punch (mkInFlight m _)) with (of_punch p) in Hl; counting.
  rewrite map_app, called_punch in Hl. counting.
Qed.

Lemma TickPunches_settles s : settles s (TickPunches clk s).2.
Proof.
  unfold TickPunches. fields. destruct (match_routes _ _ _) as [kept s1] eqn:E1.
  apply match_routes_ledger in E1 as (Hl1 & A1 & A2 & A3 & A4). fields.
  destruct (tick_punches _ _ _ _ _) as [ [any kept'] s2] eqn:E2. apply tick_punches_ledger in E2 as (Hl2 & B1 & B2 & B3 & B4).
  unfold_ledger. rewrite B1, B2, B3, B4, A1, A2, A3. rewrite bind_app in Hl1. cbn [mbind list_bind app] in *. counting.
Qed.

(** One entry of a walk: it may change its own route only. *)
Definition own_route (key : list Z) (s s' : Agent) : Prop :=
  settles s s' /\ forall k, k <> key -> routes_ s' !! k = routes_ s !! k.

Lemma keep_own key route route' rs s : routes_ s !! key = Some route ->
  map ForPunch (waiters route) ≡ₚ map called rs ++ map ForPunch (waiters route') ->
  own_route key s (set_routes (<[key := route']> (routes_ s)) (report rs s)).
Proof.
  intros Hr Hw. split.
  - pose proof (of_routes_replace _ _ _ route' Hr) as Hp. unfold_ledger. rewrite map_app. counting.
  - intros k Hk. fields. by apply lookup_insert_ne.
Qed.

Lemma erase_own key route route' rs s : routes_ s !! key = Some route -> map called rs = map ForPunch (waiters route) ->
  own_route key s (erase key route' (report rs s)).
Proof.
  intros Hr Hw. split.
  - pose proof (of_routes_delete _ _ _ Hr) as Hp. unfold erase. unfold_ledger. rewrite map_app, Hw. counting.
  - intros k Hk. unfold erase. fields. by apply lookup_delete_ne.
Qed.

Lemma process_route_own now any s key route : routes_ s !! key = Some route ->
  own_route key s (process_route now (any, s) (key, route)).2.
Proof.
  intros Hr. unfold process_route. destruct (negb (IsAlive _)); [by eapply erase_own; [|apply called_waiters]|].
  destruct (Process (session route)) as [worked s1]. cbn [waiters ready_deadline set_session].
  case_bool_decide; [by apply (keep_own _ route)|]. destruct (IsReady s1).
  - apply (keep_own _ route); [done|]. cbn. by rewrite map_map, app_nil_r.
  - destruct (_ <=? _); [apply (erase_own _ route); [done|cbn; by rewrite map_map]|by apply (keep_own _ route)].
Qed.

Lemma walk_settles (f : bool * Agent -> list Z * Route -> bool * Agent) :
  (forall any s key route, routes_ s !! key = Some route -> own_route key s (f (any, s) (key, route)).2) ->
  forall es any s, NoDup es.*1 -> (forall e, e ∈ es -> routes_ s !! e.1 = Some e.2) -> settles s (foldl f (any, s) es).2.
Proof.
  intros Hf es. induction es as [|[key route] es IH]; intros any s Hn He; cbn [foldl]; [reflexivity|].
  apply NoDup_cons in Hn as [Hn1 Hn2]. pose proof (He _ (list_elem_of_here _ _)) as Hr. destruct (Hf any s key route Hr) as [H1 H2].
  destruct (f (any, s) (key, route)) as [any' s']. etransitivity; [exact H1|]. apply IH; [done|].
  intros e Hin. cbn in H2. rewrite H2; [apply He; by right|]. intros E. apply Hn1. cbn. rewrite <- E. by apply (list_elem_of_fmap_2 fst).
Qed.

Lemma ProcessSessions_settles s : settles s (ProcessSessions clk walk s).2.
Proof.
  unfold ProcessSessions. cbn [now_]. set (s0 := set_ticks _ s).
  pose proof (walk_settles (process_route (clk (ticks_ s))) (process_route_own _) (walk (routes_ s0)) false s0 (walk_keys _)) as H.
  destruct (foldl _ _ _) as [any s1]. specialize (H (fun e => match e with (k, r) => walk_lookup _ k r end)). exact H.
Qed.

(** ** Stopping *)

Lemma stop_routes es s :
  let s' := foldl stop_route s es in
  map called (done_ s') = map called (done_ s) ++ (es ≫= fun e => map ForPunch (waiters e.2)) /\
  pending_ s' = pending_ s /\ punches_ s' = punches_ s /\ pending_gathers_ s' = pending_gathers_ s /\ gathers_ s' = gathers_ s /\
  task_ s' = task_ s /\ running_ s' = running_ s.
Proof.
  revert s. induction es as [|e es IH]; intros s; cbn [foldl]; [by rewrite app_nil_r|].
  destruct (IH (stop_route s e)) as (E & ? & ? & ? & ? & ? & ?). cbn zeta in *. split_and!; try done. rewrite E. unfold stop_route.
  cbn [ResolveWaiters]. fields. rewrite map_app, map_map, <- app_assoc. done.
Qed.

(** The gathers and punches, before the sessions are closed. *)
Definition stop_machines (s : Agent) : Agent :=
  let s := set_task false s in
  let s := set_pending [] (set_punches (punches_ s ++ pending_ s) s) in
  let s := set_pending_gathers [] (set_gathers (gathers_ s ++ pending_gathers_ s) s) in
  let s := report (concat (map (fun g => gather_done (g_on_done g) stopped_gather) (gathers_ s))) s in
  let s := set_gathers [] s in
  let s := report (concat (map (fun p => punch_done (on_done p) AlreadyStopped None) (punches_ s))) s in
  set_punches [] s.

Lemma stop_machines_done s :
  map called (done_ (stop_machines s)) =
  map called (done_ s) ++ ((gathers_ s ++ pending_gathers_ s) ≫= of_gather) ++ ((punches_ s ++ pending_ s) ≫= of_punch).
Proof.
  assert (forall ps, map called (concat (map (fun p => punch_done (on_done p) AlreadyStopped None) ps)) = (ps ≫= of_punch)) as Hp.
  { induction ps as [|p ps IH]; [done|]. cbn. by rewrite map_app, called_punch, IH. }
  assert (forall gs, map called (concat (map (fun g => gather_done (g_on_done g) stopped_gather) gs)) = (gs ≫= of_gather)) as Hg.
  { induction gs as [|g gs IH]; [done|]. cbn. by rewrite map_app, called_gather, IH. }
  rewrite <- Hp, <- Hg, <- !(map_app called). f_equal. rewrite app_assoc. reflexivity.
Qed.

Lemma stop_machines_fields s : let s' := stop_machines s in
  pending_ s' = [] /\ punches_ s' = [] /\ pending_gathers_ s' = [] /\ gathers_ s' = [] /\ routes_ s' = routes_ s /\
  task_ s' = false /\ running_ s' = running_ s.
Proof. split_and!; reflexivity. Qed.

Lemma StopFinish_split s : StopFinish walk s =
  let s := foldl stop_route (stop_machines s) (walk (routes_ (stop_machines s))) in set_socket None (set_session_count 0 (set_routes ∅ s)).
Proof. reflexivity. Qed.

Lemma StopFinish_settles s : settles s (StopFinish walk s) /\ held (StopFinish walk s) = [].
Proof.
  rewrite StopFinish_split. cbn zeta. pose proof (stop_machines_done s) as Hd. destruct (stop_machines_fields s) as (F1 & F2 & F3 & F4 & F5 & _).
  cbn zeta in *. set (s0 := stop_machines s) in *. clearbody s0.
  destruct (stop_routes (walk (routes_ s0)) s0) as (E & E1 & E2 & E3 & E4 & _). cbn zeta in *. set (s1 := foldl _ _ _) in *. clearbody s1.
  unfold_ledger. rewrite E1, E2, E3, E4, F1, F2, F3, F4, E, Hd, F5. split; [|done]. rewrite (walks (routes_ s)).
  unfold of_routes. cbn [mbind list_bind app]. rewrite !bind_app. counting.
Qed.

(** ** The tick thread's work leaves the threads alone *)

Definition threads (s : Agent) : bool * bool := (task_ s, running_ s).

Lemma HandleOffline_threads from channel data s : threads (HandleOffline clk from channel data s) = threads s.
Proof. unfold HandleOffline, CompletePunch, FailPunch. repeat (case_match; simplify_eq; try done). Qed.

Lemma migrate_first_threads entries cid from s : threads (migrate_first entries cid from s) = threads s.
Proof. induction entries as [|[key route] rest IH]; cbn; [done|]. repeat case_match; done. Qed.

Lemma route_datagram_threads from channel data s : threads (route_datagram clk walk from channel data s) = threads s.
Proof.
  unfold route_datagram, AnswerPathChallenge, CompletePathMigration, ChallengeNewPath.
  repeat (case_match; simplify_eq; try done); try apply migrate_first_threads; apply HandleOffline_threads.
Qed.

Lemma DrainSocket_threads incoming any s : threads (DrainSocket clk walk incoming any s).2 = threads s.
Proof.
  revert any s. induction incoming as [|r rest IH]; intros any s; cbn; [done|]. repeat case_match; try done. rewrite IH.
  unfold on_datagram. repeat case_match; try done; apply route_datagram_threads.
Qed.

Lemma tick_gathers_threads now interfaces gs any kept s : threads (tick_gathers resolve now interfaces gs any kept s).2 = threads s.
Proof. revert any kept s. induction gs as [|g gs IH]; intros any kept s; cbn [tick_gathers]; [done|]. repeat case_match; by rewrite IH. Qed.

Lemma TickGathers_threads interfaces s : threads (TickGathers clk resolve interfaces s).2 = threads s.
Proof.
  unfold TickGathers. fields. match goal with |- context [tick_gathers ?r ?n ?i ?g ?a ?k ?s] => pose proof (tick_gathers_threads n i g a k s) as H end.
  destruct (tick_gathers _ _ _ _ _ _ _) as [ [any kept] s']. exact H.
Qed.

Lemma match_routes_threads ps kept s : threads (match_routes ps kept s).2 = threads s.
Proof. revert kept s. induction ps as [|p ps IH]; intros kept s; cbn [match_routes]; [done|]. repeat case_match; by rewrite IH. Qed.

Lemma tick_punches_threads now ps any kept s : threads (tick_punches now ps any kept s).2 = threads s.
Proof. revert any kept s. induction ps as [|p ps IH]; intros any kept s; cbn [tick_punches]; [done|]. repeat case_match; by rewrite IH. Qed.

Lemma TickPunches_threads s : threads (TickPunches clk s).2 = threads s.
Proof.
  unfold TickPunches. fields.
  match goal with |- context [match_routes ?g ?k ?s] => pose proof (match_routes_threads g k s) as H end.
  destruct (match_routes _ _ _) as [kept s1]. fields.
  match goal with |- context [tick_punches ?n ?g ?a ?k ?s] => pose proof (tick_punches_threads n g a k s) as H2 end.
  destruct (tick_punches _ _ _ _ _) as [ [any kept'] s2]. cbn in *. etransitivity; [exact H2|exact H].
Qed.

Lemma ProcessSessions_threads s : threads (ProcessSessions clk walk s).2 = threads s.
Proof.
  unfold ProcessSessions. fields.
  assert (forall es any s1, threads (foldl (process_route (clk (ticks_ s))) (any, s1) es).2 = threads s1) as H.
  { induction es as [|[key route] es IH]; intros any s1; [done|]. cbn [foldl].
    destruct (process_route _ _ _) as [any' s'] eqn:E. rewrite IH. unfold process_route, ResolveWaiters, erase in E.
    repeat (case_match; simplify_eq; try done). }
  match goal with |- context [foldl ?f (?a, ?s1) ?es] => specialize (H es a s1) end.
  destruct (foldl _ _ _) as [any s1]. exact H.
Qed.

(** ** Exactly once *)

Lemma StopFinish_threads s : threads (StopFinish walk s) = (false, running_ s).
Proof.
  rewrite StopFinish_split. cbn zeta. destruct (stop_machines_fields s) as (_ & _ & _ & _ & _ & F1 & F2).
  destruct (stop_routes (walk (routes_ (stop_machines s))) (stop_machines s)) as (_ & _ & _ & _ & _ & E1 & E2).
  unfold threads. fields. by rewrite E1, E2, F1, F2.
Qed.

Lemma ApplyPendingRebind_settles s : settles s (ApplyPendingRebind s).
Proof. unfold ApplyPendingRebind. destruct (pending_rebind_ s); [|reflexivity]. unfold_ledger. by rewrite of_routes_fmap. Qed.

Lemma Punch_settles offer guid on_done s :
  ledger (Punch clk offer guid on_done s) ≡ₚ ledger s ++ match on_done with Some n => [ForPunch n] | None => [] end.
Proof.
  unfold Punch. destruct (negb _); [|fields; destruct (negb _)]; unfold ledger, held; fields; rewrite ?map_app, ?bind_snoc;
    destruct on_done; cbn [punch_done map called of_punch Agent.on_done]; counting.
Qed.

Lemma Gather_settles reflectors timeout guids on_done s :
  ledger (Gather clk reflectors timeout guids on_done s) ≡ₚ ledger s ++ match on_done with Some n => [ForGather n] | None => [] end.
Proof.
  unfold Gather. fields. destruct (negb _); unfold ledger, held; fields; rewrite ?map_app, ?bind_snoc;
    destruct on_done; cbn [gather_done map called of_gather g_on_done]; counting.
Qed.

(** When the thread is gone the agent holds nothing and takes nothing. *)
Definition rests (s : Agent) : Prop := (running_ s = true -> task_ s = true) /\ (task_ s = false -> held s = []).

Lemma running_rests s s' : task_ s = true -> threads s' = threads s -> rests s'.
Proof. intros Ht E. unfold threads in E. simplify_eq E. intros E1 E2. split; congruence. Qed.

Lemma tick_step s s' : task_ s = true -> settles s s' -> threads s' = threads s -> ledger s' ≡ₚ ledger s ++ [] /\ rests s'.
Proof.
  intros Ht Hs E. rewrite app_nil_r. split; [exact Hs|]. by apply (running_rests s).
Qed.

Lemma idle_step s s' : rests s -> threads s' = threads s -> held s' ≡ₚ held s -> done_ s' = done_ s ->
  ledger s' ≡ₚ ledger s ++ [] /\ rests s'.
Proof.
  intros [H1 H2] E Hh Ed. unfold threads in E. simplify_eq E. intros E1 E2. rewrite app_nil_r. unfold ledger. rewrite Hh, Ed. split; [done|].
  split; [by rewrite E1, E2|]. rewrite E1. intros Ht. apply Permutation_nil. symmetry. by rewrite Hh, (H2 Ht).
Qed.

Lemma step_settles s new s' : agent_step s new s' -> rests s -> ledger s' ≡ₚ ledger s ++ new /\ rests s'.
Proof.
  intros Hst Hr. destruct Hst.
  - unfold Start. repeat (case_match; try (by apply idle_step)). unfold now_ in *. simplify_eq. cbn [snd]. rewrite app_nil_r. split; [by apply (settles_eq s)|]. done.
  - split; [apply Gather_settles|]. unfold Gather. fields. destruct (running_ s) eqn:E; cbn [negb]; [|exact Hr].
    apply (running_rests s); [by apply Hr|done].
  - split; [apply Punch_settles|]. unfold Punch. destruct (negb _); [exact Hr|]. fields.
    destruct (running_ s) eqn:E; cbn [negb]; [|exact Hr]. apply (running_rests s); [by apply Hr|done].
  - unfold Rebind. repeat case_match; by apply idle_step.
  - apply tick_step; [done|apply ApplyPendingRebind_settles|]. unfold ApplyPendingRebind. by case_match.
  - by apply tick_step; [|apply settles_eq|].
  - apply tick_step; [done|apply DrainSocket_settles|apply DrainSocket_threads].
  - apply tick_step; [done|apply TickGathers_settles|apply TickGathers_threads].
  - apply tick_step; [done|apply TickPunches_settles|apply TickPunches_threads].
  - apply tick_step; [done|apply ProcessSessions_settles|apply ProcessSessions_threads].
  - rewrite app_nil_r. split; [done|]. by destruct Hr.
  - destruct (StopFinish_settles s) as [Hs Hh]. pose proof (StopFinish_threads s) as E. unfold threads in E. simplify_eq E. intros E1 E2.
    rewrite app_nil_r. split; [exact Hs|]. split; congruence.
  - apply idle_step; [done..| |done]. unfold held. fields. by rewrite (of_routes_same _ _ route).
Qed.

Lemma reachable_settles config asked s : agent_reachable config asked s -> asked ≡ₚ ledger s /\ rests s.
Proof.
  induction 1 as [|asked s new s' _ [IH Hr] Hst]; [done|]. destruct (step_settles _ _ _ Hst Hr) as [E Hr']. split; [|done]. by rewrite E, IH.
Qed.

(** A turn of the loop, and a whole [Stop], are made of steps. *)
Lemma quiet_step config asked s s' : agent_reachable config asked s -> agent_step s [] s' -> agent_reachable config asked s'.
Proof. intros H Hs. rewrite <- (app_nil_r asked). by eapply ar_step. Qed.

Lemma turn_reachable config asked s incoming interfaces : agent_reachable config asked s -> task_ s = true ->
  let s' := (TickLoop clk walk resolve incoming interfaces s).2 in agent_reachable config asked s' /\ task_ s' = true.
Proof.
  intros H0 T0. unfold TickLoop. set (s1 := ApplyPendingRebind s).
  assert (threads s1 = threads s) as E1 by (unfold s1, ApplyPendingRebind; by destruct (pending_rebind_ s)).
  assert (agent_reachable config asked s1) as H1 by (eapply quiet_step; [exact H0|by apply as_apply]).
  assert (forall t u : Agent, threads t = threads u -> task_ u = true -> task_ t = true) as Ht by (unfold threads; congruence).
  pose proof (Ht _ _ E1 T0) as T1. clearbody s1. assert (agent_reachable config asked (rotate_secret clk s1)) as H2 by (eapply quiet_step; [exact H1|by apply as_rotate]).
  assert (task_ (rotate_secret clk s1) = true) as T2 by done. set (s2 := rotate_secret clk s1) in *. clearbody s2.
  pose proof (quiet_step _ _ _ _ H2 (as_drain _ incoming T2)) as H3. pose proof (Ht _ _ (DrainSocket_threads incoming false s2) T2) as T3.
  destruct (DrainSocket clk walk incoming false s2) as [w3 s3]. cbn [snd] in H3, T3.
  pose proof (quiet_step _ _ _ _ H3 (as_gathers _ interfaces T3)) as H4. pose proof (Ht _ _ (TickGathers_threads interfaces s3) T3) as T4.
  destruct (TickGathers clk resolve interfaces s3) as [w4 s4]. cbn [snd] in H4, T4.
  pose proof (quiet_step _ _ _ _ H4 (as_punches _ T4)) as H5. pose proof (Ht _ _ (TickPunches_threads s4) T4) as T5.
  destruct (TickPunches clk s4) as [w5 s5]. cbn [snd] in H5, T5.
  pose proof (quiet_step _ _ _ _ H5 (as_sessions _ T5)) as H6. pose proof (Ht _ _ (ProcessSessions_threads s5) T5) as T6.
  destruct (ProcessSessions clk walk s5) as [w6 s6]. done.
Qed.

Lemma stop_reachable config asked s : agent_reachable config asked s -> task_ s = true -> agent_reachable config asked (Stop walk s).
Proof.
  intros H T. pose proof (quiet_step _ _ _ _ H (as_request s)) as H1. unfold Stop, StopRequest in *. cbn [snd] in H1.
  destruct (running_ s); [|exact H1]. eapply quiet_step; [exact H1|by apply as_finish].
Qed.

(** [C9] Every callback is called exactly once: whatever the callers, the tick
    thread and the peers do, and however they interleave, the callbacks handed to the
    agent are those called so far and those it still holds, each as often as it was
    handed over; and once the tick thread is gone ([Stop] has returned) it holds none,
    so every gather and punch ever asked for has been answered. *)
Theorem callbacks_exactly_once config asked s : agent_reachable config asked s ->
  asked ≡ₚ map called (done_ s) ++ held s /\ (task_ s = false -> asked ≡ₚ map called (done_ s)).
Proof.
  intros H. apply reachable_settles in H as [E [_ Hr] ]. split; [exact E|]. intros Ht. rewrite E. unfold ledger.
  by rewrite (Hr Ht), app_nil_r.
Qed.

(** ** Nothing outlives its deadline *)

Lemma HandleOffline_ticks from channel data s : (ticks_ s <= ticks_ (HandleOffline clk from channel data s))%nat.
Proof. unfold HandleOffline, CompletePunch, FailPunch, now_. repeat (case_match; simplify_eq; try (cbn; lia)). Qed.

Lemma migrate_first_ticks entries cid from s : ticks_ (migrate_first entries cid from s) = ticks_ s.
Proof. induction entries as [|[key route] rest IH]; cbn; [done|]. repeat case_match; done. Qed.

Lemma route_datagram_ticks from channel data s : (ticks_ s <= ticks_ (route_datagram clk walk from channel data s))%nat.
Proof.
  unfold route_datagram, AnswerPathChallenge, CompletePathMigration, ChallengeNewPath.
  repeat (case_match; simplify_eq; try (cbn; lia)); rewrite ?migrate_first_ticks; try lia; (etransitivity; [|apply HandleOffline_ticks]); cbn; lia.
Qed.

Lemma DrainSocket_ticks incoming any s : (ticks_ s <= ticks_ (DrainSocket clk walk incoming any s).2)%nat.
Proof.
  revert any s. induction incoming as [|r rest IH]; intros any s; cbn; [done|]. repeat case_match; try done.
  etransitivity; [|apply IH]. unfold on_datagram. repeat case_match; try done; apply route_datagram_ticks.
Qed.

Lemma tick_gathers_due now interfaces gs any kept s any' kept' s' :
  tick_gathers resolve now interfaces gs any kept s = (any', kept', s') ->
  Forall (fun g => now < Gather.probe_deadline_ (probe g)) kept -> Forall (fun g => now < Gather.probe_deadline_ (probe g)) kept' /\ ticks_ s' = ticks_ s.
Proof.
  revert any kept s. induction gs as [|g gs IH]; intros any kept s E Hk; cbn [tick_gathers] in E; [by simplify_eq|].
  destruct (Gather.Tick now (probe g)) as [ [sent out] p]. destruct (Gather.Done now p) eqn:Hd; cbn [negb] in E; (apply IH in E; [exact E|]); [done|].
  apply Forall_app. split; [done|]. apply Forall_singleton. unfold Gather.Done in Hd. cbn. apply orb_false_iff in Hd as [Hd _]. lia.
Qed.

Lemma tick_punches_due now ps any kept s any' kept' s' : tick_punches now ps any kept s = (any', kept', s') ->
  Forall (fun p => now < Punch.deadline_ (machine p)) kept -> Forall (fun p => now < Punch.deadline_ (machine p)) kept' /\ ticks_ s' = ticks_ s.
Proof.
  revert any kept s. induction ps as [|p ps IH]; intros any kept s E Hk; cbn [tick_punches] in E; [by simplify_eq|].
  destruct (Punch.Tick now (machine p)) as [ [outcome out] m] eqn:Ht.
  assert (Punch.state outcome = Punch.Failed \/ Punch.state outcome = Punch.Pending /\ now < Punch.deadline_ m) as Hm.
  { unfold Punch.Tick in Ht. destruct (_ <=? now) eqn:Hd in Ht; [simplify_eq; by left|right]. repeat case_match; simplify_eq; cbn; split; (done || lia). }
  destruct Hm as [Hm|[Hm Hd] ]; rewrite Hm in E; (apply IH in E; [exact E|]); [done|].
  apply Forall_app. split; [done|]. by apply Forall_singleton.
Qed.

(** What a walk over the sessions leaves: the routes it kept are not overdue. *)
Definition prompt (now : Z) (r : Route) : Prop := waiters r = [] \/ now < ready_deadline r.

Lemma process_route_due now any s key route :
  let s' := (process_route now (any, s) (key, route)).2 in
  (forall r, routes_ s' !! key = Some r -> prompt now r) /\ (forall k, k <> key -> routes_ s' !! k = routes_ s !! k) /\
  pending_ s' = pending_ s /\ punches_ s' = punches_ s /\ pending_gathers_ s' = pending_gathers_ s /\ gathers_ s' = gathers_ s.
Proof.
  cbn zeta. unfold process_route, ResolveWaiters, erase, prompt. fields.
  repeat (case_match; simplify_eq; fields); (split_and!; try done);
    try (intros k Hk; by rewrite ?lookup_delete_ne, ?lookup_insert_ne by done);
    intros r; rewrite ?lookup_delete_eq, ?lookup_insert_eq; intros Er; simplify_eq; cbn in *; try (left; done).
  all: try (case_bool_decide; [by left|done]). right. lia.
Qed.

Lemma process_walk_due now es any s :
  let s' := (foldl (process_route now) (any, s) es).2 in
  (forall k r, routes_ s' !! k = Some r -> k ∈ es.*1 -> prompt now r) /\ (forall k, k ∉ es.*1 -> routes_ s' !! k = routes_ s !! k) /\
  pending_ s' = pending_ s /\ punches_ s' = punches_ s /\ pending_gathers_ s' = pending_gathers_ s /\ gathers_ s' = gathers_ s.
Proof.
  revert any s. induction es as [|[key route] es IH]; intros any s; cbn [foldl]; [cbn; split_and!; try done; intros k r _ Hin; by apply not_elem_of_nil in Hin|].
  destruct (process_route_due now any s key route) as (A1 & A2 & A3 & A4 & A5 & A6). destruct (process_route now (any, s) (key, route)) as [any1 s1].
  destruct (IH any1 s1) as (B1 & B2 & B3 & B4 & B5 & B6). cbn zeta in *. fields. split_and!; try congruence.
  - intros k r Hr Hin. destruct (decide (k ∈ es.*1)) as [Hes|Hes]; [by apply (B1 k)|].
    apply elem_of_cons in Hin as [->|Hin]; [|done]. rewrite B2 in Hr by done. by apply A1.
  - intros k Hk. apply not_elem_of_cons in Hk as [Hk1 Hk2]. by rewrite B2, A2.
Qed.

Lemma ProcessSessions_due s : let s' := (ProcessSessions clk walk s).2 in
  map_Forall (fun _ r => prompt (clk (ticks_ s)) r) (routes_ s') /\
  pending_ s' = pending_ s /\ punches_ s' = punches_ s /\ pending_gathers_ s' = pending_gathers_ s /\ gathers_ s' = gathers_ s.
Proof.
  unfold ProcessSessions. cbn [now_]. set (s0 := set_ticks _ s).
  destruct (process_walk_due (clk (ticks_ s)) (walk (routes_ s0)) false s0) as (A1 & A2 & A3 & A4 & A5 & A6).
  destruct (foldl _ _ _) as [any s1]. cbn zeta in *. fields. split_and!; try done. intros k r Hr.
  destruct (decide (k ∈ (walk (routes_ s0)).*1)) as [Hk|Hk]; [by apply (A1 k)|]. rewrite A2 in Hr by done. exfalso. apply Hk.
  rewrite (walks (routes_ s0)). apply list_elem_of_fmap. exists (k, r). split; [done|]. by apply elem_of_map_to_list.
Qed.

Lemma TickGathers_due interfaces s : let s' := (TickGathers clk resolve interfaces s).2 in
  Forall (fun g => clk (ticks_ s) < Gather.probe_deadline_ (probe g)) (gathers_ s') /\ pending_gathers_ s' = [] /\ ticks_ s' = S (ticks_ s).
Proof.
  unfold TickGathers. fields. destruct (tick_gathers _ _ _ _ _ _ _) as [ [any kept] s1] eqn:E. cbn zeta. fields.
  pose proof (tick_gathers_ledger _ _ _ _ _ _ _ _ _ E) as (_ & _ & _ & E3 & _).
  apply tick_gathers_due in E as [Hk Et]; [|done]. done.
Qed.

Lemma TickPunches_due s : let s' := (TickPunches clk s).2 in
  Forall (fun p => clk (ticks_ s) < Punch.deadline_ (machine p)) (punches_ s') /\ pending_ s' = [] /\ ticks_ s' = S (ticks_ s) /\
  pending_gathers_ s' = pending_gathers_ s /\ gathers_ s' = gathers_ s.
Proof.
  unfold TickPunches. fields. destruct (match_routes _ _ _) as [kept s1] eqn:E1.
  apply match_routes_ledger in E1 as (_ & A1 & A2 & A3 & A4). fields.
  destruct (tick_punches _ _ _ _ _) as [ [any kept'] s2] eqn:E2. pose proof (tick_punches_ledger _ _ _ _ _ _ _ _ E2) as (_ & B1 & B2 & B3 & _).
  apply tick_punches_due in E2 as [Hk Et]; [|done]. cbn zeta. fields. rewrite A4 in *. split_and!; try done; congruence.
Qed.

(** [C12] A turn of the tick loop leaves nothing overdue: with a clock that does not
    run backwards, after one turn every gather, every punch and every caller waiting
    for a handshake that is still held has its deadline later than the time at which
    the turn began, and nothing is left in the pending lists.  With the ledger, what
    was overdue has been answered.  The turn is taken as a whole: requests made by a
    callback or by another thread during it are the next turn's. *)
Theorem turn_leaves_nothing_overdue incoming interfaces s : (forall m n, (m <= n)%nat -> clk m <= clk n) ->
  let s' := (TickLoop clk walk resolve incoming interfaces s).2 in
  let began := clk (ticks_ s) in
  Forall (fun g => began < Gather.probe_deadline_ (probe g)) (gathers_ s') /\
  Forall (fun p => began < Punch.deadline_ (machine p)) (punches_ s') /\
  map_Forall (fun _ r => waiters r = [] \/ began < ready_deadline r) (routes_ s') /\
  pending_ s' = [] /\ pending_gathers_ s' = [].
Proof.
  intros Hc. unfold TickLoop. set (s1 := rotate_secret clk (ApplyPendingRebind s)).
  assert (ticks_ s1 = S (ticks_ s)) as T1 by (unfold s1, ApplyPendingRebind; by destruct (pending_rebind_ s)). clearbody s1.
  pose proof (DrainSocket_ticks incoming false s1) as T2. destruct (DrainSocket clk walk incoming false s1) as [w2 s2].
  pose proof (TickGathers_due interfaces s2) as (G1 & G2 & T3). destruct (TickGathers clk resolve interfaces s2) as [w3 s3].
  pose proof (TickPunches_due s3) as (P1 & P2 & T4 & P3 & P4). destruct (TickPunches clk s3) as [w4 s4].
  pose proof (ProcessSessions_due s4) as (S1 & S2 & S3 & S4 & S5). destruct (ProcessSessions clk walk s4) as [w5 s5].
  cbn zeta in *. fields. rewrite S5, S3, P4, S2, S4.
  assert (forall n, (ticks_ s <= n)%nat -> clk (ticks_ s) <= clk n) as Hb by (intros; by apply Hc).
  pose proof (Hb (ticks_ s2) ltac:(lia)). pose proof (Hb (ticks_ s3) ltac:(lia)). pose proof (Hb (ticks_ s4) ltac:(lia)).
  split_and!; [eapply Forall_impl; [exact G1|]; cbn; lia|eapply Forall_impl; [exact P1|]; cbn; lia| |done|congruence].
  intros k r Hr. destruct (S1 k r Hr) as [?|?]; [by left|right; lia].
Qed.

End Promises.
