(* ===== verification/AgentSafety.v ===== *)
(** * The agent's sessions: who is told, who is moved

    A caller told of success is given a ready session of the table; a datagram
    reaches only the session of the path it came by; a session changes path only on a
    proof of the new one.  Three behaviours the code does not mean are here too. *)

From S2P Require Import Prelude Buffer BufferSpec BufferCodecs ZdtWire ZdtOffline InetAddr Admission ZdtCookie ZdtOptions ZdtState ZdtSend ZdtTransport ZdtServer ZdtMessages P2pPunch P2pMessages Agent AgentTheorems.

Import Agent.

Section Safety.
Context `{P : Platform} `{I : Inet} `{C : CookieCrypto} `{Ss : Sessions}.
Context (clk : nat -> Z) (walk : gmap (list Z) Route -> list (list Z * Route)) (resolve : list Z -> list Z).
Context (walks : forall m, walk m ≡ₚ map_to_list m).

(** ** Success means ready *)

(** What a caller may be told, given the routes. *)
Definition truthful (m : gmap (list Z) Route) (r : Resolution) : Prop :=
  match r with
  | PunchDone _ result o =>
      result = Success /\ (exists key route, m !! key = Some route /\ o = Some (session_id route) /\ IsReady (session route) = true) \/
      result <> Success /\ o = None
  | GatherDone _ _ => True
  end.

(** Calls that promise nothing of a session. *)
Definition refused (r : Resolution) : Prop :=
  match r with PunchDone _ result o => result <> Success /\ o = None | GatherDone _ _ => True end.

Lemma refused_truthful m rs : Forall refused rs -> Forall (truthful m) rs.
Proof. intros H. eapply Forall_impl; [exact H|]. intros [n result o|]; cbn; [by right|done]. Qed.

Definition tells (s s' : Agent) : Prop := exists rs, done_ s' = done_ s ++ rs /\ Forall (truthful (routes_ s')) rs.

Definition refuses (s s' : Agent) : Prop := exists rs, done_ s' = done_ s ++ rs /\ Forall refused rs.

Lemma refuses_tells s s' : refuses s s' -> tells s s'.
Proof. intros (rs & E & H). exists rs. split; [done|by apply refused_truthful]. Qed.

Lemma silent s s' : done_ s' = done_ s -> refuses s s'.
Proof. intros E. exists []. by rewrite app_nil_r. Qed.

#[local] Instance refuses_preorder : PreOrder refuses.
Proof.
  split; [intros s; by apply silent|]. intros s1 s2 s3 (rs & E & H) (rs' & E' & H'). exists (rs ++ rs').
  rewrite E', E, app_assoc. split; [done|]. by apply Forall_app.
Qed.

Lemma report_refuses rs s : Forall refused rs -> refuses s (report rs s).
Proof. intros H. by exists rs. Qed.

Lemma punch_done_refused cb result : result <> Success -> Forall refused (punch_done cb result None).
Proof. intros H. destruct cb; cbn; by repeat constructor. Qed.

Lemma gather_done_refused cb result : Forall refused (gather_done cb result).
Proof. destruct cb; cbn; by repeat constructor. Qed.

Lemma waiters_refused r result : result <> Success -> Forall refused (ResolveWaiters r result).1.
Proof. intros H. cbn. apply Forall_map, Forall_forall. intros w _. cbn. by rewrite bool_decide_eq_false_2. Qed.

Lemma HandleOffline_refuses from channel data s : refuses s (HandleOffline clk from channel data s).
Proof.
  unfold HandleOffline. destruct (if channel =? 0 then _ else _) as [ [i g]|]; [by apply silent|].
  destruct (list_find _ (punches_ s)) as [ [i p]|]; [|reflexivity].
  destruct (Punch.OnDatagram from channel data (machine p)) as [ [outcome out] m] eqn:Hd.
  destruct (Punch.state outcome) eqn:Hs; [by apply silent| |].
  - unfold CompletePunch, now_. repeat case_match; simplify_eq; by apply silent.
  - unfold FailPunch. case_match; [|by apply silent]. etransitivity; [|by apply report_refuses, punch_done_refused, (failed_why _ _ _ _ _ _ _ Hd)].
    by apply silent.
Qed.

Lemma route_datagram_refuses from channel data s : refuses s (route_datagram clk walk from channel data s).
Proof.
  unfold route_datagram, AnswerPathChallenge, CompletePathMigration.
  assert (forall es cid, refuses s (migrate_first es cid from s)) as Hm.
  { induction es as [|[k r] es IH]; intros cid; cbn; [reflexivity|]. repeat case_match; try done; by apply silent. }
  assert (forall s1, done_ s1 = done_ s -> refuses s (HandleOffline clk from channel data s1)) as Hh.
  { intros s1 E. etransitivity; [by apply silent|apply HandleOffline_refuses]. }
  unfold ChallengeNewPath. repeat (case_match; simplify_eq); try apply Hm; try (by apply Hh); by apply silent.
Qed.

Lemma DrainSocket_refuses incoming any s : refuses s (DrainSocket clk walk incoming any s).2.
Proof.
  revert any s. induction incoming as [|r rest IH]; intros any s; cbn; [reflexivity|]. repeat case_match; try reflexivity.
  etransitivity; [|apply IH]. unfold on_datagram. repeat case_match; try reflexivity; apply route_datagram_refuses.
Qed.

Lemma tick_gathers_refuses now interfaces gs any kept s : refuses s (tick_gathers resolve now interfaces gs any kept s).2.
Proof.
  revert any kept s. induction gs as [|g gs IH]; intros any kept s; cbn [tick_gathers]; [reflexivity|].
  destruct (Gather.Tick now (probe g)) as [ [sent out] p]. destruct (negb _); (etransitivity; [|apply IH]); [by apply silent|].
  etransitivity; [by apply (silent _ (emit out s))|].
  apply report_refuses, gather_done_refused.
Qed.

Lemma tick_punches_refuses now ps any kept s : refuses s (tick_punches now ps any kept s).2.
Proof.
  revert any kept s. induction ps as [|p ps IH]; intros any kept s; cbn [tick_punches]; [reflexivity|].
  destruct (Punch.Tick now (machine p)) as [ [outcome out] m] eqn:Ht. destruct (Punch.state outcome) eqn:Hs; (etransitivity; [|apply IH]); try (by apply silent).
  etransitivity; [by apply (silent _ (emit out s))|]. apply report_refuses, punch_done_refused.
  unfold Punch.Tick in Ht. repeat case_match; simplify_eq; done.
Qed.

(** The routes keep their sessions. *)
Definition persists (m m' : gmap (list Z) Route) : Prop :=
  forall k r, m !! k = Some r -> exists r', m' !! k = Some r' /\ session_id r' = session_id r /\ session r' = session r.

Lemma truthful_persists m m' r : persists m m' -> truthful m r -> truthful m' r.
Proof.
  intros H. destruct r as [n result o|]; [|done]. intros [ [E (key & route & Hr & Eo & Hready)]|Hr]; [left|by right]. split; [done|].
  destruct (H _ _ Hr) as (route' & Hr' & Ei & Es). exists key, route'. by rewrite Ei, Es.
Qed.

Lemma match_routes_tells ps kept s : let s' := (match_routes ps kept s).2 in
  persists (routes_ s) (routes_ s') /\ tells s s'.
Proof.
  revert kept s. induction ps as [|p ps IH]; intros kept s; cbn [match_routes].
  { split; [intros k r Hr; by exists r|]. by apply refuses_tells, silent. }
  destruct (existing_route _ s) as [key|] eqn:Hk; [|apply IH]. apply existing_route_Some in Hk as [route Hr]. rewrite Hr.
  destruct (on_done p) as [w|]; [|apply IH]. destruct (IsReady (session route)) eqn:Hready.
  - match goal with |- context [match_routes ps kept ?s1] => destruct (IH kept s1) as [Hp (rs & E & Ht)] end. cbn zeta in *.
    split; [exact Hp|]. exists (PunchDone w Success (Some (session_id route)) :: rs). split; [rewrite E; cbn; by rewrite <- app_assoc|].
    constructor; [|done]. apply (truthful_persists _ _ _ Hp). left. split; [done|]. by exists key, route.
  - match goal with |- context [match_routes ps kept ?s1] => destruct (IH kept s1) as [Hp (rs & E & Ht)] end. cbn zeta in *.
    split; [|by exists rs]. intros k r Hkr. destruct (decide (k = key)) as [->|Hne].
    + rewrite Hr in Hkr. simplify_eq. destruct (Hp key (set_waiters (waiters r ++ [w]) r)) as (r' & ? & ? & ?); [cbn; by rewrite lookup_insert_eq|].
      by exists r'.
    + apply Hp. cbn. by rewrite lookup_insert_ne.
Qed.

Lemma TickPunches_tells s : tells s (TickPunches clk s).2.
Proof.
  unfold TickPunches. fields. match goal with |- context [match_routes ?g ?k ?s1] => destruct (match_routes_tells g k s1) as [_ (rs & E & Ht)] end.
  destruct (match_routes _ _ _) as [kept s1]. cbn zeta in *. fields.
  match goal with |- context [tick_punches ?n ?g ?a ?k ?s2] => pose proof (tick_punches_refuses n g a k s2) as (rs' & E' & Ht') end.
  destruct (tick_punches _ _ _ _ _) as [ [any kept'] s2] eqn:E2. apply tick_punches_ledger in E2 as (_ & _ & _ & _ & Er). cbn [fst snd] in *. fields.
  exists (rs ++ rs'). fields. rewrite E', E, app_assoc. split; [done|]. apply Forall_app. split; [by rewrite Er|by apply refused_truthful].
Qed.

(** What the entry [key] of the walk told is of the session at [key]. *)
Lemma process_route_tells now any s key route : let s' := (process_route now (any, s) (key, route)).2 in
  exists rs, done_ s' = done_ s ++ rs /\ Forall (fun r => forall m, m !! key = routes_ s' !! key -> truthful m r) rs.
Proof.
  cbn zeta. unfold process_route. fields.
  assert (forall rs, Forall refused rs -> forall k : list Z, forall m1 : gmap (list Z) Route, Forall (fun r => forall m, m !! k = m1 !! k -> truthful m r) rs) as Hq.
  { intros rs H k m1. eapply Forall_impl; [exact H|]. intros [n result o|]; cbn; [by right|done]. }
  destruct (negb _); [eexists; split; [reflexivity|]; apply Hq; by apply (waiters_refused route)|].
  destruct (Process (session route)) as [worked s1]. cbn [waiters ready_deadline set_session].
  case_bool_decide; [exists []; fields; by rewrite app_nil_r|]. destruct (IsReady s1) eqn:Hready.
  - eexists. split; [reflexivity|]. apply Forall_map, Forall_forall. intros w _ m Hm. cbn in Hm. rewrite lookup_insert_eq in Hm.
    left. split; [done|]. eexists key, _. split; [exact Hm|]. done.
  - destruct (_ <=? _); [|exists []; fields; by rewrite app_nil_r]. eexists; split; [reflexivity|]. apply Hq.
    by apply (waiters_refused (set_session s1 route)).
Qed.

Lemma process_walk_tells now es any s : NoDup es.*1 -> tells s (foldl (process_route now) (any, s) es).2.
Proof.
  revert any s. induction es as [|[key route] es IH]; intros any s Hn; cbn [foldl]; [by apply refuses_tells, silent|].
  apply NoDup_cons in Hn as [Hn1 Hn2]. destruct (process_route_tells now any s key route) as (rs & E & Ht).
  destruct (process_route now (any, s) (key, route)) as [any1 s1]. cbn zeta in *. fields.
  destruct (IH any1 s1 Hn2) as (rs' & E' & Ht'). destruct (process_walk_due now es any1 s1) as (_ & Hk & _).
  exists (rs ++ rs'). rewrite E', E, app_assoc. split; [done|]. apply Forall_app. split; [|done].
  eapply Forall_impl; [exact Ht|]. intros r Hr. apply Hr. by apply Hk.
Qed.

Lemma StopFinish_refuses s : refuses s (StopFinish walk s).
Proof.
  rewrite StopFinish_split. cbn zeta.
  assert (forall es s1, refuses s1 (foldl stop_route s1 es)) as Hs.
  { induction es as [|e es IH]; intros s1; cbn [foldl]; [reflexivity|]. etransitivity; [|apply IH].
    exists (ResolveWaiters e.2 AlreadyStopped).1. split; [done|]. by apply waiters_refused. }
  etransitivity; [|exact (Hs _ _)]. unfold stop_machines. fields.
  exists (concat (map (fun g => gather_done (g_on_done g) stopped_gather) (gathers_ s ++ pending_gathers_ s)) ++
          concat (map (fun p => punch_done (on_done p) AlreadyStopped None) (punches_ s ++ pending_ s))).
  split; [by rewrite app_assoc|]. apply Forall_app. split; apply Forall_concat, Forall_map, Forall_forall; intros x _.
  - apply gather_done_refused.
  - by apply punch_done_refused.
Qed.

(** [C13] A caller is told the truth: whatever step the system takes, each punch
    callback it calls is given either [Success] and a session that is in the routing
    table and has finished its handshake, or a failure and no session. *)
Theorem success_is_ready s new s' : agent_step clk walk resolve s new s' ->
  exists rs, done_ s' = done_ s ++ rs /\
  forall n result o, PunchDone n result o ∈ rs ->
    result = Success /\ (exists key route, routes_ s' !! key = Some route /\ o = Some (session_id route) /\ IsReady (session route) = true) \/
    result <> Success /\ o = None.
Proof.
  intros Hst. enough (tells s s') as (rs & E & Ht).
  { exists rs. split; [done|]. intros n result o Hin. rewrite Forall_forall in Ht. by apply (Ht _ Hin). }
  destruct Hst.
  9: apply TickPunches_tells.
  9: { unfold ProcessSessions. cbn [now_].
       match goal with |- context [foldl (process_route ?n) (?a, ?s1) ?es] => pose proof (process_walk_tells n es a s1 (walk_keys walk walks _)) as H1 end.
       destruct (foldl _ _ _) as [any s1]. exact H1. }
  all: apply refuses_tells.
  - apply silent. unfold Start, now_. repeat (case_match; simplify_eq); done.
  - unfold Gather. fields. destruct (negb _); [|by apply silent]. eexists. split; [reflexivity|apply gather_done_refused].
  - unfold Punch. case_bool_decide; cbn [negb]; [|by apply report_refuses, punch_done_refused]. fields. destruct (negb _); [|by apply silent].
    eexists. split; [reflexivity|by apply punch_done_refused].
  - apply silent. unfold Rebind. repeat case_match; done.
  - apply silent. unfold ApplyPendingRebind. by case_match.
  - by apply silent.
  - apply DrainSocket_refuses.
  - unfold TickGathers. fields. match goal with |- context [tick_gathers ?r ?n ?i ?g ?a ?k ?s1] => pose proof (tick_gathers_refuses n i g a k s1) as H1 end.
    destruct (tick_gathers _ _ _ _ _ _ _) as [ [any kept] s1]. exact H1.
  - by apply silent.
  - apply StopFinish_refuses.
  - by apply silent.
Qed.

(** ** Where a datagram goes *)

(** A datagram and the channel it came by: a relayed one carries its channel in
    front. *)
Definition unwrap (data : list Z) : option (Z * list Z) :=
  if byte_at data 0 =? kZDTRelayMarker then
    match ReadRelayHeader data with
    | Some channel => if bool_decide (drop 4 data = []) then None else Some (channel, drop 4 data)
    | None => None
    end
  else Some (0, data).

Lemma on_datagram_unwrap data from s :
  on_datagram clk walk data from s =
  match unwrap data with Some (channel, payload) => route_datagram clk walk from channel payload s | None => s end.
Proof.
  unfold on_datagram, unwrap. change (Z.to_nat kZDTRelayHeaderSize) with 4%nat. destruct (_ =? _); [|done].
  destruct (ReadRelayHeader data); [|done]. by case_bool_decide.
Qed.

Lemma unwrap_direct data payload : unwrap data = Some (0, payload) -> payload = data.
Proof.
  unfold unwrap. destruct (_ =? _); [|congruence]. destruct (ReadRelayHeader data) as [c|] eqn:E; [|done]. case_bool_decide; [done|].
  intros [= -> _]. unfold ReadRelayHeader in E. case_match; [done|]. cbn zeta in E. destruct (Z.eqb_spec (Z.lor (Z.lor (Z.shiftl (byte_at data 1) 16) (Z.shiftl (byte_at data 2) 8)) (byte_at data 3)) 0); [done|].
  congruence.
Qed.

(** A datagram no session claims reaches no session. *)
Lemma HandleOffline_keeps from channel data s key route : routes_ s !! RouteKey from channel = None ->
  routes_ s !! key = Some route -> routes_ (HandleOffline clk from channel data s) !! key = Some route.
Proof.
  intros Hf Hr. unfold HandleOffline. destruct (if channel =? 0 then _ else _) as [ [i g]|]; [done|].
  destruct (list_find _ (punches_ s)) as [ [i p]|]; [|done].
  destruct (Punch.OnDatagram from channel data (machine p)) as [ [outcome out] m] eqn:Hd. destruct (Punch.state outcome) eqn:Hs; [done| |].
  - pose proof (completed_here _ _ _ _ _ _ _ Hd Hs) as Hh. unfold CompletePunch. destruct (_ !! i); [|done].
    destruct (Punch.from outcome) as [from'|]; [|done]. destruct (Hh _ eq_refl) as [-> ->]. fields. rewrite lookup_insert_ne; [done|]. congruence.
  - unfold FailPunch. by case_match.
Qed.

(** The session a migration moves is the first the walk meets. *)
Lemma migrate_first_fate entries cid from s key route : (forall e, e ∈ entries -> routes_ s !! e.1 = Some e.2) ->
  routes_ s !! RouteKey from 0 = None -> routes_ s !! key = Some route ->
  let s' := migrate_first entries cid from s in
  routes_ s' !! key = Some route \/
  remote_guid route = cid /\ IsAlive (session route) = true /\ routes_ s' !! key = None /\
  routes_ s' !! RouteKey from 0 = Some (set_session (MigratePeer from (session route)) route).
Proof.
  intros He Hf Hr. cbn zeta. induction entries as [|[k r] rest IH]; cbn; [by left|].
  destruct (Z.eqb_spec (remote_guid r) cid) as [Ec|Ec]; cbn [negb]; [|apply IH; intros e Hin; apply He; by right].
  destruct (IsAlive (session r)) eqn:Ha; cbn [negb orb]; [|by left]. case_bool_decide as Hk; [by left|].
  pose proof (He _ (list_elem_of_here _ _)) as Hkr. cbn in Hkr. fields.
  assert (key <> RouteKey from 0) as Hne by congruence. destruct (decide (k = key)) as [->|Hkk].
  - right. rewrite Hkr in Hr. simplify_eq. split_and!; try done; [|by rewrite lookup_insert_eq].
    by rewrite lookup_insert_ne, lookup_delete_eq.
  - left. by rewrite lookup_insert_ne, lookup_delete_ne.
Qed.

(** [C14] A session stays with its path: whatever datagram arrives, a session in the
    table is left alone, or is handed that datagram because it came from the
    session's own address and channel, or - only when migration is on and the
    datagram came directly from an address nobody has - is moved to that address
    because the datagram answers the challenge: its cookie verifies for the new
    address and names the session's connection id, and the session is alive. *)
Theorem session_moves_only_on_proof data from s key route : routes_ s !! key = Some route ->
  let s' := on_datagram clk walk data from s in
  routes_ s' !! key = Some route \/
  (exists channel payload, unwrap data = Some (channel, payload) /\ key = RouteKey from channel /\
    routes_ s' !! key = Some (set_session (OnDatagram payload (session route)) route)) \/
  (exists secret response, enable_connection_migration (zdt (config_ s)) = true /\ cookie_secret_ s = Some secret /\
    unwrap data = Some (0, data) /\ path_message data = Some response /\
    VerifyPathResponse secret (readable from) response = true /\ pm_cid response = remote_guid route /\
    IsAlive (session route) = true /\ routes_ s !! readable from = None /\ routes_ s' !! key = None /\
    routes_ s' !! readable from = Some (set_session (MigratePeer from (session route)) route)).
Proof.
  intros Hr. cbn zeta. rewrite on_datagram_unwrap. destruct (unwrap data) as [ [channel payload]|] eqn:Hu; [|by left].
  unfold route_datagram. destruct (routes_ s !! RouteKey from channel) as [route'|] eqn:Hk.
  - destruct (_ && _ && _).
    + left. unfold AnswerPathChallenge. by repeat case_match.
    + destruct (decide (key = RouteKey from channel)) as [->|Hne]; [|left; fields; by rewrite lookup_insert_ne].
      right. left. exists channel, payload. rewrite Hr in Hk. simplify_eq. fields. by rewrite lookup_insert_eq.
  - destruct (_ && _) eqn:Hm; [|left; by apply HandleOffline_keeps]. apply andb_true_iff in Hm as [Hc Hmig].
    apply Z.eqb_eq in Hc as ->. pose proof (unwrap_direct _ _ Hu) as ->. destruct (negb _).
    + case_bool_decide; [|left; by apply HandleOffline_keeps]. unfold CompletePathMigration.
      destruct (path_message data) as [response|]; [|by left]. destruct (cookie_secret_ s) as [secret|]; [|by left].
      destruct (VerifyPathResponse _ _ _) eqn:Hv; cbn [negb]; [|by left].
      destruct (migrate_first_fate (walk (routes_ s)) (pm_cid response) from s key route) as [?|(Hg & Ha & H1 & H2)]; try done.
      { intros [k r] Hin. by apply (walk_lookup walk walks). } { by left. }
      right. right. exists secret, response. by split_and!.
    + left. destruct (PeekCid data) as [cid|]; [|by apply HandleOffline_keeps].
      pose proof (ChallengeNewPath_routes walk cid from s) as Er. destruct (ChallengeNewPath walk cid from s) as [ [] s1]; cbn in *; [by rewrite Er|].
      by apply HandleOffline_keeps; rewrite Er.
Qed.

End Safety.

(** ** Behaviours the code does not mean *)

Section Surprises.
Context `{P : Platform} `{!AmplePlatform P} `{I : Inet} `{C : CookieCrypto} `{Ss : Sessions}.
Context (clk : nat -> Z) (walk : gmap (list Z) Route -> list (list Z * Route)) (resolve : list Z -> list Z).
Context (walks : forall m, walk m ≡ₚ map_to_list m).

(** What a punch makes of a relay's answer. *)
Definition bind_token (from : InetAddress) (token channel : Z) (r : Punch.Relay) : Punch.Relay :=
  if (relay_token (Punch.candidate r) =? token) && names (Punch.candidate r) from
  then Punch.mkRelay (Punch.candidate r) channel (Punch.last_bind r) else r.

Lemma OnDatagram_bound from chan token channel p : 0 <= token < 2 ^ 64 -> 0 < channel <= kZDTMaxRelayChannel ->
  Punch.OnDatagram from chan (bound_image token channel) p =
  (Punch.PunchOutcome_default, [], Punch.set_relays (map (bind_token from token channel) (Punch.relays_ p)) p).
Proof.
  intros Ht Hc. destruct (BuildRelayBound_bytes token channel) as (_ & Hok & Hz). unfold Punch.OnDatagram.
  replace (bool_decide (bound_image token channel = [])) with false.
  2: { symmetry. apply bool_decide_eq_false. intros E. by rewrite E in Hz. }
  pose proof (reads_from _ Hok ltac:(lia)) as Hr. unfold bound_image in Hr |- *. rewrite offline_first by (cbn; lia).
  destruct (reads_header _ _ _ Hr ltac:(cbn; lia)) as (b1 & -> & H1 & _).
  change (offline_id RelayBound =? offline_id ZdtWire.Punch) with false. rewrite Z.eqb_refl. unfold Punch.OnRelayBound.
  unfold kZDTMaxRelayChannel in Hc.
  assert (readable_bytes b1 = 12) as ->.
  { destruct H1 as [Hw _ Ha]. rewrite readable_avail, Ha by done. zlen_tac. lia. }
  change (12 <? 8 + 4) with false. cbn iota.
  destruct (reads_int 8 _ _ b1 H1) as (b2 & -> & H2); [lia..|].
  rewrite <- (app_nil_r (enc BigEndian 4 _)) in H2. destruct (reads_int 4 _ _ b2 H2) as (b3 & -> & _); [lia..|].
  replace ((channel =? 0) || (kZDTMaxRelayChannel <? channel)) with false; [done|].
  unfold kZDTMaxRelayChannel. lia.
Qed.

Lemma unbound_same from token channel p : Forall (fun r => relay_token (Punch.candidate r) <> token) (Punch.relays_ p) ->
  Punch.set_relays (map (bind_token from token channel) (Punch.relays_ p)) p = p.
Proof.
  intros H. replace (map _ _) with (Punch.relays_ p); [by destruct p|]. induction H as [|r rs Hne _ IH]; [done|]. cbn. rewrite <- IH.
  unfold bind_token. by destruct (Z.eqb_spec (relay_token (Punch.candidate r)) token).
Qed.

(** A relay's answer goes to [HandleOffline]. *)
Lemma bound_is_offline relay token channel s : routes_ s !! readable relay = None ->
  on_datagram clk walk (bound_image token channel) relay s = HandleOffline clk relay 0 (bound_image token channel) s.
Proof.
  intros Hr. unfold on_datagram, route_datagram, RouteKey. change (0 =? 0) with true. cbv zeta iota. rewrite Hr.
  assert (byte_at (bound_image token channel) 0 = offline_id RelayBound) as -> by done. change (offline_id RelayBound =? kZDTRelayMarker) with false.
  change (has_flag (offline_id RelayBound) kFlagOnline) with false. cbn [negb andb].
  unfold bound_image at 1 2. destruct (offline_kind RelayBound (enc BigEndian 8 token ++ enc BigEndian 4 channel)) as [_ ->].
  rewrite bool_decide_false by done. by destruct (enable_connection_migration _).
Qed.

(** A relay's answer is given to the first punch that knows the relay: while a
    punch through a relay is in flight, the answer to the binding of a second punch
    through the same relay changes nothing - no punch is bound by it - although the
    second punch, had it been given the answer, would have bound its channel. *)
Theorem relay_answer_is_swallowed s relay token channel i p :
  0 <= token < 2 ^ 64 -> 0 < channel <= kZDTMaxRelayChannel -> routes_ s !! readable relay = None ->
  list_find (fun g => Gather.Owns relay (probe g) = true) (gathers_ s) = None ->
  list_find (fun p => Punch.Owns relay 0 (machine p) = true) (punches_ s) = Some (i, p) ->
  Forall (fun r => relay_token (Punch.candidate r) <> token) (Punch.relays_ (machine p)) ->
  let s' := on_datagram clk walk (bound_image token channel) relay s in
  punches_ s' = punches_ s /\ routes_ s' = routes_ s /\ gathers_ s' = gathers_ s /\ done_ s' = done_ s /\ sent_ s' = sent_ s /\
  forall q r, q ∈ punches_ s -> r ∈ Punch.relays_ (machine q) -> relay_token (Punch.candidate r) = token ->
    names (Punch.candidate r) relay = true ->
    Punch.mkRelay (Punch.candidate r) channel (Punch.last_bind r) ∈
      Punch.relays_ (Punch.OnDatagram relay 0 (bound_image token channel) (machine q)).2.
Proof.
  intros Ht Hc Hr Hg Hp Hn. cbn zeta.
  assert (on_datagram clk walk (bound_image token channel) relay s = emit [] (set_punches (punches_ s) s)) as ->.
  { rewrite bound_is_offline by done. unfold HandleOffline. change (0 =? 0) with true. cbn iota. rewrite Hg, Hp. rewrite OnDatagram_bound by done. cbn [Punch.state Punch.PunchOutcome_default].
    apply list_find_Some in Hp as (Hi & _ & _). rewrite unbound_same by done. rewrite list_insert_id; [done|]. by destruct p. }
  split_and!; try done; [apply app_nil_r|]. intros q r _ Hin Etok Hna. rewrite OnDatagram_bound by done. cbn.
  apply list_elem_of_fmap. exists r. split; [|done]. unfold bind_token. by rewrite Etok, Z.eqb_refl, Hna.
Qed.

(** A rebind survives a stop: when [Rebind] succeeds and the agent is stopped
    before the tick thread applied it, the socket it bound stays pending; started
    again on a fresh socket, the agent's first turn replaces that socket, and the
    address it reports, by the ones of the rebind that was asked of the agent before
    it stopped. *)
Theorem rebind_outlives_stop s ip port handle local s1 handle' local' s2 :
  Rebind resolve ip port (Some handle) true local s = (Success, s1) ->
  Start clk resolve (Some handle') true local' (Stop walk s1) = (Success, s2) ->
  socket_ s2 = Some handle' /\ local_address_ s2 = local' /\
  socket_ (ApplyPendingRebind s2) = Some handle /\ local_address_ (ApplyPendingRebind s2) = local.
Proof.
  intros H1 H2. unfold Rebind in H1. destruct (running_ s) eqn:Hrun; cbn [negb] in H1; [|done].
  destruct (from_host _ _ _); [|done]. destruct (_ || _); [done|]. cbn [negb] in H1. simplify_eq H1. intros <-.
  match type of H2 with Start _ _ _ _ _ (Stop walk ?x) = _ => set (s1 := x) in * end.
  assert (pending_rebind_ (Stop walk s1) = Some (mkSocket handle local)) as Hpend.
  { unfold Stop. cbn [StopRequest]. change (running_ s1) with (running_ s). rewrite Hrun. rewrite StopFinish_split. cbn zeta.
    assert (forall es st, pending_rebind_ (foldl stop_route st es) = pending_rebind_ st) as Hf.
    { induction es as [|e es IH]; intros st; cbn [foldl]; [done|]. by rewrite IH. }
    cbn [pending_rebind_ set_socket set_session_count set_routes]. by rewrite Hf. }
  unfold Start in H2. destruct (running_ (Stop walk s1)); [done|]. destruct (from_host _ _ _); [|done]. destruct (_ || _); [done|].
  cbn [negb now_] in H2. simplify_eq H2. intros <-. unfold ApplyPendingRebind. fields.
  cbn [pending_rebind_ set_task set_running set_cookie_secret set_ticks set_local_address set_socket socket_ local_address_]. by rewrite Hpend.
Qed.

(** A relayed session can be moved: the header says migration is for direct
    sessions only, yet a path response that arrives directly and names the connection
    id of a session reached through a relay's channel takes that session off the
    relay's key and puts it at the direct address, so that what the relay forwards on
    the channel no longer reaches it. *)
Theorem relayed_session_is_moved s relay channel route from data secret response : channel <> 0 ->
  routes_ s !! RouteKey relay channel = Some route -> IsAlive (session route) = true ->
  (forall k r, routes_ s !! k = Some r -> remote_guid r = remote_guid route -> k = RouteKey relay channel) ->
  routes_ s !! readable from = None -> cookie_secret_ s = Some secret -> path_message data = Some response ->
  VerifyPathResponse secret (readable from) response = true -> pm_cid response = remote_guid route ->
  let s' := CompletePathMigration walk from data s in
  routes_ s' !! RouteKey relay channel = None /\
  routes_ s' !! readable from = Some (set_session (MigratePeer from (session route)) route).
Proof.
  intros Hc Hr Ha Hu Hf Hs Hm Hv Hid. cbn zeta. unfold CompletePathMigration. rewrite Hm, Hs. change (RouteKey from 0) with (readable from).
  rewrite Hv. cbn [negb]. assert ((RouteKey relay channel, route) ∈ walk (routes_ s)) as Hin.
  { rewrite (walks (routes_ s)). by apply elem_of_map_to_list. }
  assert (forall e, e ∈ walk (routes_ s) -> routes_ s !! e.1 = Some e.2) as He by (intros [k r] H; by apply (walk_lookup walk walks)).
  induction (walk (routes_ s)) as [|[k r] es IH]; [by apply not_elem_of_nil in Hin|]. cbn [migrate_first].
  destruct (Z.eqb_spec (remote_guid r) (pm_cid response)) as [E|E]; cbn [negb].
  - pose proof (He _ (list_elem_of_here _ _)) as Hk. cbn in Hk. rewrite Hid in E. pose proof (Hu _ _ Hk E) as ->. rewrite Hr in Hk. simplify_eq.
    rewrite Ha. cbn [negb orb]. change (RouteKey from 0) with (readable from).
    assert (RouteKey relay channel <> readable from) as Hne by congruence. rewrite bool_decide_false by done. fields.
    by rewrite lookup_insert_ne, lookup_delete_eq, lookup_insert_eq.
  - apply IH; [|intros e Hx; apply He; by right]. apply elem_of_cons in Hin as [Hx|]; [by simplify_eq|done].
Qed.

End Surprises.
