(* ===== verification/AgentSessions.v ===== *)
(** * The sessions of an agent

    What [Agent] needs of its sessions, discharged by a [PeerSession] over the ZDT
    transport: the transport implements the interface of transport.h, the session the
    interface of Agent.v.  The agent then never lets go of a live session. *)

From S2P Require Import Prelude Buffer BufferSpec BufferCodecs BufferViews Codec ReplayWindow Encryption Compression ZdtWire InetAddr Admission ZdtCookie ZdtOptions ZdtState ZdtSend ZdtTransport ZdtServer Session P2pPunch Agent AgentTheorems.

(** ** ZDT as a transport layer *)

(** A transport and the number of its session, whose readings of the clock are
    [tclk] of it. *)
Record ZdtLink := mkLink { number : nat; transport : Transport }.

Definition upd_link (f : Transport -> Transport) (l : ZdtLink) : ZdtLink := mkLink (number l) (f (transport l)).

#[refine] Definition zdt_link `{P : Platform} (tclk : nat -> nat -> Z) : TransportLayer := {|
  Session.Link := ZdtLink;
  Session.Receive l := let '(b, t) := ZdtTransport.Receive (transport l) in (b, mkLink (number l) t);
  Session.Send b options l := let '(ok, t) := ZdtTransport.Send b options (transport l) in (ok, mkLink (number l) t);
  Session.OrderingDomain options := u8 (ZdtTransport.OrderingDomain options);
  Session.Close_ _ l := upd_link (fun t => (ZdtSend.Close t).2) l;
  Session.IsClosed l := is_closed_ (path_ (transport l));
  Session.Update_ l := upd_link (ZdtTransport.Update (tclk (number l)) []) l;
  Session.Flush_ l := upd_link (ZdtTransport.Flush (tclk (number l))) l
|}.
Proof. intros o. unfold u8. apply Z.mod_pos_bound. lia. Defined.

(** ** The session as the agent sees it *)

Section Sessions.
Context `{P : Platform} `{C : Encryption.Crypto} `{Zs : Compression.Zstd}.
(** The clock, the application's packets, which OpenSSL calls succeed, and the keys
    drawn, by session; the rest of the session options. *)
Context (tclk : nat -> nat -> Z) {A : Type} (app_id : A -> Z) (evp : nat -> Encryption.EvpCall -> bool)
  (keys : nat -> option Encryption.PKey) (encryption : bool) (compression : Z) (threshold max_invalid capacity : Z).

Abbreviation AgentSession := (@Session.PeerSession C (zdt_link tclk) A).

(** The transport is given the first datagram before the session is built. *)
Definition new_session (n : nat) (socket : option Z) (local : option InetAddress) (peer : InetAddress) (cfg : ZDTOptions)
    (common : CommonOptions) (connection : ZDTConnection) (first_datagram : option (list Z)) (is_initiator : bool) : AgentSession :=
  let t := ZDTTransportLayer_new (tclk n) socket (Some peer) cfg false connection common in
  let t := match first_datagram with Some d => ZdtTransport.OnDatagram (tclk n) d t | None => t end in
  Session.PeerSession_new (T := zdt_link tclk) app_id evp (mkLink n t) is_initiator (keys n) encryption compression threshold
    max_invalid capacity.

(** What the agent does to the transport it keeps a pointer to. *)
Definition on_transport (f : nat -> Transport -> Transport) (s : AgentSession) : AgentSession :=
  Session.set_link (T := zdt_link tclk) (upd_link (f (number (Session.link_ (T := zdt_link tclk) s))) (Session.link_ (T := zdt_link tclk) s)) s.

Definition zdt_sessions : Sessions := {|
  Agent.Session := AgentSession;
  make_session := new_session;
  Agent.IsAlive := Session.IsAlive (T := zdt_link tclk);
  Agent.IsReady := Session.is_ready_ (T := zdt_link tclk);
  Agent.Process := Session.Process (T := zdt_link tclk) app_id evp;
  Agent.Close := Session.Close (T := zdt_link tclk) false;
  Agent.ReleaseHandler := Session.set_handler (T := zdt_link tclk) None;
  Agent.OnDatagram data := on_transport (fun n => ZdtTransport.OnDatagram (tclk n) data);
  Agent.MigratePeer peer := on_transport (fun _ => ZdtTransport.MigratePeer (Some peer));
  Agent.MigrateSocket socket := on_transport (fun _ => ZdtTransport.MigrateSocket (Some socket))
|}.

End Sessions.

(** Closing closes. *)
Lemma transport_closes `{P : Platform} t : is_closed_ (path_ (ZdtSend.Close t).2) = true.
Proof.
  unfold ZdtSend.Close. destruct (is_closed_ (path_ t)) eqn:E; [done|]. cbn [snd]. set (t1 := upd_path (set_is_closed true) t).
  assert (is_closed_ (path_ t1) = true) as H1 by done. clearbody t1. unfold Shutdown, ZdtSend.SendTo. repeat case_match; done.
Qed.

#[export] Instance zdt_sessions_laws `{P : Platform} `{C : Encryption.Crypto} `{Zs : Compression.Zstd} tclk {A} (app_id : A -> Z) evp keys encryption
  compression threshold max_invalid capacity :
  SessionsLaws (zdt_sessions tclk app_id evp keys encryption compression threshold max_invalid capacity).
Proof.
  split; [|done]. intros s. cbn. unfold Session.IsAlive, Session.Close. cbn. by rewrite transport_closes.
Qed.

(** ** Every session is accounted for *)

Section Accounting.
Context `{P : Platform} `{I : Inet} `{C : CookieCrypto} `{Ss : Sessions} `{!SessionsLaws Ss}.
Context (clk : nat -> Z) (walk : gmap (list Z) Agent.Route -> list (list Z * Agent.Route)) (resolve : list Z -> list Z).
Context (walks : forall m, walk m ≡ₚ map_to_list m).
Import Agent.

Definition ids (m : gmap (list Z) Route) : list nat := map (fun e => session_id e.2) (map_to_list m).

(** The sessions made so far: those let go, and those in the table. *)
Definition owned (s : Agent) : list nat := (gone_ s).*1 ++ ids (routes_ s).

Record accounted (s : Agent) : Prop := {
  ac_once : owned s ≡ₚ seq 0 (next_session_ s);
  ac_closed : Forall (fun e => IsAlive e.2 = false) (gone_ s)
}.

Lemma ids_insert m k r : m !! k = None -> ids (<[k := r]> m) ≡ₚ session_id r :: ids m.
Proof. intros H. unfold ids. by rewrite map_to_list_insert by done. Qed.

Lemma ids_delete m k r : m !! k = Some r -> ids m ≡ₚ session_id r :: ids (delete k m).
Proof. intros H. rewrite <- ids_insert with (k := k) by apply lookup_delete_eq. by rewrite insert_delete_id. Qed.

Lemma ids_replace m k r r' : m !! k = Some r -> session_id r' = session_id r -> ids (<[k := r']> m) ≡ₚ ids m.
Proof.
  intros H E. rewrite <- insert_delete_eq, ids_insert by apply lookup_delete_eq. by rewrite (ids_delete m k r), E.
Qed.

Lemma ids_fmap m f : (forall r, session_id (f r) = session_id r) -> ids (f <$> m) ≡ₚ ids m.
Proof.
  intros H. induction m as [|k r m Hk IH] using map_ind; [done|].
  rewrite fmap_insert, !ids_insert by (rewrite ?lookup_fmap, ?Hk; done). by rewrite H, IH.
Qed.

Lemma accounted_same s s' : accounted s -> gone_ s' = gone_ s -> next_session_ s' = next_session_ s -> ids (routes_ s') ≡ₚ ids (routes_ s) ->
  accounted s'.
Proof. intros [H1 H2] Eg En Er. split; unfold owned in *; rewrite ?Eg; [|done]. by rewrite Er, En. Qed.

Lemma HandleOffline_accounted from channel data s : routes_ s !! RouteKey from channel = None -> accounted s ->
  accounted (HandleOffline clk from channel data s).
Proof.
  intros Hk Hs. unfold HandleOffline. destruct (if channel =? 0 then _ else _) as [ [i g]|]; [by apply (accounted_same s)|].
  destruct (list_find _ (punches_ s)) as [ [i p]|]; [|done].
  destruct (Punch.OnDatagram from channel data (machine p)) as [ [outcome out] m] eqn:Hd.
  destruct (Punch.state outcome) eqn:Hst; [by apply (accounted_same s)| |unfold FailPunch; case_match; by apply (accounted_same s)].
  pose proof (completed_here _ _ _ _ _ _ _ Hd Hst) as Hh. unfold CompletePunch. destruct (_ !! i); [|by apply (accounted_same s)].
  destruct (Punch.from outcome) as [from'|]; [|by apply (accounted_same s)]. destruct (Hh _ eq_refl) as [-> ->]. destruct Hs as [H1 H2]. fields.
  split; fields; [|done]. unfold owned in *. cbn [gone_ routes_ next_session_ set_session_count set_routes set_next_session set_ticks set_punches emit set_sent].
  rewrite ids_insert by done. cbn [session_id]. rewrite seq_S, <- H1, <- Permutation_middle. apply Permutation_cons_append.
Qed.

Lemma migrate_accounted entries cid from s : (forall e, e ∈ entries -> routes_ s !! e.1 = Some e.2) ->
  routes_ s !! RouteKey from 0 = None -> accounted s -> accounted (migrate_first entries cid from s).
Proof.
  intros He Hk Hs. induction entries as [|[key route] rest IH]; cbn [migrate_first]; [done|].
  destruct (negb (_ =? _)); [apply IH; intros e Hin; apply He; by right|]. destruct (_ || _) eqn:Hb; [done|].
  pose proof (He _ (list_elem_of_here _ _)) as Hr. cbn in Hr. apply (accounted_same s); [done..|]. fields.
  rewrite ids_insert by (apply lookup_delete_None; by right). by rewrite (ids_delete (routes_ s) key route).
Qed.

Lemma route_datagram_accounted from channel data s : accounted s -> accounted (route_datagram clk walk from channel data s).
Proof.
  intros Hs. unfold route_datagram. destruct (routes_ s !! _) as [route|] eqn:Hk.
  - destruct (_ && _ && _); [unfold AnswerPathChallenge; repeat case_match; by apply (accounted_same s)|].
    apply (accounted_same s); [done..|]. fields. by apply (ids_replace _ _ route).
  - destruct (_ && _) eqn:Hm; [|by apply HandleOffline_accounted]. apply andb_true_iff in Hm as [Hc _]. apply Z.eqb_eq in Hc as ->.
    destruct (negb _).
    + case_bool_decide; [|by apply HandleOffline_accounted]. unfold CompletePathMigration. repeat (case_match; try done).
      apply migrate_accounted; [|done..]. intros [k r] Hin. by apply (walk_lookup walk walks).
    + destruct (PeekCid data) as [cid|]; [|by apply HandleOffline_accounted]. unfold ChallengeNewPath.
      repeat case_match; simplify_eq; try (by apply HandleOffline_accounted); by apply (accounted_same s).
Qed.

Lemma DrainSocket_accounted incoming any s : accounted s -> accounted (DrainSocket clk walk incoming any s).2.
Proof.
  revert any s. induction incoming as [|r rest IH]; intros any s Hs; cbn; [done|]. repeat case_match; try done. apply IH.
  unfold on_datagram. repeat case_match; try done; by apply route_datagram_accounted.
Qed.

Lemma tick_gathers_accounted now interfaces gs any kept s : accounted s -> accounted (tick_gathers resolve now interfaces gs any kept s).2.
Proof.
  revert any kept s. induction gs as [|g gs IH]; intros any kept s Hs; cbn [tick_gathers]; [done|].
  repeat case_match; apply IH; by apply (accounted_same s).
Qed.

Lemma match_routes_accounted ps kept s : accounted s -> accounted (match_routes ps kept s).2.
Proof.
  revert kept s. induction ps as [|p ps IH]; intros kept s Hs; cbn [match_routes]; [done|].
  repeat case_match; apply IH; try done; apply (accounted_same s); try done. fields. by eapply ids_replace.
Qed.

Lemma tick_punches_accounted now ps any kept s : accounted s -> accounted (tick_punches now ps any kept s).2.
Proof.
  revert any kept s. induction ps as [|p ps IH]; intros any kept s Hs; cbn [tick_punches]; [done|].
  repeat case_match; apply IH; by apply (accounted_same s).
Qed.

(** A route that leaves the table takes its session along, closed. *)
Lemma erase_accounted key route route' rs s : routes_ s !! key = Some route -> session_id route' = session_id route ->
  IsAlive (session route') = false -> accounted s -> accounted (erase key route' (report rs s)).
Proof.
  intros Hr Ei Hd [H1 H2]. unfold erase. split; unfold owned in *; cbn [gone_ routes_ next_session_ set_gone set_routes report set_done].
  - rewrite fmap_app. cbn. rewrite Ei, <- app_assoc. cbn. by rewrite <- (ids_delete _ _ _ Hr).
  - apply Forall_app. split; [done|]. by apply Forall_singleton.
Qed.

Lemma process_route_accounted now any s key route : routes_ s !! key = Some route -> accounted s ->
  accounted (process_route now (any, s) (key, route)).2.
Proof.
  intros Hr Hs. unfold process_route. destruct (IsAlive (session route)) eqn:Ha; cbn [negb].
  - destruct (Process (session route)) as [worked s1]. cbn [waiters ready_deadline set_session].
    assert (forall rs r', session_id r' = session_id route -> accounted (set_routes (<[key := r']> (routes_ s)) (report rs s))) as Hk.
    { intros rs r' E. apply (accounted_same s); [done..|]. fields. by apply (ids_replace _ _ route). }
    case_bool_decide; [by apply Hk|]. destruct (IsReady s1); [by apply Hk|]. destruct (_ <=? _); [|by apply Hk].
    apply (erase_accounted _ route); try done. cbn. by rewrite ReleaseHandler_alive, Close_dead.
  - apply (erase_accounted _ route); try done. cbn. by rewrite ReleaseHandler_alive.
Qed.

Lemma process_walk_accounted now es any s : NoDup es.*1 -> (forall e, e ∈ es -> routes_ s !! e.1 = Some e.2) -> accounted s ->
  accounted (foldl (process_route now) (any, s) es).2.
Proof.
  revert any s. induction es as [|[key route] es IH]; intros any s Hn He Hs; cbn [foldl]; [done|].
  apply NoDup_cons in Hn as [Hn1 Hn2]. pose proof (He _ (list_elem_of_here _ _)) as Hr. cbn in Hr.
  pose proof (process_route_accounted now any s key route Hr Hs) as H1. destruct (process_route_own now any s key route Hr) as [_ H2].
  destruct (process_route now (any, s) (key, route)) as [any' s']. apply IH; [done| |done].
  intros e Hin. cbn in H2. rewrite H2; [apply He; by right|]. intros E. apply Hn1. cbn. rewrite <- E. by apply (list_elem_of_fmap_2 fst).
Qed.

Lemma stop_gone es s : let s' := foldl stop_route s es in
  (gone_ s').*1 = (gone_ s).*1 ++ map (fun e => session_id e.2) es /\ next_session_ s' = next_session_ s /\
  (Forall (fun e => IsAlive e.2 = false) (gone_ s) -> Forall (fun e => IsAlive e.2 = false) (gone_ s')).
Proof.
  revert s. induction es as [|e es IH]; intros s; cbn [foldl map]; [by rewrite app_nil_r|].
  destruct (IH (stop_route s e)) as (E1 & E2 & E3). cbn zeta in *.
  assert (gone_ (stop_route s e) = gone_ s ++ [(session_id e.2, ReleaseHandler (Close (session e.2)))]) as Eg by done.
  rewrite Eg in E1, E3. split_and!; [|done|].
  - rewrite E1, fmap_app, <- app_assoc. done.
  - intros H. apply E3. apply Forall_app. split; [done|]. apply Forall_singleton. cbn. by rewrite ReleaseHandler_alive, Close_dead.
Qed.

Lemma StopFinish_accounted s : accounted s -> accounted (StopFinish walk s).
Proof.
  intros [H1 H2]. rewrite StopFinish_split. cbn zeta.
  destruct (stop_gone (walk (routes_ (stop_machines s))) (stop_machines s)) as (E1 & E2 & E3). cbn zeta in *.
  set (s1 := foldl _ _ _) in *. clearbody s1. change (gone_ (stop_machines s)) with (gone_ s) in *.
  change (next_session_ (stop_machines s)) with (next_session_ s) in *. change (routes_ (stop_machines s)) with (routes_ s) in *.
  split; unfold owned in *; cbn [gone_ routes_ next_session_ set_socket set_session_count set_routes]; [|by apply E3].
  rewrite E1, E2, <- H1, (walks (routes_ s)). by rewrite app_nil_r.
Qed.

Lemma step_accounted s new s' : agent_step clk walk resolve s new s' -> accounted s -> accounted s'.
Proof.
  intros Hst Hs. destruct Hst.
  - unfold Start, now_. repeat (case_match; simplify_eq); by apply (accounted_same s).
  - unfold Gather. fields. destruct (negb _); by apply (accounted_same s).
  - unfold Punch. destruct (negb _); [by apply (accounted_same s)|]. fields. destruct (negb _); by apply (accounted_same s).
  - unfold Rebind. repeat case_match; by apply (accounted_same s).
  - unfold ApplyPendingRebind. case_match; [|done]. apply (accounted_same s); [done..|]. fields. by apply ids_fmap.
  - by apply (accounted_same s).
  - by apply DrainSocket_accounted.
  - unfold TickGathers. fields. match goal with |- context [tick_gathers ?r ?n ?i ?g ?a ?k ?s1] => pose proof (tick_gathers_accounted n i g a k s1) as H1 end.
    destruct (tick_gathers _ _ _ _ _ _ _) as [ [any kept] s1]. apply (accounted_same s1); [|done..]. apply H1. by apply (accounted_same s).
  - unfold TickPunches. fields. match goal with |- context [match_routes ?g ?k ?s1] => pose proof (match_routes_accounted g k s1) as H1 end.
    destruct (match_routes _ _ _) as [kept s1]. fields. match goal with |- context [tick_punches ?n ?g ?a ?k ?s2] => pose proof (tick_punches_accounted n g a k s2) as H2 end.
    destruct (tick_punches _ _ _ _ _) as [ [any kept'] s2]. apply (accounted_same s2); [|done..]. apply H2.
    apply (accounted_same s1); [|done..]. apply H1. by apply (accounted_same s).
  - unfold ProcessSessions. cbn [now_]. match goal with |- context [foldl (process_route ?n) (?a, ?s1) ?es] => pose proof (process_walk_accounted n es a s1 (walk_keys walk walks _)) as H1 end.
    destruct (foldl _ _ _) as [any s1]. apply (accounted_same s1); [|done..]. apply H1; [|by apply (accounted_same s)].
    intros [k r] Hin. by apply (walk_lookup walk walks).
  - by apply (accounted_same s).
  - by apply StopFinish_accounted.
  - apply (accounted_same s); [done..|]. fields. by apply (ids_replace _ _ route).
Qed.

(** Only the tick thread adds routes, and [Stop] empties the table after it. *)
Lemma step_rest s new s' : agent_step clk walk resolve s new s' -> (task_ s = false -> routes_ s = ∅) -> task_ s' = false -> routes_ s' = ∅.
Proof.
  assert (forall s1 s2, task_ s1 = true -> threads s2 = threads s1 -> task_ s2 = false -> routes_ s2 = ∅) as Ht.
  { intros s1 s2 H E E'. unfold threads in E. congruence. }
  intros Hst H. destruct Hst.
  - unfold Start, now_. repeat (case_match; simplify_eq); done.
  - unfold Gather. fields. by destruct (negb _).
  - unfold Punch. destruct (negb _); [done|]. fields. by destruct (negb _).
  - unfold Rebind. repeat case_match; done.
  - apply (Ht s); [done|]. unfold ApplyPendingRebind. by case_match.
  - by apply (Ht s).
  - apply (Ht s); [done|apply DrainSocket_threads].
  - apply (Ht s); [done|apply TickGathers_threads].
  - apply (Ht s); [done|apply TickPunches_threads].
  - apply (Ht s); [done|apply ProcessSessions_threads].
  - done.
  - done.
  - fields. intros E. by rewrite (H E), lookup_empty in *.
Qed.

(** [C15] Every session is accounted for: in every reachable state the sessions the
    agent ever made are, each exactly once, either in the routing table or among
    those it let go of, and what it let go of is closed; once the tick thread is gone
    the table is empty, so all of them are. *)
Theorem sessions_accounted config asked s : agent_reachable clk walk resolve config asked s ->
  (gone_ s).*1 ++ map (fun e => session_id e.2) (map_to_list (routes_ s)) ≡ₚ seq 0 (next_session_ s) /\
  Forall (fun e => IsAlive e.2 = false) (gone_ s) /\ (task_ s = false -> routes_ s = ∅).
Proof.
  intros H. enough (accounted s /\ (task_ s = false -> routes_ s = ∅)) as [ [H1 H2] H3] by done.
  induction H as [|asked s new s' _ [IH1 IH2] Hst]; [by split|]. split; [by apply (step_accounted s new)|by apply (step_rest s new)].
Qed.

End Accounting.
