(* ===== verification/AgentExamples.v ===== *)
(** * Two agents on one network

    The claims about the agent at work on concrete agents, whose sessions are
    [PeerSession]s over the ZDT transport.  The states are built by the operations
    themselves. *)

From S2P Require Import Prelude Buffer BufferSpec BufferCodecs BufferViews Codec ReplayWindow Encryption CryptoExample Compression ZdtWire ZdtOffline InetAddr InetAddrTheorems Admission ZdtCookie ZdtOptions ZdtState ZdtSend ZdtTransport ZdtServer ZdtMessages Session SessionExamples P2pPunch P2pMessages Agent AgentTheorems AgentSafety AgentSessions.

Import Agent.

Module AgentExamples.

#[local] Existing Instance TextInet.text.
#[local] Existing Instance TextInet.text_laws.
#[local] Existing Instance ToyCrypto.toy.
#[local] Existing Instance ToyCrypto.toy_laws.
#[local] Existing Instance Toy.toy.
#[local] Existing Instance SessionExamples.toy_zstd.
#[local] Instance little : Platform := host LittleEndian.
#[local] Instance little_ample : AmplePlatform little := host_ample LittleEndian.

(** A clock that advances ten milliseconds a reading. *)
Definition clk (n : nat) : Z := ms (1000 + 10 * Z.of_nat n).
Definition tclk (_ n : nat) : Z := ms (Z.of_nat n).
Definition resolve (host : list Z) : list Z := host.

Definition key (n : nat) : option Encryption.PKey := Some (Toy.keypair (5 + Z.of_nat n)).

#[local] Instance sessions : Sessions :=
  zdt_sessions tclk SessionExamples.no_id SessionHandshake.evp_ok key false Compression.None_ 0 16 64.

Definition walk (m : gmap (list Z) Route) : list (list Z * Route) := map_to_list m.

Definition cfg : ZDTOptions :=
  mkZDTOptions MTULadder_default 100 2000 10 512 4096 250 4 120000 4096 20 true 5000 (16 * 1024 * 1024) 4096 4096 256.

Definition config : AgentConfig := mkConfig [] 0 cfg CommonOptions_default.

Definition at_a : InetAddress := InetAddressIPv4 [198; 51; 100; 7] 4000.
Definition at_b : InetAddress := InetAddressIPv4 [198; 51; 100; 8] 4001.

Definition started (fd : Z) (local : InetAddress) : Agent := (Start clk resolve (Some fd) true (Some local) (Agent_new config)).2.

Definition offer_to (peer : InetAddress) (initiator : bool) : PunchOffer :=
  mkOffer [mkCandidate Reflexive (Some peer) 0] 1 initiator 10000 500.

Definition a0 : Agent := Punch clk (offer_to at_b true) 101 (Some 1%nat) (started 3 at_a).
Definition b0 : Agent := Punch clk (offer_to at_a false) 202 (Some 2%nat) (started 4 at_b).

(** What an agent and its sessions have put on the wire. *)
Definition wires (s : Agent) : list (list Z) :=
  concat (map (fun e => map snd (wire_ (path_ (transport (Session.link_ (T := zdt_link tclk) (session e.2)))))) (walk (routes_ s))).

Definition marks (s : Agent) : nat * nat := (length (sent_ s), length (wires s)).

Definition fresh (seen : nat * nat) (s : Agent) : list (list Z) := drop seen.1 (map snd (sent_ s)) ++ drop seen.2 (wires s).

Definition arrive (from : InetAddress) (ds : list (list Z)) (s : Agent) : Agent :=
  (TickLoop clk walk resolve (map (fun d => Received d (Some from)) ds) None s).2.

(** One turn of each agent's loop, each given what the other sent. *)
Definition round (st : Agent * (nat * nat) * (Agent * (nat * nat))) : Agent * (nat * nat) * (Agent * (nat * nat)) :=
  let '((a, seen_a), (b, seen_b)) := st in
  let b' := arrive at_a (fresh seen_a a) b in
  let seen_a := marks a in
  let a' := arrive at_b (fresh seen_b b') a in
  ((a', seen_a), (b', marks b')).

Definition rounds (n : nat) : Agent * Agent :=
  let st := Nat.iter n round ((a0, (0, 0)), (b0, (0, 0)))%nat in (st.1.1, st.2.1).

(** The two punch each other, exchange keys over the path they opened, and each
    caller is handed its session. *)
Example agents_meet :
  let '(a, b) := rounds 4 in
  done_ a = [PunchDone 1 Success (Some 0%nat)] /\ done_ b = [PunchDone 2 Success (Some 0%nat)] /\
  size (routes_ a) = 1%nat /\ size (routes_ b) = 1%nat /\ punches_ a = [] /\ punches_ b = [].
Proof. vm_compute. repeat split. Qed.

(** A pair whose first component is known. *)
Lemma with_result {A B} (p : A * B) a : p.1 = a -> p = (a, p.2).
Proof. intros <-. by destruct p. Qed.

Lemma no_route s k : bool_decide (is_Some (routes_ s !! k)) = false -> routes_ s !! k = None.
Proof. intros H. apply bool_decide_eq_false in H. by apply eq_None_not_Some. Qed.

(** ** The states are reached *)

Lemma agent_walk_ok m : walk m ≡ₚ map_to_list m.
Proof. done. Qed.

Lemma clk_runs m n : (m <= n)%nat -> clk m <= clk n.
Proof. intros H. unfold clk, ms. apply Z.mul_le_mono_nonneg_r; [done|lia]. Qed.

Abbreviation reached := (agent_reachable clk walk resolve config).

Lemma agent_started_reached fd local : reached [] (started fd local) /\ task_ (started fd local) = true.
Proof. split; [|done]. eapply (quiet_step clk walk resolve); [apply ar_new|]. by apply as_start. Qed.

Lemma a0_reached : reached [ForPunch 1] a0 /\ task_ a0 = true.
Proof.
  split; [|done]. change [ForPunch 1] with ([] ++ [ForPunch 1]). eapply ar_step; [apply (agent_started_reached 3 at_a)|].
  exact (as_punch clk walk resolve (started 3 at_a) (offer_to at_b true) 101 (Some 1%nat)).
Qed.

Lemma arrive_reached asked from ds s : reached asked s /\ task_ s = true -> reached asked (arrive from ds s) /\ task_ (arrive from ds s) = true.
Proof. intros [H T]. by apply (turn_reachable clk walk resolve). Qed.

Lemma rounds_reached n : reached [ForPunch 1] (rounds n).1 /\ task_ (rounds n).1 = true.
Proof.
  unfold rounds. cbn [fst]. induction n as [|n IH]; [exact a0_reached|]. rewrite Nat.iter_succ.
  destruct (Nat.iter n round _) as [ [a pa] [b pb] ]. cbn [fst snd round] in *. by apply arrive_reached.
Qed.

(** The first agent once the two have met, and after it is stopped. *)
Definition met : Agent := (rounds 4).1.
Definition closed : Agent := Stop walk met.

Lemma closed_reached : reached [ForPunch 1] closed.
Proof. destruct (rounds_reached 4) as [H T]. by apply (stop_reachable clk walk resolve). Qed.

Lemma callbacks_exactly_once_witness :
  ([ForPunch 1] ≡ₚ map called (done_ closed) ++ held closed /\ (task_ closed = false -> [ForPunch 1] ≡ₚ map called (done_ closed))) /\
  task_ closed = false.
Proof. split; [exact (callbacks_exactly_once clk walk resolve agent_walk_ok config [ForPunch 1] closed closed_reached)|vm_compute; reflexivity]. Defined.

Lemma sessions_accounted_witness :
  (gone_ closed).*1 ++ map (fun e => session_id e.2) (map_to_list (routes_ closed)) ≡ₚ seq 0 (next_session_ closed) /\
  Forall (fun e => IsAlive e.2 = false) (gone_ closed) /\ (task_ closed = false -> routes_ closed = ∅).
Proof. exact (sessions_accounted clk walk resolve agent_walk_ok config [ForPunch 1] closed closed_reached). Defined.

Lemma turn_leaves_nothing_overdue_witness :
  let s' := (TickLoop clk walk resolve [] None a0).2 in
  Forall (fun g => clk 2 < Gather.probe_deadline_ (probe g)) (gathers_ s') /\
  Forall (fun p => clk 2 < Punch.deadline_ (machine p)) (punches_ s') /\
  map_Forall (fun _ r => waiters r = [] \/ clk 2 < ready_deadline r) (routes_ s') /\ pending_ s' = [] /\ pending_gathers_ s' = [].
Proof. exact (turn_leaves_nothing_overdue clk walk resolve agent_walk_ok [] None a0 clk_runs). Defined.

(** A second punch toward the peer that was met. *)
Definition again : Agent := Punch clk (offer_to at_b true) 103 (Some 7%nat) met.

Lemma success_is_ready_witness :
  let s' := (TickPunches clk again).2 in
  done_ s' = done_ again ++ [PunchDone 7 Success (Some 0%nat)] /\
  exists rs, done_ s' = done_ again ++ rs /\
  forall n result o, PunchDone n result o ∈ rs ->
    result = Success /\ (exists key route, routes_ s' !! key = Some route /\ o = Some (session_id route) /\ IsReady (session route) = true) \/
    result <> Success /\ o = None.
Proof.
  split; [vm_compute; reflexivity|].
  apply (success_is_ready clk walk resolve agent_walk_ok again []). apply as_punches. vm_compute. reflexivity.
Defined.

(** A datagram of the peer that was met. *)
Lemma session_moves_only_on_proof_witness :
  let s' := on_datagram clk walk [128; 0; 0; 0; 0; 0] at_b met in
  exists route, routes_ met !! readable at_b = Some route /\
  (routes_ s' !! readable at_b = Some route \/
   (exists channel payload, unwrap [128; 0; 0; 0; 0; 0] = Some (channel, payload) /\ readable at_b = RouteKey at_b channel /\
     routes_ s' !! readable at_b = Some (set_session (OnDatagram payload (session route)) route)) \/
   (exists secret response, enable_connection_migration (zdt (config_ met)) = true /\ cookie_secret_ met = Some secret /\
     unwrap [128; 0; 0; 0; 0; 0] = Some (0, [128; 0; 0; 0; 0; 0]) /\ path_message [128; 0; 0; 0; 0; 0] = Some response /\
     VerifyPathResponse secret (readable at_b) response = true /\ pm_cid response = remote_guid route /\
     IsAlive (session route) = true /\ routes_ met !! readable at_b = None /\ routes_ s' !! readable at_b = None /\
     routes_ s' !! readable at_b = Some (set_session (MigratePeer at_b (session route)) route))).
Proof.
  assert (H : bool_decide (is_Some (routes_ met !! readable at_b)) = true) by (vm_compute; reflexivity).
  apply bool_decide_eq_true in H as [route Hr]. exists route. split; [exact Hr|].
  exact (session_moves_only_on_proof clk walk agent_walk_ok [128; 0; 0; 0; 0; 0] at_b met (readable at_b) route Hr).
Defined.

(** ** Through a relay *)

Definition relay_at : InetAddress := InetAddressIPv4 [192; 0; 2; 1] 5002.

Definition through (token : Z) : PunchOffer := mkOffer [mkCandidate Relayed (Some relay_at) token] 1 true 10000 0.

(** Two punches through one relay, in flight. *)
Definition two : Agent :=
  (TickPunches clk (Punch clk (through 22) 104 (Some 2%nat) (Punch clk (through 11) 101 (Some 1%nat) (started 3 at_a)))).2.

Lemma relay_answer_is_swallowed_witness :
  let s' := on_datagram clk walk (bound_image 22 7) relay_at two in
  (length (punches_ two) = 2%nat /\ existsb (fun p => Punch.Owns relay_at 7 (machine p)) (punches_ s') = false) /\
  punches_ s' = punches_ two /\ routes_ s' = routes_ two /\ gathers_ s' = gathers_ two /\ done_ s' = done_ two /\ sent_ s' = sent_ two /\
  forall q r, q ∈ punches_ two -> r ∈ Punch.relays_ (machine q) -> relay_token (Punch.candidate r) = 22 ->
    names (Punch.candidate r) relay_at = true ->
    Punch.mkRelay (Punch.candidate r) 7 (Punch.last_bind r) ∈
      Punch.relays_ (Punch.OnDatagram relay_at 0 (bound_image 22 7) (machine q)).2.
Proof.
  assert (Hr : routes_ two !! readable relay_at = None) by (apply no_route; vm_compute; reflexivity).
  assert (Hg : list_find (fun g => Gather.Owns relay_at (probe g) = true) (gathers_ two) = None) by (vm_compute; reflexivity).
  assert (H0 : bool_decide (is_Some (punches_ two !! 0%nat)) = true) by (vm_compute; reflexivity).
  apply bool_decide_eq_true in H0 as [p Hp].
  assert (Hf : list_find (fun p => Punch.Owns relay_at 0 (machine p) = true) (punches_ two) = (fun p => (0%nat, p)) <$> punches_ two !! 0%nat)
    by (vm_compute; reflexivity).
  assert (Ht : (fun p => map (fun r => relay_token (Punch.candidate r)) (Punch.relays_ (machine p))) <$> punches_ two !! 0%nat = Some [11])
    by (vm_compute; reflexivity).
  rewrite Hp in Hf, Ht. injection Ht as Ht.
  pose proof (relay_answer_is_swallowed clk walk two relay_at 22 7 0 p ltac:(lia) ltac:(split; [lia|discriminate]) Hr Hg Hf) as H.
  split; [vm_compute; split; reflexivity|]. apply H. apply Forall_map with (f := fun r => relay_token (Punch.candidate r)) (P := fun t => t <> 22).
  rewrite Ht. by apply Forall_singleton.
Defined.

(** One of them bound and answered: a session through the relay. *)
Definition relayed : Agent :=
  on_datagram clk walk (wrapped_image 7 (reply_image 202 1200 1)) relay_at
    (on_datagram clk walk (bound_image 11 7) relay_at (TickPunches clk (Punch clk (through 11) 101 (Some 1%nat) (started 3 at_a))).2).

Definition moved_at : InetAddress := InetAddressIPv4 [198; 51; 100; 9] 4002.

(** What answers the challenge this agent would send to [moved_at]. *)
Definition secret : CookieSecret := CookieSecret_new (clk 0).
Definition response : ZDTPathMessage := MakePathChallenge secret (readable moved_at) 202.
Definition answer : list Z := datagram_bytes (WritePathMessage (offline_id PathResponse) response).

Lemma relayed_session_is_moved_witness :
  let s' := CompletePathMigration walk moved_at answer relayed in
  exists route, routes_ relayed !! RouteKey relay_at 7 = Some route /\
    routes_ s' !! RouteKey relay_at 7 = None /\
    routes_ s' !! readable moved_at = Some (set_session (MigratePeer moved_at (session route)) route).
Proof.
  assert (H : bool_decide (is_Some (routes_ relayed !! RouteKey relay_at 7)) = true) by (vm_compute; reflexivity).
  apply bool_decide_eq_true in H as [route Hr]. exists route. split; [exact Hr|].
  assert (Ek : (map_to_list (routes_ relayed)).*1 = [RouteKey relay_at 7]) by (vm_compute; reflexivity).
  assert (Ho : (fun r => (remote_guid r, IsAlive (session r))) <$> routes_ relayed !! RouteKey relay_at 7 = Some (202, true)) by (vm_compute; reflexivity).
  rewrite Hr in Ho. cbn in Ho. injection Ho as Eg Ea.
  apply (relayed_session_is_moved walk agent_walk_ok relayed relay_at 7 route moved_at answer secret response);
    [lia|exact Hr|exact Ea| |apply no_route; vm_compute; reflexivity|vm_compute; reflexivity|vm_compute; reflexivity|vm_compute; reflexivity|by rewrite Eg].
  intros k r Hk _. assert (Hin : k ∈ (map_to_list (routes_ relayed)).*1).
  { apply list_elem_of_fmap. exists (k, r). split; [reflexivity|by apply elem_of_map_to_list]. }
  rewrite Ek in Hin. by apply list_elem_of_singleton in Hin.
Defined.

(** ** Rebinding *)

Definition rebound : Agent := (Rebind resolve [] 0 (Some 8) true (Some moved_at) (started 3 at_a)).2.
Definition restarted : Agent := (Start clk resolve (Some 9) true (Some at_b) (Stop walk rebound)).2.

Lemma rebind_outlives_stop_witness :
  socket_ restarted = Some 9 /\ local_address_ restarted = Some at_b /\
  socket_ (ApplyPendingRebind restarted) = Some 8 /\ local_address_ (ApplyPendingRebind restarted) = Some moved_at.
Proof.
  assert (H1 : Rebind resolve [] 0 (Some 8) true (Some moved_at) (started 3 at_a) = (Success, rebound)).
  { unfold rebound. apply with_result. vm_compute. reflexivity. }
  assert (H2 : Start clk resolve (Some 9) true (Some at_b) (Stop walk rebound) = (Success, restarted)).
  { unfold restarted. apply with_result. vm_compute. reflexivity. }
  exact (rebind_outlives_stop clk walk resolve _ _ _ _ _ _ _ _ _ H1 H2).
Defined.

End AgentExamples.
