(* ===== verification/ServerMain.v ===== *)
(** * The server (server.h, server.cc)

    The acceptor thread takes connections from the backend, drives them through the
    handshake and promotes the ready ones to the workers, which drive them for the
    rest of their lives.  A worker's map is only touched under its lock, but its
    published size is read without it: a worker's pass changes the map in one step
    and publishes the new size in a later one, and the acceptor may read the old size
    in between.  The acceptor's own insertion is one operation, for it reads no count
    before it has published its own; it takes the lock, so a size the worker still
    owed is published before.  The acceptor is between two operations of its own pass
    when a worker runs, so what is left of its pass is part of the state ([promote_]).

    A session is known by the order in which it was accepted: the maps of the code
    are keyed by the session's own address object.  The backend is what it yields to
    [Accept] and whether it is alive; what the application's connected handler does to
    a session is [on_connected].  The schedulers and the workers' signals only decide
    when a pass happens, so one may happen at any time.  Metrics and logging are left out. *)

From S2P Require Import Prelude Buffer InetAddr Admission ZdtState ZdtServer.

(** The sessions a server drives. *)
Class ServedSessions := {
  Peer : Type;
  PeerAlive : Peer -> bool;
  PeerReady : Peer -> bool;
  connect_time : Peer -> Z;
  PeerProcess : Peer -> Peer;
  PeerClose : bool -> Peer -> Peer;
  PeerRelease : Peer -> Peer
}.

(** A closed session is dead and stays it; only [Process] makes a session ready, and
    it stays ready; when it connected does not change. *)
Class ServedLaws (S : ServedSessions) : Prop := {
  PeerClose_dead b p : PeerAlive (PeerClose b p) = false;
  PeerClose_ready b p : PeerReady (PeerClose b p) = PeerReady p;
  PeerProcess_ready p : PeerReady p = true -> PeerReady (PeerProcess p) = true;
  PeerProcess_time p : connect_time (PeerProcess p) = connect_time p;
  PeerRelease_alive p : PeerAlive (PeerRelease p) = PeerAlive p
}.

Module Server.

Inductive Event :=
  | ServerStartup
  | ServerShutdown
  | ClientConnected (session : nat)
  | ClientDisconnected (session : nat).

#[export] Instance Event_eq_dec : EqDecision Event.
Proof. solve_decision. Defined.

(** Where the acceptor's thread is: not started, in its loop, clearing the workers,
    disconnecting what is pending, finished, or joined. *)
Inductive Phase := Idle | Serving | Clearing | Disconnecting | Finished | Joined.

#[export] Instance Phase_eq_dec : EqDecision Phase.
Proof. solve_decision. Defined.

Section Server.
Context `{Ss : ServedSessions}.

(** [SessionSet]: the map, the count as last published, and whether the worker is
    inside [With], past [fn] and before the store of the count. *)
Record TaskData := mkTask {
  sessions_ : gmap nat Peer;
  count_ : Z;
  publishing_ : bool
}.

Record ServerConfig := mkConfig {
  max_connections : Z;
  connection_timeout : Z
}.

Record Server := mkServer {
  config_ : ServerConfig;
  phase_ : Phase;
  backend_alive_ : bool;
  pending_sessions_ : gmap nat Peer;
  promote_ : list nat;
  tasks_ : list TaskData;
  next_session_ : nat;
  events_ : list Event;
  gone_ : list (nat * Peer);
  shutdown_complete_ : bool
}.

Definition set_phase v s := mkServer (config_ s) v (backend_alive_ s) (pending_sessions_ s) (promote_ s) (tasks_ s) (next_session_ s) (events_ s) (gone_ s) (shutdown_complete_ s).
Definition set_alive v s := mkServer (config_ s) (phase_ s) v (pending_sessions_ s) (promote_ s) (tasks_ s) (next_session_ s) (events_ s) (gone_ s) (shutdown_complete_ s).
Definition set_pending v s := mkServer (config_ s) (phase_ s) (backend_alive_ s) v (promote_ s) (tasks_ s) (next_session_ s) (events_ s) (gone_ s) (shutdown_complete_ s).
Definition set_promote v s := mkServer (config_ s) (phase_ s) (backend_alive_ s) (pending_sessions_ s) v (tasks_ s) (next_session_ s) (events_ s) (gone_ s) (shutdown_complete_ s).
Definition set_tasks v s := mkServer (config_ s) (phase_ s) (backend_alive_ s) (pending_sessions_ s) (promote_ s) v (next_session_ s) (events_ s) (gone_ s) (shutdown_complete_ s).
Definition set_next_session v s := mkServer (config_ s) (phase_ s) (backend_alive_ s) (pending_sessions_ s) (promote_ s) (tasks_ s) v (events_ s) (gone_ s) (shutdown_complete_ s).
Definition set_events v s := mkServer (config_ s) (phase_ s) (backend_alive_ s) (pending_sessions_ s) (promote_ s) (tasks_ s) (next_session_ s) v (gone_ s) (shutdown_complete_ s).
Definition set_gone v s := mkServer (config_ s) (phase_ s) (backend_alive_ s) (pending_sessions_ s) (promote_ s) (tasks_ s) (next_session_ s) (events_ s) v (shutdown_complete_ s).
Definition set_shutdown_complete v s := mkServer (config_ s) (phase_ s) (backend_alive_ s) (pending_sessions_ s) (promote_ s) (tasks_ s) (next_session_ s) (events_ s) (gone_ s) v.

(** The order in which a map is walked. *)
Context (walk : gmap nat Peer -> list (nat * Peer)) (on_connected : Peer -> Peer).

(** [cores]: what [hardware_concurrency] says. *)
Definition Server_new (config : ServerConfig) (cores : nat) : Server :=
  mkServer config Idle false ∅ [] (repeat (mkTask ∅ 0 false) (if (cores =? 0)%nat then 1%nat else cores)) 0 [] [] false.

Definition fire (es : list Event) (s : Server) : Server := set_events (events_ s ++ es) s.

Definition let_go (ps : list (nat * Peer)) (s : Server) : Server := set_gone (gone_ s ++ ps) s.

(** The two halves of [SessionSet::With]: [fn] on the map, then the store of its
    size. *)
Definition run_fn (fn : gmap nat Peer -> gmap nat Peer) (data : TaskData) : TaskData :=
  mkTask (fn (sessions_ data)) (count_ data) true.

Definition publish (data : TaskData) : TaskData :=
  mkTask (sessions_ data) (Z.of_nat (size (sessions_ data))) false.

Definition With (fn : gmap nat Peer -> gmap nat Peer) (data : TaskData) : TaskData := publish (run_fn fn data).

(** [backend]: what the backend's [Listen] returns, [None] without a backend. *)
Definition Listen (backend : option Result) (s : Server) : Result * Server :=
  if negb (bool_decide (phase_ s = Idle)) && negb (bool_decide (phase_ s = Joined)) then (AlreadyListening, s)
  else match backend with
       | None => (InvalidBackend, s)
       | Some result =>
           if negb (bool_decide (result = Success)) then (result, s)
           else (Success, fire [ServerStartup] (set_phase Serving (set_alive true (set_shutdown_complete false s))))
       end.

(** [backend]: what the backend's [Close] returns, after which it is not alive. *)
Definition Stop (backend : option Result) (s : Server) : Result * Server :=
  match backend with
  | None => (InvalidBackend, s)
  | Some result => (result, set_alive false s)
  end.

Definition ActiveSessionCount (s : Server) : Z :=
  foldl (fun count data => count + count_ data) (Z.of_nat (size (pending_sessions_ s))) (tasks_ s).

(** One session out of [Accept]. *)
Definition accept_one (s : Server) (session : Peer) : Server :=
  let cap := max_connections (config_ s) in
  let id := next_session_ s in
  let s := set_next_session (S id) s in
  if (0 <? cap) && (cap <=? ActiveSessionCount s) then let_go [(id, PeerClose true session)] s
  else set_pending (<[id := session]> (pending_sessions_ s)) s.

(** [accepted]: what the backend yields until it has no more. *)
Definition CheckNetwork (accepted : list Peer) (s : Server) : Server := foldl accept_one s accepted.

(** The events fired, the sessions dropped and the map that is left. *)
Definition CleanupAndProcessSessions (sessions : gmap nat Peer) : list Event * list (nat * Peer) * gmap nat Peer :=
  let remove := List.filter (fun e => negb (PeerAlive e.2)) (walk sessions) in
  (map (fun e => ClientDisconnected e.1) (List.filter (fun e => PeerReady e.2) remove),
   map (fun e => (e.1, PeerRelease e.2)) remove,
   PeerProcess <$> foldl (fun m e => delete e.1 m) sessions remove).

Definition SelectNextTask (tasks : list TaskData) : option nat :=
  match tasks with
  | [] => None
  | first :: _ =>
      Some (foldl (fun min e => if count_ e.2 <? min.2 then (e.1, count_ e.2) else min) (0%nat, count_ first)
              (imap (fun i data => (i, data)) tasks)).1
  end.

Definition SubmitSession (i : nat) (id : nat) (session : Peer) (s : Server) : Server :=
  let s := fire [ClientConnected id] s in
  set_tasks (alter (With (fun sessions => <[id := on_connected session]> sessions)) i (tasks_ s)) s.

Definition PromoteReady (id : nat) (session : Peer) (s : Server) : Server :=
  match SelectNextTask (tasks_ s) with
  | None => let_go [(id, PeerClose false session)] s
  | Some i => SubmitSession i id session s
  end.

(** A pending session that is not ready in time is closed. *)
Definition time_out (timeout : Z) (now : nat -> Z) (id : nat) (session : Peer) : Peer :=
  if negb (PeerReady session) && (0 <? timeout) && (timeout <? now id - connect_time session)
  then PeerClose false session else session.

(** [ProcessSessions] up to its last loop; [now]: the clock as it is read for each
    session. *)
Definition sweep (now : nat -> Z) (s : Server) : Server :=
  let '(events, gone, pending) := CleanupAndProcessSessions (pending_sessions_ s) in
  let s := let_go gone (fire events s) in
  let pending := map_imap (fun id session => Some (time_out (connection_timeout (config_ s)) now id session)) pending in
  set_promote (map fst (List.filter (fun e => PeerReady e.2) (walk pending))) (set_pending pending s).

(** One turn of the last loop. *)
Definition promote_one (s : Server) : Server :=
  match promote_ s with
  | [] => s
  | id :: rest =>
      let s := set_promote rest s in
      match pending_sessions_ s !! id with
      | None => s
      | Some session =>
          let s := PromoteReady id session s in
          set_pending (delete id (pending_sessions_ s)) s
      end
  end.

Definition ProcessSessions (now : nat -> Z) (s : Server) : Server :=
  let s := sweep now s in Nat.iter (length (promote_ s)) promote_one s.

(** One pass of a worker's loop, up to the end of [fn]. *)
Definition worker_pass (i : nat) (s : Server) : Server :=
  match tasks_ s !! i with
  | None => s
  | Some data =>
      let '(events, gone, sessions) := CleanupAndProcessSessions (sessions_ data) in
      let s := let_go gone (fire events s) in
      set_tasks (<[i := run_fn (fun _ => sessions) data]> (tasks_ s)) s
  end.

(** The rest of the worker's [With]. *)
Definition worker_publish (i : nat) (s : Server) : Server := set_tasks (alter publish i (tasks_ s)) s.

(** ** Shutting down *)

(** The end of the acceptor's loop. *)
Definition leave_loop (s : Server) : Server := set_phase Clearing (fire [ServerShutdown] s).

(** [tasks_.clear()], one worker: it leaves its loop, closes what it has, and is
    joined. *)
Definition clear_one (s : Server) : Server :=
  match tasks_ s with
  | [] => s
  | data :: rest =>
      let s := let_go (map (fun e => (e.1, PeerRelease (PeerClose false e.2))) (walk (sessions_ data))) s in
      set_tasks rest s
  end.

(** [DisconnectPending] up to the last loop of its [ProcessSessions]. *)
Definition DisconnectPending (now : nat -> Z) (s : Server) : Server :=
  sweep now (set_pending (PeerClose false <$> pending_sessions_ s) s).

Definition finish (s : Server) : Server := set_shutdown_complete true (set_phase Finished (set_alive false s)).

(** Where [Wait] returns. *)
Definition Wait (s : Server) : Server := if bool_decide (phase_ s = Finished) then set_phase Joined s else s.

(** The whole of [MainProcessor] after its loop. *)
Definition shut_down (now : nat -> Z) (s : Server) : Server :=
  let s := leave_loop s in
  let s := Nat.iter (length (tasks_ s)) clear_one s in
  let s := DisconnectPending now (set_phase Disconnecting s) in
  let s := Nat.iter (length (promote_ s)) promote_one s in
  finish s.

End Server.

End Server.
