(* ===== verification/ServerMainTheorems.v ===== *)
(** * What the server tells the application, and what it bounds

    By induction over every interleaving of the acceptor, the workers, [Stop] and
    whatever else touches the sessions: connected and disconnected events pair up, a
    session is driven by one thread, the cap holds, and a shutdown leaves nothing
    open. *)

From S2P Require Import Prelude Buffer InetAddr Admission ZdtState ZdtServer ServerMain.

Import Server.

Section Threads.
Context `{Ss : ServedSessions} `{!ServedLaws Ss}.
Context (walk : gmap nat Peer -> list (nat * Peer)) (on_connected : Peer -> Peer).
Context (walks : forall m, walk m ≡ₚ map_to_list m) (installs : forall p, PeerReady (on_connected p) = PeerReady p).

(** ** Steps *)

(** What other threads may do to a session: neither make it ready nor revive it. *)
Definition outside (f : Peer -> Peer) : Prop :=
  forall p, PeerReady (f p) = PeerReady p /\ (PeerAlive p = false -> PeerAlive (f p) = false).

(** The acceptor runs its program, one operation a step; a session that [Accept]
    yields has not run its handshake. *)
Inductive server_step (s : Server) : Server -> Prop :=
  | ss_listen backend : server_step s (Listen backend s).2
  | ss_stop backend : server_step s (Stop backend s).2
  | ss_accept p : phase_ s = Serving -> promote_ s = [] -> PeerReady p = false -> server_step s (accept_one s p)
  | ss_sweep now : phase_ s = Serving -> promote_ s = [] -> server_step s (sweep walk now s)
  | ss_promote : server_step s (promote_one on_connected s)
  | ss_worker i : (forall data, tasks_ s !! i = Some data -> publishing_ data = false) -> server_step s (worker_pass walk i s)
  | ss_publish i : server_step s (worker_publish i s)
  | ss_leave : phase_ s = Serving -> promote_ s = [] -> backend_alive_ s = false -> server_step s (leave_loop s)
  | ss_clear : phase_ s = Clearing -> server_step s (clear_one walk s)
  | ss_disconnect now : phase_ s = Clearing -> tasks_ s = [] -> promote_ s = [] ->
      server_step s (DisconnectPending walk now (set_phase Disconnecting s))
  | ss_finish : phase_ s = Disconnecting -> promote_ s = [] -> server_step s (finish s)
  | ss_wait : phase_ s = Finished -> server_step s (Wait s)
  | ss_pending id f : outside f -> server_step s (set_pending (alter f id (pending_sessions_ s)) s)
  | ss_served i id f : outside f ->
      server_step s (set_tasks (alter (fun data => mkTask (alter f id (sessions_ data)) (count_ data) (publishing_ data)) i (tasks_ s)) s).

Inductive server_reachable (config : ServerConfig) (cores : nat) : Server -> Prop :=
  | sr_new : server_reachable config cores (Server_new config cores)
  | sr_step s s' : server_reachable config cores s -> server_step s s' -> server_reachable config cores s'.

(** ** A session's story *)

Definition about (id : nat) (e : Event) : bool :=
  match e with ClientConnected n | ClientDisconnected n => (n =? id)%nat | _ => false end.

Definition story (id : nat) (es : list Event) : list Event := List.filter (about id) es.

Lemma story_app id es es' : story id (es ++ es') = story id es ++ story id es'.
Proof. apply List.filter_app. Qed.

Lemma story_none id es : Forall (fun e => about id e = false) es -> story id es = [].
Proof. induction 1 as [|e es H _ IH]; [done|]. unfold story in *. cbn. by rewrite H. Qed.

(** Worker [i] has the session [id]. *)
Definition serves (s : Server) (i id : nat) (p : Peer) : Prop := exists data, tasks_ s !! i = Some data /\ sessions_ data !! id = Some p.

(** What is where. *)
Record server_ok (s : Server) : Prop := {
  ok_new id : (next_session_ s <= id)%nat -> pending_sessions_ s !! id = None /\ story id (events_ s) = [];
  ok_pending id p : pending_sessions_ s !! id = Some p -> story id (events_ s) = [] /\ (PeerReady p = true -> id ∈ promote_ s);
  ok_promote id : id ∈ promote_ s -> exists p, pending_sessions_ s !! id = Some p /\ PeerReady p = true;
  ok_promote_once : NoDup (promote_ s);
  ok_served i id p : serves s i id p -> story id (events_ s) = [ClientConnected id] /\ PeerReady p = true;
  ok_one i j id p q : serves s i id p -> serves s j id q -> i = j;
  ok_count i data : tasks_ s !! i = Some data -> Z.of_nat (size (sessions_ data)) <= count_ data;
  ok_story id : story id (events_ s) = [] \/ story id (events_ s) = [ClientConnected id; ClientDisconnected id] \/
    story id (events_ s) = [ClientConnected id] /\ (ServerShutdown ∈ events_ s \/ exists i p, serves s i id p);
  ok_leaving : phase_ s = Clearing -> ServerShutdown ∈ events_ s
}.

(** ** Cleaning up *)

Lemma walk_in m id p : (id, p) ∈ walk m <-> m !! id = Some p.
Proof. rewrite (walks m). apply elem_of_map_to_list. Qed.

Lemma walk_once m : NoDup (walk m).*1.
Proof. rewrite (walks m). apply NoDup_fst_map_to_list. Qed.

Lemma filter_keys (f : nat * Peer -> bool) es : NoDup es.*1 -> NoDup (List.filter f es).*1.
Proof.
  induction es as [|e es IH]; [done|]. intros H. apply NoDup_cons in H as [H1 H2]. cbn. destruct (f e); [|by apply IH].
  apply NoDup_cons. split; [|by apply IH]. intros Hin. apply H1. apply list_elem_of_fmap in Hin as (e' & E & Hin).
  apply list_elem_of_In, filter_In in Hin as [Hin _]. apply list_elem_of_fmap. exists e'. split; [done|]. by apply list_elem_of_In.
Qed.

Lemma filter_in (f : nat * Peer -> bool) es e : e ∈ List.filter f es <-> e ∈ es /\ f e = true.
Proof. by rewrite !list_elem_of_In, filter_In. Qed.

(** The story the fired events tell of one session. *)
Lemma story_keys id (es : list (nat * Peer)) : NoDup es.*1 ->
  story id (map (fun e => ClientDisconnected e.1) es) = if bool_decide (id ∈ es.*1) then [ClientDisconnected id] else [].
Proof.
  induction es as [|[k p] es IH]; intros H; [done|]. change (((k, p) :: es).*1) with (k :: es.*1) in *. apply NoDup_cons in H as [H1 H2]. unfold story in *. cbn [fst map]. cbn [List.filter about].
  rewrite IH by done. destruct (Nat.eqb_spec k id) as [->|Hk].
  - rewrite (bool_decide_eq_true_2 (id ∈ id :: _)) by by left. by rewrite bool_decide_eq_false_2.
  - replace (bool_decide (id ∈ k :: _)) with (bool_decide (id ∈ es.*1)); [done|]. apply bool_decide_ext. rewrite elem_of_cons. split; [by right|]. by intros [->|].
Qed.

Lemma deleted_lookup (es : list (nat * Peer)) (m : gmap nat Peer) id :
  foldl (fun m e => delete e.1 m) m es !! id = if bool_decide (id ∈ es.*1) then None else m !! id.
Proof.
  revert m. induction es as [|[k p] es IH]; intros m; [done|]. cbn [foldl]. rewrite IH. cbn. destruct (decide (id ∈ es.*1)) as [Hin|Hin].
  - by rewrite !bool_decide_eq_true_2 by (done || by right).
  - rewrite bool_decide_eq_false_2 by done. destruct (decide (id = k)) as [->|Hk].
    + rewrite bool_decide_eq_true_2 by by left. by rewrite lookup_delete_eq.
    + rewrite bool_decide_eq_false_2 by (rewrite elem_of_cons; naive_solver). by rewrite lookup_delete_ne.
Qed.

Lemma cleanup_spec m ev gone m' : CleanupAndProcessSessions walk m = (ev, gone, m') ->
  (forall id, m' !! id = match m !! id with Some p => if PeerAlive p then Some (PeerProcess p) else None | None => None end) /\
  (forall id, story id ev = match m !! id with Some p => if negb (PeerAlive p) && PeerReady p then [ClientDisconnected id] else [] | None => [] end) /\
  ServerShutdown ∉ ev /\ (size m' <= size m)%nat.
Proof.
  unfold CleanupAndProcessSessions. intros [= <- <- <-]. set (dead := List.filter (fun e => negb (PeerAlive e.2)) (walk m)).
  assert (forall id, id ∈ dead.*1 <-> exists p, m !! id = Some p /\ PeerAlive p = false) as Hd.
  { intros id. rewrite list_elem_of_fmap. unfold dead. setoid_rewrite filter_in. split.
    - intros ([k p] & -> & Hin & Ha). exists p. split; [by apply walk_in|]. cbn in *. by destruct (PeerAlive p).
    - intros (p & Hp & Ha). exists (id, p). split_and!; [done|by apply walk_in|]. cbn. by rewrite Ha. }
  assert (forall id, (PeerProcess <$> foldl (fun m e => delete e.1 m) m dead) !! id =
    match m !! id with Some p => if PeerAlive p then Some (PeerProcess p) else None | None => None end) as Hl.
  { intros id. rewrite lookup_fmap, deleted_lookup. case_bool_decide as Hin.
    - apply Hd in Hin as (p & -> & ->). done.
    - destruct (m !! id) as [p|] eqn:E; [|done]. destruct (PeerAlive p) eqn:Ha; [done|]. exfalso. apply Hin, Hd. by exists p. }
  split_and!; [exact Hl| | |].
  - intros id. rewrite story_keys by (apply filter_keys, filter_keys, walk_once). case_bool_decide as Hin.
    + apply list_elem_of_fmap in Hin as ([k p] & -> & Hin). apply filter_in in Hin as [Hin Hr]. apply filter_in in Hin as [Hin Ha].
      apply walk_in in Hin. cbn in *. by rewrite Hin, Ha, Hr.
    + destruct (m !! id) as [p|] eqn:E; [|done]. destruct (negb (PeerAlive p) && PeerReady p) eqn:Hb; [|done]. apply andb_true_iff in Hb as [Ha Hr].
      exfalso. apply Hin. apply list_elem_of_fmap. exists (id, p). split; [done|]. apply filter_in. split; [|done]. apply filter_in. by rewrite walk_in.
  - intros Hin. apply list_elem_of_In, in_map_iff in Hin as (e & E & _). done.
  - rewrite map_size_fmap. clearbody dead. clear. revert m. induction dead as [|e es IH]; intros m; cbn [foldl]; [done|]. etransitivity; [apply IH|].
    apply map_subseteq_size, delete_subseteq.
Qed.

(** ** Every step keeps the books *)

Lemma fired_shutdown es s : ServerShutdown ∈ events_ s -> ServerShutdown ∈ events_ (fire es s).
Proof. intros H. apply elem_of_app. by left. Qed.

(** Events that concern no session change no story. *)
Lemma listen_ok backend s : server_ok s -> server_ok (Listen backend s).2.
Proof.
  intros H. unfold Listen. repeat (case_match; try done). cbn [snd].
  assert (forall id, story id (events_ s ++ [ServerStartup]) = story id (events_ s)) as E by (intros id; by rewrite story_app, app_nil_r).
  destruct H. split; cbn; try done; try setoid_rewrite E; try done.
  intros id. destruct (ok_story0 id) as [?|[?|[? [?|?] ] ] ]; [by left|right; by left|right; right; split; [done|]..]; [left; apply elem_of_app; by left|by right].
Qed.

Lemma server_accept_ok p s : promote_ s = [] -> PeerReady p = false -> server_ok s -> server_ok (accept_one s p).
Proof.
  intros Hp Hr H. unfold accept_one. destruct (ok_new _ H (next_session_ s) ltac:(lia)) as (N1 & N2). destruct (_ && _).
  - destruct H. split; cbn; try done. intros id Hid. apply ok_new0. lia.
  - destruct H. split; cbn; try done.
    + intros id Hid. rewrite lookup_insert_ne by lia. apply ok_new0. lia.
    + intros id q. destruct (decide (id = next_session_ s)) as [->|Hne].
      * rewrite lookup_insert_eq. intros [= <-]. split; [done|by rewrite Hr].
      * rewrite lookup_insert_ne by done. apply ok_pending0.
    + intros id Hin. by rewrite Hp in Hin; apply not_elem_of_nil in Hin.
Qed.

Lemma time_out_ready timeout now id p : PeerReady (time_out timeout now id p) = PeerReady p.
Proof. unfold time_out. destruct (_ && _); [apply PeerClose_ready|done]. Qed.

(** A pass over pending sessions none of which is ready. *)
Lemma server_sweep_ok now s : promote_ s = [] -> server_ok s -> server_ok (sweep walk now s).
Proof.
  intros Hp H. unfold sweep. destruct (CleanupAndProcessSessions walk (pending_sessions_ s)) as [ [ev gone] m'] eqn:Ec.
  apply cleanup_spec in Ec as (Hl & Hs & Hn & _).
  assert (forall id, story id (events_ s ++ ev) = story id (events_ s)) as E.
  { intros id. rewrite story_app, Hs. destruct (pending_sessions_ s !! id) as [p|] eqn:Ep; [|by rewrite app_nil_r].
    destruct (ok_pending _ H _ _ Ep) as (_ & Hr). destruct (PeerReady p); [|by rewrite andb_false_r, app_nil_r].
    rewrite Hp in Hr. by specialize (Hr eq_refl); apply not_elem_of_nil in Hr. }
  set (pend := map_imap _ m'). assert (forall id q, pend !! id = Some q -> exists p, pending_sessions_ s !! id = Some p) as Hd.
  { intros id q. unfold pend. rewrite map_lookup_imap, Hl. destruct (pending_sessions_ s !! id); [by eexists|done]. }
  assert (forall id, id ∈ map fst (List.filter (fun e => PeerReady e.2) (walk pend)) <-> exists q, pend !! id = Some q /\ PeerReady q = true) as Hpr.
  { intros id. change (map fst) with (fmap (M := list) (@fst nat Peer)). rewrite list_elem_of_fmap. setoid_rewrite filter_in. split.
    - intros ([k q] & -> & Hin & Hr). exists q. by rewrite <- walk_in.
    - intros (q & Hq & Hr). exists (id, q). by rewrite walk_in. }
  clearbody pend. destruct H. split; cbn; try done; try setoid_rewrite E; try done.
  - intros id Hid. destruct (ok_new0 id Hid) as (N1 & N2). split; [|done]. destruct (pend !! id) eqn:Ep; [|done].
    destruct (Hd _ _ Ep) as [p0 Hq]. congruence.
  - intros id q Hq. destruct (Hd _ _ Hq) as [p0 Hp']. destruct (ok_pending0 _ _ Hp') as (S1 & _). split; [done|].
    intros Hr. apply Hpr. by exists q.
  - intros id Hin. by apply Hpr.
  - apply (filter_keys (fun e => PeerReady e.2)), walk_once.
  - intros id. destruct (ok_story0 id) as [?|[?|[? [?|?] ] ] ]; [by left|right; by left|right; right; split; [done|]..]; [left; apply elem_of_app; by left|by right].
  - intros Hc. apply elem_of_app. left. by apply ok_leaving0.
Qed.

Lemma select_spec tasks i : SelectNextTask tasks = Some i ->
  exists data, tasks !! i = Some data /\ forall j data', tasks !! j = Some data' -> count_ data <= count_ data'.
Proof.
  unfold SelectNextTask. destruct tasks as [|first rest] eqn:Et; [done|]. rewrite <- Et. intros [= <-].
  assert (forall (es : list (nat * TaskData)) (k : nat) c, (forall e, e ∈ es -> tasks !! e.1 = Some e.2) -> (exists d, tasks !! k = Some d /\ count_ d = c) ->
    let r := foldl (fun min e => if count_ e.2 <? min.2 then (e.1, count_ e.2) else min) (k, c) es in
    (exists d, tasks !! r.1 = Some d /\ count_ d = r.2) /\ r.2 <= c /\ forall e, e ∈ es -> r.2 <= count_ e.2) as Hf.
  { induction es as [|e es IH]; intros k c He Hk; cbn [foldl]; [split_and!; [done|done|intros e Hin; by apply not_elem_of_nil in Hin]|].
    cbn [snd]. destruct (Z.ltb_spec (count_ e.2) c).
    - destruct (IH e.1 (count_ e.2)) as (R1 & R2 & R3); [intros e' Hin; apply He; by right|exists e.2; split; [apply He; by left|done]|].
      cbn zeta in *. split_and!; [done|lia|]. intros e' [->|Hin]%elem_of_cons; [done|by apply R3].
    - destruct (IH k c) as (R1 & R2 & R3); [intros e' Hin; apply He; by right|done|].
      cbn zeta in *. split_and!; [done|lia|]. intros e' [->|Hin]%elem_of_cons; [lia|by apply R3]. }
  destruct (Hf (imap (fun i data => (i, data)) tasks) 0%nat (count_ first)) as ((d & H1 & H2) & _ & H4).
  - intros e Hin. apply elem_of_lookup_imap in Hin as (j & d & -> & Hd). done.
  - exists first. by rewrite Et.
  - cbn zeta in *. exists d. split; [done|]. intros j d' Hd. rewrite H2. apply (H4 (j, d')). by apply (elem_of_lookup_imap_2 (fun i data => (i, data))).
Qed.

Lemma submit_serves i id p s : is_Some (tasks_ s !! i) -> forall j k q,
  serves (SubmitSession on_connected i id p s) j k q <-> (j = i /\ k = id /\ q = on_connected p) \/ ((j <> i \/ k <> id) /\ serves s j k q).
Proof.
  intros [data Hi] j k q. unfold serves. cbn [SubmitSession tasks_ set_tasks fire set_events]. destruct (decide (i = j)) as [<-|Hj].
  - rewrite list_lookup_alter_eq, Hi. cbn. destruct (decide (k = id)) as [->|Hk].
    + split; [intros (d & [= <-] & Hq); cbn in Hq; rewrite lookup_insert_eq in Hq; simplify_eq; by left|].
      intros [(_ & _ & ->)|[ [|] _] ]; [|done..]. eexists. split; [done|]. cbn. by rewrite lookup_insert_eq.
    + split; [intros (d & [= <-] & Hq); cbn in Hq; rewrite lookup_insert_ne in Hq by done; right; split; [by right|]; by exists data|].
      intros [(_ & ? & _)|[_ (d & [= <-] & Hq)] ]; [done|]. eexists. split; [done|]. cbn. by rewrite lookup_insert_ne.
  - rewrite list_lookup_alter_ne by done. split; [intros H; right; split; [left; congruence|done]|]. intros [(? & _)|[_ H] ]; [congruence|done].
Qed.

Lemma submit_story i id p s : story id (events_ s) = [] -> forall k,
  story k (events_ (SubmitSession on_connected i id p s)) = if decide (k = id) then [ClientConnected id] else story k (events_ s).
Proof.
  intros Hst k. change (events_ (SubmitSession _ _ _ _ _)) with (events_ s ++ [ClientConnected id]). rewrite story_app.
  unfold story at 2. cbn [List.filter about]. destruct (decide (k = id)) as [->|Hne]; [by rewrite Hst, Nat.eqb_refl|].
  destruct (Nat.eqb_spec id k); [congruence|by rewrite app_nil_r].
Qed.

Lemma promote_ok s : server_ok s -> server_ok (promote_one on_connected s).
Proof.
  intros H. unfold promote_one. destruct (promote_ s) as [|id rest] eqn:Ep; [done|]. cbn [pending_sessions_ set_promote].
  destruct (ok_promote _ H id) as (p & Hp & Hr); [rewrite Ep; by left|]. rewrite Hp.
  destruct (ok_pending _ H _ _ Hp) as [Hst _]. pose proof (ok_promote_once _ H) as Hnd. rewrite Ep in Hnd. apply NoDup_cons in Hnd as [Hnd1 Hnd2].
  assert (forall k q, delete id (pending_sessions_ s) !! k = Some q -> k <> id /\ pending_sessions_ s !! k = Some q) as Hdel.
  { intros k q Hq. destruct (decide (k = id)) as [->|Hne]; [by rewrite lookup_delete_eq in Hq|]. by rewrite lookup_delete_ne in Hq. }
  assert (forall k, k ∈ rest -> exists q, delete id (pending_sessions_ s) !! k = Some q /\ PeerReady q = true) as Hpro.
  { intros k Hk. destruct (ok_promote _ H k) as (q & Hq & Hrq); [rewrite Ep; by right|]. exists q. split; [|done].
    rewrite lookup_delete_ne; [done|]. by intros ->. }
  unfold PromoteReady. cbn [tasks_ set_promote]. destruct (SelectNextTask (tasks_ s)) as [i|] eqn:Es.
  - apply select_spec in Es as (data & Hi & _). set (s0 := set_promote rest s).
    pose proof (submit_serves i id p s0 (ex_intro _ data Hi)) as Hsv. change (serves s0) with (serves s) in Hsv.
    set (s1 := SubmitSession on_connected i id p s0) in *.
    pose proof (submit_story i id p s0 Hst) as Est. fold s1 in Est. change (events_ s0) with (events_ s) in Est.
    assert (forall j q, ~ serves s j id q) as Hno by (intros j q Hsq; destruct (ok_served _ H _ _ _ Hsq) as [E _]; congruence).
    split; cbn [pending_sessions_ promote_ next_session_ set_pending].
    + intros k Hk. change (next_session_ s1) with (next_session_ s) in Hk. destruct (ok_new _ H k Hk) as [N1 N2].
      change (pending_sessions_ s1) with (pending_sessions_ s). assert (k <> id) by congruence. rewrite lookup_delete_ne by done. split; [done|].
      change (events_ (set_pending _ s1)) with (events_ s1). rewrite Est. by rewrite decide_False.
    + intros k q. change (pending_sessions_ s1) with (pending_sessions_ s). intros [Hne Hq]%Hdel. destruct (ok_pending _ H _ _ Hq) as [E1 E2].
      change (events_ (set_pending _ s1)) with (events_ s1). rewrite Est, decide_False by done. split; [done|]. intros Hrq. specialize (E2 Hrq).
      rewrite Ep in E2. change (promote_ s1) with rest. apply elem_of_cons in E2 as [->|?]; done.
    + intros k Hk. change (pending_sessions_ s1) with (pending_sessions_ s). by apply Hpro.
    + done.
    + intros j k q Hsq. change (serves (set_pending _ s1)) with (serves s1) in Hsq. change (events_ (set_pending _ s1)) with (events_ s1).
      rewrite Est. apply Hsv in Hsq as [(_ & -> & ->)|[_ Hsq] ]; [rewrite decide_True by done; by rewrite installs|].
      rewrite decide_False; [by apply (ok_served _ H j k)|]. intros ->. by apply (Hno j q).
    + intros j j' k q q'. change (serves (set_pending _ s1)) with (serves s1). intros H1%Hsv H2%Hsv.
      destruct H1 as [(-> & -> & _)|[_ H1] ], H2 as [(-> & Ek & _)|[_ H2] ]; try done; [by apply Hno in H2|subst k; by apply Hno in H1|].
      by apply (ok_one _ H _ _ _ _ _ H1 H2).
    + intros j d. change (tasks_ (set_pending _ s1)) with (alter (With (fun m => <[id := on_connected p]> m)) i (tasks_ s)).
      destruct (decide (i = j)) as [<-|Hj]; [rewrite list_lookup_alter_eq, Hi; intros [= <-]; cbn; lia|rewrite list_lookup_alter_ne by done; apply (ok_count _ H)].
    + intros k. change (events_ (set_pending _ s1)) with (events_ s1). change (serves (set_pending _ s1)) with (serves s1). rewrite Est.
      destruct (decide (k = id)) as [->|Hne].
      * right. right. split; [done|]. right. exists i, (on_connected p). apply Hsv. by left.
      * destruct (ok_story _ H k) as [?|[?|[? [?|(j & q & Hq)] ] ] ]; [by left|right; by left|right; right; split; [done|]..].
        -- left. apply elem_of_app. by left.
        -- right. exists j, q. apply Hsv. right. split; [by right|done].
    + intros Hc. apply elem_of_app. left. by apply (ok_leaving _ H).
  - destruct H. split; cbn; try done.
    + intros k Hk. destruct (ok_new0 k Hk). split; [|done]. apply lookup_delete_None. by right.
    + intros k q [Hne Hq]%Hdel. destruct (ok_pending0 _ _ Hq) as [E1 E2]. split; [done|]. intros Hrq. specialize (E2 Hrq). rewrite Ep in E2.
      apply elem_of_cons in E2 as [->|?]; done.
Qed.

Lemma unserved s id i p : server_ok s -> story id (events_ s) = [] -> ~ serves s i id p.
Proof. intros H E Hs. destruct (ok_served _ H _ _ _ Hs) as [E' _]. congruence. Qed.

Lemma worker_serves i s j k q : serves (worker_pass walk i s) j k q <->
  (j <> i /\ serves s j k q) \/ (j = i /\ exists p, serves s i k p /\ PeerAlive p = true /\ q = PeerProcess p).
Proof.
  unfold worker_pass. destruct (tasks_ s !! i) as [data|] eqn:Hi.
  - destruct (CleanupAndProcessSessions walk (sessions_ data)) as [ [ev gone] m'] eqn:Ec. apply cleanup_spec in Ec as (Hl & _).
    unfold serves. cbn [tasks_ set_tasks let_go fire set_gone set_events]. destruct (decide (j = i)) as [->|Hj].
    + rewrite list_lookup_insert_eq by (by eapply lookup_lt_Some). split.
      * intros (d & [= <-] & Hq). right. split; [done|]. cbn in Hq. rewrite Hl in Hq. destruct (sessions_ data !! k) as [p|] eqn:Hk; [|done].
        destruct (PeerAlive p) eqn:Ha; [|done]. simplify_eq. exists p. split; [by exists data|done].
      * intros [ [? _]|(_ & p & (d & Hd & Hk) & Ha & ->)]; [done|]. simplify_eq. eexists. split; [done|]. cbn. by rewrite Hl, Hk, Ha.
    + rewrite list_lookup_insert_ne by done. split; [intros Hx; by left|]. intros [ [_ Hx]|[? _] ]; done.
  - split.
    + intros Hq. destruct (decide (j = i)) as [->|Hj]; [destruct Hq as (d & Hd & _); congruence|by left].
    + intros [ [_ Hq]|(_ & p & (d & Hd & _) & _)]; [done|congruence].
Qed.

(** A pass tells of a session that it is gone, once it is, and of nothing else. *)
Lemma worker_story i s k : server_ok s -> let s1 := worker_pass walk i s in
  (story k (events_ s1) = story k (events_ s) /\ forall j p, serves s j k p -> exists q, serves s1 j k q) \/
  (story k (events_ s) = [ClientConnected k] /\ story k (events_ s1) = [ClientConnected k; ClientDisconnected k] /\ forall j q, ~ serves s1 j k q).
Proof.
  intros H. cbn zeta. pose proof (worker_serves i s) as Hsv. unfold worker_pass in *. destruct (tasks_ s !! i) as [data|] eqn:Hi; [|left; eauto].
  destruct (CleanupAndProcessSessions walk (sessions_ data)) as [ [ev gone] m'] eqn:Ec. apply cleanup_spec in Ec as (_ & Hs & _).
  set (s1 := set_tasks _ _) in *. change (events_ s1) with (events_ s ++ ev). rewrite story_app, Hs. clearbody s1.
  destruct (sessions_ data !! k) as [p|] eqn:Hk.
  - assert (serves s i k p) as Hsp by by exists data. destruct (ok_served _ H _ _ _ Hsp) as [E Hr]. rewrite Hr. destruct (PeerAlive p) eqn:Ha.
    + left. rewrite app_nil_r. split; [done|]. intros j q Hq. assert (j = i) as -> by apply (ok_one _ H j i k q p Hq Hsp).
      exists (PeerProcess p). apply Hsv. right. split; [done|]. by exists p.
    + right. rewrite E. split_and!; [done|done|]. intros j q [ [Hj Hq]|(-> & p' & (d & Hd & Hkd) & Ha' & _)]%Hsv; [|simplify_eq; congruence].
      apply Hj. by apply (ok_one _ H j i k q p).
  - left. rewrite app_nil_r. split; [done|]. intros j q Hq. exists q. apply Hsv. left. split; [|done]. intros ->.
    destruct Hq as (d & Hd & Hkd). congruence.
Qed.

Lemma worker_rest i s : let s1 := worker_pass walk i s in
  pending_sessions_ s1 = pending_sessions_ s /\ promote_ s1 = promote_ s /\ next_session_ s1 = next_session_ s /\ phase_ s1 = phase_ s /\
  (ServerShutdown ∈ events_ s -> ServerShutdown ∈ events_ s1) /\
  (forall j data, tasks_ s1 !! j = Some data -> tasks_ s !! j = Some data \/ exists data', tasks_ s !! j = Some data' /\ count_ data = count_ data' /\ (size (sessions_ data) <= size (sessions_ data'))%nat).
Proof.
  cbn zeta. unfold worker_pass. destruct (tasks_ s !! i) as [d|] eqn:Hi; [|eauto 10]. destruct (CleanupAndProcessSessions _ _) as [ [ev gone] m'] eqn:Ec.
  apply cleanup_spec in Ec as (_ & _ & _ & Hsz).
  split_and!; try done; [intros Hsh; apply elem_of_app; by left|]. intros j data. cbn [tasks_ set_tasks let_go fire set_gone set_events].
  destruct (decide (j = i)) as [->|Hj]; [|rewrite list_lookup_insert_ne by done; by left].
  rewrite list_lookup_insert_eq by (by eapply lookup_lt_Some). intros [= <-]. right. by exists d.
Qed.

Lemma worker_ok i s : server_ok s -> server_ok (worker_pass walk i s).
Proof.
  intros H. pose proof (worker_serves i s) as Hsv. pose proof (fun k => worker_story i s k H) as Est. destruct (worker_rest i s) as (R1 & R2 & R3 & R4 & R5 & R6).
  cbn zeta in *. set (s1 := worker_pass walk i s) in *. clearbody s1.
  assert (forall k, story k (events_ s) = [] -> story k (events_ s1) = []) as Est0 by (intros k E; destruct (Est k) as [ [-> _]|(E' & _)]; [done|congruence]).
  assert (forall j k q, serves s1 j k q -> exists p, serves s j k p) as Hold by (intros j k q [ [_ Hq]|(-> & p & Hp & _)]%Hsv; by eexists).
  split; rewrite ?R1, ?R2, ?R3, ?R4.
  - intros k Hk. destruct (ok_new _ H k Hk) as [N1 N2]. split; [done|by apply Est0].
  - intros k q Hq. destruct (ok_pending _ H _ _ Hq) as [E1 E2]. split; [by apply Est0|done].
  - apply (ok_promote _ H).
  - apply (ok_promote_once _ H).
  - intros j k q Hq. split.
    + destruct (Est k) as [ [-> _]|(_ & _ & Hno)]; [|by apply Hno in Hq]. destruct (Hold _ _ _ Hq) as [p Hp]. by apply (ok_served _ H j k p).
    + apply Hsv in Hq as [ [_ Hq]|(-> & p & Hp & _ & ->)]; [by apply (ok_served _ H j k)|]. apply PeerProcess_ready. by apply (ok_served _ H i k).
  - intros j j' k q q' [p Hp]%Hold [p' Hp']%Hold. by apply (ok_one _ H _ _ _ _ _ Hp Hp').
  - intros j d [Hd|(d' & Hd & -> & Hsz)]%R6; [by apply (ok_count _ H j)|]. pose proof (ok_count _ H j d' Hd). lia.
  - intros k. destruct (Est k) as [ [-> Hst]|(_ & -> & _)]; [|right; by left].
    destruct (ok_story _ H k) as [?|[?|[E [Hsh|(j & p & Hp)] ] ] ]; [by left|right; by left|right; right; split; [done|]..]; [left; by apply R5|].
    right. exists j. by apply (Hst j p).
  - intros Hc. apply R5. by apply (ok_leaving _ H).
Qed.

(** Publishing a count moves no session. *)
Lemma publish_serves i s j k q : serves (worker_publish i s) j k q <-> serves s j k q.
Proof.
  unfold serves, worker_publish. cbn [tasks_ set_tasks]. destruct (decide (i = j)) as [<-|Hj]; [|by rewrite list_lookup_alter_ne].
  rewrite list_lookup_alter_eq. destruct (tasks_ s !! i) as [d|]; cbn; [|done]. split; intros (d' & [= <-] & Hq); by eexists.
Qed.

Lemma publish_ok i s : server_ok s -> server_ok (worker_publish i s).
Proof.
  intros H. pose proof (publish_serves i s) as Hsv. split; try apply H.
  - intros j k q Hq%Hsv. by apply (ok_served _ H j k).
  - intros j j' k q q' H1%Hsv H2%Hsv. by apply (ok_one _ H _ _ _ _ _ H1 H2).
  - intros j d. unfold worker_publish. cbn [tasks_ set_tasks]. destruct (decide (i = j)) as [<-|Hj]; [|rewrite list_lookup_alter_ne by done; apply (ok_count _ H)].
    rewrite list_lookup_alter_eq. destruct (tasks_ s !! i); [|done]. intros [= <-]. cbn. lia.
  - intros k. change (events_ (worker_publish i s)) with (events_ s). setoid_rewrite Hsv. apply (ok_story _ H).
Qed.

(** A worker that is cleared takes its sessions along. *)
Lemma server_clear_ok s : phase_ s = Clearing -> server_ok s -> server_ok (clear_one walk s).
Proof.
  intros Hc H. unfold clear_one. destruct (tasks_ s) as [|data rest] eqn:Et; [done|]. set (s1 := set_tasks rest _).
  assert (forall j k q, serves s1 j k q -> serves s (S j) k q) as Hold.
  { intros j k q (d & Hd & Hq). exists d. split; [|done]. rewrite Et. done. }
  assert (ServerShutdown ∈ events_ s) as Hsh by by apply (ok_leaving _ H). split; try apply H.
  - intros j k q Hq%Hold. by apply (ok_served _ H (S j) k).
  - intros j j' k q q' H1%Hold H2%Hold. pose proof (ok_one _ H _ _ _ _ _ H1 H2). lia.
  - intros j d Hd. apply (ok_count _ H (S j)). by rewrite Et.
  - intros k. destruct (ok_story _ H k) as [?|[?|[? _] ] ]; [by left|right; by left|right; right]. split; [done|by left].
Qed.

Lemma alter_size (f : Peer -> Peer) id (m : gmap nat Peer) : size (alter f id m) = size m.
Proof. rewrite <- !(size_dom (D := gset nat)). by rewrite dom_alter_L. Qed.

(** Sessions may change in place as long as the ready ones are the same. *)
Lemma pending_ok m s : (forall id, PeerReady <$> m !! id = PeerReady <$> pending_sessions_ s !! id) -> server_ok s -> server_ok (set_pending m s).
Proof.
  intros Hm H. split; cbn [pending_sessions_ set_pending]; try apply H.
  - intros id Hid. destruct (ok_new _ H id Hid) as [N1 N2]. split; [|done]. specialize (Hm id). rewrite N1 in Hm. by destruct (m !! id).
  - intros id q Hq. specialize (Hm id). rewrite Hq in Hm. destruct (pending_sessions_ s !! id) as [p|] eqn:Ep; [|done]. injection Hm as ->.
    apply (ok_pending _ H _ _ Ep).
  - intros id Hin. destruct (ok_promote _ H id Hin) as (p & Hp & Hr). specialize (Hm id). rewrite Hp in Hm. destruct (m !! id) as [q|]; [|done].
    exists q. cbn in Hm. injection Hm as ->. done.
Qed.

Lemma served_ok i id f s : outside f -> server_ok s ->
  server_ok (set_tasks (alter (fun data => mkTask (alter f id (sessions_ data)) (count_ data) (publishing_ data)) i (tasks_ s)) s).
Proof.
  intros Hf H. set (s1 := set_tasks _ s).
  assert (forall j k q, serves s1 j k q -> exists p, serves s j k p /\ PeerReady q = PeerReady p) as Hold.
  { intros j k q (d & Hd & Hq). unfold s1 in Hd. cbn [tasks_ set_tasks] in Hd. destruct (decide (i = j)) as [<-|Hj].
    - rewrite list_lookup_alter_eq in Hd. destruct (tasks_ s !! i) as [d0|] eqn:Hi; [|done]. cbn in Hd. simplify_eq. cbn in Hq.
      destruct (decide (id = k)) as [<-|Hk].
      + rewrite lookup_alter_eq in Hq. destruct (sessions_ d0 !! id) as [p|] eqn:Hp; [|done]. cbn in Hq. simplify_eq. exists p. split; [by exists d0|apply Hf].
      + rewrite lookup_alter_ne in Hq by done. exists q. split; [by exists d0|done].
    - rewrite list_lookup_alter_ne in Hd by done. exists q. split; [by exists d|done]. }
  assert (forall j k p, serves s j k p -> exists q, serves s1 j k q) as Hnew.
  { intros j k p (d & Hd & Hp). unfold serves, s1. cbn [tasks_ set_tasks]. destruct (decide (i = j)) as [<-|Hj].
    - rewrite list_lookup_alter_eq, Hd. cbn. destruct (decide (id = k)) as [<-|Hk].
      + exists (f p). eexists. split; [done|]. cbn. by rewrite lookup_alter_eq, Hp.
      + exists p. eexists. split; [done|]. cbn. by rewrite lookup_alter_ne.
    - rewrite list_lookup_alter_ne by done. by exists p, d. }
  split; try apply H.
  - intros j k q Hq. destruct (Hold _ _ _ Hq) as (p & Hp & ->). by apply (ok_served _ H j k).
  - intros j j' k q q' (p & Hp & _)%Hold (p' & Hp' & _)%Hold. by apply (ok_one _ H _ _ _ _ _ Hp Hp').
  - intros j d. unfold s1. cbn [tasks_ set_tasks]. destruct (decide (i = j)) as [<-|Hj]; [|rewrite list_lookup_alter_ne by done; apply (ok_count _ H)].
    rewrite list_lookup_alter_eq. destruct (tasks_ s !! i) as [d0|] eqn:Hi; [|done]. intros [= <-]. cbn.
    rewrite alter_size. by apply (ok_count _ H i).
  - intros k. change (events_ s1) with (events_ s). destruct (ok_story _ H k) as [?|[?|[? [?|(j & p & Hp)] ] ] ]; [by left|right; by left|right; right; split; [done|]..]; [by left|].
    right. exists j. by apply (Hnew j k p).
Qed.

Lemma main_step_ok s s' : server_step s s' -> server_ok s -> server_ok s'.
Proof.
  intros Hst H. destruct Hst.
  - by apply listen_ok.
  - destruct backend; [|done]. split; apply H.
  - by apply server_accept_ok.
  - by apply server_sweep_ok.
  - by apply promote_ok.
  - by apply worker_ok.
  - by apply publish_ok.
  - assert (forall id, story id (events_ s ++ [ServerShutdown]) = story id (events_ s)) as E by (intros id; by rewrite story_app, app_nil_r).
    assert (ServerShutdown ∈ events_ s ++ [ServerShutdown]) as Hsh by (apply elem_of_app; right; by left).
    destruct H. split; cbn; try done; try setoid_rewrite E; try done.
    intros id. destruct (ok_story0 id) as [?|[?|[? _] ] ]; [by left|right; by left|right; right; split; [done|by left] ].
  - by apply server_clear_ok.
  - apply server_sweep_ok; [done|]. apply (pending_ok _ (set_phase Disconnecting s)).
    + intros id. cbn. rewrite lookup_fmap. destruct (pending_sessions_ s !! id); [|done]. cbn. by rewrite PeerClose_ready.
    + split; try apply H. done.
  - split; try apply H. done.
  - unfold Wait. case_bool_decide; [|done]. split; try apply H. done.
  - apply pending_ok; [|done]. intros id'. destruct (decide (id = id')) as [<-|Hne]; [|by rewrite lookup_alter_ne].
    rewrite lookup_alter_eq. destruct (pending_sessions_ s !! id) as [p|]; [|done]. cbn. f_equal. apply H0.
  - by apply served_ok.
Qed.

Lemma server_new_ok config cores : server_ok (Server_new config cores).
Proof.
  assert (forall i data, tasks_ (Server_new config cores) !! i = Some data -> data = mkTask ∅ 0 false) as Ht.
  { intros i data Hd. cbn in Hd. by apply list_elem_of_lookup_2, list_elem_of_In, repeat_spec in Hd. }
  assert (forall i id p, ~ serves (Server_new config cores) i id p) as Hn by (intros i id p (d & Hd%Ht & Hp); subst d; done).
  split.
  - done.
  - done.
  - intros id Hin. by apply not_elem_of_nil in Hin.
  - apply NoDup_nil_2.
  - intros i id p Hs. by apply Hn in Hs.
  - intros i j id p q Hs. by apply Hn in Hs.
  - intros i d Hd%Ht. by subst d.
  - intros id. by left.
  - done.
Qed.

Lemma main_reachable_ok config cores s : server_reachable config cores s -> server_ok s.
Proof. induction 1 as [|s s' _ IH Hst]; [apply server_new_ok|by apply (main_step_ok s)]. Qed.

(** [C16] Connected and disconnected pair up, whatever the threads, the peers and the
    application do: of each session the application is told nothing, or that it
    connected, or that it connected and then disconnected, each once.  A session
    still handshaking has not been announced; one a worker drives has been announced
    and not yet reported gone, is ready, and no other worker and not the acceptor has
    it.  A session announced and not reported gone is a worker's, unless the server
    has shut down. *)
Theorem events_pair_up config cores s : server_reachable config cores s ->
  (forall id, story id (events_ s) = [] \/ story id (events_ s) = [ClientConnected id; ClientDisconnected id] \/
     story id (events_ s) = [ClientConnected id] /\ (ServerShutdown ∈ events_ s \/ exists i p, serves s i id p)) /\
  (forall id p, pending_sessions_ s !! id = Some p -> story id (events_ s) = [] /\ forall i q, ~ serves s i id q) /\
  (forall i id p, serves s i id p -> story id (events_ s) = [ClientConnected id] /\ PeerReady p = true /\
     forall j q, serves s j id q -> j = i).
Proof.
  intros H%main_reachable_ok. split_and!; [apply (ok_story _ H)| |].
  - intros id p Hp. destruct (ok_pending _ H _ _ Hp) as [E _]. split; [done|]. intros i q. by apply unserved.
  - intros i id p Hs. destruct (ok_served _ H _ _ _ Hs) as [E Hr]. split_and!; [done|done|]. intros j q Hq. by apply (ok_one _ H _ _ _ _ _ Hq Hs).
Qed.

(** ** The cap *)

Definition workload (ts : list TaskData) : Z := foldr (fun data n => count_ data + n) 0 ts.

(** The sessions the server has. *)
Definition load (s : Server) : Z := Z.of_nat (size (pending_sessions_ s)) + workload (tasks_ s).

Lemma ActiveSessionCount_load s : ActiveSessionCount s = load s.
Proof.
  unfold ActiveSessionCount, load. generalize (Z.of_nat (size (pending_sessions_ s))). induction (tasks_ s) as [|d ts IH]; intros n; cbn [foldl workload foldr]; [lia|].
  rewrite IH. fold (workload ts). lia.
Qed.

Lemma workload_cons d ts : workload (d :: ts) = count_ d + workload ts.
Proof. done. Qed.

Lemma workload_alter f i ts d : ts !! i = Some d -> workload (alter f i ts) = workload ts - count_ d + count_ (f d).
Proof.
  revert i. induction ts as [|x ts IH]; intros [|i] Hi; try done.
  - injection Hi as ->. change (alter f 0%nat (d :: ts)) with (f d :: ts). rewrite !workload_cons. lia.
  - change (alter f (S i) (x :: ts)) with (x :: alter f i ts). rewrite !workload_cons, (IH i) by done. lia.
Qed.

Lemma alter_none {A} (f : A -> A) i (l : list A) : l !! i = None -> alter f i l = l.
Proof. revert i. induction l as [|x l IH]; intros [|i] Hi; try done. cbn. f_equal. by apply IH. Qed.

Lemma promote_load s : server_ok s -> load (promote_one on_connected s) <= load s.
Proof.
  intros H. unfold promote_one. destruct (promote_ s) as [|id rest] eqn:Ep; [done|]. cbn [pending_sessions_ set_promote].
  destruct (ok_promote _ H id) as (p & Hp & Hr); [rewrite Ep; by left|]. rewrite Hp. unfold PromoteReady. cbn [tasks_ set_promote].
  assert (size (pending_sessions_ s) = S (size (delete id (pending_sessions_ s)))) as Esz.
  { rewrite <- (map_size_insert_None id p) by apply lookup_delete_eq. by rewrite insert_delete_id. }
  unfold load. destruct (SelectNextTask (tasks_ s)) as [i|] eqn:Es; cbn [pending_sessions_ tasks_ set_pending SubmitSession set_tasks fire set_events let_go set_gone set_promote]; [|lia].
  apply select_spec in Es as (data & Hi & _). rewrite (workload_alter _ _ _ _ Hi). cbn [With publish count_].
  assert (sessions_ data !! id = None) as Hno.
  { destruct (sessions_ data !! id) as [q|] eqn:Hq; [|done]. destruct (ok_pending _ H _ _ Hp) as [E _]. exfalso. apply (unserved s id i q H E). by exists data. }
  cbn [publish run_fn sessions_]. rewrite map_size_insert_None by done. pose proof (ok_count _ H i data Hi). lia.
Qed.

Lemma sweep_load now s : load (sweep walk now s) <= load s.
Proof.
  unfold sweep, load. destruct (CleanupAndProcessSessions walk (pending_sessions_ s)) as [ [ev gone] m'] eqn:Ec.
  apply cleanup_spec in Ec as (_ & _ & _ & Hsz). cbn [pending_sessions_ tasks_ set_promote set_pending let_go fire set_gone set_events].
  match goal with |- context [size ?x] => assert (size x = size m') as -> end; [|lia].
  rewrite <- !(size_dom (D := gset nat)). f_equal. apply set_eq. intros id. rewrite !elem_of_dom, map_lookup_imap.
  destruct (m' !! id); cbn; split; intros [? ?]; done.
Qed.

Lemma worker_load i s : load (worker_pass walk i s) = load s.
Proof.
  unfold worker_pass, load. destruct (tasks_ s !! i) as [data|] eqn:Hi; [|done].
  destruct (CleanupAndProcessSessions walk (sessions_ data)) as [ [ev gone] m'].
  cbn [pending_sessions_ tasks_ set_tasks let_go fire set_gone set_events].
  assert (forall d, <[i := d]> (tasks_ s) = alter (fun _ => d) i (tasks_ s)) as Ea.
  { intros d. clear -Hi. revert i Hi. induction (tasks_ s) as [|x ts IH]; intros [|i] Hi; try done. cbn. f_equal. by apply IH. }
  rewrite Ea, (workload_alter _ _ _ _ Hi). cbn [run_fn count_]. lia.
Qed.

(** Publishing a count only lowers it: a worker's pass drops sessions and adds none. *)
Lemma publish_load i s : server_ok s -> load (worker_publish i s) <= load s.
Proof.
  intros H. unfold worker_publish, load. cbn [pending_sessions_ tasks_ set_tasks]. destruct (tasks_ s !! i) as [data|] eqn:Hi; [|by rewrite alter_none].
  rewrite (workload_alter _ _ _ _ Hi). cbn [publish count_]. pose proof (ok_count _ H i data Hi). lia.
Qed.

Lemma workload_counts ts : (forall i d, ts !! i = Some d -> Z.of_nat (size (sessions_ d)) <= count_ d) -> 0 <= workload ts.
Proof.
  induction ts as [|d ts IH]; intros H; [done|]. rewrite workload_cons. pose proof (H 0%nat d eq_refl). pose proof (IH (fun i => H (S i))). lia.
Qed.

Lemma step_config s s' : server_step s s' -> config_ s' = config_ s.
Proof.
  intros Hst. destruct Hst; try done.
  - unfold Listen. repeat (case_match; try done).
  - by destruct backend.
  - unfold accept_one. by destruct (_ && _).
  - unfold promote_one, PromoteReady, SubmitSession. repeat (case_match; try done).
  - unfold worker_pass. repeat (case_match; try done).
  - unfold clear_one. by case_match.
  - unfold Wait. by case_bool_decide.
Qed.

Lemma step_load s s' : server_step s s' -> server_ok s -> 0 < max_connections (config_ s) -> load s <= max_connections (config_ s) ->
  load s' <= max_connections (config_ s).
Proof.
  intros Hst H Hc Hle. destruct Hst; try exact Hle.
  - unfold Listen. repeat (case_match; try done).
  - by destruct backend.
  - unfold accept_one. destruct (_ && _) eqn:Hb; [exact Hle|]. unfold load. cbn [pending_sessions_ tasks_ set_pending set_next_session].
    rewrite ActiveSessionCount_load in Hb. unfold load in Hb, Hle. cbn [pending_sessions_ tasks_ set_next_session config_] in Hb.
    rewrite map_size_insert_None by (by apply (ok_new _ H)). lia.
  - etransitivity; [apply sweep_load|done].
  - etransitivity; [by apply promote_load|done].
  - by rewrite worker_load.
  - etransitivity; [by apply publish_load|done].
  - unfold clear_one. destruct (tasks_ s) as [|d ts] eqn:Et; [done|]. unfold load in *. cbn [pending_sessions_ tasks_ set_tasks let_go set_gone].
    rewrite Et, workload_cons in Hle. pose proof (ok_count _ H 0 d ltac:(by rewrite Et)). lia.
  - etransitivity; [apply sweep_load|]. unfold load in *. cbn [pending_sessions_ tasks_ set_pending set_phase]. by rewrite map_size_fmap.
  - unfold Wait. by case_bool_decide.
  - unfold load in *. cbn [pending_sessions_ tasks_ set_pending]. by rewrite alter_size.
  - unfold load in *. cbn [pending_sessions_ tasks_ set_tasks]. destruct (tasks_ s !! i) as [d|] eqn:Hi; [|by rewrite alter_none].
    rewrite (workload_alter _ _ _ _ Hi). cbn [count_]. lia.
Qed.

Lemma workload_sizes ts : (forall i d, ts !! i = Some d -> Z.of_nat (size (sessions_ d)) <= count_ d) ->
  Z.of_nat (sum_list_with (fun d => size (sessions_ d)) ts) <= workload ts.
Proof. induction ts as [|d ts IH]; intros H; [done|]. rewrite workload_cons. pose proof (H 0%nat d eq_refl). pose proof (IH (fun i => H (S i))). cbn. lia. Qed.

(** [C17] The cap on connections holds: in every reachable state of a server with a
    cap, the sessions still handshaking and those of all the workers together are at
    most the cap, whatever the workers drop and the acceptor promotes meanwhile, and
    although the check adds up counts that lag the workers' maps.  A worker's pass only
    drops sessions, so a count not yet published is too high, never too low. *)
Theorem cap_holds config cores s : server_reachable config cores s -> 0 < max_connections config ->
  Z.of_nat (size (pending_sessions_ s) + sum_list_with (fun data => size (sessions_ data)) (tasks_ s)) <= max_connections config.
Proof.
  intros H Hc. enough (config_ s = config /\ server_ok s /\ load s <= max_connections config) as (_ & Hok & Hl).
  { unfold load in Hl. pose proof (workload_sizes _ (ok_count _ Hok)). lia. }
  induction H as [|s s' _ (Ec & Hok & Hl) Hst].
  - split_and!; [done|apply server_new_ok|]. unfold load. cbn. assert (forall n, workload (repeat (mkTask ∅ 0 false) n) = 0) as -> by (induction n as [|n IHn]; [done|]; cbn [repeat]; by rewrite workload_cons, IHn). rewrite map_size_empty. lia.
  - split_and!; [by rewrite (step_config _ _ Hst)|by apply (main_step_ok s)|]. rewrite <- Ec. apply (step_load s); [done..|by rewrite Ec|by rewrite Ec].
Qed.

(** ** Shutting down *)

(** What is accepted is somewhere, what is let go is closed, and the last phases find
    the tables empty. *)
(** Past the clearing of the workers. *)
Definition ending (p : Phase) : bool := match p with Disconnecting | Finished | Joined => true | _ => false end.

Record closing_ok (s : Server) : Prop := {
  cl_all id : (id < next_session_ s)%nat ->
    is_Some (pending_sessions_ s !! id) \/ (exists i p, serves s i id p) \/ id ∈ (gone_ s).*1;
  cl_dead : Forall (fun e => PeerAlive e.2 = false) (gone_ s);
  cl_empty : ending (phase_ s) = true -> pending_sessions_ s = ∅ /\ tasks_ s = []
}.

Lemma cleanup_gone m ev gone m' : CleanupAndProcessSessions walk m = (ev, gone, m') ->
  Forall (fun e => PeerAlive e.2 = false) gone /\ forall id p, m !! id = Some p -> PeerAlive p = false -> id ∈ gone.*1.
Proof.
  unfold CleanupAndProcessSessions. intros [= _ <- _]. split.
  - apply Forall_map, Forall_forall. intros [id p] Hin. apply filter_in in Hin as [_ Ha]. cbn in *. rewrite PeerRelease_alive. by destruct (PeerAlive p).
  - intros id p Hp Ha. change (map (fun e : nat * Peer => (e.1, PeerRelease e.2))) with (fmap (M := list) (fun e : nat * Peer => (e.1, PeerRelease e.2))).
    rewrite <- list_fmap_compose. apply list_elem_of_fmap. exists (id, p). split; [done|]. apply filter_in. split; [by apply walk_in|]. cbn. by rewrite Ha.
Qed.

Lemma gone_app id (l l' : list (nat * Peer)) : id ∈ (l ++ l').*1 <-> id ∈ l.*1 \/ id ∈ l'.*1.
Proof. by rewrite fmap_app, elem_of_app. Qed.

Definition somewhere (s : Server) (id : nat) : Prop :=
  is_Some (pending_sessions_ s !! id) \/ (exists i p, serves s i id p) \/ id ∈ (gone_ s).*1.

Lemma sweep_kept now s : Forall (fun e => PeerAlive e.2 = false) (gone_ s) ->
  let s' := sweep walk now s in
  (forall id, somewhere s id -> somewhere s' id) /\ Forall (fun e => PeerAlive e.2 = false) (gone_ s') /\
  ((forall id p, pending_sessions_ s !! id = Some p -> PeerAlive p = false) -> pending_sessions_ s' = ∅).
Proof.
  intros H2. cbn zeta. unfold sweep, somewhere. destruct (CleanupAndProcessSessions walk (pending_sessions_ s)) as [ [ev gone] m'] eqn:Ec.
  destruct (cleanup_gone _ _ _ _ Ec) as [G1 G2]. apply cleanup_spec in Ec as (Hl & _).
  cbn [next_session_ pending_sessions_ gone_ phase_ tasks_ set_promote set_pending let_go fire set_gone set_events]. split_and!.
  - intros id Hid. rewrite gone_app, map_lookup_imap, Hl. destruct Hid as [ [p Hp]|[?|?] ]; [|right; by left|right; right; by left].
    rewrite Hp. destruct (PeerAlive p) eqn:Ha; [left; by eexists|]. right; right; right. by apply (G2 id p).
  - by apply Forall_app.
  - intros Hd. apply map_eq. intros id. rewrite map_lookup_imap, Hl, lookup_empty. destruct (pending_sessions_ s !! id) as [p|] eqn:Hp; [|done]. by rewrite (Hd _ _ Hp).
Qed.

Lemma sweep_closing now s : closing_ok s -> closing_ok (sweep walk now s).
Proof.
  intros [H1 H2 H3]. destruct (sweep_kept now s H2) as (K1 & K2 & K3). cbn zeta in *. split; [intros id Hid; by apply K1, H1|done|].
  intros Hph. destruct (H3 Hph) as [E Et]. split; [|exact Et]. apply K3. intros id p. by rewrite E.
Qed.

Lemma promote_closing s : closing_ok s -> closing_ok (promote_one on_connected s).
Proof.
  intros [H1 H2 H3]. unfold promote_one. destruct (promote_ s) as [|id rest] eqn:Ep; [done|]. cbn [pending_sessions_ set_promote].
  destruct (pending_sessions_ s !! id) as [p|] eqn:Hp; [|done]. unfold PromoteReady. cbn [tasks_ set_promote].
  destruct (SelectNextTask (tasks_ s)) as [i|] eqn:Es.
  - apply select_spec in Es as (data & Hi & _). set (s0 := set_promote rest s).
    pose proof (submit_serves i id p s0 (ex_intro _ data Hi)) as Hsv. change (serves s0) with (serves s) in Hsv. set (s1 := SubmitSession on_connected i id p s0) in *.
    split; [|done|].
    + intros k Hk. cbn [pending_sessions_ set_pending]. change (pending_sessions_ s1) with (pending_sessions_ s). change (gone_ (set_pending _ s1)) with (gone_ s).
      change (serves (set_pending _ s1)) with (serves s1). destruct (decide (k = id)) as [->|Hne].
      * right. left. exists i, (on_connected p). apply Hsv. by left.
      * rewrite lookup_delete_ne by done. destruct (H1 k Hk) as [?|[(j & q & Hq)|?] ]; [by left| |right; by right]. right. left. exists j, q. apply Hsv. right. split; [by right|done].
    + intros Hph. destruct (H3 Hph) as [E _]. rewrite E in Hp. done.
  - split; cbn [next_session_ pending_sessions_ gone_ phase_ tasks_ set_pending set_promote let_go set_gone].
    + intros k Hk. rewrite gone_app. destruct (decide (k = id)) as [->|Hne]; [right; right; right; by left|]. rewrite lookup_delete_ne by done.
      destruct (H1 k Hk) as [?|[?|?] ]; [by left|right; by left|right; right; by left].
    + apply Forall_app. split; [done|]. apply Forall_singleton. apply PeerClose_dead.
    + intros Hph. destruct (H3 Hph) as [E _]. rewrite E in Hp. done.
Qed.

Lemma worker_closing i s : closing_ok s -> closing_ok (worker_pass walk i s).
Proof.
  intros [H1 H2 H3]. pose proof (worker_serves i s) as Hsv. unfold worker_pass in *. destruct (tasks_ s !! i) as [data|] eqn:Hi; [|done].
  destruct (CleanupAndProcessSessions walk (sessions_ data)) as [ [ev gone] m'] eqn:Ec. destruct (cleanup_gone _ _ _ _ Ec) as [G1 G2].
  set (s1 := set_tasks _ _) in *. split.
  - intros id Hid. change (pending_sessions_ s1) with (pending_sessions_ s). change (gone_ s1) with (gone_ s ++ gone). rewrite gone_app.
    destruct (H1 id Hid) as [?|[(j & p & Hp)|?] ]; [by left| |right; right; by left]. destruct (decide (j = i)) as [->|Hj]; [|right; left; exists j, p; apply Hsv; by left].
    destruct (PeerAlive p) eqn:Ha; [right; left; exists i, (PeerProcess p); apply Hsv; right; split; [done|]; by exists p|].
    right; right; right. destruct Hp as (d & Hd & Hk). rewrite Hi in Hd. injection Hd as <-. by apply (G2 id p).
  - by apply Forall_app.
  - intros Hph. destruct (H3 Hph) as [_ E]. rewrite E in Hi. done.
Qed.

Lemma clear_closing s : phase_ s = Clearing -> closing_ok s -> closing_ok (clear_one walk s).
Proof.
  intros Hc Hok. unfold clear_one. destruct (tasks_ s) as [|data rest] eqn:Et; [done|]. destruct Hok as [H1 H2 H3].
  split; cbn [next_session_ pending_sessions_ gone_ phase_ tasks_ set_tasks let_go set_gone].
  - intros id Hid. rewrite gone_app. destruct (H1 id Hid) as [?|[(j & p & d & Hd & Hp)|?] ]; [by left| |right; right; by left]. right. rewrite Et in Hd. destruct j as [|j].
    + right. right. injection Hd as ->. change (map (fun e : nat * Peer => (e.1, PeerRelease (PeerClose false e.2)))) with (fmap (M := list) (fun e : nat * Peer => (e.1, PeerRelease (PeerClose false e.2)))).
      rewrite <- list_fmap_compose. apply list_elem_of_fmap. exists (id, p). split; [done|by apply walk_in].
    + left. exists j, p, d. done.
  - apply Forall_app. split; [done|]. apply Forall_map, Forall_forall. intros e _. cbn. by rewrite PeerRelease_alive, PeerClose_dead.
  - rewrite Hc. done.
Qed.

Lemma step_closing s s' : server_step s s' -> closing_ok s -> closing_ok s'.
Proof.
  intros Hst H. destruct Hst.
  - unfold Listen. repeat (case_match; try done). destruct H. by split.
  - destruct backend; [|done]. by destruct H.
  - destruct H. unfold accept_one. destruct (_ && _); split; cbn [next_session_ pending_sessions_ gone_ phase_ tasks_ set_pending set_next_session let_go set_gone]; try done.
    + intros id Hid. rewrite gone_app. destruct (decide (id = next_session_ s)) as [->|Hne]; [right; right; right; by left|].
      destruct (cl_all0 id ltac:(lia)) as [?|[?|?] ]; [by left|right; by left|right; right; by left].
    + apply Forall_app. split; [done|]. apply Forall_singleton. apply PeerClose_dead.
    + intros id Hid. destruct (decide (id = next_session_ s)) as [->|Hne]; [left; rewrite lookup_insert_eq; by eexists|]. rewrite lookup_insert_ne by done. apply cl_all0. lia.
    + by rewrite H0.
  - by apply sweep_closing.
  - by apply promote_closing.
  - by apply worker_closing.
  - destruct H. split; [|done|]; [|intros Hph; destruct (cl_empty0 Hph) as [? E]; split; [done|cbn; by rewrite E] ].
    intros id Hid. setoid_rewrite publish_serves. by apply cl_all0.
  - destruct H. by split.
  - by apply clear_closing.
  - destruct H as [H1' H2' _]. unfold DisconnectPending. match goal with |- closing_ok (sweep walk now ?x) => set (s1 := x) end. destruct (sweep_kept now s1 H2') as (K1 & K2 & K3). cbn zeta in *.
    assert (forall id p, pending_sessions_ s1 !! id = Some p -> PeerAlive p = false) as Hd.
    { intros id p. cbn. rewrite lookup_fmap. destruct (pending_sessions_ s !! id); [|done]. intros [= <-]. apply PeerClose_dead. }
    split; [|done|intros _; split; [by apply K3|done] ]. intros id Hid. apply K1. unfold somewhere. cbn. rewrite lookup_fmap.
    destruct (H1' id Hid) as [ [p ->]|?]; [left; by eexists|by right].
  - destruct H. split; [done|done|]. intros _. apply cl_empty0. by rewrite H0.
  - unfold Wait. case_bool_decide; [|done]. destruct H. split; [done|done|]. intros _. apply cl_empty0. by rewrite H0.
  - destruct H. split; [|done|intros Hph; destruct (cl_empty0 Hph) as [E ?]; split; [cbn; by rewrite E|done] ]. intros id' Hid. cbn.
    destruct (cl_all0 id' Hid) as [ [p Hp]|?]; [|by right]. left. destruct (decide (id = id')) as [<-|Hne]; [rewrite lookup_alter_eq, Hp; by eexists|by rewrite lookup_alter_ne].
  - destruct H. split; [|done|intros Hph; destruct (cl_empty0 Hph) as [? E]; split; [done|cbn; by rewrite E] ]. intros k Hk.
    destruct (cl_all0 k Hk) as [?|[(j & p & d & Hd & Hp)|?] ]; [by left| |right; by right]. right. left. exists j. unfold serves. cbn [tasks_ set_tasks].
    destruct (decide (i = j)) as [<-|Hj]; [|exists p, d; by rewrite list_lookup_alter_ne]. rewrite list_lookup_alter_eq, Hd. cbn.
    destruct (decide (id = k)) as [<-|Hne]; [exists (f p)|exists p]; eexists; (split; [done|]); cbn; [by rewrite lookup_alter_eq, Hp|by rewrite lookup_alter_ne].
Qed.

Lemma closing_reachable config cores s : server_reachable config cores s -> closing_ok s.
Proof.
  intros H. induction H as [|s s' _ IH Hst]; [|by apply (step_closing s)]. split; [intros id Hid; cbn in Hid; lia|done|done].
Qed.

Lemma shutdown_empties config cores s : server_reachable config cores s -> ending (phase_ s) = true -> pending_sessions_ s = ∅ /\ tasks_ s = [].
Proof. intros H. apply (cl_empty _ (closing_reachable _ _ _ H)). Qed.

(** Without workers nobody is announced. *)
Lemma unserved_step s s' (es : list Event) : server_step s s' -> tasks_ s = [] /\ (forall id, ClientConnected id ∈ events_ s -> ClientConnected id ∈ es) ->
  tasks_ s' = [] /\ (forall id, ClientConnected id ∈ events_ s' -> ClientConnected id ∈ es).
Proof.
  assert (forall ev : list Event, (forall id, ClientConnected id ∉ ev) -> (forall id, ClientConnected id ∈ events_ s -> ClientConnected id ∈ es) ->
    forall id, ClientConnected id ∈ events_ s ++ ev -> ClientConnected id ∈ es) as Hev.
  { intros ev Hn He id [?|Hin]%elem_of_app; [by apply He|]. by apply Hn in Hin. }
  assert (forall m id, ClientConnected id ∉ (CleanupAndProcessSessions walk m).1.1) as Hcl.
  { intros m id Hin. cbn in Hin. apply list_elem_of_In, in_map_iff in Hin as (e & E & _). done. }
  intros Hst [Ht He]. destruct Hst; try done.
  - unfold Listen. repeat (case_match; try done). cbn. split; [done|]. apply Hev; [|done]. intros id Hin. by apply list_elem_of_singleton in Hin.
  - by destruct backend.
  - unfold accept_one. by destruct (_ && _).
  - split; [done|]. apply (Hev (CleanupAndProcessSessions walk (pending_sessions_ s)).1.1); [apply Hcl|done].
  - unfold promote_one, PromoteReady. destruct (promote_ s); [done|]. cbn [pending_sessions_ set_promote tasks_]. case_match; [|done]. rewrite Ht. done.
  - unfold worker_pass. by rewrite Ht.
  - cbn. by rewrite Ht.
  - split; [done|]. apply (Hev [ServerShutdown]); [|done]. intros id Hin. by apply list_elem_of_singleton in Hin.
  - unfold clear_one. by rewrite Ht.
  - split; [done|]. apply (Hev (CleanupAndProcessSessions walk (PeerClose false <$> pending_sessions_ s)).1.1); [apply Hcl|done].
  - unfold Wait. by case_bool_decide.
  - cbn. by rewrite Ht.
Qed.

(** [C18] A shutdown leaves nothing open: once the acceptor's thread has finished, no
    session is pending and no worker is left; every session the server ever accepted
    has been let go of, and is closed. *)
Theorem shutdown_closes_everything config cores s : server_reachable config cores s -> phase_ s = Finished ->
  pending_sessions_ s = ∅ /\ tasks_ s = [] /\ (forall id, (id < next_session_ s)%nat -> id ∈ (gone_ s).*1) /\
  Forall (fun e => PeerAlive e.2 = false) (gone_ s).
Proof.
  intros H Hph. destruct (closing_reachable _ _ _ H) as [H1 H2 H3]. destruct (H3 ltac:(by rewrite Hph)) as [E Et]. split_and!; [done|done| |done]. intros id Hid.
  destruct (H1 id Hid) as [ [p Hp]|[(i & p & d & Hd & _)|?] ]; [by rewrite E in Hp|by rewrite Et in Hd|done].
Qed.

(** A server that has shut down never serves again: [Listen] may succeed on it,
    but the workers are gone for good, so whatever happens from then on no client is
    ever announced; a session that becomes ready is closed instead. *)
Theorem restarted_server_serves_nobody config cores s s' : server_reachable config cores s -> phase_ s = Joined ->
  (Listen (Some Success) s).1 = Success /\
  (rtc server_step (Listen (Some Success) s).2 s' ->
   tasks_ s' = [] /\ forall id, ClientConnected id ∈ events_ s' -> ClientConnected id ∈ events_ s).
Proof.
  intros H Hph. destruct (shutdown_empties config cores s H ltac:(by rewrite Hph)) as [_ Et]. unfold Listen. rewrite Hph. split; [done|]. cbn [bool_decide negb andb snd].
  match goal with |- rtc _ ?x _ -> _ => set (s0 := x) end.
  assert (tasks_ s0 = [] /\ forall id, ClientConnected id ∈ events_ s0 -> ClientConnected id ∈ events_ s) as H0.
  { split; [done|]. intros id Hin. apply elem_of_app in Hin as [?|Hin]; [done|]. by apply list_elem_of_singleton in Hin. }
  clearbody s0. intros Hr. induction Hr as [|s0 s1 s2 Hst _ IH]; [done|]. apply IH. by apply (unserved_step s0).
Qed.

End Threads.
