(* ===== verification/ServerSessions.v ===== *)
(** * The sessions of a server

    What the server needs of its sessions, discharged by a [PeerSession] over any
    transport whose [Close] closes: ZDT's does.  A session that is ready stays ready
    however long it is driven. *)

From S2P Require Import Prelude Buffer BufferSpec BufferCodecs BufferViews Codec ReplayWindow Encryption Compression ZdtOptions ZdtState Session SessionTheorems AgentSessions ServerMain.

Import Codec Encryption Session.

(** A transport whose [Close] closes. *)
Class Closing (T : TransportLayer) : Prop := {
  Close_closes b l : IsClosed (Close_ b l) = true
}.

#[export] Instance zdt_closing `{P : Platform} tclk : Closing (zdt_link tclk).
Proof. split. intros b l. apply transport_closes. Qed.

Section Served.
Context `{P : Platform} `{C : Encryption.Crypto} `{Zs : Compression.Zstd} `{T : TransportLayer} `{!Closing T}.
Context {A : Type} (app_id : A -> Z) (evp : nat -> Encryption.EvpCall -> bool).

(** ** Once ready, always ready *)

Definition readies (s s' : @PeerSession C T A) : Prop := is_ready_ s = true -> is_ready_ s' = true.

#[local] Instance readies_preorder : PreOrder readies.
Proof. split; [by intros s H|]. intros s1 s2 s3 H1 H2 H. by apply H2, H1. Qed.

Lemma same_readies s s' : is_ready_ s' = is_ready_ s -> readies s s'.
Proof. unfold readies. by intros ->. Qed.

#[local] Hint Extern 0 (readies _ _) => by apply same_readies : core.

Lemma quiet_readies s s' : quiet s s' -> readies s s'.
Proof. intros H. apply same_readies, H. Qed.

Lemma SendHandshake_readies s : readies s (SendHandshake app_id evp s).
Proof. unfold SendHandshake. etrans; [apply quiet_readies, SendImmediate_quiet|by apply same_readies]. Qed.

Lemma SendReady_readies s : readies s (SendReady app_id evp s).
Proof. unfold SendReady. set (s1 := upd_layer _ s). trans s1; [done|]. etrans; [apply quiet_readies, SendImmediate_quiet|by apply same_readies]. Qed.

Lemma send_next_readies s : readies s (send_next app_id evp s).
Proof. unfold send_next. destruct (negb _); [apply SendHandshake_readies|]. destruct (negb _); [apply SendReady_readies|done]. Qed.

Lemma take_peer_key_readies h s : readies s (take_peer_key app_id evp h s).
Proof.
  unfold take_peer_key. destruct (ComputeSharedSecret _ _) as [ [|b secret]|]; [done| |done].
  destruct (DeriveDirectionalKeys _ _ _ _ _) as [ [] ks]; cbn [negb]; [|done]. etrans; [|apply send_next_readies]. done.
Qed.

Lemma OnHandshakePacket_readies h s : readies s (OnHandshakePacket app_id evp h s).
Proof.
  unfold OnHandshakePacket. destruct (_ || _); [done|]. destruct (is_initiator_ s).
  - destruct (negb (hs_encryption h)).
    + destruct (negb (sent_ready_ _)); [|done]. etrans; [|apply SendReady_readies]. done.
    + destruct (hs_pub_key h); [|done]. etrans; [|apply take_peer_key_readies]. done.
  - destruct (negb _); [etrans; [|apply send_next_readies]; done|]. destruct (hs_pub_key h); [apply take_peer_key_readies|done].
Qed.

Lemma Ready_readies (s : @PeerSession C T A) : readies s (Ready s).
Proof. unfold Ready, readies. destruct (negb _); [done|]. by destruct (negb _). Qed.

Lemma OnAcknowledgePacket_readies m s : readies s (OnAcknowledgePacket app_id evp m s).
Proof.
  unfold OnAcknowledgePacket. destruct (negb _); [done|]. destruct (negb _); [done|]. etrans; [|apply Ready_readies].
  destruct (negb _); [|done]. etrans; [apply SendReady_readies|done].
Qed.

Lemma Handle_readies h s p : readies s (Handle app_id evp h s p).
Proof. destruct h, p; [apply OnHandshakePacket_readies|apply OnAcknowledgePacket_readies|done..]. Qed.

Lemma dispatch_readies fuel c h d s : readies s (dispatch_frames app_id evp fuel c h d s).2.
Proof.
  revert d s. induction fuel as [|fuel IH]; intros d s; [done|]. cbn [dispatch_frames]. destruct (0 <? _); [|done]. destruct (_ && _); [done|].
  destruct (frame_step _ _) as [more d']. assert (forall ps s, readies s (foldl (Handle app_id evp h) s ps)) as Hf.
  { clear. intros ps. induction ps as [|p ps IH]; intros s; [done|]. etrans; [apply Handle_readies|apply IH]. }
  destruct more; [etrans; [apply Hf|apply IH]|apply Hf].
Qed.

Lemma receive_once_readies s : readies s (receive_once app_id evp s).2.
Proof.
  unfold receive_once. destruct (handler_ s) as [h|]; [|done]. destruct (codec_ s); [|done]. destruct (Receive (link_ s)) as [ [b|] k]; [|done].
  trans (set_link k s); [done|]. pose proof (quiet_readies _ _ (Decode_quiet evp b (set_link k s))) as H1.
  destruct (Decode evp b (set_link k s)) as [ [payload|] s1]; cbn [snd] in *; [|done]. trans s1; [done|].
  assert (readies s1 (Dispatch app_id evp payload h s1).2) as H2 by (unfold Dispatch; destruct (codec_ s1); [apply dispatch_readies|done]).
  destruct (Dispatch _ _ _ _ _) as [stats s2]. cbn [snd] in H2. trans s2; [done|]. destruct (0 <? _); [|done]. by destruct (_ && _).
Qed.

Lemma receive_loop_readies n w s : readies s (receive_loop app_id evp n w s).2.
Proof.
  revert w s. induction n as [|n IH]; intros w s; [done|]. cbn [receive_loop]. pose proof (receive_once_readies s) as H.
  destruct (receive_once app_id evp s) as [ [more w'] s1]. cbn [snd] in H. destruct more; [etrans; [exact H|apply IH]|exact H].
Qed.

Lemma DrainOutbound_readies s : readies s (DrainOutbound app_id evp s).2.
Proof.
  unfold DrainOutbound. trans (set_outbound [] s); [done|]. generalize (set_outbound [] s), (outbound_ s), false. clear.
  intros s items. revert s. induction items as [|i items IH]; intros s w; [done|]. cbn [foldl]. unfold drain_item at 2.
  destruct (negb (IsAlive s)); [apply IH|]. etrans; [apply quiet_readies, EncodeAndSend_quiet|apply IH].
Qed.

Lemma Process_readies s : readies s (Process app_id evp s).2.
Proof.
  unfold Process. destruct (negb (IsAlive s)); [done|]. pose proof (receive_loop_readies kMaxReceivesPerProcess false (set_link (Update_ (link_ s)) s)) as H1.
  destruct (receive_loop _ _ _ _ _) as [w s1]. cbn [snd] in H1. trans s1; [exact H1|]. pose proof (DrainOutbound_readies s1) as H2.
  destruct (_ || _).
  - destruct (DrainOutbound _ _ _) as [w2 s2]. cbn [snd] in *. trans s2; [done|]. by destruct (IsAlive s2).
  - cbn. by destruct (IsAlive s1).
Qed.

(** ** The interface *)

(** A session and when it connected. *)
Definition served_sessions : ServedSessions := {|
  Peer := Z * @PeerSession C T A;
  PeerAlive p := IsAlive p.2;
  PeerReady p := is_ready_ p.2;
  connect_time p := p.1;
  PeerProcess p := (p.1, (Process app_id evp p.2).2);
  PeerClose no_linger p := (p.1, Close no_linger p.2);
  PeerRelease p := (p.1, set_handler None p.2)
|}.

#[export] Instance served_laws : ServedLaws served_sessions.
Proof.
  split; cbn; [|done| |done|done].
  - intros b p. unfold IsAlive. cbn. by rewrite Close_closes.
  - intros p. apply Process_readies.
Qed.

(** What a handler of the connected event does: it installs the application's codec
    and handler. *)
Definition install (codec : Codec.Codec (Packet := @Packet C A)) (p : Z * @PeerSession C T A) : Z * @PeerSession C T A :=
  (p.1, set_codec (Some codec) (set_handler (Some AppHandler) p.2)).

End Served.
