(* ===== verification/TcpBackends.v ===== *)
(** * The TCP backends (backend/tcp.cc, backends/tcp.h)

    The two backends around the transport of Tcp.v: binding, listening, accepting
    under admission control, connecting and closing, and the thread that watches the
    accepted sockets.  What the operating system answers is data; [open_] is its
    table of the descriptors opened here and not yet closed, [held_] the transports
    that exist, each under the descriptor it owns and closes when it is destroyed.
    Socket options (reuse, no delay, linger) change no state of the program. *)

From S2P Require Import Prelude Buffer BufferSpec BufferCodecs ZdtWire Tcp InetAddr Admission ZdtOptions ZdtSend ZdtServer.

(** ** Descriptors *)

Definition kSocketInvalid : Z := -1.

Definition IsValidSocketHandle (handle : Z) : bool := 0 <=? handle.

(** [close], on a valid handle. *)
Definition CloseSocket (handle : Z) (open : gset Z) : gset Z :=
  if IsValidSocketHandle handle then open ∖ {[handle]} else open.

(** What a call that opens a descriptor leaves. *)
Definition opened (handle : Z) (open : gset Z) : gset Z :=
  if IsValidSocketHandle handle then {[handle]} ∪ open else open.

Module TcpServer.

(** One connection out of accept(): its descriptor, whether it could be made
    non-blocking, its source where the family is known, and the time. *)
Record Arrival := mkArrival {
  client_socket : Z;
  nonblocking : bool;
  client_address : option InetAddress;
  arrived : Z
}.

Record TCPServerBackend := mkBackend {
  common_ : CommonOptions;
  admission_ : AdmissionControl;
  bind_address_ : option InetAddress;
  is_bind_ : bool;
  is_listening_ : bool;
  server_socket_ : Z;
  polling_ : bool;
  polled_ : list Z;
  open_ : gset Z;
  held_ : gmap Z Tcp.Tcp
}.

Definition set_admission v s := mkBackend (common_ s) v (bind_address_ s) (is_bind_ s) (is_listening_ s) (server_socket_ s) (polling_ s) (polled_ s) (open_ s) (held_ s).
Definition set_bind_address v s := mkBackend (common_ s) (admission_ s) v (is_bind_ s) (is_listening_ s) (server_socket_ s) (polling_ s) (polled_ s) (open_ s) (held_ s).
Definition set_is_bind v s := mkBackend (common_ s) (admission_ s) (bind_address_ s) v (is_listening_ s) (server_socket_ s) (polling_ s) (polled_ s) (open_ s) (held_ s).
Definition set_is_listening v s := mkBackend (common_ s) (admission_ s) (bind_address_ s) (is_bind_ s) v (server_socket_ s) (polling_ s) (polled_ s) (open_ s) (held_ s).
Definition set_server_socket v s := mkBackend (common_ s) (admission_ s) (bind_address_ s) (is_bind_ s) (is_listening_ s) v (polling_ s) (polled_ s) (open_ s) (held_ s).
Definition set_polling v s := mkBackend (common_ s) (admission_ s) (bind_address_ s) (is_bind_ s) (is_listening_ s) (server_socket_ s) v (polled_ s) (open_ s) (held_ s).
Definition set_polled v s := mkBackend (common_ s) (admission_ s) (bind_address_ s) (is_bind_ s) (is_listening_ s) (server_socket_ s) (polling_ s) v (open_ s) (held_ s).
Definition set_open v s := mkBackend (common_ s) (admission_ s) (bind_address_ s) (is_bind_ s) (is_listening_ s) (server_socket_ s) (polling_ s) (polled_ s) v (held_ s).
Definition set_held v s := mkBackend (common_ s) (admission_ s) (bind_address_ s) (is_bind_ s) (is_listening_ s) (server_socket_ s) (polling_ s) (polled_ s) (open_ s) v.

Section Backend.
Context `{P : Platform} (clk : Z -> nat -> Z).

Definition TCPServerBackend_new (bind_address : option InetAddress) (common : CommonOptions) (options : ServerOptions) : TCPServerBackend :=
  mkBackend common (AdmissionControl_new options) bind_address false false kSocketInvalid false [] ∅ ∅.

Definition close_socket (handle : Z) (s : TCPServerBackend) : TCPServerBackend := set_open (CloseSocket handle (open_ s)) s.

(** [socket]: what socket() returns; [blocking]: whether the socket could be made
    non-blocking; [bound]: whether bind() succeeded; [name]: what getsockname()
    says. *)
Definition Bind (socket : Z) (blocking bound : bool) (name : option InetAddress) (s : TCPServerBackend) : Result * TCPServerBackend :=
  if is_bind_ s then (AlreadyBound, s)
  else match bind_address_ s with
       | None => (InvalidAddress, s)
       | Some address =>
           if negb (is_valid address) then (InvalidAddress, s)
           else
             let is_unix := bool_decide (ipv address = Unix) in
             let s := set_open (opened socket (open_ s)) (set_server_socket socket s) in
             if negb (IsValidSocketHandle socket) then (CannotCreateSocket, s)
             else if negb blocking then (Failure, close_socket socket s)
             else if negb bound then (CannotBind, s)
             else
               let s := if is_unix then s else match name with Some a => set_bind_address (Some a) s | None => s end in
               (Success, set_is_bind true s)
       end.

(** [listened]: whether listen() succeeded.  [Run] starts the watching thread, after
    stopping one that runs. *)
Definition Listen (listened : bool) (s : TCPServerBackend) : Result * TCPServerBackend :=
  if is_listening_ s then (AlreadyListening, s)
  else if negb (is_bind_ s) then (NotBound, s)
  else if negb listened then (CannotListen, s)
  else (Success, set_polling true (set_is_listening true s)).

Definition StopReceiving (s : TCPServerBackend) : TCPServerBackend := set_polling false s.

Definition Close (s : TCPServerBackend) : Result * TCPServerBackend :=
  let s := StopReceiving s in
  if negb (is_listening_ s) then (AlreadyStopped, s)
  else (Success, set_is_bind false (set_is_listening false (close_socket (server_socket_ s) s))).

Definition IsAlive (s : TCPServerBackend) : bool := is_listening_ s.

(** The transport of an accepted socket, watched from here on. *)
Definition take_in (handle : Z) (answers : list Tcp.SendAnswer) (s : TCPServerBackend) : TCPServerBackend :=
  let t := Tcp.TCPTransportLayer_new (clk handle) (keepalive_interval (common_ s)) (idle_timeout (common_ s)) answers in
  set_held (<[handle := t]> (held_ s)) (set_polled (polled_ s ++ [handle]) s).

(** The loop: the descriptor and source of the session it yields, the connections it
    has not looked at, the state.  accept() returns no socket when the queue is
    empty; [answers]: what the socket will say to the transport. *)
Fixpoint accept_loop (queue : list Arrival) (answers : list Tcp.SendAnswer) (s : TCPServerBackend)
    : option (Z * InetAddress) * list Arrival * TCPServerBackend :=
  if negb (is_listening_ s) then (None, queue, s)
  else match queue with
       | [] => (None, [], s)
       | a :: queue =>
           let handle := client_socket a in
           if negb (IsValidSocketHandle handle) then (None, queue, s)
           else
             let s := set_open (opened handle (open_ s)) s in
             if negb (nonblocking a) then (None, queue, close_socket handle s)
             else match client_address a with
                  | None => accept_loop queue answers (close_socket handle s)
                  | Some remote_address =>
                      let '(verdict, admission) := Admit (arrived a) remote_address (admission_ s) in
                      let s := set_admission admission s in
                      if negb (bool_decide (verdict = Allow)) then accept_loop queue answers (close_socket handle s)
                      else (Some (handle, remote_address), queue, take_in handle answers s)
                  end
       end.

Definition Accept := accept_loop.

(** [handle]: what accept() returns. *)
Definition AcceptAndReject (handle : Z) (s : TCPServerBackend) : TCPServerBackend :=
  if negb (is_listening_ s) then s else close_socket handle (set_open (opened handle (open_ s)) s).

(** A session is dropped: its transport goes, and the descriptor with it. *)
Definition destroy_transport (handle : Z) (s : TCPServerBackend) : TCPServerBackend :=
  match held_ s !! handle with
  | None => s
  | Some _ => close_socket handle (set_held (delete handle (held_ s)) s)
  end.

(** *** The watching thread *)

(** What poll() reports of one descriptor. *)
Record Revents := mkRevents { pollnval : bool; pollin : bool }.

(** What the thread makes of the answers: whether to wake the workers, and the
    descriptors that are gone. *)
Definition poll_results (fds : list Z) (revents : Z -> Revents) : bool * list Z :=
  foldl (fun acc fd =>
    let '(wake, dead) := acc in
    if pollnval (revents fd) then (wake, dead ++ [fd])
    else if pollin (revents fd) then (true, dead) else (wake, dead)) (false, []) fds.

(** The second time it takes the lock. *)
Definition poll_prune (dead : list Z) (s : TCPServerBackend) : TCPServerBackend :=
  if bool_decide (dead = []) then s else set_polled (List.filter (fun handle => negb (bool_decide (handle ∈ dead))) (polled_ s)) s.

End Backend.

End TcpServer.

Module TcpClient.

Record TCPClientBackend := mkBackend {
  common_ : CommonOptions;
  server_address_ : option InetAddress;
  local_address_ : option InetAddress;
  client_session_ : option Z;
  is_bind_ : bool;
  client_socket_ : Z;
  wait_socket_ : Z;
  open_ : gset Z;
  held_ : gmap Z Tcp.Tcp
}.

Definition set_local_address v s := mkBackend (common_ s) (server_address_ s) v (client_session_ s) (is_bind_ s) (client_socket_ s) (wait_socket_ s) (open_ s) (held_ s).
Definition set_client_session v s := mkBackend (common_ s) (server_address_ s) (local_address_ s) v (is_bind_ s) (client_socket_ s) (wait_socket_ s) (open_ s) (held_ s).
Definition set_is_bind v s := mkBackend (common_ s) (server_address_ s) (local_address_ s) (client_session_ s) v (client_socket_ s) (wait_socket_ s) (open_ s) (held_ s).
Definition set_client_socket v s := mkBackend (common_ s) (server_address_ s) (local_address_ s) (client_session_ s) (is_bind_ s) v (wait_socket_ s) (open_ s) (held_ s).
Definition set_wait_socket v s := mkBackend (common_ s) (server_address_ s) (local_address_ s) (client_session_ s) (is_bind_ s) (client_socket_ s) v (open_ s) (held_ s).
Definition set_open v s := mkBackend (common_ s) (server_address_ s) (local_address_ s) (client_session_ s) (is_bind_ s) (client_socket_ s) (wait_socket_ s) v (held_ s).
Definition set_held v s := mkBackend (common_ s) (server_address_ s) (local_address_ s) (client_session_ s) (is_bind_ s) (client_socket_ s) (wait_socket_ s) (open_ s) v.

Section Backend.
Context `{P : Platform} (clk : Z -> nat -> Z).

Definition TCPClientBackend_new (server_address : option InetAddress) (common : CommonOptions) : TCPClientBackend :=
  mkBackend common server_address None None false kSocketInvalid kSocketInvalid ∅ ∅.

Definition close_session (handle : Z) (s : TCPClientBackend) : TCPClientBackend := set_held (alter Tcp.Close handle (held_ s)) s.

(** Whether the session is there and alive. *)
Definition IsAlive (s : TCPClientBackend) : bool :=
  match client_session_ s ≫= fun handle => held_ s !! handle with Some t => negb (Tcp.IsClosed t) | None => false end.

Definition CleanupSocket (s : TCPClientBackend) : TCPClientBackend :=
  let s := set_open (CloseSocket (client_socket_ s) (open_ s)) s in
  let s := set_is_bind false (set_client_socket kSocketInvalid s) in
  match client_session_ s with
  | None => s
  | Some handle => set_client_session None (close_session handle s)
  end.

(** [None]: a null pointer is dereferenced.  [socket]: what socket() returns. *)
Definition Bind (socket : Z) (s : TCPClientBackend) : option (Result * TCPClientBackend) :=
  match server_address_ s with
  | None => None
  | Some _ =>
      let s := set_open (opened socket (open_ s)) (set_client_socket socket s) in
      Some (if negb (IsValidSocketHandle socket) then (CannotBind, s) else (Success, set_is_bind true s))
  end.

(** [address]: what the text and port name; [bound]: whether bind() succeeded. *)
Definition BindTo (socket : Z) (address : option InetAddress) (bound : bool) (s : TCPClientBackend) : option (Result * TCPClientBackend) :=
  match Bind socket s with
  | None => None
  | Some (result, s) =>
      if negb (bool_decide (result = Success)) then Some (result, s)
      else
        let s := set_local_address address s in
        match address with
        | None => None
        | Some _ => Some (if negb bound then (CannotBind, CleanupSocket s) else (Success, s))
        end
  end.

(** [connected]: what connect() says on a valid descriptor; an invalid one it
    refuses.  [name]: what getsockname() says. *)
Definition Connect (connected blocking : bool) (name : option InetAddress) (answers : list Tcp.SendAnswer) (s : TCPClientBackend)
    : Result * TCPClientBackend :=
  if IsAlive s then (AlreadyConnected, s)
  else match server_address_ s with
       | None => (InvalidRemoteAddress, s)
       | Some server_address =>
           if negb (is_valid server_address) then (InvalidRemoteAddress, s)
           else if negb (is_bind_ s) then (CannotBind, s)
           else if negb (IsValidSocketHandle (client_socket_ s) && connected) then (Failure, CleanupSocket s)
           else if negb blocking then (Failure, CleanupSocket s)
           else
             let s := match name with Some a => set_local_address (Some a) s | None => s end in
             let handle := client_socket_ s in
             let t := Tcp.TCPTransportLayer_new (clk handle) (keepalive_interval (common_ s)) (idle_timeout (common_ s)) answers in
             let s := set_client_session (Some handle) (set_held (<[handle := t]> (held_ s)) (set_wait_socket handle s)) in
             (Success, set_client_socket kSocketInvalid s)
       end.

(** What closing the session says; its transport is there as long as it is. *)
Definition Close (s : TCPClientBackend) : Result * TCPClientBackend :=
  match client_session_ s with
  | None => (AlreadyClosed, s)
  | Some handle =>
      match held_ s !! handle with
      | Some t => if Tcp.IsClosed t then (AlreadyDisconnected, s) else (Success, close_session handle s)
      | None => (AlreadyDisconnected, s)
      end
  end.

Definition ReleaseSession (s : TCPClientBackend) : TCPClientBackend :=
  if bool_decide (is_Some (client_session_ s)) && negb (IsAlive s) then set_client_session None s else s.

(** The last reference to a session is dropped. *)
Definition destroy_transport (handle : Z) (s : TCPClientBackend) : TCPClientBackend :=
  match held_ s !! handle with
  | None => s
  | Some _ => set_open (CloseSocket handle (open_ s)) (set_held (delete handle (held_ s)) s)
  end.

End Backend.

End TcpClient.
