(* ===== verification/TcpBackendTheorems.v ===== *)
(** * The TCP backends own their descriptors

    In every reachable state the open descriptors are the listening or connecting
    socket and those of the transports; what [Accept] yields is the first connection
    admission control allows.  Also what the backends lose. *)

From S2P Require Import Prelude Buffer BufferSpec BufferCodecs ZdtWire Tcp InetAddr Admission ZdtOptions ZdtSend ZdtServer TcpBackends.

(** The descriptor a backend's own socket is. *)
Definition own (handle : Z) : gset Z := if IsValidSocketHandle handle then {[handle]} else ∅.

(** The system hands out descriptors that are not open. *)
Definition fresh (handle : Z) (open : gset Z) : Prop := IsValidSocketHandle handle = true -> handle ∉ open.

Lemma opened_own handle open : opened handle open = own handle ∪ open.
Proof. unfold opened, own. destruct (IsValidSocketHandle handle); set_solver. Qed.

Lemma CloseSocket_own handle open : CloseSocket handle open = open ∖ own handle.
Proof. unfold CloseSocket, own. destruct (IsValidSocketHandle handle); set_solver. Qed.

Lemma own_valid handle : IsValidSocketHandle handle = true -> own handle = {[handle]}.
Proof. unfold own. by intros ->. Qed.

Lemma own_fresh handle open : fresh handle open <-> own handle ## open.
Proof. unfold fresh, own. destruct (IsValidSocketHandle handle); set_solver. Qed.

(** What was just opened is closed. *)
Lemma open_close handle open : fresh handle open -> CloseSocket handle (opened handle open) = open.
Proof. rewrite own_fresh, opened_own, CloseSocket_own. set_solver. Qed.

Module TcpServerTheorems.
Import TcpServer.

Section Server.
Context `{P : Platform} (clk : Z -> nat -> Z).

(** ** Accepting *)

(** A connection that accept() hands over whole. *)
Definition usable (open : gset Z) (a : Arrival) : Prop :=
  IsValidSocketHandle (client_socket a) = true /\ nonblocking a = true /\ client_socket a ∉ open.

(** The first connection that admission control allows, of those whose family is
    known: it, its source, what is behind it, and the table. *)
Fixpoint first_admitted (queue : list Arrival) (adm : AdmissionControl) : option (Arrival * InetAddress * list Arrival) * AdmissionControl :=
  match queue with
  | [] => (None, adm)
  | a :: queue =>
      match client_address a with
      | None => first_admitted queue adm
      | Some source =>
          let '(verdict, adm) := Admit (arrived a) source adm in
          if bool_decide (verdict = Allow) then (Some (a, source, queue), adm) else first_admitted queue adm
      end
  end.

Lemma same_backend s : set_admission (admission_ s) s = s.
Proof. by destruct s. Qed.

Lemma set_open_same s : set_open (open_ s) s = s.
Proof. by destruct s. Qed.

(** A refused connection leaves nothing. *)
Lemma refused_closed a s : usable (open_ s) a -> close_socket (client_socket a) (set_open (opened (client_socket a) (open_ s)) s) = s.
Proof. intros (_ & _ & Hf). unfold close_socket. cbn [open_ set_open]. rewrite open_close by (by intros _). by destruct s. Qed.

(** [C22] [Accept] yields the first pending connection that admission control allows,
    whatever is queued before it: those it refuses are closed and leave nothing, so a
    source that is refused cannot hold up another.  The connection it yields is
    watched.  The system's accept() and the switch to non-blocking are taken to succeed
    for what is queued ([usable]). *)
Theorem accept_yields_first_admitted queue answers s : is_listening_ s = true -> Forall (usable (open_ s)) queue ->
  Accept clk queue answers s =
    match first_admitted queue (admission_ s) with
    | (Some (a, source, rest), adm) =>
        (Some (client_socket a, source), rest, take_in clk (client_socket a) answers (set_open ({[client_socket a]} ∪ open_ s) (set_admission adm s)))
    | (None, adm) => (None, [], set_admission adm s)
    end.
Proof.
  unfold Accept. revert s. induction queue as [|a queue IH]; intros s Hl Hu; cbn [accept_loop first_admitted]; rewrite Hl; cbn [negb].
  - by rewrite same_backend.
  - apply Forall_cons in Hu as [Ha Hu]. pose proof Ha as (Hv & Hn & Hf). rewrite Hv, Hn. cbn [negb].
    destruct (client_address a) as [source|]; [|by rewrite refused_closed, IH].
    cbn [admission_ set_open]. destruct (Admit (arrived a) source (admission_ s)) as [verdict adm].
    destruct (bool_decide (verdict = Allow)); cbn [negb].
    + unfold opened. rewrite Hv. done.
    + replace (close_socket (client_socket a) (set_admission adm (set_open (opened (client_socket a) (open_ s)) s))) with (set_admission adm s).
      * rewrite IH by done. cbn [admission_ set_admission]. by destruct (first_admitted queue adm) as [ [ [ [b src] rest]|] adm'].
      * transitivity (set_admission adm (close_socket (client_socket a) (set_open (opened (client_socket a) (open_ s)) s))); [by rewrite refused_closed|done].
Qed.

(** ** Descriptors *)

Record backend_ok (s : TCPServerBackend) : Prop := {
  bo_open : open_ s = dom (held_ s) ∪ (if is_bind_ s then own (server_socket_ s) else ∅);
  bo_own : is_bind_ s = true -> own (server_socket_ s) ## dom (held_ s);
  bo_valid handle : handle ∈ dom (held_ s) -> IsValidSocketHandle handle = true;
  bo_listen : is_listening_ s = true -> is_bind_ s = true
}.

(** The threads of a server and the sessions it yields, as long as bind() itself
    does not fail. *)
Inductive backend_step (s : TCPServerBackend) : TCPServerBackend -> Prop :=
  | bs_bind socket blocking name : fresh socket (open_ s) -> backend_step s (Bind socket blocking true name s).2
  | bs_listen listened : backend_step s (Listen listened s).2
  | bs_stop_receiving : backend_step s (StopReceiving s)
  | bs_close : backend_step s (Close s).2
  | bs_accept queue answers : Forall (fun a => fresh (client_socket a) (open_ s)) queue -> backend_step s (Accept clk queue answers s).2
  | bs_reject handle : fresh handle (open_ s) -> backend_step s (AcceptAndReject handle s)
  | bs_destroy handle : backend_step s (destroy_transport handle s)
  | bs_prune dead : backend_step s (poll_prune dead s)
  | bs_transport handle f : backend_step s (set_held (alter f handle (held_ s)) s).

Lemma tcp_accept_ok queue answers s : Forall (fun a => fresh (client_socket a) (open_ s)) queue -> backend_ok s ->
  backend_ok (Accept clk queue answers s).2.
Proof.
  unfold Accept. revert s. induction queue as [|a queue IH]; intros s Hu H; cbn [accept_loop]; (destruct (is_listening_ s) eqn:Hl; [|done]); cbn [negb]; [done|].
  apply Forall_cons in Hu as [Hf Hu]. destruct (IsValidSocketHandle (client_socket a)) eqn:Hv; [|done]. cbn [negb].
  assert (forall adm, set_open (open_ s) (set_admission adm s) = set_admission adm s) as E1 by by destruct s.
  assert (forall adm, backend_ok (set_admission adm s)) as Hadm by (intros adm; destruct H; by split).
  assert (forall adm, close_socket (client_socket a) (set_admission adm (set_open (opened (client_socket a) (open_ s)) s)) = set_admission adm s) as E2.
  { intros adm. unfold close_socket. cbn [open_ set_open set_admission]. rewrite open_close by done. apply E1. }
  assert (close_socket (client_socket a) (set_open (opened (client_socket a) (open_ s)) s) = s) as E3.
  { specialize (E2 (admission_ s)). unfold close_socket in *. destruct s. exact E2. }
  destruct (nonblocking a); cbn [negb]; [|cbn [snd]; by rewrite E3]. destruct (client_address a) as [source|]; [|rewrite E3; by apply IH].
  cbn [admission_ set_open]. destruct (Admit _ _ _) as [verdict adm]. destruct (bool_decide _); cbn [negb]; [|rewrite E2; by apply IH].
  rewrite own_fresh in Hf. destruct H as [H1 H2 Hvs H3]. rewrite H1 in Hf. unfold take_in. cbn [snd].
  split; cbn [open_ held_ is_bind_ server_socket_ is_listening_ set_held set_polled set_admission set_open]; [| | |done].
  - rewrite opened_own, H1, dom_insert_L, (own_valid _ Hv). set_solver.
  - intros Hb. rewrite dom_insert_L. rewrite (own_valid _ Hv) in Hf. specialize (H2 Hb). rewrite Hb in Hf. set_solver.
  - intros handle. rewrite dom_insert_L, elem_of_union, elem_of_singleton. intros [->|?]; [done|by apply Hvs].
Qed.

Lemma tcp_step_ok s s' : backend_step s s' -> backend_ok s -> backend_ok s'.
Proof.
  intros Hst H. destruct Hst as [socket blocking name Hf| | | |queue answers Hq|handle Hf|handle|dead|handle f].
  - unfold Bind. destruct (is_bind_ s) eqn:Hb; [done|]. destruct (bind_address_ s) as [address|]; [|done]. destruct (negb (is_valid address)); [done|].
    destruct H as [H1 H2 Hvs H3]. rewrite Hb, union_empty_r_L in H1.
    assert (is_listening_ s = false) as Hl by (destruct (is_listening_ s); [by rewrite H3 in Hb|done]).
    assert (backend_ok (set_open (open_ s) (set_server_socket socket s))) as Hs.
    { split; cbn; rewrite ?Hb; [by rewrite union_empty_r_L|done|done|by rewrite Hl]. }
    destruct (IsValidSocketHandle socket) eqn:Hv; cbn [negb snd]; [|unfold opened; by rewrite Hv]. destruct blocking; cbn [negb snd].
    + apply own_fresh in Hf. rewrite H1 in Hf. set (s1 := if bool_decide _ then _ else _).
      assert (open_ s1 = own socket ∪ dom (held_ s) /\ held_ s1 = held_ s /\ server_socket_ s1 = socket) as (E1 & E2 & E3).
      { unfold s1. destruct (bool_decide _); [|destruct name]; cbn; by rewrite opened_own, H1. }
      split; cbn; rewrite ?E1, ?E2, ?E3; [set_solver..|done|done].
    + unfold close_socket. cbn [open_ set_open set_server_socket]. rewrite open_close by done. exact Hs.
  - unfold Listen. destruct (is_listening_ s); [done|]. destruct (is_bind_ s) eqn:Hb; [|done]. destruct listened; [|done]. destruct H. by split.
  - by destruct H.
  - unfold Close. cbn [is_listening_ StopReceiving set_polling]. destruct (is_listening_ s) eqn:Hl; [|by destruct H]. destruct H as [H1 H2 Hvs H3]. specialize (H2 (H3 Hl)).
    rewrite (H3 Hl) in H1. cbn [negb snd]. split; cbn; [|done|done|done]. rewrite CloseSocket_own, H1. set_solver.
  - by apply tcp_accept_ok.
  - unfold AcceptAndReject. destruct (negb _); [done|]. unfold close_socket. cbn [open_ set_open]. rewrite open_close by done. by destruct H.
  - unfold destroy_transport. destruct (held_ s !! handle) as [t|] eqn:Ht; [|done]. destruct H as [H1 H2 Hvs H3].
    apply elem_of_dom_2 in Ht. specialize (Hvs _ Ht) as Hv. unfold close_socket. split; cbn; rewrite ?dom_delete_L; [| | |done].
    + rewrite CloseSocket_own, H1, (own_valid handle) by done. destruct (is_bind_ s); [|set_solver]. specialize (H2 eq_refl). set_solver.
    + intros Hb. specialize (H2 Hb). set_solver.
    + intros h Hh. apply Hvs. set_solver.
  - unfold poll_prune. destruct (bool_decide _); [done|]. by destruct H.
  - destruct H as [H1 H2 Hvs H3]. split; cbn; rewrite ?dom_alter_L; done.
Qed.

Inductive backend_reachable (address : option InetAddress) (common : CommonOptions) (options : ServerOptions) : TCPServerBackend -> Prop :=
  | br_new : backend_reachable address common options (TCPServerBackend_new address common options)
  | br_step s s' : backend_reachable address common options s -> backend_step s s' -> backend_reachable address common options s'.

Lemma backend_reachable_ok address common options s : backend_reachable address common options s -> backend_ok s.
Proof.
  induction 1 as [|s s' _ IH Hst]; [|by apply (tcp_step_ok s)]. split; cbn; [|done|set_solver|done]. by rewrite dom_empty_L, union_empty_r_L.
Qed.

(** [C21] The server's backend owns its descriptors: in every reachable state, as
    long as bind() itself has not failed, the descriptors open are exactly the
    listening socket, while it is bound, and those of the transports that exist; a
    [Close] that succeeds leaves only the latter. *)
Theorem descriptors_accounted address common options s : backend_reachable address common options s ->
  open_ s = dom (held_ s) ∪ (if is_bind_ s then own (server_socket_ s) else ∅) /\
  ((Close s).1 = Success -> open_ (Close s).2 = dom (held_ s)).
Proof.
  intros H. pose proof (backend_reachable_ok _ _ _ _ H) as Hok. split; [apply Hok|]. unfold Close. cbn [is_listening_ StopReceiving set_polling].
  destruct (is_listening_ s) eqn:Hl; [|done]. intros _. cbn. destruct Hok as [H1 H2 _ H3]. specialize (H2 (H3 Hl)). rewrite (H3 Hl) in H1.
  rewrite CloseSocket_own, H1. set_solver.
Qed.

(** ** What the backend loses *)

(** A bind() that fails leaks the socket made for it: it stays open, [Close] does
    not close it, and the next [Bind] replaces it. *)
Theorem failed_bind_leaks address socket name s : is_bind_ s = false -> is_listening_ s = false -> bind_address_ s = Some address -> is_valid address = true ->
  IsValidSocketHandle socket = true ->
  let s' := (Bind socket true false name s).2 in
  (Bind socket true false name s).1 = CannotBind /\ socket ∈ open_ (Close s').2 /\
  forall socket' name', socket' <> socket -> socket ∈ open_ (Bind socket' true true name' s').2 /\
    (IsValidSocketHandle socket' = true -> server_socket_ (Bind socket' true true name' s').2 = socket').
Proof.
  intros Hb Hl Ha Hv Hs. unfold Bind. rewrite Hb, Ha, Hv, Hs. cbn. unfold Close, opened. rewrite Hs. cbn. rewrite Hl. cbn. split_and!; [done|set_solver|].
  intros socket' name' Hne. rewrite Hb, Ha, Hv. cbn. destruct (IsValidSocketHandle socket') eqn:Hs'; cbn.
  - destruct (bool_decide _); [|destruct name']; cbn; (split; [set_solver|done]).
  - split; [set_solver|done].
Qed.

(** A descriptor that is reused between poll() and the removal of what it found
    closed is no longer watched: the session just accepted on it is there, and nothing
    wakes a worker for what it receives. *)
Theorem reused_descriptor_loses_watch handle s queue answers source rest s' :
  poll_results [handle] (fun _ => mkRevents true false) = (false, [handle]) /\
  (Accept clk queue answers s = (Some (handle, source), rest, s') ->
   handle ∈ dom (held_ (poll_prune [handle] s')) /\ handle ∈ polled_ s' /\ handle ∉ polled_ (poll_prune [handle] s')).
Proof.
  split; [done|]. intros E. assert (handle ∈ dom (held_ s') /\ handle ∈ polled_ s') as [H1 H2].
  { unfold Accept in E. revert s E. induction queue as [|a queue IH]; intros s E; cbn [accept_loop] in E; destruct (negb (is_listening_ s)); [done..|].
    destruct (negb _); [done|]. destruct (negb _); [done|]. destruct (client_address a) as [src|]; [|by apply IH in E].
    destruct (Admit _ _ _) as [verdict adm]. destruct (negb _); [by apply IH in E|]. injection E as <- _ _ <-. unfold take_in. cbn.
    split; [set_solver|]. apply elem_of_app. right. by left. }
  split_and!; [done|done|]. unfold poll_prune. cbn. intros Hin. apply list_elem_of_In, filter_In in Hin as [_ Hin].
  rewrite bool_decide_eq_true_2 in Hin by by left. done.
Qed.

End Server.
End TcpServerTheorems.

Module TcpClientTheorems.
Import TcpClient.

Section Client.
Context `{P : Platform} (clk : Z -> nat -> Z).

Record client_ok (s : TCPClientBackend) : Prop := {
  co_open : open_ s = dom (held_ s) ∪ own (client_socket_ s);
  co_own : own (client_socket_ s) ## dom (held_ s);
  co_valid handle : handle ∈ dom (held_ s) -> IsValidSocketHandle handle = true;
  co_session handle : client_session_ s = Some handle -> handle ∈ dom (held_ s)
}.

(** What the application and the session's threads do; [Bind] only while the backend
    has no socket of its own, and a transport goes with the last reference to its
    session. *)
Inductive client_step (s : TCPClientBackend) : TCPClientBackend -> Prop :=
  | cs_bind socket r s' : client_socket_ s = kSocketInvalid -> fresh socket (open_ s) -> Bind socket s = Some (r, s') -> client_step s s'
  | cs_bind_to socket address bound r s' : client_socket_ s = kSocketInvalid -> fresh socket (open_ s) ->
      BindTo socket address bound s = Some (r, s') -> client_step s s'
  | cs_connect connected blocking name answers : client_step s (Connect clk connected blocking name answers s).2
  | cs_close : client_step s (Close s).2
  | cs_release : client_step s (ReleaseSession s)
  | cs_destroy handle : client_session_ s <> Some handle -> client_step s (destroy_transport handle s)
  | cs_transport handle f : client_step s (set_held (alter f handle (held_ s)) s).

Lemma own_invalid : own kSocketInvalid = ∅.
Proof. done. Qed.

Lemma cleanup_ok s : client_ok s -> client_ok (CleanupSocket s) /\ open_ (CleanupSocket s) = dom (held_ (CleanupSocket s)).
Proof.
  intros [H1 H2 H3 H4]. unfold CleanupSocket. cbn [client_session_ set_is_bind set_client_socket set_open open_ client_socket_].
  assert (CloseSocket (client_socket_ s) (open_ s) = dom (held_ s)) as E by (rewrite CloseSocket_own, H1; set_solver).
  destruct (client_session_ s) as [handle|] eqn:Hs; (split; [split|]); cbn; rewrite ?dom_alter_L, ?own_invalid, ?E, ?union_empty_r_L; try done; try set_solver.
Qed.

Lemma bind_ok socket r s s' : client_socket_ s = kSocketInvalid -> fresh socket (open_ s) -> Bind socket s = Some (r, s') -> client_ok s -> client_ok s'.
Proof.
  intros Hc Hf E [H1 H2 H3 H4]. unfold Bind in E. destruct (server_address_ s); [|done]. rewrite Hc, own_invalid, union_empty_r_L in H1. apply own_fresh in Hf. rewrite H1 in Hf.
  assert (client_ok (set_open (opened socket (open_ s)) (set_client_socket socket s))) as Hok.
  { split; cbn; [rewrite opened_own, H1; set_solver|done|done|done]. }
  destruct (negb _); injection E as <- <-; [done|]. destruct Hok. by split.
Qed.

Lemma connect_ok connected blocking name answers s : client_ok s -> client_ok (Connect clk connected blocking name answers s).2.
Proof.
  intros H. unfold Connect. destruct (IsAlive s); [done|]. destruct (server_address_ s) as [address|]; [|done]. destruct (negb (is_valid address)); [done|].
  destruct (negb (is_bind_ s)); [done|]. destruct (IsValidSocketHandle (client_socket_ s)) eqn:Hv; [|by apply cleanup_ok]. destruct connected; [|by apply cleanup_ok].
  destruct blocking; [|by apply cleanup_ok]. cbn [negb andb snd]. set (s1 := match name with Some a => _ | None => s end).
  assert (client_ok s1 /\ client_socket_ s1 = client_socket_ s) as [ [H1 H2 H3 H4] Hc] by (unfold s1; destruct H; destruct name; by split).
  rewrite Hc in *. rewrite (own_valid _ Hv) in *. split; cbn; rewrite ?Hc, ?dom_insert_L, ?own_invalid.
  - rewrite H1. set_solver.
  - set_solver.
  - intros handle. rewrite elem_of_union, elem_of_singleton. intros [->|?]; [done|by apply H3].
  - intros handle [= <-]. set_solver.
Qed.

Lemma client_step_ok s s' : client_step s s' -> client_ok s -> client_ok s'.
Proof.
  intros Hst H. destruct Hst as [socket r s' Hc Hf E|socket address bound r s' Hc Hf E|connected blocking name answers| | |handle Hne|handle f].
  - by apply (bind_ok socket r s).
  - unfold BindTo in E. destruct (Bind socket s) as [ [r1 s1]|] eqn:Eb; [|done]. pose proof (bind_ok _ _ _ _ Hc Hf Eb H) as H1.
    destruct (negb (bool_decide _)); [by injection E as <- <-|]. destruct address as [a|]; [|done].
    assert (client_ok (set_local_address (Some a) s1)) as H2 by (destruct H1; by split). destruct (negb bound); injection E as <- <-; [by apply cleanup_ok|done].
  - by apply connect_ok.
  - unfold Close. destruct (client_session_ s) as [handle|]; [|done]. destruct (held_ s !! handle) as [t|]; [|done]. destruct (Tcp.IsClosed t); [done|].
    destruct H. split; cbn; rewrite ?dom_alter_L; done.
  - unfold ReleaseSession. destruct (_ && _); [|done]. destruct H. by split.
  - unfold destroy_transport. destruct (held_ s !! handle) as [t|] eqn:Ht; [|done]. destruct H as [H1 H2 H3 H4]. apply elem_of_dom_2 in Ht. specialize (H3 _ Ht) as Hv.
    split; cbn; rewrite ?dom_delete_L.
    + rewrite CloseSocket_own, H1, (own_valid handle) by done. set_solver.
    + set_solver.
    + intros h Hh. apply H3. set_solver.
    + intros h Hh. specialize (H4 _ Hh). assert (h <> handle) by congruence. set_solver.
  - destruct H. split; cbn; rewrite ?dom_alter_L; done.
Qed.

Inductive client_reachable (address : option InetAddress) (common : CommonOptions) : TCPClientBackend -> Prop :=
  | cr_new : client_reachable address common (TCPClientBackend_new address common)
  | cr_step s s' : client_reachable address common s -> client_step s s' -> client_reachable address common s'.

Lemma client_reachable_ok address common s : client_reachable address common s -> client_ok s.
Proof.
  induction 1 as [|s s' _ IH Hst]; [|by apply (client_step_ok s)]. split; cbn; [set_solver..|done].
Qed.

(** The client's backend owns its descriptors: in every reachable state those
    open are exactly its own socket, before it is handed over, and those of the
    transports that exist; a connection that succeeds hands the socket to the session
    alone, and one that fails leaves only transports. *)
Theorem client_descriptors_accounted address common s connected blocking name answers : client_reachable address common s ->
  let r := Connect clk connected blocking name answers s in
  open_ s = dom (held_ s) ∪ own (client_socket_ s) /\
  (r.1 = Success -> client_session_ r.2 = Some (client_socket_ s) /\ open_ r.2 = dom (held_ r.2)) /\
  (r.1 = Failure -> open_ r.2 = dom (held_ r.2) /\ is_bind_ r.2 = false).
Proof.
  intros H%client_reachable_ok. cbn zeta. pose proof (connect_ok connected blocking name answers s H) as H'. split; [apply H|]. revert H'. unfold Connect.
  destruct (IsAlive s); [done|]. destruct (server_address_ s) as [a|]; [|done]. destruct (negb (is_valid a)); [done|]. destruct (negb (is_bind_ s)); [done|].
  assert (forall s, client_ok s -> open_ (CleanupSocket s) = dom (held_ (CleanupSocket s)) /\ is_bind_ (CleanupSocket s) = false) as Hcl.
  { clear -P clk. intros s H. split; [by apply cleanup_ok|]. unfold CleanupSocket. by destruct (client_session_ _). }
  destruct (negb (_ && _)); [split; [done|]; intros _; by apply Hcl|]. destruct (negb _); [split; [done|]; intros _; by apply Hcl|].
  intros [H1 _ _ _]. split; [|done]. intros _. cbn [snd fst] in *. split; [by destruct name|]. rewrite H1. apply union_empty_r_L.
Qed.

(** ** What the backend loses *)

(** A socket that was bound and never connected is never closed: [Close], which is
    what the destructor calls, closes the session only, and another [Bind] replaces
    it. *)
Theorem unconnected_socket_leaks address common socket : IsValidSocketHandle socket = true ->
  exists s, Bind socket (TCPClientBackend_new (Some address) common) = Some (Success, s) /\ Close s = (AlreadyClosed, s) /\ socket ∈ open_ s /\
    forall socket', exists r s', Bind socket' s = Some (r, s') /\ client_socket_ s' = socket' /\ socket ∈ open_ s'.
Proof.
  intros Hv. unfold Bind. cbn. rewrite Hv. cbn. eexists. split; [done|]. split; [done|]. unfold opened. rewrite Hv. cbn. split; [set_solver|].
  intros socket'. destruct (IsValidSocketHandle socket'); cbn; (do 2 eexists; split; [done|]; split; [done|]; set_solver).
Qed.

(** A client whose server has no address dereferences a null pointer in [Bind],
    before [Connect] could refuse the address. *)
Theorem unresolved_server_crashes_bind common socket : Bind socket (TCPClientBackend_new None common) = None.
Proof. done. Qed.

(** A client whose session has ended is still bound, to no socket: connecting again
    fails whatever the network says, and only then may it be bound again. *)
Theorem reconnecting_fails_first connected blocking name answers s address : IsAlive s = false -> server_address_ s = Some address -> is_valid address = true ->
  is_bind_ s = true -> client_socket_ s = kSocketInvalid ->
  (Connect clk connected blocking name answers s).1 = Failure.
Proof. intros H1 H2 H3 H4 H5. unfold Connect. rewrite H1, H2, H3, H4, H5. done. Qed.

End Client.
End TcpClientTheorems.

(** * The TCP backends at work

    A listener that refuses one source and takes the next, and a client that connects
    and is closed. *)

Module TcpBackendExamples.

#[local] Instance little : Platform := host LittleEndian.

Definition clk (_ : Z) (n : nat) : Z := Z.of_nat n.

Module TcpServerExamples.
Import TcpServer TcpServerTheorems.

(** The network 10.0.0.0/8 is not welcome. *)
Definition denied : CIDRBlock := mkCIDR [] (splice 0 [10; 0; 0; 0] (repeat 0 16)) 8 false true.
Definition options : ServerOptions := mkServerOptions [] [denied] 0 0.
Definition here : InetAddress := InetAddressIPv4 [0; 0; 0; 0] 4000.
Definition unwelcome : InetAddress := InetAddressIPv4 [10; 0; 0; 9] 50000.
Definition welcome : InetAddress := InetAddressIPv4 [192; 0; 2; 7] 50001.

(** The refused connection's descriptor is the next one's. *)
Definition queue : list Arrival := [mkArrival 5 true (Some unwelcome) 1; mkArrival 6 true None 2; mkArrival 5 true (Some welcome) 3].

Definition fresh_backend : TCPServerBackend := TCPServerBackend_new (Some here) CommonOptions_default options.
Definition bound : TCPServerBackend := (Bind 3 true true (Some here) fresh_backend).2.
Definition listening : TCPServerBackend := (Listen true bound).2.
Definition accepted : TCPServerBackend := (Accept clk queue [] listening).2.

Lemma accepted_reach : backend_reachable clk (Some here) CommonOptions_default options accepted.
Proof.
  apply (br_step _ _ _ _ listening); [|apply bs_accept; apply (bool_decide_unpack _); vm_compute; exact I].
  apply (br_step _ _ _ _ bound); [|apply bs_listen]. apply (br_step _ _ _ _ fresh_backend); [apply br_new|]. apply bs_bind. intros _. apply (bool_decide_unpack _). vm_compute. exact I.
Qed.

Lemma descriptors_accounted_witness :
  elements (open_ accepted) = elements ({[3; 5]} : gset Z) /\
  open_ accepted = dom (held_ accepted) ∪ (if is_bind_ accepted then own (server_socket_ accepted) else ∅) /\
  ((Close accepted).1 = Success -> open_ (Close accepted).2 = dom (held_ accepted)).
Proof. split; [vm_compute; reflexivity|]. apply (descriptors_accounted clk (Some here) CommonOptions_default options accepted accepted_reach). Defined.

Lemma accept_yields_first_admitted_witness :
  (Accept clk queue [] listening).1 = (Some (5, welcome), []) /\
  Accept clk queue [] listening =
    match first_admitted queue (admission_ listening) with
    | (Some (a, source, rest), adm) =>
        (Some (client_socket a, source), rest, take_in clk (client_socket a) [] (set_open ({[client_socket a]} ∪ open_ listening) (set_admission adm listening)))
    | (None, adm) => (None, [], set_admission adm listening)
    end.
Proof.
  split; [vm_compute; reflexivity|]. apply (accept_yields_first_admitted clk queue [] listening); [reflexivity|].
  repeat constructor; apply (bool_decide_unpack _); vm_compute; exact I.
Defined.

Lemma failed_bind_leaks_witness : 3 ∈ open_ (Close (Bind 3 true false None fresh_backend).2).2.
Proof. apply (failed_bind_leaks clk here 3 None fresh_backend eq_refl eq_refl eq_refl eq_refl eq_refl). Defined.

(** The first session's transport is gone and its number comes back. *)
Definition dropped : TCPServerBackend := destroy_transport 5 accepted.
Definition again : list Arrival := [mkArrival 5 true (Some welcome) 9].

Lemma reused_descriptor_loses_watch_witness :
  let s' := (Accept clk again [] dropped).2 in
  5 ∈ dom (held_ (poll_prune [5] s')) /\ 5 ∈ polled_ s' /\ 5 ∉ polled_ (poll_prune [5] s').
Proof. apply (reused_descriptor_loses_watch clk 5 dropped again [] welcome [] _). reflexivity. Defined.

End TcpServerExamples.

Module TcpClientExamples.
Import TcpClient TcpClientTheorems.

Definition there : InetAddress := InetAddressIPv4 [192; 0; 2; 1] 4000.
Definition fresh_client : TCPClientBackend := TCPClientBackend_new (Some there) CommonOptions_default.
Definition ready : TCPClientBackend := set_is_bind true (set_open (opened 3 ∅) (set_client_socket 3 fresh_client)).

Lemma ready_reach : client_reachable clk (Some there) CommonOptions_default ready.
Proof. apply (cr_step _ _ _ fresh_client); [apply cr_new|]. apply (cs_bind _ fresh_client 3 Success); [done| |done]. intros _. cbn. set_solver. Qed.

Lemma client_descriptors_accounted_witness :
  let r := Connect clk true true None [] ready in
  r.1 = Success /\ client_session_ r.2 = Some 3 /\ open_ r.2 = dom (held_ r.2) /\ IsAlive r.2 = true.
Proof.
  destruct (client_descriptors_accounted clk (Some there) CommonOptions_default ready true true None [] ready_reach) as (_ & H & _).
  destruct (H eq_refl) as [H1 H2]. split; [reflexivity|]. split; [exact H1|]. split; [exact H2|reflexivity].
Defined.

End TcpClientExamples.

End TcpBackendExamples.
