(* ===== verification/ClientMain.v ===== *)
(** * The client (client.cc)

    The thread [Connect] starts drives one session: through its handshake, with a
    deadline, then for the rest of its life, and tells the application how it went.
    The application closes the session, stops the thread and releases the session
    from its own.  The tests between the thread's loops are steps of their own, since the
    session may be closed between any two.  The session is an instance of
    [ServedSessions]; an event is tagged with the number of the attempt whose session
    it carries.  The waits at the end of a turn only sleep. *)

From S2P Require Import Prelude Buffer InetAddr Admission ZdtState ZdtServer ServerMain ServerMainTheorems.

Module Client.

Inductive Event := ClientConnectionFailed | ClientConnectedToServer | ClientDisconnectedFromServer.

#[export] Instance ClientEvent_eq_dec : EqDecision Event.
Proof. solve_decision. Defined.

(** Where the thread is: not started, in the loop of the handshake, at the test after
    it, at the test inside that, in the second loop, returned, or joined. *)
Inductive Phase := Idle | Setup | Deciding | Failing | Running | Finished | Joined.

#[export] Instance ClientPhase_eq_dec : EqDecision Phase.
Proof. solve_decision. Defined.

Section Client.
Context `{Ss : ServedSessions}.

Record Client := mkClient {
  connection_timeout : Z;
  phase_ : Phase;
  stop_requested_ : bool;
  client_session_ : option Peer;
  attempt_ : nat;
  events_ : list (nat * Event)
}.

Definition set_phase v s := mkClient (connection_timeout s) v (stop_requested_ s) (client_session_ s) (attempt_ s) (events_ s).
Definition set_stop_requested v s := mkClient (connection_timeout s) (phase_ s) v (client_session_ s) (attempt_ s) (events_ s).
Definition set_client_session v s := mkClient (connection_timeout s) (phase_ s) (stop_requested_ s) v (attempt_ s) (events_ s).
Definition set_attempt v s := mkClient (connection_timeout s) (phase_ s) (stop_requested_ s) (client_session_ s) v (events_ s).

Definition fire (e : Event) (s : Client) : Client :=
  mkClient (connection_timeout s) (phase_ s) (stop_requested_ s) (client_session_ s) (attempt_ s) (events_ s ++ [(attempt_ s, e)]).

Definition Client_new (timeout : Z) : Client := mkClient timeout Idle false None 0 [].

Definition upd_session (f : Peer -> Peer) (s : Client) : Client := set_client_session (f <$> client_session_ s) s.

Definition session_alive (s : Client) : bool := match client_session_ s with Some p => PeerAlive p | None => false end.
Definition session_ready (s : Client) : bool := match client_session_ s with Some p => PeerReady p | None => false end.

(** [backend]: what the backend's [Connect] returns and the session it has, with the
    encoder attached to it; [None] without a backend. *)
Definition Connect (backend : option (Result * Peer)) (s : Client) : Result * Client :=
  if negb (bool_decide (phase_ s = Idle)) && negb (bool_decide (phase_ s = Joined)) then (AlreadyConnected, s)
  else match backend with
       | None => (InvalidBackend, s)
       | Some (result, session) =>
           if negb (bool_decide (result = Success)) then (result, s)
           else (Success, set_phase Setup (set_stop_requested false (set_client_session (Some session) (set_attempt (S (attempt_ s)) s))))
       end.

(** One turn of the first loop, from its condition on; [now]: the clock. *)
Definition setup_turn (now : Z) (s : Client) : Client :=
  if negb (session_ready s) && session_alive s && negb (stop_requested_ s) then
    let s := upd_session PeerProcess s in
    match client_session_ s with
    | Some p => if (0 <? connection_timeout s) && (connection_timeout s <? now - connect_time p) then upd_session (PeerClose false) s else s
    | None => s
    end
  else set_phase Deciding s.

(** The test after the loop. *)
Definition decide_outcome (s : Client) : Client :=
  if negb (session_alive s) || stop_requested_ s then set_phase Failing s
  else set_phase Running (fire ClientConnectedToServer s).

(** A deliberate stop is not a failure. *)
Definition report_failure (s : Client) : Client :=
  set_phase Finished (if negb (stop_requested_ s) then fire ClientConnectionFailed s else s).

(** One turn of the second loop, from its condition on. *)
Definition run_turn (s : Client) : Client :=
  if session_alive s && negb (stop_requested_ s) then upd_session PeerProcess s
  else set_phase Finished (fire ClientDisconnectedFromServer s).

(** The thread's next step. *)
Definition thread_step (now : Z) (s : Client) : Client :=
  match phase_ s with
  | Setup => setup_turn now s
  | Deciding => decide_outcome s
  | Failing => report_failure s
  | Running => run_turn s
  | Idle | Finished | Joined => s
  end.

(** [result]: what closing the session says. *)
Definition Disconnect (no_linger : bool) (result : Result) (s : Client) : Result * Client :=
  match client_session_ s with
  | None => (Failure, s)
  | Some _ => (result, upd_session (PeerClose no_linger) s)
  end.

(** Where [Wait] returns. *)
Definition Wait (s : Client) : Client := if bool_decide (phase_ s = Finished) then set_phase Joined s else s.

(** Once the thread has been joined. *)
Definition ReleaseSession (s : Client) : Client :=
  if negb (bool_decide (is_Some (client_session_ s))) || session_alive s then s
  else set_client_session None (upd_session PeerRelease (Wait s)).

(** The destructor up to its join. *)
Definition request_stop (s : Client) : Client := set_stop_requested true (Disconnect false Success s).2.

End Client.

End Client.

(** ** What the client tells the application

    By induction over every interleaving of the client's thread and the application:
    each attempt is told exactly one way of ending, and an attempt with a deadline is
    settled. *)

Import Client.

Section Threads.
Context `{Ss : ServedSessions} `{!ServedLaws Ss}.

(** Until the destructor runs the application may connect again; a session of the
    backend has not run its handshake.  [ReleaseSession] goes on once the thread has
    returned. *)
Inductive client_step (s : Client) : Client -> Prop :=
  | ct_connect r p : stop_requested_ s = false -> PeerReady p = false -> client_step s (Connect (Some (r, p)) s).2
  | ct_no_backend : client_step s (Connect None s).2
  | ct_thread now : client_step s (thread_step now s)
  | ct_disconnect no_linger r : client_step s (Disconnect no_linger r s).2
  | ct_stop : client_step s (request_stop s)
  | ct_wait : phase_ s = Finished -> client_step s (Wait s)
  | ct_release : phase_ s = Idle \/ phase_ s = Finished \/ phase_ s = Joined -> client_step s (ReleaseSession s)
  | ct_outside f : outside f -> client_step s (upd_session f s).

Inductive client_reachable (timeout : Z) : Client -> Prop :=
  | cr_new : client_reachable timeout (Client_new timeout)
  | cr_step s s' : client_reachable timeout s -> client_step s s' -> client_reachable timeout s'.

(** ** The story of an attempt *)

Definition told (n : nat) (es : list (nat * Event)) : list Event := map snd (List.filter (fun e => (e.1 =? n)%nat) es).

Lemma told_app n es es' : told n (es ++ es') = told n es ++ told n es'.
Proof. unfold told. by rewrite List.filter_app, map_app. Qed.

Lemma told_one n m e : told n [(m, e)] = if (m =? n)%nat then [e] else [].
Proof. unfold told. cbn. by destruct (m =? n)%nat. Qed.

Definition settled (es : list Event) : Prop := es = [ClientConnectionFailed] \/ es = [ClientConnectedToServer; ClientDisconnectedFromServer].

(** What the current attempt has been told, by where the thread is. *)
Definition current (s : Client) (es : list Event) : Prop :=
  match phase_ s with
  | Idle => attempt_ s = 0%nat /\ es = []
  | Setup => es = [] /\ is_Some (client_session_ s)
  | Deciding => es = [] /\ is_Some (client_session_ s) /\ (session_alive s = true -> stop_requested_ s = false -> session_ready s = true)
  | Failing => es = [] /\ (stop_requested_ s = false -> session_alive s = false)
  | Running => es = [ClientConnectedToServer] /\ session_ready s = true
  | Finished | Joined => settled es \/ es = [] /\ stop_requested_ s = true
  end.

Record client_ok (s : Client) : Prop := {
  ck_current : current s (told (attempt_ s) (events_ s));
  ck_begun : phase_ s <> Idle -> (0 < attempt_ s)%nat;
  ck_past n : (0 < n < attempt_ s)%nat -> settled (told n (events_ s));
  ck_future n : (n = 0 \/ attempt_ s < n)%nat -> told n (events_ s) = []
}.

(** Steps that only touch the session. *)
Lemma session_step s f : (forall p, PeerReady (f p) = PeerReady p /\ (PeerAlive p = false -> PeerAlive (f p) = false)) -> client_ok s -> client_ok (upd_session f s).
Proof.
  intros Hf [H1 Hb H2 H3]. split; [|done..]. unfold current, session_alive, session_ready in *. cbn [upd_session phase_ set_client_session attempt_ events_ client_session_ stop_requested_].
  destruct (client_session_ s) as [p|]; [|destruct (phase_ s); exact H1]. cbn in *. destruct (Hf p) as [Hr Ha]. rewrite Hr.
  destruct (phase_ s); try done; destruct H1 as [? H1]; (split; [done|]).
  - by eexists.
  - split; [by eexists|]. intros Hal. apply H1. destruct (PeerAlive p); [done|]. by rewrite Ha in Hal.
  - intros Hs. by apply Ha, H1.
Qed.

Lemma close_session b s : client_ok s -> client_ok (upd_session (PeerClose b) s).
Proof. apply session_step. intros p. split; [apply PeerClose_ready|intros _; apply PeerClose_dead]. Qed.

Lemma fire_told e n s : told n (events_ (fire e s)) = told n (events_ s) ++ (if (attempt_ s =? n)%nat then [e] else []).
Proof. unfold fire. cbn [events_ attempt_]. by rewrite told_app, told_one. Qed.

(** The thread has told the application something of the current attempt. *)
Lemma fired s e ph : client_ok s -> (0 < attempt_ s)%nat ->
  current (set_phase ph (fire e s)) (told (attempt_ s) (events_ s) ++ [e]) -> client_ok (set_phase ph (fire e s)).
Proof.
  intros [H1 Hb H2 H3] Hn Hc. split; cbn [set_phase attempt_ events_]; [|done| |].
  - change (events_ (set_phase ph (fire e s))) with (events_ (fire e s)). change (attempt_ (set_phase ph (fire e s))) with (attempt_ s). rewrite fire_told, Nat.eqb_refl. exact Hc.
  - intros n Hlt. change (events_ (set_phase ph (fire e s))) with (events_ (fire e s)). cbn in Hlt. rewrite fire_told. destruct (Nat.eqb_spec (attempt_ s) n); [lia|].
    rewrite app_nil_r. by apply H2.
  - intros n Hlt. cbn in Hlt. change (events_ (set_phase ph (fire e s))) with (events_ (fire e s)). rewrite fire_told. destruct (Nat.eqb_spec (attempt_ s) n); [lia|].
    rewrite app_nil_r. by apply H3.
Qed.

Lemma moved s ph : client_ok s -> (0 < attempt_ s)%nat -> current (set_phase ph s) (told (attempt_ s) (events_ s)) -> client_ok (set_phase ph s).
Proof. intros [H1 Hb H2 H3] Hn Hc. by split. Qed.

Lemma setup_ok now s : phase_ s = Setup -> client_ok s -> client_ok (setup_turn now s).
Proof.
  intros Hp H. unfold setup_turn. destruct (negb (session_ready s) && _ && _) eqn:E.
  - assert (client_ok (upd_session PeerProcess s)) as H'.
    { destruct H as [H1 Hb H2 H3]. split; [|done..]. unfold current in *. cbn. rewrite Hp in *. split; [apply H1|]. destruct H1 as [_ [p ->] ]. by eexists. }
    clear E. destruct (client_session_ (upd_session PeerProcess s)); [|done]. destruct (_ && _); [by apply close_session|done].
  - pose proof H as [H1 Hb _ _]. unfold current in H1. rewrite Hp in *. apply moved; [done|by apply Hb|]. destruct H1 as [H1 Hs]. split; [done|]. split; [done|].
    cbn. intros Ha Hst. change (session_alive s = true) in Ha. rewrite Ha, Hst in E. change (session_ready s = true). by destruct (session_ready s).
Qed.

Lemma thread_ok now s : client_ok s -> client_ok (thread_step now s).
Proof.
  intros H. pose proof H as [H1 Hb _ _]. unfold thread_step. unfold current in H1. destruct (phase_ s) eqn:Hp; try done; specialize (Hb ltac:(done)).
  - by apply setup_ok.
  - destruct H1 as (H1 & _ & Hr). unfold decide_outcome. destruct (negb (session_alive s) || stop_requested_ s) eqn:E.
    + apply moved; [done|done|]. split; [done|]. cbn. intros Hs. change (session_alive s = false). rewrite Hs, orb_false_r in E. by destruct (session_alive s).
    + apply orb_false_iff in E as [Ea Es]. apply negb_false_iff in Ea. apply fired; [done|done|]. rewrite H1. split; [done|]. by apply Hr.
  - destruct H1 as [H1 Hd]. unfold report_failure. destruct (stop_requested_ s) eqn:Es; cbn [negb].
    + apply moved; [done|done|]. right. by split.
    + apply fired; [done|done|]. rewrite H1. left. by left.
  - destruct H1 as [H1 Hr]. unfold run_turn. destruct (_ && _).
    + destruct H as [_ Hb' H2 H3]. split; [|done..]. unfold current. cbn. rewrite Hp. split; [done|]. unfold session_ready in *. cbn.
      destruct (client_session_ s); [|done]. by apply PeerProcess_ready.
    + apply fired; [done|done|]. rewrite H1. left. by right.
Qed.

(** With the thread gone only the session moves. *)
Lemma wait_ok s : client_ok s -> client_ok (Wait s).
Proof.
  intros H. unfold Wait. case_bool_decide as Hp; [|done]. pose proof H as [H1 Hb _ _]. unfold current in H1. rewrite Hp in *. apply moved; [done|by apply Hb|exact H1].
Qed.

Lemma client_step_kept s s' : client_step s s' -> client_ok s -> client_ok s'.
Proof.
  intros Hst H. destruct Hst as [r p Hs Hp| |now|b r| |Hp|Hp|f Hf].
  - unfold Connect. destruct (negb (bool_decide (phase_ s = Idle)) && _) eqn:E; [done|]. destruct (negb (bool_decide (r = Success))); [done|]. cbn [snd].
    destruct H as [H1 Hb H2 H3]. split; cbn [set_phase set_stop_requested set_client_session set_attempt attempt_ events_ phase_].
    + unfold current. cbn. split; [apply H3; lia|by eexists].
    + lia.
    + intros n Hn. destruct (decide (n = attempt_ s)) as [->|Hne]; [|apply H2; lia]. unfold current in H1.
      apply andb_false_iff in E as [E|E]; apply negb_false_iff, bool_decide_eq_true in E; rewrite E in H1; [destruct H1; lia|]. destruct H1 as [?|[_ ?] ]; [done|congruence].
    + intros n Hn. apply H3. lia.
  - unfold Connect. by destruct (_ && _).
  - by apply thread_ok.
  - unfold Disconnect. destruct (client_session_ s); [by apply close_session|done].
  - unfold request_stop. assert (client_ok (Disconnect false Success s).2) as H' by (unfold Disconnect; destruct (client_session_ s); [by apply close_session|done]).
    destruct H' as [H1 Hb H2 H3]. set (s1 := (Disconnect false Success s).2) in *. split; [|done..]. unfold current in *. cbn.
    destruct (phase_ s1); try done; [destruct H1 as (? & ? & ?); by split_and!|destruct H1; by split|destruct H1 as [?|[? ?] ]; [by left|by right]..].
  - by apply wait_ok.
  - unfold ReleaseSession. destruct (_ || _); [done|]. pose proof (wait_ok s H) as [H1 Hb H2 H3]. split; [|done..]. unfold current in *. cbn.
    assert (phase_ (Wait s) = Idle \/ phase_ (Wait s) = Joined) as Hw by (unfold Wait; case_bool_decide; [by right|]; naive_solver).
    by destruct Hw as [Hw|Hw]; rewrite Hw in *.
  - by apply session_step.
Qed.

Lemma client_reachable_kept timeout s : client_reachable timeout s -> client_ok s.
Proof. induction 1 as [|s s' _ IH Hst]; [|by apply (client_step_kept s)]. split; cbn; [done|done|lia|done]. Qed.

(** [C19] The application is told of each attempt to connect exactly one way it ended:
    under every interleaving an attempt that is over was told that it failed, or that
    it connected and then that it disconnected, and nothing else; only an attempt
    stopped by the destructor is told nothing.  While the second loop runs it has been
    told that it connected, and its session is ready. *)
Theorem client_told_once timeout s : client_reachable timeout s ->
  (forall n, (0 < n < attempt_ s)%nat -> settled (told n (events_ s))) /\
  (phase_ s = Finished \/ phase_ s = Joined -> settled (told (attempt_ s) (events_ s)) \/ told (attempt_ s) (events_ s) = [] /\ stop_requested_ s = true) /\
  (phase_ s = Running -> told (attempt_ s) (events_ s) = [ClientConnectedToServer] /\ session_ready s = true) /\
  (forall n, told n (events_ s) = [] \/ told n (events_ s) = [ClientConnectedToServer] \/ settled (told n (events_ s))).
Proof.
  intros H%client_reachable_kept. destruct H as [H1 Hb H2 H3]. unfold current in H1. split_and!; [done| | |].
  - intros [E|E]; by rewrite E in H1.
  - intros E. by rewrite E in H1.
  - intros n. destruct (decide (n = attempt_ s)) as [->|Hne]; [destruct (phase_ s); naive_solver|].
    destruct (decide (n = 0 \/ attempt_ s < n)%nat) as [Hd|Hd]; [left; by apply H3|]. right; right. apply H2. lia.
Qed.

(** ** An attempt with a deadline is settled *)

Definition run (nows : list Z) (s : Client) : Client := foldl (fun s now => thread_step now s) s nows.

Lemma run_app nows nows' s : run (nows ++ nows') s = run nows' (run nows s).
Proof. apply foldl_app. Qed.

(** Past the first loop. *)
Definition past_setup (s : Client) : Prop :=
  match phase_ s with
  | Deciding | Failing => True
  | Running | Finished | Joined => told (attempt_ s) (events_ s) <> []
  | Idle | Setup => False
  end.

Lemma fire_nonempty e s : told (attempt_ s) (events_ (fire e s)) <> [].
Proof. rewrite fire_told, Nat.eqb_refl. by destruct (told _ _). Qed.

Lemma past_step now s : stop_requested_ s = false -> past_setup s -> past_setup (thread_step now s) /\ stop_requested_ (thread_step now s) = false.
Proof.
  intros Hs H. unfold thread_step, past_setup in *. destruct (phase_ s) eqn:Hp; try done.
  - unfold decide_outcome. destruct (_ || _); (split; [|done]); [done|]. apply (fire_nonempty ClientConnectedToServer s).
  - unfold report_failure. rewrite Hs. split; [|done]. apply (fire_nonempty ClientConnectionFailed s).
  - unfold run_turn. destruct (_ && _); (split; [|done]); [cbn; by rewrite Hp|]. apply (fire_nonempty ClientDisconnectedFromServer s).
  - by rewrite Hp.
  - by rewrite Hp.
Qed.

(** Steps until the application has been told. *)
Definition owed (s : Client) : nat := match phase_ s with Deciding => 2 | Failing => 1 | _ => 0 end.

Lemma owed_most s : (owed s <= 2)%nat.
Proof. unfold owed. destruct (phase_ s); lia. Qed.

Lemma owed_step now s : past_setup s -> (owed (thread_step now s) <= owed s - 1)%nat.
Proof.
  unfold past_setup, owed, thread_step. destruct (phase_ s) eqn:Hp; intros H; try done; cbn; rewrite ?Hp; try lia.
  - unfold decide_outcome. destruct (_ || _); cbn; lia.
  - unfold run_turn. destruct (_ && _); cbn; rewrite ?Hp; lia.
Qed.

Lemma past_told nows s : stop_requested_ s = false -> past_setup s -> (owed s <= length nows)%nat -> told (attempt_ (run nows s)) (events_ (run nows s)) <> [].
Proof.
  revert s. induction nows as [|now nows IH]; intros s Hs H Hl; cbn in Hl.
  - unfold past_setup, owed in *. cbn. destruct (phase_ s); try done; lia.
  - destruct (past_step now s Hs H) as [H' Hs']. pose proof (owed_step now s H). apply (IH (thread_step now s)); [done|done|lia].
Qed.

(** A turn of the first loop at [now]. *)
Lemma setup_step now s p : phase_ s = Setup -> client_session_ s = Some p -> stop_requested_ s = false -> 0 < connection_timeout s ->
  let s' := thread_step now s in
  stop_requested_ s' = false /\ connection_timeout s' = connection_timeout s /\
  (past_setup s' \/ phase_ s' = Setup /\ (connection_timeout s < now - connect_time p -> session_alive s' = false) /\
     exists p', client_session_ s' = Some p' /\ (connect_time p' = connect_time p \/ session_alive s' = false)).
Proof.
  intros Hp Hc Hs Ht. unfold thread_step. rewrite Hp. unfold setup_turn. destruct (_ && _); [|split; [done|]; split; [done|]; by left].
  unfold upd_session, session_alive. rewrite Hc. cbn. rewrite PeerProcess_time. destruct (_ && _) eqn:E; cbn.
  - split; [done|]. split; [done|]. right. split; [done|]. split; [intros _; apply PeerClose_dead|]. eexists. split; [done|]. right. apply PeerClose_dead.
  - split; [done|]. split; [done|]. right. split; [done|]. split; [lia|]. eexists. split; [done|]. left. apply PeerProcess_time.
Qed.

Lemma dead_step now s : phase_ s = Setup -> session_alive s = false -> past_setup (thread_step now s) /\ stop_requested_ (thread_step now s) = stop_requested_ s.
Proof. intros Hp Ha. unfold thread_step. rewrite Hp. unfold setup_turn. rewrite Ha, andb_false_r. done. Qed.

Lemma past_run nows s : stop_requested_ s = false -> past_setup s -> past_setup (run nows s) /\ stop_requested_ (run nows s) = false.
Proof. revert s. induction nows as [|now nows IH]; intros s Hs H; [done|]. destruct (past_step now s Hs H). by apply IH. Qed.

(** [C20] An attempt with a deadline is settled: whatever the session does, once the
    clock has passed the deadline the thread, in three more of its steps, has told the
    application that the attempt connected or that it failed. *)
Theorem attempt_settles s p pre now post : phase_ s = Setup -> client_session_ s = Some p -> stop_requested_ s = false -> 0 < connection_timeout s ->
  connection_timeout s < now - connect_time p -> (3 <= length post)%nat ->
  let s' := run (pre ++ now :: post) s in told (attempt_ s') (events_ s') <> [].
Proof.
  intros Hp Hc Hs Ht Hnow Hl. cbn zeta. rewrite run_app.
  assert (stop_requested_ (run pre s) = false /\ (past_setup (run pre s) \/ phase_ (run pre s) = Setup /\
    (session_alive (run pre s) = false \/ exists p', client_session_ (run pre s) = Some p' /\ connect_time p' = connect_time p /\ 0 < connection_timeout (run pre s) < now - connect_time p'))) as [Hs1 Hpre].
  { clear post Hl. revert s p Hp Hc Hs Ht Hnow. induction pre as [|n pre IH]; intros s p Hp Hc Hs Ht Hnow.
    - cbn. split; [done|]. right. split; [done|]. right. exists p. split_and!; done.
    - destruct (setup_step n s p Hp Hc Hs Ht) as (Hs' & Et & [H|(Hp' & _ & p' & Hc' & Ep)]); [destruct (past_run pre _ Hs' H); split; [done|by left]|].
      destruct Ep as [Ep|Hd].
      + destruct (IH _ p' Hp' Hc' Hs') as [? Hr]; [by rewrite Et|rewrite Et, Ep; done|]. split; [done|]. by rewrite Ep in Hr.
      + cbn [run foldl]. change (foldl _ ?x pre) with (run pre x). destruct pre as [|m pre]; [cbn; split; [done|]; right; split; [done|]; by left|].
        destruct (dead_step m _ Hp' Hd) as [H1 H2]. rewrite Hs' in H2. destruct (past_run pre _ H2 H1). split; [done|by left]. }
  destruct post as [|m post]; [cbn in Hl; lia|]. cbn in Hl. change (run (now :: m :: post) (run pre s)) with (run post (thread_step m (thread_step now (run pre s)))).
  set (s1 := run pre s) in *. enough (past_setup (thread_step m (thread_step now s1)) /\ stop_requested_ (thread_step m (thread_step now s1)) = false) as [H1 H2] by (apply past_told; [done|done|etransitivity; [apply owed_most|lia] ]).
  destruct Hpre as [H|[Hp1 [Hd|(p' & Hc1 & Ep & Ht1 & Hn1)] ] ].
  - destruct (past_step now s1 Hs1 H). by apply past_step.
  - destruct (dead_step now s1 Hp1 Hd) as [H1 H2]. rewrite Hs1 in H2. by apply past_step.
  - destruct (setup_step now s1 p' Hp1 Hc1 Hs1 Ht1) as (Hs2 & _ & [H|(Hp2 & Hd & _)]); [by apply past_step|].
    destruct (dead_step m _ Hp2 (Hd Hn1)) as [H1 H2]. split; [done|congruence].
Qed.

End Threads.
