(* ===== verification/ServerMainExamples.v ===== *)
(** * A server and a client at work

    The claims about the server on a concrete one with two workers and a cap of one,
    whose sessions are [PeerSession]s: a client runs its handshake, is promoted,
    another is refused, and the server is stopped, joined and started again.  Then a
    client connects, is disconnected, and connects again to a server that never
    answers. *)

From S2P Require Import Prelude Buffer BufferSpec BufferViews Codec ReplayWindow Encryption CryptoExample Compression InetAddr Admission ZdtOptions ZdtState ZdtServer Session SessionHandshake SessionExamples ServerMain ServerMainTheorems ServerSessions ClientMain.

Import Session Server.

Module ServerMainExamples.

#[local] Existing Instance Toy.toy.
#[local] Existing Instance SessionExamples.toy_zstd.
#[local] Instance little : Platform := host LittleEndian.

#[local] Instance pipe_closing : Closing pipe.
Proof. split. done. Qed.

#[local] Instance served : ServedSessions := served_sessions (T := pipe) SessionExamples.no_id evp_ok.

#[local] Instance laws : ServedLaws served := served_laws _ _.

Abbreviation Connection := (Z * @PeerSession Toy.toy pipe Empty_set)%type.

Definition walk (m : gmap nat Peer) : list (nat * Peer) := map_to_list m.

Lemma walks m : walk m ≡ₚ map_to_list m.
Proof. done. Qed.

Definition connected : Peer -> Peer := install (T := pipe) ∅.

Lemma installs p : PeerReady (connected p) = PeerReady p.
Proof. done. Qed.

Definition config : ServerConfig := mkConfig 1 10.
Definition now (_ : nat) : Z := 5.

(** A fresh session of the accepting side. *)
Definition arrival : Peer := (0, SessionExamples.server).

(** What the client sends first, and in answer to the server. *)
Definition hello : list (list Z) := outq (link_ (T := pipe) SessionExamples.client).

Definition ready : list (list Z) :=
  let '(c, s) := turn SessionExamples.no_id SessionExamples.client SessionExamples.server in
  outq (link_ (T := pipe) (turn SessionExamples.no_id s c).2).

(** The network, and a peer that hangs up. *)
Definition deliver (ms : list (list Z)) (p : Connection) : Connection :=
  (p.1, set_link (T := pipe) (mkPipe (inq (link_ (T := pipe) p.2) ++ ms) (outq (link_ (T := pipe) p.2)) (closed (link_ (T := pipe) p.2))) p.2).

Definition hang_up (p : Connection) : Connection := (p.1, Close (T := pipe) false p.2).

Lemma deliver_outside ms : outside (deliver ms).
Proof. by intros p. Qed.

Lemma hang_up_outside : outside hang_up.
Proof. by intros p. Qed.

(** ** The states *)

Definition listening : Server := (Listen (Some Success) (Server_new config 2)).2.
Definition accepted : Server := accept_one listening arrival.
Definition greeted : Server := set_pending (alter (deliver hello) 0%nat (pending_sessions_ accepted)) accepted.
Definition answered : Server := sweep walk now greeted.
Definition agreed : Server := set_pending (alter (deliver ready) 0%nat (pending_sessions_ answered)) answered.
Definition swept : Server := sweep walk now agreed.
Definition promoted : Server := promote_one connected swept.
Definition refused : Server := accept_one promoted arrival.
Definition lost : Server :=
  set_tasks (alter (fun data => mkTask (alter hang_up 0%nat (sessions_ data)) (count_ data) (publishing_ data)) 0%nat (tasks_ refused)) refused.
Definition reported : Server := worker_pass walk 0 lost.
Definition published : Server := worker_publish 0 reported.
Definition again : Server := accept_one published arrival.
Definition closed_down : Server := (Stop (Some Success) again).2.
Definition left : Server := leave_loop closed_down.
Definition cleared : Server := clear_one walk (clear_one walk left).
Definition disconnected : Server := DisconnectPending walk now (set_phase Disconnecting cleared).
Definition stopped : Server := finish disconnected.

Abbreviation reach := (server_reachable walk connected config 2).

Lemma listening_reach : reach listening.
Proof. exact (sr_step _ _ _ _ (Server_new config 2) _ (sr_new _ _ _ _) (ss_listen _ _ _ _)). Qed.

Lemma greeted_reach : reach greeted.
Proof.
  apply (sr_step _ _ _ _ accepted); [|apply (ss_pending walk connected accepted 0 (deliver hello)), deliver_outside].
  apply (sr_step _ _ _ _ listening); [apply listening_reach|]. apply (ss_accept walk connected listening arrival); vm_compute; reflexivity.
Qed.

Lemma swept_reach : reach swept.
Proof.
  apply (sr_step _ _ _ _ agreed); [|apply (ss_sweep walk connected agreed now); vm_compute; reflexivity].
  apply (sr_step _ _ _ _ answered); [|apply (ss_pending walk connected answered 0 (deliver ready)), deliver_outside].
  apply (sr_step _ _ _ _ greeted); [apply greeted_reach|]. apply (ss_sweep walk connected greeted now); vm_compute; reflexivity.
Qed.

Lemma refused_reach : reach refused.
Proof.
  apply (sr_step _ _ _ _ promoted); [|apply (ss_accept walk connected promoted arrival); vm_compute; reflexivity].
  apply (sr_step _ _ _ _ swept); [apply swept_reach|apply (ss_promote walk connected swept)].
Qed.

Lemma idle_worker : forall data, tasks_ lost !! 0%nat = Some data -> publishing_ data = false.
Proof.
  intros data Hd. assert (E : (publishing_ <$> tasks_ lost !! 0%nat) = Some false) by (vm_compute; reflexivity). rewrite Hd in E. by injection E.
Qed.

Lemma reported_reach : reach reported.
Proof.
  apply (sr_step _ _ _ _ lost); [|apply (ss_worker walk connected lost 0), idle_worker].
  apply (sr_step _ _ _ _ refused); [apply refused_reach|]. apply (ss_served walk connected refused 0 0 hang_up), hang_up_outside.
Qed.

Lemma again_reach : reach again.
Proof.
  apply (sr_step _ _ _ _ published); [|apply (ss_accept walk connected published arrival); vm_compute; reflexivity].
  apply (sr_step _ _ _ _ reported); [apply reported_reach|apply (ss_publish walk connected reported 0)].
Qed.

Lemma stopped_reach : reach stopped.
Proof.
  apply (sr_step _ _ _ _ disconnected); [|apply (ss_finish walk connected disconnected); vm_compute; reflexivity].
  apply (sr_step _ _ _ _ cleared); [|apply (ss_disconnect walk connected cleared now); [|apply nil_length_inv|]; vm_compute; reflexivity].
  apply (sr_step _ _ _ _ (clear_one walk left)); [|apply (ss_clear walk connected (clear_one walk left)); vm_compute; reflexivity].
  apply (sr_step _ _ _ _ left); [|apply (ss_clear walk connected left); vm_compute; reflexivity].
  apply (sr_step _ _ _ _ closed_down); [|apply (ss_leave walk connected closed_down); vm_compute; reflexivity].
  apply (sr_step _ _ _ _ again); [apply again_reach|apply (ss_stop walk connected again (Some Success))].
Qed.

(** ** What happened *)

Example the_story : events_ stopped = [ServerStartup; ClientConnected 0; ClientDisconnected 0; ServerShutdown].
Proof. vm_compute. reflexivity. Qed.

Lemma served_at (s : Server) i id : is_Some (tasks_ s !! i ≫= fun data => sessions_ data !! id) -> exists p, serves s i id p.
Proof. intros [p Hp]. exists p. destruct (tasks_ s !! i) as [data|] eqn:E; [|done]. by exists data. Qed.

Lemma events_pair_up_witness :
  story 0 (events_ refused) = [ClientConnected 0] /\ (exists p, serves refused 0 0 p) /\
  story 0 (events_ reported) = [ClientConnected 0; ClientDisconnected 0] /\
  (forall i id p, serves refused i id p -> story id (events_ refused) = [ClientConnected id] /\ PeerReady p = true /\
     forall j q, serves refused j id q -> j = i).
Proof.
  split_and!; [vm_compute; reflexivity| |vm_compute; reflexivity|].
  - apply served_at. apply (bool_decide_unpack _). vm_compute. exact I.
  - apply (events_pair_up walk connected walks installs config 2 refused refused_reach).
Defined.

(** The second client is refused while the first is served. *)
Lemma cap_holds_witness :
  next_session_ refused = 2%nat /\
  Z.of_nat (size (pending_sessions_ refused) + sum_list_with (fun data => size (sessions_ data)) (tasks_ refused)) = 1 /\
  Z.of_nat (size (pending_sessions_ refused) + sum_list_with (fun data => size (sessions_ data)) (tasks_ refused)) <= 1.
Proof.
  split_and!; [vm_compute; reflexivity..|]. apply (cap_holds walk connected walks installs config 2 refused refused_reach). cbn. lia.
Defined.

Lemma shutdown_closes_everything_witness :
  next_session_ stopped = 3%nat /\ pending_sessions_ stopped = ∅ /\ tasks_ stopped = [] /\
  (forall id, (id < next_session_ stopped)%nat -> id ∈ (gone_ stopped).*1) /\ Forall (fun e => PeerAlive e.2 = false) (gone_ stopped).
Proof.
  split; [vm_compute; reflexivity|].
  apply (shutdown_closes_everything walk connected walks config 2 stopped stopped_reach). vm_compute. reflexivity.
Defined.

(** A count that lags makes the check of the cap strict, not lenient: the worker has
    dropped its only session and not yet published it, the server has nobody, and the
    next connection is turned away all the same; once the count is out, it is taken. *)
Example lagging_count_refuses :
  reach reported /\
  size (pending_sessions_ reported) = 0%nat /\ sum_list_with (fun data => size (sessions_ data)) (tasks_ reported) = 0%nat /\
  max_connections (config_ reported) = 1 /\
  size (pending_sessions_ (accept_one reported arrival)) = 0%nat /\
  (gone_ (accept_one reported arrival)).*1 = [1; 0; 2]%nat /\
  size (pending_sessions_ again) = 1%nat.
Proof. split; [apply reported_reach|]. split_and!; vm_compute; reflexivity. Qed.

(** ** The server is started again *)

Definition joined : Server := Wait stopped.

Lemma joined_reach : reach joined.
Proof. apply (sr_step _ _ _ _ stopped); [apply stopped_reach|apply (ss_wait walk connected stopped); vm_compute; reflexivity]. Qed.

Definition listening' : Server := (Listen (Some Success) joined).2.
Definition greeted' : Server := set_pending (alter (deliver hello) 3%nat (pending_sessions_ (accept_one listening' arrival))) (accept_one listening' arrival).
Definition answered' : Server := sweep walk now greeted'.
Definition agreed' : Server := set_pending (alter (deliver ready) 3%nat (pending_sessions_ answered')) answered'.
Definition promoted' : Server := promote_one connected (sweep walk now agreed').

Lemma restarted_steps : rtc (server_step walk connected) listening' promoted'.
Proof.
  apply (rtc_l _ _ (accept_one listening' arrival)); [apply (ss_accept walk connected listening' arrival); vm_compute; reflexivity|].
  apply (rtc_l _ _ greeted'); [apply (ss_pending walk connected (accept_one listening' arrival) 3 (deliver hello)), deliver_outside|].
  apply (rtc_l _ _ answered'); [apply (ss_sweep walk connected greeted' now); vm_compute; reflexivity|].
  apply (rtc_l _ _ agreed'); [apply (ss_pending walk connected answered' 3 (deliver ready)), deliver_outside|].
  apply (rtc_l _ _ (sweep walk now agreed')); [apply (ss_sweep walk connected agreed' now); vm_compute; reflexivity|].
  apply rtc_once, (ss_promote walk connected (sweep walk now agreed')).
Qed.

(** The client that meets the restarted server becomes ready and is closed. *)
Lemma restarted_server_serves_nobody_witness :
  promote_ (sweep walk now agreed') = [3%nat] /\ bool_decide (3%nat ∈ (gone_ promoted').*1) = true /\
  (Listen (Some Success) joined).1 = Success /\ tasks_ promoted' = [] /\
  forall id, ClientConnected id ∈ events_ promoted' -> ClientConnected id ∈ events_ joined.
Proof.
  split; [vm_compute; reflexivity|]. split; [vm_compute; reflexivity|].
  destruct (restarted_server_serves_nobody walk connected walks config 2 joined promoted' joined_reach) as [H1 H2]; [vm_compute; reflexivity|].
  split; [exact H1|]. exact (H2 restarted_steps).
Defined.

End ServerMainExamples.

(** ** The client *)

Import Session Client ServerMainExamples.

Module ClientMainExamples.

#[local] Existing Instance Toy.toy.
#[local] Existing Instance SessionExamples.toy_zstd.
#[local] Existing Instance ServerMainExamples.little.
#[local] Existing Instance ServerMainExamples.served.
#[local] Existing Instance ServerMainExamples.laws.

(** A session made at time zero. *)
Definition dialled : Peer := (0, SessionExamples.client).

(** What the server answers to the client's first message, and to its second. *)
Definition answers : list (list Z) * list (list Z) :=
  let '(c, s) := turn SessionExamples.no_id SessionExamples.client SessionExamples.server in
  let '(s', c) := turn SessionExamples.no_id s c in
  let '(_, s'') := turn SessionExamples.no_id c s' in
  (outq (link_ (T := pipe) s), outq (link_ (T := pipe) s'')).

Definition connecting : Client := (Connect (Some (Success, dialled)) (Client_new 10)).2.
Definition heard : Client := upd_session (deliver answers.1) connecting.
Definition answered : Client := thread_step 1 heard.
Definition heard_more : Client := upd_session (deliver answers.2) answered.
Definition agreed : Client := thread_step 2 heard_more.
Definition running : Client := thread_step 4 (thread_step 3 agreed).
Definition cut : Client := upd_session hang_up running.
Definition ended : Client := thread_step 5 cut.
Definition redialled : Client := (Connect (Some (Success, dialled)) (Wait ended)).2.

Lemma redialled_reach : client_reachable 10 redialled.
Proof.
  apply (cr_step _ (Wait ended)); [|apply (ct_connect (Wait ended) Success dialled); vm_compute; reflexivity].
  apply (cr_step _ ended); [|apply (ct_wait ended); vm_compute; reflexivity].
  apply (cr_step _ cut); [|apply (ct_thread cut 5)].
  apply (cr_step _ running); [|apply (ct_outside (Ss := served) running hang_up), hang_up_outside].
  apply (cr_step _ (thread_step 3 agreed)); [|apply (ct_thread (thread_step 3 agreed) 4)]. apply (cr_step _ agreed); [|apply (ct_thread agreed 3)].
  apply (cr_step _ heard_more); [|apply (ct_thread heard_more 2)].
  apply (cr_step _ answered); [|apply (ct_outside (Ss := served) answered (deliver answers.2)), deliver_outside].
  apply (cr_step _ heard); [|apply (ct_thread heard 1)].
  apply (cr_step _ connecting); [|apply (ct_outside (Ss := served) connecting (deliver answers.1)), deliver_outside].
  apply (cr_step _ (Client_new 10)); [apply cr_new|]. apply (ct_connect (Client_new 10) Success dialled); vm_compute; reflexivity.
Qed.

Lemma client_told_once_witness :
  phase_ redialled = Setup /\ told 1 (events_ redialled) = [ClientConnectedToServer; ClientDisconnectedFromServer] /\
  (forall n, (0 < n < attempt_ redialled)%nat -> settled (told n (events_ redialled))) /\
  (forall n, told n (events_ redialled) = [] \/ told n (events_ redialled) = [ClientConnectedToServer] \/ settled (told n (events_ redialled))).
Proof.
  split; [vm_compute; reflexivity|]. split; [vm_compute; reflexivity|].
  destruct (client_told_once 10 redialled redialled_reach) as (H1 & _ & _ & H2). split; [exact H1|exact H2].
Defined.

(** The second server never answers. *)
Lemma attempt_settles_witness :
  let s' := run ([1; 5] ++ 11 :: [12; 13; 14]) redialled in
  told 2 (events_ s') = [ClientConnectionFailed] /\ told (attempt_ s') (events_ s') <> [].
Proof.
  split; [vm_compute; reflexivity|].
  apply (attempt_settles redialled dialled [1; 5] 11 [12; 13; 14]); [vm_compute; reflexivity|reflexivity|vm_compute; reflexivity..|cbn; lia].
Defined.

End ClientMainExamples.
